(* ===== verification/_CoqProject ===== *)
-Q . S2P
Prelude.v
Arith256.v
Chain.v
Params.v
Pow.v
Headers.v
Serialize.v
Script.v
Transaction.v
Interpreter.v
SigHash.v
VerifyScript.v
InterpreterFacts.v
SignatureFacts.v
SigHashFacts.v
SoftFork.v
VerifyFacts.v
Block.v
Coins.v
TxVerify.v
Merkle.v
Subsidy.v
BlockChecks.v
Connect.v
ConnectFacts.v
ConnectExact.v
ChainSelection.v
ChainSelectionFacts.v
ChainActivation.v
Engine.v
Acceptance.v
Arrival.v
Processing.v
FullNode.v
Replay.v
VersionBits.v
Compressor.v
HashWriter.v
Sha256.v
Sha256Facts.v
Sha256Hash.v
Sha1.v
Ripemd160.v
Hashing.v
Fips202.v
Fips202Facts.v
MldsaPoly.v
Mldsa.v
MldsaArith.v
MldsaNtt.v
MldsaRing.v
MldsaPack.v
MldsaFacts.v
MldsaComplete.v
Hybrid.v
