(* ===== verification/Prelude.v ===== *)
(** * BitcoBoost consensus: a verification development

    BitcoBoost is a fork of Bitcoin Core 27.1 with the X16RV2 header hash, a
    slow-start emission, a founder reward, a fast retargeting period and a
    witness version 2 spent by an ECDSA and an ML-DSA-44 signature together.
    This library models the code that decides which headers, transactions,
    scripts and blocks are valid, how a block changes the set of unspent coins
    and which chain of blocks is active, with the ML-DSA implementation the
    signatures use, as executable definitions on integers, byte lists and
    finite maps, and proves what makes that code correct.  Paths below are
    relative to [src/src/].

    ** How the parts interact

    Headers arrive through [ProcessNewBlockHeaders], are checked against their
    own hash (X16RV2), the retargeting rule and the median time, and enter the
    block tree.  A block is checked on its own ([CheckBlock]), then in context
    ([ContextualCheckBlock]), then applied to the coin view
    ([ConnectBlock]), which runs the scripts of the inputs and writes undo data
    for [DisconnectBlock].  Views are caches stacked over the coin database.
    Chain selection ([ActivateBestChain]) drives these steps: it looks for the
    candidate with most work whose chain has no failed block, disconnects down
    to the fork, connects up to the candidate, and marks what fails.

    ** Files

    - [Prelude]: fixed-width integers ([wrap], [swrap]), digit lists, byte
      strings, the [result] type for errors, assertions and exceptions, and the
      tactics of the development.
    - [Arith256] ([arith_uint256.h/.cpp]): [base_uint<256>] as a list of eight
      32-bit limbs, the limb loops and the compact encoding of targets.
    - [Chain] ([chain.h/.cpp], [node/blockstorage.cpp]): [CBlockIndex] entries in
      a map keyed by block hash; a pointer is the hash of the entry it points
      to.  Skip list, work, median time, [AddToBlockIndex], [CChain].
    - [Params] ([consensus/params.h], [deploymentstatus.h],
      [kernel/chainparams.cpp]): consensus parameters; the main network.
    - [Pow] ([pow.cpp]): retargeting and the proof-of-work check.
    - [Headers] ([validation.cpp]): acceptance of headers.
    - [Serialize] ([serialize.h]): streams as byte lists, readers as functions
      to a [result]; CompactSize, VARINT, vectors.
    - [Script] ([script/script.h/.cpp]): opcodes, instruction reader, script
      numbers, signature operation counts.
    - [Transaction] ([primitives/transaction.h/.cpp], [consensus/tx_check.cpp],
      [consensus/amount.h]).
    - [Interpreter], [SigHash], [VerifyScript] ([script/interpreter.h/.cpp],
      [pubkey.cpp]): script evaluation, signature hashes and checkers, witness
      programs and the hybrid rule.  [InterpreterFacts], [SignatureFacts],
      [SigHashFacts], [SoftFork], [VerifyFacts]: the proofs about them.
    - [Block] ([primitives/block.h/.cpp], [hash.h], [consensus/validation.h]): the
      X16RV2 pipeline, blocks and their wire format, weights.
    - [Coins] ([coins.h/.cpp], [txdb.cpp]): [CCoinsView] as a type class with the
      class of laws [CCoinsViewLaws], the cache with its DIRTY and FRESH flags
      and its count of the memory of the coins over any lawful view, and the
      database with its partial batches.
    - [TxVerify] ([consensus/tx_verify.cpp], [script/interpreter.cpp]): finality,
      relative locks, signature operation costs, input checks.
    - [Merkle] ([consensus/merkle.cpp], [merkleblock.h/.cpp]).
    - [Subsidy] ([validation.cpp]): emission and founder reward.
    - [BlockChecks] ([validation.cpp]): checks of a block on its own and in
      context, the witness commitment.
    - [Connect], [ConnectFacts] ([validation.cpp], [undo.h]): connecting and
      disconnecting blocks, and the proofs about them; [ConnectExact]: the rules
      of a block as a predicate on coin sets, and that [ConnectBlock] decides it.
    - [ChainSelection], [ChainSelectionFacts], [ChainActivation]
      ([validation.cpp], [node/blockstorage.cpp]): candidates, the most-work
      search, activation, preferring, invalidating and reconsidering blocks,
      over an interface [BlockEngine] with the laws [EngineLaws]; [Engine]: its
      instance made of [ConnectBlock], [DisconnectBlock] and the coin caches;
      [Acceptance]: a block arrives.  [Arrival], [Processing]: acceptance keeps the
      state in order and the tip best, for any family of engines over growing
      trees ([EngineFamily]); [FullNode]: the family of [Engine], and every state
      that headers and blocks lead to.  [Replay]: [ReplayBlocks], which repairs
      the coin database after a crash.
    - [VersionBits] ([versionbits.h/.cpp], [deploymentstatus.h]): deployment of
      soft forks by signals, with its caches.
    - [Compressor] ([compressor.h/.cpp], [coins.h], [undo.h], [txdb.cpp]): the
      stored form of coins and undo data.
    - [HashWriter] ([crypto/common.h] and what the classes [CSHA256], [CSHA1] and
      [CRIPEMD160] share), [Sha256] ([crypto/sha256.cpp]), [Sha1]
      ([crypto/sha1.cpp]), [Ripemd160] ([crypto/ripemd160.cpp]): the portable
      code; [Sha256Facts], [Sha256Hash]: the standard and the proofs for SHA-256;
      [Hashing] ([hash.h], [hash.cpp], [consensus/merkle.cpp]): what the node
      computes with them.
    - [Fips202], [Fips202Facts] ([crypto/mldsa/fips202.c]): Keccak, SHAKE, SHA-3.
    - [MldsaPoly], [Mldsa] ([crypto/mldsa/]): polynomials, encodings, key
      generation, signing, verification.  [MldsaArith], [MldsaNtt], [MldsaRing],
      [MldsaPack], [MldsaFacts], [MldsaComplete]: the proofs about them.
    - [Hybrid]: the hybrid witness checked with this ML-DSA.

    In each file the definitions come first, in a module named after the
    component; a module [...Facts] holds its lemmas and a module [...Props] its
    theorems, with concrete inputs on which the hypotheses hold.

    ** What the theorems show

    - Arithmetic: every limb loop computes its operation modulo [2^256];
      division is exact; the compact form round-trips.
    - Chain: the skip list walk, fork point, active chain and chain work agree
      with their definitions on [pprev] links; insertion keeps the tree well
      formed and gives a new entry the parent, height, skip pointer and work its
      header calls for; the median time never decreases.
    - Proof of work: the retarget formula and its bounds where the product
      fits in 256 bits, agreement with [PermittedDifficultyTransition], and
      that on the main network the product does not fit.
    - Headers: whatever headers are processed, each entry of the tree has valid
      work, difficulty, time and version.
    - Wire formats: CompactSize, VARINT, transactions and blocks are bijections
      between values in range and accepted byte strings.
    - Coins: a stack of caches over the database refines a finite map of coins
      and passes its own sanity check, memory count included; a database write survives a crash at any commit; coins and undo data are
      read back from their stored form.
    - Scripts: checks never abort on well-formed inputs; more flags accept
      fewer spends; what the common outputs and the hybrid output require; what
      the signature hash commits to; the precomputed hashes change nothing, for
      legacy, version 0 and Taproot inputs.
    - Blocks: exact characterisations of [CheckTransaction], [CheckTxInputs],
      [SequenceLocks] and [CheckBlock], on every network; the Merkle root binds the transactions;
      Merkle proofs are complete and sound; emission; [ConnectBlock] decides
      the block rules, telling an invalid block from a corrupted copy, every spend of a connected block was verified, it cannot
      inflate the supply, and disconnecting restores the set before it.
    - Chain selection: activation terminates on the valid chain that is best by
      work, sequence and address, marks only what is invalid, and leaves the coin
      database holding the coins of exactly that chain.  Whatever headers and
      blocks arrive in whatever order, [ProcessNewBlock] returns, the node is
      on the best valid chain it has the blocks of, and no valid block is marked
      failed, even when copies with a tampered witness arrive first; what is
      assumed of arrivals is stated at the theorem.  After a crash in the middle
      of a database write, [ReplayBlocks] restores the coins of the chain.
    - Deployments: the cached computation of a deployment's state is the state
      machine of BIP 9, whose final states are final; the version of a new block
      signals for exactly the deployments in progress.
    - Hash functions: SHA-256, SHA-1 and RIPEMD-160 are the standard functions
      however the message is cut into writes, the precomputed double hash of 64
      bytes is SHA-256 twice, and the Merkle root may be computed in place.
    - ML-DSA: reductions and bounds in 32 bits, the transform multiplies in the
      ring, encodings are canonical, and signatures made by the signer verify;
      so a hybrid output can be spent by the holder of both keys.

    ** Modelling choices

    Integers are [Z] with the wrap-around of their width written where the code
    relies on it or a theorem has to exclude it.  Assertions, exceptions and
    null dereferences are [Err] values, so that a theorem giving [Ok] also says
    they do not happen.  Loops are structural where the data is; elsewhere they
    carry fuel: the height of the entry plus one for walks along [pprev], the
    length of the script for instruction readers, the bit width for VARINT and
    bit scans, the number of leaves for tree heights, the number of candidates
    for the most-work search, and (entries + 1) * (greatest height + 3) rounds
    for the loops of activation, each of which fails an entry or comes closer to
    its goal.  The theorems show the fuel suffices, since running out is an error
    or an excluded result; only the rejection loops of ML-DSA, whose number of
    rounds depends on the hash, keep it in the statement.  Locks,
    logging and notifications have no counterpart.

    Above the code that implements them the hash functions are arguments:
    SHA-256d as [Hash], those of the opcodes as [script_hashes], the sph functions
    of X16RV2 as a record, the header hash as [GetHash] where only its being a
    function matters.  [Hashing] has the node's functions for [Hash] and
    [script_hashes] and shows they meet the hypotheses made of these.  Where a
    statement needs collision resistance it is asked only of the byte strings or
    pairs the code hashes in the statement at hand.

    ** Not modelled

    The other cryptography (sph, secp256k1, the vectorised variants of SHA-256,
    the ciphers of wallet and network) and the storage libraries (leveldb), the network layer, mempool and relay policy, wallet, RPC, GUI,
    indexes and start-up code: I/O, scheduling and user interfaces outside the
    consensus rules, or code the rules take as given.  Of chain selection, the
    snapshot chain state, the pruning and layout of block files, notifications
    and shutdown requests. *)
From Stdlib Require Import ZArith Lia.
From Stdlib Require Export ZifyBool.
From stdpp Require Export base list list_numbers numbers option decidable.

Declare Scope bb_scope.
Delimit Scope bb_scope with bb.
Open Scope Z_scope.

(** * Machine integers

    A [w]-bit unsigned integer is a [Z] in [0, 2^w); [wrap] is the conversion
    the C++ standard prescribes for unsigned types, [swrap] the two's
    complement one for signed types. *)

Definition wrap (w z : Z) : Z := z mod 2 ^ w.
Definition swrap (w z : Z) : Z := (z + 2 ^ (w - 1)) mod 2 ^ w - 2 ^ (w - 1).

Abbreviation u8 := (wrap 8).
Abbreviation u16 := (wrap 16).
Abbreviation u32 := (wrap 32).
Abbreviation u64 := (wrap 64).
Abbreviation i32 := (swrap 32).
Abbreviation i64 := (swrap 64).

(** Value ranges of the integer types. *)
Definition in_u (w z : Z) : Prop := 0 <= z < 2 ^ w.
Definition in_s (w z : Z) : Prop := - 2 ^ (w - 1) <= z < 2 ^ (w - 1).

Create HintDb bb.

(** ** Tactics of the development *)

(** Turn boolean comparisons in the context and the goal into propositions. *)
Ltac to_prop :=
  repeat match goal with
  | H : (_ && _)%bool = true |- _ => apply andb_true_iff in H as [? ?]
  | H : (_ && _)%bool = false |- _ => apply andb_false_iff in H
  | H : (_ || _)%bool = true |- _ => apply orb_true_iff in H
  | H : (_ || _)%bool = false |- _ => apply orb_false_iff in H as [? ?]
  | H : negb _ = true |- _ => apply negb_true_iff in H
  | H : negb _ = false |- _ => apply negb_false_iff in H
  | H : (_ <? _) = true |- _ => apply Z.ltb_lt in H
  | H : (_ <? _) = false |- _ => apply Z.ltb_ge in H
  | H : (_ <=? _) = true |- _ => apply Z.leb_le in H
  | H : (_ <=? _) = false |- _ => apply Z.leb_gt in H
  | H : (_ >? _) = _ |- _ => rewrite Z.gtb_ltb in H
  | H : (_ >=? _) = _ |- _ => rewrite Z.geb_leb in H
  | H : (_ =? _) = true |- _ => apply Z.eqb_eq in H
  | H : (_ =? _) = false |- _ => apply Z.eqb_neq in H
  end.

(** Case split on the innermost boolean test of the goal, keeping the fact. *)
Ltac split_if :=
  match goal with
  | |- context [if ?b then _ else _] =>
      lazymatch b with
      | context [if _ then _ else _] => fail
      | _ => let E := fresh "E" in destruct b eqn:E; to_prop
      end
  end.

(** Linear arithmetic with division and remainder by constants. *)
Ltac zdm := Z.div_mod_to_equations; lia.

(** ** Wrapping *)

Lemma wrap_small w z : in_u w z → wrap w z = z.
Proof. intros H. apply Z.mod_small, H. Qed.

Lemma wrap_range w z : 0 <= w → in_u w (wrap w z).
Proof. intros H. apply Z.mod_pos_bound. lia. Qed.

Lemma swrap_small w z : 0 < w → in_s w z → swrap w z = z.
Proof.
  intros Hw [H1 H2]. unfold swrap.
  assert (2 ^ w = 2 * 2 ^ (w - 1)) as E.
  { rewrite <- Z.pow_succ_r by lia. f_equal. lia. }
  rewrite Z.mod_small by lia. lia.
Qed.

Lemma swrap_range w z : 0 < w → in_s w (swrap w z).
Proof.
  intros Hw. unfold swrap, in_s.
  assert (2 ^ w = 2 * 2 ^ (w - 1)) as E.
  { rewrite <- Z.pow_succ_r by lia. f_equal. lia. }
  pose proof (Z.mod_pos_bound (z + 2 ^ (w - 1)) (2 ^ w)). lia.
Qed.

Lemma swrap_mod w z : 0 < w → swrap w z mod 2 ^ w = z mod 2 ^ w.
Proof.
  intros Hw. unfold swrap. rewrite Zminus_mod_idemp_l. f_equal. lia.
Qed.

#[export] Hint Resolve wrap_range swrap_range : bb.

(** ** Bits *)

Lemma testbit_high w z n : in_u w z → w <= n → Z.testbit z n = false.
Proof.
  intros Hz Hn. destruct (Z.lt_ge_cases w 0) as [Hw|Hw].
  - unfold in_u in Hz. rewrite Z.pow_neg_r in Hz by lia. lia.
  - rewrite <- (Z.mod_small z (2 ^ w)) by apply Hz.
    apply Z.mod_pow2_bits_high. lia.
Qed.

Lemma in_u_testbit w z :
  0 <= w → 0 <= z → (∀ n, w <= n → Z.testbit z n = false) → in_u w z.
Proof.
  intros Hw Hz Hb. split; [lia|].
  assert (z = z mod 2 ^ w) as ->; [|apply Z.mod_pos_bound; lia].
  apply Z.bits_inj'. intros n Hn.
  destruct (Z.lt_ge_cases n w).
  - by rewrite Z.mod_pow2_bits_low by lia.
  - rewrite Z.mod_pow2_bits_high by lia. apply Hb. lia.
Qed.

Lemma in_u_lor w a b : 0 <= w → in_u w a → in_u w b → in_u w (Z.lor a b).
Proof.
  intros Hw Ha Hb. apply in_u_testbit; [lia|apply Z.lor_nonneg; split; [apply Ha|apply Hb]|].
  intros n Hn. by rewrite Z.lor_spec, (testbit_high w a), (testbit_high w b).
Qed.

Lemma in_u_land_l w a b : 0 <= w → in_u w a → 0 <= b → in_u w (Z.land a b).
Proof.
  intros Hw Ha Hb. apply in_u_testbit; [lia|apply Z.land_nonneg; left; apply Ha|].
  intros n Hn. by rewrite Z.land_spec, (testbit_high w a).
Qed.

Lemma in_u_lxor w a b : 0 <= w → in_u w a → in_u w b → in_u w (Z.lxor a b).
Proof.
  intros Hw Ha Hb. apply in_u_testbit; [lia|apply Z.lxor_nonneg; split; intros _; [apply Hb|apply Ha]|].
  intros n Hn. by rewrite Z.lxor_spec, (testbit_high w a), (testbit_high w b).
Qed.

Lemma in_u_shiftr w k a : 0 <= k → 0 <= w → in_u w a → in_u w (Z.shiftr a k).
Proof.
  intros Hk Hw Ha. unfold in_u in *. rewrite Z.shiftr_div_pow2 by lia.
  assert (0 < 2 ^ k) by lia. split; [apply Z.div_pos; lia|].
  apply Z.div_lt_upper_bound; nia.
Qed.

#[export] Hint Resolve in_u_lor in_u_land_l in_u_lxor in_u_shiftr : bb.

(** A disjunction of disjoint bit ranges is a sum. *)
Lemma lor_add_shiftl k a b : 0 <= k → in_u k a → Z.lor a (Z.shiftl b k) = a + b * 2 ^ k.
Proof.
  intros Hk Ha. rewrite Z.shiftl_mul_pow2 by lia.
  rewrite Z.add_nocarry_lxor.
  - apply Z.bits_inj'. intros n Hn. rewrite Z.lor_spec, Z.lxor_spec.
    destruct (Z.lt_ge_cases n k).
    + rewrite (Z.mul_pow2_bits_low b) by lia. by destruct (Z.testbit a n).
    + rewrite (testbit_high k a) by done. by destruct (Z.testbit _ n).
  - apply Z.bits_inj'. intros n Hn. rewrite Z.land_spec, Z.bits_0.
    destruct (Z.lt_ge_cases n k).
    + rewrite (Z.mul_pow2_bits_low b) by lia. apply andb_false_r.
    + by rewrite (testbit_high k a).
Qed.

Lemma land_ones_mod k a : 0 <= k → Z.land a (2 ^ k - 1) = a mod 2 ^ k.
Proof. intros Hk. rewrite <- Z.land_ones by lia. f_equal. rewrite Z.ones_equiv. lia. Qed.

(** * Digit lists

    Little-endian base-[2^w] digits: limbs of a big integer ([w = 32]) and
    byte strings ([w = 8]) share these lemmas. *)

Fixpoint digits_val (w : Z) (l : list Z) : Z :=
  match l with
  | [] => 0
  | d :: l' => d + 2 ^ w * digits_val w l'
  end.

Fixpoint digits_of (w : Z) (n : nat) (z : Z) : list Z :=
  match n with
  | O => []
  | S n' => z mod 2 ^ w :: digits_of w n' (z / 2 ^ w)
  end.

Section Digits.
Context (w : Z) (Hw : 0 < w).

Lemma digits_of_length n z : length (digits_of w n z) = n.
Proof. revert z. induction n; intros; simpl; [done|]. by rewrite IHn. Qed.

Lemma digits_of_range n z : Forall (in_u w) (digits_of w n z).
Proof.
  revert z. induction n; intros; simpl; constructor; [|apply IHn].
  apply Z.mod_pos_bound. lia.
Qed.

Lemma digits_val_range l :
  Forall (in_u w) l → in_u (w * Z.of_nat (length l)) (digits_val w l).
Proof.
  unfold in_u. induction 1 as [|d l Hd Hl IH]; simpl; [rewrite Z.mul_0_r; lia|].
  rewrite Nat2Z.inj_succ, Z.mul_succ_r, Z.pow_add_r by lia. nia.
Qed.

Lemma digits_val_of n z : digits_val w (digits_of w n z) = z mod 2 ^ (w * Z.of_nat n).
Proof.
  revert z. induction n as [|n IH]; intros z; simpl.
  { by rewrite Z.mul_0_r, Z.mod_1_r. }
  rewrite IH, Nat2Z.inj_succ, Z.mul_succ_r, (Z.add_comm (w * Z.of_nat n)), Z.pow_add_r by lia.
  rewrite Z.rem_mul_r by lia. lia.
Qed.

Lemma digits_of_val l : Forall (in_u w) l → digits_of w (length l) (digits_val w l) = l.
Proof.
  induction 1 as [|d l Hd Hl IH]; simpl; [done|].
  rewrite (Z.mul_comm (2 ^ w)), Z.mod_add, Z.mod_small by (unfold in_u in *; lia).
  rewrite Z.div_add, (Z.div_small d), Z.add_0_l by (unfold in_u in *; lia).
  by rewrite IH.
Qed.

Lemma digits_val_app l1 l2 :
  digits_val w (l1 ++ l2) = digits_val w l1 + 2 ^ (w * Z.of_nat (length l1)) * digits_val w l2.
Proof.
  induction l1 as [|d l1 IH]; simpl; [by rewrite Z.mul_0_r, Z.pow_0_r, Z.mul_1_l|].
  rewrite IH, Nat2Z.inj_succ, Z.mul_succ_r, Z.pow_add_r by lia. ring.
Qed.

Lemma digits_val_inj l1 l2 :
  length l1 = length l2 → Forall (in_u w) l1 → Forall (in_u w) l2 →
  digits_val w l1 = digits_val w l2 → l1 = l2.
Proof.
  intros Hl H1 H2 E. rewrite <- (digits_of_val l1), <- (digits_of_val l2), Hl by done.
  by rewrite E.
Qed.

Lemma digits_val_repeat0 n : digits_val w (replicate n 0) = 0.
Proof. induction n; simpl; lia. Qed.

(** Bit [i] of the value is bit [i mod w] of digit [i / w]. *)
Lemma digits_val_testbit l i :
  Forall (in_u w) l → 0 <= i →
  Z.testbit (digits_val w l) i =
  Z.testbit (default 0 (l !! Z.to_nat (i / w))) (i mod w).
Proof.
  intros H. revert i. induction H as [|d l Hd Hl IH]; intros i Hi; simpl.
  { by rewrite !Z.testbit_0_l. }
  assert (d + 2 ^ w * digits_val w l = Z.lor d (Z.shiftl (digits_val w l) w)) as ->.
  { rewrite lor_add_shiftl by (done || lia). ring. }
  rewrite Z.lor_spec, Z.shiftl_spec by lia.
  destruct (Z.lt_ge_cases i w).
  - rewrite (Z.div_small i), (Z.mod_small i), (Z.testbit_neg_r _ (i - w)) by lia.
    simpl. by rewrite orb_false_r.
  - rewrite (testbit_high w d), IH by (done || lia). simpl.
    assert (i = (i - w) + 1 * w) as Ei by lia.
    assert (0 <= (i - w) / w) by (apply Z.div_pos; lia).
    rewrite Ei at 3 4. rewrite Z.div_add, Z.mod_add by lia.
    by rewrite Z2Nat.inj_add by lia; rewrite Nat.add_comm.
Qed.
End Digits.

Lemma land_bit p n : 0 <= n → negb (Z.land p (Z.shiftl 1 n) =? 0) = Z.testbit p n.
Proof.
  intros Hn. rewrite Z.shiftl_1_l. destruct (Z.testbit p n) eqn:E.
  - apply negb_true_iff, Z.eqb_neq. intros H0. apply (f_equal (λ z, Z.testbit z n)) in H0.
    by rewrite Z.land_spec, E, Z.pow2_bits_true, Z.bits_0 in H0 by lia.
  - apply negb_false_iff, Z.eqb_eq, Z.bits_inj'. intros i Hi.
    rewrite Z.land_spec, Z.bits_0. destruct (decide (i = n)) as [->|]; [by rewrite E|].
    by rewrite Z.pow2_bits_false, andb_false_r by lia.
Qed.

(** Loop update [l\[i\] := x]: out of range it leaves the array alone, which
    the callers never rely on (each use is guarded by the source's bounds). *)
Lemma list_lookup_insert_default (l : list Z) i j x :
  (i < length l)%nat →
  default 0 (<[i:=x]> l !! j) = if decide (i = j) then x else default 0 (l !! j).
Proof.
  intros Hi. destruct (decide (i = j)) as [->|Hn].
  - by rewrite list_lookup_insert_eq.
  - by rewrite list_lookup_insert_ne.
Qed.

(** A decidable fact about every integer below a small bound is evaluated. *)
Lemma seqZ_forallb (P : Z → bool) n :
  forallb P (seqZ 0 n) = true → ∀ c, 0 <= c < n → P c = true.
Proof.
  intros H c Hc. rewrite forallb_forall in H. apply H.
  apply list_elem_of_In. apply elem_of_seqZ. lia.
Qed.

Lemma exists_last_or_nil {A} (l : list A) : l = [] ∨ ∃ l' a, l = l' ++ [a].
Proof. destruct l as [|x l]; [by left|]. right. destruct (exists_last (l := x :: l)) as (l' & a & ->); [done|]. by exists l', a. Qed.

Lemma forallb_ext {A} (f g : A → bool) l : (∀ x, f x = g x) → forallb f l = forallb g l.
Proof. intros H. induction l as [|x l IH]; cbn; [done|]. by rewrite H, IH. Qed.

(** * Byte strings *)

Definition is_byte (z : Z) : bool := (0 <=? z) && (z <? 256).
Definition bytes_ok (l : list Z) : Prop := Forall (in_u 8) l.

(** A 256-bit hash as its 32 bytes. *)
Abbreviation uint256 := (list Z).

(** [ReadLE32]/[WriteLE32] and their relatives. *)
Definition le_encode (n : nat) (z : Z) : list Z := digits_of 8 n z.
Definition le_decode (l : list Z) : Z := digits_val 8 l.

Lemma le_encode_length n z : length (le_encode n z) = n.
Proof. apply digits_of_length. Qed.

Lemma le_encode_bytes n z : bytes_ok (le_encode n z).
Proof. by apply digits_of_range. Qed.

Lemma le_decode_encode n z : in_u (8 * Z.of_nat n) z → le_decode (le_encode n z) = z.
Proof. intros H. unfold le_decode, le_encode. rewrite digits_val_of by lia. by apply Z.mod_small. Qed.

Lemma le_encode_decode l : bytes_ok l → le_encode (length l) (le_decode l) = l.
Proof. apply digits_of_val. lia. Qed.

#[export] Hint Resolve le_encode_bytes : bb.

(** * Errors as values *)

Inductive result (E A : Type) : Type :=
| Ok (a : A)
| Err (e : E).
Arguments Ok {E A} a.
Arguments Err {E A} e.

Definition rbind {E A B} (m : result E A) (k : A → result E B) : result E B :=
  match m with Ok a => k a | Err e => Err e end.

Notation "'let!' x := m 'in' k" := (rbind m (fun x => k))
  (at level 10, x pattern, m at level 100, k at level 200) : bb_scope.

(** [if (!c) return set_error(e);] *)
Definition require {E} (c : bool) (e : E) : result E unit := if c then Ok tt else Err e.

Lemma rbind_ok {E A B} (m : result E A) (k : A → result E B) b :
  rbind m k = Ok b ↔ ∃ a, m = Ok a ∧ k a = Ok b.
Proof.
  destruct m as [a|e]; simpl; split.
  - eauto.
  - by intros (a' & [= <-] & H).
  - done.
  - by intros (a' & [=] & _).
Qed.

Lemma require_ok {E} c (e : E) u : require c e = Ok u ↔ c = true.
Proof. destruct c, u; simpl; naive_solver. Qed.
Lemma require_err {E} b (e e' : E) : require b e = Err e' → e' = e.
Proof. unfold require. destruct b; [done|]. by intros [= ->]. Qed.
