(* ===== verification/Arith256.v ===== *)
(** 256-bit unsigned arithmetic: [src/arith_uint256.cpp] and [.h].

    [base_uint<256>] is kept as the source keeps it, an array of eight 32-bit
    limbs, and each operator is its limb loop with the carries at the width of
    the C++ types.  The theorems relate every operator to arithmetic on [Z]
    modulo [2^256], and the compact ("nBits") encoding to the floating-point
    format it stands for. *)
From Stdlib Require Import ZArith Lia.
From S2P Require Import Prelude.

Module BaseUint.

Definition WIDTH : nat := 8.

(** [uint32_t pn\[WIDTH\]]: the class invariant is [wf]. *)
Abbreviation base_uint := (list Z).
Definition pn (x : base_uint) (i : nat) : Z := default 0 (x !! i).
Definition wf (x : base_uint) : Prop := length x = WIDTH ∧ Forall (in_u 32) x.
Definition val (x : base_uint) : Z := digits_val 32 x.

(** [base_uint()] *)
Definition zero : base_uint := replicate WIDTH 0.

(** [base_uint(uint64_t b)] and [operator=(uint64_t)] *)
Definition of_u64 (b : Z) : base_uint :=
  u32 b :: u32 (Z.shiftr b 32) :: replicate (WIDTH - 2) 0.

(** [operator~], [operator++], [operator-] (unary), [operator--] *)
Definition op_not (x : base_uint) : base_uint := map (λ p, u32 (Z.lnot p)) x.

Fixpoint op_inc (x : base_uint) : base_uint :=
  match x with
  | [] => []
  | p :: x' => let p' := u32 (p + 1) in p' :: (if p' =? 0 then op_inc x' else x')
  end.

Fixpoint op_dec (x : base_uint) : base_uint :=
  match x with
  | [] => []
  | p :: x' => let p' := u32 (p - 1) in p' :: (if p' =? 2 ^ 32 - 1 then op_dec x' else x')
  end.

Definition op_neg (x : base_uint) : base_uint := op_inc (op_not x).

(** [operator|=(const base_uint&)], [&=], [^=] *)
Definition op_or (x y : base_uint) : base_uint := zip_with Z.lor x y.
Definition op_and (x y : base_uint) : base_uint := zip_with Z.land x y.
Definition op_xor (x y : base_uint) : base_uint := zip_with Z.lxor x y.

(** [operator+=(const base_uint&)] *)
Fixpoint add_loop (carry : Z) (x y : base_uint) : base_uint :=
  match x, y with
  | p :: x', q :: y' =>
      let n := u64 (carry + p + q) in
      Z.land n 0xffffffff :: add_loop (Z.shiftr n 32) x' y'
  | _, _ => []
  end.
Definition op_add (x y : base_uint) : base_uint := add_loop 0 x y.

(** [operator-=] *)
Definition op_sub (x y : base_uint) : base_uint := op_add x (op_neg y).

(** [pn\[i\] |= v] *)
Definition or_at (x : base_uint) (i : nat) (v : Z) : base_uint :=
  <[i := Z.lor (pn x i) v]> x.

(** [operator<<=(unsigned int)] *)
Definition shl_body (a : base_uint) (k : nat) (s : Z) (r : base_uint) (i : nat) : base_uint :=
  let r := if ((i + k + 1 <? WIDTH)%nat && negb (s =? 0))%bool
           then or_at r (i + k + 1) (Z.shiftr (pn a i) (32 - s)) else r in
  if (i + k <? WIDTH)%nat then or_at r (i + k) (u32 (Z.shiftl (pn a i) s)) else r.

Definition op_shl (x : base_uint) (shift : Z) : base_uint :=
  fold_left (shl_body x (Z.to_nat (shift / 32)) (shift mod 32)) (seq 0 WIDTH) zero.

(** [operator>>=(unsigned int)] *)
Definition shr_body (a : base_uint) (k : nat) (s : Z) (r : base_uint) (i : nat) : base_uint :=
  let r := if ((k + 1 <=? i)%nat && negb (s =? 0))%bool
           then or_at r (i - k - 1) (u32 (Z.shiftl (pn a i) (32 - s))) else r in
  if (k <=? i)%nat then or_at r (i - k) (Z.shiftr (pn a i) s) else r.

Definition op_shr (x : base_uint) (shift : Z) : base_uint :=
  fold_left (shr_body x (Z.to_nat (shift / 32)) (shift mod 32)) (seq 0 WIDTH) zero.

(** [operator*=(uint32_t)] *)
Fixpoint mul32_loop (b32 carry : Z) (x : base_uint) : base_uint :=
  match x with
  | [] => []
  | p :: x' =>
      let n := u64 (carry + u64 (b32 * p)) in
      Z.land n 0xffffffff :: mul32_loop b32 (Z.shiftr n 32) x'
  end.
Definition op_mul32 (x : base_uint) (b32 : Z) : base_uint := mul32_loop b32 0 x.

(** [operator*=(const base_uint&)]: the inner loop adds [pn\[j\] * b] to the
    limbs of the accumulator from index [j] on. *)
Fixpoint mac_loop (p carry : Z) (a b : base_uint) : base_uint :=
  match a, b with
  | q :: a', c :: b' =>
      let n := u64 (carry + q + u64 (p * c)) in
      Z.land n 0xffffffff :: mac_loop p (Z.shiftr n 32) a' b'
  | _, _ => []
  end.
Definition mul_body (x b a : base_uint) (j : nat) : base_uint :=
  take j a ++ mac_loop (pn x j) 0 (drop j a) b.
Definition op_mul (x b : base_uint) : base_uint :=
  fold_left (mul_body x b) (seq 0 WIDTH) zero.

(** [CompareTo]: most significant limb first. *)
Fixpoint compare_loop (x y : base_uint) : Z :=
  match x, y with
  | p :: x', q :: y' => if p <? q then -1 else if p >? q then 1 else compare_loop x' y'
  | _, _ => 0
  end.
Definition CompareTo (x y : base_uint) : Z := compare_loop (rev x) (rev y).

Definition op_gt (x y : base_uint) : bool := CompareTo x y >? 0.
Definition op_lt (x y : base_uint) : bool := CompareTo x y <? 0.
Definition op_ge (x y : base_uint) : bool := CompareTo x y >=? 0.

(** [EqualTo(uint64_t)] *)
Definition EqualTo (x : base_uint) (b : Z) : bool :=
  forallb (λ p, p =? 0) (drop 2 x) &&
  (pn x 1 =? Z.shiftr b 32) && (pn x 0 =? Z.land b 0xffffffff).

(** [bits()]: both loops run downwards; [n] iterations are left. *)
Fixpoint nbits_loop (p : Z) (n : nat) : Z :=
  match n with
  | O => 0
  | S n' => if negb (Z.land p (Z.shiftl 1 (Z.of_nat n)) =? 0) then Z.of_nat n else nbits_loop p n'
  end.
Fixpoint bits_loop (x : base_uint) (n : nat) : Z :=
  match n with
  | O => 0
  | S pos => if negb (pn x pos =? 0)
             then 32 * Z.of_nat pos + nbits_loop (pn x pos) 31 + 1
             else bits_loop x pos
  end.
Definition bits (x : base_uint) : Z := bits_loop x WIDTH.

(** [operator/=]: [while (shift >= 0)] runs [shift + 1] times. *)
Fixpoint div_loop (n : nat) (num div quot : base_uint) : base_uint :=
  match n with
  | O => quot
  | S shift =>
      let '(num, quot) :=
        if op_ge num div
        then (op_sub num div,
              or_at quot (shift / 32) (Z.shiftl 1 (Z.land (Z.of_nat shift) 31)))
        else (num, quot) in
      div_loop shift num (op_shr div 1) quot
  end.

Inductive uint_error := DivisionByZero.

Definition op_div (x b : base_uint) : result uint_error base_uint :=
  let num_bits := bits x in
  let div_bits := bits b in
  if div_bits =? 0 then Err DivisionByZero
  else if div_bits >? num_bits then Ok (of_u64 0)
  else let shift := num_bits - div_bits in
       Ok (div_loop (Z.to_nat (shift + 1)) x (op_shl b shift) (of_u64 0)).

(** [GetLow64()] *)
Definition GetLow64 (x : base_uint) : Z := Z.lor (pn x 0) (Z.shiftl (pn x 1) 32).

(** [arith_uint256::SetCompact]: the value and the two output flags. *)
Definition SetCompact (nCompact : Z) : base_uint * bool * bool :=
  let nSize := Z.shiftr nCompact 24 in
  let nWord := Z.land nCompact 0x007fffff in
  let '(this, nWord) :=
    if nSize <=? 3 then
      let nWord := Z.shiftr nWord (8 * (3 - nSize)) in (of_u64 nWord, nWord)
    else (op_shl (of_u64 nWord) (8 * (nSize - 3)), nWord) in
  let fNegative := (negb (nWord =? 0) && negb (Z.land nCompact 0x00800000 =? 0))%bool in
  let fOverflow := (negb (nWord =? 0) &&
                    ((nSize >? 34) || ((nWord >? 0xff) && (nSize >? 33)) ||
                     ((nWord >? 0xffff) && (nSize >? 32))))%bool in
  (this, fNegative, fOverflow).

(** [arith_uint256::GetCompact]: [None] is a failed [assert]. *)
Definition GetCompact (x : base_uint) (fNegative : bool) : option Z :=
  let nSize := (bits x + 7) / 8 in
  let nCompact :=
    if nSize <=? 3 then u32 (u64 (Z.shiftl (GetLow64 x) (8 * (3 - nSize))))
    else u32 (GetLow64 (op_shr x (8 * (nSize - 3)))) in
  let '(nCompact, nSize) :=
    if negb (Z.land nCompact 0x00800000 =? 0)
    then (Z.shiftr nCompact 8, nSize + 1) else (nCompact, nSize) in
  if negb (Z.land nCompact (Z.lxor 0x007fffff 0xffffffff) =? 0) then None
  else if negb (nSize <? 256) then None
  else
    let nCompact := Z.lor nCompact (u32 (Z.shiftl nSize 24)) in
    Some (Z.lor nCompact
            (if (fNegative && negb (Z.land nCompact 0x007fffff =? 0))%bool
             then 0x00800000 else 0)).

(** [UintToArith256] and [ArithToUint256]; a [uint256] is its 32 bytes. *)
Definition UintToArith256 (a : list Z) : base_uint :=
  map (λ x, le_decode (take 4 (drop (4 * x) a))) (seq 0 WIDTH).
Definition ArithToUint256 (a : base_uint) : list Z := flat_map (le_encode 4) a.

End BaseUint.

Module BaseUintFacts.
Import BaseUint.

Create HintDb limbs.
#[export] Hint Resolve wrap_range in_u_shiftr : limbs.
#[export] Hint Extern 5 (_ <= _) => lia : limbs.

Lemma wf_intro x : length x = WIDTH → Forall (in_u 32) x → wf x.
Proof. done. Qed.

Lemma val_range x : wf x → in_u 256 (val x).
Proof. intros [Hl Hx]. apply (digits_val_range 32) in Hx; [|lia]. by rewrite Hl in Hx. Qed.

Lemma val_inj x y : wf x → wf y → val x = val y → x = y.
Proof.
  intros [Hx Hx'] [Hy Hy'] E. apply (digits_val_inj 32); [lia|congruence|done..].
Qed.

Lemma pn_range x i : wf x → in_u 32 (pn x i).
Proof.
  intros [_ H]. unfold pn. destruct (x !! i) as [p|] eqn:E; simpl; [|split; lia].
  by eapply (Forall_lookup_1 _ _ _ _ H).
Qed.
#[export] Hint Resolve pn_range : limbs.

Lemma val_testbit x i : wf x → 0 <= i →
  Z.testbit (val x) i = Z.testbit (pn x (Z.to_nat (i / 32))) (i mod 32).
Proof. intros [_ H] Hi. by apply digits_val_testbit. Qed.

(** Equality of a limb array with a value, bit by bit below [2^256]. *)
Lemma val_bits_eq x z : wf x → in_u 256 z →
  (∀ i, 0 <= i < 256 → Z.testbit (val x) i = Z.testbit z i) → val x = z.
Proof.
  intros Hx Hz H. apply Z.bits_inj'. intros i Hi.
  destruct (Z.lt_ge_cases i 256); [by apply H|].
  rewrite (testbit_high 256 (val x)), (testbit_high 256 z); auto using val_range.
Qed.

Lemma zero_wf : wf zero.
Proof. split; [done|]. by repeat constructor. Qed.

Lemma of_u64_wf b : wf (of_u64 b).
Proof.
  split; [done|]. repeat constructor; try apply wrap_range; lia.
Qed.

Lemma of_u64_val b : in_u 64 b → val (of_u64 b) = b.
Proof.
  intros Hb. unfold val, of_u64. cbn [digits_val replicate WIDTH Nat.sub].
  unfold wrap. rewrite Z.shiftr_div_pow2 by lia. unfold in_u in Hb. zdm.
Qed.

(** ** Addition, negation, subtraction *)

Lemma low_high_32 n : 0 <= n → Z.land n 0xffffffff = n mod 2 ^ 32 ∧ Z.shiftr n 32 = n / 2 ^ 32.
Proof.
  intros Hn. split; [apply (land_ones_mod 32); lia|by apply Z.shiftr_div_pow2].
Qed.

Lemma add_loop_length c x y : length x = length y → length (add_loop c x y) = length x.
Proof.
  revert c y. induction x as [|p x IH]; intros c [|q y] H; simpl in *; try done.
  f_equal. apply IH. lia.
Qed.

Lemma add_loop_limbs c x y : 0 <= c → Forall (in_u 32) x → Forall (in_u 32) y →
  Forall (in_u 32) (add_loop c x y).
Proof.
  intros Hc Hx. revert c y Hc. induction Hx as [|p x Hp Hx IH]; intros c y Hc Hy; simpl; [constructor|].
  destruct Hy as [|q y Hq Hy]; constructor.
  - rewrite (land_ones_mod 32) by lia. by apply Z.mod_pos_bound.
  - apply IH; [|done]. apply Z.shiftr_nonneg, Z.mod_pos_bound. lia.
Qed.

Lemma add_loop_val c x y : in_u 32 c → length x = length y →
  Forall (in_u 32) x → Forall (in_u 32) y →
  digits_val 32 (add_loop c x y) =
  (c + digits_val 32 x + digits_val 32 y) mod 2 ^ (32 * Z.of_nat (length x)).
Proof.
  intros Hc Hl Hx. revert c y Hc Hl. induction Hx as [|p x Hp Hx IH]; intros c y Hc Hl Hy.
  { destruct y; [|done]. simpl. by rewrite Z.mod_1_r. }
  destruct Hy as [|q y Hq Hy]; [done|]. cbn [add_loop digits_val length].
  unfold in_u in *. rewrite wrap_small by (unfold in_u; lia).
  destruct (low_high_32 (c + p + q)) as [-> ->]; [lia|].
  rewrite IH by (simpl in *; done || (unfold in_u; zdm) || lia).
  rewrite Nat2Z.inj_succ, Z.mul_succ_r, (Z.add_comm (32 * _)), Z.pow_add_r by lia.
  rewrite (Z.rem_mul_r (c + _ + _)) by lia. f_equal.
  - rewrite (Z.mul_comm (2^32)), (Z.mul_comm (2^32) (digits_val 32 y)).
    replace (c + (p + digits_val 32 x * 2 ^ 32) + (q + digits_val 32 y * 2 ^ 32))
      with (c + p + q + (digits_val 32 x + digits_val 32 y) * 2 ^ 32) by ring.
    by rewrite Z.mod_add by lia.
  - f_equal. f_equal.
    replace (c + (p + 2 ^ 32 * digits_val 32 x) + (q + 2 ^ 32 * digits_val 32 y))
      with (c + p + q + (digits_val 32 x + digits_val 32 y) * 2 ^ 32) by ring.
    rewrite Z.div_add by lia. ring.
Qed.

Lemma op_add_wf x y : wf x → wf y → wf (op_add x y).
Proof.
  intros [Hx Hx'] [Hy Hy']. split.
  - unfold op_add. rewrite add_loop_length; congruence.
  - by apply add_loop_limbs.
Qed.

Lemma op_add_val x y : wf x → wf y → val (op_add x y) = (val x + val y) mod 2 ^ 256.
Proof.
  intros [Hx Hx'] [Hy Hy']. unfold val, op_add.
  rewrite add_loop_val by (done || congruence || (split; lia)). by rewrite Hx.
Qed.

Lemma lnot_mod w p : 0 <= w → in_u w p → Z.lnot p mod 2 ^ w = 2 ^ w - 1 - p.
Proof.
  intros Hw Hp. unfold in_u in Hp. rewrite Z.lnot_eq_pred_opp.
  symmetry. apply Z.mod_unique with (-1); lia.
Qed.

Lemma op_not_val x : Forall (in_u 32) x →
  digits_val 32 (op_not x) = 2 ^ (32 * Z.of_nat (length x)) - 1 - digits_val 32 x.
Proof.
  induction 1 as [|p x Hp Hx IH]; [done|]. cbn [op_not map digits_val length].
  fold (op_not x). rewrite IH. unfold wrap. rewrite lnot_mod by (done || lia).
  rewrite Nat2Z.inj_succ, Z.mul_succ_r, Z.pow_add_r by lia. ring.
Qed.

Lemma op_not_wf x : wf x → wf (op_not x).
Proof.
  intros [Hl Hx]. split; [unfold op_not; by rewrite length_map|].
  apply Forall_map. eapply Forall_impl; [|exact Hx]. intros p _. by apply wrap_range.
Qed.

Lemma op_inc_spec x : Forall (in_u 32) x →
  length (op_inc x) = length x ∧ Forall (in_u 32) (op_inc x) ∧
  digits_val 32 (op_inc x) = (digits_val 32 x + 1) mod 2 ^ (32 * Z.of_nat (length x)).
Proof.
  induction 1 as [|p x Hp Hx (IHl & IHw & IHv)]; [done|].
  cbn [op_inc digits_val length].
  pose proof (digits_val_range 32 ltac:(lia) x Hx) as Hb. unfold in_u in *.
  rewrite Nat2Z.inj_succ, Z.mul_succ_r, (Z.add_comm (32 * _)), Z.pow_add_r by lia.
  rewrite Z.rem_mul_r by lia.
  replace (p + 2 ^ 32 * digits_val 32 x + 1) with (p + 1 + digits_val 32 x * 2 ^ 32) by ring.
  rewrite Z.mod_add, Z.div_add by lia. unfold wrap.
  destruct (decide (p = 2 ^ 32 - 1)) as [->|Hn].
  - replace ((2 ^ 32 - 1 + 1) mod 2 ^ 32) with 0 by reflexivity.
    replace ((2 ^ 32 - 1 + 1) / 2 ^ 32) with 1 by reflexivity.
    rewrite Z.eqb_refl, (Z.add_comm 1). cbn [length digits_val].
    split_and!; [by rewrite IHl|constructor; [split; lia|done]|by rewrite IHv].
  - rewrite Z.mod_small, Z.div_small, Z.add_0_l by lia.
    destruct (Z.eqb_spec (p + 1) 0); [lia|].
    cbn [length digits_val]. rewrite (Z.mod_small (digits_val 32 x)) by lia.
    split_and!; [done|constructor; [split; lia|done]|done].
Qed.

Lemma op_neg_wf x : wf x → wf (op_neg x).
Proof.
  intros Hx. destruct (op_not_wf x Hx) as [Hl Hn].
  destruct (op_inc_spec _ Hn) as (Hl' & Hw & _). split; [|done]. unfold op_neg. congruence.
Qed.

Lemma op_neg_val x : wf x → val (op_neg x) = (- val x) mod 2 ^ 256.
Proof.
  intros Hx. destruct (op_not_wf x Hx) as [Hl Hn].
  destruct (op_inc_spec _ Hn) as (_ & _ & E). unfold val, op_neg. rewrite E, Hl.
  destruct Hx as [Hlx Hx]. rewrite op_not_val, Hlx by done.
  change (32 * Z.of_nat WIDTH) with 256.
  replace (2 ^ 256 - 1 - digits_val 32 x + 1) with (- digits_val 32 x + 1 * 2 ^ 256) by ring.
  by rewrite Z.mod_add by lia.
Qed.

Lemma op_sub_wf x y : wf x → wf y → wf (op_sub x y).
Proof. intros. apply op_add_wf; [done|by apply op_neg_wf]. Qed.

Lemma op_sub_val x y : wf x → wf y → val (op_sub x y) = (val x - val y) mod 2 ^ 256.
Proof.
  intros Hx Hy. unfold op_sub. rewrite op_add_val, op_neg_val by auto using op_neg_wf.
  by rewrite Zplus_mod_idemp_r, Z.add_opp_r.
Qed.

(** ** Multiplication *)

Lemma mul32_loop_spec b c x : in_u 32 b → in_u 32 c → Forall (in_u 32) x →
  length (mul32_loop b c x) = length x ∧ Forall (in_u 32) (mul32_loop b c x) ∧
  digits_val 32 (mul32_loop b c x) =
  (c + b * digits_val 32 x) mod 2 ^ (32 * Z.of_nat (length x)).
Proof.
  intros Hb Hc Hx. revert c Hc. induction Hx as [|p x Hp Hx IH]; intros c Hc.
  { simpl. by rewrite Z.mod_1_r. }
  cbn [mul32_loop digits_val length]. unfold in_u in *.
  rewrite (wrap_small 64 (b * p)) by (unfold in_u; nia).
  rewrite wrap_small by (unfold in_u; nia).
  destruct (low_high_32 (c + b * p)) as [-> ->]; [nia|].
  assert (0 <= (c + b * p) / 2 ^ 32 < 2 ^ 32) as Hd.
  { split; [apply Z.div_pos; nia|apply Z.div_lt_upper_bound; nia]. }
  destruct (IH _ Hd) as (-> & Hw & ->).
  split_and!; [done|constructor; [by apply Z.mod_pos_bound|done]|].
  rewrite Nat2Z.inj_succ, Z.mul_succ_r, (Z.add_comm (32 * _)), Z.pow_add_r by lia.
  rewrite (Z.rem_mul_r (c + _ * (_ + _))) by lia.
  replace (c + b * (p + 2 ^ 32 * digits_val 32 x))
    with (c + b * p + (b * digits_val 32 x) * 2 ^ 32) by ring.
  by rewrite Z.mod_add, Z.div_add by lia.
Qed.

Lemma op_mul32_wf x b : wf x → in_u 32 b → wf (op_mul32 x b).
Proof.
  intros [Hl Hx] Hb. destruct (mul32_loop_spec b 0 x) as (El & Ew & _); [done|split; lia|done|].
  split; [unfold op_mul32; congruence|done].
Qed.

Lemma op_mul32_val x b : wf x → in_u 32 b → val (op_mul32 x b) = (val x * b) mod 2 ^ 256.
Proof.
  intros [Hl Hx] Hb. destruct (mul32_loop_spec b 0 x) as (_ & _ & E); [done|split; lia|done|].
  unfold val, op_mul32. rewrite E, Hl. f_equal. ring.
Qed.

Lemma mac_loop_spec p c a b : in_u 32 p → in_u 32 c →
  Forall (in_u 32) a → Forall (in_u 32) b → (length a <= length b)%nat →
  length (mac_loop p c a b) = length a ∧ Forall (in_u 32) (mac_loop p c a b) ∧
  digits_val 32 (mac_loop p c a b) =
  (c + digits_val 32 a + p * digits_val 32 b) mod 2 ^ (32 * Z.of_nat (length a)).
Proof.
  intros Hp Hc Ha. revert c b Hc. induction Ha as [|q a Hq Ha IH]; intros c b Hc Hb Hl.
  { simpl. destruct b; by rewrite Z.mod_1_r. }
  destruct Hb as [|r b Hr Hb]; [simpl in Hl; lia|].
  cbn [mac_loop digits_val length]. unfold in_u in *.
  rewrite (wrap_small 64 (p * r)) by (unfold in_u; nia).
  rewrite wrap_small by (unfold in_u; nia).
  destruct (low_high_32 (c + q + p * r)) as [-> ->]; [nia|].
  assert (0 <= (c + q + p * r) / 2 ^ 32 < 2 ^ 32) as Hd.
  { split; [apply Z.div_pos; nia|apply Z.div_lt_upper_bound; nia]. }
  destruct (IH _ b Hd Hb) as (-> & Hw & ->); [simpl in Hl; lia|].
  split_and!; [done|constructor; [by apply Z.mod_pos_bound|done]|].
  rewrite Nat2Z.inj_succ, Z.mul_succ_r, (Z.add_comm (32 * _)), Z.pow_add_r by lia.
  rewrite (Z.rem_mul_r (c + (_ + _) + _)) by lia.
  replace (c + (q + 2 ^ 32 * digits_val 32 a) + p * (r + 2 ^ 32 * digits_val 32 b))
    with (c + q + p * r + (digits_val 32 a + p * digits_val 32 b) * 2 ^ 32) by ring.
  rewrite Z.mod_add, Z.div_add by lia. by rewrite Z.add_assoc.
Qed.

(** One outer iteration adds [pn\[j\] * b * 2^(32 j)] to the accumulator. *)
Lemma mul_body_spec x b a j : wf x → wf b → wf a → (j < WIDTH)%nat →
  wf (mul_body x b a j) ∧
  val (mul_body x b a j) =
  (val a + pn x j * 2 ^ (32 * Z.of_nat j) * val b) mod 2 ^ 256.
Proof.
  intros Hx [Hlb Hb] [Hla Ha] Hj. unfold mul_body, wf, val.
  destruct (mac_loop_spec (pn x j) 0 (drop j a) b) as (El & Ew & Ev);
    [by apply pn_range|split; lia|by apply Forall_drop|done|rewrite length_drop; lia|].
  rewrite length_drop in *.
  assert (length (take j a) = j) as Et by (rewrite length_take; lia).
  split.
  - rewrite length_app, El, Et. split; [lia|].
    apply Forall_app; split; [by apply Forall_take|done].
  - rewrite digits_val_app, Ev, Et, Hla by lia.
    assert (digits_val 32 a = digits_val 32 (take j a) +
              2 ^ (32 * Z.of_nat j) * digits_val 32 (drop j a)) as ->.
    { rewrite <- (take_drop j a) at 1. by rewrite digits_val_app, Et by lia. }
    replace 256 with (32 * Z.of_nat j + 32 * Z.of_nat (WIDTH - j)) by (unfold WIDTH in *; lia).
    pose proof (digits_val_range 32 ltac:(lia) (take j a) ltac:(by apply Forall_take)) as Ht.
    rewrite Et in Ht. unfold in_u in Ht.
    rewrite (Z.pow_add_r 2), (Z.rem_mul_r (_ + _ + _)) by lia.
    set (B := 2 ^ (32 * Z.of_nat j)) in *. set (t := digits_val 32 (take j a)) in *.
    set (d := digits_val 32 (drop j a)) in *. set (v := digits_val 32 b) in *.
    replace (t + B * d + pn x j * B * v) with (t + (d + pn x j * v) * B) by ring.
    rewrite Z.mod_add, Z.div_add, (Z.mod_small t), (Z.div_small t) by lia. by rewrite !Z.add_0_l.
Qed.

Lemma mul_fold_spec x b n : wf x → wf b → (n <= WIDTH)%nat →
  wf (fold_left (mul_body x b) (seq 0 n) zero) ∧
  val (fold_left (mul_body x b) (seq 0 n) zero) =
  (digits_val 32 (take n x) * val b) mod 2 ^ 256.
Proof.
  intros Hx Hb Hn. induction n as [|n IH]; [split; [apply zero_wf|done]|].
  rewrite seq_S, fold_left_app. cbn [fold_left Nat.add].
  destruct IH as [Hw Hv]; [lia|].
  destruct (mul_body_spec x b (fold_left (mul_body x b) (seq 0 n) zero) n) as [Hw' Hv'];
    [done..|lia|]. split; [done|].
  rewrite Hv', Hv, Zplus_mod_idemp_l.
  destruct Hx as [Hlx Hx].
  destruct (lookup_lt_is_Some_2 x n) as [p Hp]; [lia|].
  rewrite (take_S_r x n p), digits_val_app, length_take_le by (done || lia).
  unfold pn. rewrite Hp. cbn [from_option id digits_val]. f_equal. unfold val. ring.
Qed.

Lemma op_mul_wf x y : wf x → wf y → wf (op_mul x y).
Proof. intros. by apply (mul_fold_spec x y WIDTH). Qed.

Lemma op_mul_val x y : wf x → wf y → val (op_mul x y) = (val x * val y) mod 2 ^ 256.
Proof.
  intros Hx Hy. destruct (mul_fold_spec x y WIDTH) as [_ E]; [done..|].
  unfold op_mul. rewrite E. rewrite take_ge; [done|]. destruct Hx as [-> _]. done.
Qed.

(** ** Comparison *)

Lemma digits_snoc_compare x y p q : length x = length y →
  Forall (in_u 32) x → Forall (in_u 32) y → p < q →
  digits_val 32 (x ++ [p]) < digits_val 32 (y ++ [q]).
Proof.
  intros Hl Hx Hy Hpq. rewrite !digits_val_app, Hl by lia. cbn [digits_val].
  apply (digits_val_range 32) in Hx; [|lia]. apply (digits_val_range 32) in Hy; [|lia].
  rewrite Hl in Hx. unfold in_u in *. nia.
Qed.

Lemma compare_rev x y : length x = length y → Forall (in_u 32) x → Forall (in_u 32) y →
  compare_loop (rev x) (rev y) = Z.sgn (digits_val 32 x - digits_val 32 y).
Proof.
  revert y. induction x as [|p x IH] using rev_ind; intros y Hl Hx Hy.
  { by destruct y. }
  destruct y as [|q y _] using rev_ind; [rewrite length_app in Hl; simpl in Hl; lia|].
  rewrite !length_app in Hl. simpl in Hl.
  apply Forall_app in Hx as [Hx Hp]. apply Forall_app in Hy as [Hy Hq].
  rewrite !rev_app_distr. cbn [rev app compare_loop].
  destruct (Z.ltb_spec p q).
  { rewrite Z.sgn_neg; [done|]. apply Z.lt_sub_0, digits_snoc_compare; done || lia. }
  rewrite Z.gtb_ltb. destruct (Z.ltb_spec q p).
  { rewrite Z.sgn_pos; [done|]. apply Z.lt_0_sub, digits_snoc_compare; done || lia. }
  assert (p = q) as -> by lia. rewrite IH by (done || lia).
  rewrite !digits_val_app by lia. f_equal. replace (length y) with (length x) by lia. ring.
Qed.

Lemma CompareTo_spec x y : wf x → wf y → CompareTo x y = Z.sgn (val x - val y).
Proof. intros [Hx Hx'] [Hy Hy']. apply compare_rev; congruence || done. Qed.

Lemma op_ge_spec x y : wf x → wf y → op_ge x y = (val x >=? val y).
Proof. intros Hx Hy. unfold op_ge. rewrite CompareTo_spec by done. lia. Qed.

Lemma op_gt_spec x y : wf x → wf y → op_gt x y = (val x >? val y).
Proof. intros Hx Hy. unfold op_gt. rewrite CompareTo_spec by done. lia. Qed.

Lemma op_lt_spec x y : wf x → wf y → op_lt x y = (val x <? val y).
Proof. intros Hx Hy. unfold op_lt. rewrite CompareTo_spec by done. lia. Qed.

(** ** Shifts *)

Lemma or_at_length x i v : length (or_at x i v) = length x.
Proof. apply length_insert. Qed.

Lemma pn_or_at x i j v : (i < length x)%nat →
  pn (or_at x i v) j = if decide (i = j) then Z.lor (pn x j) v else pn x j.
Proof.
  intros Hi. unfold or_at, pn at 1. rewrite list_lookup_insert_default by done.
  by repeat case_decide; subst.
Qed.

Lemma pn_zero j : pn zero j = 0.
Proof. unfold pn, zero. by destruct (_ !! j) eqn:E; [apply lookup_replicate in E as [-> _]|]. Qed.

(** Limbs of the result after [n] iterations of the [<<=] loop. *)
Definition shl_limb (a : base_uint) (k : nat) (s : Z) (n j : nat) : Z :=
  Z.lor (if decide (k ≤ j < k + n)%nat then u32 (Z.shiftl (pn a (j - k)) s) else 0)
        (if decide ((k + 1 ≤ j < k + 1 + n)%nat ∧ s ≠ 0)
         then Z.shiftr (pn a (j - k - 1)) (32 - s) else 0).

Lemma shl_fold a k s n :
  let r := fold_left (shl_body a k s) (seq 0 n) zero in
  length r = WIDTH ∧ ∀ j, (j < WIDTH)%nat → pn r j = shl_limb a k s n j.
Proof.
  induction n as [|n [IHl IHj]]; cbv zeta.
  { split; [done|]. intros j Hj. simpl. rewrite pn_zero. unfold shl_limb.
    rewrite !decide_False by lia. done. }
  rewrite seq_S, fold_left_app. cbn [fold_left Nat.add].
  set (r := fold_left _ _ _) in *. unfold shl_body.
  destruct (Nat.ltb_spec (n + k + 1) WIDTH), (Z.eqb_spec s 0),
    (Nat.ltb_spec (n + k) WIDTH); simpl; (split; [by rewrite ?or_at_length|]);
    intros j Hj; rewrite ?pn_or_at by (rewrite ?or_at_length; lia);
    rewrite ?IHj by done; unfold shl_limb;
    repeat case_decide; try lia; rewrite ?Z.lor_0_l, ?Z.lor_0_r; try done;
    first [replace n with (j - k)%nat by lia | replace n with (j - k - 1)%nat by lia];
    done || apply Z.lor_comm.
Qed.

(** Limbs of the result after [n] iterations of the [>>=] loop. *)
Definition shr_limb (a : base_uint) (k : nat) (s : Z) (n j : nat) : Z :=
  Z.lor (if decide (j + k < n)%nat then Z.shiftr (pn a (j + k)) s else 0)
        (if decide ((j + k + 1 < n)%nat ∧ s ≠ 0)
         then u32 (Z.shiftl (pn a (j + k + 1)) (32 - s)) else 0).

Lemma shr_fold a k s n : (n <= WIDTH)%nat →
  let r := fold_left (shr_body a k s) (seq 0 n) zero in
  length r = WIDTH ∧ ∀ j, (j < WIDTH)%nat → pn r j = shr_limb a k s n j.
Proof.
  intros Hn. induction n as [|n IH]; cbv zeta.
  { split; [done|]. intros j Hj. simpl. rewrite pn_zero. unfold shr_limb.
    rewrite !decide_False by lia. done. }
  destruct IH as [IHl IHj]; [lia|].
  rewrite seq_S, fold_left_app. cbn [fold_left Nat.add].
  set (r := fold_left _ _ _) in *. unfold shr_body.
  destruct (Nat.leb_spec (k + 1) n), (Z.eqb_spec s 0),
    (Nat.leb_spec k n); simpl; (split; [by rewrite ?or_at_length|]);
    intros j Hj; rewrite ?pn_or_at by (rewrite ?or_at_length; lia);
    rewrite ?IHj by done; unfold shr_limb;
    repeat case_decide; try lia; rewrite ?Z.lor_0_l, ?Z.lor_0_r; try done;
    first [replace n with (j + k)%nat by lia | replace n with (j + k + 1)%nat by lia];
    done || apply Z.lor_comm.
Qed.

Lemma wf_pn x : length x = WIDTH → (∀ j, (j < WIDTH)%nat → in_u 32 (pn x j)) → wf x.
Proof.
  intros Hl Hj. split; [done|]. apply Forall_lookup. intros j p Hp.
  assert (j < WIDTH)%nat by (rewrite <- Hl; by eapply lookup_lt_Some).
  specialize (Hj j). unfold pn in Hj. rewrite Hp in Hj. by apply Hj.
Qed.

Lemma op_shl_wf x sh : wf x → wf (op_shl x sh).
Proof.
  intros Hx. destruct (shl_fold x (Z.to_nat (sh / 32)) (sh mod 32) WIDTH) as [Hl Hj].
  apply wf_pn; [done|]. intros j Hlt. unfold op_shl. rewrite (Hj _ Hlt).
  unfold shl_limb. apply in_u_lor; [lia|case_decide; auto with limbs; split; lia|].
  case_decide; [|split; lia]. apply in_u_shiftr; [|lia|auto with limbs].
  pose proof (Z.mod_pos_bound sh 32). lia.
Qed.

Lemma op_shr_wf x sh : wf x → wf (op_shr x sh).
Proof.
  intros Hx. destruct (shr_fold x (Z.to_nat (sh / 32)) (sh mod 32) WIDTH) as [Hl Hj]; [done|].
  apply wf_pn; [done|]. intros j Hlt. unfold op_shr. rewrite (Hj _ Hlt).
  unfold shr_limb. apply in_u_lor; [lia| |case_decide; auto with limbs; split; lia].
  case_decide; [|split; lia]. apply in_u_shiftr; [|lia|auto with limbs].
  pose proof (Z.mod_pos_bound sh 32). lia.
Qed.

Lemma testbit_u32_shl p s r : 0 <= s → 0 <= r < 32 →
  Z.testbit (u32 (Z.shiftl p s)) r = Z.testbit p (r - s).
Proof.
  intros Hs Hr. unfold wrap. rewrite Z.mod_pow2_bits_low, Z.shiftl_spec by lia. done.
Qed.

Lemma op_shl_val x sh : wf x → 0 <= sh → val (op_shl x sh) = (val x * 2 ^ sh) mod 2 ^ 256.
Proof.
  intros Hx Hsh.
  apply val_bits_eq; [by apply op_shl_wf|by apply Z.mod_pos_bound|]. intros i Hi.
  rewrite Z.mod_pow2_bits_low by lia. rewrite <- Z.shiftl_mul_pow2, Z.shiftl_spec by lia.
  rewrite val_testbit by (auto using op_shl_wf; lia).
  destruct (shl_fold x (Z.to_nat (sh / 32)) (sh mod 32) WIDTH) as [_ Hj].
  unfold op_shl. rewrite Hj by (unfold WIDTH; zdm). unfold shl_limb.
  pose proof (Z.mod_pos_bound sh 32 ltac:(lia)). pose proof (Z.mod_pos_bound i 32 ltac:(lia)).
  pose proof (Z.div_mod sh 32 ltac:(lia)). pose proof (Z.div_mod i 32 ltac:(lia)).
  assert (0 <= sh / 32) by (apply Z.div_pos; lia). assert (0 <= i / 32) by (apply Z.div_pos; lia).
  set (k := sh / 32) in *. set (t := sh mod 32) in *. set (j := i / 32) in *. set (r := i mod 32) in *.
  rewrite Z.lor_spec.
  destruct (Z.lt_ge_cases i sh) as [Hlt|Hge].
  { rewrite (Z.testbit_neg_r _ (i - sh)) by lia.
    rewrite (decide_False (P := _ ∧ t ≠ 0)) by lia. rewrite Z.bits_0, orb_false_r.
    case_decide; [|apply Z.bits_0]. rewrite testbit_u32_shl by lia. apply Z.testbit_neg_r. lia. }
  rewrite val_testbit by (done || lia).
  destruct (Z.lt_ge_cases r t).
  - replace ((i - sh) / 32) with (j - k - 1) by (apply Z.div_unique with (r - t + 32); lia).
    replace ((i - sh) mod 32) with (r - t + 32) by (apply Z.mod_unique with (j - k - 1); lia).
    rewrite (decide_True (P := _ ∧ t ≠ 0)) by (unfold WIDTH; lia).
    rewrite Z.shiftr_spec by lia.
    replace (Z.to_nat j - Z.to_nat k - 1)%nat with (Z.to_nat (j - k - 1)) by lia.
    replace (r + (32 - t)) with (r - t + 32) by lia.
    case_decide; [|by rewrite Z.bits_0]. rewrite testbit_u32_shl by lia.
    by rewrite (Z.testbit_neg_r _ (r - t)) by lia.
  - replace ((i - sh) / 32) with (j - k) by (apply Z.div_unique with (r - t); lia).
    replace ((i - sh) mod 32) with (r - t) by (apply Z.mod_unique with (j - k); lia).
    rewrite decide_True by (unfold WIDTH; lia). rewrite testbit_u32_shl by lia.
    replace (Z.to_nat j - Z.to_nat k)%nat with (Z.to_nat (j - k)) by lia.
    case_decide; [|by rewrite Z.bits_0, orb_false_r].
    rewrite Z.shiftr_spec, (testbit_high 32 (pn x _) (_ + _)) by (auto with limbs; lia).
    apply orb_false_r.
Qed.

Lemma pn_above x j : wf x → (WIDTH <= j)%nat → pn x j = 0.
Proof. intros [Hl _] Hj. unfold pn. rewrite lookup_ge_None_2; [done|lia]. Qed.

Lemma op_shr_val x sh : wf x → 0 <= sh → val (op_shr x sh) = val x / 2 ^ sh.
Proof.
  intros Hx Hsh.
  apply val_bits_eq; [by apply op_shr_wf| |].
  { rewrite <- Z.shiftr_div_pow2 by lia. apply in_u_shiftr; auto using val_range; lia. }
  intros i Hi. rewrite Z.div_pow2_bits by lia.
  rewrite !val_testbit by (auto using op_shr_wf; lia).
  destruct (shr_fold x (Z.to_nat (sh / 32)) (sh mod 32) WIDTH) as [_ Hj]; [done|].
  unfold op_shr. rewrite Hj by (unfold WIDTH; zdm). unfold shr_limb.
  pose proof (Z.mod_pos_bound sh 32 ltac:(lia)). pose proof (Z.mod_pos_bound i 32 ltac:(lia)).
  pose proof (Z.div_mod sh 32 ltac:(lia)). pose proof (Z.div_mod i 32 ltac:(lia)).
  assert (0 <= sh / 32) by (apply Z.div_pos; lia). assert (0 <= i / 32) by (apply Z.div_pos; lia).
  set (k := sh / 32) in *. set (t := sh mod 32) in *. set (j := i / 32) in *. set (r := i mod 32) in *.
  rewrite Z.lor_spec.
  destruct (Z.lt_ge_cases (r + t) 32).
  - replace ((i + sh) / 32) with (j + k) by (apply Z.div_unique with (r + t); lia).
    replace ((i + sh) mod 32) with (r + t) by (apply Z.mod_unique with (j + k); lia).
    replace (Z.to_nat (j + k)) with (Z.to_nat j + Z.to_nat k)%nat by lia.
    assert (Z.testbit (if decide ((Z.to_nat j + Z.to_nat k + 1 < WIDTH)%nat ∧ t ≠ 0)
             then u32 (Z.shiftl (pn x (Z.to_nat j + Z.to_nat k + 1)) (32 - t)) else 0) r = false) as ->.
    { case_decide; [|apply Z.bits_0]. rewrite testbit_u32_shl by lia. apply Z.testbit_neg_r. lia. }
    rewrite orb_false_r. case_decide; [by rewrite Z.shiftr_spec by lia|].
    rewrite (pn_above x (_ + _)) by (done || lia). by rewrite !Z.bits_0.
  - replace ((i + sh) / 32) with (j + k + 1) by (apply Z.div_unique with (r + t - 32); lia).
    replace ((i + sh) mod 32) with (r + t - 32) by (apply Z.mod_unique with (j + k + 1); lia).
    replace (Z.to_nat (j + k + 1)) with (Z.to_nat j + Z.to_nat k + 1)%nat by lia.
    assert (Z.testbit (if decide (Z.to_nat j + Z.to_nat k < WIDTH)%nat
             then Z.shiftr (pn x (Z.to_nat j + Z.to_nat k)) t else 0) r = false) as ->.
    { case_decide; [|apply Z.bits_0]. rewrite Z.shiftr_spec by lia.
      apply testbit_high with 32; auto with limbs; lia. }
    rewrite orb_false_l. case_decide.
    + rewrite testbit_u32_shl by lia. f_equal. lia.
    + rewrite (pn_above x (_ + _)) by (done || lia). by rewrite !Z.bits_0.
Qed.

Lemma forallb_zero l : Forall (in_u 32) l → forallb (λ p, p =? 0) l = (digits_val 32 l =? 0).
Proof.
  induction 1 as [|p l Hp Hl IH]; [done|]. cbn [forallb digits_val]. rewrite IH.
  apply (digits_val_range 32) in Hl; [|lia]. unfold in_u in *. lia.
Qed.

Lemma EqualTo_spec x b : wf x → in_u 64 b → EqualTo x b = (val x =? b).
Proof.
  intros [Hl Hx] Hb. destruct x as [|p [|q x]]; [done|done|].
  unfold EqualTo, pn, val. cbn [drop lookup list_lookup from_option digits_val]. rewrite drop_0.
  inversion_clear Hx as [|? ? Hp Hx']. inversion_clear Hx' as [|? ? Hq Hx].
  rewrite forallb_zero by done. apply (digits_val_range 32) in Hx; [|lia].
  destruct (low_high_32 b) as [-> ->]; [apply Hb|]. unfold in_u in *. cbn [id].
  pose proof (Z.div_mod b (2 ^ 32)). pose proof (Z.mod_pos_bound b (2 ^ 32)).
  set (b1 := b / 2 ^ 32) in *. set (b0 := b mod 2 ^ 32) in *. lia.
Qed.

(** ** Bit length *)

Lemma testbit_top_false p n : 0 <= n → in_u (n + 1) p → Z.testbit p n = false → in_u n p.
Proof.
  intros Hn Hp Hb. apply in_u_testbit; [lia|apply Hp|]. intros i Hi.
  destruct (decide (i = n)) as [->|]; [done|]. apply testbit_high with (n + 1); done || lia.
Qed.

Lemma nbits_loop_spec p n : 0 < p → in_u (Z.of_nat n + 1) p → nbits_loop p n = Z.log2 p.
Proof.
  intros Hp. induction n as [|n IH]; intros Hr.
  { simpl. assert (p = 1) as -> by (unfold in_u in Hr; simpl in Hr; lia). done. }
  cbn [nbits_loop]. rewrite land_bit by lia.
  destruct (Z.testbit p (Z.of_nat (S n))) eqn:E.
  - symmetry. apply Z.log2_unique; [lia|]. unfold in_u in Hr. split; [|lia].
    destruct (Z.le_gt_cases (2 ^ Z.of_nat (S n)) p) as [|Hlt]; [done|].
    rewrite (testbit_high (Z.of_nat (S n)) p) in E; [done|unfold in_u; lia|lia].
  - apply IH. apply testbit_top_false in E; [|lia|done]. by rewrite Nat2Z.inj_succ in E.
Qed.

Definition bitlen (z : Z) : Z := if z =? 0 then 0 else Z.log2 z + 1.

Lemma bits_loop_spec x n : wf x → (n <= WIDTH)%nat →
  bits_loop x n = bitlen (digits_val 32 (take n x)).
Proof.
  intros Hx Hn. induction n as [|n IH]; [by destruct x|].
  cbn [bits_loop]. pose proof Hx as [Hl Hf].
  destruct (lookup_lt_is_Some_2 x n) as [p Hp]; [lia|].
  assert (pn x n = p) as -> by (unfold pn; by rewrite Hp).
  assert (in_u 32 p) as Hpr by (by eapply (Forall_lookup_1 _ _ _ _ Hf)).
  rewrite (take_S_r x n p), digits_val_app, length_take_le by (done || lia).
  cbn [digits_val]. rewrite Z.mul_0_r, Z.add_0_r.
  pose proof (digits_val_range 32 ltac:(lia) (take n x) ltac:(by apply Forall_take)) as Hv.
  rewrite length_take_le in Hv by lia. unfold in_u in Hv.
  destruct (Z.eqb_spec p 0) as [->|Hp0]; cbn [negb].
  { rewrite Z.mul_0_r, Z.add_0_r. apply IH. lia. }
  rewrite (nbits_loop_spec p 31) by (unfold in_u in *; simpl; lia).
  unfold bitlen. destruct (Z.eqb_spec (digits_val 32 (take n x) + 2 ^ (32 * Z.of_nat n) * p) 0) as [E0|_].
  { unfold in_u in Hpr. nia. }
  f_equal. symmetry. apply Z.log2_unique.
  { pose proof (Z.log2_nonneg p). lia. }
  unfold in_u in Hpr. pose proof (Z.log2_spec p ltac:(lia)) as [Hlo Hhi].
  pose proof (Z.log2_nonneg p).
  rewrite Z.pow_succ_r, Z.pow_add_r in * by lia. nia.
Qed.

Lemma bits_spec x : wf x → bits x = bitlen (val x).
Proof.
  intros Hx. unfold bits. rewrite bits_loop_spec by done.
  rewrite take_ge; [done|]. destruct Hx as [-> _]. done.
Qed.

Lemma bitlen_pos z : 0 < z → 2 ^ (bitlen z - 1) <= z < 2 ^ bitlen z ∧ 0 < bitlen z.
Proof.
  intros Hz. unfold bitlen. destruct (Z.eqb_spec z 0); [lia|].
  pose proof (Z.log2_spec z Hz). pose proof (Z.log2_nonneg z).
  replace (Z.log2 z + 1 - 1) with (Z.log2 z) by lia. rewrite Z.add_1_r. lia.
Qed.

Lemma bitlen_le w z : 0 <= w → in_u w z → bitlen z <= w.
Proof.
  intros Hw Hz. unfold bitlen. destruct (Z.eqb_spec z 0); [lia|].
  destruct Hz. assert (Z.log2 z < w) by (apply Z.log2_lt_pow2; lia). lia.
Qed.

Lemma bitlen_upper z : 0 <= z → z < 2 ^ bitlen z.
Proof.
  intros Hz. destruct (decide (z = 0)) as [->|]; [done|]. apply bitlen_pos. lia.
Qed.

(** ** Division *)

Lemma or_at_wf x i v : wf x → in_u 32 v → (i < WIDTH)%nat → wf (or_at x i v).
Proof.
  intros Hx Hv Hi. apply wf_pn; [rewrite or_at_length; apply Hx|].
  intros j Hj. rewrite pn_or_at by (destruct Hx as [-> _]; done).
  case_decide; [apply in_u_lor|]; auto with limbs.
Qed.

Lemma or_at_val x i v : wf x → in_u 32 v → (i < WIDTH)%nat →
  val (or_at x i v) = Z.lor (val x) (Z.shiftl v (32 * Z.of_nat i)).
Proof.
  intros Hx Hv Hi. apply val_bits_eq; [by apply or_at_wf| |].
  { apply in_u_lor; [lia|by apply val_range|]. unfold in_u in *.
    rewrite Z.shiftl_mul_pow2 by lia. split; [nia|].
    apply Z.lt_le_trans with (2 ^ 32 * 2 ^ (32 * Z.of_nat i)); [nia|].
    rewrite <- Z.pow_add_r by lia. apply Z.pow_le_mono_r; unfold WIDTH in Hi; lia. }
  intros b Hb. rewrite Z.lor_spec, Z.shiftl_spec by lia.
  rewrite !val_testbit by (auto using or_at_wf; lia).
  rewrite pn_or_at by (destruct Hx as [-> _]; done).
  assert (b = 32 * (b / 32) + b mod 32) by zdm.
  pose proof (Z.mod_pos_bound b 32 ltac:(lia)).
  case_decide as Hd.
  - rewrite Z.lor_spec. do 2 f_equal. rewrite Hd, Z2Nat.id by zdm. lia.
  - assert (Z.of_nat i ≠ b / 32) by (intros E; apply Hd; rewrite <- E; lia).
    destruct (Z.lt_ge_cases b (32 * Z.of_nat i)).
    + by rewrite (Z.testbit_neg_r _ (b - _)), orb_false_r by lia.
    + by rewrite (testbit_high 32 v), orb_false_r by (done || lia).
Qed.

(** Setting quotient bit [shift] adds [2^shift] while the bits at and below it are clear. *)
Lemma set_quot_bit quot shift :
  wf quot → (shift < 256)%nat → (2 ^ (Z.of_nat shift + 1) | val quot) →
  let quot' := or_at quot (shift / 32) (Z.shiftl 1 (Z.land (Z.of_nat shift) 31)) in
  wf quot' ∧ val quot' = val quot + 2 ^ Z.of_nat shift.
Proof.
  intros Hq Hs [c Hc]. cbv zeta.
  assert (Z.land (Z.of_nat shift) 31 = Z.of_nat shift mod 32) as El by (apply (land_ones_mod 5); lia).
  assert ((shift / 32 < WIDTH)%nat) by (apply Nat.Div0.div_lt_upper_bound; unfold WIDTH; lia).
  assert (in_u 32 (Z.shiftl 1 (Z.land (Z.of_nat shift) 31))) as Hv.
  { rewrite El, Z.shiftl_1_l. split; [lia|]. apply Z.pow_lt_mono_r; zdm. }
  split; [by apply or_at_wf|]. rewrite or_at_val, El by done.
  rewrite Z.shiftl_shiftl by zdm.
  replace (Z.of_nat shift mod 32 + 32 * Z.of_nat (shift / 32)) with (Z.of_nat shift)
    by (rewrite Nat2Z.inj_div; zdm).
  rewrite Z.lor_comm, Z.shiftl_1_l, Hc.
  rewrite <- Z.shiftl_mul_pow2 by lia.
  rewrite lor_add_shiftl; [|lia|split; [lia|apply Z.pow_lt_mono_r; lia]].
  rewrite Z.shiftl_mul_pow2 by lia. ring.
Qed.

Lemma div_loop_spec (N D : Z) n num div quot :
  0 < D → (n <= 256)%nat → wf num → wf div → wf quot →
  (n ≠ 0%nat → val div = D * 2 ^ (Z.of_nat n - 1)) →
  val num < D * 2 ^ Z.of_nat n → val quot * D + val num = N → (2 ^ Z.of_nat n | val quot) →
  wf (div_loop n num div quot) ∧ val (div_loop n num div quot) = N / D.
Proof.
  intros HD. revert num div quot. induction n as [|n IH]; intros num div quot Hn Hwn Hwd Hwq Hd Hlt HN Hq.
  { simpl. split; [done|]. pose proof (val_range num Hwn) as [? _]. simpl in Hlt.
    apply Z.div_unique with (val num); lia. }
  cbn [div_loop]. rewrite op_ge_spec by done. rewrite Z.geb_leb.
  specialize (Hd ltac:(done)). replace (Z.of_nat (S n) - 1) with (Z.of_nat n) in Hd by lia.
  rewrite Nat2Z.inj_succ, Z.pow_succ_r in Hlt, Hq by lia.
  assert (n ≠ 0%nat → val (op_shr div 1) = D * 2 ^ (Z.of_nat n - 1)) as Hd'.
  { intros Hn0. rewrite op_shr_val, Hd by (done || lia).
    replace (2 ^ Z.of_nat n) with (2 ^ (Z.of_nat n - 1) * 2 ^ 1)
      by (rewrite <- Z.pow_add_r by lia; f_equal; lia).
    rewrite Z.mul_assoc. by apply Z.div_mul. }
  pose proof (val_range num Hwn) as [? ?]. pose proof (val_range div Hwd) as [? ?].
  destruct (Z.leb_spec (val div) (val num)).
  - assert (val (op_sub num div) = val num - val div) as Es.
    { rewrite op_sub_val by done. apply Z.mod_small. lia. }
    destruct (set_quot_bit quot n) as [Hwq' Hvq'];
      [done|lia|by rewrite Z.add_1_r, Z.pow_succ_r by lia|].
    apply IH; [lia|by apply op_sub_wf|by apply op_shr_wf|done|done|rewrite Es; lia| |].
    + rewrite Hvq', Es, Hd. lia.
    + rewrite Hvq'. destruct Hq as [c ->]. exists (2 * c + 1). ring.
  - apply IH; [lia|done|by apply op_shr_wf|done|done|lia|done|].
    destruct Hq as [c ->]. exists (2 * c). ring.
Qed.

(** Division: total, an error exactly for a zero divisor, otherwise the floor quotient. *)
Lemma op_div_spec x b : wf x → wf b →
  op_div x b = Err DivisionByZero ∧ val b = 0 ∨
  ∃ q, op_div x b = Ok q ∧ wf q ∧ 0 < val b ∧ val q = val x / val b.
Proof.
  intros Hx Hb. unfold op_div. rewrite !bits_spec by done.
  pose proof (val_range b Hb) as [Hb0 _]. pose proof (val_range x Hx) as [Hx0 Hx1].
  destruct (decide (val b = 0)) as [E|Hne].
  { left. by rewrite E. }
  destruct (bitlen_pos (val b) ltac:(lia)) as [Hlen Hpos].
  right. destruct (Z.eqb_spec (bitlen (val b)) 0); [lia|]. rewrite Z.gtb_ltb.
  pose proof (bitlen_upper (val x) Hx0) as Hux.
  destruct (Z.ltb_spec (bitlen (val x)) (bitlen (val b))).
  { exists (of_u64 0). split_and!; [done|apply of_u64_wf|lia|].
    rewrite Z.div_small; [done|]. split; [lia|].
    apply Z.lt_le_trans with (2 ^ (bitlen (val b) - 1)); [|lia].
    apply Z.lt_le_trans with (2 ^ bitlen (val x)); [done|]. apply Z.pow_le_mono_r; lia. }
  set (shift := bitlen (val x) - bitlen (val b)).
  pose proof (bitlen_le 256 (val x) ltac:(lia) (val_range x Hx)).
  destruct (div_loop_spec (val x) (val b) (Z.to_nat (shift + 1)) x (op_shl b shift) (of_u64 0))
    as [Hw Hv]; [lia|lia|done|by apply op_shl_wf|apply of_u64_wf| | | |exists 0; done|].
  - intros _. rewrite Z2Nat.id by lia. rewrite Z.add_simpl_r, op_shl_val by (done || lia).
    apply Z.mod_small. split; [nia|].
    apply Z.lt_le_trans with (2 ^ bitlen (val b) * 2 ^ shift); [nia|].
    rewrite <- Z.pow_add_r by lia. apply Z.pow_le_mono_r; lia.
  - rewrite Z2Nat.id by lia.
    apply Z.lt_le_trans with (2 ^ (bitlen (val b) - 1) * 2 ^ (shift + 1)); [|nia].
    rewrite <- Z.pow_add_r by lia. replace (bitlen (val b) - 1 + (shift + 1)) with (bitlen (val x)) by lia. done.
  - by rewrite of_u64_val by done.
  - eexists. split_and!; [done|done|lia|done].
Qed.

(** ** The compact encoding *)

Lemma GetLow64_spec x : wf x → GetLow64 x = val x mod 2 ^ 64.
Proof.
  intros [Hl Hx]. unfold GetLow64, val.
  destruct x as [|p [|q x]]; [done|done|]. unfold pn; simpl from_option.
  inversion_clear Hx as [|? ? Hp Hx']. inversion_clear Hx' as [|? ? Hq Hx].
  rewrite lor_add_shiftl by (done || lia). cbn [digits_val].
  unfold in_u in *. apply Z.mod_unique with (digits_val 32 x); [left; lia|]. lia.
Qed.

Lemma land_mantissa c : Z.land c 0x007fffff = c mod 2 ^ 23.
Proof. apply (land_ones_mod 23). lia. Qed.

(** The number denoted by a compact encoding, sign aside. *)
Definition compact_value (c : Z) : Z :=
  let e := c / 2 ^ 24 in
  let m := c mod 2 ^ 23 in
  if e <=? 3 then m / 2 ^ (8 * (3 - e)) else (m * 2 ^ (8 * (e - 3))) mod 2 ^ 256.

Lemma SetCompact_val c : in_u 32 c →
  wf (SetCompact c).1.1 ∧ val (SetCompact c).1.1 = compact_value c.
Proof.
  intros Hc. unfold SetCompact, compact_value.
  rewrite Z.shiftr_div_pow2, land_mantissa by lia.
  assert (0 <= c / 2 ^ 24) by (apply Z.div_pos; unfold in_u in Hc; lia).
  pose proof (Z.mod_pos_bound c (2 ^ 23) ltac:(lia)).
  destruct (Z.leb_spec (c / 2 ^ 24) 3); cbn [fst].
  - split; [apply of_u64_wf|]. rewrite Z.shiftr_div_pow2 by lia. apply of_u64_val.
    split; [apply Z.div_pos; lia|]. apply Z.div_lt_upper_bound; nia.
  - split; [apply op_shl_wf, of_u64_wf|].
    rewrite op_shl_val, of_u64_val by (apply of_u64_wf || (split; lia) || lia). done.
Qed.

(** [*pfOverflow] is raised exactly when the denoted number exceeds 256 bits. *)
Lemma SetCompact_overflow c : in_u 32 c →
  (SetCompact c).2 = true ↔ 3 < c / 2 ^ 24 ∧ 2 ^ 256 <= (c mod 2 ^ 23) * 2 ^ (8 * (c / 2 ^ 24 - 3)).
Proof.
  intros Hc. unfold SetCompact.
  rewrite Z.shiftr_div_pow2, land_mantissa by lia.
  set (e := c / 2 ^ 24). set (m := c mod 2 ^ 23).
  assert (0 <= e) by (apply Z.div_pos; unfold in_u in Hc; lia).
  assert (0 <= m < 2 ^ 23) by (apply Z.mod_pos_bound; lia).
  destruct (Z.leb_spec e 3); cbn [snd].
  { rewrite !Z.gtb_ltb, !(proj2 (Z.ltb_ge _ e)) by lia.
    rewrite ?andb_false_r, ?orb_false_r, ?andb_false_r. split; [done|lia]. }
  rewrite andb_true_iff, !orb_true_iff, !andb_true_iff, negb_true_iff, Z.eqb_neq, !Z.gtb_lt.
  split.
  - intros [Hm0 [[He|[Hm He]]|[Hm He]]]; (split; [lia|]).
    + apply Z.le_trans with (1 * 2 ^ (8 * (e - 3))); [|nia].
      rewrite Z.mul_1_l. apply Z.pow_le_mono_r; lia.
    + apply Z.le_trans with (2 ^ 8 * 2 ^ (8 * (e - 3))); [|nia].
      rewrite <- Z.pow_add_r by lia. apply Z.pow_le_mono_r; lia.
    + apply Z.le_trans with (2 ^ 16 * 2 ^ (8 * (e - 3))); [|nia].
      rewrite <- Z.pow_add_r by lia. apply Z.pow_le_mono_r; lia.
  - intros [_ Hov]. split; [intros E; rewrite E in Hov; lia|].
    destruct (Z.lt_ge_cases 34 e); [by left; left|].
    destruct (decide (e = 34)) as [->|]; [left; right; split; [|lia]; simpl in Hov; lia|].
    destruct (decide (e = 33)) as [->|]; [right; split; [|lia]; simpl in Hov; lia|].
    exfalso. assert (m * 2 ^ (8 * (e - 3)) < 2 ^ 24 * 2 ^ 232); [|lia].
    apply Z.lt_le_trans with (2 ^ 24 * 2 ^ (8 * (e - 3))); [nia|].
    apply Z.mul_le_mono_nonneg_l; [lia|]. apply Z.pow_le_mono_r; lia.
Qed.

(** Exponent and mantissa of the canonical encoding of [v]. *)
Definition compact_size (v : Z) : Z := if v =? 0 then 0 else bitlen v / 8 + 1.
Definition compact_mant (v : Z) : Z :=
  if compact_size v <=? 3 then v * 2 ^ (8 * (3 - compact_size v))
  else v / 2 ^ (8 * (compact_size v - 3)).

(** [v] scaled to a three-byte window below byte position [s]. *)
Definition window (v s : Z) : Z :=
  if s <=? 3 then v * 2 ^ (8 * (3 - s)) else v / 2 ^ (8 * (s - 3)).

Lemma window_upper v s t : 0 < v → 0 <= s → 0 <= t →
  bitlen v + 24 - 8 * s <= t → 0 <= window v s < 2 ^ t.
Proof.
  intros Hv Hs Ht H. destruct (bitlen_pos v Hv) as [[_ Hu] Hl]. unfold window.
  destruct (Z.leb_spec s 3).
  - split; [nia|]. apply Z.lt_le_trans with (2 ^ bitlen v * 2 ^ (8 * (3 - s))); [nia|].
    rewrite <- Z.pow_add_r by lia. apply Z.pow_le_mono_r; lia.
  - split; [apply Z.div_pos; lia|]. apply Z.div_lt_upper_bound; [lia|].
    rewrite <- Z.pow_add_r by lia. apply Z.lt_le_trans with (2 ^ bitlen v); [done|].
    apply Z.pow_le_mono_r; lia.
Qed.

Lemma window_lower v s t : 0 < v → 0 <= s → 0 <= t →
  t < bitlen v + 24 - 8 * s → 2 ^ t <= window v s.
Proof.
  intros Hv Hs Ht H. destruct (bitlen_pos v Hv) as [[Hlo _] Hl]. unfold window.
  destruct (Z.leb_spec s 3).
  - apply Z.le_trans with (2 ^ (bitlen v - 1) * 2 ^ (8 * (3 - s))); [|nia].
    rewrite <- Z.pow_add_r by lia. apply Z.pow_le_mono_r; lia.
  - apply Z.div_le_lower_bound; [lia|]. rewrite <- Z.pow_add_r by lia.
    apply Z.le_trans with (2 ^ (bitlen v - 1)); [|done]. apply Z.pow_le_mono_r; lia.
Qed.

Lemma window_shift v s : 0 <= v → 0 <= s → window v s / 2 ^ 8 = window v (s + 1).
Proof.
  intros Hv Hs. unfold window. destruct (Z.leb_spec s 3), (Z.leb_spec (s + 1) 3); try lia.
  - replace (8 * (3 - s)) with (8 * (3 - (s + 1)) + 8) by lia.
    rewrite Z.pow_add_r, Z.mul_assoc by lia. by apply Z.div_mul.
  - assert (s = 3) as -> by lia. simpl. by rewrite Z.mul_1_r.
  - rewrite Z.div_div by lia. rewrite <- Z.pow_add_r by lia. do 2 f_equal. lia.
Qed.

Lemma raw_mantissa x : wf x →
  let nSize := (bits x + 7) / 8 in
  (if nSize <=? 3 then u32 (u64 (Z.shiftl (GetLow64 x) (8 * (3 - nSize))))
   else u32 (GetLow64 (op_shr x (8 * (nSize - 3))))) = window (val x) nSize.
Proof.
  intros Hx. cbv zeta. rewrite bits_spec by done.
  pose proof (val_range x Hx) as [Hv0 Hv1].
  destruct (decide (val x = 0)) as [E|Hne].
  { rewrite E. simpl. rewrite GetLow64_spec, E by done. done. }
  set (s := (bitlen (val x) + 7) / 8).
  destruct (bitlen_pos (val x) ltac:(lia)) as [Hb Hl].
  assert (0 <= s) by (subst s; apply Z.div_pos; lia).
  assert (bitlen (val x) + 24 - 8 * s <= 24) by (subst s; zdm).
  pose proof (window_upper (val x) s 24 ltac:(lia) ltac:(lia) ltac:(lia) ltac:(done)) as Hw.
  unfold window in *. destruct (Z.leb_spec s 3).
  - assert (0 < 2 ^ (8 * (3 - s))) by lia.
    rewrite GetLow64_spec, (Z.mod_small (val x)), Z.shiftl_mul_pow2 by (done || nia).
    rewrite (wrap_small 64), wrap_small by (unfold in_u; lia). done.
  - rewrite GetLow64_spec, op_shr_val by (auto using op_shr_wf; lia).
    rewrite Z.mod_small, wrap_small by (unfold in_u; lia). done.
Qed.

Lemma land_sign m : negb (Z.land m 0x00800000 =? 0) = Z.testbit m 23.
Proof. by apply (land_bit m 23). Qed.

Lemma testbit_23 m : in_u 24 m → Z.testbit m 23 = (2 ^ 23 <=? m).
Proof.
  intros Hm. destruct (Z.leb_spec (2 ^ 23) m).
  - destruct (Z.testbit m 23) eqn:E; [done|].
    apply testbit_top_false in E; [|lia|done]. unfold in_u in E. lia.
  - apply testbit_high with 23; [unfold in_u in *; lia|lia].
Qed.

(** Exponent and mantissa after the sign-bit adjustment. *)
Lemma window_adjust v s : in_u 256 v → s = (bitlen v + 7) / 8 →
  (if Z.testbit (window v s) 23 then (Z.shiftr (window v s) 8, s + 1) else (window v s, s))
  = (compact_mant v, compact_size v) ∧ in_u 23 (compact_mant v) ∧ 0 <= compact_size v <= 33.
Proof.
  intros Hv Es. destruct (decide (v = 0)) as [->|Hne].
  { simpl in Es. subst s. split_and!; done || (unfold compact_size; simpl; lia). }
  assert (0 < v) as Hp by (unfold in_u in Hv; lia).
  destruct (bitlen_pos v Hp) as [_ Hl]. pose proof (bitlen_le 256 v ltac:(lia) Hv).
  assert (compact_size v = bitlen v / 8 + 1) as Ec.
  { unfold compact_size. by destruct (Z.eqb_spec v 0). }
  assert (0 <= s) by (subst s; apply Z.div_pos; lia).
  assert (in_u 24 (window v s)) as Hw.
  { apply window_upper; [lia..|]. subst s; zdm. }
  change (compact_mant v) with (window v (compact_size v)).
  assert (in_u 23 (window v (compact_size v)) ∧ 0 <= compact_size v <= 33) as Hin.
  { split; [|rewrite Ec; zdm]. apply window_upper; rewrite ?Ec; zdm. }
  split; [|done]. rewrite testbit_23 by done. destruct (Z.leb_spec (2 ^ 23) (window v s)).
  - assert (compact_size v = s + 1) as ->.
    { destruct (decide (bitlen v = 8 * s)); [rewrite Ec; zdm|].
      pose proof (window_upper v s 23 Hp ltac:(lia) ltac:(lia)). zdm. }
    rewrite Z.shiftr_div_pow2, window_shift by lia. done.
  - assert (compact_size v = s) as ->; [|done].
    destruct (decide (bitlen v = 8 * s)); [|rewrite Ec; zdm].
    pose proof (window_lower v s 23 Hp ltac:(lia) ltac:(lia)). lia.
Qed.

(** [GetCompact] never fails its assertions and yields the canonical encoding. *)
Lemma GetCompact_spec x : wf x →
  GetCompact x false = Some (compact_mant (val x) + compact_size (val x) * 2 ^ 24).
Proof.
  intros Hx. unfold GetCompact. rewrite raw_mantissa by done.
  rewrite land_sign, bits_spec by done.
  destruct (window_adjust (val x) _ (val_range x Hx) eq_refl) as (-> & Hm & Hs).
  assert (Z.land (compact_mant (val x)) (Z.lxor 0x007fffff 0xffffffff) = 0) as ->.
  { apply Z.bits_inj'. intros i Hi. rewrite Z.land_spec, Z.bits_0.
    destruct (Z.lt_ge_cases i 23) as [Hlt|]; [|by rewrite (testbit_high 23)].
    assert (Z.testbit (Z.lxor 0x007fffff 0xffffffff) i = false) as ->; [|by rewrite andb_false_r].
    rewrite Z.lxor_spec. change 0x007fffff with (Z.ones 23). change 0xffffffff with (Z.ones 32).
    by rewrite !Z.ones_spec_low by lia. }
  cbn [negb Z.eqb andb]. destruct (Z.ltb_spec (compact_size (val x)) 256); [|lia]. cbn [negb].
  rewrite Z.lor_0_r, (wrap_small 32), lor_add_shiftl; [done|lia|unfold in_u in *; lia|].
  rewrite Z.shiftl_mul_pow2 by lia. unfold in_u. lia.
Qed.

(** Decoding the canonical encoding drops the bytes below the mantissa. *)
Definition compact_trunc (v : Z) : Z :=
  if compact_size v <=? 3 then v
  else v / 2 ^ (8 * (compact_size v - 3)) * 2 ^ (8 * (compact_size v - 3)).

Lemma compact_parts m s : in_u 23 m → 0 <= s →
  (m + s * 2 ^ 24) / 2 ^ 24 = s ∧ (m + s * 2 ^ 24) mod 2 ^ 23 = m.
Proof.
  intros Hm Hs. unfold in_u in Hm. split; [symmetry; apply Z.div_unique with m; lia|].
  replace (m + s * 2 ^ 24) with (m + (s * 2) * 2 ^ 23) by ring.
  rewrite Z.mod_add, Z.mod_small by lia. done.
Qed.

Lemma compact_value_encode v : in_u 256 v →
  compact_value (compact_mant v + compact_size v * 2 ^ 24) = compact_trunc v.
Proof.
  intros Hv. destruct (window_adjust v _ Hv eq_refl) as (_ & Hm & Hs).
  unfold compact_value. destruct (compact_parts _ _ Hm (proj1 Hs)) as [-> ->].
  unfold compact_trunc, compact_mant. destruct (Z.leb_spec (compact_size v) 3).
  - by rewrite Z.div_mul by lia.
  - apply Z.mod_small. unfold in_u in Hv. split.
    + assert (0 <= v / 2 ^ (8 * (compact_size v - 3))) by (apply Z.div_pos; lia). nia.
    + pose proof (Z.mul_div_le v (2 ^ (8 * (compact_size v - 3))) ltac:(lia)). lia.
Qed.

Lemma compact_trunc_le v : 0 <= v → 0 <= compact_trunc v <= v.
Proof.
  intros Hv. unfold compact_trunc. destruct (Z.leb_spec (compact_size v) 3); [lia|].
  pose proof (Z.mul_div_le v (2 ^ (8 * (compact_size v - 3))) ltac:(lia)).
  assert (0 <= v / 2 ^ (8 * (compact_size v - 3))) by (apply Z.div_pos; lia). nia.
Qed.

Lemma bitlen_mono a b : 0 <= a <= b → bitlen a <= bitlen b.
Proof.
  intros H. unfold bitlen. destruct (Z.eqb_spec a 0), (Z.eqb_spec b 0); try lia.
  - pose proof (Z.log2_nonneg b). lia.
  - pose proof (Z.log2_le_mono a b). lia.
Qed.

Lemma compact_trunc_mono a b : 0 <= a <= b → compact_trunc a <= compact_trunc b.
Proof.
  intros H. destruct (decide (compact_size b <= 3)) as [Hb|Hb].
  { unfold compact_trunc at 2. rewrite (proj2 (Z.leb_le _ _)) by lia.
    pose proof (compact_trunc_le a). lia. }
  assert (0 < b) by (unfold compact_size in Hb; destruct (Z.eqb_spec b 0); lia).
  assert (compact_size b = bitlen b / 8 + 1) as Eb.
  { unfold compact_size. destruct (Z.eqb_spec b 0); [lia|done]. }
  assert (compact_size a <= compact_size b) as Hs.
  { pose proof (bitlen_mono a b H). destruct (bitlen_pos b) as [_ ?]; [done|].
    unfold compact_size. destruct (Z.eqb_spec a 0), (Z.eqb_spec b 0); zdm. }
  destruct (decide (compact_size a = compact_size b)) as [E|Hn].
  - unfold compact_trunc. rewrite E, (proj2 (Z.leb_gt _ _)) by lia.
    apply Z.mul_le_mono_nonneg_r; [lia|]. apply Z.div_le_mono; lia.
  - apply Z.le_trans with a; [apply compact_trunc_le; lia|].
    apply Z.le_trans with (2 ^ 15 * 2 ^ (8 * (compact_size b - 3))).
    + apply Z.lt_le_incl. pose proof (bitlen_upper a ltac:(lia)).
      apply Z.lt_le_trans with (2 ^ bitlen a); [done|].
      rewrite <- Z.pow_add_r by lia. apply Z.pow_le_mono_r; [lia|].
      destruct (decide (a = 0)) as [->|]; [change (bitlen 0) with 0; lia|].
      assert (compact_size a = bitlen a / 8 + 1) as Ea.
      { unfold compact_size. destruct (Z.eqb_spec a 0); [lia|done]. }
      zdm.
    + unfold compact_trunc. rewrite (proj2 (Z.leb_gt _ _)) by lia.
      apply Z.mul_le_mono_nonneg_r; [lia|].
      pose proof (window_lower b (compact_size b) 15) as Hw. unfold window in Hw.
      rewrite (proj2 (Z.leb_gt _ _)) in Hw by lia. apply Hw; zdm.
Qed.

Lemma bitlen_unique n v : 0 < n → 2 ^ (n - 1) <= v < 2 ^ n → bitlen v = n.
Proof.
  intros Hn [Hlo Hhi]. unfold bitlen. destruct (Z.eqb_spec v 0) as [->|].
  { assert (0 < 2 ^ (n - 1)) by lia. lia. }
  rewrite (Z.log2_unique v (n - 1)); [lia|lia|].
  rewrite <- Z.add_1_r. replace (n - 1 + 1) with n by lia. lia.
Qed.

(** A normalised encoding is recovered from the number it denotes. *)
Lemma compact_encode_value m e : 3 <= e → 2 ^ 15 <= m < 2 ^ 23 →
  compact_size (m * 2 ^ (8 * (e - 3))) = e ∧ compact_mant (m * 2 ^ (8 * (e - 3))) = m.
Proof.
  intros He Hm. set (v := m * 2 ^ (8 * (e - 3))).
  destruct (bitlen_pos m ltac:(lia)) as [Hbm Hbp].
  assert (bitlen v = bitlen m + 8 * (e - 3)) as Ev.
  { apply bitlen_unique; [lia|].
    replace (bitlen m + 8 * (e - 3) - 1) with ((bitlen m - 1) + 8 * (e - 3)) by lia.
    subst v. rewrite !Z.pow_add_r by lia. nia. }
  assert (15 < bitlen m <= 23) as Hbl.
  { split; [|apply bitlen_le; unfold in_u; lia].
    apply (Z.pow_lt_mono_r_iff 2); lia. }
  assert (0 < v) by (subst v; nia).
  assert (compact_size v = e) as Es.
  { unfold compact_size. destruct (Z.eqb_spec v 0); [lia|]. rewrite Ev. zdm. }
  split; [done|]. unfold compact_mant. rewrite Es. destruct (Z.leb_spec e 3).
  - assert (e = 3) as -> by lia. subst v. simpl. lia.
  - subst v. by rewrite Z.div_mul by lia.
Qed.

Lemma encode_flags v : in_u 256 v →
  let c := compact_mant v + compact_size v * 2 ^ 24 in
  in_u 32 c ∧ (SetCompact c).1.2 = false ∧ (SetCompact c).2 = false.
Proof.
  intros Hv. cbv zeta. destruct (window_adjust v _ Hv eq_refl) as (_ & Hm & Hs).
  destruct (compact_parts _ _ Hm (proj1 Hs)) as [Ee Em].
  set (c := compact_mant v + compact_size v * 2 ^ 24) in *.
  assert (in_u 32 c) as Hc by (unfold in_u in *; subst c; lia).
  split_and!; [done| |].
  - unfold SetCompact. destruct (_ <=? 3); cbn [fst snd]; rewrite land_sign.
    all: assert (Z.testbit c 23 = false) as ->; [|apply andb_false_r].
    all: rewrite <- (Z.mod_pow2_bits_low c 24) by lia; apply testbit_high with 23; [|lia].
    all: subst c; rewrite Z.mod_add, Z.mod_small by (unfold in_u in *; lia); done.
  - destruct (SetCompact c).2 eqn:E; [|done].
    apply SetCompact_overflow in E as [He Hov]; [|done]. rewrite Ee, Em in *.
    exfalso. unfold compact_mant in Hov. rewrite (proj2 (Z.leb_gt _ _)) in Hov by lia.
    pose proof (Z.mul_div_le v (2 ^ (8 * (compact_size v - 3))) ltac:(lia)). unfold in_u in Hv. lia.
Qed.

Lemma mant_lower v : 3 < compact_size v → 0 <= v → 2 ^ 15 <= compact_mant v.
Proof.
  intros Hs Hv. assert (0 < v).
  { unfold compact_size in Hs. destruct (Z.eqb_spec v 0); lia. }
  change (compact_mant v) with (window v (compact_size v)). apply window_lower; [lia..|].
  unfold compact_size. destruct (Z.eqb_spec v 0); [lia|]. zdm.
Qed.

Lemma compact_trunc_error v : in_u 256 v → (v - compact_trunc v) * 2 ^ 15 <= v.
Proof.
  intros Hv. unfold compact_trunc. destruct (Z.leb_spec (compact_size v) 3) as [|Hs].
  { unfold in_u in Hv. lia. }
  pose proof (mant_lower v Hs (proj1 Hv)) as Hm. unfold compact_mant in Hm.
  rewrite (proj2 (Z.leb_gt _ _)) in Hm by lia.
  set (k := 2 ^ (8 * (compact_size v - 3))) in *. assert (0 < k) by lia.
  pose proof (Z.div_mod v k ltac:(lia)). pose proof (Z.mod_pos_bound v k ltac:(lia)). nia.
Qed.

Lemma encode_trunc v : in_u 256 v →
  compact_size (compact_trunc v) = compact_size v ∧ compact_mant (compact_trunc v) = compact_mant v.
Proof.
  intros Hv. unfold compact_trunc. destruct (Z.leb_spec (compact_size v) 3) as [|Hs]; [done|].
  pose proof (mant_lower v Hs (proj1 Hv)) as Hm.
  destruct (window_adjust v _ Hv eq_refl) as (_ & Hu & _). unfold in_u in Hu.
  assert (compact_mant v = v / 2 ^ (8 * (compact_size v - 3))) as E.
  { unfold compact_mant. by rewrite (proj2 (Z.leb_gt _ _)) by lia. }
  rewrite <- E. apply compact_encode_value; lia.
Qed.

(** ** Conversions to and from [uint256] *)

Lemma UintToArith256_wf a : bytes_ok a → wf (UintToArith256 a).
Proof.
  intros Ha. split; [done|]. apply Forall_map, Forall_forall. intros i _.
  pose proof (digits_val_range 8 ltac:(lia) (take 4 (drop (4 * i) a))
                ltac:(by apply Forall_take, Forall_drop)) as [H1 H2].
  split; [done|]. eapply Z.lt_le_trans; [exact H2|]. apply Z.pow_le_mono_r; [lia|].
  rewrite length_take. lia.
Qed.

Lemma concat_chunks {A} n k (l : list A) :
  length l = (n * k)%nat → mjoin (map (λ i, take k (drop (k * i) l)) (seq 0 n)) = l.
Proof.
  revert l. induction n as [|n IH]; intros l Hl; [by destruct l|].
  cbn [seq map mjoin list_join]. rewrite Nat.mul_0_r, drop_0.
  rewrite <- fmap_S_seq.
  transitivity (take k l ++ drop k l); [|apply take_drop]. f_equal.
  rewrite <- (IH (drop k l)) by (rewrite length_drop; lia). f_equal.
  rewrite map_map. apply map_ext. intros i.
  rewrite drop_drop. do 2 f_equal. lia.
Qed.

(** Regrouping bytes into limbs does not change the value. *)
Lemma digits_regroup (ls : list (list Z)) :
  Forall (λ l, length l = 4%nat) ls →
  digits_val 32 (map le_decode ls) = digits_val 8 (mjoin ls).
Proof.
  induction 1 as [|l ls Hl _ IH]; [done|]. cbn [map digits_val mjoin list_join].
  rewrite digits_val_app, IH, Hl by lia. done.
Qed.

Lemma UintToArith256_val a : length a = 32%nat → val (UintToArith256 a) = le_decode a.
Proof.
  intros Hl. unfold val, UintToArith256.
  rewrite <- (map_map (λ x, take 4 (drop (4 * x) a)) le_decode), digits_regroup.
  - by rewrite (concat_chunks 8 4).
  - apply Forall_map, Forall_forall. intros i Hi. apply in_seq in Hi. unfold WIDTH in Hi.
    rewrite length_take, length_drop. lia.
Qed.

Lemma ArithToUint256_spec x : wf x →
  length (ArithToUint256 x) = 32%nat ∧ bytes_ok (ArithToUint256 x) ∧
  le_decode (ArithToUint256 x) = val x.
Proof.
  intros [Hl Hx]. unfold ArithToUint256, val.
  assert (∀ l, Forall (in_u 32) l →
    length (flat_map (le_encode 4) l) = (4 * length l)%nat ∧ bytes_ok (flat_map (le_encode 4) l) ∧
    digits_val 8 (flat_map (le_encode 4) l) = digits_val 32 l) as H; [|destruct (H x Hx) as (-> & ? & ?); by rewrite Hl].
  induction 1 as [|p l Hp Hl' (IH1 & IH2 & IH3)].
  { split_and!; [done|constructor|done]. }
  cbn [flat_map].
  split_and!.
  - rewrite length_app, IH1, le_encode_length. simpl. lia.
  - apply Forall_app; split; [apply le_encode_bytes|done].
  - rewrite digits_val_app, IH3, le_encode_length by lia. cbn [digits_val]. f_equal.
    by apply (le_decode_encode 4).
Qed.

End BaseUintFacts.

(** * Properties *)

Module Arith256Props.
Import BaseUint BaseUintFacts.

(** On well-formed operands the limb loops of [operator+=], [-=], unary
    [-], [*=] (by a word and by a big integer), [<<=], [>>=] and the
    comparisons compute the corresponding operations of the ring of integers
    modulo [2^256], and return well-formed results. *)
Theorem operators_refine_integers x y b sh :
  wf x → wf y → in_u 32 b → 0 <= sh →
  (wf (op_add x y) ∧ val (op_add x y) = (val x + val y) mod 2 ^ 256) ∧
  (wf (op_sub x y) ∧ val (op_sub x y) = (val x - val y) mod 2 ^ 256) ∧
  (wf (op_neg x) ∧ val (op_neg x) = (- val x) mod 2 ^ 256) ∧
  (wf (op_mul32 x b) ∧ val (op_mul32 x b) = (val x * b) mod 2 ^ 256) ∧
  (wf (op_mul x y) ∧ val (op_mul x y) = (val x * val y) mod 2 ^ 256) ∧
  (wf (op_shl x sh) ∧ val (op_shl x sh) = (val x * 2 ^ sh) mod 2 ^ 256) ∧
  (wf (op_shr x sh) ∧ val (op_shr x sh) = val x / 2 ^ sh) ∧
  CompareTo x y = Z.sgn (val x - val y).
Proof.
  intros. split_and!;
    auto using op_add_wf, op_sub_wf, op_neg_wf, op_mul32_wf, op_mul_wf, op_shl_wf, op_shr_wf,
      op_add_val, op_sub_val, op_neg_val, op_mul32_val, op_mul_val, op_shl_val, op_shr_val,
      CompareTo_spec.
Qed.

Lemma operators_refine_integers_witness :
  val (op_mul (of_u64 (2 ^ 64 - 1)) (op_neg (of_u64 3))) =
  ((2 ^ 64 - 1) * val (op_neg (of_u64 3))) mod 2 ^ 256.
Proof.
  apply (operators_refine_integers (of_u64 (2 ^ 64 - 1)) (op_neg (of_u64 3)) 7 45).
  - split; [reflexivity|]. repeat constructor; vm_compute; congruence.
  - split; [reflexivity|]. repeat constructor; vm_compute; congruence.
  - split; vm_compute; congruence.
  - vm_compute; congruence.
Defined.

(** [operator/=] terminates, throws [uint_error] exactly when the divisor
    is zero, and otherwise returns the floor of the quotient. *)
Theorem op_div_correct x b : wf x → wf b →
  match op_div x b with
  | Err DivisionByZero => val b = 0
  | Ok q => wf q ∧ 0 < val b ∧ val q = val x / val b
  end.
Proof.
  intros Hx Hb. destruct (op_div_spec x b Hx Hb) as [[-> H]|(q & -> & H)]; [done|naive_solver].
Qed.

Lemma op_div_correct_witness :
  match op_div (op_neg (of_u64 1)) (of_u64 86400) with
  | Err DivisionByZero => val (of_u64 86400) = 0
  | Ok q => wf q ∧ 0 < val (of_u64 86400) ∧
            val q = val (op_neg (of_u64 1)) / val (of_u64 86400)
  end.
Proof.
  apply (op_div_correct (op_neg (of_u64 1)) (of_u64 86400));
    (split; [reflexivity|]); repeat constructor; vm_compute; congruence.
Defined.

(** Encoding a target with [GetCompact] never trips an assertion, and
    decoding the result with [SetCompact] raises no flag and yields the target
    with the bytes below the three-byte mantissa cleared: never larger, and
    smaller by less than one part in [2^15].  Encoding that again gives the
    same compact word. *)
Theorem compact_encode_decode x : wf x →
  ∃ c, GetCompact x false = Some c ∧ in_u 32 c ∧
       (SetCompact c).1.2 = false ∧ (SetCompact c).2 = false ∧
       val (SetCompact c).1.1 <= val x ∧
       (val x - val (SetCompact c).1.1) * 2 ^ 15 <= val x ∧
       GetCompact (SetCompact c).1.1 false = Some c.
Proof.
  intros Hx. pose proof (val_range x Hx) as Hv.
  destruct (encode_flags (val x) Hv) as (Hc & Hn & Ho).
  eexists. split; [by apply GetCompact_spec|]. split_and!; [done..| | |].
  - rewrite (proj2 (SetCompact_val _ Hc)), compact_value_encode by done.
    apply compact_trunc_le, Hv.
  - rewrite (proj2 (SetCompact_val _ Hc)), compact_value_encode by done.
    by apply compact_trunc_error.
  - rewrite GetCompact_spec, (proj2 (SetCompact_val _ Hc)), compact_value_encode
      by (done || by apply SetCompact_val). destruct (encode_trunc _ Hv) as [-> ->]. done.
Qed.

Lemma compact_encode_decode_witness :
  ∃ c, GetCompact (op_neg (of_u64 1)) false = Some c ∧ in_u 32 c ∧
       (SetCompact c).1.2 = false ∧ (SetCompact c).2 = false ∧
       val (SetCompact c).1.1 <= val (op_neg (of_u64 1)) ∧
       (val (op_neg (of_u64 1)) - val (SetCompact c).1.1) * 2 ^ 15 <= val (op_neg (of_u64 1)) ∧
       GetCompact (SetCompact c).1.1 false = Some c.
Proof.
  apply (compact_encode_decode (op_neg (of_u64 1))).
  split; [reflexivity|]. repeat constructor; vm_compute; congruence.
Defined.

(** A normalised positive compact word (mantissa between [0x8000] and
    [0x7fffff], exponent at least three, no overflow) is exactly what
    [GetCompact] produces from the number [SetCompact] reads from it. *)
Theorem compact_decode_encode c :
  in_u 32 c → 3 <= c / 2 ^ 24 → 2 ^ 15 <= c mod 2 ^ 24 < 2 ^ 23 →
  (SetCompact c).2 = false → GetCompact (SetCompact c).1.1 false = Some c.
Proof.
  intros Hc He Hm Ho. destruct (SetCompact_val c Hc) as [Hw Hv].
  rewrite GetCompact_spec, Hv by done.
  assert (c mod 2 ^ 23 = c mod 2 ^ 24) as Em.
  { rewrite <- (Z.mod_small (c mod 2 ^ 24) (2 ^ 23)) by lia. symmetry. by apply Z.mod_mod_divide; exists 2. }
  assert (compact_value c = c mod 2 ^ 24 * 2 ^ (8 * (c / 2 ^ 24 - 3))) as ->.
  { unfold compact_value. rewrite Em. destruct (Z.leb_spec (c / 2 ^ 24) 3) as [Hle|Hgt].
    - replace (c / 2 ^ 24) with 3 by lia. simpl. by rewrite Z.div_1_r, Z.mul_1_r.
    - apply Z.mod_small. split; [nia|]. apply Z.nle_gt. intros Hov.
      assert ((SetCompact c).2 = true); [|congruence].
      apply SetCompact_overflow; [done|]. rewrite Em. lia. }
  destruct (compact_encode_value (c mod 2 ^ 24) (c / 2 ^ 24)) as [-> ->]; [done|done|].
  f_equal. pose proof (Z.div_mod c (2 ^ 24)). lia.
Qed.

Lemma compact_decode_encode_witness :
  GetCompact (SetCompact 0x1d00ffff).1.1 false = Some 0x1d00ffff.
Proof.
  apply (compact_decode_encode 0x1d00ffff); [split| |split|]; vm_compute; congruence.
Defined.

(** [UintToArith256] reads the little-endian number of the 32 bytes and
    [ArithToUint256] writes it back: the two conversions are inverse. *)
Theorem uint256_arith_roundtrip a : length a = 32%nat → bytes_ok a →
  val (UintToArith256 a) = le_decode a ∧ ArithToUint256 (UintToArith256 a) = a.
Proof.
  intros Hl Ha. split; [by apply UintToArith256_val|].
  destruct (ArithToUint256_spec _ (UintToArith256_wf a Ha)) as (Hl' & Hb & Hv).
  apply (digits_val_inj 8); [lia|congruence|done|done|].
  fold (le_decode (ArithToUint256 (UintToArith256 a))).
  by rewrite Hv, UintToArith256_val.
Qed.

Lemma uint256_arith_roundtrip_witness :
  ArithToUint256 (UintToArith256 (map Z.of_nat (seq 7 32))) = map Z.of_nat (seq 7 32).
Proof.
  apply (uint256_arith_roundtrip (map Z.of_nat (seq 7 32))); [reflexivity|].
  repeat constructor; vm_compute; congruence.
Defined.

End Arith256Props.
