(* ===== verification/Chain.v ===== *)
(** The block tree and the active chain: [src/chain.cpp], [src/chain.h] and
    [BlockManager::AddToBlockIndex] of [src/node/blockstorage.cpp].

    [BlockMap] is a finite map from block hash to [CBlockIndex]; a
    [CBlockIndex*] is the hash of the entry it points to ([m_block_index] never
    moves its entries), so [pprev] and [pskip] are optional keys and two
    pointers are equal when the keys are.  Dereferencing a key that is not in
    the map, a failed [assert] and an exhausted loop bound are errors; the
    theorems show that a well-formed block tree never meets one. *)
From Stdlib Require Import ZArith Lia.
From stdpp Require Import gmap sorting.
From S2P Require Import Prelude Arith256.
Import BaseUint BaseUintFacts.

Module Chain.

Record CBlockHeader := mkHeader {
  h_nVersion : Z;
  h_hashPrevBlock : uint256;
  h_hashMerkleRoot : uint256;
  h_nTime : Z;
  h_nBits : Z;
  h_nNonce : Z;
}.

(** [CBlockIndex]: the fields used by the chain logic.  The disk positions
    ([nFile], [nDataPos], [nUndoPos]) belong to block storage and are left out. *)
Record CBlockIndex := mkIndex {
  pprev : option uint256;
  pskip : option uint256;
  nHeight : Z;
  nChainWork : base_uint;
  nTx : Z;
  nChainTx : Z;
  nStatus : Z;
  nVersion : Z;
  hashMerkleRoot : uint256;
  nTime : Z;
  nBits : Z;
  nNonce : Z;
  nSequenceId : Z;
  nTimeMax : Z;
}.

Abbreviation BlockMap := (gmap uint256 CBlockIndex).

Inductive chain_error :=
| AssertFailed
| NullDeref
| OutOfFuel
| Thrown (e : uint_error).

(** [*p] *)
Definition deref (m : BlockMap) (p : uint256) : result chain_error CBlockIndex :=
  match m !! p with Some b => Ok b | None => Err NullDeref end.

(** [explicit CBlockIndex(const CBlockHeader&)] with the default initialisers. *)
Definition index_of_header (block : CBlockHeader) : CBlockIndex :=
  {| pprev := None; pskip := None; nHeight := 0; nChainWork := zero;
     nTx := 0; nChainTx := 0; nStatus := 0;
     nVersion := h_nVersion block; hashMerkleRoot := h_hashMerkleRoot block;
     nTime := h_nTime block; nBits := h_nBits block; nNonce := h_nNonce block;
     nSequenceId := 0; nTimeMax := 0 |}.

Definition GetBlockTime (b : CBlockIndex) : Z := nTime b.

(** [enum BlockStatus] *)
Definition BLOCK_VALID_TREE : Z := 2.
Definition BLOCK_VALID_SCRIPTS : Z := 5.
Definition BLOCK_VALID_MASK : Z := Z.lor 1 (Z.lor 2 (Z.lor 3 (Z.lor 4 5))).
Definition BLOCK_FAILED_MASK : Z := Z.lor 32 64.
Definition BLOCK_ASSUMED_VALID : Z := 256.

(** [RaiseValidity]: the new status and whether it changed. *)
Definition RaiseValidity (nStatus nUpTo : Z) : result chain_error (Z * bool) :=
  if negb (Z.land nUpTo (Z.lnot BLOCK_VALID_MASK) =? 0) then Err AssertFailed
  else if negb (Z.land nStatus BLOCK_FAILED_MASK =? 0) then Ok (nStatus, false)
  else if Z.land nStatus BLOCK_VALID_MASK <? nUpTo then
    let nStatus :=
      if (negb (Z.land nStatus BLOCK_ASSUMED_VALID =? 0) && (nUpTo >=? BLOCK_VALID_SCRIPTS))%bool
      then Z.land nStatus (Z.lnot BLOCK_ASSUMED_VALID) else nStatus in
    Ok (Z.lor (Z.land nStatus (Z.lnot BLOCK_VALID_MASK)) nUpTo, true)
  else Ok (nStatus, false).

(** ** Skip list *)

Definition InvertLowestOne (n : Z) : Z := Z.land n (n - 1).

Definition GetSkipHeight (height : Z) : Z :=
  if height <? 2 then 0
  else if negb (Z.land height 1 =? 0)
       then InvertLowestOne (InvertLowestOne (height - 1)) + 1
       else InvertLowestOne height.

(** The test of the [GetAncestor] loop for following [pskip]. *)
Definition follow_skip (heightWalk height : Z) : bool :=
  let heightSkip := GetSkipHeight heightWalk in
  let heightSkipPrev := GetSkipHeight (heightWalk - 1) in
  (heightSkip =? height) ||
  ((heightSkip >? height) &&
   negb ((heightSkipPrev <? heightSkip - 2) && (heightSkipPrev >=? height))).

Fixpoint ancestor_loop (fuel : nat) (m : BlockMap) (pindexWalk : uint256)
    (heightWalk height : Z) : result chain_error uint256 :=
  match fuel with
  | O => Err OutOfFuel
  | S fuel =>
      if heightWalk >? height then
        match deref m pindexWalk with
        | Err e => Err e
        | Ok b =>
            match pskip b, follow_skip heightWalk height with
            | Some s, true => ancestor_loop fuel m s (GetSkipHeight heightWalk) height
            | _, _ =>
                match pprev b with
                | None => Err AssertFailed
                | Some q => ancestor_loop fuel m q (heightWalk - 1) height
                end
            end
        end
      else Ok pindexWalk
  end.

(** [CBlockIndex::GetAncestor]: the walk descends at least one level per
    iteration, so [nHeight + 1] iterations suffice. *)
Definition GetAncestor (m : BlockMap) (p : uint256) (height : Z) : result chain_error (option uint256) :=
  match deref m p with
  | Err e => Err e
  | Ok b =>
      if ((height >? nHeight b) || (height <? 0))%bool then Ok None
      else match ancestor_loop (S (Z.to_nat (nHeight b))) m p (nHeight b) height with
           | Ok q => Ok (Some q)
           | Err e => Err e
           end
  end.

(** [pindexNew->pprev = ...] and [pindexNew->nHeight = ...]. *)
Definition set_parent (b : CBlockIndex) (q : uint256) (h : Z) : CBlockIndex :=
  {| pprev := Some q; pskip := pskip b; nHeight := h; nChainWork := nChainWork b; nTx := nTx b; nChainTx := nChainTx b;
     nStatus := nStatus b; nVersion := nVersion b; hashMerkleRoot := hashMerkleRoot b; nTime := nTime b; nBits := nBits b;
     nNonce := nNonce b; nSequenceId := nSequenceId b; nTimeMax := nTimeMax b |}.

(** [CBlockIndex::BuildSkip]: the value assigned to [pskip]. *)
Definition BuildSkip (m : BlockMap) (b : CBlockIndex) : result chain_error (option uint256) :=
  match pprev b with
  | None => Ok (pskip b)
  | Some q => GetAncestor m q (GetSkipHeight (nHeight b))
  end.

(** ** Proof of a block *)

Definition GetBlockProof (nBits : Z) : result uint_error base_uint :=
  let '(bnTarget, fNegative, fOverflow) := SetCompact nBits in
  if (fNegative || fOverflow || EqualTo bnTarget 0)%bool then Ok (of_u64 0)
  else match op_div (op_not bnTarget) (op_add bnTarget (of_u64 1)) with
       | Err e => Err e
       | Ok q => Ok (op_add q (of_u64 1))
       end.

(** [GetBlockProofEquivalentTime] *)
Definition GetBlockProofEquivalentTime (to_work from_work : base_uint) (tip_nBits nPowTargetSpacing : Z)
    : result uint_error Z :=
  let '(r, sign) :=
    if op_gt to_work from_work then (op_sub to_work from_work, 1)
    else (op_sub from_work to_work, -1) in
  match GetBlockProof tip_nBits with
  | Err e => Err e
  | Ok proof =>
      match op_div (op_mul r (of_u64 (u64 nPowTargetSpacing))) proof with
      | Err e => Err e
      | Ok r => if bits r >? 63 then Ok (sign * (2 ^ 63 - 1)) else Ok (sign * i64 (GetLow64 r))
      end
  end.

(** ** Median time past *)

Definition nMedianTimeSpan : nat := 11.

(** The timestamps gathered by the loop, newest first. *)
Fixpoint past_times (m : BlockMap) (n : nat) (pindex : option uint256) : result chain_error (list Z) :=
  match n, pindex with
  | O, _ | _, None => Ok []
  | S n, Some p =>
      match deref m p with
      | Err e => Err e
      | Ok b => match past_times m n (pprev b) with
                | Ok l => Ok (GetBlockTime b :: l)
                | Err e => Err e
                end
      end
  end.

Definition GetMedianTimePast (m : BlockMap) (p : uint256) : result chain_error Z :=
  match past_times m nMedianTimeSpan (Some p) with
  | Err e => Err e
  | Ok times => let sorted := merge_sort Z.le times in
                match sorted !! (length sorted / 2)%nat with
                | Some t => Ok t
                | None => Err NullDeref
                end
  end.

(** ** Growing the tree *)

Record BlockManager := mkBlockManager {
  m_block_index : BlockMap;
  best_header : option uint256;
  m_dirty_blockindex : gset uint256;
}.

Section AddToBlockIndex.
(** [CBlockHeader::GetHash], the X16RV2 hash of the serialised header. *)
Context (GetHash : CBlockHeader → uint256).

Definition AddToBlockIndex (st : BlockManager) (block : CBlockHeader)
    : result chain_error (BlockManager * uint256) :=
  let hash := GetHash block in
  match m_block_index st !! hash with
  | Some _ => Ok (st, hash)
  | None =>
      let b0 := index_of_header block in
      let m0 := <[hash := b0]> (m_block_index st) in
      let prev := h_hashPrevBlock block in
      (* the pprev / nHeight / BuildSkip block *)
      match (match m0 !! prev with
             | None => Ok (None, None, 0)
             | Some bp =>
                 let b1 := set_parent b0 prev (nHeight bp + 1) in
                 match BuildSkip (<[hash := b1]> m0) b1 with
                 | Ok sk => Ok (pprev b1, sk, nHeight b1)
                 | Err e => Err e
                 end
             end) with
      | Err e => Err e
      | Ok (pp, sk, h) =>
          let parent := match pp with Some q => m0 !! q | None => None end in
          let timeMax := match parent with Some bp => Z.max (nTimeMax bp) (nTime b0) | None => nTime b0 end in
          match GetBlockProof (nBits b0) with
          | Err e => Err (Thrown e)
          | Ok proof =>
              let work := op_add (match parent with Some bp => nChainWork bp | None => of_u64 0 end) proof in
              match RaiseValidity (nStatus b0) BLOCK_VALID_TREE with
              | Err e => Err e
              | Ok (status, _) =>
                  let b := {| pprev := pp; pskip := sk; nHeight := h; nChainWork := work;
                              nTx := nTx b0; nChainTx := nChainTx b0;
                              nStatus := status; nVersion := nVersion b0;
                              hashMerkleRoot := hashMerkleRoot b0; nTime := nTime b0;
                              nBits := nBits b0; nNonce := nNonce b0; nSequenceId := 0;
                              nTimeMax := timeMax |} in
                  let m1 := <[hash := b]> (m_block_index st) in
                  match (match best_header st with
                         | None => Ok true
                         | Some bh => match deref m1 bh with
                                      | Ok bb => Ok (op_lt (nChainWork bb) work)
                                      | Err e => Err e
                                      end
                         end) with
                  | Err e => Err e
                  | Ok better =>
                      Ok ({| m_block_index := m1;
                             best_header := if better then Some hash else best_header st;
                             m_dirty_blockindex := {[ hash ]} ∪ m_dirty_blockindex st |}, hash)
                  end
              end
          end
      end
  end.
End AddToBlockIndex.

(** ** The active chain *)

Abbreviation CChain := (list (option uint256)).

(** [CChain::operator\[\]], [Tip], [Height], [Contains], [Next] *)
Definition at_height (c : CChain) (h : Z) : option uint256 :=
  if ((h <? 0) || (h >=? Z.of_nat (length c)))%bool then None
  else default None (c !! Z.to_nat h).
Definition Tip (c : CChain) : option uint256 :=
  if (length c =? 0)%nat then None else default None (c !! (length c - 1)%nat).
Definition Height (c : CChain) : Z := Z.of_nat (length c) - 1.
Definition Contains (m : BlockMap) (c : CChain) (p : uint256) : result chain_error bool :=
  match deref m p with
  | Ok b => Ok (bool_decide (at_height c (nHeight b) = Some p))
  | Err e => Err e
  end.
Definition Next (m : BlockMap) (c : CChain) (p : uint256) : result chain_error (option uint256) :=
  match deref m p with
  | Ok b => if bool_decide (at_height c (nHeight b) = Some p)
            then Ok (at_height c (nHeight b + 1)) else Ok None
  | Err e => Err e
  end.

(** [vChain.resize(n)] *)
Definition resize_null (n : nat) (c : CChain) : CChain := take n c ++ replicate (n - length c) None.

(** [CChain::SetTip]: the loop walks [pprev] until an entry already matches. *)
Fixpoint set_tip_loop (fuel : nat) (m : BlockMap) (c : CChain) (pindex : option uint256)
    : result chain_error CChain :=
  match pindex with
  | None => Ok c
  | Some p =>
      match fuel with
      | O => Err OutOfFuel
      | S fuel =>
          match deref m p with
          | Err e => Err e
          | Ok b =>
              let i := Z.to_nat (nHeight b) in
              if bool_decide (default None (c !! i) = Some p) then Ok c
              else set_tip_loop fuel m (<[i := Some p]> c) (pprev b)
          end
      end
  end.

Definition SetTip (m : BlockMap) (c : CChain) (p : uint256) : result chain_error CChain :=
  match deref m p with
  | Err e => Err e
  | Ok b => let n := Z.to_nat (nHeight b + 1) in
            set_tip_loop n m (resize_null n c) (Some p)
  end.

(** [CChain::FindFork] *)
Fixpoint find_fork_loop (fuel : nat) (m : BlockMap) (c : CChain) (pindex : option uint256)
    : result chain_error (option uint256) :=
  match pindex with
  | None => Ok None
  | Some p =>
      match fuel with
      | O => Err OutOfFuel
      | S fuel =>
          match deref m p with
          | Err e => Err e
          | Ok b => if bool_decide (at_height c (nHeight b) = Some p) then Ok (Some p)
                    else find_fork_loop fuel m c (pprev b)
          end
      end
  end.

Definition FindFork (m : BlockMap) (c : CChain) (pindex : option uint256)
    : result chain_error (option uint256) :=
  match pindex with
  | None => Ok None
  | Some p =>
      match deref m p with
      | Err e => Err e
      | Ok b =>
          match (if nHeight b >? Height c then GetAncestor m p (Height c) else Ok (Some p)) with
          | Err e => Err e
          | Ok q => find_fork_loop (S (Z.to_nat (nHeight b))) m c q
          end
      end
  end.

(** [LastCommonAncestor] *)
Fixpoint common_loop (fuel : nat) (m : BlockMap) (pa pb : option uint256)
    : result chain_error (option uint256) :=
  match fuel with
  | O => Err OutOfFuel
  | S fuel =>
      match pa, pb with
      | Some a, Some b =>
          if bool_decide (a = b) then Ok (Some a)
          else match deref m a, deref m b with
               | Ok ba, Ok bb => common_loop fuel m (pprev ba) (pprev bb)
               | Err e, _ | _, Err e => Err e
               end
      | None, None => Ok None
      | _, _ => Err AssertFailed
      end
  end.

Definition LastCommonAncestor (m : BlockMap) (a b : uint256) : result chain_error (option uint256) :=
  match deref m a, deref m b with
  | Ok ba, Ok bb =>
      let ha := nHeight ba in
      let hb := nHeight bb in
      match (if ha >? hb then GetAncestor m a hb else Ok (Some a)),
            (if (negb (ha >? hb) && (hb >? ha))%bool then GetAncestor m b ha else Ok (Some b)) with
      | Ok pa, Ok pb => common_loop (S (S (Z.to_nat (Z.min ha hb)))) m pa pb
      | Err e, _ | _, Err e => Err e
      end
  | Err e, _ | _, Err e => Err e
  end.

(** [LocatorEntries]: hashes with exponentially growing steps. *)
Fixpoint locator_loop (fuel : nat) (m : BlockMap) (step : Z) (index : option uint256)
    (have : list uint256) : result chain_error (list uint256) :=
  match index with
  | None => Ok have
  | Some p =>
      match fuel with
      | O => Err OutOfFuel
      | S fuel =>
          match deref m p with
          | Err e => Err e
          | Ok b =>
              let have := have ++ [p] in
              if nHeight b =? 0 then Ok have
              else
                let height := Z.max (nHeight b - step) 0 in
                match GetAncestor m p height with
                | Err e => Err e
                | Ok q =>
                    let step := if (10 <? length have)%nat then step * 2 else step in
                    locator_loop fuel m step q have
                end
          end
      end
  end.

Definition LocatorEntries (m : BlockMap) (index : option uint256) : result chain_error (list uint256) :=
  match index with
  | None => Ok []
  | Some p => match deref m p with
              | Err e => Err e
              | Ok b => locator_loop (S (Z.to_nat (nHeight b))) m 1 (Some p) []
              end
  end.

End Chain.

Module ChainFacts.
Import Chain.

(** ** Specification: ancestors *)

(** [is_anc m p h q]: following [pprev] from [p] reaches [q] at height [h]. *)
Inductive is_anc (m : BlockMap) : uint256 → Z → uint256 → Prop :=
| anc_self p b : m !! p = Some b → is_anc m p (nHeight b) p
| anc_prev p b q h r :
    m !! p = Some b → pprev b = Some q → is_anc m q h r → is_anc m p h r.

(** A block tree whose heights count [pprev] links and whose skip pointers
    lead to the ancestor at [GetSkipHeight]. *)
Definition wf_entry (m : BlockMap) (b : CBlockIndex) : Prop :=
  0 <= nHeight b ∧
  match pprev b with
  | None => nHeight b = 0 ∧ pskip b = None
  | Some q =>
      (∃ c, m !! q = Some c ∧ nHeight b = nHeight c + 1) ∧
      (∀ s, pskip b = Some s → is_anc m q (GetSkipHeight (nHeight b)) s)
  end.
Definition wf_tree (m : BlockMap) : Prop := ∀ p b, m !! p = Some b → wf_entry m b.

Section Ancestors.
Context (m : BlockMap) (Hwf : wf_tree m).

Lemma is_anc_lookup p h q : is_anc m p h q →
  ∃ b c, m !! p = Some b ∧ m !! q = Some c ∧ nHeight c = h ∧ 0 <= h <= nHeight b.
Proof.
  induction 1 as [p b Hb|p b q h r Hb Hq Hr (b' & c & Hb' & Hc & Hh & Hle)].
  - exists b, b. destruct (Hwf p b Hb) as [H0 _]. split_and!; done || lia.
  - exists b, c. destruct (Hwf p b Hb) as [H0 Hp]. rewrite Hq in Hp.
    destruct Hp as [(c' & Hc' & Hh') _]. simplify_eq. split_and!; done || lia.
Qed.

Lemma is_anc_exists p b h : m !! p = Some b → 0 <= h <= nHeight b → ∃ q, is_anc m p h q.
Proof.
  remember (Z.to_nat (nHeight b - h)) as n eqn:En. revert p b En.
  induction n as [|n IH]; intros p b En Hb Hh.
  { replace h with (nHeight b) by lia. eauto using is_anc. }
  destruct (Hwf p b Hb) as [H0 Hp]. destruct (pprev b) as [q|] eqn:Eq; [|lia].
  destruct Hp as [(c & Hc & Hh') _].
  destruct (IH q c) as [r Hr]; [lia|done|lia|]. eauto using is_anc.
Qed.

Lemma is_anc_inv p b h r : m !! p = Some b → is_anc m p h r →
  (h = nHeight b ∧ r = p) ∨ (h < nHeight b ∧ ∃ q, pprev b = Some q ∧ is_anc m q h r).
Proof.
  intros Hb Ha. inversion Ha as [p' b' Hb'|p' b' q h' r' Hb' Hq Hr]; subst.
  - left. split; congruence.
  - assert (b' = b) as -> by congruence. right.
    destruct (is_anc_lookup _ _ _ Hr) as (c & _ & Hc & _ & _ & Hle).
    destruct (Hwf p b Hb) as [_ Hp]. rewrite Hq in Hp.
    destruct Hp as [(c' & Hc' & Hh') _]. assert (c' = c) as -> by congruence.
    split; [lia|eauto].
Qed.

Lemma is_anc_fun p h q q' : is_anc m p h q → is_anc m p h q' → q = q'.
Proof.
  induction 1 as [p b Hb|p b q h r Hb Hq Hr IH]; intros H'.
  - destruct (is_anc_inv p b _ _ Hb H') as [[_ ->]|[Hlt _]]; [done|lia].
  - destruct (is_anc_inv p b _ _ Hb H') as [[Eh ->]|(_ & q1 & Hq1 & Hr1)].
    + destruct (is_anc_inv p b h r Hb (anc_prev m p b q h r Hb Hq Hr)) as [[_ ?]|[? _]]; [done|lia].
    + apply IH. congruence.
Qed.

Lemma is_anc_trans p h q h' r : is_anc m p h q → is_anc m q h' r → is_anc m p h' r.
Proof. induction 1; eauto using is_anc. Qed.

(** The part of an ancestor path below an intermediate block. *)
Lemma is_anc_split p h q h' r :
  is_anc m p h q → is_anc m p h' r → h' <= h → is_anc m q h' r.
Proof.
  intros Hq Hr Hle. destruct (is_anc_lookup _ _ _ Hq) as (? & c & _ & Hc & Hh & _).
  destruct (is_anc_lookup _ _ _ Hr) as (? & ? & _ & _ & _ & H0).
  destruct (is_anc_exists q c h' Hc) as [r' Hr']; [lia|].
  assert (r = r') as ->; [|done]. apply (is_anc_fun p h' r r' Hr). exact (is_anc_trans _ _ _ _ _ Hq Hr').
Qed.

(** ** Skip heights *)

Lemma land_le_l a b : 0 <= a → 0 <= Z.land a b <= a.
Proof.
  intros Ha. split; [apply Z.land_nonneg; by left|].
  assert (Z.land a b = a - Z.ldiff a b) as ->.
  { rewrite (Z.sub_nocarry_ldiff a (Z.ldiff a b)).
    - apply Z.bits_inj'. intros n Hn. rewrite Z.land_spec, !Z.ldiff_spec.
      by destruct (Z.testbit a n), (Z.testbit b n).
    - apply Z.bits_inj'. intros n Hn. rewrite !Z.ldiff_spec, Z.bits_0.
      by destruct (Z.testbit a n), (Z.testbit b n). }
  assert (0 <= Z.ldiff a b) by (apply Z.ldiff_nonneg; by left). lia.
Qed.

Lemma GetSkipHeight_range h : 1 <= h → 0 <= GetSkipHeight h < h.
Proof.
  intros Hh. unfold GetSkipHeight, InvertLowestOne. destruct (Z.ltb_spec h 2); [lia|].
  destruct (Z.land h 1 =? 0) eqn:E; cbn [negb].
  - rewrite Z.land_comm. pose proof (land_le_l (h - 1) h). lia.
  - set (y := Z.land (h - 1) (h - 1 - 1)).
    assert (0 <= y <= h - 2).
    { subst y. rewrite Z.land_comm. pose proof (land_le_l (h - 1 - 1) (h - 1)). lia. }
    pose proof (land_le_l y (y - 1)). lia.
Qed.

(** ** [GetAncestor] *)

Lemma ancestor_loop_correct fuel p b height :
  m !! p = Some b → 0 <= height <= nHeight b → (Z.to_nat (nHeight b) < fuel)%nat →
  ∃ q, ancestor_loop fuel m p (nHeight b) height = Ok q ∧ is_anc m p height q.
Proof.
  revert p b. induction fuel as [|fuel IH]; intros p b Hb Hh Hf; [lia|].
  cbn [ancestor_loop]. rewrite Z.gtb_ltb.
  destruct (Z.ltb_spec height (nHeight b)) as [Hlt|Hge].
  2:{ exists p. split; [done|]. replace height with (nHeight b) by lia. eauto using is_anc. }
  unfold deref. rewrite Hb. destruct (Hwf p b Hb) as [H0 Hp].
  destruct (pprev b) as [q|] eqn:Eq; [|lia]. destruct Hp as [(c & Hc & Hhc) Hsk].
  assert (∃ r, ancestor_loop fuel m q (nHeight b - 1) height = Ok r ∧ is_anc m p height r) as Hprev.
  { replace (nHeight b - 1) with (nHeight c) by lia.
    destruct (IH q c Hc) as (r & Hr & Ha); [lia|lia|]. eauto using is_anc. }
  destruct (pskip b) as [s|]; [|done]. destruct (follow_skip (nHeight b) height) eqn:Ef; [|done].
  specialize (Hsk s eq_refl).
  destruct (is_anc_lookup _ _ _ Hsk) as (? & cs & _ & Hcs & Hhs & _).
  pose proof (GetSkipHeight_range (nHeight b)).
  assert (height <= GetSkipHeight (nHeight b)).
  { unfold follow_skip in Ef. to_prop. destruct Ef as [Ef|Ef]; to_prop; lia. }
  rewrite <- Hhs. destruct (IH s cs Hcs) as (r & Hr & Ha); [lia|lia|].
  exists r. split; [done|]. exact (is_anc_trans _ _ _ _ _ (anc_prev _ _ _ _ _ _ Hb Eq Hsk) Ha).
Qed.

Lemma GetAncestor_spec p b height : m !! p = Some b →
  (0 <= height <= nHeight b → ∃ q, GetAncestor m p height = Ok (Some q) ∧ is_anc m p height q) ∧
  (¬ 0 <= height <= nHeight b → GetAncestor m p height = Ok None).
Proof.
  intros Hb. unfold GetAncestor, deref. rewrite Hb. split; intros Hh.
  - destruct (ancestor_loop_correct (S (Z.to_nat (nHeight b))) p b height) as (q & -> & Ha); [done|done|lia|].
    exists q. split; [|done].
    by destruct ((height >? nHeight b) || (height <? 0))%bool eqn:E; [to_prop; lia|].
  - destruct ((height >? nHeight b) || (height <? 0))%bool eqn:E; [done|to_prop; lia].
Qed.

End Ancestors.

(** ** Median time past *)

(** How many of the times are at least [t]: what decides the median. *)
Definition count_ge (t : Z) (l : list Z) : nat := length (filter (fun x => t <= x) l).

Lemma count_ge_cons t x l : count_ge t (x :: l) = ((if decide (t <= x)%Z then 1 else 0) + count_ge t l)%nat.
Proof. unfold count_ge. rewrite filter_cons. by destruct (decide (t <= x)). Qed.

Lemma count_ge_app t l k : count_ge t (l ++ k) = (count_ge t l + count_ge t k)%nat.
Proof. unfold count_ge. by rewrite list.filter_app, length_app. Qed.

Lemma count_ge_le t l : (count_ge t l <= length l)%nat.
Proof. apply list.length_filter. Qed.

Lemma sorted_ge l k x t :
  StronglySorted Z.le l → l !! k = Some x → t <= x ↔ (length l - k <= count_ge t l)%nat.
Proof.
  intros Hs. revert k. induction Hs as [|y l Hs IH Hy]; intros k Hk; [done|].
  rewrite count_ge_cons. assert (t <= y → count_ge t l = length l) as Hall.
  { intros Ht. unfold count_ge. clear -Hy Ht. induction Hy as [|z l Hz Hy IH]; [done|].
    rewrite filter_cons_True by lia. cbn. by rewrite IH. }
  destruct k as [|k]; cbn [lookup list_lookup length] in *.
  - injection Hk as ->. pose proof (count_ge_le t l).
    destruct (decide (t <= x)) as [Ht|]; [rewrite (Hall Ht)|]; lia.
  - destruct (decide (t <= y)) as [Ht|].
    + rewrite (Hall Ht). split; [lia|]. intros _.
      assert (y <= x); [|lia]. rewrite Forall_lookup in Hy. by eapply Hy.
    + rewrite (IH k Hk). lia.
Qed.

(** The median of the gathered times. *)
Definition median (l : list Z) : option Z := merge_sort Z.le l !! (length l / 2)%nat.

Lemma median_ge l x t :
  median l = Some x → t <= x ↔ (length l - length l / 2 <= count_ge t l)%nat.
Proof.
  unfold median. intros H. assert (Permutation (merge_sort Z.le l) l) as Hp by apply merge_sort_Permutation.
  rewrite (sorted_ge _ _ _ t) by (exact H || apply (StronglySorted_merge_sort Z.le)).
  assert (length (merge_sort Z.le l) = length l) as -> by by apply Permutation_length.
  unfold count_ge. by rewrite Hp.
Qed.

Lemma median_is_Some l : l ≠ [] → is_Some (median l).
Proof.
  intros Hl. apply lookup_lt_is_Some. assert (0 < length l)%nat by (destruct l; [done|cbn; lia]).
  assert (length (merge_sort Z.le l) = length l) as -> by by apply Permutation_length, merge_sort_Permutation.
  apply Nat.div_lt; lia.
Qed.

Lemma past_times_cons m n p :
  past_times m (S n) (Some p) =
  match deref m p with
  | Err e => Err e
  | Ok b => match past_times m n (pprev b) with
            | Ok l => Ok (GetBlockTime b :: l)
            | Err e => Err e
            end
  end.
Proof. done. Qed.

Lemma GetMedianTimePast_median m p times :
  past_times m nMedianTimeSpan (Some p) = Ok times →
  ∃ t, median times = Some t ∧ GetMedianTimePast m p = Ok t.
Proof.
  intros E. unfold GetMedianTimePast. rewrite E.
  destruct (median_is_Some times) as [t Ht].
  { intros ->. unfold nMedianTimeSpan in E. rewrite past_times_cons in E.
    destruct (deref m p) as [b|]; [|done]. by destruct (past_times m 10 (pprev b)). }
  exists t. split; [done|]. unfold median in Ht.
  assert (length (merge_sort Z.le times) = length times) as -> by by apply Permutation_length, merge_sort_Permutation.
  by rewrite Ht.
Qed.

(** One more round of the loop adds at most one older time. *)
Lemma past_times_S m n p l :
  past_times m (S n) p = Ok l →
  ∃ l', past_times m n p = Ok l' ∧ (l = l' ∨ ∃ y, l = l' ++ [y]).
Proof.
  revert p l. induction n as [|n IH]; intros p l E.
  - exists []. split; [done|]. cbn in E. destruct p as [p|]; [|injection E as <-; by left].
    destruct (deref m p) as [b|]; [|done]. right. destruct (pprev b); injection E as <-; by eexists.
  - destruct p as [p|]; [|injection E as <-; by exists []; split; [|left]].
    rewrite past_times_cons in E. rewrite past_times_cons. destruct (deref m p) as [b|]; [|done].
    destruct (past_times m (S n) (pprev b)) as [k|] eqn:Ek; [|done].
    injection E as <-. destruct (IH _ _ Ek) as (l' & -> & [->|[y ->]]); eexists; (split; [done|]); [by left|].
    right. by exists y.
Qed.

(** A tree gives every block the times the loop asks for. *)
Lemma past_times_total m n p :
  wf_tree m → (∀ q, p = Some q → is_Some (m !! q)) → ∃ l, past_times m n p = Ok l.
Proof.
  intros Hwf. revert p. induction n as [|n IH]; intros p Hp; [by exists []|].
  destruct p as [q|]; [|by exists []]. rewrite past_times_cons. unfold deref. destruct (Hp q eq_refl) as [b Hb]. rewrite Hb.
  destruct (IH (pprev b)) as [l ->]; [|by eexists].
  intros r Hr. destruct (Hwf q b Hb) as [_ Hw]. rewrite Hr in Hw. destruct Hw as [(c & Hc & _) _]. by exists c.
Qed.

Lemma GetMedianTimePast_total m p b : wf_tree m → m !! p = Some b → ∃ t, GetMedianTimePast m p = Ok t.
Proof.
  intros Hwf Hb. destruct (past_times_total m nMedianTimeSpan (Some p) Hwf) as [l Hl].
  { intros q [= <-]. by exists b. }
  destruct (GetMedianTimePast_median m p l Hl) as (t & _ & ?). by exists t.
Qed.

Lemma GetMedianTimePast_monotone m p b q tq :
  m !! p = Some b → pprev b = Some q → GetMedianTimePast m q = Ok tq → tq < nTime b →
  ∃ tp, GetMedianTimePast m p = Ok tp ∧ tq <= tp.
Proof.
  intros Hb Hq Hm Ht.
  destruct (past_times m nMedianTimeSpan (Some q)) as [lq|] eqn:El.
  2:{ unfold GetMedianTimePast in Hm. by rewrite El in Hm. }
  destruct (GetMedianTimePast_median _ _ _ El) as (t' & Hmed & E). rewrite Hm in E. injection E as <-.
  destruct (past_times_S _ _ _ _ El) as (l & El10 & Hl).
  assert (past_times m nMedianTimeSpan (Some p) = Ok (nTime b :: l)) as Ep.
  { unfold nMedianTimeSpan. rewrite past_times_cons. unfold deref. by rewrite Hb, Hq, El10. }
  destruct (GetMedianTimePast_median _ _ _ Ep) as (tp & Hmed' & E). exists tp. split; [done|].
  apply (median_ge _ _ tq Hmed'). pose proof (proj1 (median_ge _ _ tq Hmed) ltac:(lia)) as Hc.
  rewrite count_ge_cons, decide_True by lia. cbn [length].
  destruct Hl as [->|[y ->]].
  - pose proof (Nat.div_mod (length l) 2). pose proof (Nat.div_mod (S (length l)) 2).
    pose proof (Nat.mod_upper_bound (length l) 2). pose proof (Nat.mod_upper_bound (S (length l)) 2). lia.
  - rewrite length_app, count_ge_app in Hc. cbn [length] in Hc.
    pose proof (count_ge_le tq [y]) as Hy. cbn [length] in Hy.
    replace (length l + 1)%nat with (S (length l)) in Hc by lia. lia.
Qed.

(** ** Work of a block *)

(** Expected number of hashes for a target: [2^256 / (target + 1)], and [0]
    for encodings that denote no valid target. *)
Definition block_work (nBits : Z) : Z :=
  let '(t, neg, ovf) := SetCompact nBits in
  if (neg || ovf || (val t =? 0))%bool then 0 else 2 ^ 256 / (val t + 1).

Lemma compact_value_max c : in_u 32 c → 0 <= compact_value c < 2 ^ 256 - 1.
Proof.
  intros Hc. unfold compact_value. set (e := c / 2 ^ 24).
  pose proof (Z.mod_pos_bound c (2 ^ 23) ltac:(lia)) as Hm.
  assert (0 <= e) by (apply Z.div_pos; unfold in_u in Hc; lia).
  destruct (Z.leb_spec e 3).
  - split; [apply Z.div_pos; lia|]. apply Z.div_lt_upper_bound; [lia|].
    assert (0 < 2 ^ (8 * (3 - e))) by lia. nia.
  - pose proof (Z.mod_pos_bound (c mod 2 ^ 23 * 2 ^ (8 * (e - 3))) (2 ^ 256) ltac:(lia)).
    assert ((c mod 2 ^ 23 * 2 ^ (8 * (e - 3))) mod 2 ^ 256 ≠ 2 ^ 256 - 1); [|lia].
    intros E. apply (f_equal (λ z, z mod 2)) in E.
    rewrite Z.mod_mod_divide in E by (exists (2 ^ 255); done).
    replace (8 * (e - 3)) with (1 + (8 * (e - 3) - 1)) in E by lia.
    rewrite Z.pow_add_r, (Z.mul_comm (2 ^ 1)), Z.mul_assoc, Z.mod_mul in E by lia. done.
Qed.

Lemma GetBlockProof_spec c : in_u 32 c →
  ∃ w, GetBlockProof c = Ok w ∧ wf w ∧ val w = block_work c.
Proof.
  intros Hc. unfold GetBlockProof, block_work.
  destruct (SetCompact_val c Hc) as [Hw Hv]. pose proof (compact_value_max c Hc) as Hmax.
  destruct (SetCompact c) as [[t neg] ovf]. cbn [fst] in Hw, Hv.
  rewrite EqualTo_spec by (done || split; lia).
  destruct (neg || ovf || (val t =? 0))%bool eqn:E.
  { exists (of_u64 0). split_and!; [done|apply of_u64_wf|done]. }
  apply orb_false_iff in E as [_ E]. to_prop.
  assert (wf (op_add t (of_u64 1)) ∧ val (op_add t (of_u64 1)) = val t + 1) as [Hw1 Hv1].
  { split; [apply op_add_wf; [done|apply of_u64_wf]|].
    rewrite op_add_val, of_u64_val by (done || apply of_u64_wf || split; lia).
    apply Z.mod_small. lia. }
  destruct (op_div_spec (op_not t) (op_add t (of_u64 1))) as [[_ ?]|(q & -> & Hq & _ & Hvq)];
    [by apply op_not_wf|done|lia|].
  exists (op_add q (of_u64 1)). split; [done|]. split; [apply op_add_wf; [done|apply of_u64_wf]|].
  rewrite op_add_val, of_u64_val by (done || apply of_u64_wf || split; lia).
  assert (val (op_not t) = 2 ^ 256 - 1 - val t) as En.
  { destruct Hw as [Hl Hf]. unfold val. by rewrite op_not_val, Hl. }
  assert (val q = 2 ^ 256 / (val t + 1) - 1) as ->.
  { rewrite Hvq, En, Hv1.
    replace (2 ^ 256 - 1 - val t) with (2 ^ 256 + (-1) * (val t + 1)) by ring.
    by rewrite Z.div_add by lia. }
  rewrite Z.sub_add. apply Z.mod_small. split; [apply Z.div_pos; lia|].
  apply Z.div_lt; lia.
Qed.

(** ** Growing the tree *)

Lemma is_anc_insert m k b p h q : m !! k = None → is_anc m p h q → is_anc (<[k:=b]> m) p h q.
Proof.
  intros Hk. induction 1 as [p c Hc|p c q h r Hc Hq Hr IH].
  - apply anc_self. rewrite lookup_insert_ne; [done|congruence].
  - apply anc_prev with c q; [|done..]. rewrite lookup_insert_ne; [done|congruence].
Qed.

Lemma is_anc_insert_inv m k b p h q c :
  wf_tree m → m !! k = None → m !! p = Some c → is_anc (<[k:=b]> m) p h q → is_anc m p h q.
Proof.
  intros Hwf Hk Hp Ha. revert c Hp. induction Ha as [p d Hd|p d q h r Hd Hq Hr IH]; intros c Hp.
  - rewrite lookup_insert_ne in Hd by congruence. by apply anc_self.
  - rewrite lookup_insert_ne in Hd by congruence.
    destruct (Hwf p d Hd) as [_ Hd']. rewrite Hq in Hd'. destruct Hd' as [(e & He & _) _].
    apply anc_prev with d q; [done..|]. by apply (IH e).
Qed.

Lemma wf_entry_insert m k b c : m !! k = None → wf_entry m c → wf_entry (<[k:=b]> m) c.
Proof.
  intros Hk [H0 Hc]. split; [done|]. destruct (pprev c) as [q|]; [|done].
  destruct Hc as [(d & Hd & Hh) Hs]. split.
  - exists d. split; [|done]. rewrite lookup_insert_ne; [done|congruence].
  - intros s Es. apply is_anc_insert; auto.
Qed.

Lemma wf_tree_insert m k b :
  wf_tree m → m !! k = None → wf_entry m b → wf_tree (<[k:=b]> m).
Proof.
  intros Hwf Hk Hb p c Hp. apply wf_entry_insert; [done|].
  apply lookup_insert_Some in Hp as [[_ <-]|[_ Hp]]; [done|]. by apply (Hwf p).
Qed.

(** Derived data of an entry: cumulative work and maximal timestamp. *)
Definition parent (m : BlockMap) (b : CBlockIndex) : option CBlockIndex :=
  match pprev b with Some q => m !! q | None => None end.
Definition wf_data (m : BlockMap) (b : CBlockIndex) : Prop :=
  in_u 32 (nBits b) ∧ wf (nChainWork b) ∧
  val (nChainWork b) =
    (from_option (val ∘ nChainWork) 0 (parent m b) + block_work (nBits b)) mod 2 ^ 256 ∧
  nTimeMax b = from_option (λ c, Z.max (nTimeMax c) (nTime b)) (nTime b) (parent m b).

Record wf_manager (st : BlockManager) : Prop := {
  wm_tree : wf_tree (m_block_index st);
  wm_data : ∀ p b, m_block_index st !! p = Some b → wf_data (m_block_index st) b;
  wm_best : match best_header st with
            | None => m_block_index st = ∅
            | Some bh => ∃ bb, m_block_index st !! bh = Some bb ∧
                ∀ p b, m_block_index st !! p = Some b → val (nChainWork b) <= val (nChainWork bb)
            end;
}.

Lemma wf_data_insert m k b c : wf_tree m → m !! k = None → wf_entry m c → wf_data m c →
  wf_data (<[k:=b]> m) c.
Proof.
  intros Hwf Hk [_ Hc] Hd. unfold wf_data in *.
  assert (parent (<[k:=b]> m) c = parent m c) as ->; [|done].
  unfold parent. destruct (pprev c) as [q|]; [|done]. destruct Hc as [(d & Hq & _) _].
  rewrite lookup_insert_ne; [done|congruence].
Qed.

Section Add.
Context (GetHash : CBlockHeader → uint256).

Definition parent_ptr (m : BlockMap) (prev : uint256) : option uint256 :=
  match m !! prev with Some _ => Some prev | None => None end.

(** The link step of [AddToBlockIndex]: parent, skip pointer and height. *)
Lemma add_link m k b0 prev : wf_tree m → m !! k = None → k ≠ prev →
  pskip b0 = None →
  ∃ pp sk h,
    match <[k:=b0]> m !! prev with
    | None => Ok (None, None, 0)
    | Some bp =>
        match BuildSkip (<[k := set_parent b0 prev (nHeight bp + 1)]> (<[k:=b0]> m)) (set_parent b0 prev (nHeight bp + 1)) with
        | Ok sk => Ok (pprev (set_parent b0 prev (nHeight bp + 1)), sk, nHeight (set_parent b0 prev (nHeight bp + 1)))
        | Err e => Err e
        end
    end = Ok (pp, sk, h) ∧
    pp = parent_ptr m prev ∧
    (∀ q, pp = Some q → ∃ s, sk = Some s ∧ is_anc m q (GetSkipHeight h) s) ∧
    ∀ b, pprev b = pp → pskip b = sk → nHeight b = h → wf_entry m b.
Proof.
  intros Hwf Hk Hne H2. unfold parent_ptr. rewrite lookup_insert_ne by done.
  destruct (m !! prev) as [bp|] eqn:Ep.
  - destruct (Hwf prev bp Ep) as [Hbp _]. rewrite insert_insert_eq.
    set (b1 := set_parent b0 prev (nHeight bp + 1)). assert (wf_tree (<[k:=b1]> m)) as Hwf0.
    { apply wf_tree_insert; [done..|]. unfold wf_entry. cbn [b1 set_parent nHeight pprev pskip]. rewrite H2.
      split; [lia|]. split; [by exists bp|done]. }
    unfold BuildSkip. cbn [b1 set_parent pprev nHeight]. fold b1. pose proof (GetSkipHeight_range (nHeight bp + 1)).
    destruct (GetAncestor_spec _ Hwf0 prev bp (GetSkipHeight (nHeight bp + 1))) as [Ha _].
    { by rewrite lookup_insert_ne. }
    destruct Ha as (q & -> & Hq); [lia|]. apply (is_anc_insert_inv _ _ _ _ _ _ bp Hwf Hk) in Hq; [|done].
    eexists _, _, _. split_and!; [done|done|intros ? [= <-]; by exists q|].
    intros b Eb Es Eh. split; [lia|]. rewrite Eb. split; [exists bp; split; [done|lia]|].
    intros s Es'. rewrite Es in Es'. injection Es' as <-. by rewrite Eh.
  - eexists _, _, _. split_and!; [done|done|done|]. intros b Eb Es Eh.
    split; [lia|]. by rewrite Eb.
Qed.

(** The update of [best_header] keeps a block of maximal work. *)
Lemma add_best st k b : wf_manager st → m_block_index st !! k = None → wf (nChainWork b) →
  ∃ better,
    match best_header st with
    | None => Ok true
    | Some bh => match deref (<[k:=b]> (m_block_index st)) bh with
                 | Ok bb => Ok (op_lt (nChainWork bb) (nChainWork b))
                 | Err e => Err e
                 end
    end = Ok better ∧
    ∃ bb, <[k:=b]> (m_block_index st) !! (if better then k else default k (best_header st)) = Some bb ∧
      ∀ p c, <[k:=b]> (m_block_index st) !! p = Some c → val (nChainWork c) <= val (nChainWork bb).
Proof.
  intros Hst Hk Hw. pose proof (wm_best st Hst) as Hb.
  destruct (best_header st) as [bh|].
  - destruct Hb as (bb & Hbh & Hmax). unfold deref. rewrite lookup_insert_ne, Hbh by congruence.
    destruct (wm_data st Hst bh bb Hbh) as (_ & Hwb & _).
    eexists. split; [done|]. rewrite op_lt_spec by done. cbn [from_option id].
    destruct (Z.ltb_spec (val (nChainWork bb)) (val (nChainWork b))).
    + exists b. rewrite lookup_insert_eq. split; [done|]. intros p c Hc.
      apply lookup_insert_Some in Hc as [[_ <-]|[_ Hc]]; [lia|]. specialize (Hmax p c Hc). lia.
    + exists bb. rewrite lookup_insert_ne by congruence. split; [done|]. intros p c Hc.
      apply lookup_insert_Some in Hc as [[_ <-]|[_ Hc]]; [lia|]. by apply (Hmax p).
  - eexists. split; [done|]. exists b. rewrite lookup_insert_eq. split; [done|]. intros p c Hc.
    rewrite Hb in Hc. apply lookup_insert_Some in Hc as [[_ <-]|[_ Hc]]; [lia|].
    by rewrite lookup_empty in Hc.
Qed.

(** The new entry, whatever [best_header] points to. *)
Lemma AddToBlockIndex_entry st block :
  wf_tree (m_block_index st) → (∀ p b, m_block_index st !! p = Some b → wf (nChainWork b)) →
  in_u 32 (h_nBits block) → GetHash block ≠ h_hashPrevBlock block → m_block_index st !! GetHash block = None →
  ∃ b, wf_entry (m_block_index st) b ∧ wf_data (m_block_index st) b ∧
    pprev b = parent_ptr (m_block_index st) (h_hashPrevBlock block) ∧
    (nVersion b = h_nVersion block ∧ hashMerkleRoot b = h_hashMerkleRoot block ∧
     nTime b = h_nTime block ∧ nBits b = h_nBits block ∧ nNonce b = h_nNonce block) ∧
    (nTx b = 0 ∧ nChainTx b = 0 ∧ nStatus b = BLOCK_VALID_TREE) ∧
    (∀ q, pprev b = Some q → ∃ s, pskip b = Some s ∧ is_anc (m_block_index st) q (GetSkipHeight (nHeight b)) s) ∧
    (∀ better : bool, match best_header st with
     | None => Ok true
     | Some bh => match deref (<[GetHash block := b]> (m_block_index st)) bh with
                  | Ok bb => Ok (op_lt (nChainWork bb) (nChainWork b))
                  | Err e => Err e
                  end
     end = Ok better →
     AddToBlockIndex GetHash st block =
      Ok ({| m_block_index := <[GetHash block := b]> (m_block_index st);
             best_header := if better then Some (GetHash block) else best_header st;
             m_dirty_blockindex := {[ GetHash block ]} ∪ m_dirty_blockindex st |}, GetHash block)).
Proof.
  intros Hwf Hwk Hbits Hne Hk. unfold AddToBlockIndex. rewrite Hk.
  destruct (add_link _ _ (index_of_header block) _ Hwf Hk Hne eq_refl)
    as (pp & sk & h & -> & Hpp & Hsk & Hent).
  destruct (GetBlockProof_spec (h_nBits block) Hbits) as (w & Ew & Hw & Hvw).
  cbn [nBits index_of_header] in *. rewrite Ew.
  set (par := match pp with Some q => _ | None => None end).
  assert (par = match pp with Some q => m_block_index st !! q | None => None end) as Epar.
  { subst par pp. unfold parent_ptr. destruct (m_block_index st !! h_hashPrevBlock block); [|done].
    by rewrite lookup_insert_ne. }
  clearbody par.
  set (work := op_add _ w).
  assert (wf work ∧ val work = (from_option (val ∘ nChainWork) 0 par + block_work (h_nBits block)) mod 2 ^ 256)
    as [Hww Hvwork].
  { rewrite <- Hvw. subst work.
    assert (wf (match par with Some bp => nChainWork bp | None => of_u64 0 end)) as Hwp.
    { destruct par as [bp|]; [|apply of_u64_wf]. destruct pp as [q|]; [|done]. by apply (Hwk q bp). }
    split; [by apply op_add_wf|]. rewrite op_add_val by done. by destruct par. }
  clearbody work. change (RaiseValidity _ BLOCK_VALID_TREE) with (Ok (2, true) : result chain_error (Z * bool)).
  cbn [nTime nVersion hashMerkleRoot nNonce index_of_header].
  match goal with |- context [<[GetHash block := ?b]> (m_block_index st)] => set (bnew := b) end.
  assert (parent (m_block_index st) bnew = par) as Ep by (by rewrite Epar).
  exists bnew. split_and!; try done; [by apply Hent| |].
  - unfold wf_data. rewrite Ep. by destruct par.
  - intros better Eb. change (nChainWork bnew) with work in Eb. cbn zeta. by rewrite Eb.
Qed.

Lemma AddToBlockIndex_spec st block :
  wf_manager st → in_u 32 (h_nBits block) → GetHash block ≠ h_hashPrevBlock block →
  m_block_index st !! GetHash block = None →
  ∃ b bh, AddToBlockIndex GetHash st block =
      Ok ({| m_block_index := <[GetHash block := b]> (m_block_index st);
             best_header := Some bh;
             m_dirty_blockindex := {[ GetHash block ]} ∪ m_dirty_blockindex st |}, GetHash block) ∧
    wf_entry (m_block_index st) b ∧ wf_data (m_block_index st) b ∧
    pprev b = parent_ptr (m_block_index st) (h_hashPrevBlock block) ∧
    (nVersion b = h_nVersion block ∧ hashMerkleRoot b = h_hashMerkleRoot block ∧
     nTime b = h_nTime block ∧ nBits b = h_nBits block ∧ nNonce b = h_nNonce block) ∧
    (nTx b = 0 ∧ nChainTx b = 0 ∧ nStatus b = BLOCK_VALID_TREE) ∧
    (∀ q, pprev b = Some q → ∃ s, pskip b = Some s ∧ is_anc (m_block_index st) q (GetSkipHeight (nHeight b)) s) ∧
    ∃ bb, <[GetHash block := b]> (m_block_index st) !! bh = Some bb ∧
      ∀ p c, <[GetHash block := b]> (m_block_index st) !! p = Some c →
        val (nChainWork c) <= val (nChainWork bb).
Proof.
  intros Hst Hbits Hne Hk.
  assert (∀ p b, m_block_index st !! p = Some b → wf (nChainWork b)) as Hwk by (intros p b Hb; by destruct (wm_data st Hst p b Hb) as (_ & ? & _)).
  destruct (AddToBlockIndex_entry st block (wm_tree st Hst) Hwk Hbits Hne Hk) as (b & He & Hd & Hp & Hf & Hz & Hsk & Hadd).
  destruct (add_best st (GetHash block) b Hst Hk ltac:(by destruct Hd as (_ & ? & _))) as (better & Eb & Hmax).
  exists b, (if better then GetHash block else default (GetHash block) (best_header st)).
  split; [|exact (conj He (conj Hd (conj Hp (conj Hf (conj Hz (conj Hsk Hmax))))))]. rewrite (Hadd better Eb). do 3 f_equal. by destruct better, (best_header st).
Qed.

Lemma AddToBlockIndex_wf st block :
  wf_manager st → in_u 32 (h_nBits block) → GetHash block ≠ h_hashPrevBlock block →
  ∃ st', AddToBlockIndex GetHash st block = Ok (st', GetHash block) ∧ wf_manager st' ∧
    (∀ p b, m_block_index st !! p = Some b → m_block_index st' !! p = Some b) ∧
    is_Some (m_block_index st' !! GetHash block).
Proof.
  intros Hst Hbits Hne. destruct (m_block_index st !! GetHash block) as [b|] eqn:Hk.
  { exists st. unfold AddToBlockIndex. rewrite Hk. by eauto. }
  destruct (AddToBlockIndex_spec st block Hst Hbits Hne Hk) as (b & bh & -> & Hent & Hdat & _ & _ & _ & _ & Hbest).
  eexists. split; [done|]. cbn [m_block_index]. split; [constructor; cbn [m_block_index best_header]|].
  - by apply wf_tree_insert; [apply Hst|..].
  - intros p c Hc. apply lookup_insert_Some in Hc as [[<- <-]|[Hn Hc]].
    + apply wf_data_insert; [apply Hst|done..].
    + apply wf_data_insert; [apply Hst|done|by apply (wm_tree st Hst p)|by apply (wm_data st Hst p)].
  - done.
  - split; [|by rewrite lookup_insert_eq; eauto].
    intros p c Hc. rewrite lookup_insert_ne; [done|congruence].
Qed.

(** The entry of a header in tree [m]: linked to the parent the header names,
    if it is there, with the ancestor at [GetSkipHeight] as skip pointer. *)
Definition entry_for (m : BlockMap) (block : CBlockHeader) (b : CBlockIndex) : Prop :=
  match m !! h_hashPrevBlock block with
  | Some bp =>
      pprev b = Some (h_hashPrevBlock block) ∧ nHeight b = nHeight bp + 1 ∧
      (∃ s, pskip b = Some s ∧ is_anc m (h_hashPrevBlock block) (GetSkipHeight (nHeight b)) s) ∧
      val (nChainWork b) = (val (nChainWork bp) + block_work (h_nBits block)) mod 2 ^ 256 ∧
      nTimeMax b = Z.max (nTimeMax bp) (h_nTime block)
  | None =>
      pprev b = None ∧ nHeight b = 0 ∧ pskip b = None ∧
      val (nChainWork b) = block_work (h_nBits block) mod 2 ^ 256 ∧ nTimeMax b = h_nTime block
  end ∧
  (nVersion b = h_nVersion block ∧ hashMerkleRoot b = h_hashMerkleRoot block ∧
   nTime b = h_nTime block ∧ nBits b = h_nBits block ∧ nNonce b = h_nNonce block) ∧
  (nTx b = 0 ∧ nChainTx b = 0 ∧ nStatus b = BLOCK_VALID_TREE).

Lemma AddToBlockIndex_new st block :
  wf_manager st → in_u 32 (h_nBits block) → GetHash block ≠ h_hashPrevBlock block →
  m_block_index st !! GetHash block = None →
  ∃ b bh, AddToBlockIndex GetHash st block =
      Ok ({| m_block_index := <[GetHash block := b]> (m_block_index st); best_header := Some bh;
             m_dirty_blockindex := {[ GetHash block ]} ∪ m_dirty_blockindex st |}, GetHash block) ∧
    entry_for (m_block_index st) block b.
Proof.
  intros Hst Hbits Hne Hk.
  destruct (AddToBlockIndex_spec st block Hst Hbits Hne Hk) as (b & bh & E & [_ Hent] & (_ & _ & Hw & Ht) & Hp & Hf & Hz & Hsk & _).
  exists b, bh. split; [done|]. split; [|done]. unfold parent, parent_ptr in *.
  destruct Hf as (_ & _ & Et & Eb & _). rewrite Et in Ht. rewrite Eb in Hw.
  destruct (m_block_index st !! h_hashPrevBlock block) as [bp|] eqn:Ep; rewrite Hp in *.
  - destruct Hent as [(c & Hc & Hh) _]. rewrite Ep in Hc, Hw, Ht. injection Hc as <-. split_and!; try done. by apply Hsk.
  - destruct Hent as [Hh Hs]. done.
Qed.
End Add.

(** ** The active chain *)

(** The vector [c] lists the ancestors of [tip] by height. *)
Definition chain_of (m : BlockMap) (tip : uint256) (c : CChain) : Prop :=
  ∃ b, m !! tip = Some b ∧ length c = Z.to_nat (nHeight b + 1) ∧
    ∀ i q, is_anc m tip (Z.of_nat i) q → c !! i = Some (Some q).

(** Every non-null entry up to index [n] sits at its height and is preceded by
    its own ancestors. *)
Definition consistent (m : BlockMap) (c : CChain) (n : nat) : Prop :=
  ∀ i r, (i <= n)%nat → c !! i = Some (Some r) →
    (∃ b, m !! r = Some b ∧ nHeight b = Z.of_nat i) ∧
    ∀ j q, (j <= i)%nat → is_anc m r (Z.of_nat j) q → c !! j = Some (Some q).

Section SetTip.
Context (m : BlockMap) (Hwf : wf_tree m).

Lemma chain_of_lookup tip c i r : chain_of m tip c → c !! i = Some (Some r) →
  is_anc m tip (Z.of_nat i) r.
Proof.
  intros (b & Hb & Hl & Hc) Hi. destruct (Hwf tip b Hb) as [H0 _].
  destruct (is_anc_exists m Hwf tip b (Z.of_nat i) Hb) as [q Hq].
  { apply lookup_lt_Some in Hi. lia. }
  assert (q = r) as <-; [|done]. specialize (Hc i q Hq). congruence.
Qed.

Lemma resize_consistent tip c n k :
  chain_of m tip c → consistent m (resize_null n c) k.
Proof.
  intros Hc i r Hi Hr. unfold resize_null in *.
  assert (c !! i = Some (Some r)) as Hr'.
  { apply lookup_app_Some in Hr as [Hr|[_ Hr]]; [by apply lookup_take_Some in Hr as [? _]|].
    by apply lookup_replicate in Hr as [? _]. }
  assert (i < n)%nat as Hin.
  { apply lookup_lt_Some in Hr' as ?. apply lookup_lt_Some in Hr.
    rewrite length_app, length_take, length_replicate in Hr. lia. }
  pose proof (chain_of_lookup tip c i r Hc Hr') as Ha. split.
  - destruct (is_anc_lookup m Hwf _ _ _ Ha) as (_ & d & _ & Hd & Hh & _). eauto.
  - intros j q Hj Hq. rewrite lookup_app_l.
    + rewrite lookup_take_lt by lia. destruct Hc as (_ & _ & _ & Hc). apply Hc. by eapply is_anc_trans.
    + apply lookup_lt_Some in Hr'. rewrite length_take. lia.
Qed.

Lemma set_tip_loop_spec tip bt fuel p b c :
  m !! tip = Some bt → is_anc m tip (nHeight b) p → m !! p = Some b →
  fuel = Z.to_nat (nHeight b + 1) → length c = Z.to_nat (nHeight bt + 1) →
  (∀ i q, nHeight b < Z.of_nat i → is_anc m tip (Z.of_nat i) q → c !! i = Some (Some q)) →
  consistent m c (Z.to_nat (nHeight b)) →
  ∃ c', set_tip_loop fuel m c (Some p) = Ok c' ∧ chain_of m tip c'.
Proof.
  intros Ht. revert p b c. induction fuel as [|fuel IH]; intros p b c Ha Hb Hf Hl Hup Hco.
  { destruct (Hwf p b Hb). lia. }
  destruct (Hwf p b Hb) as [H0 Hp]. cbn [set_tip_loop]. unfold deref. rewrite Hb.
  destruct (is_anc_lookup m Hwf _ _ _ Ha) as (bt' & _ & Ht' & _ & _ & Hle).
  assert (bt' = bt) as -> by congruence.
  case_bool_decide as Hd.
  - exists c. split; [done|]. exists bt. split_and!; [done..|]. intros i q Hi.
    destruct (Z.lt_ge_cases (nHeight b) (Z.of_nat i)); [by apply Hup|].
    destruct (c !! Z.to_nat (nHeight b)) as [o|] eqn:Ec; [|done]. simpl in Hd. subst o.
    destruct (Hco _ _ ltac:(done) Ec) as [_ Hbelow]. apply Hbelow; [lia|].
    by eapply is_anc_split.
  - set (c' := <[Z.to_nat (nHeight b) := Some p]> c).
    assert (∀ i q, nHeight b - 1 < Z.of_nat i → is_anc m tip (Z.of_nat i) q → c' !! i = Some (Some q)) as Hup'.
    { intros i q Hi Hq. subst c'. destruct (decide (Z.of_nat i = nHeight b)) as [E|].
      - assert (i = Z.to_nat (nHeight b)) as -> by lia. rewrite E in Hq.
        rewrite list_lookup_insert_eq by lia. by rewrite (is_anc_fun m Hwf _ _ _ _ Hq Ha).
      - rewrite list_lookup_insert_ne by lia. apply Hup; [lia|done]. }
    destruct (pprev b) as [q|] eqn:Eq.
    + destruct Hp as [(d & Hd' & Hh) _]. destruct (Hwf q d Hd') as [Hd0 _]. apply (IH q d).
      * apply (is_anc_trans m _ _ _ _ _ Ha). apply anc_prev with b q; [done..|]. by apply anc_self.
      * done.
      * lia.
      * subst c'. by rewrite length_insert.
      * intros i r Hi. apply Hup'. lia.
      * intros i r Hi. subst c'. rewrite list_lookup_insert_ne by lia. intros Hr.
        destruct (Hco i r ltac:(lia) Hr) as [H1 H2]. split; [done|].
        intros j x Hj. rewrite list_lookup_insert_ne by lia. by apply H2.
    + destruct Hp as [Hz _]. exists c'. split; [by destruct fuel|]. exists bt.
      split_and!; [done|subst c'; by rewrite length_insert|]. intros i r. apply Hup'. lia.
Qed.

Lemma SetTip_spec c p b : m !! p = Some b → c = [] ∨ (∃ old, chain_of m old c) →
  ∃ c', SetTip m c p = Ok c' ∧ chain_of m p c'.
Proof.
  intros Hb Hc. destruct (Hwf p b Hb) as [H0 _]. unfold SetTip, deref. rewrite Hb.
  apply (set_tip_loop_spec p b _ p b); [done|by apply anc_self|done|done| | |].
  - unfold resize_null. rewrite length_app, length_take, length_replicate. lia.
  - intros i q Hi Hq. destruct (is_anc_lookup m Hwf _ _ _ Hq) as (b' & _ & Hb' & _ & _ & Hle).
    assert (b' = b) as -> by congruence. lia.
  - destruct Hc as [->|[old Hold]]; [|by eapply resize_consistent].
    intros i r _ Hr. unfold resize_null in Hr. rewrite take_nil, app_nil_l in Hr.
    by apply lookup_replicate in Hr as [? _].
Qed.

(** ** Last common ancestor *)

Lemma common_loop_spec fuel a b ba bb g :
  m !! a = Some ba → m !! b = Some bb → nHeight ba = nHeight bb →
  is_anc m a 0 g → is_anc m b 0 g → (Z.to_nat (nHeight ba) < fuel)%nat →
  ∃ q h, common_loop fuel m (Some a) (Some b) = Ok (Some q) ∧
    is_anc m a h q ∧ is_anc m b h q ∧
    ∀ h' q', is_anc m a h' q' → is_anc m b h' q' → h' <= h.
Proof.
  revert a b ba bb. induction fuel as [|fuel IH]; intros a b ba bb Ha Hb Hh Hga Hgb Hf; [lia|].
  cbn [common_loop]. case_bool_decide as Hab.
  { subst b. exists a, (nHeight ba). split_and!; [done|by apply anc_self..|].
    intros h' q' Hq _. destruct (is_anc_lookup m Hwf _ _ _ Hq) as (b' & _ & Hb' & _ & _ & Hle).
    assert (b' = ba) as -> by congruence. lia. }
  unfold deref. rewrite Ha, Hb.
  destruct (is_anc_inv m Hwf a ba 0 g Ha Hga) as [[Hz ->]|(Hlt & qa & Eqa & Hqa)].
  { destruct (is_anc_inv m Hwf b bb 0 a Hb Hgb) as [[_ ?]|[? _]]; [done|lia]. }
  destruct (is_anc_inv m Hwf b bb 0 g Hb Hgb) as [[? _]|(_ & qb & Eqb & Hqb)]; [lia|].
  destruct (Hwf a ba Ha) as [_ Hpa]. destruct (Hwf b bb Hb) as [_ Hpb].
  rewrite Eqa in Hpa |- *. rewrite Eqb in Hpb |- *.
  destruct Hpa as [(ca & Hca & Hha) _]. destruct Hpb as [(cb & Hcb & Hhb) _].
  destruct (IH qa qb ca cb) as (q & h & Eq & H1 & H2 & Hmax); [done|done|lia|done|done|lia|].
  exists q, h. split_and!; [done|by eapply anc_prev..|].
  intros h' q' Hq'a Hq'b.
  destruct (is_anc_inv m Hwf a ba _ _ Ha Hq'a) as [[-> ->]|(_ & qa' & ? & Hra)].
  { destruct (is_anc_inv m Hwf b bb _ _ Hb Hq'b) as [[_ ?]|[? _]]; [done|lia]. }
  destruct (is_anc_inv m Hwf b bb _ _ Hb Hq'b) as [[-> ->]|(_ & qb' & ? & Hrb)].
  { destruct (is_anc_lookup m Hwf _ _ _ Hra) as (x & _ & Hx & _ & _ & ?).
    assert (x = ca) as -> by congruence. lia. }
  simplify_eq. by apply (Hmax h' q').
Qed.

Lemma ancestor_or_self p b h : m !! p = Some b → 0 <= h <= nHeight b →
  ∃ q c, (if nHeight b >? h then GetAncestor m p h else Ok (Some p)) = Ok (Some q) ∧
    m !! q = Some c ∧ nHeight c = h ∧ is_anc m p h q.
Proof.
  intros Hb Hh. rewrite Z.gtb_ltb. destruct (Z.ltb_spec h (nHeight b)).
  - destruct (GetAncestor_spec m Hwf p b h Hb) as [Ha _]. destruct (Ha Hh) as (q & -> & Hq).
    destruct (is_anc_lookup m Hwf _ _ _ Hq) as (_ & c & _ & Hc & Hhc & _). eauto 10.
  - exists p, b. replace h with (nHeight b) by lia. eauto using is_anc.
Qed.

Lemma LastCommonAncestor_spec a b ba bb g :
  m !! a = Some ba → m !! b = Some bb → is_anc m a 0 g → is_anc m b 0 g →
  ∃ q h, LastCommonAncestor m a b = Ok (Some q) ∧ is_anc m a h q ∧ is_anc m b h q ∧
    ∀ h' q', is_anc m a h' q' → is_anc m b h' q' → h' <= h.
Proof.
  intros Ha Hb Hga Hgb. unfold LastCommonAncestor, deref. rewrite Ha, Hb.
  destruct (Hwf a ba Ha) as [Ha0 _]. destruct (Hwf b bb Hb) as [Hb0 _].
  set (h := Z.min (nHeight ba) (nHeight bb)).
  destruct (ancestor_or_self a ba h Ha ltac:(lia)) as (pa & ca & Epa & Hpa & Hha & Haa).
  destruct (ancestor_or_self b bb h Hb ltac:(lia)) as (pb & cb & Epb & Hpb & Hhb & Hab).
  assert ((if nHeight ba >? nHeight bb then GetAncestor m a (nHeight bb) else Ok (Some a)) = Ok (Some pa)) as ->.
  { rewrite <- Epa. rewrite !Z.gtb_ltb.
    destruct (Z.ltb_spec (nHeight bb) (nHeight ba)), (Z.ltb_spec h (nHeight ba)); try lia; [|done].
    do 2 f_equal. lia. }
  assert ((if (negb (nHeight ba >? nHeight bb) && (nHeight bb >? nHeight ba))%bool
           then GetAncestor m b (nHeight ba) else Ok (Some b)) = Ok (Some pb)) as ->.
  { rewrite <- Epb. rewrite !Z.gtb_ltb.
    destruct (Z.ltb_spec (nHeight bb) (nHeight ba)), (Z.ltb_spec (nHeight ba) (nHeight bb)),
      (Z.ltb_spec h (nHeight bb)); simpl; try lia; try done. do 2 f_equal. lia. }
  destruct (common_loop_spec (S (S (Z.to_nat h))) pa pb ca cb g) as (q & hq & Eq & H1 & H2 & Hmax);
    [done|done|lia|by apply (is_anc_split m Hwf a h); [done..|lia]|by apply (is_anc_split m Hwf b h); [done..|lia]|lia|].
  exists q, hq. split_and!; [done|exact (is_anc_trans _ _ _ _ _ _ Haa H1)|exact (is_anc_trans _ _ _ _ _ _ Hab H2)|].
  intros h' q' Hqa Hqb. destruct (Z.le_gt_cases h' h).
  - apply (Hmax h' q'); [by apply (is_anc_split m Hwf a h)|by apply (is_anc_split m Hwf b h)].
  - destruct (is_anc_lookup m Hwf _ _ _ Hqa) as (xa & ? & Hxa & _ & _ & ?).
    destruct (is_anc_lookup m Hwf _ _ _ Hqb) as (xb & ? & Hxb & _ & _ & ?).
    simplify_eq. lia.
Qed.

End SetTip.

End ChainFacts.

(** * Properties *)

Module ChainProps.
Import Chain ChainFacts.

(** A concrete fork for the witnesses: [0 <- 1 <- 2] and [1 <- 3]. *)
Definition demo_index (pp sk : option uint256) (h t : Z) : CBlockIndex :=
  {| pprev := pp; pskip := sk; nHeight := h; nChainWork := of_u64 (h + 1); nTx := 0; nChainTx := 0; nStatus := 2;
     nVersion := 1; hashMerkleRoot := []; nTime := t; nBits := 0x207fffff; nNonce := 0;
     nSequenceId := 0; nTimeMax := t |}.
Definition demo_tree : BlockMap :=
  <[ [3] := demo_index (Some [1]) (Some [0]) 2 35 ]>
  (<[ [2] := demo_index (Some [1]) (Some [0]) 2 30 ]>
  (<[ [1] := demo_index (Some [0]) (Some [0]) 1 20 ]>
  (<[ [0] := demo_index None None 0 10 ]> ∅))).

Lemma demo_tree_wf : wf_tree demo_tree.
Proof.
  assert (is_anc demo_tree [0] 0 [0]) as H0.
  { apply (anc_self demo_tree [0] (demo_index None None 0 10)). reflexivity. }
  assert (is_anc demo_tree [1] 0 [0]) as H1.
  { eapply anc_prev; [reflexivity|reflexivity|exact H0]. }
  intros p b Hb. unfold demo_tree in Hb.
  apply lookup_insert_Some in Hb as [[_ <-]|[_ Hb]].
  { split; [done|]. split; [eexists; split; [reflexivity|done]|]. by intros s [= <-]. }
  apply lookup_insert_Some in Hb as [[_ <-]|[_ Hb]].
  { split; [done|]. split; [eexists; split; [reflexivity|done]|]. by intros s [= <-]. }
  apply lookup_insert_Some in Hb as [[_ <-]|[_ Hb]].
  { split; [done|]. split; [eexists; split; [reflexivity|done]|]. by intros s [= <-]. }
  apply lookup_insert_Some in Hb as [[_ <-]|[_ Hb]]; [by split|].
  by rewrite lookup_empty in Hb.
Qed.

(** C38: in a well-formed block tree the skip-list walk of [GetAncestor]
    terminates without tripping its assertion, returns the block reached by
    [pprev] links at the requested height, and the null pointer exactly for
    heights outside [0 .. nHeight]. *)
Theorem GetAncestor_correct m p b height :
  wf_tree m → m !! p = Some b →
  match GetAncestor m p height with
  | Ok (Some q) => 0 <= height <= nHeight b ∧ is_anc m p height q
  | Ok None => height < 0 ∨ nHeight b < height
  | Err _ => False
  end.
Proof.
  intros Hwf Hb. destruct (GetAncestor_spec m Hwf p b height Hb) as [H1 H2].
  destruct (decide (0 <= height <= nHeight b)) as [Hh|Hh].
  - destruct (H1 Hh) as (q & -> & Hq). done.
  - rewrite (H2 Hh). lia.
Qed.

Lemma GetAncestor_correct_witness :
  match GetAncestor demo_tree [3] 0 with
  | Ok (Some q) => 0 <= 0 <= 2 ∧ is_anc demo_tree [3] 0 q
  | Ok None => 0 < 0 ∨ 2 < 0
  | Err _ => False
  end.
Proof.
  apply (GetAncestor_correct demo_tree [3] (demo_index (Some [1]) (Some [0]) 2 35) 0).
  - exact demo_tree_wf.
  - reflexivity.
Defined.

(** C39: [AddToBlockIndex] always succeeds on a well-formed block manager, for
    a header with a hash of its own that is not its parent's, and keeps it
    well-formed.  A known header changes nothing.  A new one gets one dirty
    entry with the fields of the header, linked to the parent it names if that
    is known: one higher, with the ancestor at [GetSkipHeight] as skip pointer,
    its parent's chain work and its own, and the running maximum of the times.
    [best_header] has maximal work, and no existing entry is touched. *)
Theorem AddToBlockIndex_preserves_tree (GetHash : CBlockHeader → uint256) st block :
  wf_manager st → in_u 32 (h_nBits block) → GetHash block ≠ h_hashPrevBlock block →
  ∃ st', AddToBlockIndex GetHash st block = Ok (st', GetHash block) ∧ wf_manager st' ∧
    match m_block_index st !! GetHash block with
    | Some _ => st' = st
    | None =>
        (∃ b, entry_for (m_block_index st) block b ∧ m_block_index st' = <[GetHash block := b]> (m_block_index st)) ∧
        m_dirty_blockindex st' = {[ GetHash block ]} ∪ m_dirty_blockindex st
    end.
Proof.
  intros Hst Hbits Hne. destruct (AddToBlockIndex_wf GetHash st block Hst Hbits Hne) as (st' & E & Hwf & _).
  exists st'. split_and!; [done|done|]. destruct (m_block_index st !! GetHash block) as [b|] eqn:Hk.
  - unfold AddToBlockIndex in E. rewrite Hk in E. by injection E.
  - destruct (AddToBlockIndex_new GetHash st block Hst Hbits Hne Hk) as (b & bh & E' & He). rewrite E in E'.
    injection E' as ->. split; [by exists b|done].
Qed.

Definition demo_header (prev : uint256) (time nonce : Z) : CBlockHeader :=
  {| h_nVersion := 1; h_hashPrevBlock := prev; h_hashMerkleRoot := [];
     h_nTime := time; h_nBits := 0x1f00ffff; h_nNonce := nonce |}.
Definition demo_genesis : CBlockHeader := demo_header [] 1778351316 19717.
Definition demo_GetHash (b : CBlockHeader) : uint256 := [h_nNonce b].

Lemma AddToBlockIndex_preserves_tree_witness :
  let st := {| m_block_index := ∅; best_header := None; m_dirty_blockindex := ∅ |} in
  ∃ st1 st2 b, AddToBlockIndex demo_GetHash st demo_genesis = Ok (st1, [19717]) ∧
    AddToBlockIndex demo_GetHash st1 (demo_header [19717] 1778351000 5) = Ok (st2, [5]) ∧ wf_manager st2 ∧
    m_block_index st2 !! [5] = Some b ∧ pprev b = Some [19717] ∧ pskip b = Some [19717] ∧ nHeight b = 1 ∧ nTimeMax b = 1778351316.
Proof.
  intros st. assert (wf_manager st) as H0.
  { constructor; unfold st; cbn [m_block_index best_header]; [intros ? ? H|intros ? ? H|done]; by rewrite lookup_empty in H. }
  destruct (AddToBlockIndex_preserves_tree demo_GetHash st demo_genesis H0) as (st1 & E1 & H1 & _);
    [split; vm_compute; congruence|done|].
  destruct (AddToBlockIndex_preserves_tree demo_GetHash st1 (demo_header [19717] 1778351000 5) H1) as (st2 & E2 & H2 & _);
    [split; vm_compute; congruence|done|].
  exists st1, st2. vm_compute in E1. injection E1 as <-. vm_compute in E2. injection E2 as <-.
  eexists. split_and!; [vm_compute; reflexivity|vm_compute; reflexivity|exact H2|vm_compute; reflexivity|reflexivity..].
Defined.

(** [SetTip] terminates and leaves in [vChain] exactly the ancestors of
    the new tip, indexed by height, whatever branch the chain followed before. *)
Theorem SetTip_correct m c p b :
  wf_tree m → m !! p = Some b → c = [] ∨ (∃ old, chain_of m old c) →
  ∃ c', SetTip m c p = Ok c' ∧ chain_of m p c'.
Proof. intros Hwf Hb Hc. by apply (SetTip_spec m Hwf c p b). Qed.

Lemma SetTip_correct_witness :
  ∃ c', SetTip demo_tree [Some [0]; Some [1]; Some [2]] [3] = Ok c' ∧ chain_of demo_tree [3] c'.
Proof.
  apply (SetTip_correct demo_tree _ [3] (demo_index (Some [1]) (Some [0]) 2 35)).
  - exact demo_tree_wf.
  - reflexivity.
  - right. exists [2]. exists (demo_index (Some [1]) (Some [0]) 2 30). split_and!; [reflexivity..|].
    assert (is_anc demo_tree [2] 2 [2]) as A2.
    { apply (anc_self demo_tree [2] (demo_index (Some [1]) (Some [0]) 2 30)). reflexivity. }
    assert (is_anc demo_tree [2] 1 [1]) as A1.
    { eapply anc_prev; [reflexivity|reflexivity|].
      apply (anc_self demo_tree [1] (demo_index (Some [0]) (Some [0]) 1 20)). reflexivity. }
    assert (is_anc demo_tree [2] 0 [0]) as A0.
    { do 2 (eapply anc_prev; [reflexivity|reflexivity|]).
      apply (anc_self demo_tree [0] (demo_index None None 0 10)). reflexivity. }
    intros i q Hq. destruct (is_anc_lookup _ demo_tree_wf _ _ _ Hq) as (b & _ & Hb & _ & _ & Hle).
    vm_compute in Hb. injection Hb as <-. cbn [nHeight] in Hle.
    destruct i as [|[|[|i]]]; [..|lia].
    + by rewrite (is_anc_fun _ demo_tree_wf _ _ _ _ Hq A0).
    + by rewrite (is_anc_fun _ demo_tree_wf _ _ _ _ Hq A1).
    + by rewrite (is_anc_fun _ demo_tree_wf _ _ _ _ Hq A2).
Defined.

(** For two blocks of one tree with a common root [LastCommonAncestor]
    terminates, its assertion holds, and the result is the highest block that
    is an ancestor of both. *)
Theorem LastCommonAncestor_correct m a b ba bb g :
  wf_tree m → m !! a = Some ba → m !! b = Some bb → is_anc m a 0 g → is_anc m b 0 g →
  ∃ q h, LastCommonAncestor m a b = Ok (Some q) ∧ is_anc m a h q ∧ is_anc m b h q ∧
    ∀ h' q', is_anc m a h' q' → is_anc m b h' q' → h' <= h.
Proof. intros Hwf. by apply (LastCommonAncestor_spec m Hwf). Qed.

Lemma LastCommonAncestor_correct_witness :
  ∃ q h, LastCommonAncestor demo_tree [2] [3] = Ok (Some q) ∧
    is_anc demo_tree [2] h q ∧ is_anc demo_tree [3] h q ∧
    ∀ h' q', is_anc demo_tree [2] h' q' → is_anc demo_tree [3] h' q' → h' <= h.
Proof.
  apply (LastCommonAncestor_correct demo_tree [2] [3]
           (demo_index (Some [1]) (Some [0]) 2 30) (demo_index (Some [1]) (Some [0]) 2 35) [0]).
  - exact demo_tree_wf.
  - reflexivity.
  - reflexivity.
  - do 2 (eapply anc_prev; [reflexivity|reflexivity|]).
    apply (anc_self demo_tree [0] (demo_index None None 0 10)). reflexivity.
  - do 2 (eapply anc_prev; [reflexivity|reflexivity|]).
    apply (anc_self demo_tree [0] (demo_index None None 0 10)). reflexivity.
Defined.

(** [GetBlockProof] never divides by zero: for every 32-bit [nBits] it
    returns [floor (2^256 / (target + 1))], computed without leaving 256 bits,
    and zero when the encoding is negative, overflowing or zero. *)
Theorem GetBlockProof_correct nBits : in_u 32 nBits →
  ∃ w, GetBlockProof nBits = Ok w ∧ wf w ∧ val w = block_work nBits.
Proof. apply GetBlockProof_spec. Qed.

Lemma GetBlockProof_correct_witness :
  ∃ w, GetBlockProof 0x1f00ffff = Ok w ∧ wf w ∧ val w = block_work 0x1f00ffff.
Proof. apply (GetBlockProof_correct 0x1f00ffff). split; vm_compute; congruence. Defined.

(** The median time past never decreases along a chain whose blocks obey
    the timestamp rule: if a block's time is greater than the median time past
    of its parent, its own median time past is defined and at least the
    parent's. *)
Theorem median_time_past_monotone m p b q tq :
  m !! p = Some b → pprev b = Some q → GetMedianTimePast m q = Ok tq → tq < nTime b →
  ∃ tp, GetMedianTimePast m p = Ok tp ∧ tq <= tp.
Proof. apply GetMedianTimePast_monotone. Qed.

Lemma median_time_past_monotone_witness :
  ∃ tp, GetMedianTimePast demo_tree [3] = Ok tp ∧ 20 <= tp.
Proof.
  apply (median_time_past_monotone demo_tree [3] (demo_index (Some [1]) (Some [0]) 2 35) [1] 20);
    vm_compute; congruence.
Defined.

End ChainProps.
