(* ===== verification/Params.v ===== *)
(** Consensus parameters: [src/consensus/params.h] and the main network's
    values from [src/kernel/chainparams.cpp].  Integer division and remainder
    follow C++ (truncation towards zero): [Z.quot] and [Z.rem]. *)
From Stdlib Require Import ZArith Lia.
From stdpp Require Import gmap.
From S2P Require Import Prelude Arith256 Chain.

Module Consensus.

Inductive BuriedDeployment : Type :=
| DEPLOYMENT_HEIGHTINCB
| DEPLOYMENT_CLTV
| DEPLOYMENT_DERSIG
| DEPLOYMENT_CSV
| DEPLOYMENT_SEGWIT.

Inductive DeploymentPos : Type :=
| DEPLOYMENT_TESTDUMMY
| DEPLOYMENT_TAPROOT.

Record BIP9Deployment := mkBIP9 {
  bit : Z;
  nStartTime : Z;
  nTimeout : Z;
  min_activation_height : Z;
}.

Definition NO_TIMEOUT : Z := 2 ^ 63 - 1.
Definition ALWAYS_ACTIVE : Z := -1.
Definition NEVER_ACTIVE : Z := -2.

Record Params := mkParams {
  hashGenesisBlock : uint256;
  nSubsidyHalvingInterval : Z;
  script_flag_exceptions : gmap uint256 Z;
  BIP34Height : Z;
  BIP34Hash : uint256;
  BIP65Height : Z;
  BIP66Height : Z;
  CSVHeight : Z;
  SegwitHeight : Z;
  MinBIP9WarningHeight : Z;
  nRuleChangeActivationThreshold : Z;
  nMinerConfirmationWindow : Z;
  vDeployments : DeploymentPos → BIP9Deployment;
  powLimit : uint256;
  fPowAllowMinDifficultyBlocks : bool;
  fPowNoRetargeting : bool;
  nPowTargetSpacing : Z;
  nPowTargetTimespan : Z;
  nFastRetargetPeriod : Z;
  nFastRetargetUntilHeight : Z;
  signet_blocks : bool;
}.

Definition DeploymentHeight (params : Params) (dep : BuriedDeployment) : Z :=
  match dep with
  | DEPLOYMENT_HEIGHTINCB => BIP34Height params
  | DEPLOYMENT_CLTV => BIP65Height params
  | DEPLOYMENT_DERSIG => BIP66Height params
  | DEPLOYMENT_CSV => CSVHeight params
  | DEPLOYMENT_SEGWIT => SegwitHeight params
  end.

(** [DeploymentActiveAfter] and [DeploymentActiveAt] for buried deployments
    ([src/deploymentstatus.h]): the height of the previous entry, if any, and
    of the entry itself. *)
Definition DeploymentActiveAfter (prev_height : option Z) (params : Params) (dep : BuriedDeployment) : bool :=
  (match prev_height with None => 0 | Some h => h + 1 end) >=? DeploymentHeight params dep.
Definition DeploymentActiveAt (height : Z) (params : Params) (dep : BuriedDeployment) : bool :=
  height >=? DeploymentHeight params dep.

Definition DifficultyAdjustmentInterval (params : Params) : Z :=
  Z.quot (nPowTargetTimespan params) (nPowTargetSpacing params).

(** [CMainParams]: the genesis hash is computed at start-up from the header,
    so it is an argument. *)
Definition main_powLimit : uint256 := replicate 30 0xff ++ replicate 2 0.

Definition CMainParams (genesis_hash : uint256) : Params :=
  {| hashGenesisBlock := genesis_hash;
     nSubsidyHalvingInterval := 210000;
     script_flag_exceptions := ∅;
     BIP34Height := 17;
     BIP34Hash := replicate 32 0;
     BIP65Height := 1;
     BIP66Height := 1;
     CSVHeight := 1;
     SegwitHeight := 0;
     MinBIP9WarningHeight := 0;
     nRuleChangeActivationThreshold := 1815;
     nMinerConfirmationWindow := 2016;
     vDeployments d := match d with
                       | DEPLOYMENT_TESTDUMMY => mkBIP9 28 NEVER_ACTIVE NO_TIMEOUT 0
                       | DEPLOYMENT_TAPROOT => mkBIP9 2 ALWAYS_ACTIVE NO_TIMEOUT 0
                       end;
     powLimit := main_powLimit;
     fPowAllowMinDifficultyBlocks := false;
     fPowNoRetargeting := false;
     nPowTargetSpacing := 10 * 60;
     nPowTargetTimespan := 14 * 24 * 60 * 60;
     nFastRetargetPeriod := 144;
     nFastRetargetUntilHeight := 2016;
     signet_blocks := false |}.

(** [genesis.nBits] of the main network. *)
Definition main_genesis_nBits : Z := 0x1f00ffff.

End Consensus.
