(* ===== verification/Pow.v ===== *)
(** Proof of work and difficulty: [src/pow.cpp].

    BitcoBoost retargets every [nFastRetargetPeriod] blocks below
    [nFastRetargetUntilHeight] and every [DifficultyAdjustmentInterval()]
    blocks after that.  The multiplications and divisions go through the limb
    arithmetic of [Arith256], so their behaviour at 256 bits is the source's:
    the theorems give the exact target when the product fits, show that every
    computed target is a permitted transition, and exhibit the main network
    parameters for which the product does not fit. *)
From Stdlib Require Import ZArith Lia.
From stdpp Require Import gmap.
From S2P Require Import Prelude Arith256 Chain Params.
Import BaseUint BaseUintFacts Chain Consensus.

Module Pow.

Definition BBGetRetargetInterval (nHeight : Z) (params : Params) : Z :=
  if ((nFastRetargetPeriod params >? 0) && (nFastRetargetUntilHeight params >? 0) &&
      (nHeight <? nFastRetargetUntilHeight params))%bool
  then nFastRetargetPeriod params
  else DifficultyAdjustmentInterval params.

Definition BBGetTargetTimespan (nHeight : Z) (params : Params) : Z :=
  BBGetRetargetInterval nHeight params * nPowTargetSpacing params.

(** [x.GetCompact()] with the assertion as an error. *)
Definition get_compact (x : base_uint) : result chain_error Z :=
  match GetCompact x false with Some c => Ok c | None => Err AssertFailed end.

(** [bn *= int64] takes the [uint32_t] overload, [bn /= int64] converts the
    divisor through [base_uint(uint64_t)]. *)
Definition mul_div (bn : base_uint) (num den : Z) : result chain_error base_uint :=
  match op_div (op_mul32 bn (u32 num)) (of_u64 (u64 den)) with
  | Ok q => Ok q
  | Err e => Err (Thrown e)
  end.

(** [nActualTimespan] after the two limits. *)
Definition limit_timespan (nActualTimespan nTargetTimespan : Z) : Z :=
  let a := if nActualTimespan <? Z.quot nTargetTimespan 4
           then Z.quot nTargetTimespan 4 else nActualTimespan in
  if a >? nTargetTimespan * 4 then nTargetTimespan * 4 else a.

Definition CalculateNextWorkRequired (pindexLast : CBlockIndex) (nFirstBlockTime : Z)
    (params : Params) : result chain_error Z :=
  if fPowNoRetargeting params then Ok (nBits pindexLast)
  else
    let nTargetTimespan := BBGetTargetTimespan (nHeight pindexLast + 1) params in
    let nActualTimespan :=
      limit_timespan (GetBlockTime pindexLast - nFirstBlockTime) nTargetTimespan in
    let bnPowLimit := UintToArith256 (powLimit params) in
    let bnNew := (SetCompact (nBits pindexLast)).1.1 in
    match mul_div bnNew nActualTimespan nTargetTimespan with
    | Err e => Err e
    | Ok bnNew =>
        let bnNew := if op_gt bnNew bnPowLimit then bnPowLimit else bnNew in
        get_compact bnNew
    end.

(** The testnet loop: back to the last block that is not a minimum-difficulty
    exception. *)
Fixpoint last_normal_loop (fuel : nat) (m : BlockMap) (nRetargetInterval nProofOfWorkLimit : Z)
    (pindex : CBlockIndex) : result chain_error Z :=
  match fuel with
  | O => Err OutOfFuel
  | S fuel =>
      match pprev pindex with
      | Some q =>
          if (negb (Z.rem (nHeight pindex) nRetargetInterval =? 0) &&
              (nBits pindex =? nProofOfWorkLimit))%bool
          then match deref m q with
               | Ok b => last_normal_loop fuel m nRetargetInterval nProofOfWorkLimit b
               | Err e => Err e
               end
          else Ok (nBits pindex)
      | None => Ok (nBits pindex)
      end
  end.

Definition GetNextWorkRequired (m : BlockMap) (last : uint256) (block_time : Z)
    (params : Params) : result chain_error Z :=
  match deref m last, get_compact (UintToArith256 (powLimit params)) with
  | Ok pindexLast, Ok nProofOfWorkLimit =>
      let nRetargetInterval := BBGetRetargetInterval (nHeight pindexLast + 1) params in
      if negb (Z.rem (nHeight pindexLast + 1) nRetargetInterval =? 0) then
        if fPowAllowMinDifficultyBlocks params then
          if block_time >? GetBlockTime pindexLast + nPowTargetSpacing params * 2
          then Ok nProofOfWorkLimit
          else last_normal_loop (S (Z.to_nat (nHeight pindexLast))) m
                 nRetargetInterval nProofOfWorkLimit pindexLast
        else Ok (nBits pindexLast)
      else
        let nHeightFirst := nHeight pindexLast - (nRetargetInterval - 1) in
        if nHeightFirst <? 0 then Err AssertFailed
        else match GetAncestor m last nHeightFirst with
             | Ok (Some first) =>
                 match deref m first with
                 | Ok pindexFirst =>
                     CalculateNextWorkRequired pindexLast (GetBlockTime pindexFirst) params
                 | Err e => Err e
                 end
             | Ok None => Err AssertFailed
             | Err e => Err e
             end
  | Err e, _ | _, Err e => Err e
  end.

(** The bound on one side of a transition: [old * timespan / target], capped
    at the limit and rounded through the compact encoding. *)
Definition rounded_bound (old_nbits timespan nTargetTimespan : Z) (pow_limit : base_uint)
    : result chain_error base_uint :=
  match mul_div (SetCompact old_nbits).1.1 timespan nTargetTimespan with
  | Err e => Err e
  | Ok t =>
      let t := if op_gt t pow_limit then pow_limit else t in
      match get_compact t with
      | Ok c => Ok (SetCompact c).1.1
      | Err e => Err e
      end
  end.

Definition PermittedDifficultyTransition (params : Params) (height old_nbits new_nbits : Z)
    : result chain_error bool :=
  if fPowAllowMinDifficultyBlocks params then Ok true
  else
    let nRetargetInterval := BBGetRetargetInterval (i32 height) params in
    let nTargetTimespan := BBGetTargetTimespan (i32 height) params in
    if Z.rem height nRetargetInterval =? 0 then
      let smallest_timespan := Z.quot nTargetTimespan 4 in
      let largest_timespan := nTargetTimespan * 4 in
      let pow_limit := UintToArith256 (powLimit params) in
      let observed_new_target := (SetCompact new_nbits).1.1 in
      match rounded_bound old_nbits largest_timespan nTargetTimespan pow_limit with
      | Err e => Err e
      | Ok maximum_new_target =>
          if op_lt maximum_new_target observed_new_target then Ok false
          else match rounded_bound old_nbits smallest_timespan nTargetTimespan pow_limit with
               | Err e => Err e
               | Ok minimum_new_target =>
                   if op_gt minimum_new_target observed_new_target then Ok false else Ok true
               end
      end
    else if negb (old_nbits =? new_nbits) then Ok false
    else Ok true.

Definition CheckProofOfWork (hash : uint256) (nBits : Z) (params : Params) : bool :=
  if bool_decide (hash = hashGenesisBlock params) then true
  else
    let '(bnTarget, fNegative, fOverflow) := SetCompact nBits in
    if (fNegative || EqualTo bnTarget 0 || fOverflow ||
        op_gt bnTarget (UintToArith256 (powLimit params)))%bool then false
    else if op_gt (UintToArith256 hash) bnTarget then false
    else true.

End Pow.

Module PowFacts.
Import Pow ChainFacts.

(** Parameters for which a retarget at [height] stays within the widths of the
    C++ types: a positive timespan below [2^30] seconds and a 32-byte limit. *)
Definition timespan_ok (params : Params) (height : Z) : Prop :=
  0 < BBGetTargetTimespan height params < 2 ^ 30.
Definition limit_ok (params : Params) : Prop :=
  length (powLimit params) = 32%nat ∧ bytes_ok (powLimit params).
Definition limit (params : Params) : Z := le_decode (powLimit params).

Lemma limit_val params : limit_ok params →
  wf (UintToArith256 (powLimit params)) ∧ val (UintToArith256 (powLimit params)) = limit params.
Proof. intros [Hl Hb]. split; [by apply UintToArith256_wf|by apply UintToArith256_val]. Qed.

Lemma get_compact_spec x : wf x →
  get_compact x = Ok (compact_mant (val x) + compact_size (val x) * 2 ^ 24).
Proof. intros Hx. unfold get_compact. by rewrite GetCompact_spec. Qed.

Lemma mul_div_spec bn num den : wf bn → in_u 32 num → in_u 64 den → 0 < den →
  ∃ q, mul_div bn num den = Ok q ∧ wf q ∧ val q = (val bn * num) mod 2 ^ 256 / den.
Proof.
  intros Hbn Hn Hd Hpos. unfold mul_div. rewrite !wrap_small by done.
  destruct (op_div_spec (op_mul32 bn num) (of_u64 den)) as [[_ Hz]|(q & -> & Hq & _ & Hv)].
  - by apply op_mul32_wf.
  - apply of_u64_wf.
  - rewrite of_u64_val in Hz by done. lia.
  - exists q. split_and!; [done..|]. by rewrite Hv, op_mul32_val, of_u64_val.
Qed.

Lemma limit_timespan_range a t : 0 < t → Z.quot t 4 <= limit_timespan a t <= t * 4.
Proof.
  intros Ht. unfold limit_timespan.
  assert (0 <= Z.quot t 4 <= t) by (rewrite Z.quot_div_nonneg by lia; zdm).
  repeat split_if; lia.
Qed.

(** The retarget formula on integers. *)
Definition retarget (lim t a T : Z) : Z := Z.min lim (t * a / T).

Lemma capped_spec lim q : wf lim → wf q →
  wf (if op_gt q lim then lim else q) ∧
  val (if op_gt q lim then lim else q) = Z.min (val lim) (val q).
Proof.
  intros Hl Hq. rewrite op_gt_spec by done. rewrite Z.gtb_ltb.
  destruct (Z.ltb_spec (val lim) (val q)); split; done || lia.
Qed.

(** The common computation of [CalculateNextWorkRequired] and of both bounds
    of [PermittedDifficultyTransition], when the product fits in 256 bits. *)
Lemma scaled_target_spec params nbits a T :
  limit_ok params → in_u 32 nbits → 0 < T < 2 ^ 30 → 0 <= a <= T * 4 →
  compact_value nbits * a < 2 ^ 256 →
  ∃ q, mul_div (SetCompact nbits).1.1 a T = Ok q ∧
    let r := if op_gt q (UintToArith256 (powLimit params))
             then UintToArith256 (powLimit params) else q in
    wf r ∧ val r = retarget (limit params) (compact_value nbits) a T.
Proof.
  intros Hl Hn HT Ha Hfit. destruct (SetCompact_val nbits Hn) as [Hw Hv].
  pose proof (compact_value_max nbits Hn).
  destruct (mul_div_spec (SetCompact nbits).1.1 a T) as (q & -> & Hq & Hvq);
    [done|split; lia|split; lia|lia|].
  exists q. split; [done|]. destruct (limit_val params Hl) as [Hlw Hlv].
  destruct (capped_spec _ q Hlw Hq) as [Hc Hvc]. split; [done|].
  rewrite Hvc, Hlv, Hvq, Hv, Z.mod_small by nia. done.
Qed.

Lemma rounded_bound_spec params nbits a T :
  limit_ok params → in_u 32 nbits → 0 < T < 2 ^ 30 → 0 <= a <= T * 4 →
  compact_value nbits * a < 2 ^ 256 →
  ∃ r, rounded_bound nbits a T (UintToArith256 (powLimit params)) = Ok r ∧ wf r ∧
    val r = compact_trunc (retarget (limit params) (compact_value nbits) a T).
Proof.
  intros Hl Hn HT Ha Hfit. unfold rounded_bound.
  destruct (scaled_target_spec params nbits a T) as (q & -> & Hw & Hv); [done..|].
  cbv zeta in Hw, Hv. rewrite get_compact_spec by done.
  destruct (encode_flags _ (val_range _ Hw)) as (Hc & _ & _).
  destruct (SetCompact_val _ Hc) as [Hw' Hv']. eexists. split_and!; [done..|].
  by rewrite Hv', compact_value_encode, Hv by (by apply val_range).
Qed.

Lemma CalculateNextWorkRequired_spec b first params :
  limit_ok params → timespan_ok params (nHeight b + 1) → in_u 32 (nBits b) →
  fPowNoRetargeting params = false →
  compact_value (nBits b) * (BBGetTargetTimespan (nHeight b + 1) params * 4) < 2 ^ 256 →
  let T := BBGetTargetTimespan (nHeight b + 1) params in
  let v := retarget (limit params) (compact_value (nBits b)) (limit_timespan (nTime b - first) T) T in
  in_u 256 v ∧
  CalculateNextWorkRequired b first params = Ok (compact_mant v + compact_size v * 2 ^ 24).
Proof.
  intros Hl HT Hn Hr Hfit T v. unfold CalculateNextWorkRequired. rewrite Hr.
  pose proof (limit_timespan_range (nTime b - first) T ltac:(apply HT)) as Hlim.
  pose proof (compact_value_max (nBits b) Hn).
  assert (0 <= Z.quot T 4) by (apply Z.quot_pos; unfold timespan_ok in HT; lia).
  destruct (scaled_target_spec params (nBits b) (limit_timespan (nTime b - first) T) T)
    as (q & Eq & Hw & Hv); [done|done|done|lia|nia|].
  cbv zeta in Hw, Hv. fold T. unfold GetBlockTime. rewrite Eq, get_compact_spec by done.
  rewrite Hv. split; [|done]. subst v. rewrite <- Hv. by apply val_range.
Qed.

Lemma retarget_mono lim t a a' T : 0 <= t → 0 < T → a <= a' →
  retarget lim t a T <= retarget lim t a' T.
Proof.
  intros Ht HT Ha. unfold retarget. apply Z.min_le_compat_l, Z.div_le_mono; nia.
Qed.

(** ** Totality of [GetNextWorkRequired] *)

Lemma CalculateNextWorkRequired_total b first params :
  limit_ok params → timespan_ok params (nHeight b + 1) → in_u 32 (nBits b) →
  ∃ c, CalculateNextWorkRequired b first params = Ok c.
Proof.
  intros Hl HT Hn. unfold CalculateNextWorkRequired. destruct (fPowNoRetargeting params); [eauto|].
  set (T := BBGetTargetTimespan (nHeight b + 1) params). unfold timespan_ok in HT. fold T in HT.
  pose proof (limit_timespan_range (GetBlockTime b - first) T ltac:(lia)).
  assert (0 <= Z.quot T 4) by (apply Z.quot_pos; lia).
  destruct (mul_div_spec (SetCompact (nBits b)).1.1 (limit_timespan (GetBlockTime b - first) T) T)
    as (q & -> & Hq & _); [by apply SetCompact_val|split; lia|split; lia|lia|].
  rewrite get_compact_spec; [eauto|]. apply capped_spec; [by apply limit_val|done].
Qed.

Lemma last_normal_loop_ok m fuel interval lim b : wf_tree m → wf_entry m b →
  (Z.to_nat (nHeight b) < fuel)%nat → ∃ c, last_normal_loop fuel m interval lim b = Ok c.
Proof.
  intros Hwf. revert b. induction fuel as [|fuel IH]; intros b [H0 Hb] Hf; [lia|].
  cbn [last_normal_loop]. destruct (pprev b) as [q|]; [|eauto].
  destruct Hb as [(c & Hc & Hh) _]. destruct (_ && _)%bool; [|eauto].
  unfold deref. rewrite Hc. apply IH; [by apply (Hwf q)|].
  destruct (Hwf q c Hc) as [? _]. lia.
Qed.

Definition interval_ok (params : Params) (height : Z) : Prop :=
  0 < BBGetRetargetInterval height params.

Lemma rem_0_ge h i : 0 < i → 0 < h → Z.rem h i = 0 → i <= h.
Proof.
  intros Hi Hh Hr. rewrite Z.rem_mod_nonneg in Hr by lia.
  apply Z.mod_divide in Hr; [|lia]. apply Z.divide_pos_le; [lia|done].
Qed.

(** At a retarget height the code measures the last [interval] blocks. *)
Lemma GetNextWorkRequired_retarget m last b params block_time :
  wf_tree m → m !! last = Some b → limit_ok params → interval_ok params (nHeight b + 1) →
  Z.rem (nHeight b + 1) (BBGetRetargetInterval (nHeight b + 1) params) = 0 →
  ∃ first bf, is_anc m last (nHeight b - (BBGetRetargetInterval (nHeight b + 1) params - 1)) first ∧
    m !! first = Some bf ∧
    GetNextWorkRequired m last block_time params = CalculateNextWorkRequired b (nTime bf) params.
Proof.
  intros Hwf Hb Hl Hi Hr. destruct (Hwf last b Hb) as [H0 _]. unfold interval_ok in Hi.
  pose proof (rem_0_ge (nHeight b + 1) _ Hi ltac:(lia) Hr) as Hge.
  set (i := BBGetRetargetInterval (nHeight b + 1) params) in *.
  destruct (GetAncestor_spec m Hwf last b (nHeight b - (i - 1)) Hb) as [Ha _].
  destruct Ha as (first & Ef & Hf); [lia|].
  destruct (is_anc_lookup m Hwf _ _ _ Hf) as (_ & bf & _ & Hbf & _ & _).
  exists first, bf. split_and!; [done..|]. unfold GetNextWorkRequired, deref at 1. rewrite Hb.
  rewrite get_compact_spec by (by apply limit_val). fold i. rewrite Hr. cbn [negb Z.eqb].
  destruct (Z.ltb_spec (nHeight b - (i - 1)) 0); [lia|]. rewrite Ef. unfold deref. by rewrite Hbf.
Qed.

(** ** The proof-of-work check *)

Lemma SetCompact_negative c : in_u 32 c → 0 < compact_value c →
  (SetCompact c).1.2 = Z.testbit c 23.
Proof.
  intros Hc Hp. unfold SetCompact, compact_value in *.
  rewrite Z.shiftr_div_pow2, land_mantissa in * by lia.
  destruct (Z.leb_spec (c / 2 ^ 24) 3); cbn [fst snd]; rewrite land_sign.
  - rewrite Z.shiftr_div_pow2 by lia. by rewrite (proj2 (Z.eqb_neq _ 0)) by lia.
  - destruct (Z.eqb_spec (c mod 2 ^ 23) 0) as [E|]; [|done].
    rewrite E in Hp. by rewrite Z.mod_0_l in Hp.
Qed.

Lemma CheckProofOfWork_spec hash nBits params :
  length hash = 32%nat → bytes_ok hash → in_u 32 nBits → limit_ok params →
  CheckProofOfWork hash nBits params = true ↔
  hash = hashGenesisBlock params ∨
  (Z.testbit nBits 23 = false ∧ (SetCompact nBits).2 = false ∧
   0 < compact_value nBits <= limit params ∧ le_decode hash <= compact_value nBits).
Proof.
  intros Hl Hb Hn Hlim. unfold CheckProofOfWork.
  case_bool_decide as Hg; [by split; [left|]|].
  destruct (SetCompact_val nBits Hn) as [Hw Hv].
  pose proof (SetCompact_negative nBits Hn) as Hneg.
  pose proof (compact_value_max nBits Hn) as Hmax.
  destruct (SetCompact nBits) as [[t neg] ovf]. cbn [fst snd] in *.
  destruct (limit_val params Hlim) as [Hlw Hlv].
  rewrite EqualTo_spec, !op_gt_spec, Hlv, UintToArith256_val, Hv
    by (done || (by apply UintToArith256_wf) || split; lia).
  rewrite !Z.gtb_ltb. destruct (decide (0 < compact_value nBits)) as [Hpos|Hz].
  - rewrite <- (Hneg Hpos). destruct neg, ovf; simpl;
      destruct (Z.eqb_spec (compact_value nBits) 0), (Z.ltb_spec (limit params) (compact_value nBits)),
        (Z.ltb_spec (compact_value nBits) (le_decode hash)); simpl;
      (split; [try done; intros _; right; split_and!; done || lia
              |intros [?|(? & ? & ? & ?)]; done || lia]).
  - assert (compact_value nBits = 0) as -> by lia. rewrite orb_true_r. simpl.
    split; [done|]. intros [?|(_ & _ & ? & _)]; done || lia.
Qed.


End PowFacts.

(** * Properties *)

Module PowProps.
Import Pow PowFacts ChainFacts.

(** A block on schedule at the end of the first fast period of the main
    network. *)
Definition on_schedule (t0 : Z) : CBlockIndex :=
  {| pprev := None; pskip := None; nHeight := 143; nChainWork := zero; nTx := 0; nChainTx := 0; nStatus := 2;
     nVersion := 1; hashMerkleRoot := []; nTime := t0 + 144 * 600; nBits := main_genesis_nBits;
     nNonce := 0; nSequenceId := 0; nTimeMax := t0 + 144 * 600 |}.

(** When the old target times four timespans fits in 256 bits, the retarget
    step succeeds and the new compact word decodes to
    [min (powLimit, old * clamp (actual, T/4, 4T) / T)] rounded down to the
    compact precision; the new target never exceeds [powLimit] nor four times
    the old one. *)
Theorem retarget_formula b first params :
  limit_ok params → timespan_ok params (nHeight b + 1) → in_u 32 (nBits b) →
  fPowNoRetargeting params = false →
  compact_value (nBits b) * (BBGetTargetTimespan (nHeight b + 1) params * 4) < 2 ^ 256 →
  let T := BBGetTargetTimespan (nHeight b + 1) params in
  ∃ c, CalculateNextWorkRequired b first params = Ok c ∧ in_u 32 c ∧
    compact_value c = compact_trunc
      (retarget (limit params) (compact_value (nBits b)) (limit_timespan (nTime b - first) T) T) ∧
    compact_value c <= limit params ∧ compact_value c <= 4 * compact_value (nBits b).
Proof.
  intros Hl HT Hn Hr Hfit T.
  destruct (CalculateNextWorkRequired_spec b first params) as [Hv ->]; [done..|].
  fold T in Hv |- *. set (v := retarget _ _ _ _) in *.
  destruct (encode_flags v Hv) as (Hc & _ & _).
  destruct (compact_trunc_le v (proj1 Hv)) as [_ Hle].
  eexists. split; [done|]. rewrite compact_value_encode by done. split_and!; [done|done|..];
    (etrans; [exact Hle|]; subst v; unfold retarget; [..]).
  - apply Z.le_min_l.
  - pose proof (limit_timespan_range (nTime b - first) T ltac:(apply HT)).
    pose proof (compact_value_max (nBits b) Hn).
    etrans; [apply Z.le_min_r|]. unfold timespan_ok in HT. fold T in HT.
    apply Z.div_le_upper_bound; nia.
Qed.

Lemma retarget_formula_witness :
  let b := {| pprev := None; pskip := None; nHeight := 4031; nChainWork := zero; nTx := 0; nChainTx := 0; nStatus := 2;
              nVersion := 1; hashMerkleRoot := []; nTime := 1209600; nBits := 0x1d00ffff;
              nNonce := 0; nSequenceId := 0; nTimeMax := 0 |} in
  let params := CMainParams [] in
  let T := BBGetTargetTimespan (nHeight b + 1) params in
  ∃ c, CalculateNextWorkRequired b 0 params = Ok c ∧ in_u 32 c ∧
    compact_value c = compact_trunc
      (retarget (limit params) (compact_value (nBits b)) (limit_timespan (nTime b - 0) T) T) ∧
    compact_value c <= limit params ∧ compact_value c <= 4 * compact_value (nBits b).
Proof.
  intros b params T. apply (retarget_formula b 0 params).
  - split; [reflexivity|]. repeat constructor; vm_compute; congruence.
  - split; vm_compute; congruence.
  - split; vm_compute; congruence.
  - reflexivity.
  - vm_compute; congruence.
Defined.

(** C32: the transition produced by [CalculateNextWorkRequired] at a retarget
    height is accepted by [PermittedDifficultyTransition] for the same height,
    whatever the timestamps, as long as the products fit in 256 bits. *)
Theorem retarget_is_permitted b first params :
  limit_ok params → timespan_ok params (nHeight b + 1) → in_u 32 (nBits b) →
  in_s 32 (nHeight b + 1) → fPowNoRetargeting params = false →
  compact_value (nBits b) * (BBGetTargetTimespan (nHeight b + 1) params * 4) < 2 ^ 256 →
  Z.rem (nHeight b + 1) (BBGetRetargetInterval (nHeight b + 1) params) = 0 →
  ∃ c, CalculateNextWorkRequired b first params = Ok c ∧
    PermittedDifficultyTransition params (nHeight b + 1) (nBits b) c = Ok true.
Proof.
  intros Hl HT Hn Hh Hr Hfit Hrem.
  destruct (CalculateNextWorkRequired_spec b first params) as [Hv ->]; [done..|].
  eexists. split; [done|]. unfold PermittedDifficultyTransition.
  destruct (fPowAllowMinDifficultyBlocks params); [done|].
  rewrite swrap_small, Hrem by (done || lia). cbn [Z.eqb].
  set (T := BBGetTargetTimespan (nHeight b + 1) params) in *. unfold timespan_ok in HT. fold T in HT.
  pose proof (limit_timespan_range (nTime b - first) T ltac:(lia)) as Hlim.
  pose proof (compact_value_max (nBits b) Hn).
  assert (0 <= Z.quot T 4 <= T) by (rewrite Z.quot_div_nonneg by lia; zdm).
  destruct (rounded_bound_spec params (nBits b) (T * 4) T) as (mx & -> & Hmx & Vmx);
    [done|done|lia|lia|lia|].
  destruct (rounded_bound_spec params (nBits b) (Z.quot T 4) T) as (mn & -> & Hmn & Vmn);
    [done|done|lia|lia|nia|].
  set (v := retarget _ _ _ _) in *. destruct (encode_flags v Hv) as (Hc & _ & _).
  destruct (SetCompact_val _ Hc) as [Hw Hvv].
  rewrite op_lt_spec, op_gt_spec, Hvv, Vmx, Vmn, compact_value_encode by done.
  assert (∀ a, 0 <= a → 0 <= retarget (limit params) (compact_value (nBits b)) a T) as Hpos.
  { intros a Ha. unfold retarget. apply Z.min_glb; [|apply Z.div_pos; nia].
    rewrite <- (proj2 (limit_val params Hl)). apply val_range, limit_val, Hl. }
  rewrite (proj2 (Z.ltb_ge _ _)).
  - rewrite Z.gtb_ltb, (proj2 (Z.ltb_ge _ _)); [done|].
    apply compact_trunc_mono. split; [apply Hpos; lia|]. apply retarget_mono; lia.
  - apply compact_trunc_mono. split; [apply Hpos; lia|]. apply retarget_mono; lia.
Qed.

Lemma retarget_is_permitted_witness :
  let b := {| pprev := None; pskip := None; nHeight := 4031; nChainWork := zero; nTx := 0; nChainTx := 0; nStatus := 2;
              nVersion := 1; hashMerkleRoot := []; nTime := 5000000; nBits := 0x1d00ffff;
              nNonce := 0; nSequenceId := 0; nTimeMax := 0 |} in
  ∃ c, CalculateNextWorkRequired b 0 (CMainParams []) = Ok c ∧
    PermittedDifficultyTransition (CMainParams []) 4032 0x1d00ffff c = Ok true.
Proof.
  intros b. apply (retarget_is_permitted b 0 (CMainParams [])).
  - split; [reflexivity|]. repeat constructor; vm_compute; congruence.
  - split; vm_compute; congruence.
  - split; vm_compute; congruence.
  - split; vm_compute; congruence.
  - reflexivity.
  - vm_compute; congruence.
  - reflexivity.
Defined.

(** [GetNextWorkRequired] never trips an assertion on a well-formed block
    tree: off a retarget height (and without the testnet rule) it repeats the
    parent's [nBits]; at one it measures exactly the last [interval] blocks. *)
Theorem GetNextWorkRequired_total m last b params block_time :
  wf_tree m → m !! last = Some b → limit_ok params →
  timespan_ok params (nHeight b + 1) → interval_ok params (nHeight b + 1) → in_u 32 (nBits b) →
  (∃ c, GetNextWorkRequired m last block_time params = Ok c) ∧
  (Z.rem (nHeight b + 1) (BBGetRetargetInterval (nHeight b + 1) params) ≠ 0 →
   fPowAllowMinDifficultyBlocks params = false →
   GetNextWorkRequired m last block_time params = Ok (nBits b)).
Proof.
  intros Hwf Hb Hl HT Hi Hn. split.
  - destruct (decide (Z.rem (nHeight b + 1) (BBGetRetargetInterval (nHeight b + 1) params) = 0)) as [Hr|Hr].
    + destruct (GetNextWorkRequired_retarget m last b params block_time) as (f & bf & _ & _ & ->); [done..|].
      by apply CalculateNextWorkRequired_total.
    + unfold GetNextWorkRequired, deref at 1. rewrite Hb, get_compact_spec by (by apply limit_val).
      rewrite (proj2 (Z.eqb_neq _ _) Hr). cbn [negb].
      destruct (fPowAllowMinDifficultyBlocks params); [|eauto]. destruct (_ >? _); [eauto|].
      apply last_normal_loop_ok; [done|by apply (Hwf last)|lia].
  - intros Hr Hf. unfold GetNextWorkRequired, deref at 1.
    rewrite Hb, get_compact_spec by (by apply limit_val).
    by rewrite (proj2 (Z.eqb_neq _ _) Hr), Hf.
Qed.

Lemma GetNextWorkRequired_total_witness :
  (∃ c, GetNextWorkRequired ChainProps.demo_tree [3] 40 (CMainParams []) = Ok c) ∧
  (Z.rem 3 144 ≠ 0 → false = false →
   GetNextWorkRequired ChainProps.demo_tree [3] 40 (CMainParams []) = Ok 0x207fffff).
Proof.
  apply (GetNextWorkRequired_total ChainProps.demo_tree [3]
           (ChainProps.demo_index (Some [1]) (Some [0]) 2 35) (CMainParams []) 40).
  - exact ChainProps.demo_tree_wf.
  - reflexivity.
  - split; [reflexivity|]. repeat constructor; vm_compute; congruence.
  - split; vm_compute; congruence.
  - vm_compute. reflexivity.
  - split; vm_compute; congruence.
Defined.

(** [CheckProofOfWork] accepts exactly the configured genesis hash, and
    otherwise the hashes at most a target that is positive, representable, not
    flagged negative and at most [powLimit]. *)
Theorem CheckProofOfWork_correct hash nBits params :
  length hash = 32%nat → bytes_ok hash → in_u 32 nBits → limit_ok params →
  CheckProofOfWork hash nBits params = true ↔
  hash = hashGenesisBlock params ∨
  (Z.testbit nBits 23 = false ∧ (SetCompact nBits).2 = false ∧
   0 < compact_value nBits <= limit params ∧ le_decode hash <= compact_value nBits).
Proof. apply CheckProofOfWork_spec. Qed.

Lemma CheckProofOfWork_correct_witness :
  CheckProofOfWork (replicate 29 0xff ++ replicate 3 0) 0x1f00ffff (CMainParams []) = true ↔
  replicate 29 0xff ++ replicate 3 0 = @nil Z ∨
  (Z.testbit 0x1f00ffff 23 = false ∧ (SetCompact 0x1f00ffff).2 = false ∧
   0 < compact_value 0x1f00ffff <= limit (CMainParams []) ∧
   le_decode (replicate 29 0xff ++ replicate 3 0) <= compact_value 0x1f00ffff).
Proof.
  apply (CheckProofOfWork_correct (replicate 29 0xff ++ replicate 3 0) 0x1f00ffff (CMainParams [])).
  - reflexivity.
  - repeat constructor; vm_compute; congruence.
  - split; vm_compute; congruence.
  - split; [reflexivity|]. repeat constructor; vm_compute; congruence.
Defined.

(** C27: with the main network's [powLimit] ([2^240 - 1]) the product in
    [CalculateNextWorkRequired] does not fit in 256 bits.  Starting from the
    genesis difficulty, a first period of 144 blocks that takes exactly its
    expected 86400 seconds should leave the target where it is; the code wraps
    modulo [2^256] and cuts it to less than a quarter, a transition that
    [PermittedDifficultyTransition] itself rejects. *)
Theorem main_retarget_overflows genesis_hash t0 :
  let params := CMainParams genesis_hash in
  let old := compact_value main_genesis_nBits in
  retarget (limit params) old (144 * 600) (BBGetTargetTimespan 144 params) = old ∧
  2 ^ 256 <= old * BBGetTargetTimespan 144 params ∧
  ∃ c, CalculateNextWorkRequired (on_schedule t0) t0 params = Ok c ∧
       4 * compact_value c < old ∧
       PermittedDifficultyTransition params 144 main_genesis_nBits c = Ok false.
Proof.
  cbv zeta. split_and!; [vm_compute; reflexivity|vm_compute; congruence|].
  exists 507367610. split_and!; [|vm_compute; reflexivity|vm_compute; reflexivity].
  unfold CalculateNextWorkRequired, GetBlockTime, on_schedule. cbn [nTime nHeight nBits fPowNoRetargeting CMainParams].
  replace (t0 + 144 * 600 - t0) with (144 * 600) by lia. vm_compute. reflexivity.
Qed.

End PowProps.
