(* ===== verification/Headers.v ===== *)
(** Accepting block headers: [CheckBlockHeader], [ContextualCheckBlockHeader],
    [AcceptBlockHeader] and [ProcessNewBlockHeaders] of [src/validation.cpp],
    with [GetLastCheckpoint] of [src/node/blockstorage.cpp].

    [CBlockHeader::GetHash] is the argument [GetHash]; the clock, the options
    and the checkpoints are arguments too.  A rejected header is a value
    [Invalid], a failed assertion or a null dereference a [Fault]. *)
From Stdlib Require Import ZArith Lia.
From stdpp Require Import gmap.
From S2P Require Import Prelude Arith256 Chain Params Pow.
Import Arith256.BaseUint Chain Consensus Pow.
Local Open Scope bb_scope.

Module Headers.

Inductive header_reject : Type :=
| HighHash
| BadDiffbits
| BadForkPriorToCheckpoint
| TimeTooOld
| TimeTooNew
| BadVersion
| Duplicate
| PrevBlkNotFound
| BadPrevblk
| TooLittleChainwork.

Inductive header_error : Type :=
| Invalid (r : header_reject)
| Fault (e : chain_error).

Definition lift {A} (m : result chain_error A) : result header_error A :=
  match m with Ok a => Ok a | Err e => Err (Fault e) end.

Definition BLOCK_FAILED_VALID : Z := 32.
Definition BLOCK_FAILED_CHILD : Z := 64.
Definition MAX_FUTURE_BLOCK_TIME : Z := 2 * 60 * 60.

(** [CBlockIndex::IsValid] *)
Definition IsValid (nStatus nUpTo : Z) : result chain_error bool :=
  if negb (Z.land nUpTo (Z.lnot BLOCK_VALID_MASK) =? 0) then Err AssertFailed
  else if negb (Z.land nStatus BLOCK_FAILED_MASK =? 0) then Ok false
  else Ok (Z.land nStatus BLOCK_VALID_MASK >=? nUpTo).

Definition with_status (b : CBlockIndex) (s : Z) : CBlockIndex :=
  {| pprev := pprev b; pskip := pskip b; nHeight := nHeight b; nChainWork := nChainWork b;
     nTx := nTx b; nChainTx := nChainTx b;
     nStatus := s; nVersion := nVersion b; hashMerkleRoot := hashMerkleRoot b; nTime := nTime b;
     nBits := nBits b; nNonce := nNonce b; nSequenceId := nSequenceId b; nTimeMax := nTimeMax b |}.

(** The map of checkpoints, by increasing height. *)
Definition GetLastCheckpoint (m : BlockMap) (checkpoints : list (Z * uint256)) : option CBlockIndex :=
  foldl (fun acc c => match m !! c.2 with Some b => Some b | None => acc end) None checkpoints.

Section Accept.
Context (GetHash : CBlockHeader → uint256) (params : Params).
(** [m_options.checkpoints_enabled] and [GetParams().Checkpoints()]. *)
Context (checkpoints_enabled : bool) (checkpoints : list (Z * uint256)).

Definition CheckBlockHeader (block : CBlockHeader) (fCheckPOW : bool) : result header_error unit :=
  require (negb (fCheckPOW && negb (CheckProofOfWork (GetHash block) (h_nBits block) params))) (Invalid HighHash).

Definition HasValidProofOfWork (headers : list CBlockHeader) : bool :=
  forallb (fun header => CheckProofOfWork (GetHash header) (h_nBits header) params) headers.

Fixpoint headers_work_loop (headers : list CBlockHeader) (total_work : base_uint) : result uint_error base_uint :=
  match headers with
  | [] => Ok total_work
  | header :: headers =>
      match GetBlockProof (h_nBits header) with
      | Ok proof => headers_work_loop headers (op_add total_work proof)
      | Err e => Err e
      end
  end.
Definition CalculateHeadersWork (headers : list CBlockHeader) : result uint_error base_uint :=
  headers_work_loop headers (of_u64 0).

(** [now]: seconds since the epoch. *)
Definition ContextualCheckBlockHeader (m : BlockMap) (block : CBlockHeader) (prev : uint256) (now : Z)
    : result header_error unit :=
  let! pindexPrev := lift (deref m prev) in
  let nHeight' := nHeight pindexPrev + 1 in
  let! required := lift (GetNextWorkRequired m prev (h_nTime block) params) in
  let! _ := require (h_nBits block =? required) (Invalid BadDiffbits) in
  let! _ :=
    if checkpoints_enabled then
      match GetLastCheckpoint m checkpoints with
      | Some pcheckpoint => require (negb (nHeight' <? nHeight pcheckpoint)) (Invalid BadForkPriorToCheckpoint)
      | None => Ok tt
      end
    else Ok tt in
  let! median := lift (GetMedianTimePast m prev) in
  let! _ := require (negb (h_nTime block <=? median)) (Invalid TimeTooOld) in
  let! _ := require (negb (h_nTime block >? now + MAX_FUTURE_BLOCK_TIME)) (Invalid TimeTooNew) in
  let after dep := DeploymentActiveAfter (Some (nHeight pindexPrev)) params dep in
  require (negb (((h_nVersion block <? 2) && after DEPLOYMENT_HEIGHTINCB) ||
                 ((h_nVersion block <? 3) && after DEPLOYMENT_DERSIG) ||
                 ((h_nVersion block <? 4) && after DEPLOYMENT_CLTV))) (Invalid BadVersion).

(** The part of [ChainstateManager] involved; [m_failed_blocks] in the order
    the set is walked. *)
Record ChainstateManager := mkManager {
  m_blockman : BlockManager;
  m_failed_blocks : list uint256;
}.

Definition set_blockman (st : ChainstateManager) (bm : BlockManager) : ChainstateManager :=
  mkManager bm (m_failed_blocks st).

(** [while (invalid_walk != failedit)]: every round goes one block back. *)
Fixpoint mark_walk (fuel : nat) (bm : BlockManager) (invalid_walk failedit : uint256)
    : result chain_error BlockManager :=
  match fuel with
  | O => Err OutOfFuel
  | S fuel =>
      if bool_decide (invalid_walk = failedit) then Ok bm
      else
        match m_block_index bm !! invalid_walk with
        | None => Err NullDeref
        | Some b =>
            let bm := {| m_block_index := <[invalid_walk := with_status b (Z.lor (nStatus b) BLOCK_FAILED_CHILD)]>
                                            (m_block_index bm);
                         best_header := best_header bm;
                         m_dirty_blockindex := {[ invalid_walk ]} ∪ m_dirty_blockindex bm |} in
            match pprev b with
            | None => Err NullDeref
            | Some q => mark_walk fuel bm q failedit
            end
        end
  end.

(** The loop over the failed blocks: [None] when none is an ancestor. *)
Fixpoint failed_loop (bm : BlockManager) (pindexPrev : uint256) (l : list uint256)
    : result chain_error (option BlockManager) :=
  match l with
  | [] => Ok None
  | failedit :: l =>
      let! f := deref (m_block_index bm) failedit in
      let! anc := GetAncestor (m_block_index bm) pindexPrev (nHeight f) in
      if bool_decide (anc = Some failedit) then
        let! _ := require (negb (Z.land (nStatus f) BLOCK_FAILED_VALID =? 0)) AssertFailed in
        let! p := deref (m_block_index bm) pindexPrev in
        let! bm := mark_walk (S (Z.to_nat (nHeight p))) bm pindexPrev failedit in
        Ok (Some bm)
      else failed_loop bm pindexPrev l
  end.

(** The checks on a header that is neither the genesis nor known; the new
    state when failed blocks were marked. *)
Definition check_new_header (st : ChainstateManager) (block : CBlockHeader) (now : Z)
    : result header_error unit * ChainstateManager :=
  let m := m_block_index (m_blockman st) in
  let prev := h_hashPrevBlock block in
  match CheckBlockHeader block true with
  | Err e => (Err e, st)
  | Ok _ =>
      match m !! prev with
      | None => (Err (Invalid PrevBlkNotFound), st)
      | Some pindexPrev =>
          if negb (Z.land (nStatus pindexPrev) BLOCK_FAILED_MASK =? 0) then (Err (Invalid BadPrevblk), st)
          else
            match ContextualCheckBlockHeader m block prev now with
            | Err e => (Err e, st)
            | Ok _ =>
                match IsValid (nStatus pindexPrev) BLOCK_VALID_SCRIPTS with
                | Err e => (Err (Fault e), st)
                | Ok true => (Ok tt, st)
                | Ok false =>
                    match failed_loop (m_blockman st) prev (m_failed_blocks st) with
                    | Err e => (Err (Fault e), st)
                    | Ok None => (Ok tt, st)
                    | Ok (Some bm) => (Err (Invalid BadPrevblk), set_blockman st bm)
                    end
                end
            end
      end
  end.

(** The verdict with [*ppindex], and the new state. *)
Definition AcceptBlockHeader (st : ChainstateManager) (block : CBlockHeader) (min_pow_checked : bool) (now : Z)
    : result header_error uint256 * ChainstateManager :=
  let hash := GetHash block in
  let add st :=
    if negb min_pow_checked then (Err (Invalid TooLittleChainwork), st)
    else match AddToBlockIndex GetHash (m_blockman st) block with
         | Ok (bm, pindex) => (Ok pindex, set_blockman st bm)
         | Err e => (Err (Fault e), st)
         end in
  if negb (bool_decide (hash = hashGenesisBlock params)) then
    match m_block_index (m_blockman st) !! hash with
    | Some pindex =>
        if negb (Z.land (nStatus pindex) BLOCK_FAILED_MASK =? 0) then (Err (Invalid Duplicate), st)
        else (Ok hash, st)
    | None =>
        match check_new_header st block now with
        | (Err e, st) => (Err e, st)
        | (Ok _, st) => add st
        end
    end
  else add st.

(** [ProcessNewBlockHeaders]: stops at the first rejected header; the last
    accepted entry. *)
Fixpoint ProcessNewBlockHeaders (st : ChainstateManager) (headers : list CBlockHeader) (min_pow_checked : bool)
    (now : Z) (ppindex : option uint256) : result header_error (option uint256) * ChainstateManager :=
  match headers with
  | [] => (Ok ppindex, st)
  | header :: headers =>
      match AcceptBlockHeader st header min_pow_checked now with
      | (Err e, st) => (Err e, st)
      | (Ok pindex, st) => ProcessNewBlockHeaders st headers min_pow_checked now (Some pindex)
      end
  end.

End Accept.
End Headers.

Module HeadersFacts.
Import Arith256.BaseUintFacts ChainFacts Headers.

(** ** Entries up to their status *)

Definition core (b : CBlockIndex) : CBlockIndex := with_status b 0.

(** [m'] knows every entry of [m], perhaps with another status. *)
Definition ext (m m' : BlockMap) : Prop :=
  ∀ p b, m !! p = Some b → ∃ b', m' !! p = Some b' ∧ core b' = core b.

(** The header of an entry and its place in the tree: what no later event
    changes. *)
Definition shape (b : CBlockIndex) : CBlockIndex :=
  {| pprev := pprev b; pskip := pskip b; nHeight := nHeight b; nChainWork := nChainWork b;
     nTx := 0; nChainTx := 0; nStatus := 0; nVersion := nVersion b;
     hashMerkleRoot := hashMerkleRoot b; nTime := nTime b; nBits := nBits b; nNonce := nNonce b;
     nSequenceId := 0; nTimeMax := nTimeMax b |}.

(** [m'] knows every entry of [m], perhaps with another status and other
    counters. *)
Definition grows (m m' : BlockMap) : Prop :=
  ∀ p b, m !! p = Some b → ∃ b', m' !! p = Some b' ∧ shape b' = shape b.

Lemma shape_fields b b' :
  shape b' = shape b →
  pprev b' = pprev b ∧ pskip b' = pskip b ∧ nHeight b' = nHeight b ∧ nChainWork b' = nChainWork b ∧
  nVersion b' = nVersion b ∧ hashMerkleRoot b' = hashMerkleRoot b ∧ nTime b' = nTime b ∧
  nBits b' = nBits b ∧ nNonce b' = nNonce b ∧ nTimeMax b' = nTimeMax b.
Proof. destruct b, b'. unfold shape. cbn. by intros [= -> -> -> -> -> -> -> -> -> ->]. Qed.

Lemma core_shape b b' : core b' = core b → shape b' = shape b.
Proof. destruct b, b'. unfold core, with_status, shape. cbn. by intros [= -> -> -> -> -> -> -> -> -> -> -> -> ->]. Qed.

Lemma core_fields b b' :
  core b' = core b →
  pprev b' = pprev b ∧ pskip b' = pskip b ∧ nHeight b' = nHeight b ∧ nChainWork b' = nChainWork b ∧
  nVersion b' = nVersion b ∧ hashMerkleRoot b' = hashMerkleRoot b ∧ nTime b' = nTime b ∧
  nBits b' = nBits b ∧ nNonce b' = nNonce b ∧ nTimeMax b' = nTimeMax b.
Proof. intros H. by apply shape_fields, core_shape. Qed.

Ltac use_core H := let H' := fresh in
  first [pose proof (shape_fields _ _ H) as H'|pose proof (core_fields _ _ H) as H'];
  destruct H' as (?Epp & ?Esk & ?Eh & ?Ew & ?Ev & ?Em & ?Et & ?Eb & ?En & ?Etm).

Lemma ext_grows m m' : ext m m' → grows m m'.
Proof. intros H p b Hb. destruct (H p b Hb) as (b' & Hb' & Ec). exists b'. split; [done|by apply core_shape]. Qed.

Lemma grows_refl m : grows m m.
Proof. intros p b H. eauto. Qed.

Lemma grows_trans m1 m2 m3 : grows m1 m2 → grows m2 m3 → grows m1 m3.
Proof.
  intros H1 H2 p b Hb. destruct (H1 p b Hb) as (b' & Hb' & E). destruct (H2 p b' Hb') as (b2 & Hb2 & E2).
  exists b2. split; [done|congruence].
Qed.

Lemma ext_refl m : ext m m.
Proof. intros p b H. eauto. Qed.

Lemma ext_subseteq m m' : m ⊆ m' → ext m m'.
Proof. intros Hs p b H. exists b. split; [|done]. by eapply lookup_weaken. Qed.

Lemma ext_trans m1 m2 m3 : ext m1 m2 → ext m2 m3 → ext m1 m3.
Proof.
  intros H1 H2 p b Hb. destruct (H1 p b Hb) as (b' & Hb' & E). destruct (H2 p b' Hb') as (b2 & Hb2 & E2).
  exists b2. split; [done|congruence].
Qed.

Section Grows.
Context (m m' : BlockMap) (Hext : grows m m').

Lemma deref_grows p b : deref m p = Ok b → ∃ b', deref m' p = Ok b' ∧ shape b' = shape b.
Proof.
  unfold deref. destruct (m !! p) as [c|] eqn:E; [|done]. intros [= <-].
  destruct (Hext p c E) as (c' & -> & ?). eauto.
Qed.

Lemma ancestor_loop_grows fuel p hw h r :
  ancestor_loop fuel m p hw h = Ok r → ancestor_loop fuel m' p hw h = Ok r.
Proof.
  revert p hw. induction fuel as [|fuel IH]; intros p hw; cbn [ancestor_loop]; [done|].
  destruct (hw >? h); [|done]. destruct (deref m p) as [b|] eqn:E; [|done].
  destruct (deref_grows p b E) as (b' & -> & Ec). use_core Ec. rewrite Esk, Epp.
  destruct (pskip b), (follow_skip hw h); auto; destruct (pprev b); auto.
Qed.

Lemma GetAncestor_grows p h r : GetAncestor m p h = Ok r → GetAncestor m' p h = Ok r.
Proof.
  unfold GetAncestor. destruct (deref m p) as [b|] eqn:E; [|done].
  destruct (deref_grows p b E) as (b' & -> & Ec). use_core Ec. rewrite Eh. destruct (_ || _); [done|].
  destruct (ancestor_loop _ m p _ h) as [q|] eqn:Ea; [|done]. by rewrite (ancestor_loop_grows _ _ _ _ _ Ea).
Qed.

Lemma past_times_grows n p l : past_times m n p = Ok l → past_times m' n p = Ok l.
Proof.
  revert p l. induction n as [|n IH]; intros p l; [by destruct p|]. destruct p as [p|]; [|done].
  cbn [past_times]. destruct (deref m p) as [b|] eqn:E; [|done].
  destruct (deref_grows p b E) as (b' & -> & Ec). use_core Ec. rewrite Epp.
  destruct (past_times m n (pprev b)) as [l'|] eqn:El; [|done].
  rewrite (IH _ _ El). unfold GetBlockTime. by rewrite Et.
Qed.

Lemma GetMedianTimePast_grows p t : GetMedianTimePast m p = Ok t → GetMedianTimePast m' p = Ok t.
Proof.
  unfold GetMedianTimePast. destruct (past_times m _ _) as [l|] eqn:E; [|done].
  by rewrite (past_times_grows _ _ _ E).
Qed.

Lemma last_normal_loop_grows fuel i lim b b' r :
  shape b' = shape b → last_normal_loop fuel m i lim b = Ok r → last_normal_loop fuel m' i lim b' = Ok r.
Proof.
  revert b b'. induction fuel as [|fuel IH]; intros b b' Ec; cbn [last_normal_loop]; [done|].
  use_core Ec. rewrite Epp, Eh, Eb. destruct (pprev b) as [q|]; [|done]. destruct (_ && _); [|done].
  destruct (deref m q) as [c|] eqn:E; [|done]. destruct (deref_grows q c E) as (c' & -> & ?). by apply IH.
Qed.

Lemma GetNextWorkRequired_grows params p t r :
  GetNextWorkRequired m p t params = Ok r → GetNextWorkRequired m' p t params = Ok r.
Proof.
  unfold GetNextWorkRequired. destruct (deref m p) as [b|] eqn:E; [|by destruct (get_compact _)].
  destruct (deref_grows p b E) as (b' & -> & Ec). use_core Ec. destruct (get_compact _) as [lim|]; [|done].
  unfold GetBlockTime. rewrite Eh, Eb, Et. destruct (negb _).
  - destruct (fPowAllowMinDifficultyBlocks params); [|done]. destruct (t >? _); [done|]. by apply last_normal_loop_grows.
  - destruct (_ <? 0); [done|]. destruct (GetAncestor m p _) as [[q|]|] eqn:Ea; try done.
    rewrite (GetAncestor_grows _ _ _ Ea). destruct (deref m q) as [c|] eqn:Eq; [|done].
    destruct (deref_grows q c Eq) as (c' & -> & Ec'). destruct (shape_fields _ _ Ec') as (_ & _ & _ & _ & _ & _ & -> & _).
    unfold CalculateNextWorkRequired, GetBlockTime. by rewrite Eh, Eb, Et.
Qed.

Lemma is_anc_grows p h q : is_anc m p h q → is_anc m' p h q.
Proof.
  induction 1 as [p b Hp|p b q h r Hp Hq _ IH].
  - destruct (Hext p b Hp) as (b' & Hb' & Ec). use_core Ec. rewrite <- Eh. by constructor.
  - destruct (Hext p b Hp) as (b' & Hb' & Ec). use_core Ec. eapply anc_prev; [done| |done]. by rewrite Epp.
Qed.
End Grows.

(** ** Changing statuses only *)

Definition same_core (m m' : BlockMap) : Prop := ext m m' ∧ ext m' m.

Lemma wf_tree_shape m m' : grows m m' → grows m' m → wf_tree m → wf_tree m'.
Proof.
  intros H1 H2 Hwf p b' Hp. destruct (H2 p b' Hp) as (b & Hb & Ec). destruct (Hwf p b Hb) as [Hh Hpp].
  use_core Ec. split; [lia|]. rewrite <- Epp, <- Eh, <- Esk.
  destruct (pprev b) as [q|]; [|done]. destruct Hpp as [(c & Hc & Hhc) Hs]. split.
  - destruct (H1 q c Hc) as (c' & Hc' & Ecc). exists c'. split; [done|].
    destruct (shape_fields _ _ Ecc) as (_ & _ & -> & _). done.
  - intros s Es. apply (is_anc_grows m m' H1). by apply Hs.
Qed.

Lemma wf_tree_same m m' : same_core m m' → wf_tree m → wf_tree m'.
Proof. intros [H1 H2]. by apply wf_tree_shape; apply ext_grows. Qed.

Lemma wf_data_same m m' b b' :
  grows m m' → wf_tree m → m !! b.1 = Some b.2 → shape b' = shape b.2 → wf_data m b.2 → wf_data m' b'.
Proof.
  intros H1 Hwf Hb Ec Hd. destruct (Hwf _ _ Hb) as [_ Hpp]. unfold wf_data in *. use_core Ec.
  rewrite Eb, Ew, Etm, Et.
  assert (∀ (A : Type) (f : CBlockIndex → A) d, (∀ x y, shape x = shape y → f x = f y) →
    from_option f d (parent m' b') = from_option f d (parent m b.2)) as Ep.
  { intros A f d Hf. unfold parent. rewrite Epp. destruct (pprev b.2) as [q|]; [|done].
    destruct Hpp as [(c & Hc & _) _]. destruct (H1 q c Hc) as (c' & Hc' & Ecc).
    rewrite Hc, Hc'. cbn. by apply Hf. }
  rewrite !Ep; [done| |].
  - intros x y Exy. by destruct (shape_fields _ _ Exy) as (_ & _ & _ & _ & _ & _ & _ & _ & _ & ->).
  - intros x y Exy. cbn. by destruct (shape_fields _ _ Exy) as (_ & _ & _ & -> & _).
Qed.

Lemma wf_manager_same bm bm' :
  same_core (m_block_index bm) (m_block_index bm') → best_header bm' = best_header bm →
  wf_manager bm → wf_manager bm'.
Proof.
  intros Hs Hbest [Ht Hd Hb]. split.
  - by eapply wf_tree_same.
  - intros p b' Hp. destruct (proj2 Hs p b' Hp) as (b & Hpb & Ec).
    apply (wf_data_same (m_block_index bm) (m_block_index bm') (p, b) b'); [apply ext_grows, Hs|done|done|by symmetry; apply core_shape|by apply (Hd p)].
  - rewrite Hbest. destruct (best_header bm) as [bh|].
    + destruct Hb as (bb & Hbb & Hmax). destruct (proj1 Hs bh bb Hbb) as (bb' & Hbb' & Ec). exists bb'. split; [done|].
      intros p b' Hp. destruct (proj2 Hs p b' Hp) as (b & Hpb & Ec2). use_core Ec. 
      destruct (core_fields _ _ Ec2) as (_ & _ & _ & E2 & _). rewrite Ew, <- E2. by apply (Hmax p).
    + apply map_empty. intros p. destruct (m_block_index bm' !! p) as [b'|] eqn:Ep; [|done].
      destruct (proj2 Hs p b' Ep) as (b & Hpb & _). rewrite Hb in Hpb. by rewrite lookup_empty in Hpb.
Qed.

Lemma with_status_same (m : BlockMap) p b s : m !! p = Some b → same_core m (<[p := with_status b s]> m).
Proof.
  intros Hp. split; intros q c Hq.
  - destruct (decide (q = p)) as [->|Hn].
    + rewrite lookup_insert_eq. eexists. split; [done|]. assert (c = b) as -> by congruence. by destruct b.
    + rewrite lookup_insert_ne by done. eauto.
  - apply lookup_insert_Some in Hq as [[<- <-]|[_ Hq]]; [|eauto]. exists b. split; [done|]. by destruct b.
Qed.

Lemma same_core_trans m1 m2 m3 : same_core m1 m2 → same_core m2 m3 → same_core m1 m3.
Proof. intros [A1 A2] [B1 B2]. split; eapply ext_trans; eauto. Qed.

Lemma mark_walk_same fuel bm w f bm' :
  mark_walk fuel bm w f = Ok bm' →
  same_core (m_block_index bm) (m_block_index bm') ∧ best_header bm' = best_header bm.
Proof.
  revert bm w. induction fuel as [|fuel IH]; intros bm w; cbn [mark_walk]; [done|].
  case_bool_decide; [intros [= <-]; split; [split; apply ext_refl|done]|].
  destruct (m_block_index bm !! w) as [b|] eqn:E; [|done]. destruct (pprev b) as [q|]; [|done].
  intros H'. destruct (IH _ _ H') as [H1 H2]. cbn in *. split; [|done].
  eapply same_core_trans; [by apply with_status_same|done].
Qed.

Lemma failed_loop_same bm p l bm' :
  failed_loop bm p l = Ok (Some bm') →
  same_core (m_block_index bm) (m_block_index bm') ∧ best_header bm' = best_header bm.
Proof.
  induction l as [|f l IH]; cbn [failed_loop]; [done|].
  intros (b & _ & H')%rbind_ok. apply rbind_ok in H' as (anc & _ & H').
  case_bool_decide; [|auto]. apply rbind_ok in H' as (_ & _ & H'). apply rbind_ok in H' as (? & _ & H').
  apply rbind_ok in H' as (bm2 & H' & [= <-]). by eapply mark_walk_same.
Qed.

(** ** The invariant of the header tree *)

Section Accept.
Context (GetHash : CBlockHeader → uint256) (params : Params).
Context (checkpoints_enabled : bool) (checkpoints : list (Z * uint256)).

(** An entry whose header was accepted on top of its parent: its key is the
    hash of its header and meets the target, the difficulty is the required
    one, the timestamp above the median of the past, the version current. *)
Definition header_valid (m : BlockMap) (p : uint256) (b : CBlockIndex) : Prop :=
  ∃ q c median, pprev b = Some q ∧ m !! q = Some c ∧
    p = GetHash (mkHeader (nVersion b) q (hashMerkleRoot b) (nTime b) (nBits b) (nNonce b)) ∧
    CheckProofOfWork p (nBits b) params = true ∧
    GetNextWorkRequired m q (nTime b) params = Ok (nBits b) ∧
    GetMedianTimePast m q = Ok median ∧ median < nTime b ∧
    (BIP34Height params <= nHeight c + 1 → 2 <= nVersion b) ∧
    (BIP66Height params <= nHeight c + 1 → 3 <= nVersion b) ∧
    (BIP65Height params <= nHeight c + 1 → 4 <= nVersion b).

Record headers_inv (st : ChainstateManager) : Prop := {
  hi_manager : wf_manager (m_blockman st);
  hi_genesis : is_Some (m_block_index (m_blockman st) !! hashGenesisBlock params);
  hi_valid : ∀ p b, m_block_index (m_blockman st) !! p = Some b →
    p = hashGenesisBlock params ∨ header_valid (m_block_index (m_blockman st)) p b;
}.

Lemma header_valid_grows m m' p b b' :
  grows m m' → shape b' = shape b → header_valid m p b → header_valid m' p b'.
Proof.
  intros He Ec (q & c & t & Hq & Hc & Hp & Hpow & Hw & Ht & Hlt & V1 & V2 & V3). use_core Ec.
  destruct (He q c Hc) as (c' & Hc' & Ecc). destruct (shape_fields _ _ Ecc) as (_ & _ & Ehc & _).
  exists q, c', t. rewrite Epp, Ev, Em, Et, Eb, En, Ehc. split_and!; try done.
  - by apply (GetNextWorkRequired_grows m m').
  - by apply (GetMedianTimePast_grows m m').
Qed.

Lemma headers_inv_same st bm :
  same_core (m_block_index (m_blockman st)) (m_block_index bm) → best_header bm = best_header (m_blockman st) →
  headers_inv st → headers_inv (set_blockman st bm).
Proof.
  intros Hs Hb [H1 [g Hg] H3]. split; cbn [m_blockman set_blockman].
  - by apply (wf_manager_same (m_blockman st)).
  - destruct (proj1 Hs _ _ Hg) as (g' & Hg' & _). eauto.
  - intros p b' Hp. destruct (proj2 Hs p b' Hp) as (b & Hpb & Ec).
    destruct (H3 p b Hpb) as [?|Hv]; [by left|right]. eapply header_valid_grows; [apply ext_grows, Hs| |done]. by symmetry; apply core_shape.
Qed.

(** What [ContextualCheckBlockHeader] has checked. *)
Lemma ContextualCheckBlockHeader_ok m block prev now u :
  ContextualCheckBlockHeader params checkpoints_enabled checkpoints m block prev now = Ok u →
  ∃ c median, m !! prev = Some c ∧ GetNextWorkRequired m prev (h_nTime block) params = Ok (h_nBits block) ∧
    GetMedianTimePast m prev = Ok median ∧ median < h_nTime block <= now + MAX_FUTURE_BLOCK_TIME ∧
    (BIP34Height params <= nHeight c + 1 → 2 <= h_nVersion block) ∧
    (BIP66Height params <= nHeight c + 1 → 3 <= h_nVersion block) ∧
    (BIP65Height params <= nHeight c + 1 → 4 <= h_nVersion block).
Proof.
  unfold ContextualCheckBlockHeader, deref. destruct (m !! prev) as [c|]; [|done]. cbn [lift rbind].
  destruct (GetNextWorkRequired _ _ _ _) as [req|] eqn:Er; [|done]. cbn [lift rbind].
  intros (_ & Hbits%require_ok & H')%rbind_ok. apply rbind_ok in H' as (_ & _ & H').
  destruct (GetMedianTimePast m prev) as [median|] eqn:Em; [|done]. cbn [lift rbind] in H'.
  apply rbind_ok in H' as (_ & Hold%require_ok & H'). apply rbind_ok in H' as (_ & Hnew%require_ok & H').
  apply require_ok in H'. unfold DeploymentActiveAfter, DeploymentHeight in H'.
  exists c, median. assert (req = h_nBits block) as -> by lia. split_and!; try done; lia.
Qed.

Lemma add_new_header st block :
  headers_inv st → in_u 32 (h_nBits block) →
  m_block_index (m_blockman st) !! GetHash block = None →
  (∀ c, m_block_index (m_blockman st) !! h_hashPrevBlock block = Some c →
    CheckProofOfWork (GetHash block) (h_nBits block) params = true) →
  (∃ now u, ContextualCheckBlockHeader params checkpoints_enabled checkpoints (m_block_index (m_blockman st)) block (h_hashPrevBlock block) now = Ok u) →
  ∃ bm, AddToBlockIndex GetHash (m_blockman st) block = Ok (bm, GetHash block) ∧
    headers_inv (set_blockman st bm) ∧ is_Some (m_block_index bm !! GetHash block) ∧
    m_block_index (m_blockman st) ⊆ m_block_index bm.
Proof.
  intros [H1 [g Hg] H3] Hbits Hnew Hpow (now & u & Hctx).
  destruct (ContextualCheckBlockHeader_ok _ _ _ _ _ Hctx) as (c & t & Hc & Hw & Ht & Htt & V1 & V2 & V3).
  assert (GetHash block ≠ h_hashPrevBlock block) as Hne by congruence.
  destruct (AddToBlockIndex_wf GetHash (m_blockman st) block H1 Hbits Hne) as (bm & Hadd & Hwf & Hsub & Hin).
  destruct (AddToBlockIndex_spec GetHash (m_blockman st) block H1 Hbits Hne Hnew)
    as (b & bh & Hadd2 & _ & _ & Hpp & (E1 & E2 & E3 & E4 & E5) & _).
  exists bm. assert (m_block_index (m_blockman st) ⊆ m_block_index bm) as Hs.
  { apply map_subseteq_spec. apply Hsub. }
  split_and!; [done| |done|done]. rewrite Hadd in Hadd2. injection Hadd2 as ->.
  split; cbn [m_blockman set_blockman] in *; [done|eauto|].
  pose proof (ext_grows _ _ (ext_subseteq _ _ Hs)) as Hext.
  intros p b' Hp. cbn [m_block_index] in Hp. apply lookup_insert_Some in Hp as [[<- <-]|[_ Hp]].
  - right. unfold parent_ptr in Hpp. rewrite Hc in Hpp. cbn in Hpp.
    exists (h_hashPrevBlock block), c, t. rewrite E1, E2, E3, E4, E5.
    split_and!; try done; [by apply Hsub|by destruct block|by apply (Hpow c)| | |lia].
    + by apply (GetNextWorkRequired_grows _ _ Hext).
    + by apply (GetMedianTimePast_grows _ _ Hext).
  - destruct (H3 p b' Hp) as [?|Hv]; [by left|right]. by eapply header_valid_grows.
Qed.

Lemma check_new_header_inv st block now r st' :
  headers_inv st → check_new_header GetHash params checkpoints_enabled checkpoints st block now = (r, st') →
  headers_inv st' ∧ ext (m_block_index (m_blockman st)) (m_block_index (m_blockman st')) ∧
  (∀ v, r = Ok v → st' = st ∧ CheckProofOfWork (GetHash block) (h_nBits block) params = true ∧
    ∃ u, ContextualCheckBlockHeader params checkpoints_enabled checkpoints (m_block_index (m_blockman st)) block
           (h_hashPrevBlock block) now = Ok u).
Proof.
  intros Hi. pose proof (ext_refl (m_block_index (m_blockman st))) as Hr. unfold check_new_header.
  destruct (CheckBlockHeader GetHash params block true) as [u|] eqn:Ech; [|by intros [= <- <-]].
  assert (CheckProofOfWork (GetHash block) (h_nBits block) params = true) as Hpow.
  { unfold CheckBlockHeader in Ech. apply require_ok in Ech. by destruct (CheckProofOfWork _ _ _). }
  destruct (_ !! _) as [c|]; [|by intros [= <- <-]]. destruct (negb _); [by intros [= <- <-]|].
  destruct (ContextualCheckBlockHeader _ _ _ _ _ _ _) as [u'|] eqn:Ec; [|by intros [= <- <-]].
  destruct (IsValid _ _) as [[]|]; [intros [= <- <-]; by eauto 10| |by intros [= <- <-]].
  destruct (failed_loop _ _ _) as [[bm|]|] eqn:Ef; [|intros [= <- <-]; by eauto 10|by intros [= <- <-]].
  intros [= <- <-]. destruct (failed_loop_same _ _ _ _ Ef) as [Hs ?].
  split_and!; [by apply headers_inv_same|apply Hs|done].
Qed.

Lemma AcceptBlockHeader_inv st block min_pow now r st' :
  headers_inv st → in_u 32 (h_nBits block) →
  AcceptBlockHeader GetHash params checkpoints_enabled checkpoints st block min_pow now = (r, st') →
  headers_inv st' ∧ ext (m_block_index (m_blockman st)) (m_block_index (m_blockman st')) ∧
  (∀ p, r = Ok p → p = GetHash block ∧ is_Some (m_block_index (m_blockman st') !! p)).
Proof.
  intros Hi Hbits. pose proof (ext_refl (m_block_index (m_blockman st))) as Hr.
  unfold AcceptBlockHeader. case_bool_decide as Hg; cbn [negb].
  - destruct min_pow; cbn [negb]; [|by intros [= <- <-]]. unfold AddToBlockIndex. rewrite Hg.
    destruct (hi_genesis st Hi) as [g Eg]. rewrite Eg. intros [= <- <-].
    replace (set_blockman st (m_blockman st)) with st by by destruct st.
    split_and!; [done|done|]. intros p [= <-]. rewrite Eg. eauto.
  - destruct (m_block_index (m_blockman st) !! GetHash block) as [b|] eqn:Ek.
    { destruct (negb _); intros [= <- <-]; [done|]. split_and!; [done|done|]. intros p [= <-]. rewrite Ek. eauto. }
    destruct (check_new_header _ _ _ _ _ _ _) as [v st1] eqn:Ec.
    destruct (check_new_header_inv _ _ _ _ _ Hi Ec) as (Hi1 & He1 & Hok).
    destruct v as [v|]; [|by intros [= <- <-]]. destruct (Hok v eq_refl) as (-> & Hpow & u & Hctx).
    destruct min_pow; cbn [negb]; [|by intros [= <- <-]].
    destruct (add_new_header st block Hi Hbits Ek) as (bm & -> & Hi2 & Hin & Hsub); [done|by exists now, u|].
    intros [= <- <-]. split_and!; [done|by apply ext_subseteq|]. by intros p [= <-].
Qed.

Lemma ProcessNewBlockHeaders_inv st headers min_pow now pp r st' :
  headers_inv st → Forall (fun h => in_u 32 (h_nBits h)) headers →
  ProcessNewBlockHeaders GetHash params checkpoints_enabled checkpoints st headers min_pow now pp = (r, st') →
  headers_inv st' ∧ ext (m_block_index (m_blockman st)) (m_block_index (m_blockman st')) ∧
  (∀ p, r = Ok p → Forall (fun h => is_Some (m_block_index (m_blockman st') !! GetHash h)) headers).
Proof.
  revert st pp. induction headers as [|h l IH]; intros st pp Hi Hb; cbn [ProcessNewBlockHeaders].
  { intros [= <- <-]. split_and!; [done|apply ext_refl|constructor]. }
  apply list.Forall_cons in Hb as [Hb Hl].
  destruct (AcceptBlockHeader _ _ _ _ st h min_pow now) as [v st1] eqn:E.
  destruct (AcceptBlockHeader_inv _ _ _ _ _ _ Hi Hb E) as (Hi1 & He1 & Hok).
  destruct v as [p|]; [|by intros [= <- <-]]. destruct (Hok p eq_refl) as [-> [b Hin]].
  intros H'. destruct (IH _ _ Hi1 Hl H') as (Hi2 & He2 & Hall).
  split_and!; [done|by eapply ext_trans|]. intros q Hq. constructor; [|by eapply Hall].
  destruct (He2 _ _ Hin) as (b' & -> & _). eauto.
Qed.
End Accept.
End HeadersFacts.

Module HeadersProps.
Import Arith256.BaseUintFacts ChainFacts Headers HeadersFacts.

(** C11: Processing headers keeps the header tree valid, whether or not they
    are accepted: the tree stays well formed, and each entry but the genesis
    has a header that hashes to its key, meets its target, carries the
    difficulty the retargeting rule asks for, a timestamp above the median of
    its ancestors and a current version.  Entries are never removed, only
    their status changes, and accepted headers are in the tree. *)
Theorem headers_stay_valid (GetHash : CBlockHeader → uint256) (params : Params) (checkpoints_enabled : bool)
    (checkpoints : list (Z * uint256)) (st st' : ChainstateManager) (headers : list CBlockHeader)
    (min_pow_checked : bool) (now : Z) (r : result header_error (option uint256)) :
  headers_inv GetHash params st → Forall (fun h => in_u 32 (h_nBits h)) headers →
  ProcessNewBlockHeaders GetHash params checkpoints_enabled checkpoints st headers min_pow_checked now None = (r, st') →
  headers_inv GetHash params st' ∧
  ext (m_block_index (m_blockman st)) (m_block_index (m_blockman st')) ∧
  (∀ p, r = Ok p → Forall (fun h => is_Some (m_block_index (m_blockman st') !! GetHash h)) headers).
Proof. apply ProcessNewBlockHeaders_inv. Qed.

(** A tree of one block and a header on top of it, under a toy hash that reads
    the nonce. *)
Definition demo_hash (h : CBlockHeader) : uint256 := digits_of 8 32 (h_nNonce h).
Definition demo_genesis : CBlockHeader := mkHeader 4 (replicate 32 0) (replicate 32 1) 1778351316 0x1f00ffff 7.
Definition demo_next : CBlockHeader := mkHeader 4 (demo_hash demo_genesis) (replicate 32 2) 1778351916 0x1f00ffff 9.
Definition demo_params : Params := CMainParams (demo_hash demo_genesis).
Definition empty_manager : BlockManager := mkBlockManager ∅ None ∅.
Definition demo_manager : BlockManager :=
  match AddToBlockIndex demo_hash empty_manager demo_genesis with Ok (bm, _) => bm | Err _ => empty_manager end.
Definition demo_state : ChainstateManager := mkManager demo_manager [].

Lemma demo_state_inv : headers_inv demo_hash demo_params demo_state.
Proof.
  assert (wf_manager empty_manager) as He.
  { constructor; cbn [m_block_index best_header empty_manager]; [intros ? ? H|intros ? ? H|done];
      by rewrite lookup_empty in H. }
  destruct (AddToBlockIndex_wf demo_hash empty_manager demo_genesis He) as (bm & E & Hwf & _ & Hin);
    [unfold in_u; cbn; lia|discriminate|].
  assert (demo_manager = bm) as Ebm by (unfold demo_manager; by rewrite E).
  split; cbn [m_blockman demo_state]; rewrite ?Ebm; [done|done|].
  rewrite <- Ebm. intros p b Hp. left.
  assert (m_block_index demo_manager = {[ demo_hash demo_genesis :=
    default (index_of_header demo_genesis) (m_block_index demo_manager !! demo_hash demo_genesis) ]}) as Em
    by (vm_compute; reflexivity).
  rewrite Em in Hp. by apply lookup_singleton_Some in Hp as [<- _].
Qed.

Lemma headers_stay_valid_witness :
  let res := ProcessNewBlockHeaders demo_hash demo_params false [] demo_state [demo_next] true 1778351916 None in
  res.1 = Ok (Some (demo_hash demo_next)) ∧ headers_inv demo_hash demo_params res.2.
Proof.
  intros res. split; [vm_compute; reflexivity|].
  apply (headers_stay_valid demo_hash demo_params false [] demo_state res.2 [demo_next] true 1778351916 res.1);
    [exact demo_state_inv|apply list.Forall_singleton; unfold in_u; cbn; lia|apply surjective_pairing].
Defined.

End HeadersProps.
