(* ===== verification/Serialize.v ===== *)
(** Serialization: [src/serialize.h].

    A stream is the list of bytes still to be read; writing appends to the
    output, so [Ser] returns the bytes written and [Unser] consumes a prefix of
    its input.  [std::ios_base::failure] is a value of [ser_error].

    The class [Serializable] is the pair of overloads [Serialize] /
    [Unserialize] of a type, and [SerLaws] the contract every client relies
    on: what is written is read back, and only canonical encodings are
    accepted, so that a byte string determines the value and vice versa. *)
From Stdlib Require Import ZArith Lia.
From S2P Require Import Prelude.
Local Open Scope bb_scope.

Module Serialize.

Inductive ser_error : Type :=
| EndOfData
| NonCanonicalCompactSize
| CompactSizeTooLarge
| VarIntTooLarge
| SuperfluousWitness
| UnknownTxOptionalData
| BlockLoopBound.

Definition MAX_SIZE : Z := 0x02000000.

Abbreviation stream := (list Z).
Abbreviation parser A := (stream → result ser_error (A * stream)).

(** [s.read(Span{p, n})]. *)
Definition read (n : nat) (s : stream) : result ser_error (list Z * stream) :=
  if (n <=? length s)%nat then Ok (take n s, drop n s) else Err EndOfData.

(** [ser_writedata8] .. [ser_writedata64] and the readers, by byte count. *)
Definition ser_writedata (n : nat) (obj : Z) : list Z :=
  le_encode n (wrap (8 * Z.of_nat n) obj).
Definition ser_readdata (n : nat) : parser Z := fun s =>
  let! (b, s) := read n s in Ok (le_decode b, s).

Abbreviation ser_writedata8 := (ser_writedata 1).
Abbreviation ser_writedata16 := (ser_writedata 2).
Abbreviation ser_writedata32 := (ser_writedata 4).
Abbreviation ser_writedata64 := (ser_writedata 8).
Abbreviation ser_readdata8 := (ser_readdata 1).
Abbreviation ser_readdata16 := (ser_readdata 2).
Abbreviation ser_readdata32 := (ser_readdata 4).
Abbreviation ser_readdata64 := (ser_readdata 8).

(** Signed integers travel as their two's complement. *)
Definition ser_signed (n : nat) (z : Z) : list Z := ser_writedata n z.
Definition unser_signed (n : nat) : parser Z := fun s =>
  let! (z, s) := ser_readdata n s in Ok (swrap (8 * Z.of_nat n) z, s).

(** ** Compact size *)

Definition GetSizeOfCompactSize (nSize : Z) : Z :=
  if nSize <? 253 then 1
  else if nSize <=? 0xffff then 1 + 2
  else if nSize <=? 0xffffffff then 1 + 4
  else 1 + 8.

Definition WriteCompactSize (nSize : Z) : list Z :=
  if nSize <? 253 then ser_writedata8 nSize
  else if nSize <=? 0xffff then ser_writedata8 253 ++ ser_writedata16 nSize
  else if nSize <=? 0xffffffff then ser_writedata8 254 ++ ser_writedata32 nSize
  else ser_writedata8 255 ++ ser_writedata64 nSize.

Definition ReadCompactSize (range_check : bool) : parser Z := fun s =>
  let! (chSize, s) := ser_readdata8 s in
  let! (nSizeRet, s) :=
    if chSize <? 253 then Ok (chSize, s)
    else if chSize =? 253 then
      let! (n, s) := ser_readdata16 s in
      let! _ := require (negb (n <? 253)) NonCanonicalCompactSize in Ok (n, s)
    else if chSize =? 254 then
      let! (n, s) := ser_readdata32 s in
      let! _ := require (negb (n <? 0x10000)) NonCanonicalCompactSize in Ok (n, s)
    else
      let! (n, s) := ser_readdata64 s in
      let! _ := require (negb (n <? 0x100000000)) NonCanonicalCompactSize in Ok (n, s) in
  let! _ := require (negb (range_check && (nSizeRet >? MAX_SIZE))) CompactSizeTooLarge in
  Ok (nSizeRet, s).

(** ** VarInt, for an unsigned type of [w] bits (mode [DEFAULT]) *)

Section VarInt.
Context (w : Z).

(** Size of the array [tmp]: [(sizeof(n)*8+6)/7] bytes. *)
Definition varint_len : nat := Z.to_nat ((w + 6) / 7).

Fixpoint size_varint_loop (fuel : nat) (n nRet : Z) : Z :=
  match fuel with
  | O => nRet
  | S fuel =>
      let nRet := nRet + 1 in
      if n <=? 0x7F then nRet
      else size_varint_loop fuel (wrap w (Z.shiftr n 7 - 1)) nRet
  end.

Definition GetSizeOfVarInt (n : Z) : Z := size_varint_loop varint_len n 0.

(** The first loop of [WriteVarInt]; [tmp] grows at its end, [len] is its
    length, and [None] is a write past the end of the array. *)
Fixpoint write_varint_loop (fuel : nat) (n : Z) (tmp : list Z) : option (list Z) :=
  match fuel with
  | O => None
  | S fuel =>
      let len := length tmp in
      let tmp := tmp ++ [Z.lor (Z.land n 0x7F) (if (len =? 0)%nat then 0x00 else 0x80)] in
      if n <=? 0x7F then Some tmp
      else write_varint_loop fuel (wrap w (Z.shiftr n 7 - 1)) tmp
  end.

(** The second loop writes [tmp\[len\]] down to [tmp\[0\]]. *)
Definition WriteVarInt (n : Z) : option (list Z) :=
  tmp ← write_varint_loop varint_len n []; Some (rev tmp).

Definition numeric_max : Z := 2 ^ w - 1.

(** Every iteration consumes a byte of the stream. *)
Fixpoint read_varint_loop (n : Z) (s : stream) : result ser_error (Z * stream) :=
  match s with
  | [] => Err EndOfData
  | chData :: s =>
      if n >? Z.shiftr numeric_max 7 then Err VarIntTooLarge
      else
        let n := Z.lor (wrap w (Z.shiftl n 7)) (Z.land chData 0x7F) in
        if negb (Z.land chData 0x80 =? 0) then
          if n =? numeric_max then Err VarIntTooLarge
          else read_varint_loop (wrap w (n + 1)) s
        else Ok (n, s)
  end.

Definition ReadVarInt : parser Z := read_varint_loop 0.
End VarInt.

(** ** Byte vectors, strings and vectors of serializable elements *)

(** [prevector<N, unsigned char>] and [vector<unsigned char>]. *)
Definition ser_bytes (v : list Z) : list Z := WriteCompactSize (Z.of_nat (length v)) ++ v.

(** The source reads in blocks of at most 5,000,000 bytes.  At most
    [MAX_SIZE / 5000000 + 1 = 7] rounds are needed. *)
Definition max_block : Z := 1 + 4999999.

Fixpoint read_blocks (fuel : nat) (i nSize : Z) (v : list Z) (s : stream)
    : result ser_error (list Z * stream) :=
  match fuel with
  | O => if i <? nSize then Err BlockLoopBound else Ok (v, s)
  | S fuel =>
      if i <? nSize then
        let blk := Z.min (nSize - i) max_block in
        let! (b, s) := read (Z.to_nat blk) s in
        read_blocks fuel (i + blk) nSize (v ++ b) s
      else Ok (v, s)
  end.

Definition unser_bytes : parser (list Z) := fun s =>
  let! (nSize, s) := ReadCompactSize true s in
  read_blocks 7 0 (u32 nSize) [] s.

Section Vector.
Context {A : Type} (ser : A → list Z) (unser : parser A).

Definition ser_vector (v : list A) : list Z :=
  WriteCompactSize (Z.of_nat (length v)) ++ concat (map ser v).

(** [VectorFormatter::Unser]: the batches of its outer loop only bound the
    memory reserved ahead of the data; elements are read one by one. *)
Fixpoint read_elems (n : nat) (s : stream) : result ser_error (list A * stream) :=
  match n with
  | O => Ok ([], s)
  | S n =>
      let! (a, s) := unser s in
      let! (l, s) := read_elems n s in
      Ok (a :: l, s)
  end.

Definition unser_vector : parser (list A) := fun s =>
  let! (size, s) := ReadCompactSize true s in
  read_elems (Z.to_nat size) s.
End Vector.

End Serialize.

(** * The serialization contract *)

(** [ok] delimits the values the format can represent. *)
Record codec {A} (ser : A → list Z) (unser : Serialize.parser A) (ok : A → Prop) : Prop := {
  codec_bytes : ∀ a, ok a → bytes_ok (ser a);
  codec_read : ∀ a s, ok a → unser (ser a ++ s) = Ok (a, s);
  codec_inv : ∀ b a s, bytes_ok b → unser b = Ok (a, s) → ok a ∧ b = ser a ++ s;
}.
Arguments codec_bytes {A ser unser ok}.
Arguments codec_read {A ser unser ok}.
Arguments codec_inv {A ser unser ok}.

(** The [Serialize]/[Unserialize] overloads of a type, and their contract. *)
Class Serializable (A : Type) := {
  Ser : A → list Z;
  Unser : Serialize.parser A;
}.

Class SerLaws (A : Type) {HS : Serializable A} (ser_ok : A → Prop) : Prop :=
  ser_codec : codec Ser Unser ser_ok.

Module SerializeFacts.
Import Serialize.

Lemma bytes_ok_app a b : bytes_ok (a ++ b) ↔ bytes_ok a ∧ bytes_ok b.
Proof. apply Forall_app. Qed.

Lemma read_app n b s : length b = n → read n (b ++ s) = Ok (b, s).
Proof.
  intros <-. unfold read. rewrite length_app.
  replace (_ <=? _)%nat with true by (symmetry; apply Nat.leb_le; lia).
  by rewrite take_app_length, drop_app_length.
Qed.

Lemma read_inv n b v s : read n b = Ok (v, s) → b = v ++ s ∧ length v = n.
Proof.
  unfold read. destruct (n <=? length b)%nat eqn:E; intros [= <- <-].
  apply Nat.leb_le in E. rewrite take_drop, length_take. split; [done|lia].
Qed.

(** A codec never reads more than it is given. *)
Lemma codec_rest {A} {ser : A → list Z} {unser ok} (C : codec ser unser ok) b a s :
  bytes_ok b → unser b = Ok (a, s) → bytes_ok s.
Proof. intros Hb E. destruct (codec_inv C _ _ _ Hb E) as [_ ->]. by apply bytes_ok_app in Hb as [_ ?]. Qed.

(** Invert the first reader of a parser: [E] is its successful run on the byte
    string of [Hb], [C] the contract of the reader. *)
Ltac inv_read C E Hb :=
  let a := fresh "a" in let s := fresh "s" in let E1 := fresh "E1" in
  let Hs := fresh "Hs" in let Ha := fresh "Ha" in
  apply rbind_ok in E as ([a s] & E1 & E);
  pose proof (codec_rest C _ _ _ Hb E1) as Hs;
  destruct (codec_inv C _ _ _ Hb E1) as [Ha ->];
  clear Hb E1; rename Hs into Hb.

Lemma codec_fixed n : codec (ser_writedata n) (ser_readdata n) (in_u (8 * Z.of_nat n)).
Proof.
  split.
  - intros a _. apply le_encode_bytes.
  - intros a s Ha. unfold ser_writedata, ser_readdata.
    rewrite read_app by apply le_encode_length. simpl.
    by rewrite le_decode_encode, wrap_small by auto with bb zarith.
  - intros b a s Hb. unfold ser_readdata, ser_writedata. intros E.
    apply rbind_ok in E as ([v s'] & E & [= <- <-]).
    apply read_inv in E as [-> Hl]. apply bytes_ok_app in Hb as [Hv _].
    assert (in_u (8 * Z.of_nat n) (le_decode v)) as Hr.
    { rewrite <- Hl. apply digits_val_range; [lia|done]. }
    split; [done|]. rewrite wrap_small by done. by rewrite <- Hl, le_encode_decode.
Qed.

Lemma codec_signed n : (0 < n)%nat → codec (ser_signed n) (unser_signed n) (in_s (8 * Z.of_nat n)).
Proof.
  intros Hn. pose proof (codec_fixed n) as C.
  assert (∀ a, ser_signed n a = ser_writedata n (wrap (8 * Z.of_nat n) a)) as Es.
  { intros a. unfold ser_signed, ser_writedata. by rewrite (wrap_small _ (wrap _ _)) by auto with bb zarith. }
  split.
  - intros a _. apply le_encode_bytes.
  - intros a s Ha. unfold unser_signed. rewrite Es, (codec_read C) by auto with bb zarith. simpl.
    f_equal. f_equal. unfold wrap. rewrite <- (swrap_small (8 * Z.of_nat n) a) at 2 by (done || lia).
    unfold swrap. by rewrite Zplus_mod_idemp_l.
  - intros b a s Hb E. apply rbind_ok in E as ([z s'] & E & [= <- <-]).
    destruct (codec_inv C _ _ _ Hb E) as [Hz ->]. split; [apply swrap_range; lia|].
    rewrite (Es (swrap _ z)). unfold wrap. rewrite swrap_mod by lia. by rewrite Z.mod_small.
Qed.

Definition compact_ok (range_check : bool) (n : Z) : Prop :=
  in_u 64 n ∧ (range_check = true → n <= MAX_SIZE).

Lemma codec_u8 : codec ser_writedata8 ser_readdata8 (in_u 8).
Proof. exact (codec_fixed 1). Qed.
Lemma codec_u16 : codec ser_writedata16 ser_readdata16 (in_u 16).
Proof. exact (codec_fixed 2). Qed.
Lemma codec_u32 : codec ser_writedata32 ser_readdata32 (in_u 32).
Proof. exact (codec_fixed 4). Qed.
Lemma codec_u64 : codec ser_writedata64 ser_readdata64 (in_u 64).
Proof. exact (codec_fixed 8). Qed.

Lemma ReadCompactSize_write rc n s :
  compact_ok rc n → ReadCompactSize rc (WriteCompactSize n ++ s) = Ok (n, s).
Proof.
  intros [Ha Hm]. unfold WriteCompactSize, ReadCompactSize, in_u in *.
  assert (require (negb (rc && (n >? MAX_SIZE))) CompactSizeTooLarge = Ok tt) as Hrc.
  { apply require_ok. destruct rc; [specialize (Hm eq_refl)|]; simpl; lia. }
  repeat split_if; rewrite <- ?app_assoc, (codec_read codec_u8) by (unfold in_u; lia); cbn [rbind].
  - replace (n <? 253) with true by lia. cbn [rbind]. by rewrite Hrc.
  - replace (253 <? 253) with false by done. cbn [rbind Z.eqb Pos.eqb].
    rewrite (codec_read codec_u16) by (unfold in_u; lia). cbn [rbind].
    replace (n <? 253) with false by lia. change (require (negb false) _) with (@Ok ser_error _ tt). cbn [rbind]. by rewrite Hrc.
  - replace (254 <? 253) with false by done. cbn [rbind Z.eqb Pos.eqb].
    rewrite (codec_read codec_u32) by (unfold in_u; lia). cbn [rbind].
    replace (n <? 0x10000) with false by lia. change (require (negb false) _) with (@Ok ser_error _ tt). cbn [rbind]. by rewrite Hrc.
  - replace (255 <? 253) with false by done. cbn [rbind Z.eqb Pos.eqb].
    rewrite (codec_read codec_u64) by (unfold in_u; lia). cbn [rbind].
    replace (n <? 0x100000000) with false by lia. change (require (negb false) _) with (@Ok ser_error _ tt). cbn [rbind]. by rewrite Hrc.
Qed.

Lemma ReadCompactSize_inv rc b n s :
  bytes_ok b → ReadCompactSize rc b = Ok (n, s) → compact_ok rc n ∧ b = WriteCompactSize n ++ s.
Proof.
  intros Hb E. unfold ReadCompactSize in E.
  apply rbind_ok in E as ([c s1] & E1 & E).
  pose proof (codec_rest codec_u8 _ _ _ Hb E1) as Hs1.
  destruct (codec_inv codec_u8 _ _ _ Hb E1) as [Hc ->].
  apply rbind_ok in E as ([n' s2] & E2 & E).
  apply rbind_ok in E as (u & E3 & [= -> ->]). apply require_ok in E3.
  assert (rc = true → n <= MAX_SIZE) as Hm.
  { intros ->. simpl in E3. lia. }
  assert (in_u 64 n ∧ ser_writedata8 c ++ s1 = WriteCompactSize n ++ s) as [? ->]; [|done].
  clear E1 E3 Hm Hb. unfold WriteCompactSize, in_u in *.
  destruct (c <? 253) eqn:Ec.
  { injection E2 as <- <-. rewrite Ec. split; [lia|done]. }
  destruct (c =? 253) eqn:Ec2; [|destruct (c =? 254) eqn:Ec3];
    apply rbind_ok in E2 as ([m s3] & E2 & E4); apply rbind_ok in E4 as (u' & E4 & [= -> ->]);
    apply require_ok in E4; to_prop.
  - destruct (codec_inv codec_u16 _ _ _ Hs1 E2) as [Hn ->]. unfold in_u in Hn. subst c.
    replace (n <? 253) with false by lia. replace (n <=? 65535) with true by lia.
    by rewrite <- app_assoc; split; [lia|].
  - destruct (codec_inv codec_u32 _ _ _ Hs1 E2) as [Hn ->]. unfold in_u in Hn. subst c.
    replace (n <? 253) with false by lia. replace (n <=? 65535) with false by lia.
    replace (n <=? 4294967295) with true by lia. by rewrite <- app_assoc; split; [lia|].
  - destruct (codec_inv codec_u64 _ _ _ Hs1 E2) as [Hn ->]. unfold in_u in Hn.
    replace c with 255 by lia.
    replace (n <? 253) with false by lia. replace (n <=? 65535) with false by lia.
    replace (n <=? 4294967295) with false by lia. by rewrite <- app_assoc; split; [lia|].
Qed.

Lemma codec_compact rc : codec WriteCompactSize (ReadCompactSize rc) (compact_ok rc).
Proof.
  split; [|apply ReadCompactSize_write|apply ReadCompactSize_inv].
  intros a _. unfold WriteCompactSize. repeat split_if;
    rewrite ?bytes_ok_app; repeat split; apply le_encode_bytes.
Qed.

Lemma WriteCompactSize_length n : Z.of_nat (length (WriteCompactSize n)) = GetSizeOfCompactSize n.
Proof.
  unfold WriteCompactSize, GetSizeOfCompactSize, ser_writedata.
  repeat split_if; by rewrite ?length_app, !le_encode_length.
Qed.

(** ** VarInt *)

(** The byte the encoder emits for [n], and the whole encoding, lowest group
    first. *)
Definition venc_byte (first : bool) (n : Z) : Z := n mod 128 + if first then 0 else 128.

Inductive venc : bool → Z → list Z → Prop :=
| venc_stop first n : 0 <= n < 128 → venc first n [venc_byte first n]
| venc_step first n l :
    128 <= n → venc false (n / 128 - 1) l → venc first n (venc_byte first n :: l).

Lemma venc_byte_bits (first : bool) n :
  Z.lor (Z.land n 0x7F) (if first then 0x00 else 0x80) = venc_byte first n.
Proof.
  replace 0x7F with (2 ^ 7 - 1) by done. rewrite land_ones_mod by lia.
  unfold venc_byte. destruct first; [by rewrite Z.lor_0_r, Z.add_0_r|].
  replace 0x80 with (Z.shiftl 1 7) at 1 by done. rewrite lor_add_shiftl by (unfold in_u; zdm || lia). done.
Qed.

Lemma venc_byte_range first n : in_u 8 (venc_byte first n).
Proof. unfold venc_byte, in_u. destruct first; zdm. Qed.

Lemma venc_bytes first n l : venc first n l → bytes_ok l.
Proof. induction 1; repeat constructor; eauto; apply venc_byte_range. Qed.

Lemma venc_det first n l1 l2 : venc first n l1 → venc first n l2 → l1 = l2.
Proof.
  intros H. revert l2. induction H as [|first n l Hn H IH]; inversion 1; subst; try lia; [done|].
  f_equal. auto.
Qed.

Section VarIntFacts.
Context (w : Z) (Hw : 7 < w).

Lemma varint_next n : in_u w n → 128 <= n → wrap w (Z.shiftr n 7 - 1) = n / 128 - 1.
Proof.
  intros [? ?] ?. rewrite Z.shiftr_div_pow2 by lia. change (2 ^ 7) with 128.
  apply wrap_small. split; zdm.
Qed.

Lemma varint_next_range n : in_u w n → 128 <= n → in_u w (n / 128 - 1).
Proof. intros [? ?] ?. split; zdm. Qed.

Lemma write_varint_loop_spec fuel n tmp :
  in_u w n → (0 < fuel)%nat → n < 2 ^ (7 * Z.of_nat fuel) →
  ∃ l, venc (length tmp =? 0)%nat n l ∧ write_varint_loop w fuel n tmp = Some (tmp ++ l) ∧
       (length l <= fuel)%nat ∧
       ∀ r, size_varint_loop w fuel n r = r + Z.of_nat (length l).
Proof.
  revert n tmp. induction fuel as [|fuel IH]; intros n tmp Hn Hf Hb; [lia|].
  cbn [write_varint_loop size_varint_loop]. rewrite venc_byte_bits.
  destruct (n <=? 0x7F) eqn:E; to_prop.
  { eexists. split; [apply venc_stop; unfold in_u in Hn; lia|]. simpl. repeat split; intros; lia. }
  rewrite varint_next by (done || lia).
  rewrite Nat2Z.inj_succ, Z.mul_succ_r, Z.pow_add_r in Hb by lia.
  assert (0 < fuel)%nat.
  { destruct fuel; [|lia]. simpl in Hb. lia. }
  destruct (IH (n / 128 - 1) (tmp ++ [venc_byte (length tmp =? 0)%nat n])) as (l & Hl & -> & Hlen & Hsz).
  { apply varint_next_range; [done|lia]. }
  { done. }
  { change (2 ^ 7) with 128 in Hb. zdm. }
  exists (venc_byte (length tmp =? 0)%nat n :: l). repeat split.
  - apply venc_step; [lia|]. replace false with (length (tmp ++ [venc_byte (length tmp =? 0)%nat n]) =? 0)%nat; [done|].
    rewrite length_app. simpl. apply Nat.eqb_neq. lia.
  - by rewrite <- app_assoc.
  - simpl. lia.
  - intros r. rewrite Hsz. simpl. lia.
Qed.

Lemma WriteVarInt_spec n :
  in_u w n → ∃ l, venc true n l ∧ WriteVarInt w n = Some (rev l) ∧
                  (length l <= varint_len w)%nat ∧ GetSizeOfVarInt w n = Z.of_nat (length l).
Proof.
  intros Hn. destruct (write_varint_loop_spec (varint_len w) n []) as (l & Hl & E & Hlen & Hsz).
  - done.
  - unfold varint_len. zdm.
  - destruct Hn as [_ Hn]. eapply Z.lt_le_trans; [done|].
    apply Z.pow_le_mono_r; unfold varint_len; zdm.
  - exists l. unfold WriteVarInt, GetSizeOfVarInt. rewrite E. simpl. by rewrite Hsz.
Qed.

(** What the reader has consumed when its accumulator is [m]. *)
Definition varint_prefix (m : Z) (q : list Z) : Prop :=
  m = 0 ∧ q = [] ∨ 1 <= m ∧ venc false (m - 1) (rev q).

Lemma varint_prefix_venc first n q :
  0 <= n → varint_prefix (n / 128) q → venc first n (venc_byte first n :: rev q).
Proof.
  intros Hn [[E ->]|[E H]].
  - apply venc_stop. zdm.
  - apply venc_step; [zdm|done].
Qed.

(** One step of the reader: the accumulator [m] and the byte [c]. *)
Lemma read_varint_step m c s :
  0 <= m → in_u 8 c →
  read_varint_loop w m (c :: s) =
  if m >? (2 ^ w - 1) / 128 then Err VarIntTooLarge
  else if 128 <=? c then
    if m * 128 + c mod 128 =? 2 ^ w - 1 then Err VarIntTooLarge
    else read_varint_loop w (m * 128 + c mod 128 + 1) s
  else Ok (m * 128 + c mod 128, s).
Proof.
  intros Hm Hc. unfold in_u in Hc. cbn [read_varint_loop]. unfold numeric_max.
  rewrite Z.shiftr_div_pow2 by lia. change (2 ^ 7) with 128.
  destruct (m >? (2 ^ w - 1) / 128) eqn:E; [done|]. to_prop.
  assert (128 * m <= 2 ^ w - 128 ∧ m * 128 < 2 ^ w) as [Hb Hb'].
  { assert (2 ^ w = 2 ^ (w - 7) * 128) as Ew.
    { change 128 with (2 ^ 7). rewrite <- Z.pow_add_r by lia. f_equal. lia. }
    rewrite Ew in *. zdm. }
  rewrite Z.shiftl_mul_pow2, wrap_small by (unfold in_u; lia). change (2 ^ 7) with 128.
  replace 0x7F with (2 ^ 7 - 1) by done. rewrite land_ones_mod by lia. change (2 ^ 7) with 128.
  assert (Z.lor (m * 128) (c mod 128) = m * 128 + c mod 128) as ->.
  { rewrite Z.lor_comm. replace (m * 128) with (Z.shiftl m 7) at 1 by (rewrite Z.shiftl_mul_pow2; lia).
    rewrite lor_add_shiftl by (unfold in_u; zdm). lia. }
  assert ((Z.land c 0x80 =? 0) = (c <? 128)) as ->.
  { apply eqb_prop. revert c Hc. apply seqZ_forallb. vm_compute. done. }
  rewrite Z.leb_antisym. destruct (negb _); [|done].
  destruct (_ =? _) eqn:E2; [done|]. to_prop. by rewrite wrap_small by (unfold in_u; zdm).
Qed.

Lemma venc_byte_parts first n :
  venc_byte first n mod 128 = n mod 128 ∧ (128 <=? venc_byte first n) = negb first.
Proof. unfold venc_byte. destruct first; simpl; zdm. Qed.

Lemma pow_w_128 : 128 < 2 ^ w.
Proof. change 128 with (2 ^ 7). apply Z.pow_lt_mono_r; lia. Qed.

Lemma read_varint_venc first n l s :
  venc first n l → in_u w n → (first = false → n < 2 ^ w - 1) →
  read_varint_loop w 0 (rev l ++ s) =
  if first then Ok (n, s) else read_varint_loop w (n + 1) s.
Proof.
  pose proof pow_w_128 as Hp. intros H. revert s.
  induction H as [first n Hn|first n l Hn H IH]; intros s Hr Hf; simpl rev.
  - simpl app. rewrite read_varint_step by (lia || apply venc_byte_range).
    destruct (venc_byte_parts first n) as [-> ->].
    replace (0 >? _) with false by zdm.
    replace (0 * 128 + n mod 128) with n by zdm.
    destruct first; simpl; [done|]. specialize (Hf eq_refl). by replace (n =? _) with false by lia.
  - rewrite <- app_assoc. unfold in_u in Hr. rewrite IH by (intros; unfold in_u; zdm).
    replace (n / 128 - 1 + 1) with (n / 128) by lia. simpl app.
    rewrite read_varint_step by (zdm || apply venc_byte_range).
    destruct (venc_byte_parts first n) as [-> ->].
    replace (n / 128 >? _) with false by zdm.
    replace (n / 128 * 128 + n mod 128) with n by zdm.
    destruct first; simpl; [done|]. specialize (Hf eq_refl). by replace (n =? _) with false by lia.
Qed.

Lemma read_varint_inv b m q n s :
  bytes_ok b → 0 <= m → varint_prefix m q → read_varint_loop w m b = Ok (n, s) →
  ∃ p, b = p ++ s ∧ venc true n (rev (q ++ p)) ∧ in_u w n.
Proof.
  pose proof pow_w_128 as Hp. intros Hb. revert m q.
  induction Hb as [|c b Hc Hb IH]; intros m q Hm Hq E; [done|].
  rewrite read_varint_step in E by done. unfold in_u in Hc.
  destruct (m >? _) eqn:E1 in E; [done|]. to_prop.
  assert ((m * 128 + c mod 128) / 128 = m) as Ed by zdm.
  assert (m * 128 + c mod 128 < 2 ^ w) as Hlt.
  { assert (2 ^ w = 2 ^ (w - 7) * 128) as Ew.
    { change 128 with (2 ^ 7). rewrite <- Z.pow_add_r by lia. f_equal. lia. }
    rewrite Ew in *. zdm. }
  destruct (128 <=? c) eqn:E2; to_prop.
  - destruct (_ =? _) eqn:E3 in E; [done|]. to_prop.
    apply (IH _ (q ++ [c])) in E as (p & -> & Hv & Hn).
    + exists (c :: p). by rewrite <- app_assoc in Hv.
    + zdm.
    + right. split; [zdm|]. rewrite rev_app_distr. simpl.
      replace (m * 128 + c mod 128 + 1 - 1) with (m * 128 + c mod 128) by lia.
      rewrite <- Ed in Hq. apply (varint_prefix_venc false) in Hq; [|zdm].
      replace c with (venc_byte false (m * 128 + c mod 128)) at 2; [done|].
      unfold venc_byte. zdm.
  - injection E as <- <-. exists [c]. rewrite rev_app_distr. simpl. repeat split; [|zdm|done].
    rewrite <- Ed in Hq. apply (varint_prefix_venc true) in Hq; [|zdm].
    replace c with (venc_byte true (m * 128 + c mod 128)) at 2; [done|].
    unfold venc_byte. zdm.
Qed.

Lemma codec_varint : codec (fun n => default [] (WriteVarInt w n)) (ReadVarInt w) (in_u w).
Proof.
  split.
  - intros n Hn. destruct (WriteVarInt_spec n Hn) as (l & Hl & -> & _). simpl.
    apply Forall_rev. by eapply venc_bytes.
  - intros n s Hn. destruct (WriteVarInt_spec n Hn) as (l & Hl & -> & _). simpl.
    unfold ReadVarInt. by rewrite (read_varint_venc true n) by done.
  - intros b n s Hb E. apply (read_varint_inv b 0 []) in E as (p & -> & Hv & Hn); [|done|lia|by left].
    split; [done|]. destruct (WriteVarInt_spec n Hn) as (l & Hl & -> & _). simpl.
    rewrite (venc_det _ _ _ _ Hl Hv). by rewrite rev_involutive.
Qed.
End VarIntFacts.

(** ** Vectors *)

Lemma read_blocks_spec fuel i nSize v s :
  0 <= i <= nSize → nSize - i <= Z.of_nat fuel * max_block →
  read_blocks fuel i nSize v s =
  (let! (b, s) := read (Z.to_nat (nSize - i)) s in Ok (v ++ b, s))%bb.
Proof.
  revert i v s. induction fuel as [|fuel IH]; intros i v s Hi Hf; cbn [read_blocks];
    destruct (i <? nSize) eqn:E; to_prop.
  - lia.
  - replace (Z.to_nat (nSize - i)) with 0%nat by lia. simpl. by rewrite app_nil_r, drop_0.
  - set (blk := Z.min (nSize - i) max_block) in *.
    assert (0 < blk <= nSize - i) as Hblk by (unfold blk, max_block; lia).
    unfold read at 1. destruct (_ <=? _)%nat eqn:E1.
    + apply Nat.leb_le in E1. simpl. rewrite IH by (unfold blk, max_block in *; lia). unfold read.
      rewrite length_drop.
      replace (Z.to_nat (nSize - (i + blk)) <=? length s - Z.to_nat blk)%nat
        with (Z.to_nat (nSize - i) <=? length s)%nat.
      2:{ apply eq_true_iff_eq. rewrite !Nat.leb_le. lia. }
      destruct (_ <=? _)%nat; simpl; [|done].
      rewrite drop_drop, <- app_assoc, take_take_drop.
      by replace (Z.to_nat blk + Z.to_nat (nSize - (i + blk)))%nat with (Z.to_nat (nSize - i)) by lia.
    + apply Nat.leb_gt in E1. simpl. unfold read.
      by replace (Z.to_nat (nSize - i) <=? length s)%nat with false by (symmetry; apply Nat.leb_gt; lia).
  - replace (Z.to_nat (nSize - i)) with 0%nat by lia. simpl. by rewrite app_nil_r, drop_0.
Qed.

Definition vec_ok {A} (ok : A → Prop) (v : list A) : Prop :=
  Forall ok v ∧ Z.of_nat (length v) <= MAX_SIZE.

Lemma vec_size_ok {A} (v : list A) :
  Z.of_nat (length v) <= MAX_SIZE → compact_ok true (Z.of_nat (length v)).
Proof. unfold compact_ok, in_u, MAX_SIZE. lia. Qed.

Lemma unser_bytes_eq s :
  bytes_ok s →
  unser_bytes s = (let! (n, s) := ReadCompactSize true s in read (Z.to_nat n) s)%bb.
Proof.
  intros Hs. unfold unser_bytes. destruct (ReadCompactSize true s) as [[n s']|] eqn:E; [|done]. cbn [rbind].
  destruct (codec_inv (codec_compact true) _ _ _ Hs E) as [[Hn Hm] _].
  specialize (Hm eq_refl). unfold in_u, MAX_SIZE in *. rewrite wrap_small by (unfold in_u; lia).
  rewrite read_blocks_spec by (unfold max_block; lia).
  rewrite Z.sub_0_r. by destruct (read _ _) as [[b s2]|].
Qed.

Lemma codec_byte_vec : codec ser_bytes unser_bytes (vec_ok (in_u 8)).
Proof.
  pose proof (codec_compact true) as C.
  assert (∀ v, vec_ok (in_u 8) v → bytes_ok (ser_bytes v)) as Hok.
  { intros v [Hv Hl]. apply bytes_ok_app. split; [|done]. by apply (codec_bytes C), vec_size_ok. }
  split; [done| |].
  - intros v s Hv. destruct Hv as [Hv Hl]. unfold unser_bytes, ser_bytes.
    rewrite <- app_assoc, (codec_read C) by by apply vec_size_ok. cbn [rbind].
    unfold MAX_SIZE in Hl. rewrite wrap_small by (unfold in_u; lia).
    rewrite read_blocks_spec by (unfold max_block; lia).
    by rewrite Z.sub_0_r, Nat2Z.id, read_app.
  - intros b v s Hb E. rewrite unser_bytes_eq in E by done.
    apply rbind_ok in E as ([n s'] & E1 & E2). pose proof (codec_rest C _ _ _ Hb E1) as Hs'.
    destruct (codec_inv C _ _ _ Hb E1) as [[Hn Hm] ->].
    apply read_inv in E2 as [-> Hl]. specialize (Hm eq_refl). unfold in_u in Hn.
    assert (Z.of_nat (length v) = n) as Hlen by lia. apply bytes_ok_app in Hs' as [Hv _].
    unfold vec_ok, ser_bytes. rewrite Hlen. split; [split; [done|lia]|]. by rewrite <- app_assoc.
Qed.

Lemma codec_vector {A} (ser : A → list Z) unser ok :
  codec ser unser ok → codec (ser_vector ser) (unser_vector unser) (vec_ok ok).
Proof.
  intros CA. pose proof (codec_compact true) as C. split.
  - intros v [Hv Hl]. apply bytes_ok_app. split; [by apply (codec_bytes C), vec_size_ok|].
    clear Hl. induction Hv as [|a v Ha Hv IH]; simpl; [constructor|].
    apply bytes_ok_app. split; [by apply (codec_bytes CA)|done].
  - intros v s [Hv Hl]. unfold unser_vector, ser_vector.
    rewrite <- app_assoc, (codec_read C) by by apply vec_size_ok. cbn [rbind]. rewrite Nat2Z.id.
    clear Hl. induction Hv as [|a v Ha Hv IH]; simpl; [done|].
    rewrite <- app_assoc, (codec_read CA) by done. cbn [rbind]. by rewrite IH.
  - intros b v s Hb E. apply rbind_ok in E as ([n s'] & E1 & E2).
    pose proof (codec_rest C _ _ _ Hb E1) as Hs'. destruct (codec_inv C _ _ _ Hb E1) as [[Hn Hm] ->].
    specialize (Hm eq_refl). unfold in_u in Hn.
    assert (Forall ok v ∧ length v = Z.to_nat n ∧ s' = concat (map ser v) ++ s) as (Hv & Hl & ->).
    2:{ unfold vec_ok, ser_vector. replace (Z.of_nat (length v)) with n by lia.
        split; [done|]. by rewrite <- app_assoc. }
    clear Hm Hb E1 Hn. revert s' v Hs' E2. induction (Z.to_nat n) as [|k IH]; intros s' v Hs' E.
    { by injection E as <- <-. }
    simpl in E. apply rbind_ok in E as ([a s1] & E1 & E). apply rbind_ok in E as ([l s2] & E2 & [= <- <-]).
    pose proof (codec_rest CA _ _ _ Hs' E1) as Hs1. destruct (codec_inv CA _ _ _ Hs' E1) as [Ha ->].
    destruct (IH _ _ Hs1 E2) as (Hv & Hl & ->). simpl.
    repeat split; [by constructor|by rewrite Hl|by rewrite app_assoc].
Qed.

End SerializeFacts.

Module SerializeProps.
Import Serialize SerializeFacts.

(** [WriteCompactSize] and [ReadCompactSize] are inverse to each other on
    the 64-bit values (up to [MAX_SIZE] under the range check): reading
    undoes writing and leaves the rest of the stream, every accepted input is
    the canonical encoding, and [GetSizeOfCompactSize] is its length. *)
Theorem compact_size_bijection (range_check : bool) :
  codec WriteCompactSize (ReadCompactSize range_check) (compact_ok range_check) ∧
  (∀ n, Z.of_nat (length (WriteCompactSize n)) = GetSizeOfCompactSize n).
Proof. split; [apply codec_compact|apply WriteCompactSize_length]. Qed.

(** [WriteVarInt] stays inside its buffer of [(8*sizeof(n)+6)/7] bytes for
    every value of its type, writes [GetSizeOfVarInt] bytes, and is inverse to
    [ReadVarInt]: a value is read back, and what is read is the only encoding
    of the value. *)
Theorem varint_bijection (w : Z) :
  7 < w →
  (∀ n, in_u w n → ∃ b, WriteVarInt w n = Some b ∧ Z.of_nat (length b) = GetSizeOfVarInt w n ∧
                        (length b <= varint_len w)%nat) ∧
  codec (fun n => default [] (WriteVarInt w n)) (ReadVarInt w) (in_u w).
Proof.
  intros Hw. split; [|by apply codec_varint].
  intros n Hn. destruct (WriteVarInt_spec w Hw n Hn) as (l & _ & E & Hl & Hs).
  exists (rev l). by rewrite length_rev, Hs.
Qed.

Lemma varint_bijection_witness :
  WriteVarInt 64 16511 = Some [0xff; 0x7f] ∧ ReadVarInt 64 [0xff; 0x7f; 7] = Ok (16511, [7]).
Proof.
  destruct (varint_bijection 64 ltac:(lia)) as [_ C]. split; [by vm_compute|].
  exact (codec_read C 16511 [7] ltac:(unfold in_u; lia)).
Defined.

End SerializeProps.
