(* ===== verification/Script.v ===== *)
(** Scripts: [src/script/script.h] and [src/script/script.cpp].

    A [CScript] is its byte list, an iterator into it the bytes still ahead.
    [opcodetype] is an integer, since the code casts every byte of a script to
    it; the names of the enumeration are abbreviations, usable in patterns. *)
From Stdlib Require Import ZArith Lia.
From S2P Require Import Prelude Serialize.
Local Open Scope bb_scope.

(** [enum opcodetype]. *)
Abbreviation OP_0 := 0x00.
Abbreviation OP_FALSE := 0x00.
Abbreviation OP_PUSHDATA1 := 0x4c.
Abbreviation OP_PUSHDATA2 := 0x4d.
Abbreviation OP_PUSHDATA4 := 0x4e.
Abbreviation OP_1NEGATE := 0x4f.
Abbreviation OP_RESERVED := 0x50.
Abbreviation OP_1 := 0x51.
Abbreviation OP_TRUE := 0x51.
Abbreviation OP_2 := 0x52.
Abbreviation OP_3 := 0x53.
Abbreviation OP_4 := 0x54.
Abbreviation OP_5 := 0x55.
Abbreviation OP_6 := 0x56.
Abbreviation OP_7 := 0x57.
Abbreviation OP_8 := 0x58.
Abbreviation OP_9 := 0x59.
Abbreviation OP_10 := 0x5a.
Abbreviation OP_11 := 0x5b.
Abbreviation OP_12 := 0x5c.
Abbreviation OP_13 := 0x5d.
Abbreviation OP_14 := 0x5e.
Abbreviation OP_15 := 0x5f.
Abbreviation OP_16 := 0x60.
Abbreviation OP_NOP := 0x61.
Abbreviation OP_VER := 0x62.
Abbreviation OP_IF := 0x63.
Abbreviation OP_NOTIF := 0x64.
Abbreviation OP_VERIF := 0x65.
Abbreviation OP_VERNOTIF := 0x66.
Abbreviation OP_ELSE := 0x67.
Abbreviation OP_ENDIF := 0x68.
Abbreviation OP_VERIFY := 0x69.
Abbreviation OP_RETURN := 0x6a.
Abbreviation OP_TOALTSTACK := 0x6b.
Abbreviation OP_FROMALTSTACK := 0x6c.
Abbreviation OP_2DROP := 0x6d.
Abbreviation OP_2DUP := 0x6e.
Abbreviation OP_3DUP := 0x6f.
Abbreviation OP_2OVER := 0x70.
Abbreviation OP_2ROT := 0x71.
Abbreviation OP_2SWAP := 0x72.
Abbreviation OP_IFDUP := 0x73.
Abbreviation OP_DEPTH := 0x74.
Abbreviation OP_DROP := 0x75.
Abbreviation OP_DUP := 0x76.
Abbreviation OP_NIP := 0x77.
Abbreviation OP_OVER := 0x78.
Abbreviation OP_PICK := 0x79.
Abbreviation OP_ROLL := 0x7a.
Abbreviation OP_ROT := 0x7b.
Abbreviation OP_SWAP := 0x7c.
Abbreviation OP_TUCK := 0x7d.
Abbreviation OP_CAT := 0x7e.
Abbreviation OP_SUBSTR := 0x7f.
Abbreviation OP_LEFT := 0x80.
Abbreviation OP_RIGHT := 0x81.
Abbreviation OP_SIZE := 0x82.
Abbreviation OP_INVERT := 0x83.
Abbreviation OP_AND := 0x84.
Abbreviation OP_OR := 0x85.
Abbreviation OP_XOR := 0x86.
Abbreviation OP_EQUAL := 0x87.
Abbreviation OP_EQUALVERIFY := 0x88.
Abbreviation OP_RESERVED1 := 0x89.
Abbreviation OP_RESERVED2 := 0x8a.
Abbreviation OP_1ADD := 0x8b.
Abbreviation OP_1SUB := 0x8c.
Abbreviation OP_2MUL := 0x8d.
Abbreviation OP_2DIV := 0x8e.
Abbreviation OP_NEGATE := 0x8f.
Abbreviation OP_ABS := 0x90.
Abbreviation OP_NOT := 0x91.
Abbreviation OP_0NOTEQUAL := 0x92.
Abbreviation OP_ADD := 0x93.
Abbreviation OP_SUB := 0x94.
Abbreviation OP_MUL := 0x95.
Abbreviation OP_DIV := 0x96.
Abbreviation OP_MOD := 0x97.
Abbreviation OP_LSHIFT := 0x98.
Abbreviation OP_RSHIFT := 0x99.
Abbreviation OP_BOOLAND := 0x9a.
Abbreviation OP_BOOLOR := 0x9b.
Abbreviation OP_NUMEQUAL := 0x9c.
Abbreviation OP_NUMEQUALVERIFY := 0x9d.
Abbreviation OP_NUMNOTEQUAL := 0x9e.
Abbreviation OP_LESSTHAN := 0x9f.
Abbreviation OP_GREATERTHAN := 0xa0.
Abbreviation OP_LESSTHANOREQUAL := 0xa1.
Abbreviation OP_GREATERTHANOREQUAL := 0xa2.
Abbreviation OP_MIN := 0xa3.
Abbreviation OP_MAX := 0xa4.
Abbreviation OP_WITHIN := 0xa5.
Abbreviation OP_RIPEMD160 := 0xa6.
Abbreviation OP_SHA1 := 0xa7.
Abbreviation OP_SHA256 := 0xa8.
Abbreviation OP_HASH160 := 0xa9.
Abbreviation OP_HASH256 := 0xaa.
Abbreviation OP_CODESEPARATOR := 0xab.
Abbreviation OP_CHECKSIG := 0xac.
Abbreviation OP_CHECKSIGVERIFY := 0xad.
Abbreviation OP_CHECKMULTISIG := 0xae.
Abbreviation OP_CHECKMULTISIGVERIFY := 0xaf.
Abbreviation OP_NOP1 := 0xb0.
Abbreviation OP_CHECKLOCKTIMEVERIFY := 0xb1.
Abbreviation OP_NOP2 := 0xb1.
Abbreviation OP_CHECKSEQUENCEVERIFY := 0xb2.
Abbreviation OP_NOP3 := 0xb2.
Abbreviation OP_NOP4 := 0xb3.
Abbreviation OP_NOP5 := 0xb4.
Abbreviation OP_NOP6 := 0xb5.
Abbreviation OP_NOP7 := 0xb6.
Abbreviation OP_NOP8 := 0xb7.
Abbreviation OP_NOP9 := 0xb8.
Abbreviation OP_NOP10 := 0xb9.
Abbreviation OP_CHECKSIGADD := 0xba.
Abbreviation OP_INVALIDOPCODE := 0xff.

Module Script.

Abbreviation CScript := (list Z).
Abbreviation valtype := (list Z).

Definition MAX_SCRIPT_ELEMENT_SIZE : Z := 520.
Definition MAX_OPS_PER_SCRIPT : Z := 201.
Definition MAX_PUBKEYS_PER_MULTISIG : Z := 20.
Definition MAX_SCRIPT_SIZE : Z := 10000.
Definition MAX_STACK_SIZE : Z := 1000.
Definition LOCKTIME_THRESHOLD : Z := 500000000.
Definition ANNEX_TAG : Z := 0x50.
Definition VALIDATION_WEIGHT_PER_SIGOP_PASSED : Z := 50.
Definition VALIDATION_WEIGHT_OFFSET : Z := 50.
Definition MAX_OPCODE : Z := OP_NOP10.

Definition size {A} (l : list A) : Z := Z.of_nat (length l).

(** ** Reading instructions *)

(** The size of the immediate operand and the bytes after its length. *)
Definition push_size (opcode : Z) (pc : CScript) : option (Z * CScript) :=
  if opcode <? OP_PUSHDATA1 then Some (opcode, pc)
  else if opcode =? OP_PUSHDATA1 then
    if size pc <? 1 then None else Some (le_decode (take 1 pc), drop 1 pc)
  else if opcode =? OP_PUSHDATA2 then
    if size pc <? 2 then None else Some (le_decode (take 2 pc), drop 2 pc)
  else if opcode =? OP_PUSHDATA4 then
    if size pc <? 4 then None else Some (le_decode (take 4 pc), drop 4 pc)
  else Some (0, pc).

(** [GetScriptOp]: opcode, pushed data and the next position; [None] when it
    returns false (every caller stops then). *)
Definition GetScriptOp (pc : CScript) : option (Z * valtype * CScript) :=
  match pc with
  | [] => None
  | opcode :: pc =>
      if opcode <=? OP_PUSHDATA4 then
        '(nSize, pc) ← push_size opcode pc;
        if u32 (size pc) <? nSize then None
        else Some (opcode, take (Z.to_nat nSize) pc, drop (Z.to_nat nSize) pc)
      else Some (opcode, [], pc)
  end.

(** [DecodeOP_N] asserts that the opcode is [OP_0] or [OP_1] .. [OP_16]. *)
Definition DecodeOP_N (opcode : Z) : option Z :=
  if opcode =? OP_0 then Some 0
  else if (OP_1 <=? opcode) && (opcode <=? OP_16) then Some (opcode - (OP_1 - 1))
  else None.

Definition EncodeOP_N (n : Z) : option Z :=
  if (0 <=? n) && (n <=? 16) then
    if n =? 0 then Some OP_0 else Some (OP_1 + n - 1)
  else None.

(** ** Classifying and counting

    Every loop below advances by at least the opcode byte, so the number of
    bytes ahead bounds its rounds. *)

Fixpoint sigop_loop (fuel : nat) (fAccurate : bool) (lastOpcode : Z) (n : Z) (pc : CScript) : Z :=
  match fuel with
  | O => n
  | S fuel =>
      match GetScriptOp pc with
      | None => n
      | Some (opcode, _, pc) =>
          let n :=
            if (opcode =? OP_CHECKSIG) || (opcode =? OP_CHECKSIGVERIFY) then u32 (n + 1)
            else if (opcode =? OP_CHECKMULTISIG) || (opcode =? OP_CHECKMULTISIGVERIFY) then
              if fAccurate && (OP_1 <=? lastOpcode) && (lastOpcode <=? OP_16)
              then u32 (n + default 0 (DecodeOP_N lastOpcode))
              else u32 (n + MAX_PUBKEYS_PER_MULTISIG)
            else n in
          sigop_loop fuel fAccurate opcode n pc
      end
  end.

Definition GetSigOpCount (s : CScript) (fAccurate : bool) : Z :=
  sigop_loop (length s) fAccurate OP_INVALIDOPCODE 0 s.

Definition byte_at (s : CScript) (i : nat) : Z := default 0 (s !! i).

Definition IsPayToScriptHash (s : CScript) : bool :=
  (size s =? 23) && (byte_at s 0 =? OP_HASH160) && (byte_at s 1 =? 0x14) && (byte_at s 22 =? OP_EQUAL).

Definition IsPayToWitnessScriptHash (s : CScript) : bool :=
  (size s =? 34) && (byte_at s 0 =? OP_0) && (byte_at s 1 =? 0x20).

(** The last item pushed by [scriptSig]; [None] for the early [return 0]. *)
Fixpoint last_push (fuel : nat) (vData : valtype) (pc : CScript) : option valtype :=
  match pc, fuel with
  | [], _ => Some vData
  | _, O => None
  | _, S fuel =>
      match GetScriptOp pc with
      | None => None
      | Some (opcode, data, pc) => if opcode >? OP_16 then None else last_push fuel data pc
      end
  end.

Definition GetP2SHSigOps (s scriptSig : CScript) : Z :=
  if negb (IsPayToScriptHash s) then GetSigOpCount s true
  else match last_push (length scriptSig) [] scriptSig with
       | None => 0
       | Some subscript => GetSigOpCount subscript true
       end.

(** Version and program of a witness program. *)
Definition IsWitnessProgram (s : CScript) : option (Z * valtype) :=
  if (size s <? 4) || (size s >? 42) then None
  else if negb (byte_at s 0 =? OP_0) && ((byte_at s 0 <? OP_1) || (byte_at s 0 >? OP_16)) then None
  else if byte_at s 1 + 2 =? size s then
    version ← DecodeOP_N (byte_at s 0); Some (version, drop 2 s)
  else None.

Fixpoint push_only_loop (fuel : nat) (pc : CScript) : bool :=
  match pc, fuel with
  | [], _ => true
  | _, O => false
  | _, S fuel =>
      match GetScriptOp pc with
      | None => false
      | Some (opcode, _, pc) => if opcode >? OP_16 then false else push_only_loop fuel pc
      end
  end.

Definition IsPushOnly (s : CScript) : bool := push_only_loop (length s) s.

Fixpoint valid_ops_loop (fuel : nat) (it : CScript) : bool :=
  match it, fuel with
  | [], _ => true
  | _, O => false
  | _, S fuel =>
      match GetScriptOp it with
      | None => false
      | Some (opcode, item, it) =>
          if (opcode >? MAX_OPCODE) || (size item >? MAX_SCRIPT_ELEMENT_SIZE) then false
          else valid_ops_loop fuel it
      end
  end.

Definition HasValidOps (s : CScript) : bool := valid_ops_loop (length s) s.

Definition IsUnspendable (s : CScript) : bool :=
  ((size s >? 0) && (byte_at s 0 =? OP_RETURN)) || (size s >? MAX_SCRIPT_SIZE).

Definition IsOpSuccess (opcode : Z) : bool :=
  (opcode =? 80) || (opcode =? 98) || ((opcode >=? 126) && (opcode <=? 129)) ||
  ((opcode >=? 131) && (opcode <=? 134)) || ((opcode >=? 137) && (opcode <=? 138)) ||
  ((opcode >=? 141) && (opcode <=? 142)) || ((opcode >=? 149) && (opcode <=? 153)) ||
  ((opcode >=? 187) && (opcode <=? 254)).

(** [CheckMinimalPush], for [0 <= opcode <= OP_PUSHDATA4] as it asserts. *)
Definition CheckMinimalPush (data : valtype) (opcode : Z) : bool :=
  if size data =? 0 then opcode =? OP_0
  else if (size data =? 1) && (byte_at data 0 >=? 1) && (byte_at data 0 <=? 16) then false
  else if (size data =? 1) && (byte_at data 0 =? 0x81) then false
  else if size data <=? 75 then opcode =? size data
  else if size data <=? 255 then opcode =? OP_PUSHDATA1
  else if size data <=? 65535 then opcode =? OP_PUSHDATA2
  else true.

(** ** Numbers *)

Module CScriptNum.

Inductive scriptnum_error : Type := ScriptNumOverflow | NonMinimal.

(** [while(absvalue) { push_back(absvalue & 0xff); absvalue >>= 8; }]: a
    64-bit value takes at most eight rounds. *)
Fixpoint abs_bytes (fuel : nat) (absvalue : Z) : valtype :=
  match fuel with
  | O => []
  | S fuel =>
      if absvalue =? 0 then []
      else Z.land absvalue 0xff :: abs_bytes fuel (Z.shiftr absvalue 8)
  end.

(** [result.back() |= 0x80]. *)
Fixpoint set_back_sign (l : valtype) : valtype :=
  match l with
  | [] => []
  | [b] => [Z.lor b 0x80]
  | b :: l => b :: set_back_sign l
  end.

Definition back (l : valtype) : Z := last l 0.

Definition serialize (value : Z) : valtype :=
  if value =? 0 then []
  else
    let neg := value <? 0 in
    let absvalue := if neg then u64 (u64 (Z.lnot (u64 value)) + 1) else u64 value in
    let result := abs_bytes 8 absvalue in
    if negb (Z.land (back result) 0x80 =? 0) then result ++ [if neg then 0x80 else 0]
    else if neg then set_back_sign result
    else result.

(** [result |= static_cast<int64_t>(vch\[i\]) << 8*i]; for at most eight bytes,
    the limit every caller stays below. *)
Fixpoint set_vch_loop (i : nat) (vch : valtype) (result : Z) : Z :=
  match vch with
  | [] => result
  | b :: vch => set_vch_loop (S i) vch (Z.lor result (i64 (Z.shiftl b (8 * Z.of_nat i))))
  end.

Definition set_vch (vch : valtype) : Z :=
  match vch with
  | [] => 0
  | _ =>
      let result := set_vch_loop 0 vch 0 in
      if negb (Z.land (back vch) 0x80 =? 0) then
        - i64 (Z.land (u64 result) (u64 (Z.lnot (Z.shiftl 0x80 (8 * (size vch - 1))))))
      else result
  end.

Definition nDefaultMaxNumSize : Z := 4.

Definition CScriptNum (vch : valtype) (fRequireMinimal : bool) (nMaxNumSize : Z)
    : result scriptnum_error Z :=
  let! _ := require (negb (size vch >? nMaxNumSize)) ScriptNumOverflow in
  let! _ := require (negb
    (fRequireMinimal && (size vch >? 0) && (Z.land (back vch) 0x7f =? 0) &&
     ((size vch <=? 1) || (Z.land (byte_at vch (length vch - 2)) 0x80 =? 0)))) NonMinimal in
  Ok (set_vch vch).

Definition getint (m_value : Z) : Z :=
  if m_value >? 2 ^ 31 - 1 then 2 ^ 31 - 1
  else if m_value <? - 2 ^ 31 then - 2 ^ 31
  else m_value.

End CScriptNum.

(** ** Building scripts *)

Definition push_opcode (s : CScript) (opcode : Z) : CScript := s ++ [u8 opcode].

(** [operator<<(const std::vector<unsigned char>&)]. *)
Definition push_vec (s : CScript) (b : valtype) : CScript :=
  (if size b <? OP_PUSHDATA1 then s ++ [u8 (size b)]
   else if size b <=? 0xff then s ++ [OP_PUSHDATA1; u8 (size b)]
   else if size b <=? 0xffff then s ++ OP_PUSHDATA2 :: le_encode 2 (size b)
   else s ++ OP_PUSHDATA4 :: le_encode 4 (size b)) ++ b.

Definition push_int64 (s : CScript) (n : Z) : CScript :=
  if (n =? -1) || ((n >=? 1) && (n <=? 16)) then s ++ [u8 (n + (OP_1 - 1))]
  else if n =? 0 then s ++ [OP_0]
  else push_vec s (CScriptNum.serialize n).

End Script.

Module ScriptFacts.
Import Script.

Lemma push_size_inv op pc n pc' : push_size op pc = Some (n, pc') → ∃ hdr, pc = hdr ++ pc' ∧ (length hdr <= 4)%nat.
Proof.
  assert (∀ k, (k <= 4)%nat → ∃ hdr, pc = hdr ++ drop k pc ∧ (length hdr <= 4)%nat) as Hk.
  { intros k Hk. exists (take k pc). rewrite take_drop, length_take. split; [done|lia]. }
  unfold push_size. repeat split_if; intros E'; simplify_eq;
    first [apply Hk; lia | exists []; split; [done|simpl; lia]].
Qed.

(** An instruction is its opcode, at most four length bytes and its data. *)
Lemma GetScriptOp_inv pc op d pc' :
  GetScriptOp pc = Some (op, d, pc') →
  ∃ hdr, pc = op :: hdr ++ d ++ pc' ∧ (length hdr <= 4)%nat.
Proof.
  unfold GetScriptOp. destruct pc as [|o pc]; [done|].
  destruct (o <=? OP_PUSHDATA4).
  - destruct (push_size o pc) as [[n p]|] eqn:E; simpl; [|done].
    apply push_size_inv in E as (hdr & -> & Hl). destruct (_ <? _); [done|].
    intros [= -> <- <-]. exists hdr. by rewrite take_drop.
  - intros [= -> <- <-]. exists []. split; [done|simpl; lia].
Qed.

Lemma GetScriptOp_shorter pc op d pc' :
  GetScriptOp pc = Some (op, d, pc') → (length pc' < length pc)%nat.
Proof. intros (hdr & -> & _)%GetScriptOp_inv. simpl. rewrite !length_app. lia. Qed.

(** ** Signature operation counts *)

Lemma DecodeOP_N_range op : 0 <= default 0 (DecodeOP_N op) <= 16.
Proof. unfold DecodeOP_N. repeat split_if; simpl; lia. Qed.

Lemma sigop_loop_bounds fuel last n1 n2 pc :
  0 <= n1 <= n2 → n2 + 20 * size pc < 2 ^ 32 →
  sigop_loop fuel true last n1 pc <= sigop_loop fuel false last n2 pc <= n2 + 20 * size pc.
Proof.
  revert last n1 n2 pc. induction fuel as [|fuel IH]; intros last n1 n2 pc Hn Hb; simpl; unfold size in *; [lia|].
  destruct (GetScriptOp pc) as [[[op d] pc']|] eqn:E; [|lia].
  apply GetScriptOp_shorter in E. pose proof (DecodeOP_N_range last) as Hd.
  unfold MAX_PUBKEYS_PER_MULTISIG.
  destruct (_ || _) eqn:E1; [|destruct ((op =? OP_CHECKMULTISIG) || _) eqn:E2].
  - rewrite !wrap_small by (unfold in_u; lia).
    specialize (IH op (n1 + 1) (n2 + 1) pc'). lia.
  - rewrite (wrap_small 32 (n2 + 20)) by (unfold in_u; lia).
    split_if; rewrite !wrap_small by (unfold in_u; lia).
    + specialize (IH op (n1 + default 0 (DecodeOP_N last)) (n2 + 20) pc'). lia.
    + specialize (IH op (n1 + 20) (n2 + 20) pc'). lia.
  - specialize (IH op n1 n2 pc'). lia.
Qed.

(** ** Script numbers *)
Import Script.CScriptNum.

Lemma land_ff a : Z.land a 0xff = a mod 256.
Proof. exact (land_ones_mod 8 a ltac:(lia)). Qed.

Lemma land_7f a : Z.land a 0x7f = a mod 128.
Proof. exact (land_ones_mod 7 a ltac:(lia)). Qed.

Lemma land_80 b : in_u 8 b → (Z.land b 0x80 =? 0) = (b <? 128).
Proof. intros Hb. apply eqb_prop. revert b Hb. apply seqZ_forallb. by vm_compute. Qed.

Lemma lor_80 b : 0 <= b < 128 → Z.lor b 0x80 = b + 128.
Proof. intros Hb. apply Z.eqb_eq. revert b Hb. apply seqZ_forallb. by vm_compute. Qed.

Lemma abs_bytes_spec fuel a :
  in_u (8 * Z.of_nat fuel) a →
  digits_val 8 (abs_bytes fuel a) = a ∧ bytes_ok (abs_bytes fuel a) ∧
  (a ≠ 0 → last (abs_bytes fuel a) 0 ≠ 0) ∧ (length (abs_bytes fuel a) <= fuel)%nat.
Proof.
  revert a. induction fuel as [|fuel IH]; intros a Ha.
  { unfold in_u in Ha. simpl in *. repeat split; try lia. constructor. }
  cbn [abs_bytes]. destruct (a =? 0) eqn:E; to_prop.
  { subst. repeat split; [constructor|lia|simpl; lia]. }
  rewrite land_ff, Z.shiftr_div_pow2 by lia. change (2 ^ 8) with 256.
  destruct (IH (a / 256)) as (Hv & Hb & Hl & Hn).
  { unfold in_u in *. rewrite Nat2Z.inj_succ, Z.mul_succ_r, Z.pow_add_r in Ha by lia.
    change (2 ^ 8) with 256 in Ha. split; zdm. }
  repeat split.
  - cbn [digits_val]. rewrite Hv. change (2 ^ 8) with 256. zdm.
  - constructor; [unfold in_u; zdm|done].
  - intros _. destruct (abs_bytes fuel (a / 256)) as [|c l] eqn:El; [|apply Hl; intros E0].
    + simpl. simpl in Hv. zdm.
    + rewrite E0 in El. by destruct fuel.
  - simpl. lia.
Qed.

Lemma i64_shift_byte b i :
  in_u 8 b → (i <= 7)%nat →
  i64 (Z.shiftl b (8 * Z.of_nat i)) =
  Z.shiftl (if (i =? 7)%nat && (128 <=? b) then b - 256 else b) (8 * Z.of_nat i).
Proof.
  intros Hb Hi. unfold in_u in Hb. rewrite !Z.shiftl_mul_pow2 by lia. unfold swrap.
  destruct (decide (i = 7%nat)) as [->|Hi7].
  - change (8 * Z.of_nat 7) with 56. cbn [Nat.eqb andb].
    destruct (128 <=? b) eqn:E; to_prop; zdm.
  - replace (i =? 7)%nat with false by (symmetry; by apply Nat.eqb_neq). cbn [andb].
    assert (2 ^ (8 * Z.of_nat i) <= 2 ^ 48) by (apply Z.pow_le_mono_r; lia).
    assert (0 < 2 ^ (8 * Z.of_nat i)) by lia. rewrite Z.mod_small; nia.
Qed.

(** The sum of all bytes, as an [int64_t]. *)
Lemma set_vch_loop_spec vch i r :
  bytes_ok vch → (i + length vch <= 8)%nat → in_u (8 * Z.of_nat i) r →
  set_vch_loop i vch r mod 2 ^ 64 = r + 2 ^ (8 * Z.of_nat i) * digits_val 8 vch ∧
  (last vch 0 < 128 → set_vch_loop i vch r = r + 2 ^ (8 * Z.of_nat i) * digits_val 8 vch).
Proof.
  intros Hb. revert i r. induction Hb as [|b vch Hc Hb IH]; intros i r Hi Hr.
  { simpl. assert (in_u 64 r).
    { unfold in_u in *. assert (2 ^ (8 * Z.of_nat i) <= 2 ^ 64); [|lia].
      apply Z.pow_le_mono_r; simpl in Hi; lia. }
    rewrite Z.mul_0_r, Z.add_0_r. split; [by apply Z.mod_small|done]. }
  simpl in Hi. cbn [set_vch_loop digits_val]. rewrite i64_shift_byte by (done || lia).
  rewrite lor_add_shiftl by (done || lia). unfold in_u in Hc, Hr.
  destruct (decide (i = 7%nat)) as [->|Hi7].
  - destruct vch; [|simpl in Hi; lia]. simpl set_vch_loop. simpl digits_val. simpl List.last.
    change (8 * Z.of_nat 7) with 56 in *. cbn [Nat.eqb andb].
    split; [|intros; replace (128 <=? b) with false by lia; lia].
    destruct (128 <=? b) eqn:E; to_prop; [|rewrite Z.mod_small; lia].
    replace (r + (b - 256) * 2 ^ 56) with (r + 2 ^ 56 * (b + 2 ^ 8 * 0) + (-1) * 2 ^ 64) by lia.
    rewrite Z.mod_add, Z.mod_small; lia.
  - replace (i =? 7)%nat with false by (symmetry; by apply Nat.eqb_neq). cbn [andb].
    assert (2 ^ (8 * Z.of_nat (S i)) = 2 ^ (8 * Z.of_nat i) * 2 ^ 8) as E.
    { rewrite <- Z.pow_add_r by lia. f_equal. lia. }
    destruct (IH (S i) (r + b * 2 ^ (8 * Z.of_nat i))) as [E1 E2]; [lia| |].
    { unfold in_u. rewrite E. nia. }
    rewrite E in E1, E2. split; [rewrite E1; ring|].
    intros Hl. destruct vch as [|c vch]; [simpl; simpl in Hl; lia|]. rewrite E2 by done. ring.
Qed.

(** The value of a script number: magnitude below the top bit, then the sign. *)
Definition vch_value (vch : valtype) : Z :=
  if last vch 0 <? 128 then digits_val 8 vch
  else - (digits_val 8 vch - 2 ^ (8 * size vch - 1)).

Lemma last_range vch : bytes_ok vch → in_u 8 (last vch 0).
Proof.
  induction 1 as [|b vch Hb H IH]; [unfold in_u; simpl; lia|]. destruct vch; [done|]. apply IH.
Qed.

Lemma digits_val_snoc l b : digits_val 8 (l ++ [b]) = digits_val 8 l + 2 ^ (8 * size l) * b.
Proof. rewrite digits_val_app by lia. simpl. unfold size. ring. Qed.

Lemma vch_last vch : vch ≠ [] → ∃ l, vch = l ++ [last vch 0].
Proof. intros H. exists (removelast vch). by apply app_removelast_last. Qed.

Lemma clear_bit V m : 0 <= m < 64 → 2 ^ m <= V < 2 * 2 ^ m →
  Z.land V (u64 (Z.lnot (2 ^ m))) = V - 2 ^ m.
Proof.
  intros Hm HV. assert (2 * 2 ^ m <= 2 ^ 64) as Hle.
  { rewrite <- Z.pow_succ_r by lia. apply Z.pow_le_mono_r; lia. }
  rewrite (Z.sub_nocarry_ldiff V (2 ^ m)).
  - apply Z.bits_inj'. intros n Hn. rewrite Z.land_spec, Z.ldiff_spec. unfold wrap.
    destruct (Z.lt_ge_cases n 64).
    + by rewrite Z.mod_pow2_bits_low, Z.lnot_spec by lia.
    + by rewrite (testbit_high 64 V n) by (unfold in_u; lia).
  - apply Z.bits_inj'. intros n Hn. rewrite Z.ldiff_spec, Z.bits_0.
    destruct (decide (n = m)) as [->|Hne]; [|by rewrite Z.pow2_bits_false by lia].
    replace (Z.testbit V m) with true; [by rewrite andb_false_r|].
    symmetry. apply Z.testbit_true; [lia|]. replace (V / 2 ^ m) with 1; [done|].
    apply (Z.div_unique V (2 ^ m) 1 (V - 2 ^ m)); lia.
Qed.

Lemma set_vch_spec vch : bytes_ok vch → (length vch <= 8)%nat → set_vch vch = vch_value vch.
Proof.
  intros Hb Hl. destruct (decide (vch = [])) as [->|Hne]; [done|].
  pose proof (last_range vch Hb) as Hlast.
  assert (set_vch vch = let result := set_vch_loop 0 vch 0 in
    if negb (Z.land (back vch) 0x80 =? 0) then
      - i64 (Z.land (u64 result) (u64 (Z.lnot (Z.shiftl 0x80 (8 * (size vch - 1)))))) else result) as ->
    by by destruct vch.
  cbn zeta. unfold vch_value, back. rewrite land_80 by done.
  destruct (set_vch_loop_spec vch 0 0) as [E1 E2]; [done|lia|unfold in_u; simpl; lia|].
  change (8 * Z.of_nat 0) with 0 in *. rewrite Z.pow_0_r, Z.add_0_l, Z.mul_1_l in E1, E2.
  destruct (last vch 0 <? 128) eqn:E; to_prop; cbn [negb]; [by apply E2|].
  unfold wrap at 1. rewrite E1. unfold in_u in Hlast.
  destruct (vch_last vch Hne) as [l El]. pose proof (digits_val_range 8 ltac:(lia) l) as Hr.
  rewrite El in Hb, Hl |- *. apply Forall_app in Hb as [Hbl _]. specialize (Hr Hbl).
  rewrite length_app in Hl. simpl in Hl.
  rewrite digits_val_snoc. unfold size, in_u in *. rewrite length_app. simpl.
  set (k := Z.of_nat (length l)) in *. replace (Z.of_nat (length l + 1)) with (k + 1) by lia.
  assert (2 ^ (8 * (k + 1) - 1) = 128 * 2 ^ (8 * k)) as Ek.
  { change 128 with (2 ^ 7). rewrite <- Z.pow_add_r by lia. f_equal. lia. }
  replace (Z.shiftl 128 (8 * (k + 1 - 1))) with (2 ^ (8 * (k + 1) - 1))
    by (rewrite Z.shiftl_mul_pow2, Ek by lia; do 2 f_equal; lia).
  rewrite clear_bit by (lia || nia). rewrite swrap_small; [done|lia|].
  assert (2 ^ (8 * (k + 1) - 1) <= 2 ^ 63) by (apply Z.pow_le_mono_r; lia).
  unfold in_s. simpl (64 - 1). nia.
Qed.

Lemma digits_val_pos l : bytes_ok l → last l 0 ≠ 0 → 0 < digits_val 8 l.
Proof.
  intros Hb Hl. destruct (vch_last l) as [l' El]; [by intros ->|].
  pose proof (last_range l Hb) as Hr. unfold in_u in Hr. rewrite El in Hb |- *.
  apply Forall_app in Hb as [Hb _]. apply (digits_val_range 8) in Hb; [|lia].
  rewrite digits_val_snoc. unfold in_u, size in *. nia.
Qed.

(** A digit list without leading zero is what [serialize] starts from. *)
Lemma abs_bytes_unique fuel l :
  bytes_ok l → (l ≠ [] → last l 0 ≠ 0) → (length l <= fuel)%nat → abs_bytes fuel (digits_val 8 l) = l.
Proof.
  intros Hb. revert fuel. induction Hb as [|b l Hc Hb IH]; intros fuel Hl Hf; [by destruct fuel|].
  destruct fuel as [|fuel]; [simpl in Hf; lia|].
  pose proof (digits_val_pos (b :: l) ltac:(by constructor) (Hl ltac:(done))) as Hp.
  cbn [abs_bytes]. replace (digits_val 8 (b :: l) =? 0) with false by lia.
  rewrite land_ff, Z.shiftr_div_pow2 by lia. unfold in_u in Hc. cbn [digits_val].
  change (2 ^ 8) with 256 in *.
  replace ((b + 256 * digits_val 8 l) mod 256) with b by zdm.
  replace ((b + 256 * digits_val 8 l) / 256) with (digits_val 8 l) by zdm.
  rewrite IH; [done| |simpl in Hf; lia].
  intros Hne. destruct l; [done|]. by apply Hl.
Qed.

Definition signed (neg : bool) (a : Z) : Z := if neg then - a else a.

Lemma serialize_digits neg l :
  bytes_ok l → last l 0 ≠ 0 → digits_val 8 l < 2 ^ 63 → (length l <= 8)%nat →
  serialize (signed neg (digits_val 8 l)) =
  if 128 <=? last l 0 then l ++ [if neg then 0x80 else 0]
  else if neg then set_back_sign l else l.
Proof.
  intros Hb Hl Hlt Hlen. pose proof (digits_val_pos l Hb Hl) as Hp. unfold serialize, signed.
  set (a := digits_val 8 l) in *.
  replace ((if neg then - a else a) =? 0) with false by (destruct neg; lia).
  replace ((if neg then - a else a) <? 0) with neg by (destruct neg; lia).
  replace (if neg then u64 (u64 (Z.lnot (u64 (if neg then - a else a))) + 1) else u64 (if neg then - a else a))
    with a.
  2:{ unfold wrap, Z.lnot. destruct neg; zdm. }
  unfold a. rewrite abs_bytes_unique by (done || lia). unfold back.
  rewrite land_80 by by apply last_range. by rewrite Z.leb_antisym.
Qed.

Lemma set_back_sign_snoc l b : set_back_sign (l ++ [b]) = l ++ [Z.lor b 0x80].
Proof. induction l as [|c l IH]; [done|]. simpl. rewrite IH. by destruct l. Qed.

Lemma last_snoc_Z (l : list Z) b : List.last (l ++ [b]) 0 = b.
Proof. apply last_last. Qed.

Lemma vch_value_snoc l b :
  in_u 8 b →
  vch_value (l ++ [b]) = signed (128 <=? b) (digits_val 8 l + 2 ^ (8 * size l) * (b mod 128)).
Proof.
  intros Hb. unfold in_u in Hb. unfold vch_value, signed. rewrite last_snoc_Z, digits_val_snoc, Z.leb_antisym.
  unfold size. rewrite length_app. simpl.
  replace (2 ^ (8 * Z.of_nat (length l + 1) - 1)) with (128 * 2 ^ (8 * Z.of_nat (length l))).
  2:{ change 128 with (2 ^ 7). rewrite <- Z.pow_add_r by lia. f_equal. lia. }
  destruct (b <? 128) eqn:E; to_prop; cbn [negb].
  - by rewrite (Z.mod_small b) by lia.
  - replace (b mod 128) with (b - 128) by zdm. lia.
Qed.

(** Minimal encodings: the shape [serialize] produces. *)
Definition minimal (vch : valtype) : Prop :=
  vch = [] ∨ ∃ l b, vch = l ++ [b] ∧ (b mod 128 ≠ 0 ∨ l ≠ [] ∧ 128 <= last l 0).

Lemma minimal_check vch :
  bytes_ok vch →
  minimal vch ↔
  (size vch >? 0) && (Z.land (back vch) 0x7f =? 0) &&
  ((size vch <=? 1) || (Z.land (byte_at vch (length vch - 2)) 0x80 =? 0)) = false.
Proof.
  intros Hb. destruct (decide (vch = [])) as [->|Hne]; [split; [done|by left]|].
  destruct (vch_last vch Hne) as [l El]. set (b := last vch 0) in *. clearbody b. subst vch.
  apply Forall_app in Hb as [Hl Hb]. unfold size, back. rewrite last_snoc_Z, land_7f, length_app. simpl.
  assert (byte_at (l ++ [b]) (length l + 1 - 2) = if decide (l = []) then b else last l 0) as ->.
  { destruct (decide (l = [])) as [->|Hn]; [done|]. destruct (vch_last l Hn) as [l' El].
    rewrite El at 1 2. unfold byte_at. rewrite <- app_assoc, length_app. simpl.
    rewrite lookup_app_r by lia. by replace (length l' + 1 + 1 - 2 - length l')%nat with 0%nat by lia. }
  transitivity (b mod 128 ≠ 0 ∨ l ≠ [] ∧ 128 <= last l 0).
  { unfold minimal. split; [|by right; exists l, b].
    intros [E|(l' & b' & E & H)]; [by destruct l|]. by apply app_inj_tail in E as [-> ->]. }
  pose proof (last_range l Hl) as Hr. case_decide as Hd.
  - subst l. simpl. split; [intros [?|[? _]]; [lia|done]|]. intros. left. lia.
  - rewrite land_80 by done. assert (0 < length l)%nat by (destruct l; [done|simpl; lia]).
    replace (Z.of_nat (length l + 1) >? 0) with true by lia.
    replace (Z.of_nat (length l + 1) <=? 1) with false by lia. cbn [andb orb].
    rewrite andb_false_iff, Z.eqb_neq, Z.ltb_ge. tauto.
Qed.

Lemma serialize_spec v :
  - 2 ^ 63 < v < 2 ^ 63 →
  bytes_ok (serialize v) ∧ (length (serialize v) <= 8)%nat ∧ minimal (serialize v) ∧
  vch_value (serialize v) = v.
Proof.
  intros Hv. destruct (decide (v = 0)) as [->|Hn].
  { repeat split; [constructor|simpl; lia|by left]. }
  set (a := Z.abs v). destruct (abs_bytes_spec 8 a) as (Ea & Hb & Hl & Hlen); [unfold in_u; lia|].
  set (l := abs_bytes 8 a) in *. specialize (Hl ltac:(lia)). clearbody l.
  replace v with (signed (v <? 0) (digits_val 8 l)) by (unfold signed; destruct (v <? 0) eqn:?; lia).
  rewrite serialize_digits by (done || lia). set (neg := v <? 0). clearbody neg.
  pose proof (last_range l Hb) as Hr. unfold in_u in Hr.
  destruct (vch_last l) as [l' El]; [by intros ->|]. set (b := last l 0) in *. clearbody b.
  assert (digits_val 8 l < 2 ^ 63) as Hlt by lia.
  destruct (128 <=? b) eqn:E; to_prop.
  - split; [apply Forall_app; split; [done|]; constructor; [destruct neg; unfold in_u; lia|constructor]|].
    split; [|split].
    + rewrite length_app. simpl. destruct (decide (length l = 8%nat)) as [E8|]; [|lia].
      rewrite El in Hb, E8, Hlt. rewrite digits_val_snoc in Hlt. apply Forall_app in Hb as [Hb _].
      apply (digits_val_range 8) in Hb; [|lia]. rewrite length_app in E8. simpl in E8. unfold size, in_u in *.
      replace (Z.of_nat (length l')) with 7 in * by lia. lia.
    + right. exists l, (if neg then 128 else 0). split; [done|]. right. split; [intros E0; rewrite E0 in El; by destruct l'|].
      by rewrite El, last_snoc_Z.
    + rewrite vch_value_snoc by (destruct neg; unfold in_u; lia). destruct neg; [change (128 mod 128) with 0|change (0 mod 128) with 0]; by rewrite Z.mul_0_r, Z.add_0_r.
  - assert (minimal (l' ++ [b]) ∧ minimal (l' ++ [Z.lor b 128])) as [M1 M2].
    { rewrite lor_80 by lia. split; right; eexists _, _; (split; [done|]); left; zdm. }
    destruct neg; rewrite El; [rewrite set_back_sign_snoc|].
    all: rewrite El in Hb, Hlen; rewrite length_app in Hlen |- *; simpl in Hlen |- *.
    all: apply Forall_app in Hb as [Hb' Hb]; rewrite ?lor_80 in * by lia.
    all: split; [apply Forall_app; split; [done|]; constructor; [unfold in_u; lia|constructor]|].
    all: split; [lia|split; [done|]]; rewrite digits_val_snoc, vch_value_snoc by (unfold in_u; lia).
    + replace (128 <=? b + 128) with true by lia. replace ((b + 128) mod 128) with b by zdm. done.
    + replace (128 <=? b) with false by lia. by rewrite (Z.mod_small b) by lia.
Qed.

Lemma serialize_value vch :
  bytes_ok vch → (length vch <= 8)%nat → minimal vch → serialize (vch_value vch) = vch.
Proof.
  intros Hb Hlen [->|(l & b & -> & Hm)]; [done|]. rewrite length_app in Hlen. simpl in Hlen.
  apply Forall_app in Hb as [Hl Hb]. rewrite Forall_singleton in Hb. rewrite vch_value_snoc by done.
  pose proof (digits_val_range 8 ltac:(lia) l Hl) as Hr. unfold in_u in *.
  assert (2 ^ (8 * Z.of_nat (length l)) <= 2 ^ 56) by (apply Z.pow_le_mono_r; lia).
  destruct (decide (b mod 128 = 0)) as [E0|E0].
  - destruct Hm as [?|[Hn Hm]]; [done|]. rewrite E0, Z.mul_0_r, Z.add_0_r.
    rewrite serialize_digits by (done || lia). replace (128 <=? last l 0) with true by lia.
    do 2 f_equal. destruct (128 <=? b) eqn:E; to_prop; zdm.
  - assert (0 <= b mod 128 < 128) as Hm' by zdm.
    rewrite <- digits_val_snoc, serialize_digits.
    + rewrite last_snoc_Z, set_back_sign_snoc, lor_80 by lia.
      replace (128 <=? b mod 128) with false by lia.
      destruct (128 <=? b) eqn:E; to_prop; do 2 f_equal; zdm.
    + apply Forall_app. split; [done|]. constructor; [unfold in_u; lia|constructor].
    + by rewrite last_snoc_Z.
    + rewrite digits_val_snoc. unfold size. nia.
    + rewrite length_app. simpl. lia.
Qed.

Lemma CScriptNum_ok vch m k v :
  bytes_ok vch → k <= 8 →
  CScriptNum vch m k = Ok v ↔ size vch <= k ∧ (m = true → minimal vch) ∧ v = vch_value vch.
Proof.
  intros Hb Hk. unfold CScriptNum. unfold require at 1.
  destruct (size vch >? k) eqn:E; to_prop; cbn [negb rbind].
  { split; [done|]. intros [? _]. lia. }
  rewrite set_vch_spec by (done || unfold size in *; lia).
  assert (minimal vch ↔ _) as Hmin by apply (minimal_check vch Hb).
  destruct m; cbn [andb].
  - destruct (_ && _ && _) eqn:E2; cbn [negb require rbind].
    + split; [done|]. intros (_ & H & _). apply Hmin in H; done.
    + split; [intros [= <-]; split_and!; [lia|intros _; by apply Hmin|done]|]. by intros (_ & _ & ->).
  - cbn. split; [by intros [= <-]|]. by intros (_ & _ & ->).
Qed.

(** ** Building and parsing *)

Lemma size_app {A} (a b : list A) : size (a ++ b) = size a + size b.
Proof. unfold size. rewrite length_app. lia. Qed.

Lemma GetScriptOp_data op hdr b rest :
  op <= OP_PUSHDATA4 → size (b ++ rest) < 2 ^ 32 →
  push_size op (hdr ++ b ++ rest) = Some (size b, b ++ rest) →
  GetScriptOp (op :: hdr ++ b ++ rest) = Some (op, b, rest).
Proof.
  intros Hop Hsz Hp. cbn [GetScriptOp]. replace (op <=? OP_PUSHDATA4) with true by lia.
  rewrite Hp. cbn [mbind option_bind]. unfold size in *.
  rewrite wrap_small by (unfold in_u; lia). rewrite length_app.
  replace (_ <? _) with false by lia. by rewrite Nat2Z.id, take_app_length, drop_app_length.
Qed.

Lemma push_size_le k op b rest :
  op = OP_PUSHDATA1 ∧ k = 1%nat ∨ op = OP_PUSHDATA2 ∧ k = 2%nat ∨ op = OP_PUSHDATA4 ∧ k = 4%nat →
  in_u (8 * Z.of_nat k) (size b) →
  push_size op (le_encode k (size b) ++ b ++ rest) = Some (size b, b ++ rest).
Proof.
  intros Hk Hs. set (e := le_encode k (size b)).
  assert (length e = k) as Hl by apply le_encode_length.
  assert (le_decode e = size b) as Hd by by apply le_decode_encode.
  assert (size (e ++ b ++ rest) >= Z.of_nat k) as Hge by (unfold size; rewrite length_app; lia).
  assert (take k (e ++ b ++ rest) = e ∧ drop k (e ++ b ++ rest) = b ++ rest) as [Et Ed].
  { by rewrite <- Hl, take_app_length, drop_app_length. }
  clearbody e. unfold push_size.
  destruct Hk as [[-> ->]|[[-> ->]|[-> ->]]].
  all: cbn [Z.ltb Z.eqb Z.compare Pos.compare Pos.compare_cont Pos.eqb].
  all: replace (_ <? _) with false by lia; by rewrite Et, Ed, Hd.
Qed.

(** The one-byte values that have an opcode of their own. *)
Definition small_push (b : valtype) : bool :=
  (size b =? 1) && ((byte_at b 0 >=? 1) && (byte_at b 0 <=? 16) || (byte_at b 0 =? 0x81)).

Lemma push_vec_parse s b rest :
  bytes_ok b → size (b ++ rest) < 2 ^ 32 →
  ∃ op hdr, push_vec s b = s ++ op :: hdr ++ b ∧
    GetScriptOp (op :: hdr ++ b ++ rest) = Some (op, b, rest) ∧
    0 <= op <= OP_PUSHDATA4 ∧ CheckMinimalPush b op = negb (small_push b).
Proof.
  intros Hb Hs. pose proof Hs as Hs'. rewrite size_app in Hs'.
  assert (0 <= size b ∧ 0 <= size rest) as [H0 H1] by (unfold size; lia).
  assert (∀ op, (size b <= 75 → op = size b) → (75 < size b <= 255 → op = OP_PUSHDATA1) →
    (255 < size b <= 65535 → op = OP_PUSHDATA2) → CheckMinimalPush b op = negb (small_push b)) as Hmin.
  { intros op. unfold CheckMinimalPush, small_push. intros.
    destruct (size b =? 0) eqn:?; [lia|]. destruct (size b =? 1) eqn:?; cbn [andb]; [|repeat split_if; lia].
    destruct (_ && _) eqn:?; [done|]. destruct (_ =? 129) eqn:?; [done|].
    replace (size b <=? 75) with true by lia. simpl. lia. }
  unfold push_vec. destruct (size b <? OP_PUSHDATA1) eqn:E1; to_prop;
    [|destruct (size b <=? 255) eqn:E2; [|destruct (size b <=? 65535) eqn:E3]]; to_prop.
  - exists (size b), []. rewrite wrap_small by (unfold in_u; lia). rewrite <- app_assoc.
    repeat split; [|lia|lia|apply Hmin; lia]. apply GetScriptOp_data; [lia|done|].
    unfold push_size. simpl app. by replace (size b <? OP_PUSHDATA1) with true by lia.
  - exists OP_PUSHDATA1, (le_encode 1 (size b)). rewrite <- app_assoc.
    repeat split; [|lia|lia|apply Hmin; lia].
    apply GetScriptOp_data; [lia|done|]. apply push_size_le; [auto|unfold in_u; simpl; lia].
  - exists OP_PUSHDATA2, (le_encode 2 (size b)). rewrite <- app_assoc.
    repeat split; [|lia|lia|apply Hmin; lia].
    apply GetScriptOp_data; [lia|done|]. apply push_size_le; [auto|unfold in_u; simpl; lia].
  - exists OP_PUSHDATA4, (le_encode 4 (size b)). rewrite <- app_assoc.
    repeat split; [|lia|lia|apply Hmin; lia].
    apply GetScriptOp_data; [lia|done|]. apply push_size_le; [auto|unfold in_u; simpl; lia].
Qed.

End ScriptFacts.

Module ScriptProps.
Import Script ScriptFacts Script.CScriptNum.

(** [CScriptNum] and [CScriptNum::serialize] are inverse to each other:
    every [int64_t] but the most negative one is read back from its encoding,
    which passes the minimality check, and a byte string accepted with the
    minimality check is the encoding of the number it is read as. *)
Theorem script_number_bijection (k : Z) :
  0 <= k <= 8 →
  (∀ v, - 2 ^ 63 < v < 2 ^ 63 → size (serialize v) <= k → CScriptNum (serialize v) true k = Ok v) ∧
  (∀ vch v, bytes_ok vch → CScriptNum vch true k = Ok v → serialize v = vch).
Proof.
  intros Hk. split.
  - intros v Hv Hs. destruct (serialize_spec v Hv) as (Hb & Hl & Hm & Hval).
    by apply CScriptNum_ok; [|lia|].
  - intros vch v Hb E. apply CScriptNum_ok in E as (Hs & Hm & ->); [|done|lia].
    apply serialize_value; [done|unfold size in Hs; lia|by apply Hm].
Qed.

Lemma script_number_bijection_witness :
  CScriptNum (serialize (-255)) true 4 = Ok (-255) ∧ serialize (-255) = [0xff; 0x80].
Proof.
  destruct (script_number_bijection 4 ltac:(lia)) as [H1 H2]. split.
  - apply H1; [lia|vm_compute; congruence].
  - apply (H2 [0xff; 0x80]); [|by vm_compute]. repeat constructor; unfold in_u; lia.
Defined.

(** What [CScript::operator<<] appends for an integer is one instruction
    that [GetScriptOp] reads back, followed by the rest of the script: either
    a small-integer opcode with that value, or a minimal push of the bytes
    [CScriptNum] accepts as that value. *)
Theorem push_int64_parses (n : Z) (rest : CScript) :
  - 2 ^ 63 < n < 2 ^ 63 → size rest < 2 ^ 31 →
  ∃ op d, GetScriptOp (push_int64 [] n ++ rest) = Some (op, d, rest) ∧
    (op <= OP_PUSHDATA4 → CScriptNum d true 8 = Ok n ∧ CheckMinimalPush d op = true) ∧
    (OP_PUSHDATA4 < op → d = [] ∧ n = op - (OP_1 - 1)).
Proof.
  intros Hn Hr. unfold push_int64. destruct (_ || _) eqn:E1; [|destruct (n =? 0) eqn:E2; to_prop].
  - exists (n + 80), []. rewrite wrap_small by (unfold in_u; lia). simpl app. cbn [GetScriptOp].
    replace (n + (OP_1 - 1) <=? OP_PUSHDATA4) with false by lia.
    split_and!; [do 3 f_equal; lia|intros; lia|intros _; split; [done|lia]].
  - subst n. exists OP_0, []. split_and!; [|by intros _; vm_compute|done].
    unfold GetScriptOp. cbn. unfold size in *. rewrite wrap_small by (unfold in_u; lia).
    replace (_ <? 0) with false by lia. by rewrite drop_0.
  - destruct (serialize_spec n Hn) as (Hb & Hl & Hm & Hval).
    destruct (push_vec_parse [] (serialize n) rest Hb) as (op & hdr & -> & Hg & Hop & Hmin).
    { rewrite size_app. unfold size in *. lia. }
    exists op, (serialize n). simpl app. rewrite <- app_assoc, Hg. split_and!; [done| |lia].
    intros _. split; [apply CScriptNum_ok; [done|lia|]; unfold size; split_and!; [lia|done|done]|].
    rewrite Hmin. unfold small_push. destruct (size (serialize n) =? 1) eqn:Es; [|done]. cbn [andb].
    destruct (serialize n) as [|b [|? ?]]; unfold size in Es; cbn [length] in Es; try lia.
    change (byte_at [b] 0) with b. apply Forall_inv in Hb. unfold in_u in Hb.
    rewrite (vch_value_snoc [] b Hb : vch_value [b] = _) in Hval.
    change (2 ^ (8 * size [])) with 1 in Hval. cbn [digits_val] in Hval.
    unfold signed in Hval. destruct (128 <=? b) eqn:?; zdm.
Qed.

Lemma push_int64_parses_witness :
  ∃ op d, GetScriptOp (push_int64 [] 212001 ++ [OP_0]) = Some (op, d, [OP_0]) ∧
    (op <= OP_PUSHDATA4 → CScriptNum d true 8 = Ok 212001 ∧ CheckMinimalPush d op = true) ∧
    (OP_PUSHDATA4 < op → d = [] ∧ 212001 = op - (OP_1 - 1)).
Proof. apply (push_int64_parses 212001 [OP_0]); [lia|vm_compute; congruence]. Defined.

(** Counting signature operations accurately never counts more than the
    legacy rule, and neither counts more than 20 per byte of script; the
    [unsigned int] counters do not wrap for a script under 200 MB. *)
Theorem GetSigOpCount_bounds (s : CScript) :
  size s <= 200000000 →
  GetSigOpCount s true <= GetSigOpCount s false <= MAX_PUBKEYS_PER_MULTISIG * size s.
Proof.
  intros Hs. unfold GetSigOpCount, MAX_PUBKEYS_PER_MULTISIG.
  pose proof (sigop_loop_bounds (length s) OP_INVALIDOPCODE 0 0 s). lia.
Qed.

Lemma GetSigOpCount_bounds_witness :
  GetSigOpCount [OP_2; OP_CHECKMULTISIG] true <= GetSigOpCount [OP_2; OP_CHECKMULTISIG] false <= 20 * 2.
Proof. apply (GetSigOpCount_bounds [OP_2; OP_CHECKMULTISIG]). vm_compute. congruence. Defined.

End ScriptProps.
