(* ===== verification/Transaction.v ===== *)
(** Transactions: [src/primitives/transaction.h], [src/primitives/transaction.cpp],
    [src/consensus/amount.h] and [src/consensus/tx_check.cpp].

    The double SHA-256 of [HashWriter] is an argument ([Hash]) of the
    definitions that need a transaction id.  [CTransaction] caches
    [m_has_witness], [hash] and [m_witness_hash] at construction; here they are
    the functions that compute them. *)
From Stdlib Require Import ZArith Lia.
From stdpp Require Import gmap.
From S2P Require Import Prelude Serialize Script.
Import Serialize Script.
Local Open Scope bb_scope.

Module Amount.

Definition COIN : Z := 100000000.
Definition MAX_MONEY : Z := 21000000 * COIN.
Definition MoneyRange (nValue : Z) : bool := (nValue >=? 0) && (nValue <=? MAX_MONEY).

End Amount.

Module Transaction.
Import Amount.

Definition IsNull256 (h : uint256) : bool := forallb (fun b => b =? 0) h.
Definition null256 : uint256 := replicate 32 0.

Record COutPoint := mkOutPoint { op_hash : uint256; op_n : Z }.

#[export] Instance COutPoint_eq_dec : EqDecision COutPoint.
Proof. solve_decision. Defined.

#[export] Instance COutPoint_countable : Countable COutPoint.
Proof.
  refine (inj_countable' (fun o => (op_hash o, op_n o)) (fun p => mkOutPoint p.1 p.2) _).
  by intros [].
Defined.

Definition NULL_INDEX : Z := 0xffffffff.
Definition outpoint_null : COutPoint := mkOutPoint null256 NULL_INDEX.
Definition outpoint_IsNull (o : COutPoint) : bool := IsNull256 (op_hash o) && (op_n o =? NULL_INDEX).

Abbreviation CScriptWitness := (list valtype).

Record CTxIn := mkTxIn {
  prevout : COutPoint;
  scriptSig : CScript;
  nSequence : Z;
  scriptWitness : CScriptWitness;
}.

Definition SEQUENCE_FINAL : Z := 0xffffffff.
Definition MAX_SEQUENCE_NONFINAL : Z := SEQUENCE_FINAL - 1.
Definition SEQUENCE_LOCKTIME_DISABLE_FLAG : Z := 2 ^ 31.
Definition SEQUENCE_LOCKTIME_TYPE_FLAG : Z := 2 ^ 22.
Definition SEQUENCE_LOCKTIME_MASK : Z := 0x0000ffff.
Definition SEQUENCE_LOCKTIME_GRANULARITY : Z := 9.

Record CTxOut := mkTxOut { nValue : Z; scriptPubKey : CScript }.

#[export] Instance CTxOut_eq_dec : EqDecision CTxOut.
Proof. solve_decision. Defined.

(** [CTxOut::SetNull] and [CTxOut::IsNull]. *)
Definition txout_null : CTxOut := mkTxOut (-1) [].
Definition txout_IsNull (o : CTxOut) : bool := nValue o =? -1.

Record CTransaction := mkTx {
  vin : list CTxIn;
  vout : list CTxOut;
  nVersion : Z;
  nLockTime : Z;
}.

Definition witness_IsNull (w : CScriptWitness) : bool := (length w =? 0)%nat.

(** [CTransaction::ComputeHasWitness], [CMutableTransaction::HasWitness]. *)
Definition vin_HasWitness (v : list CTxIn) : bool :=
  existsb (fun i => negb (witness_IsNull (scriptWitness i))) v.
Definition HasWitness (tx : CTransaction) : bool := vin_HasWitness (vin tx).

(** [CTransaction::IsCoinBase]. *)
Definition IsCoinBase (tx : CTransaction) : bool :=
  match vin tx with
  | [i] => outpoint_IsNull (prevout i)
  | _ => false
  end.

(** ** Serialization *)

Definition ser_uint256 (h : uint256) : list Z := h.
Definition unser_uint256 : parser uint256 := read 32.

Definition ser_outpoint (o : COutPoint) : list Z := ser_uint256 (op_hash o) ++ ser_writedata32 (op_n o).
Definition unser_outpoint : parser COutPoint := fun s =>
  let! (h, s) := unser_uint256 s in
  let! (n, s) := ser_readdata32 s in
  Ok (mkOutPoint h n, s).

Definition ser_txin (i : CTxIn) : list Z :=
  ser_outpoint (prevout i) ++ ser_bytes (scriptSig i) ++ ser_writedata32 (nSequence i).
Definition unser_txin : parser CTxIn := fun s =>
  let! (o, s) := unser_outpoint s in
  let! (sig, s) := unser_bytes s in
  let! (seq, s) := ser_readdata32 s in
  Ok (mkTxIn o sig seq [], s).

Definition ser_txout (o : CTxOut) : list Z := ser_signed 8 (nValue o) ++ ser_bytes (scriptPubKey o).
Definition unser_txout : parser CTxOut := fun s =>
  let! (v, s) := unser_signed 8 s in
  let! (spk, s) := unser_bytes s in
  Ok (mkTxOut v spk, s).

Definition ser_witness (i : CTxIn) : list Z := ser_vector ser_bytes (scriptWitness i).

Definition SerializeTransaction (allow_witness : bool) (tx : CTransaction) : list Z :=
  let flags := if allow_witness && HasWitness tx then Z.lor 0 1 else 0 in
  ser_signed 4 (nVersion tx) ++
  (if negb (flags =? 0) then ser_vector ser_txin [] ++ ser_writedata8 flags else []) ++
  ser_vector ser_txin (vin tx) ++
  ser_vector ser_txout (vout tx) ++
  (if negb (Z.land flags 1 =? 0) then concat (map ser_witness (vin tx)) else []) ++
  ser_writedata32 (nLockTime tx).

(** [for (i...) s >> tx.vin\[i\].scriptWitness.stack]. *)
Fixpoint read_witnesses (v : list CTxIn) (s : stream) : result ser_error (list CTxIn * stream) :=
  match v with
  | [] => Ok ([], s)
  | i :: v =>
      let! (stack, s) := unser_vector unser_bytes s in
      let! (v, s) := read_witnesses v s in
      Ok (mkTxIn (prevout i) (scriptSig i) (nSequence i) stack :: v, s)
  end.

Definition UnserializeTransaction (fAllowWitness : bool) : parser CTransaction := fun s =>
  let! (version, s) := unser_signed 4 s in
  let! (vin, s) := unser_vector unser_txin s in
  let! (vin, vout, flags, s) :=
    if (length vin =? 0)%nat && fAllowWitness then
      let! (flags, s) := ser_readdata8 s in
      if negb (flags =? 0) then
        let! (vin, s) := unser_vector unser_txin s in
        let! (vout, s) := unser_vector unser_txout s in
        Ok (vin, vout, flags, s)
      else Ok (vin, [], flags, s)
    else
      let! (vout, s) := unser_vector unser_txout s in
      Ok (vin, vout, 0, s) in
  let! (vin, flags, s) :=
    if negb (Z.land flags 1 =? 0) && fAllowWitness then
      let flags := Z.lxor flags 1 in
      let! (vin, s) := read_witnesses vin s in
      let! _ := require (vin_HasWitness vin) SuperfluousWitness in
      Ok (vin, flags, s)
    else Ok (vin, flags, s) in
  let! _ := require (flags =? 0) UnknownTxOptionalData in
  let! (lock, s) := ser_readdata32 s in
  Ok (mkTx vin vout version lock, s).

(** [::GetSerializeSize]: [SizeComputer] adds up the bytes written. *)
Definition GetSerializeSize (allow_witness : bool) (tx : CTransaction) : Z :=
  size (SerializeTransaction allow_witness tx).
Definition GetTotalSize (tx : CTransaction) : Z := u32 (GetSerializeSize true tx).

Section Ids.
Context (Hash : list Z → uint256).

Definition GetHash (tx : CTransaction) : uint256 := Hash (SerializeTransaction false tx).
Definition GetWitnessHash (tx : CTransaction) : uint256 :=
  if negb (HasWitness tx) then GetHash tx else Hash (SerializeTransaction true tx).
End Ids.

(** ** Amounts *)

Inductive tx_error : Type :=
| ValueOutOfRange  (* std::runtime_error of GetValueOut *)
| BadTxnsVinEmpty
| BadTxnsVoutEmpty
| BadTxnsOversize
| BadTxnsVoutNegative
| BadTxnsVoutTooLarge
| BadTxnsTxoutTotalTooLarge
| BadTxnsInputsDuplicate
| BadCbLength
| BadTxnsPrevoutNull.

Fixpoint value_out_loop (l : list CTxOut) (nValueOut : Z) : result tx_error Z :=
  match l with
  | [] => Ok nValueOut
  | o :: l =>
      if negb (MoneyRange (nValue o)) || negb (MoneyRange (i64 (nValueOut + nValue o)))
      then Err ValueOutOfRange
      else value_out_loop l (i64 (nValueOut + nValue o))
  end.

(** The [assert] after the loop repeats what the loop has checked. *)
Definition GetValueOut (tx : CTransaction) : result tx_error Z :=
  let! nValueOut := value_out_loop (vout tx) 0 in
  let! _ := require (MoneyRange nValueOut) ValueOutOfRange in
  Ok nValueOut.

(** ** [CheckTransaction] *)

Definition MAX_BLOCK_WEIGHT : Z := 4000000.
Definition WITNESS_SCALE_FACTOR : Z := 4.

Fixpoint check_outputs (l : list CTxOut) (nValueOut : Z) : result tx_error Z :=
  match l with
  | [] => Ok nValueOut
  | o :: l =>
      let! _ := require (negb (nValue o <? 0)) BadTxnsVoutNegative in
      let! _ := require (negb (nValue o >? MAX_MONEY)) BadTxnsVoutTooLarge in
      let nValueOut := i64 (nValueOut + nValue o) in
      let! _ := require (MoneyRange nValueOut) BadTxnsTxoutTotalTooLarge in
      check_outputs l nValueOut
  end.

Fixpoint check_duplicates (l : list CTxIn) (vInOutPoints : gset COutPoint) : result tx_error unit :=
  match l with
  | [] => Ok tt
  | i :: l =>
      let! _ := require (negb (bool_decide (prevout i ∈ vInOutPoints))) BadTxnsInputsDuplicate in
      check_duplicates l ({[prevout i]} ∪ vInOutPoints)
  end.

Definition front_scriptSig (tx : CTransaction) : CScript :=
  match vin tx with i :: _ => scriptSig i | [] => [] end.

Definition CheckTransaction (tx : CTransaction) : result tx_error unit :=
  let! _ := require (negb (length (vin tx) =? 0)%nat) BadTxnsVinEmpty in
  let! _ := require (negb (length (vout tx) =? 0)%nat) BadTxnsVoutEmpty in
  let! _ := require (negb (GetSerializeSize false tx * WITNESS_SCALE_FACTOR >? MAX_BLOCK_WEIGHT))
              BadTxnsOversize in
  let! _ := check_outputs (vout tx) 0 in
  let! _ := check_duplicates (vin tx) ∅ in
  if IsCoinBase tx then
    require (negb ((size (front_scriptSig tx) <? 2) || (size (front_scriptSig tx) >? 100))) BadCbLength
  else
    require (forallb (fun i => negb (outpoint_IsNull (prevout i))) (vin tx)) BadTxnsPrevoutNull.

End Transaction.

Module TransactionFacts.
Import Amount Transaction SerializeFacts.

(** ** What the wire format represents *)

Definition hash_ok (h : uint256) : Prop := bytes_ok h ∧ length h = 32%nat.
Definition outpoint_ok (o : COutPoint) : Prop := hash_ok (op_hash o) ∧ in_u 32 (op_n o).
Definition bytes_vec_ok : list Z → Prop := vec_ok (in_u 8).
Definition witness_ok : CScriptWitness → Prop := vec_ok bytes_vec_ok.
Definition txin_ok (i : CTxIn) : Prop :=
  outpoint_ok (prevout i) ∧ bytes_vec_ok (scriptSig i) ∧ in_u 32 (nSequence i) ∧ scriptWitness i = [].
Definition txout_ok (o : CTxOut) : Prop := in_s 64 (nValue o) ∧ bytes_vec_ok (scriptPubKey o).

(** An input without its witness. *)
Definition strip (i : CTxIn) : CTxIn := mkTxIn (prevout i) (scriptSig i) (nSequence i) [].
Definition txin_full_ok (i : CTxIn) : Prop := txin_ok (strip i) ∧ witness_ok (scriptWitness i).

Definition tx_ok (tx : CTransaction) : Prop :=
  in_s 32 (nVersion tx) ∧ vec_ok txin_full_ok (vin tx) ∧ vec_ok txout_ok (vout tx) ∧ in_u 32 (nLockTime tx).

(** Projections of a constructor. *)
Ltac proj :=
  cbn [op_hash op_n prevout scriptSig nSequence scriptWitness nValue scriptPubKey
       vin vout nVersion nLockTime] in *.

Lemma codec_hash : codec ser_uint256 unser_uint256 hash_ok.
Proof.
  unfold ser_uint256, unser_uint256, hash_ok. split.
  - by intros h [].
  - intros h s [_ Hl]. by apply read_app.
  - intros b h s Hb [-> Hl]%read_inv. apply bytes_ok_app in Hb as [? _]. done.
Qed.

Lemma codec_outpoint : codec ser_outpoint unser_outpoint outpoint_ok.
Proof.
  split.
  - intros o [[? ?] ?]. apply bytes_ok_app. split; [done|apply le_encode_bytes].
  - intros [h n] s [? ?]. unfold unser_outpoint, ser_outpoint. proj.
    rewrite <- app_assoc, (codec_read codec_hash) by done. cbn [rbind].
    by rewrite (codec_read codec_u32).
  - intros b o s Hb E. unfold unser_outpoint in E.
    inv_read codec_hash E Hb. inv_read codec_u32 E Hb. injection E as <- <-.
    unfold ser_outpoint. proj. by rewrite <- app_assoc.
Qed.

Lemma codec_txin : codec ser_txin unser_txin txin_ok.
Proof.
  split.
  - intros i (? & ? & ? & ?). unfold ser_txin. rewrite !bytes_ok_app.
    split_and!; [by apply (codec_bytes codec_outpoint)|by apply (codec_bytes codec_byte_vec)|apply le_encode_bytes].
  - intros [o sig q w] s (? & ? & ? & ?). unfold unser_txin, ser_txin. proj. subst w.
    rewrite <- !app_assoc, (codec_read codec_outpoint) by done. cbn [rbind].
    rewrite (codec_read codec_byte_vec) by done. cbn [rbind]. by rewrite (codec_read codec_u32).
  - intros b i s Hb E. unfold unser_txin in E.
    inv_read codec_outpoint E Hb. inv_read codec_byte_vec E Hb. inv_read codec_u32 E Hb.
    injection E as <- <-. unfold ser_txin. proj. by rewrite <- !app_assoc.
Qed.

Lemma codec_i64 : codec (ser_signed 8) (unser_signed 8) (in_s 64).
Proof. exact (codec_signed 8 ltac:(lia)). Qed.

Lemma codec_i32 : codec (ser_signed 4) (unser_signed 4) (in_s 32).
Proof. exact (codec_signed 4 ltac:(lia)). Qed.

Lemma codec_txout : codec ser_txout unser_txout txout_ok.
Proof.
  split.
  - intros o [? ?]. unfold ser_txout. rewrite bytes_ok_app.
    split; [by apply (codec_bytes codec_i64)|by apply (codec_bytes codec_byte_vec)].
  - intros [v spk] s [? ?]. unfold unser_txout, ser_txout. proj.
    rewrite <- app_assoc, (codec_read codec_i64) by done. cbn [rbind].
    by rewrite (codec_read codec_byte_vec).
  - intros b o s Hb E. unfold unser_txout in E.
    inv_read codec_i64 E Hb. inv_read codec_byte_vec E Hb. injection E as <- <-.
    unfold ser_txout. proj. by rewrite <- app_assoc.
Qed.

Definition codec_vin := codec_vector _ _ _ codec_txin.
Definition codec_vout := codec_vector _ _ _ codec_txout.
Definition codec_witness := codec_vector _ _ _ codec_byte_vec.

(** ** Witnesses *)

Lemma ser_vin_strip v : ser_vector ser_txin (map strip v) = ser_vector ser_txin v.
Proof. unfold ser_vector. by rewrite length_map, map_map. Qed.

Lemma vec_ok_strip v : vec_ok txin_full_ok v → vec_ok txin_ok (map strip v).
Proof.
  intros [Hv Hl]. split; [|by rewrite length_map]. clear Hl.
  induction Hv as [|i v [Hi _] Hv IH]; simpl; [constructor|by constructor].
Qed.

Lemma vec_ok_full v : vec_ok txin_ok v → vec_ok txin_full_ok v ∧ vin_HasWitness v = false.
Proof.
  intros [Hv Hl]. assert (Forall txin_full_ok v ∧ vin_HasWitness v = false) as [? ?]; [|done].
  clear Hl. induction Hv as [|[o sig q w] v Hi Hv IH]; simpl; [done|].
  destruct Hi as (? & ? & ? & E). simpl in *. subst w. simpl. destruct IH as [? IH].
  split; [|done]. constructor; [|done]. split; [done|]. split; [constructor|by vm_compute].
Qed.

Lemma no_witness_strip v : vin_HasWitness v = false → map strip v = v.
Proof.
  induction v as [|[o sig q w] v IH]; simpl; [done|]. intros [E1 E2]%orb_false_iff.
  apply negb_false_iff, Nat.eqb_eq in E1. destruct w; [|done]. by rewrite IH.
Qed.

Lemma read_witnesses_ser v s :
  Forall txin_full_ok v →
  read_witnesses (map strip v) (concat (map ser_witness v) ++ s) = Ok (v, s).
Proof.
  induction 1 as [|[o sig q w] v [_ Hw] Hv IH]; [done|]. cbn [map concat read_witnesses].
  rewrite <- app_assoc. unfold ser_witness at 1. rewrite (codec_read codec_witness) by done. cbn [rbind].
  by rewrite IH.
Qed.

Lemma read_witnesses_inv v0 b v s :
  bytes_ok b → Forall txin_ok v0 → read_witnesses v0 b = Ok (v, s) →
  Forall txin_full_ok v ∧ v0 = map strip v ∧ b = concat (map ser_witness v) ++ s ∧ bytes_ok s.
Proof.
  intros Hb H0. revert b v s Hb. induction H0 as [|i v0 Hi H0 IH]; intros b v s Hb E.
  { injection E as <- <-. by repeat split. }
  cbn [read_witnesses] in E. inv_read codec_witness E Hb.
  apply rbind_ok in E as ([v' s'] & E1 & [= <- <-]).
  destruct (IH _ _ _ Hb E1) as (Hv & -> & -> & Hs). destruct i as [o sig q w].
  destruct Hi as (? & ? & ? & Ew). simpl in *. subst w.
  split_and!; [constructor; [by split; [unfold txin_ok; split_and!|]|done]|done|by rewrite <- app_assoc|done].
Qed.

(** ** Whole transactions *)

(** Run the parser monad and the flag tests, and nothing else. *)
Ltac run :=
  repeat (cbn [rbind require negb andb length Nat.eqb] in *;
          change (0 =? 0) with true in *; change (1 =? 0) with false in *;
          change (Z.land 0 1) with 0 in *; change (Z.land 1 1) with 1 in *;
          change (Z.lxor 1 1) with 0 in *); cbn [rbind require negb andb] in *.

(** Every transaction but the ones with outputs and no input. *)
Definition tx_wire_ok (tx : CTransaction) : Prop := tx_ok tx ∧ (vin tx = [] → vout tx = []).

Lemma vec_ok_nil {A} (ok : A → Prop) : vec_ok ok [].
Proof. split; [constructor|by vm_compute]. Qed.

Lemma ser_true_witness tx :
  HasWitness tx = true →
  SerializeTransaction true tx =
  ser_signed 4 (nVersion tx) ++ ser_vector ser_txin [] ++ ser_writedata8 1 ++
  ser_vector ser_txin (vin tx) ++ ser_vector ser_txout (vout tx) ++
  concat (map ser_witness (vin tx)) ++ ser_writedata32 (nLockTime tx).
Proof. intros E. unfold SerializeTransaction. rewrite E. cbn -[ser_vector]. by rewrite <- ?app_assoc. Qed.

Lemma ser_no_witness allow tx :
  allow && HasWitness tx = false →
  SerializeTransaction allow tx =
  ser_signed 4 (nVersion tx) ++ ser_vector ser_txin (vin tx) ++ ser_vector ser_txout (vout tx) ++
  ser_writedata32 (nLockTime tx).
Proof. intros E. unfold SerializeTransaction. by rewrite E. Qed.

Lemma Unserialize_witness tx s :
  tx_ok tx → HasWitness tx = true →
  UnserializeTransaction true (SerializeTransaction true tx ++ s) = Ok (tx, s).
Proof.
  destruct tx as [vi vo ver lock]. intros (Hver & Hvin & Hvout & Hlock) Hw.
  rewrite ser_true_witness by done. unfold HasWitness in Hw. proj. rewrite <- !app_assoc.
  unfold UnserializeTransaction. rewrite (codec_read codec_i32) by done. cbn [rbind].
  rewrite (codec_read codec_vin) by apply vec_ok_nil. cbn [rbind length Nat.eqb andb].
  rewrite (codec_read codec_u8) by (unfold in_u; lia). cbn [rbind negb Z.eqb].
  rewrite <- ser_vin_strip, (codec_read codec_vin) by by apply vec_ok_strip. cbn [rbind].
  rewrite (codec_read codec_vout) by done. cbn [rbind].
  change (negb (Z.land 1 1 =? 0) && true) with true. cbn iota.
  destruct Hvin as [Hvin _]. rewrite read_witnesses_ser by done. cbn [rbind]. rewrite Hw.
  cbn [rbind require]. change (Z.lxor 1 1 =? 0) with true. cbn [rbind require].
  by rewrite (codec_read codec_u32).
Qed.

Lemma Unserialize_plain allow tx s :
  tx_ok tx → HasWitness tx = false → (allow = true → vin tx = [] → vout tx = []) →
  UnserializeTransaction allow (SerializeTransaction allow tx ++ s) = Ok (tx, s).
Proof.
  destruct tx as [vi vo ver lock]. intros (Hver & Hvin & Hvout & Hlock) Hw He.
  rewrite ser_no_witness by by rewrite Hw, andb_false_r. unfold HasWitness in Hw. proj.
  rewrite <- !app_assoc. unfold UnserializeTransaction.
  rewrite (codec_read codec_i32) by done. cbn [rbind].
  rewrite <- (no_witness_strip vi) at 1 by done.
  rewrite (codec_read codec_vin) by by apply vec_ok_strip. cbn [rbind].
  rewrite no_witness_strip by done.
  destruct vi as [|i vi], allow; cbn [length Nat.eqb andb].
  1:{ rewrite He by done. change (ser_vector ser_txout []) with (ser_writedata8 0).
      rewrite (codec_read codec_u8) by (unfold in_u; lia). run.
      by rewrite (codec_read codec_u32). }
  all: rewrite (codec_read codec_vout) by done; run; by rewrite (codec_read codec_u32).
Qed.

Lemma Unserialize_inv allow b tx s :
  bytes_ok b → UnserializeTransaction allow b = Ok (tx, s) →
  tx_ok tx ∧ (allow = true → vin tx = [] → vout tx = []) ∧ (allow = false → HasWitness tx = false) ∧
  b = SerializeTransaction allow tx ++ s.
Proof.
  intros Hb E. unfold UnserializeTransaction in E.
  inv_read codec_i32 E Hb. inv_read codec_vin E Hb.
  apply rbind_ok in E as ([[[vi vo] fl] s2] & E1 & E).
  destruct ((length a0 =? 0)%nat && allow) eqn:Ee.
  - apply andb_true_iff in Ee as [El ->]. apply Nat.eqb_eq in El. destruct a0; [|done].
    inv_read codec_u8 E1 Hb. destruct (a0 =? 0) eqn:Ef; cbn [negb] in E1.
    + apply Z.eqb_eq in Ef. injection E1 as <- <- <- <-. subst a0. run.
      inv_read codec_u32 E Hb. injection E as <- <-.
      split_and!; [split_and!; try done; apply vec_ok_nil|done|done|].
      rewrite ser_no_witness by done. by rewrite <- !app_assoc.
    + apply Z.eqb_neq in Ef. inv_read codec_vin E1 Hb. inv_read codec_vout E1 Hb.
      injection E1 as <- <- <- <-. rewrite andb_true_r in E.
      destruct (Z.land a0 1 =? 0) eqn:E1; cbn [negb rbind] in E.
      { by replace (a0 =? 0) with false in E by lia. }
      apply rbind_ok in E as ([[vi' fl'] s2] & E2 & E).
      apply rbind_ok in E2 as ([vi'' s3] & E2 & E3). apply rbind_ok in E3 as (u & Hw & [= -> <- ->]).
      apply require_ok in Hw. apply rbind_ok in E as (u' & Hf & E). apply require_ok, Z.eqb_eq in Hf.
      apply Z.lxor_eq in Hf. subst a0. destruct Ha2 as [Hvi Hlen].
      destruct (read_witnesses_inv _ _ _ _ Hb Hvi E2) as (Hv & -> & -> & Hs2).
      inv_read codec_u32 E Hs2. injection E as <- <-. rewrite length_map in Hlen.
      split_and!; [done|intros _ Hn; proj; by rewrite Hn in Hw|done|].
      rewrite ser_true_witness by done. proj. by rewrite <- !app_assoc, ser_vin_strip.
  - inv_read codec_vout E1 Hb. injection E1 as <- <- <- <-. run.
    inv_read codec_u32 E Hb. injection E as <- <-. destruct (vec_ok_full _ Ha0) as [Hf Hw].
    split_and!; [done| |done|].
    + intros -> Hn. proj. by subst a0.
    + rewrite ser_no_witness by (unfold HasWitness; proj; by rewrite Hw, andb_false_r).
      proj. by rewrite <- !app_assoc.
Qed.

Lemma codec_tx : codec (SerializeTransaction true) (UnserializeTransaction true) tx_wire_ok.
Proof.
  split.
  - intros tx [(Hver & Hvin & Hvout & Hlock) _]. destruct (HasWitness tx) eqn:Hw.
    + rewrite ser_true_witness by done. rewrite !bytes_ok_app.
      split_and!; [by apply (codec_bytes codec_i32)|by apply (codec_bytes codec_vin), vec_ok_nil|
        apply le_encode_bytes|rewrite <- ser_vin_strip; by apply (codec_bytes codec_vin), vec_ok_strip|
        by apply (codec_bytes codec_vout)| |apply le_encode_bytes].
      destruct Hvin as [Hvin _]. induction Hvin as [|i v [_ Hi] Hv IH]; simpl; [constructor|].
      apply bytes_ok_app. split; [by apply (codec_bytes codec_witness)|done].
    + rewrite ser_no_witness by done. rewrite !bytes_ok_app.
      split_and!; [by apply (codec_bytes codec_i32)|
        rewrite <- ser_vin_strip; by apply (codec_bytes codec_vin), vec_ok_strip|
        by apply (codec_bytes codec_vout)|apply le_encode_bytes].
  - intros tx s [Hok He]. destruct (HasWitness tx) eqn:Hw.
    + by apply Unserialize_witness.
    + by apply Unserialize_plain.
  - intros b tx s Hb E. destruct (Unserialize_inv _ _ _ _ Hb E) as (? & ? & _ & ?).
    split; [|done]. split; auto.
Qed.

#[export] Instance CTransaction_Serializable : Serializable CTransaction :=
  { Ser := SerializeTransaction true; Unser := UnserializeTransaction true }.

#[export] Instance CTransaction_SerLaws : SerLaws CTransaction tx_wire_ok.
Proof. exact codec_tx. Qed.

(** ** Amounts *)

Fixpoint total (l : list CTxOut) : Z :=
  match l with
  | [] => 0
  | o :: l => nValue o + total l
  end.

Definition in_range (o : CTxOut) : Prop := 0 <= nValue o <= MAX_MONEY.

Lemma MoneyRange_spec v : MoneyRange v = true ↔ 0 <= v <= MAX_MONEY.
Proof. unfold MoneyRange. lia. Qed.

Lemma add_money a b : 0 <= a <= MAX_MONEY → 0 <= b <= MAX_MONEY → i64 (a + b) = a + b.
Proof. unfold MAX_MONEY, COIN. intros. apply swrap_small; [lia|]. unfold in_s. lia. Qed.

Lemma total_nonneg l : Forall in_range l → 0 <= total l.
Proof. induction 1 as [|o l Ho Hl IH]; simpl; [lia|]. unfold in_range in Ho. lia. Qed.

Lemma value_out_loop_spec l a v :
  0 <= a <= MAX_MONEY →
  value_out_loop l a = Ok v ↔ Forall in_range l ∧ v = a + total l ∧ v <= MAX_MONEY.
Proof.
  revert a. induction l as [|o l IH]; intros a Ha; cbn [value_out_loop total].
  { rewrite Z.add_0_r. split; [intros [= <-]; split_and!; [constructor|done|lia]|]. by intros (_ & -> & _). }
  rewrite Forall_cons_iff. unfold in_range at 1.
  destruct (MoneyRange (nValue o)) eqn:E1.
  2:{ simpl. split; [done|]. intros [[H _] _]. apply MoneyRange_spec in H. congruence. }
  apply MoneyRange_spec in E1. rewrite add_money by done.
  destruct (MoneyRange (a + nValue o)) eqn:E2; cbn [negb orb].
  - apply MoneyRange_spec in E2. rewrite IH by done. rewrite Z.add_assoc. tauto.
  - split; [done|]. intros ([_ H] & -> & H2). apply total_nonneg in H.
    unfold MoneyRange in E2. lia.
Qed.

Lemma check_outputs_spec l a v :
  0 <= a <= MAX_MONEY → check_outputs l a = Ok v ↔ value_out_loop l a = Ok v.
Proof.
  revert a. induction l as [|o l IH]; intros a Ha; cbn [check_outputs value_out_loop]; [done|].
  unfold MoneyRange at 2. unfold require at 1 2.
  destruct (nValue o <? 0) eqn:E1, (nValue o >? MAX_MONEY) eqn:E2; to_prop; cbn [negb rbind].
  1-3: replace ((nValue o >=? 0) && (nValue o <=? MAX_MONEY)) with false by lia; done.
  replace ((nValue o >=? 0) && (nValue o <=? MAX_MONEY)) with true by lia. cbn [negb orb].
  rewrite add_money by lia.
  destruct (MoneyRange (a + nValue o)) eqn:E3; cbn [negb require rbind]; [|done].
  apply IH. by apply MoneyRange_spec.
Qed.

Lemma GetValueOut_spec tx v :
  GetValueOut tx = Ok v ↔ Forall in_range (vout tx) ∧ v = total (vout tx) ∧ v <= MAX_MONEY.
Proof.
  unfold GetValueOut. rewrite rbind_ok. setoid_rewrite value_out_loop_spec; [|unfold MAX_MONEY, COIN; lia].
  split.
  - intros (a & (H & -> & Hm) & E). apply rbind_ok in E as (u & _ & [= <-]). done.
  - intros (H & -> & Hm). exists (total (vout tx)). split; [done|].
    rewrite (proj2 (MoneyRange_spec _)); [done|]. by split; [apply total_nonneg|].
Qed.

Lemma check_duplicates_spec l X :
  check_duplicates l X = Ok tt ↔ NoDup (map prevout l) ∧ ∀ i, i ∈ l → prevout i ∉ X.
Proof.
  revert X. induction l as [|i l IH]; intros X; cbn [check_duplicates map].
  { split; [|done]. intros _. split; [constructor|]. intros i Hi. by apply not_elem_of_nil in Hi. }
  rewrite list.NoDup_cons. case_bool_decide as Hd; cbn [negb require rbind].
  - split; [done|]. intros [_ H]. by destruct (H i); [left|].
  - rewrite IH. split.
    + intros [H1 H2]. split; [split; [|done]|].
      * intros (j & E & Hj)%list_elem_of_fmap. apply (H2 j Hj).
        rewrite <- E. apply elem_of_union_l. by apply elem_of_singleton.
      * intros j [->|Hj]%elem_of_cons; [done|]. intros Hx. apply (H2 j Hj). by apply elem_of_union_r.
    + intros [[H1 H2] H3]. split; [done|]. intros j Hj.
      apply not_elem_of_union. split; [|apply H3; by right].
      rewrite not_elem_of_singleton. intros E. apply H1. rewrite <- E. by apply list_elem_of_fmap_2.
Qed.

(** The structural validity [CheckTransaction] decides. *)
Definition tx_valid (tx : CTransaction) : Prop :=
  vin tx ≠ [] ∧ vout tx ≠ [] ∧
  GetSerializeSize false tx * WITNESS_SCALE_FACTOR <= MAX_BLOCK_WEIGHT ∧
  Forall in_range (vout tx) ∧ total (vout tx) <= MAX_MONEY ∧
  NoDup (map prevout (vin tx)) ∧
  if IsCoinBase tx then 2 <= size (front_scriptSig tx) <= 100
  else Forall (fun i => outpoint_IsNull (prevout i) = false) (vin tx).

Lemma CheckTransaction_spec tx : CheckTransaction tx = Ok tt ↔ tx_valid tx.
Proof.
  unfold CheckTransaction, tx_valid. rewrite !rbind_ok.
  setoid_rewrite require_ok. split.
  - intros ([] & H1 & E). apply rbind_ok in E as ([] & H2 & E). apply rbind_ok in E as ([] & H3 & E).
    apply rbind_ok in E as (v & H4 & E). apply rbind_ok in E as ([] & H5 & E).
    apply require_ok in H2, H3. apply negb_true_iff, Nat.eqb_neq in H1, H2.
    apply check_outputs_spec, value_out_loop_spec in H4 as (H4 & -> & H4'); [|unfold MAX_MONEY, COIN; lia..].
    apply check_duplicates_spec in H5 as [H5 _].
    split_and!; [by destruct (vin tx)|by destruct (vout tx)|lia|done|lia|done|].
    destruct (IsCoinBase tx); apply require_ok in E; [lia|].
    rewrite forallb_forall in E. apply List.Forall_forall. intros i Hi.
    by apply negb_true_iff, E.
  - intros (H1 & H2 & H3 & H4 & H4' & H5 & H6). exists tt.
    split; [by destruct (vin tx)|].
    replace (length (vout tx) =? 0)%nat with false by by destruct (vout tx).
    replace (_ >? MAX_BLOCK_WEIGHT) with false by lia. cbn [negb require rbind].
    assert (check_outputs (vout tx) 0 = Ok (total (vout tx))) as ->.
    { apply check_outputs_spec, value_out_loop_spec; [unfold MAX_MONEY, COIN; lia..|done]. }
    cbn [rbind].
    rewrite (proj2 (check_duplicates_spec _ _)) by set_solver. cbn [rbind].
    destruct (IsCoinBase tx); apply require_ok; [lia|].
    apply forallb_forall. intros i Hi. rewrite List.Forall_forall in H6. by rewrite H6.
Qed.

End TransactionFacts.

Module TransactionProps.
Import Amount Transaction SerializeFacts TransactionFacts.

(** The transaction without its witnesses. *)
Definition strip_tx (tx : CTransaction) : CTransaction :=
  mkTx (map strip (vin tx)) (vout tx) (nVersion tx) (nLockTime tx).

(** C36: the transaction format with witnesses is a bijection: every
    transaction whose fields are in range, except one with outputs and no
    input, is read back from its serialization, and every accepted byte string
    is the serialization of the transaction read ("superfluous" witnesses and
    unknown flags are refused).  The format without witnesses reads back the
    transaction with empty witnesses. *)
Theorem transaction_wire_format :
  codec (SerializeTransaction true) (UnserializeTransaction true) tx_wire_ok ∧
  (∀ tx s, tx_ok tx →
     UnserializeTransaction false (SerializeTransaction false tx ++ s) = Ok (strip_tx tx, s)).
Proof.
  split; [apply codec_tx|]. intros tx s (Hver & Hvin & Hvout & Hlock).
  assert (SerializeTransaction false tx = SerializeTransaction false (strip_tx tx)) as ->.
  { rewrite !ser_no_witness by done. cbn. by rewrite ser_vin_strip. }
  destruct (vec_ok_full _ (vec_ok_strip _ Hvin)). by apply Unserialize_plain.
Qed.

(** C37: [CheckTransaction] accepts exactly the transactions with inputs and
    outputs, of admissible size, whose output values and their total are in
    the money range, that spend no outpoint twice, and whose coinbase script
    has 2 to 100 bytes or whose inputs are not null; then [GetValueOut] does
    not throw and returns the total, without overflowing [int64_t]. *)
Theorem CheckTransaction_correct (tx : CTransaction) :
  (CheckTransaction tx = Ok tt ↔ tx_valid tx) ∧
  (tx_valid tx → GetValueOut tx = Ok (total (vout tx))).
Proof.
  split; [apply CheckTransaction_spec|]. intros (_ & _ & _ & H & Hm & _). by apply GetValueOut_spec.
Qed.

(** A transaction both theorems apply to. *)
Definition demo_tx : CTransaction :=
  mkTx [mkTxIn (mkOutPoint (replicate 32 7) 0) [OP_1] SEQUENCE_FINAL [[1; 2]; []]]
       [mkTxOut (5 * COIN) [OP_DUP; OP_DROP; OP_1]] 2 0.

Lemma CheckTransaction_correct_witness :
  CheckTransaction demo_tx = Ok tt ∧ tx_valid demo_tx ∧ GetValueOut demo_tx = Ok (5 * COIN).
Proof.
  assert (CheckTransaction demo_tx = Ok tt) as H by by vm_compute.
  destruct (CheckTransaction_correct demo_tx) as [H1 H2].
  split; [exact H|]. split; [by apply H1|]. exact (H2 (proj1 H1 H)).
Defined.

End TransactionProps.
