(* ===== verification/Interpreter.v ===== *)
(** The script interpreter: [src/script/interpreter.cpp] and
    [src/script/interpreter.h], up to [EvalScript].

    A [std::vector] used as a stack is a list with its top first, so
    [stacktop(-i)] is element [i - 1].  Returning false with [*serror] set is
    [Err (Fail e)]; a failed [assert], which the [catch] of [EvalScript] does
    not see, is [Err Aborted]; the exceptions it does catch are already
    [SCRIPT_ERR_UNKNOWN_ERROR].  The loops that read instructions have the length
    of the script as fuel, since an instruction is at least one byte, and
    would return [Err OutOfFuel]. *)
From Stdlib Require Import ZArith Lia.
From stdpp Require Import gmap.
From S2P Require Import Prelude Serialize Script Transaction.
Import Script.
Local Open Scope bb_scope.

(** ** Flags, versions and errors *)

Module ScriptFlags.

Definition SCRIPT_VERIFY_P2SH : Z := 2 ^ 0.
Definition SCRIPT_VERIFY_STRICTENC : Z := 2 ^ 1.
Definition SCRIPT_VERIFY_DERSIG : Z := 2 ^ 2.
Definition SCRIPT_VERIFY_LOW_S : Z := 2 ^ 3.
Definition SCRIPT_VERIFY_NULLDUMMY : Z := 2 ^ 4.
Definition SCRIPT_VERIFY_SIGPUSHONLY : Z := 2 ^ 5.
Definition SCRIPT_VERIFY_MINIMALDATA : Z := 2 ^ 6.
Definition SCRIPT_VERIFY_DISCOURAGE_UPGRADABLE_NOPS : Z := 2 ^ 7.
Definition SCRIPT_VERIFY_CLEANSTACK : Z := 2 ^ 8.
Definition SCRIPT_VERIFY_CHECKLOCKTIMEVERIFY : Z := 2 ^ 9.
Definition SCRIPT_VERIFY_CHECKSEQUENCEVERIFY : Z := 2 ^ 10.
Definition SCRIPT_VERIFY_WITNESS : Z := 2 ^ 11.
Definition SCRIPT_VERIFY_DISCOURAGE_UPGRADABLE_WITNESS_PROGRAM : Z := 2 ^ 12.
Definition SCRIPT_VERIFY_MINIMALIF : Z := 2 ^ 13.
Definition SCRIPT_VERIFY_NULLFAIL : Z := 2 ^ 14.
Definition SCRIPT_VERIFY_WITNESS_PUBKEYTYPE : Z := 2 ^ 15.
Definition SCRIPT_VERIFY_CONST_SCRIPTCODE : Z := 2 ^ 16.
Definition SCRIPT_VERIFY_TAPROOT : Z := 2 ^ 17.
Definition SCRIPT_VERIFY_DISCOURAGE_UPGRADABLE_TAPROOT_VERSION : Z := 2 ^ 18.
Definition SCRIPT_VERIFY_DISCOURAGE_OP_SUCCESS : Z := 2 ^ 19.
Definition SCRIPT_VERIFY_DISCOURAGE_UPGRADABLE_PUBKEYTYPE : Z := 2 ^ 20.

Definition WITNESS_V0_SCRIPTHASH_SIZE : Z := 32.
Definition WITNESS_V0_KEYHASH_SIZE : Z := 20.
Definition WITNESS_V1_TAPROOT_SIZE : Z := 32.

(** [flags & f], as a condition. *)
Definition flag (flags f : Z) : bool := negb (Z.land flags f =? 0).

End ScriptFlags.

Module Interpreter.
Import ScriptFlags.

Definition SIGHASH_DEFAULT : Z := 0.
Definition SIGHASH_ALL : Z := 1.
Definition SIGHASH_NONE : Z := 2.
Definition SIGHASH_SINGLE : Z := 3.
Definition SIGHASH_ANYONECANPAY : Z := 0x80.
Definition SIGHASH_OUTPUT_MASK : Z := 3.
Definition SIGHASH_INPUT_MASK : Z := 0x80.

Inductive SigVersion : Type := BASE | WITNESS_V0 | TAPROOT | TAPSCRIPT.

Global Instance SigVersion_eq_dec : EqDecision SigVersion.
Proof. solve_decision. Defined.

Inductive ScriptError : Type :=
| SCRIPT_ERR_UNKNOWN_ERROR
| SCRIPT_ERR_EVAL_FALSE
| SCRIPT_ERR_OP_RETURN
| SCRIPT_ERR_SCRIPT_SIZE
| SCRIPT_ERR_PUSH_SIZE
| SCRIPT_ERR_OP_COUNT
| SCRIPT_ERR_STACK_SIZE
| SCRIPT_ERR_SIG_COUNT
| SCRIPT_ERR_PUBKEY_COUNT
| SCRIPT_ERR_VERIFY
| SCRIPT_ERR_EQUALVERIFY
| SCRIPT_ERR_CHECKMULTISIGVERIFY
| SCRIPT_ERR_CHECKSIGVERIFY
| SCRIPT_ERR_NUMEQUALVERIFY
| SCRIPT_ERR_BAD_OPCODE
| SCRIPT_ERR_DISABLED_OPCODE
| SCRIPT_ERR_INVALID_STACK_OPERATION
| SCRIPT_ERR_INVALID_ALTSTACK_OPERATION
| SCRIPT_ERR_UNBALANCED_CONDITIONAL
| SCRIPT_ERR_NEGATIVE_LOCKTIME
| SCRIPT_ERR_UNSATISFIED_LOCKTIME
| SCRIPT_ERR_SIG_HASHTYPE
| SCRIPT_ERR_SIG_DER
| SCRIPT_ERR_MINIMALDATA
| SCRIPT_ERR_SIG_PUSHONLY
| SCRIPT_ERR_SIG_HIGH_S
| SCRIPT_ERR_SIG_NULLDUMMY
| SCRIPT_ERR_PUBKEYTYPE
| SCRIPT_ERR_CLEANSTACK
| SCRIPT_ERR_MINIMALIF
| SCRIPT_ERR_SIG_NULLFAIL
| SCRIPT_ERR_DISCOURAGE_UPGRADABLE_NOPS
| SCRIPT_ERR_DISCOURAGE_UPGRADABLE_WITNESS_PROGRAM
| SCRIPT_ERR_DISCOURAGE_UPGRADABLE_TAPROOT_VERSION
| SCRIPT_ERR_DISCOURAGE_OP_SUCCESS
| SCRIPT_ERR_DISCOURAGE_UPGRADABLE_PUBKEYTYPE
| SCRIPT_ERR_WITNESS_PROGRAM_WRONG_LENGTH
| SCRIPT_ERR_WITNESS_PROGRAM_WITNESS_EMPTY
| SCRIPT_ERR_WITNESS_PROGRAM_MISMATCH
| SCRIPT_ERR_WITNESS_MALLEATED
| SCRIPT_ERR_WITNESS_MALLEATED_P2SH
| SCRIPT_ERR_WITNESS_UNEXPECTED
| SCRIPT_ERR_WITNESS_PUBKEYTYPE
| SCRIPT_ERR_SCHNORR_SIG_SIZE
| SCRIPT_ERR_SCHNORR_SIG_HASHTYPE
| SCRIPT_ERR_SCHNORR_SIG
| SCRIPT_ERR_TAPROOT_WRONG_CONTROL_SIZE
| SCRIPT_ERR_TAPSCRIPT_VALIDATION_WEIGHT
| SCRIPT_ERR_TAPSCRIPT_CHECKMULTISIG
| SCRIPT_ERR_TAPSCRIPT_MINIMALIF
| SCRIPT_ERR_OP_CODESEPARATOR
| SCRIPT_ERR_SIG_FINDANDDELETE.

Inductive eval_error : Type :=
| Fail (e : ScriptError)
| Aborted
| OutOfFuel.

Abbreviation eval A := (result eval_error A).

(** [set_error(serror, e)]. *)
Definition set_error {A} (e : ScriptError) : eval A := Err (Fail e).

(** An [assert]. *)
Definition assert (c : bool) : eval unit := require c Aborted.

(** [if (c) return set_error(serror, e);] *)
Definition fail_if (c : bool) (e : ScriptError) : eval unit := require (negb c) (Fail e).

(** A field guarded by an [..._init] flag is an option, empty until the flag is
    set. *)
Record ScriptExecutionData := mkExec {
  m_tapleaf_hash : option uint256;
  m_codeseparator_pos : option Z;
  m_annex : option (option uint256);   (* initialised; present, with its hash *)
  m_validation_weight_left : option Z;
  m_output_hash : option uint256;
}.

Definition execdata_empty : ScriptExecutionData := mkExec None None None None None.

Definition with_codeseparator_pos (d : ScriptExecutionData) (pos : Z) : ScriptExecutionData :=
  mkExec (m_tapleaf_hash d) (Some pos) (m_annex d) (m_validation_weight_left d) (m_output_hash d).
Definition with_weight_left (d : ScriptExecutionData) (w : Z) : ScriptExecutionData :=
  mkExec (m_tapleaf_hash d) (m_codeseparator_pos d) (m_annex d) (Some w) (m_output_hash d).

(** [BaseSignatureChecker]: its virtual methods.  [CheckSchnorrSignature]
    returns the execution data it updates, and sets the error when it fails. *)
Record BaseSignatureChecker := mkChecker {
  CheckECDSASignature : valtype → valtype → CScript → SigVersion → eval bool;
  CheckSchnorrSignature : valtype → valtype → SigVersion → ScriptExecutionData → eval ScriptExecutionData;
  CheckHybridSignature : valtype → valtype → valtype → valtype → valtype → eval bool;
  CheckLockTime : Z → bool;
  CheckSequence : Z → bool;
}.

(** The primitives of the vendored cryptographic code the interpreter calls. *)
Record script_hashes := mkHashes {
  SHA1 : list Z → list Z;
  SHA256 : list Z → list Z;
  RIPEMD160 : list Z → list Z;
  CheckLowS : valtype → bool;   (* [CPubKey::CheckLowS], in secp256k1 *)
}.

Definition CHash160 (h : script_hashes) (v : list Z) : list Z := RIPEMD160 h (SHA256 h v).
Definition CHash256 (h : script_hashes) (v : list Z) : list Z := SHA256 h (SHA256 h v).

Definition vchFalse : valtype := [].
Definition vchTrue : valtype := [1].
Definition vch_bool (b : bool) : valtype := if b then vchTrue else vchFalse.

Fixpoint CastToBool (vch : valtype) : bool :=
  match vch with
  | [] => false
  | b :: rest =>
      if negb (b =? 0) then
        (* can be negative zero *)
        negb ((length rest =? 0)%nat && (b =? 0x80))
      else CastToBool rest
  end.

(** ** Encodings of keys and signatures *)

Definition COMPRESSED_SIZE : Z := 33.
Definition UNCOMPRESSED_SIZE : Z := 65.

Definition IsCompressedOrUncompressedPubKey (vchPubKey : valtype) : bool :=
  if size vchPubKey <? COMPRESSED_SIZE then false
  else if byte_at vchPubKey 0 =? 0x04 then size vchPubKey =? UNCOMPRESSED_SIZE
  else if (byte_at vchPubKey 0 =? 0x02) || (byte_at vchPubKey 0 =? 0x03)
  then size vchPubKey =? COMPRESSED_SIZE
  else false.

Definition IsCompressedPubKey (vchPubKey : valtype) : bool :=
  if negb (size vchPubKey =? COMPRESSED_SIZE) then false
  else if negb (byte_at vchPubKey 0 =? 0x02) && negb (byte_at vchPubKey 0 =? 0x03) then false
  else true.

Definition IsValidSignatureEncoding (sig : valtype) : bool :=
  let at_ i := byte_at sig (Z.to_nat i) in
  if size sig <? 9 then false
  else if size sig >? 73 then false
  else if negb (at_ 0 =? 0x30) then false
  else if negb (at_ 1 =? size sig - 3) then false
  else
    let lenR := at_ 3 in
    if 5 + lenR >=? size sig then false
    else
      let lenS := at_ (5 + lenR) in
      if negb (lenR + lenS + 7 =? size sig) then false
      else if negb (at_ 2 =? 0x02) then false
      else if lenR =? 0 then false
      else if negb (Z.land (at_ 4) 0x80 =? 0) then false
      else if (lenR >? 1) && (at_ 4 =? 0x00) && (Z.land (at_ 5) 0x80 =? 0) then false
      else if negb (at_ (lenR + 4) =? 0x02) then false
      else if lenS =? 0 then false
      else if negb (Z.land (at_ (lenR + 6)) 0x80 =? 0) then false
      else if (lenS >? 1) && (at_ (lenR + 6) =? 0x00) && (Z.land (at_ (lenR + 7)) 0x80 =? 0) then false
      else true.

Section Encodings.
Context (hashes : script_hashes) (flags : Z).

Definition IsLowDERSignature (vchSig : valtype) : eval unit :=
  let! _ := fail_if (negb (IsValidSignatureEncoding vchSig)) SCRIPT_ERR_SIG_DER in
  fail_if (negb (CheckLowS hashes (take (length vchSig - 1) vchSig))) SCRIPT_ERR_SIG_HIGH_S.

Definition IsDefinedHashtypeSignature (vchSig : valtype) : bool :=
  if size vchSig =? 0 then false
  else
    let nHashType := Z.land (byte_at vchSig (length vchSig - 1)) (u8 (Z.lnot SIGHASH_ANYONECANPAY)) in
    negb ((nHashType <? SIGHASH_ALL) || (nHashType >? SIGHASH_SINGLE)).

Definition CheckSignatureEncoding (vchSig : valtype) : eval unit :=
  if size vchSig =? 0 then Ok tt
  else if flag flags (Z.lor SCRIPT_VERIFY_DERSIG (Z.lor SCRIPT_VERIFY_LOW_S SCRIPT_VERIFY_STRICTENC)) &&
          negb (IsValidSignatureEncoding vchSig)
  then set_error SCRIPT_ERR_SIG_DER
  else
    let! _ := if flag flags SCRIPT_VERIFY_LOW_S then IsLowDERSignature vchSig else Ok tt in
    fail_if (flag flags SCRIPT_VERIFY_STRICTENC && negb (IsDefinedHashtypeSignature vchSig))
      SCRIPT_ERR_SIG_HASHTYPE.

Definition CheckPubKeyEncoding (vchPubKey : valtype) (sigversion : SigVersion) : eval unit :=
  let! _ := fail_if (flag flags SCRIPT_VERIFY_STRICTENC && negb (IsCompressedOrUncompressedPubKey vchPubKey))
              SCRIPT_ERR_PUBKEYTYPE in
  fail_if (flag flags SCRIPT_VERIFY_WITNESS_PUBKEYTYPE && bool_decide (sigversion = WITNESS_V0) &&
           negb (IsCompressedPubKey vchPubKey)) SCRIPT_ERR_WITNESS_PUBKEYTYPE.

End Encodings.

(** ** [FindAndDelete] *)

(** [while (end - pc >= b.size() && std::equal(b.begin(), b.end(), pc))]: the
    position after the copies of [b], and their number.  [b] is not empty. *)
Fixpoint skip_copies (fuel : nat) (b pc : CScript) (nFound : Z) : CScript * Z :=
  match fuel with
  | O => (pc, nFound)
  | S fuel =>
      if bool_decide (take (length b) pc = b) then skip_copies fuel b (drop (length b) pc) (nFound + 1)
      else (pc, nFound)
  end.

(** The [do]-loop; [pc2] and [pc] are the bytes from these positions on, so the
    bytes between them are the first [length pc2 - length pc]. *)
Fixpoint find_delete_loop (fuel : nat) (b pc2 pc result : CScript) (nFound : Z) : option (CScript * CScript * Z) :=
  match fuel with
  | O => None
  | S fuel =>
      let result := result ++ take (length pc2 - length pc) pc2 in
      let '(pc, nFound) := skip_copies (length pc) b pc nFound in
      let pc2 := pc in
      match GetScriptOp pc with
      | None => Some (result, pc2, nFound)
      | Some (_, _, pc) => find_delete_loop fuel b pc2 pc result nFound
      end
  end.

(** The number of copies found, and the script without them. *)
Definition FindAndDelete (script b : CScript) : eval (Z * CScript) :=
  if (length b =? 0)%nat then Ok (0, script)
  else match find_delete_loop (S (length script)) b script script [] 0 with
       | None => Err OutOfFuel
       | Some (result, pc2, nFound) =>
           Ok (nFound, if nFound >? 0 then result ++ pc2 else script)
       end.

(** ** [ConditionStack] *)

Definition NO_FALSE : Z := 2 ^ 32 - 1.

Record ConditionStack := mkCond { m_stack_size : Z; m_first_false_pos : Z }.

Definition cond_new : ConditionStack := mkCond 0 NO_FALSE.
Definition cond_empty (c : ConditionStack) : bool := m_stack_size c =? 0.
Definition all_true (c : ConditionStack) : bool := m_first_false_pos c =? NO_FALSE.

Definition cond_push_back (c : ConditionStack) (f : bool) : ConditionStack :=
  mkCond (u32 (m_stack_size c + 1))
    (if (m_first_false_pos c =? NO_FALSE) && negb f then m_stack_size c else m_first_false_pos c).

Definition cond_pop_back (c : ConditionStack) : eval ConditionStack :=
  let! _ := assert (m_stack_size c >? 0) in
  let m_stack_size := m_stack_size c - 1 in
  Ok (mkCond m_stack_size (if m_first_false_pos c =? m_stack_size then NO_FALSE else m_first_false_pos c)).

Definition toggle_top (c : ConditionStack) : eval ConditionStack :=
  let! _ := assert (m_stack_size c >? 0) in
  Ok (mkCond (m_stack_size c)
        (if m_first_false_pos c =? NO_FALSE then m_stack_size c - 1
         else if m_first_false_pos c =? m_stack_size c - 1 then NO_FALSE
         else m_first_false_pos c)).

(** ** Signature checks *)

Section Eval.
Context (hashes : script_hashes) (flags : Z) (checker : BaseSignatureChecker) (sigversion : SigVersion).

Definition is_base : bool := bool_decide (sigversion = BASE).
Definition is_tapscript : bool := bool_decide (sigversion = TAPSCRIPT).
(** [sigversion == SigVersion::BASE || sigversion == SigVersion::WITNESS_V0] *)
Definition pre_tapscript : bool := is_base || bool_decide (sigversion = WITNESS_V0).

(** Dropping the signature [vchSig] from the script code. *)
Definition drop_signature (scriptCode : CScript) (vchSig : valtype) : eval CScript :=
  if is_base then
    let! (found, scriptCode) := FindAndDelete scriptCode (push_vec [] vchSig) in
    let! _ := fail_if ((found >? 0) && flag flags SCRIPT_VERIFY_CONST_SCRIPTCODE) SCRIPT_ERR_SIG_FINDANDDELETE in
    Ok scriptCode
  else Ok scriptCode.

(** [scriptCode]: the script from the last code separator on. *)
Definition EvalChecksigPreTapscript (vchSig vchPubKey : valtype) (scriptCode : CScript) : eval bool :=
  let! _ := assert pre_tapscript in
  let! scriptCode := drop_signature scriptCode vchSig in
  let! _ := CheckSignatureEncoding hashes flags vchSig in
  let! _ := CheckPubKeyEncoding flags vchPubKey sigversion in
  let! fSuccess := CheckECDSASignature checker vchSig vchPubKey scriptCode sigversion in
  let! _ := fail_if (negb fSuccess && flag flags SCRIPT_VERIFY_NULLFAIL && negb (size vchSig =? 0))
              SCRIPT_ERR_SIG_NULLFAIL in
  Ok fSuccess.

Definition EvalChecksigTapscript (sig pubkey : valtype) (execdata : ScriptExecutionData)
    : eval (bool * ScriptExecutionData) :=
  let! _ := assert is_tapscript in
  let success := negb (size sig =? 0) in
  let! execdata :=
    if success then
      match m_validation_weight_left execdata with
      | None => Err Aborted
      | Some weight =>
          let weight := i64 (weight - VALIDATION_WEIGHT_PER_SIGOP_PASSED) in
          let! _ := fail_if (weight <? 0) SCRIPT_ERR_TAPSCRIPT_VALIDATION_WEIGHT in
          Ok (with_weight_left execdata weight)
      end
    else Ok execdata in
  if size pubkey =? 0 then set_error SCRIPT_ERR_PUBKEYTYPE
  else if size pubkey =? 32 then
    if success then
      let! execdata := CheckSchnorrSignature checker sig pubkey sigversion execdata in Ok (success, execdata)
    else Ok (success, execdata)
  else
    let! _ := fail_if (flag flags SCRIPT_VERIFY_DISCOURAGE_UPGRADABLE_PUBKEYTYPE)
                SCRIPT_ERR_DISCOURAGE_UPGRADABLE_PUBKEYTYPE in
    Ok (success, execdata).

Definition EvalChecksig (sig pubkey : valtype) (scriptCode : CScript) (execdata : ScriptExecutionData)
    : eval (bool * ScriptExecutionData) :=
  match sigversion with
  | BASE | WITNESS_V0 =>
      let! success := EvalChecksigPreTapscript sig pubkey scriptCode in Ok (success, execdata)
  | TAPSCRIPT => EvalChecksigTapscript sig pubkey execdata
  | TAPROOT => Err Aborted
  end.

(** ** Opcodes on the main stack *)

Definition fRequireMinimal : bool := flag flags SCRIPT_VERIFY_MINIMALDATA.

(** [CScriptNum(vch, fRequireMinimal, nMaxNumSize)]; its exceptions are caught
    by [EvalScript]. *)
Definition num_of (vch : valtype) (nMaxNumSize : Z) : eval Z :=
  match CScriptNum.CScriptNum vch fRequireMinimal nMaxNumSize with
  | Ok n => Ok n
  | Err _ => set_error SCRIPT_ERR_UNKNOWN_ERROR
  end.

Definition num4 (vch : valtype) : eval Z := num_of vch CScriptNum.nDefaultMaxNumSize.

Definition getvch (n : Z) : valtype := CScriptNum.serialize n.

Definition bad_stack {A} : eval A := set_error SCRIPT_ERR_INVALID_STACK_OPERATION.

Definition is_stack_op (opcode : Z) : bool :=
  ((OP_2DROP <=? opcode) && (opcode <=? OP_TUCK)) || (opcode =? OP_SIZE).

(** The stack operations that neither fail on a number nor touch the alternative
    stack: [OP_2DROP] .. [OP_TUCK] without [OP_PICK] and [OP_ROLL], and [OP_SIZE]. *)
Definition stack_op (opcode : Z) (stack : list valtype) : eval (list valtype) :=
  if opcode =? OP_2DROP then
    match stack with _ :: _ :: s => Ok s | _ => bad_stack end
  else if opcode =? OP_2DUP then
    match stack with x2 :: x1 :: _ => Ok (x2 :: x1 :: stack) | _ => bad_stack end
  else if opcode =? OP_3DUP then
    match stack with x3 :: x2 :: x1 :: _ => Ok (x3 :: x2 :: x1 :: stack) | _ => bad_stack end
  else if opcode =? OP_2OVER then
    match stack with _ :: _ :: x2 :: x1 :: _ => Ok (x2 :: x1 :: stack) | _ => bad_stack end
  else if opcode =? OP_2ROT then
    match stack with
    | x6 :: x5 :: x4 :: x3 :: x2 :: x1 :: s => Ok (x2 :: x1 :: x6 :: x5 :: x4 :: x3 :: s)
    | _ => bad_stack
    end
  else if opcode =? OP_2SWAP then
    match stack with x4 :: x3 :: x2 :: x1 :: s => Ok (x2 :: x1 :: x4 :: x3 :: s) | _ => bad_stack end
  else if opcode =? OP_IFDUP then
    match stack with vch :: _ => Ok (if CastToBool vch then vch :: stack else stack) | _ => bad_stack end
  else if opcode =? OP_DEPTH then Ok (getvch (size stack) :: stack)
  else if opcode =? OP_DROP then
    match stack with _ :: s => Ok s | _ => bad_stack end
  else if opcode =? OP_DUP then
    match stack with vch :: _ => Ok (vch :: stack) | _ => bad_stack end
  else if opcode =? OP_NIP then
    match stack with x2 :: _ :: s => Ok (x2 :: s) | _ => bad_stack end
  else if opcode =? OP_OVER then
    match stack with _ :: x1 :: _ => Ok (x1 :: stack) | _ => bad_stack end
  else if opcode =? OP_ROT then
    match stack with x3 :: x2 :: x1 :: s => Ok (x1 :: x3 :: x2 :: s) | _ => bad_stack end
  else if opcode =? OP_SWAP then
    match stack with x2 :: x1 :: s => Ok (x1 :: x2 :: s) | _ => bad_stack end
  else if opcode =? OP_TUCK then
    match stack with x2 :: x1 :: s => Ok (x2 :: x1 :: x2 :: s) | _ => bad_stack end
  else (* OP_SIZE *)
    match stack with vch :: _ => Ok (getvch (size vch) :: stack) | _ => bad_stack end.

(** [OP_PICK] and [OP_ROLL]. *)
Definition op_pick (opcode : Z) (stack : list valtype) : eval (list valtype) :=
  match stack with
  | top :: ((_ :: _) as stack) =>
      let! bn := num4 top in
      let n := CScriptNum.getint bn in
      if (n <? 0) || (n >=? size stack) then bad_stack
      else
        let vch := default [] (stack !! Z.to_nat n) in
        Ok (vch :: if opcode =? OP_ROLL then delete (Z.to_nat n) stack else stack)
  | _ => bad_stack
  end.

(** [OP_EQUAL] and [OP_EQUALVERIFY]. *)
Definition op_equal (opcode : Z) (stack : list valtype) : eval (list valtype) :=
  match stack with
  | x2 :: x1 :: s =>
      let fEqual := bool_decide (x1 = x2) in
      if opcode =? OP_EQUALVERIFY then
        let! _ := fail_if (negb fEqual) SCRIPT_ERR_EQUALVERIFY in Ok s
      else Ok (vch_bool fEqual :: s)
  | _ => bad_stack
  end.

(** [operator+=] and [operator-=] with their assertions; the arguments are
    [int64_t] values. *)
Definition num_add_assign (m_value rhs : Z) : eval Z :=
  let! _ := assert ((rhs =? 0) || ((rhs >? 0) && (m_value <=? 2 ^ 63 - 1 - rhs)) ||
                    ((rhs <? 0) && (m_value >=? - 2 ^ 63 - rhs))) in
  Ok (m_value + rhs).
Definition num_sub_assign (m_value rhs : Z) : eval Z :=
  let! _ := assert ((rhs =? 0) || ((rhs >? 0) && (m_value >=? - 2 ^ 63 + rhs)) ||
                    ((rhs <? 0) && (m_value <=? 2 ^ 63 - 1 + rhs))) in
  Ok (m_value - rhs).
Definition num_neg (m_value : Z) : eval Z :=
  let! _ := assert (negb (m_value =? - 2 ^ 63)) in Ok (- m_value).

Definition is_unary_num (opcode : Z) : bool :=
  (opcode =? OP_1ADD) || (opcode =? OP_1SUB) || (opcode =? OP_NEGATE) || (opcode =? OP_ABS) ||
  (opcode =? OP_NOT) || (opcode =? OP_0NOTEQUAL).

Definition unary_num (opcode bn : Z) : eval Z :=
  if opcode =? OP_1ADD then num_add_assign bn 1
  else if opcode =? OP_1SUB then num_sub_assign bn 1
  else if opcode =? OP_NEGATE then num_neg bn
  else if opcode =? OP_ABS then if bn <? 0 then num_neg bn else Ok bn
  else if opcode =? OP_NOT then Ok (Z.b2z (bn =? 0))
  else (* OP_0NOTEQUAL *) Ok (Z.b2z (negb (bn =? 0))).

Definition op_unary (opcode : Z) (stack : list valtype) : eval (list valtype) :=
  match stack with
  | x :: s =>
      let! bn := num4 x in
      let! bn := unary_num opcode bn in
      Ok (getvch bn :: s)
  | _ => bad_stack
  end.

Definition is_binary_num (opcode : Z) : bool :=
  (opcode =? OP_ADD) || (opcode =? OP_SUB) || ((OP_BOOLAND <=? opcode) && (opcode <=? OP_MAX)).

(** [operator+] and [operator-] on [int64_t] have no check. *)
Definition binary_num (opcode bn1 bn2 : Z) : Z :=
  if opcode =? OP_ADD then i64 (bn1 + bn2)
  else if opcode =? OP_SUB then i64 (bn1 - bn2)
  else if opcode =? OP_BOOLAND then Z.b2z (negb (bn1 =? 0) && negb (bn2 =? 0))
  else if opcode =? OP_BOOLOR then Z.b2z (negb (bn1 =? 0) || negb (bn2 =? 0))
  else if (opcode =? OP_NUMEQUAL) || (opcode =? OP_NUMEQUALVERIFY) then Z.b2z (bn1 =? bn2)
  else if opcode =? OP_NUMNOTEQUAL then Z.b2z (negb (bn1 =? bn2))
  else if opcode =? OP_LESSTHAN then Z.b2z (bn1 <? bn2)
  else if opcode =? OP_GREATERTHAN then Z.b2z (bn1 >? bn2)
  else if opcode =? OP_LESSTHANOREQUAL then Z.b2z (bn1 <=? bn2)
  else if opcode =? OP_GREATERTHANOREQUAL then Z.b2z (bn1 >=? bn2)
  else if opcode =? OP_MIN then if bn1 <? bn2 then bn1 else bn2
  else (* OP_MAX *) if bn1 >? bn2 then bn1 else bn2.

Definition op_binary (opcode : Z) (stack : list valtype) : eval (list valtype) :=
  match stack with
  | x2 :: x1 :: s =>
      let! bn1 := num4 x1 in
      let! bn2 := num4 x2 in
      let vch := getvch (binary_num opcode bn1 bn2) in
      if opcode =? OP_NUMEQUALVERIFY then
        let! _ := fail_if (negb (CastToBool vch)) SCRIPT_ERR_NUMEQUALVERIFY in Ok s
      else Ok (vch :: s)
  | _ => bad_stack
  end.

Definition op_within (stack : list valtype) : eval (list valtype) :=
  match stack with
  | x3 :: x2 :: x1 :: s =>
      let! bn1 := num4 x1 in
      let! bn2 := num4 x2 in
      let! bn3 := num4 x3 in
      Ok (vch_bool ((bn2 <=? bn1) && (bn1 <? bn3)) :: s)
  | _ => bad_stack
  end.

Definition is_hash_op (opcode : Z) : bool := (OP_RIPEMD160 <=? opcode) && (opcode <=? OP_HASH256).

Definition hash_of (opcode : Z) (vch : valtype) : valtype :=
  if opcode =? OP_RIPEMD160 then RIPEMD160 hashes vch
  else if opcode =? OP_SHA1 then SHA1 hashes vch
  else if opcode =? OP_SHA256 then SHA256 hashes vch
  else if opcode =? OP_HASH160 then CHash160 hashes vch
  else (* OP_HASH256 *) CHash256 hashes vch.

Definition op_hash (opcode : Z) (stack : list valtype) : eval (list valtype) :=
  match stack with
  | vch :: s => Ok (hash_of opcode vch :: s)
  | _ => bad_stack
  end.

Definition op_verify (stack : list valtype) : eval (list valtype) :=
  match stack with
  | vch :: s => let! _ := fail_if (negb (CastToBool vch)) SCRIPT_ERR_VERIFY in Ok s
  | _ => bad_stack
  end.

(** [OP_CHECKLOCKTIMEVERIFY], where enabled; the stack is not changed. *)
Definition op_checklocktime (stack : list valtype) : eval (list valtype) :=
  match stack with
  | vch :: _ =>
      let! nLockTime := num_of vch 5 in
      let! _ := fail_if (nLockTime <? 0) SCRIPT_ERR_NEGATIVE_LOCKTIME in
      let! _ := fail_if (negb (CheckLockTime checker nLockTime)) SCRIPT_ERR_UNSATISFIED_LOCKTIME in
      Ok stack
  | _ => bad_stack
  end.

Definition op_checksequence (stack : list valtype) : eval (list valtype) :=
  match stack with
  | vch :: _ =>
      let! nSequence := num_of vch 5 in
      let! _ := fail_if (nSequence <? 0) SCRIPT_ERR_NEGATIVE_LOCKTIME in
      if flag nSequence Transaction.SEQUENCE_LOCKTIME_DISABLE_FLAG then Ok stack
      else
        let! _ := fail_if (negb (CheckSequence checker nSequence)) SCRIPT_ERR_UNSATISFIED_LOCKTIME in
        Ok stack
  | _ => bad_stack
  end.

(** ** State and control *)

Record eval_state := mkState {
  stack : list valtype;
  altstack : list valtype;
  vfExec : ConditionStack;
  pbegincodehash : CScript;    (* the script from this position on *)
  nOpCount : Z;
  opcode_pos : Z;
  execdata : ScriptExecutionData;
}.

Definition set_stack (st : eval_state) (s : list valtype) : eval_state :=
  mkState s (altstack st) (vfExec st) (pbegincodehash st) (nOpCount st) (opcode_pos st) (execdata st).
Definition set_vfExec (st : eval_state) (c : ConditionStack) : eval_state :=
  mkState (stack st) (altstack st) c (pbegincodehash st) (nOpCount st) (opcode_pos st) (execdata st).
Definition set_execdata (st : eval_state) (d : ScriptExecutionData) : eval_state :=
  mkState (stack st) (altstack st) (vfExec st) (pbegincodehash st) (nOpCount st) (opcode_pos st) d.
Definition set_nOpCount (st : eval_state) (n : Z) : eval_state :=
  mkState (stack st) (altstack st) (vfExec st) (pbegincodehash st) n (opcode_pos st) (execdata st).

Definition on_stack (st : eval_state) (r : eval (list valtype)) : eval eval_state :=
  let! s := r in Ok (set_stack st s).

(** [OP_IF] and [OP_NOTIF]. *)
Definition op_if (opcode : Z) (fExec : bool) (st : eval_state) : eval eval_state :=
  if fExec then
    match stack st with
    | vch :: s =>
        let minimal := negb ((size vch >? 1) || ((size vch =? 1) && negb (byte_at vch 0 =? 1))) in
        let! _ := fail_if (is_tapscript && negb minimal) SCRIPT_ERR_TAPSCRIPT_MINIMALIF in
        let! _ := fail_if (bool_decide (sigversion = WITNESS_V0) && flag flags SCRIPT_VERIFY_MINIMALIF &&
                           negb minimal) SCRIPT_ERR_MINIMALIF in
        let fValue := CastToBool vch in
        let fValue := if opcode =? OP_NOTIF then negb fValue else fValue in
        Ok (set_vfExec (set_stack st s) (cond_push_back (vfExec st) fValue))
    | [] => set_error SCRIPT_ERR_UNBALANCED_CONDITIONAL
    end
  else Ok (set_vfExec st (cond_push_back (vfExec st) false)).

Definition op_else (st : eval_state) : eval eval_state :=
  let! _ := fail_if (cond_empty (vfExec st)) SCRIPT_ERR_UNBALANCED_CONDITIONAL in
  let! c := toggle_top (vfExec st) in
  Ok (set_vfExec st c).

Definition op_endif (st : eval_state) : eval eval_state :=
  let! _ := fail_if (cond_empty (vfExec st)) SCRIPT_ERR_UNBALANCED_CONDITIONAL in
  let! c := cond_pop_back (vfExec st) in
  Ok (set_vfExec st c).

Definition op_toaltstack (st : eval_state) : eval eval_state :=
  match stack st with
  | vch :: s => Ok (mkState s (vch :: altstack st) (vfExec st) (pbegincodehash st) (nOpCount st)
                      (opcode_pos st) (execdata st))
  | [] => bad_stack
  end.

Definition op_fromaltstack (st : eval_state) : eval eval_state :=
  match altstack st with
  | vch :: a => Ok (mkState (vch :: stack st) a (vfExec st) (pbegincodehash st) (nOpCount st)
                      (opcode_pos st) (execdata st))
  | [] => set_error SCRIPT_ERR_INVALID_ALTSTACK_OPERATION
  end.

(** [pc]: the script after the instruction. *)
Definition op_codeseparator (pc : CScript) (st : eval_state) : eval_state :=
  mkState (stack st) (altstack st) (vfExec st) pc (nOpCount st) (opcode_pos st)
    (with_codeseparator_pos (execdata st) (opcode_pos st)).

(** [OP_CHECKSIG] and [OP_CHECKSIGVERIFY]. *)
Definition op_checksig (opcode : Z) (st : eval_state) : eval eval_state :=
  match stack st with
  | vchPubKey :: vchSig :: s =>
      let! (fSuccess, d) := EvalChecksig vchSig vchPubKey (pbegincodehash st) (execdata st) in
      let st := set_execdata st d in
      if opcode =? OP_CHECKSIGVERIFY then
        let! _ := fail_if (negb fSuccess) SCRIPT_ERR_CHECKSIGVERIFY in Ok (set_stack st s)
      else Ok (set_stack st (vch_bool fSuccess :: s))
  | _ => bad_stack
  end.

Definition op_checksigadd (st : eval_state) : eval eval_state :=
  let! _ := fail_if pre_tapscript SCRIPT_ERR_BAD_OPCODE in
  match stack st with
  | pubkey :: num :: sig :: s =>
      let! bn := num4 num in
      let! (success, d) := EvalChecksig sig pubkey (pbegincodehash st) (execdata st) in
      Ok (set_stack (set_execdata st d) (getvch (i64 (bn + if success then 1 else 0)) :: s))
  | _ => bad_stack
  end.

(** ** [OP_CHECKMULTISIG] and [OP_CHECKMULTISIGVERIFY] *)

(** Dropping every signature from the script code. *)
Fixpoint drop_signatures (scriptCode : CScript) (sigs : list valtype) : eval CScript :=
  match sigs with
  | [] => Ok scriptCode
  | vchSig :: sigs => let! scriptCode := drop_signature scriptCode vchSig in drop_signatures scriptCode sigs
  end.

(** [while (fSuccess && nSigsCount > 0)]: [sigs] are the signatures from [isig]
    on, [keys] the keys from [ikey] on.  There are at least as many keys left as
    signatures when a round starts. *)
Fixpoint multisig_loop (scriptCode : CScript) (sigs keys : list valtype) {struct keys} : eval bool :=
  match sigs, keys with
  | [], _ => Ok true
  | vchSig :: sigs', vchPubKey :: keys =>
      let! _ := CheckSignatureEncoding hashes flags vchSig in
      let! _ := CheckPubKeyEncoding flags vchPubKey sigversion in
      let! fOk := CheckECDSASignature checker vchSig vchPubKey scriptCode sigversion in
      let sigs := if (fOk : bool) then sigs' else sigs in
      if size sigs >? size keys then Ok false else multisig_loop scriptCode sigs keys
  | _ :: _, [] => set_error SCRIPT_ERR_UNKNOWN_ERROR
  end.

(** [while (i-- > 1)]: popping the arguments; [n] is [i - 1]. *)
Fixpoint multisig_cleanup (n : nat) (fSuccess : bool) (ikey2 : Z) (stack : list valtype) : eval (list valtype) :=
  match n with
  | O => Ok stack
  | S n =>
      match stack with
      | [] => set_error SCRIPT_ERR_UNKNOWN_ERROR
      | vch :: s =>
          let! _ := fail_if (negb fSuccess && flag flags SCRIPT_VERIFY_NULLFAIL && (ikey2 =? 0) &&
                             negb (size vch =? 0)) SCRIPT_ERR_SIG_NULLFAIL in
          multisig_cleanup n fSuccess (if ikey2 >? 0 then ikey2 - 1 else ikey2) s
      end
  end.

Definition op_checkmultisig (opcode : Z) (st : eval_state) : eval eval_state :=
  let! _ := fail_if is_tapscript SCRIPT_ERR_TAPSCRIPT_CHECKMULTISIG in
  match stack st with
  | [] => bad_stack
  | top :: _ =>
      let! bn := num4 top in
      let nKeysCount := CScriptNum.getint bn in
      let! _ := fail_if ((nKeysCount <? 0) || (nKeysCount >? MAX_PUBKEYS_PER_MULTISIG)) SCRIPT_ERR_PUBKEY_COUNT in
      let st := set_nOpCount st (nOpCount st + nKeysCount) in
      let! _ := fail_if (nOpCount st >? MAX_OPS_PER_SCRIPT) SCRIPT_ERR_OP_COUNT in
      let! _ := fail_if (size (stack st) <? nKeysCount + 2) SCRIPT_ERR_INVALID_STACK_OPERATION in
      let keys := take (Z.to_nat nKeysCount) (drop 1 (stack st)) in
      let! bn := num4 (default [] (stack st !! Z.to_nat (nKeysCount + 1))) in
      let nSigsCount := CScriptNum.getint bn in
      let! _ := fail_if ((nSigsCount <? 0) || (nSigsCount >? nKeysCount)) SCRIPT_ERR_SIG_COUNT in
      let i := nKeysCount + 3 + nSigsCount in
      let! _ := fail_if (size (stack st) <? i) SCRIPT_ERR_INVALID_STACK_OPERATION in
      let sigs := take (Z.to_nat nSigsCount) (drop (Z.to_nat (nKeysCount + 2)) (stack st)) in
      let! scriptCode := drop_signatures (pbegincodehash st) sigs in
      let! fSuccess := multisig_loop scriptCode sigs keys in
      let! s := multisig_cleanup (Z.to_nat (i - 1)) fSuccess (nKeysCount + 2) (stack st) in
      match s with
      | [] => bad_stack
      | dummy :: s =>
          let! _ := fail_if (flag flags SCRIPT_VERIFY_NULLDUMMY && negb (size dummy =? 0))
                      SCRIPT_ERR_SIG_NULLDUMMY in
          if opcode =? OP_CHECKMULTISIGVERIFY then
            let! _ := fail_if (negb fSuccess) SCRIPT_ERR_CHECKMULTISIGVERIFY in Ok (set_stack st s)
          else Ok (set_stack st (vch_bool fSuccess :: s))
      end
  end.

(** ** [EvalScript] *)

Definition is_disabled (opcode : Z) : bool :=
  (opcode =? OP_CAT) || (opcode =? OP_SUBSTR) || (opcode =? OP_LEFT) || (opcode =? OP_RIGHT) ||
  (opcode =? OP_INVERT) || (opcode =? OP_AND) || (opcode =? OP_OR) || (opcode =? OP_XOR) ||
  (opcode =? OP_2MUL) || (opcode =? OP_2DIV) || (opcode =? OP_MUL) || (opcode =? OP_DIV) ||
  (opcode =? OP_MOD) || (opcode =? OP_LSHIFT) || (opcode =? OP_RSHIFT).

Definition is_push_number (opcode : Z) : bool :=
  (opcode =? OP_1NEGATE) || ((OP_1 <=? opcode) && (opcode <=? OP_16)).

Definition is_upgradable_nop (opcode : Z) : bool :=
  (opcode =? OP_NOP1) || ((OP_NOP4 <=? opcode) && (opcode <=? OP_NOP10)).

(** The [switch]. *)
Definition exec_op (opcode : Z) (pc : CScript) (fExec : bool) (st : eval_state) : eval eval_state :=
  if is_push_number opcode then Ok (set_stack st (getvch (opcode - (OP_1 - 1)) :: stack st))
  else if opcode =? OP_NOP then Ok st
  else if opcode =? OP_CHECKLOCKTIMEVERIFY then
    if flag flags SCRIPT_VERIFY_CHECKLOCKTIMEVERIFY then on_stack st (op_checklocktime (stack st)) else Ok st
  else if opcode =? OP_CHECKSEQUENCEVERIFY then
    if flag flags SCRIPT_VERIFY_CHECKSEQUENCEVERIFY then on_stack st (op_checksequence (stack st)) else Ok st
  else if is_upgradable_nop opcode then
    let! _ := fail_if (flag flags SCRIPT_VERIFY_DISCOURAGE_UPGRADABLE_NOPS)
                SCRIPT_ERR_DISCOURAGE_UPGRADABLE_NOPS in Ok st
  else if (opcode =? OP_IF) || (opcode =? OP_NOTIF) then op_if opcode fExec st
  else if opcode =? OP_ELSE then op_else st
  else if opcode =? OP_ENDIF then op_endif st
  else if opcode =? OP_VERIFY then on_stack st (op_verify (stack st))
  else if opcode =? OP_RETURN then set_error SCRIPT_ERR_OP_RETURN
  else if opcode =? OP_TOALTSTACK then op_toaltstack st
  else if opcode =? OP_FROMALTSTACK then op_fromaltstack st
  else if (opcode =? OP_PICK) || (opcode =? OP_ROLL) then on_stack st (op_pick opcode (stack st))
  else if is_stack_op opcode then on_stack st (stack_op opcode (stack st))
  else if (opcode =? OP_EQUAL) || (opcode =? OP_EQUALVERIFY) then on_stack st (op_equal opcode (stack st))
  else if is_unary_num opcode then on_stack st (op_unary opcode (stack st))
  else if is_binary_num opcode then on_stack st (op_binary opcode (stack st))
  else if opcode =? OP_WITHIN then on_stack st (op_within (stack st))
  else if is_hash_op opcode then on_stack st (op_hash opcode (stack st))
  else if opcode =? OP_CODESEPARATOR then Ok (op_codeseparator pc st)
  else if (opcode =? OP_CHECKSIG) || (opcode =? OP_CHECKSIGVERIFY) then op_checksig opcode st
  else if opcode =? OP_CHECKSIGADD then op_checksigadd st
  else if (opcode =? OP_CHECKMULTISIG) || (opcode =? OP_CHECKMULTISIGVERIFY) then op_checkmultisig opcode st
  else set_error SCRIPT_ERR_BAD_OPCODE.

(** One round of the loop, after the instruction is read. *)
Definition eval_op (opcode : Z) (vchPushValue : valtype) (pc : CScript) (st : eval_state) : eval eval_state :=
  let fExec := all_true (vfExec st) in
  let! _ := fail_if (size vchPushValue >? MAX_SCRIPT_ELEMENT_SIZE) SCRIPT_ERR_PUSH_SIZE in
  let st := if pre_tapscript && (opcode >? OP_16) then set_nOpCount st (nOpCount st + 1) else st in
  let! _ := fail_if (pre_tapscript && (opcode >? OP_16) && (nOpCount st >? MAX_OPS_PER_SCRIPT))
              SCRIPT_ERR_OP_COUNT in
  let! _ := fail_if (is_disabled opcode) SCRIPT_ERR_DISABLED_OPCODE in
  let! _ := fail_if ((opcode =? OP_CODESEPARATOR) && is_base && flag flags SCRIPT_VERIFY_CONST_SCRIPTCODE)
              SCRIPT_ERR_OP_CODESEPARATOR in
  let! st :=
    if fExec && (0 <=? opcode) && (opcode <=? OP_PUSHDATA4) then
      let! _ := fail_if (fRequireMinimal && negb (CheckMinimalPush vchPushValue opcode)) SCRIPT_ERR_MINIMALDATA in
      Ok (set_stack st (vchPushValue :: stack st))
    else if fExec || ((OP_IF <=? opcode) && (opcode <=? OP_ENDIF)) then exec_op opcode pc fExec st
    else Ok st in
  let! _ := fail_if (size (stack st) + size (altstack st) >? MAX_STACK_SIZE) SCRIPT_ERR_STACK_SIZE in
  Ok st.

Definition next_pos (st : eval_state) : eval_state :=
  mkState (stack st) (altstack st) (vfExec st) (pbegincodehash st) (nOpCount st)
    (u32 (opcode_pos st + 1)) (execdata st).

Fixpoint eval_loop (fuel : nat) (pc : CScript) (st : eval_state) : eval eval_state :=
  match pc, fuel with
  | [], _ => Ok st
  | _, O => Err OutOfFuel
  | _, S fuel =>
      match GetScriptOp pc with
      | None => set_error SCRIPT_ERR_BAD_OPCODE
      | Some (opcode, vchPushValue, pc) =>
          let! st := eval_op opcode vchPushValue pc st in
          eval_loop fuel pc (next_pos st)
      end
  end.

(** The stack and the execution data after a successful run. *)
Definition EvalScript (stack0 : list valtype) (script : CScript) (execdata0 : ScriptExecutionData)
    : eval (list valtype * ScriptExecutionData) :=
  let! _ := assert (pre_tapscript || is_tapscript) in
  let! _ := fail_if (pre_tapscript && (size script >? MAX_SCRIPT_SIZE)) SCRIPT_ERR_SCRIPT_SIZE in
  let st := mkState stack0 [] cond_new script 0 0 (with_codeseparator_pos execdata0 0xFFFFFFFF) in
  let! st := eval_loop (length script) script st in
  let! _ := fail_if (negb (cond_empty (vfExec st))) SCRIPT_ERR_UNBALANCED_CONDITIONAL in
  Ok (stack st, execdata st).

End Eval.
End Interpreter.
