(* ===== verification/SigHash.v ===== *)
(** Signature hashes and the signature checker of a transaction input:
    [CTransactionSignatureSerializer], [PrecomputedTransactionData],
    [SignatureHash], [SignatureHashSchnorr] and
    [GenericTransactionSignatureChecker] of [src/script/interpreter.cpp], with
    the parts of [src/pubkey.h] they use.

    The elliptic curve code (secp256k1) and ML-DSA-44 are the functions of the
    record [sig_lib].  The signature cache around the ECDSA and Schnorr checks
    is not modelled. *)
From Stdlib Require Import ZArith Lia.
From stdpp Require Import gmap.
From S2P Require Import Prelude Serialize Script Transaction Interpreter.
Import Serialize Script Transaction ScriptFlags Interpreter.
Local Open Scope bb_scope.

Module SigHash.

(** ** Legacy serialization *)

(** Where [GetScriptOp] leaves its position when it returns false. *)
Definition stopped_at (pc : CScript) : CScript :=
  match pc with
  | [] => []
  | opcode :: pc =>
      if opcode <=? OP_PUSHDATA4 then
        match push_size opcode pc with Some (_, pc) => pc | None => pc end
      else pc
  end.

Fixpoint count_separators (fuel : nat) (it : CScript) (nCodeSeparators : Z) : Z :=
  match fuel with
  | O => nCodeSeparators
  | S fuel =>
      match GetScriptOp it with
      | None => nCodeSeparators
      | Some (opcode, _, it) =>
          count_separators fuel it (if opcode =? OP_CODESEPARATOR then nCodeSeparators + 1 else nCodeSeparators)
      end
  end.

(** The bytes written by the second loop and the statement after it. *)
Fixpoint write_code (fuel : nat) (itBegin it : CScript) : list Z :=
  match fuel with
  | O => []
  | S fuel =>
      match GetScriptOp it with
      | None => take (length itBegin - length (stopped_at it)) itBegin
      | Some (opcode, _, it) =>
          if opcode =? OP_CODESEPARATOR
          then take (length itBegin - length it - 1) itBegin ++ write_code fuel it it
          else write_code fuel itBegin it
      end
  end.

Definition SerializeScriptCode (scriptCode : CScript) : list Z :=
  WriteCompactSize (size scriptCode - count_separators (length scriptCode) scriptCode 0) ++
  write_code (S (length scriptCode)) scriptCode scriptCode.

Section Legacy.
Context (txTo : CTransaction) (scriptCode : CScript) (nIn : nat) (nHashType : Z).

Definition fAnyoneCanPay : bool := flag nHashType SIGHASH_ANYONECANPAY.
Definition fHashSingle : bool := Z.land nHashType 0x1f =? SIGHASH_SINGLE.
Definition fHashNone : bool := Z.land nHashType 0x1f =? SIGHASH_NONE.

Definition null_txin : CTxIn := mkTxIn outpoint_null [] SEQUENCE_FINAL [].

(** [vin] is in range where the source indexes it. *)
Definition SerializeInput (nInput : nat) : list Z :=
  let nInput := if fAnyoneCanPay then nIn else nInput in
  let txin := default null_txin (vin txTo !! nInput) in
  ser_outpoint (prevout txin) ++
  (if negb (nInput =? nIn)%nat then ser_bytes [] else SerializeScriptCode scriptCode) ++
  (if negb (nInput =? nIn)%nat && (fHashSingle || fHashNone)
   then ser_signed 4 0 else ser_writedata32 (nSequence txin)).

Definition SerializeOutput (nOutput : nat) : list Z :=
  if fHashSingle && negb (nOutput =? nIn)%nat then ser_txout txout_null
  else ser_txout (default txout_null (vout txTo !! nOutput)).

Definition signature_serialization : list Z :=
  let nInputs := if fAnyoneCanPay then 1%nat else length (vin txTo) in
  let nOutputs := if fHashNone then 0%nat else if fHashSingle then S nIn else length (vout txTo) in
  ser_signed 4 (nVersion txTo) ++
  WriteCompactSize (Z.of_nat nInputs) ++ concat (map SerializeInput (seq 0 nInputs)) ++
  WriteCompactSize (Z.of_nat nOutputs) ++ concat (map SerializeOutput (seq 0 nOutputs)) ++
  ser_writedata32 (nLockTime txTo).
End Legacy.

(** ** Precomputed hashes *)

Section Hashed.
Context (hashes : script_hashes).
Abbreviation sha := (SHA256 hashes).

Definition SHA256Uint256 (h : uint256) : uint256 := sha h.
Definition GetPrevoutsSHA256 (tx : CTransaction) : uint256 :=
  sha (concat (map (fun i => ser_outpoint (prevout i)) (vin tx))).
Definition GetSequencesSHA256 (tx : CTransaction) : uint256 :=
  sha (concat (map (fun i => ser_writedata32 (nSequence i)) (vin tx))).
Definition GetOutputsSHA256 (tx : CTransaction) : uint256 := sha (concat (map ser_txout (vout tx))).
Definition GetSpentAmountsSHA256 (outputs_spent : list CTxOut) : uint256 :=
  sha (concat (map (fun o => ser_signed 8 (nValue o)) outputs_spent)).
Definition GetSpentScriptsSHA256 (outputs_spent : list CTxOut) : uint256 :=
  sha (concat (map (fun o => ser_bytes (scriptPubKey o)) outputs_spent)).

Record PrecomputedTransactionData := mkTxData {
  m_prevouts_single_hash : uint256;
  m_sequences_single_hash : uint256;
  m_outputs_single_hash : uint256;
  m_spent_amounts_single_hash : uint256;
  m_spent_scripts_single_hash : uint256;
  m_bip341_taproot_ready : bool;
  hashPrevouts : uint256;
  hashSequence : uint256;
  hashOutputs : uint256;
  m_bip143_segwit_ready : bool;
  m_spent_outputs : list CTxOut;
  m_spent_outputs_ready : bool;
}.

(** The scan of the inputs: which of the two schemes the transaction uses.
    [spent]: the spent output of each input, where provided. *)
Fixpoint uses_scan (l : list CTxIn) (spent : list CTxOut) (ready bip143 bip341 : bool) : bool * bool :=
  match l with
  | [] => (bip143, bip341)
  | i :: l =>
      if bip143 && bip341 then (bip143, bip341)
      else
        let '(bip143, bip341) :=
          if negb (witness_IsNull (scriptWitness i)) then
            let spk := match spent with o :: _ => scriptPubKey o | [] => [] end in
            if ready && (size spk =? 2 + 32) && (byte_at spk 0 =? OP_1) then (bip143, true) else (true, bip341)
          else (bip143, bip341) in
        uses_scan l (drop 1 spent) ready bip143 bip341
  end.

(** [Init] on fresh data; a hash that is not computed stays null. *)
Definition Init (txTo : CTransaction) (spent_outputs : list CTxOut) (force : bool)
    : eval PrecomputedTransactionData :=
  let ready := negb (length spent_outputs =? 0)%nat in
  let! _ := assert (negb ready || (length spent_outputs =? length (vin txTo))%nat) in
  let '(bip143, bip341) := uses_scan (vin txTo) spent_outputs ready force force in
  let when (c : bool) (h : uint256) := if c then h else null256 in
  let prevouts := when (bip143 || bip341) (GetPrevoutsSHA256 txTo) in
  let sequences := when (bip143 || bip341) (GetSequencesSHA256 txTo) in
  let outputs := when (bip143 || bip341) (GetOutputsSHA256 txTo) in
  let taproot := bip341 && ready in
  Ok (mkTxData prevouts sequences outputs
        (when taproot (GetSpentAmountsSHA256 spent_outputs)) (when taproot (GetSpentScriptsSHA256 spent_outputs))
        taproot
        (when bip143 (SHA256Uint256 prevouts)) (when bip143 (SHA256Uint256 sequences))
        (when bip143 (SHA256Uint256 outputs)) bip143 spent_outputs ready).

(** ** [SignatureHash] *)

Definition uint256_ONE : uint256 := 1 :: replicate 31 0.

(** The bytes hashed for a version 0 witness (BIP143). *)
Definition witness_preimage (scriptCode : CScript) (txTo : CTransaction) (nIn : nat) (nHashType amount : Z)
    (cache : option PrecomputedTransactionData) : list Z :=
  let acp := fAnyoneCanPay nHashType in
  let single := fHashSingle nHashType in
  let none := fHashNone nHashType in
  let ready := match cache with Some c => m_bip143_segwit_ready c | None => false end in
  let from_cache (f : PrecomputedTransactionData → uint256) (h : uint256) :=
    if ready then match cache with Some c => f c | None => h end else h in
  let prevouts :=
    if negb acp then from_cache hashPrevouts (SHA256Uint256 (GetPrevoutsSHA256 txTo)) else null256 in
  let sequence :=
    if negb acp && negb single && negb none
    then from_cache hashSequence (SHA256Uint256 (GetSequencesSHA256 txTo)) else null256 in
  let outputs :=
    if negb single && negb none then from_cache hashOutputs (SHA256Uint256 (GetOutputsSHA256 txTo))
    else if single && (nIn <? length (vout txTo))%nat
    then CHash256 hashes (ser_txout (default txout_null (vout txTo !! nIn)))
    else null256 in
  let txin := default null_txin (vin txTo !! nIn) in
  ser_signed 4 (nVersion txTo) ++ ser_uint256 prevouts ++ ser_uint256 sequence ++
  ser_outpoint (prevout txin) ++ ser_bytes scriptCode ++ ser_signed 8 amount ++
  ser_writedata32 (nSequence txin) ++ ser_uint256 outputs ++
  ser_writedata32 (nLockTime txTo) ++ ser_signed 4 nHashType.

Definition SignatureHash (scriptCode : CScript) (txTo : CTransaction) (nIn : nat) (nHashType amount : Z)
    (sigversion : SigVersion) (cache : option PrecomputedTransactionData) : eval uint256 :=
  let! _ := assert (nIn <? length (vin txTo))%nat in
  if bool_decide (sigversion = WITNESS_V0)
  then Ok (CHash256 hashes (witness_preimage scriptCode txTo nIn nHashType amount cache))
  else if fHashSingle nHashType && negb (nIn <? length (vout txTo))%nat then Ok uint256_ONE
  else Ok (CHash256 hashes (signature_serialization txTo scriptCode nIn nHashType ++ ser_signed 4 nHashType)).

(** ** [SignatureHashSchnorr] *)

(** [TaggedHash]: the tag is given by its bytes. *)
Definition TaggedHash (tag msg : list Z) : uint256 := sha (sha tag ++ sha tag ++ msg).

(** The ASCII codes of [TapSighash]. *)
Definition TAG_TAPSIGHASH : list Z := [84; 97; 112; 83; 105; 103; 104; 97; 115; 104].

(** The hash and the updated execution data; [Ok None] when it returns false. *)
Definition SignatureHashSchnorr (execdata : ScriptExecutionData) (tx_to : CTransaction) (in_pos : nat)
    (hash_type : Z) (sigversion : SigVersion) (cache : PrecomputedTransactionData)
    : eval (option (uint256 * ScriptExecutionData)) :=
  let! ext_flag := match sigversion with TAPROOT => Ok 0 | TAPSCRIPT => Ok 1 | _ => Err Aborted end in
  let! _ := assert (in_pos <? length (vin tx_to))%nat in
  (* HandleMissingData with ASSERT_FAIL *)
  let! _ := assert (m_bip341_taproot_ready cache && m_spent_outputs_ready cache) in
  let output_type := if hash_type =? SIGHASH_DEFAULT then SIGHASH_ALL else Z.land hash_type SIGHASH_OUTPUT_MASK in
  let input_type := Z.land hash_type SIGHASH_INPUT_MASK in
  if negb ((hash_type <=? 0x03) || ((hash_type >=? 0x81) && (hash_type <=? 0x83))) then Ok None
  else
    let txin := default null_txin (vin tx_to !! in_pos) in
    let acp := input_type =? SIGHASH_ANYONECANPAY in
    match m_annex execdata with
    | None => Err Aborted
    | Some annex =>
        let spend_type := 2 * ext_flag + match annex with Some _ => 1 | None => 0 end in
        if (output_type =? SIGHASH_SINGLE) && negb (in_pos <? length (vout tx_to))%nat then Ok None
        else
          let output_hash :=
            default (sha (ser_txout (default txout_null (vout tx_to !! in_pos)))) (m_output_hash execdata) in
          let execdata :=
            if output_type =? SIGHASH_SINGLE
            then mkExec (m_tapleaf_hash execdata) (m_codeseparator_pos execdata) (m_annex execdata)
                   (m_validation_weight_left execdata) (Some output_hash)
            else execdata in
          let! ext :=
            match sigversion with
            | TAPSCRIPT =>
                match m_tapleaf_hash execdata, m_codeseparator_pos execdata with
                | Some leaf, Some pos => Ok (ser_uint256 leaf ++ ser_writedata8 0 ++ ser_writedata32 pos)
                | _, _ => Err Aborted
                end
            | _ => Ok []
            end in
          let ss :=
            ser_writedata8 0 ++ ser_writedata8 hash_type ++
            ser_signed 4 (nVersion tx_to) ++ ser_writedata32 (nLockTime tx_to) ++
            (if negb acp then
               ser_uint256 (m_prevouts_single_hash cache) ++ ser_uint256 (m_spent_amounts_single_hash cache) ++
               ser_uint256 (m_spent_scripts_single_hash cache) ++ ser_uint256 (m_sequences_single_hash cache)
             else []) ++
            (if output_type =? SIGHASH_ALL then ser_uint256 (m_outputs_single_hash cache) else []) ++
            ser_writedata8 spend_type ++
            (if acp then
               ser_outpoint (prevout txin) ++ ser_txout (default txout_null (m_spent_outputs cache !! in_pos)) ++
               ser_writedata32 (nSequence txin)
             else ser_writedata32 (Z.of_nat in_pos)) ++
            match annex with Some h => ser_uint256 h | None => [] end ++
            (if output_type =? SIGHASH_SINGLE then ser_uint256 output_hash else []) ++ ext in
          Ok (Some (TaggedHash TAG_TAPSIGHASH ss, execdata))
    end.

End Hashed.

(** ** Keys *)

(** [CPubKey::GetLen]. *)
Definition GetLen (chHeader : Z) : Z :=
  if (chHeader =? 2) || (chHeader =? 3) then COMPRESSED_SIZE
  else if (chHeader =? 4) || (chHeader =? 6) || (chHeader =? 7) then UNCOMPRESSED_SIZE
  else 0.

(** [CPubKey(vch)]: the stored bytes, [None] for an invalid key. *)
Definition CPubKey (vch : valtype) : option valtype :=
  let len := match vch with [] => 0 | b :: _ => GetLen b end in
  if negb (len =? 0) && (len =? size vch) then Some vch else None.

(** The verification routines of the vendored libraries. *)
Record sig_lib := mkSigLib {
  ecdsa_verify : valtype → uint256 → valtype → bool;          (* [CPubKey::Verify]: key, hash, signature *)
  schnorr_verify : valtype → uint256 → valtype → bool;        (* [XOnlyPubKey::VerifySchnorr] *)
  tweak_add_check : valtype → bool → valtype → uint256 → bool; (* output key, parity, internal key, tweak *)
  shake256 : nat → list Z → list Z;                           (* output length, input *)
  mldsa_verify_ctx : valtype → list Z → list Z → valtype → bool; (* signature, message, context, key *)
}.

(** ** [GenericTransactionSignatureChecker], as constructed for consensus:
    with [MissingDataBehavior::ASSERT_FAIL]. *)
Section Checker.
Context (hashes : script_hashes) (lib : sig_lib).
Context (txTo : CTransaction) (nIn : nat) (amount : Z) (txdata : option PrecomputedTransactionData).

Definition check_ecdsa (vchSigIn vchPubKey : valtype) (scriptCode : CScript) (sigversion : SigVersion) : eval bool :=
  match CPubKey vchPubKey with
  | None => Ok false
  | Some pubkey =>
      if (length vchSigIn =? 0)%nat then Ok false
      else
        let nHashType := List.last vchSigIn 0 in
        let vchSig := removelast vchSigIn in
        let! _ := assert (negb (bool_decide (sigversion = WITNESS_V0) && (amount <? 0))) in
        let! sighash := SignatureHash hashes scriptCode txTo nIn nHashType amount sigversion txdata in
        Ok (ecdsa_verify lib pubkey sighash vchSig)
  end.

(** [static const unsigned char CTX\[\] = "BitcoBoost-bb1z-v2"], without its
    terminating zero. *)
Definition CTX : list Z :=
  [66; 105; 116; 99; 111; 66; 111; 111; 115; 116; 45; 98; 98; 49; 122; 45; 118; 50].

Definition check_hybrid (ecdsa_sig ecdsa_pub mldsa_sig mldsa_pub program : valtype) : eval bool :=
  if negb (size ecdsa_pub =? 33) then Ok false
  else if negb (size mldsa_pub =? 1312) then Ok false
  else if negb (size program =? 32) then Ok false
  else
    let commit := shake256 lib 32 (ecdsa_pub ++ mldsa_pub) in
    if negb (bool_decide (commit = program)) then Ok false
    else
      let scriptCode := push_vec (push_opcode [] OP_2) program in
      let! _ := assert (negb (amount <? 0)) in
      let! sighash := SignatureHash hashes scriptCode txTo nIn SIGHASH_ALL amount WITNESS_V0 txdata in
      if (length ecdsa_sig =? 0)%nat || negb (List.last ecdsa_sig 0 =? SIGHASH_ALL) then Ok false
      else
        match CPubKey ecdsa_pub with
        | None => Ok false
        | Some epk =>
            if negb (ecdsa_verify lib epk sighash (removelast ecdsa_sig)) then Ok false
            else Ok (mldsa_verify_ctx lib mldsa_sig sighash CTX mldsa_pub)
        end.

Definition check_schnorr (sig pubkey : valtype) (sigversion : SigVersion) (execdata : ScriptExecutionData)
    : eval ScriptExecutionData :=
  let! _ := assert (bool_decide (sigversion = TAPROOT) || bool_decide (sigversion = TAPSCRIPT)) in
  let! _ := assert (size pubkey =? 32) in
  let! _ := fail_if (negb (size sig =? 64) && negb (size sig =? 65)) SCRIPT_ERR_SCHNORR_SIG_SIZE in
  let hashtype := if size sig =? 65 then List.last sig 0 else SIGHASH_DEFAULT in
  let sig64 := if size sig =? 65 then removelast sig else sig in
  let! _ := fail_if ((size sig =? 65) && (hashtype =? SIGHASH_DEFAULT)) SCRIPT_ERR_SCHNORR_SIG_HASHTYPE in
  match txdata with
  | None => Err Aborted
  | Some txdata =>
      let! r := SignatureHashSchnorr hashes execdata txTo nIn hashtype sigversion txdata in
      match r with
      | None => set_error SCRIPT_ERR_SCHNORR_SIG_HASHTYPE
      | Some (sighash, execdata) =>
          let! _ := fail_if (negb (schnorr_verify lib pubkey sighash sig64)) SCRIPT_ERR_SCHNORR_SIG in
          Ok execdata
      end
  end.

(** [vin\[nIn\]] exists: the checker is made for an input of the transaction. *)
Definition own_sequence : Z := nSequence (default null_txin (vin txTo !! nIn)).

Definition check_lock_time (n : Z) : bool :=
  if negb (((nLockTime txTo <? LOCKTIME_THRESHOLD) && (n <? LOCKTIME_THRESHOLD)) ||
           ((nLockTime txTo >=? LOCKTIME_THRESHOLD) && (n >=? LOCKTIME_THRESHOLD))) then false
  else if n >? nLockTime txTo then false
  else if SEQUENCE_FINAL =? own_sequence then false
  else true.

Definition check_sequence (n : Z) : bool :=
  let txToSequence := own_sequence in
  if u32 (nVersion txTo) <? 2 then false
  else if flag txToSequence SEQUENCE_LOCKTIME_DISABLE_FLAG then false
  else
    let nLockTimeMask := Z.lor SEQUENCE_LOCKTIME_TYPE_FLAG SEQUENCE_LOCKTIME_MASK in
    let txToSequenceMasked := Z.land txToSequence nLockTimeMask in
    let nSequenceMasked := Z.land n nLockTimeMask in
    if negb (((txToSequenceMasked <? SEQUENCE_LOCKTIME_TYPE_FLAG) &&
              (nSequenceMasked <? SEQUENCE_LOCKTIME_TYPE_FLAG)) ||
             ((txToSequenceMasked >=? SEQUENCE_LOCKTIME_TYPE_FLAG) &&
              (nSequenceMasked >=? SEQUENCE_LOCKTIME_TYPE_FLAG))) then false
    else negb (nSequenceMasked >? txToSequenceMasked).

Definition TransactionSignatureChecker : BaseSignatureChecker :=
  mkChecker check_ecdsa check_schnorr check_hybrid check_lock_time check_sequence.

End Checker.
End SigHash.
