(* ===== verification/VerifyScript.v ===== *)
(** Verification of a transaction input: the second half of
    [src/script/interpreter.cpp] ([ExecuteWitnessScript],
    [VerifyWitnessProgram] with Taproot and the hybrid ECDSA and ML-DSA-44
    programs of witness version 2, [VerifyScript]) and [CScriptCheck] of
    [src/validation.cpp].

    The stack of a witness is in the order of the transaction; the interpreter's
    stack has its top first. *)
From Stdlib Require Import ZArith Lia.
From stdpp Require Import gmap.
From S2P Require Import Prelude Serialize Script Transaction Interpreter SigHash.
Import Serialize Script Transaction ScriptFlags Interpreter SigHash.
Local Open Scope bb_scope.

Module VerifyScript.

Definition TAPROOT_LEAF_MASK : Z := 0xfe.
Definition TAPROOT_LEAF_TAPSCRIPT : Z := 0xc0.
Definition TAPROOT_CONTROL_BASE_SIZE : Z := 33.
Definition TAPROOT_CONTROL_NODE_SIZE : Z := 32.
Definition TAPROOT_CONTROL_MAX_NODE_COUNT : Z := 128.
Definition TAPROOT_CONTROL_MAX_SIZE : Z :=
  TAPROOT_CONTROL_BASE_SIZE + TAPROOT_CONTROL_NODE_SIZE * TAPROOT_CONTROL_MAX_NODE_COUNT.

Section Verify.
Context (hashes : script_hashes) (lib : sig_lib) (flags : Z) (checker : BaseSignatureChecker).

(** The scan for [OP_SUCCESSx]: whether one is found before a malformed
    instruction, which is an error. *)
Fixpoint op_success_scan (fuel : nat) (pc : CScript) : eval bool :=
  match pc, fuel with
  | [], _ => Ok false
  | _, O => Err OutOfFuel
  | _, S fuel =>
      match GetScriptOp pc with
      | None => set_error SCRIPT_ERR_BAD_OPCODE
      | Some (opcode, _, pc) => if IsOpSuccess opcode then Ok true else op_success_scan fuel pc
      end
  end.

Definition ExecuteWitnessScript (stack_span : list valtype) (exec_script : CScript) (sigversion : SigVersion)
    (execdata : ScriptExecutionData) : eval unit :=
  let! op_success :=
    if bool_decide (sigversion = TAPSCRIPT) then op_success_scan (length exec_script) exec_script else Ok false in
  if (op_success : bool) then fail_if (flag flags SCRIPT_VERIFY_DISCOURAGE_OP_SUCCESS) SCRIPT_ERR_DISCOURAGE_OP_SUCCESS
  else
    let! _ := fail_if (bool_decide (sigversion = TAPSCRIPT) && (size stack_span >? MAX_STACK_SIZE))
                SCRIPT_ERR_STACK_SIZE in
    let! _ := fail_if (existsb (fun elem => size elem >? MAX_SCRIPT_ELEMENT_SIZE) stack_span)
                SCRIPT_ERR_PUSH_SIZE in
    let! (stack, _) := EvalScript hashes flags checker sigversion (rev stack_span) exec_script execdata in
    match stack with
    | [top] => fail_if (negb (CastToBool top)) SCRIPT_ERR_EVAL_FALSE
    | _ => set_error SCRIPT_ERR_CLEANSTACK
    end.

(** ** Taproot commitments *)

(** The ASCII codes of [TapLeaf], [TapBranch] and [TapTweak]. *)
Definition TAG_TAPLEAF : list Z := [84; 97; 112; 76; 101; 97; 102].
Definition TAG_TAPBRANCH : list Z := [84; 97; 112; 66; 114; 97; 110; 99; 104].
Definition TAG_TAPTWEAK : list Z := [84; 97; 112; 84; 119; 101; 97; 107].

Definition ComputeTapleafHash (leaf_version : Z) (script : CScript) : uint256 :=
  TaggedHash hashes TAG_TAPLEAF (ser_writedata8 leaf_version ++ WriteCompactSize (size script) ++ script).

(** [std::lexicographical_compare] *)
Fixpoint lex_less (a b : list Z) : bool :=
  match a, b with
  | _, [] => false
  | [], _ :: _ => true
  | x :: a, y :: b => if x <? y then true else if y <? x then false else lex_less a b
  end.

Definition ComputeTapbranchHash (a b : list Z) : uint256 :=
  TaggedHash hashes TAG_TAPBRANCH (if lex_less a b then a ++ b else b ++ a).

(** The loop over the nodes of the path. *)
Fixpoint merkle_path (n : nat) (nodes : list Z) (k : uint256) : uint256 :=
  match n with
  | O => k
  | S n => merkle_path n (drop 32 nodes) (ComputeTapbranchHash k (take 32 nodes))
  end.

Definition ComputeTaprootMerkleRoot (control : valtype) (tapleaf_hash : uint256) : eval uint256 :=
  let! _ := assert (size control >=? TAPROOT_CONTROL_BASE_SIZE) in
  let! _ := assert (size control <=? TAPROOT_CONTROL_MAX_SIZE) in
  let! _ := assert ((size control - TAPROOT_CONTROL_BASE_SIZE) mod TAPROOT_CONTROL_NODE_SIZE =? 0) in
  let path_len := (size control - TAPROOT_CONTROL_BASE_SIZE) / TAPROOT_CONTROL_NODE_SIZE in
  Ok (merkle_path (Z.to_nat path_len) (drop 33 control) tapleaf_hash).

(** [q.CheckTapTweak(p, merkle_root, parity)] *)
Definition CheckTapTweak (q p : valtype) (merkle_root : uint256) (parity : bool) : bool :=
  tweak_add_check lib q parity p (TaggedHash hashes TAG_TAPTWEAK (p ++ ser_uint256 merkle_root)).

Definition VerifyTaprootCommitment (control program : valtype) (tapleaf_hash : uint256) : eval bool :=
  let! _ := assert (size control >=? TAPROOT_CONTROL_BASE_SIZE) in
  let! _ := assert (size program >=? 32) in
  let p := take 32 (drop 1 control) in
  let! merkle_root := ComputeTaprootMerkleRoot control tapleaf_hash in
  Ok (CheckTapTweak program p merkle_root (negb (Z.land (byte_at control 0) 1 =? 0))).

(** ** Witness programs *)

(** The implied script of a key hash program. *)
Definition p2wpkh_script (program : valtype) : CScript :=
  push_opcode (push_opcode (push_vec (push_opcode (push_opcode [] OP_DUP) OP_HASH160) program) OP_EQUALVERIFY)
    OP_CHECKSIG.

(** The last element of a stack and the ones before it ([SpanPopBack]). *)
Definition pop_back (s : list valtype) : option (valtype * list valtype) :=
  match s with [] => None | _ => Some (List.last s [], removelast s) end.

(** Witness version 0. *)
Definition verify_v0 (witness : CScriptWitness) (program : valtype) : eval unit :=
  if size program =? WITNESS_V0_SCRIPTHASH_SIZE then
    match pop_back witness with
    | None => set_error SCRIPT_ERR_WITNESS_PROGRAM_WITNESS_EMPTY
    | Some (exec_script, stack) =>
        let! _ := fail_if (negb (bool_decide (SHA256 hashes exec_script = program)))
                    SCRIPT_ERR_WITNESS_PROGRAM_MISMATCH in
        ExecuteWitnessScript stack exec_script WITNESS_V0 execdata_empty
    end
  else if size program =? WITNESS_V0_KEYHASH_SIZE then
    let! _ := fail_if (negb (length witness =? 2)%nat) SCRIPT_ERR_WITNESS_PROGRAM_MISMATCH in
    ExecuteWitnessScript witness (p2wpkh_script program) WITNESS_V0 execdata_empty
  else set_error SCRIPT_ERR_WITNESS_PROGRAM_WRONG_LENGTH.

(** Taproot script path: the stack after the annex is removed. *)
Definition verify_script_path (witness stack : CScriptWitness) (program : valtype) (annex : option uint256)
    : eval unit :=
  match pop_back stack with
  | None => Err Aborted
  | Some (control, stack) =>
      match pop_back stack with
      | None => Err Aborted
      | Some (script, stack) =>
          let! _ := fail_if ((size control <? TAPROOT_CONTROL_BASE_SIZE) || (size control >? TAPROOT_CONTROL_MAX_SIZE) ||
                             negb ((size control - TAPROOT_CONTROL_BASE_SIZE) mod TAPROOT_CONTROL_NODE_SIZE =? 0))
                      SCRIPT_ERR_TAPROOT_WRONG_CONTROL_SIZE in
          let leaf_version := Z.land (byte_at control 0) TAPROOT_LEAF_MASK in
          let tapleaf_hash := ComputeTapleafHash leaf_version script in
          let! ok := VerifyTaprootCommitment control program tapleaf_hash in
          let! _ := fail_if (negb ok) SCRIPT_ERR_WITNESS_PROGRAM_MISMATCH in
          if leaf_version =? TAPROOT_LEAF_TAPSCRIPT then
            let weight := size (ser_vector ser_bytes witness) + VALIDATION_WEIGHT_OFFSET in
            ExecuteWitnessScript stack script TAPSCRIPT
              (mkExec (Some tapleaf_hash) None (Some annex) (Some weight) None)
          else fail_if (flag flags SCRIPT_VERIFY_DISCOURAGE_UPGRADABLE_TAPROOT_VERSION)
                 SCRIPT_ERR_DISCOURAGE_UPGRADABLE_TAPROOT_VERSION
      end
  end.

Definition verify_taproot (witness : CScriptWitness) (program : valtype) : eval unit :=
  if negb (flag flags SCRIPT_VERIFY_TAPROOT) then Ok tt
  else
    let! _ := fail_if (length witness =? 0)%nat SCRIPT_ERR_WITNESS_PROGRAM_WITNESS_EMPTY in
    let back := List.last witness [] in
    let has_annex := (2 <=? size witness) && negb (length back =? 0)%nat && (byte_at back 0 =? ANNEX_TAG) in
    let annex := if has_annex then Some (SHA256 hashes (ser_bytes back)) else None in
    let stack := if has_annex then removelast witness else witness in
    match stack with
    | [sig] =>
        let! _ := CheckSchnorrSignature checker sig program TAPROOT (mkExec None None (Some annex) None None) in
        Ok tt
    | _ => verify_script_path witness stack program annex
    end.

(** BitcoBoost: witness version 2, ECDSA and ML-DSA-44 together. *)
Definition verify_hybrid (witness : CScriptWitness) (program : valtype) : eval unit :=
  match witness with
  | [ecdsa_sig; ecdsa_pub; mldsa_sig; mldsa_pub] =>
      let! ok := CheckHybridSignature checker ecdsa_sig ecdsa_pub mldsa_sig mldsa_pub program in
      fail_if (negb ok) SCRIPT_ERR_WITNESS_PROGRAM_MISMATCH
  | _ => set_error SCRIPT_ERR_WITNESS_PROGRAM_MISMATCH
  end.

Definition VerifyWitnessProgram (witness : CScriptWitness) (witversion : Z) (program : valtype) (is_p2sh : bool)
    : eval unit :=
  if witversion =? 0 then verify_v0 witness program
  else if (witversion =? 1) && (size program =? WITNESS_V1_TAPROOT_SIZE) && negb is_p2sh
  then verify_taproot witness program
  else if (witversion =? 2) && (size program =? 32) && negb is_p2sh then verify_hybrid witness program
  else fail_if (flag flags SCRIPT_VERIFY_DISCOURAGE_UPGRADABLE_WITNESS_PROGRAM)
         SCRIPT_ERR_DISCOURAGE_UPGRADABLE_WITNESS_PROGRAM.

(** ** [VerifyScript] *)

Definition EvalBase (stack : list valtype) (script : CScript) : eval (list valtype) :=
  let! (stack, _) := EvalScript hashes flags checker BASE stack script execdata_empty in Ok stack.

(** [if (stack.empty()) ...; if (!CastToBool(stack.back())) ...] *)
Definition require_true (stack : list valtype) : eval unit :=
  match stack with
  | [] => set_error SCRIPT_ERR_EVAL_FALSE
  | top :: _ => fail_if (negb (CastToBool top)) SCRIPT_ERR_EVAL_FALSE
  end.

(** [stack.resize(1)] keeps the bottom of the stack. *)
Definition resize1 (stack : list valtype) : list valtype := [List.last stack []].

(** The witness program of [script], if it is one under these flags: whether
    there was one. *)
Definition verify_program (script : CScript) (malleated : bool) (e : ScriptError) (witness : CScriptWitness)
    (is_p2sh : bool) : eval bool :=
  if flag flags SCRIPT_VERIFY_WITNESS then
    match IsWitnessProgram script with
    | Some (version, program) =>
        let! _ := fail_if malleated e in
        let! _ := VerifyWitnessProgram witness version program is_p2sh in
        Ok true
    | None => Ok false
    end
  else Ok false.

Definition VerifyScript (scriptSig scriptPubKey : CScript) (witness : CScriptWitness) : eval unit :=
  let! _ := fail_if (flag flags SCRIPT_VERIFY_SIGPUSHONLY && negb (IsPushOnly scriptSig)) SCRIPT_ERR_SIG_PUSHONLY in
  let! stackCopy := EvalBase [] scriptSig in
  let! stack := EvalBase stackCopy scriptPubKey in
  let! _ := require_true stack in
  let! hadWitness := verify_program scriptPubKey (negb (size scriptSig =? 0)) SCRIPT_ERR_WITNESS_MALLEATED
                       witness false in
  let stack := if (hadWitness : bool) then resize1 stack else stack in
  let! (stack, hadWitness) :=
    if flag flags SCRIPT_VERIFY_P2SH && IsPayToScriptHash scriptPubKey then
      let! _ := fail_if (negb (IsPushOnly scriptSig)) SCRIPT_ERR_SIG_PUSHONLY in
      match stackCopy with
      | [] => Err Aborted
      | pubKey2 :: stack =>
          let! stack := EvalBase stack pubKey2 in
          let! _ := require_true stack in
          let! had := verify_program pubKey2 (negb (bool_decide (scriptSig = push_vec [] pubKey2)))
                        SCRIPT_ERR_WITNESS_MALLEATED_P2SH witness true in
          Ok (if (had : bool) then resize1 stack else stack, hadWitness || had)
      end
    else Ok (stack, hadWitness) in
  let! _ :=
    if flag flags SCRIPT_VERIFY_CLEANSTACK then
      let! _ := assert (flag flags SCRIPT_VERIFY_P2SH) in
      let! _ := assert (flag flags SCRIPT_VERIFY_WITNESS) in
      fail_if (negb (length stack =? 1)%nat) SCRIPT_ERR_CLEANSTACK
    else Ok tt in
  if flag flags SCRIPT_VERIFY_WITNESS then
    let! _ := assert (flag flags SCRIPT_VERIFY_P2SH) in
    fail_if (negb hadWitness && negb (witness_IsNull witness)) SCRIPT_ERR_WITNESS_UNEXPECTED
  else Ok tt.

End Verify.

(** [CScriptCheck::operator()] for input [nIn], given the outputs the
    transaction spends; the precomputed data is the one [CheckInputScripts]
    makes. *)
Definition CScriptCheck (hashes : script_hashes) (lib : sig_lib) (tx : CTransaction) (spent_outputs : list CTxOut)
    (nIn : nat) (nFlags : Z) : eval unit :=
  let! txdata := Init hashes tx spent_outputs false in
  let txin := default null_txin (vin tx !! nIn) in
  let out := default txout_null (spent_outputs !! nIn) in
  VerifyScript hashes lib nFlags (TransactionSignatureChecker hashes lib tx nIn (nValue out) (Some txdata))
    (scriptSig txin) (scriptPubKey out) (scriptWitness txin).

End VerifyScript.
