(* ===== verification/InterpreterFacts.v ===== *)
(** Lemmas about the script interpreter: the condition stack against a list of
    booleans, absence of failed assertions, the size limits of the stacks, and
    the matching of signatures to keys. *)
From Stdlib Require Import ZArith Lia.
From stdpp Require Import gmap.
From S2P Require Import Prelude Serialize Script Transaction Interpreter.
Import Serialize Script Transaction ScriptFlags Interpreter.
Local Open Scope bb_scope.

(** ** The condition stack *)

Module ConditionFacts.

(** The position of the first false value, counted from the bottom. *)
Fixpoint first_false (l : list bool) : option Z :=
  match l with
  | [] => None
  | b :: l => if b then Z.succ <$> first_false l else Some 0
  end.

(** [c] stands for the conditions [l], bottom first. *)
Definition stands_for (c : ConditionStack) (l : list bool) : Prop :=
  size l < NO_FALSE ∧ m_stack_size c = size l ∧ m_first_false_pos c = default NO_FALSE (first_false l).

Lemma first_false_range l k : first_false l = Some k → 0 <= k < size l.
Proof.
  revert k. induction l as [|[] l IH]; intros k; cbn; [done| |intros [= <-]; unfold size; cbn; lia].
  destruct (first_false l) as [k'|]; cbn; [|done]. intros [= <-]. specialize (IH k' eq_refl). unfold size in *. cbn. lia.
Qed.

Lemma first_false_all l : forallb id l = true ↔ first_false l = None.
Proof. induction l as [|[] l IH]; cbn; [done| |done]. rewrite IH. by destruct (first_false l). Qed.

Lemma first_false_snoc l b :
  first_false (l ++ [b]) = match first_false l with
                           | Some k => Some k
                           | None => if b then None else Some (size l)
                           end.
Proof.
  induction l as [|[] l IH]; cbn; [by destruct b| |done].
  rewrite IH. destruct (first_false l), b; cbn; try done. f_equal. unfold size. cbn. lia.
Qed.

Lemma stands_for_new : stands_for cond_new [].
Proof. done. Qed.

Section Related.
Context (c : ConditionStack) (l : list bool).
Hypothesis rel : stands_for c l.

Lemma cond_empty_spec : cond_empty c = (length l =? 0)%nat.
Proof. destruct rel as (_ & E & _). unfold cond_empty. rewrite E. unfold size. by destruct l. Qed.

Lemma all_true_spec : all_true c = forallb id l.
Proof.
  destruct rel as (Hs & _ & E). unfold all_true. rewrite E.
  destruct (first_false l) as [k|] eqn:F; cbn.
  - apply first_false_range in F as Hk. destruct (forallb id l) eqn:A; [|lia].
    apply first_false_all in A. congruence.
  - apply first_false_all in F. by rewrite F.
Qed.

Lemma cond_push_back_spec b :
  size l + 1 < NO_FALSE → stands_for (cond_push_back c b) (l ++ [b]).
Proof.
  destruct rel as (Hs & E1 & E2). intros Hb.
  assert (size (l ++ [b]) = size l + 1) as Ez by (unfold size; rewrite length_app; cbn; lia).
  unfold cond_push_back, stands_for. cbn. rewrite E1, E2, Ez, first_false_snoc.
  split_and!; [done|apply wrap_small; unfold in_u, size, NO_FALSE in *; lia|].
  destruct (first_false l) as [k|] eqn:F; cbn.
  - apply first_false_range in F. replace (k =? NO_FALSE) with false by lia. done.
  - by destruct b.
Qed.
End Related.

(** What pops and toggles do below a top value [b]. *)
Lemma cond_pop_back_spec c l b : stands_for c (l ++ [b]) → ∃ c', cond_pop_back c = Ok c' ∧ stands_for c' l.
Proof.
  intros (Hs & E1 & E2). unfold size in Hs, E1. rewrite length_app in Hs, E1. cbn in Hs, E1.
  unfold cond_pop_back. rewrite E1. replace (_ >? 0) with true by lia. cbn [assert require rbind].
  eexists. split; [done|]. unfold stands_for, size. cbn. split_and!; [lia|lia|].
  rewrite E2, first_false_snoc. replace (Z.of_nat (length l + 1) - 1) with (size l) by (unfold size; lia).
  destruct (first_false l) as [k|] eqn:F; cbn.
  - apply first_false_range in F. by replace (k =? size l) with false by lia.
  - destruct b; cbn; [|by rewrite Z.eqb_refl].
    by replace (NO_FALSE =? size l) with false by (unfold size; lia).
Qed.

Lemma toggle_top_spec c l b :
  stands_for c (l ++ [b]) → ∃ c', toggle_top c = Ok c' ∧ stands_for c' (l ++ [negb b]).
Proof.
  intros (Hs & E1 & E2). unfold size in Hs, E1. rewrite length_app in Hs, E1. cbn in Hs, E1.
  unfold toggle_top. rewrite E1. replace (_ >? 0) with true by lia. cbn [assert require rbind].
  eexists. split; [done|]. unfold stands_for, size. rewrite length_app. cbn. split_and!; [lia|lia|].
  rewrite E2, !first_false_snoc. replace (Z.of_nat (length l + 1) - 1) with (size l) by (unfold size; lia).
  destruct (first_false l) as [k|] eqn:F; cbn.
  - apply first_false_range in F.
    replace (k =? NO_FALSE) with false by (unfold size in *; lia). by replace (k =? size l) with false by lia.
  - destruct b; cbn; [done|]. rewrite Z.eqb_refl.
    by replace (size l =? NO_FALSE) with false by (unfold size; lia).
Qed.

(** Runs of operations, on the code's stack and on a list. *)
Inductive cond_op : Type := PushBack (f : bool) | PopBack | ToggleTop.

Definition run_cond_op (c : ConditionStack) (op : cond_op) : eval ConditionStack :=
  match op with
  | PushBack f => Ok (cond_push_back c f)
  | PopBack => cond_pop_back c
  | ToggleTop => toggle_top c
  end.

Fixpoint run_cond (c : ConditionStack) (ops : list cond_op) : eval ConditionStack :=
  match ops with
  | [] => Ok c
  | op :: ops => let! c := run_cond_op c op in run_cond c ops
  end.

(** The list has its bottom first; popping or toggling nothing is [None]. *)
Definition list_op (l : list bool) (op : cond_op) : option (list bool) :=
  match op with
  | PushBack f => Some (l ++ [f])
  | PopBack => if (length l =? 0)%nat then None else Some (removelast l)
  | ToggleTop => if (length l =? 0)%nat then None else Some (removelast l ++ [negb (List.last l true)])
  end.

Fixpoint run_list (l : list bool) (ops : list cond_op) : option (list bool) :=
  match ops with
  | [] => Some l
  | op :: ops => l ← list_op l op; run_list l ops
  end.

Lemma stands_for_nil c : stands_for c [] → cond_pop_back c = Err Aborted ∧ toggle_top c = Err Aborted.
Proof. intros (_ & E & _). unfold cond_pop_back, toggle_top. by rewrite E. Qed.

Lemma run_cond_op_spec c l op :
  stands_for c l → size l + 1 < NO_FALSE →
  match list_op l op with
  | Some l' => ∃ c', run_cond_op c op = Ok c' ∧ stands_for c' l' ∧ size l' <= size l + 1
  | None => run_cond_op c op = Err Aborted
  end.
Proof.
  intros H Hb. destruct op as [f| |]; cbn.
  - eexists. split; [done|]. split; [by apply cond_push_back_spec|]. unfold size. rewrite length_app. cbn. lia.
  - destruct (exists_last_or_nil l) as [->|(l0 & b & ->)]; [by apply stands_for_nil|].
    rewrite length_app, Nat.add_comm. cbn. rewrite removelast_last.
    destruct (cond_pop_back_spec _ _ _ H) as (c' & E & H'). exists c'. split_and!; [done|done|].
    unfold size. rewrite length_app. lia.
  - destruct (exists_last_or_nil l) as [->|(l0 & b & ->)]; [by apply stands_for_nil|].
    rewrite length_app, Nat.add_comm. cbn. rewrite removelast_last, last_last.
    destruct (toggle_top_spec _ _ _ H) as (c' & E & H'). exists c'. split_and!; [done|done|].
    unfold size. rewrite !length_app. cbn. lia.
Qed.

Lemma run_cond_spec ops c l :
  stands_for c l → size l + size ops < NO_FALSE →
  match run_list l ops with
  | Some l' => ∃ c', run_cond c ops = Ok c' ∧ stands_for c' l'
  | None => run_cond c ops = Err Aborted
  end.
Proof.
  revert c l. induction ops as [|op ops IH]; intros c l H Hb; cbn [run_list run_cond]; [by exists c|].
  unfold size in Hb. cbn [length] in Hb.
  pose proof (run_cond_op_spec c l op H ltac:(unfold size; lia)) as Hop.
  destruct (list_op l op) as [l'|]; cbn; [|by rewrite Hop].
  destruct Hop as (c' & -> & H' & Hl'). cbn. apply IH; [done|]. unfold size in *. lia.
Qed.

End ConditionFacts.

(** ** Absence of failed assertions, and the limits of the stacks *)

Module SafetyFacts.
Import ScriptFacts ConditionFacts.

(** [r] is a script error or a result with [P]: no assertion failed and no
    loop ran out of fuel. *)
Definition safe {A} (P : A → Prop) (r : eval A) : Prop :=
  match r with
  | Ok a => P a
  | Err (Fail _) => True
  | Err _ => False
  end.

Lemma safe_bind {A B} (P : A → Prop) (Q : B → Prop) r (k : A → eval B) :
  safe P r → (∀ a, P a → safe Q (k a)) → safe Q (rbind r k).
Proof. intros H Hk. destruct r as [a|[]]; cbn in *; auto. Qed.

Lemma safe_weaken {A} (P Q : A → Prop) r : safe P r → (∀ a, P a → Q a) → safe Q r.
Proof. intros H HPQ. destruct r as [a|[]]; cbn in *; auto. Qed.

Lemma safe_fail (c : bool) e : safe (fun _ => c = false) (fail_if c e).
Proof. unfold fail_if. by destruct c. Qed.

(** ** Numbers *)

Lemma vch_value_range vch k :
  bytes_ok vch → size vch <= k → 0 < k → - 2 ^ (8 * k - 1) < vch_value vch < 2 ^ (8 * k - 1).
Proof.
  intros Hb Hs Hk. destruct (exists_last_or_nil vch) as [->|(l & b & ->)]; [cbn; lia|].
  apply Forall_app in Hb as [Hl Hb]. rewrite Forall_singleton in Hb. rewrite vch_value_snoc by done.
  pose proof (digits_val_range 8 ltac:(lia) l Hl) as Hr. unfold in_u in Hr. rewrite size_app in Hs.
  assert (size [b] = 1) as E1 by done. rewrite E1 in Hs. unfold size in *.
  set (n := Z.of_nat (length l)) in *.
  assert (0 <= b mod 128 < 128) as Hm by (apply Z.mod_pos_bound; lia).
  assert (2 ^ (8 * n) * 128 = 2 ^ (8 * n + 7)) as Ep by (rewrite Z.pow_add_r by lia; lia).
  assert (2 ^ (8 * n + 7) <= 2 ^ (8 * k - 1)) by (apply Z.pow_le_mono_r; lia).
  unfold signed. destruct (128 <=? b); nia.
Qed.

Lemma num_of_safe flags vch k :
  bytes_ok vch → 0 < k <= 8 → safe (fun n => - 2 ^ (8 * k - 1) < n < 2 ^ (8 * k - 1)) (num_of flags vch k).
Proof.
  intros Hb Hk. unfold num_of. destruct (CScriptNum.CScriptNum _ _ _) as [n|] eqn:E; [|done].
  apply CScriptNum_ok in E as (Hs & _ & ->); [|done|lia]. cbn. apply vch_value_range; [done|done|lia].
Qed.

Lemma num4_safe flags vch : bytes_ok vch → safe (fun n => - 2 ^ 31 < n < 2 ^ 31) (num4 flags vch).
Proof. intros Hb. apply (num_of_safe flags vch 4 Hb). unfold CScriptNum.nDefaultMaxNumSize. lia. Qed.

(** ** Stack elements *)

Definition el_ok (v : valtype) : Prop := bytes_ok v ∧ size v <= MAX_SCRIPT_ELEMENT_SIZE.

Lemma getvch_ok n : - 2 ^ 63 < n < 2 ^ 63 → el_ok (getvch n).
Proof.
  intros Hn. destruct (serialize_spec n Hn) as (Hb & Hl & _). split; [done|].
  unfold getvch, size, MAX_SCRIPT_ELEMENT_SIZE. lia.
Qed.

Lemma vch_bool_ok b : el_ok (vch_bool b).
Proof. destruct b; split; cbn; try (repeat constructor; unfold in_u; lia); unfold size, MAX_SCRIPT_ELEMENT_SIZE; cbn; lia. Qed.

Lemma CastToBool_b2z b : CastToBool (getvch (Z.b2z b)) = b.
Proof. by destruct b. Qed.

Create HintDb safe.
#[export] Hint Resolve getvch_ok vch_bool_ok : safe.

(** Hashes of the expected sizes. *)
Definition hashes_ok (h : script_hashes) : Prop :=
  ∀ v, (bytes_ok (SHA1 h v) ∧ length (SHA1 h v) = 20%nat) ∧ (bytes_ok (SHA256 h v) ∧ length (SHA256 h v) = 32%nat) ∧
       (bytes_ok (RIPEMD160 h v) ∧ length (RIPEMD160 h v) = 20%nat).

Lemma hash_of_ok h op v : hashes_ok h → el_ok (hash_of h op v).
Proof.
  intros H. assert (∀ v (n : nat), (n <= 32)%nat → bytes_ok v ∧ length v = n → el_ok v) as Hn.
  { intros w n Hn [Hb E]. split; [done|]. unfold size, MAX_SCRIPT_ELEMENT_SIZE. lia. }
  unfold hash_of, CHash160, CHash256. destruct (op =? OP_RIPEMD160); [apply (Hn _ 20%nat); [lia|apply H]|].
  destruct (op =? OP_SHA1); [apply (Hn _ 20%nat); [lia|apply H]|].
  destruct (op =? OP_SHA256); [apply (Hn _ 32%nat); [lia|apply H]|].
  destruct (op =? OP_HASH160); [apply (Hn _ 20%nat); [lia|apply H]|apply (Hn _ 32%nat); [lia|apply H]].
Qed.
#[export] Hint Resolve hash_of_ok : safe.

(** ** Opcodes on the stack *)

Abbreviation stack_ok := (Forall el_ok).

(** Splits the elements off a stack that is known to be good. *)
Ltac stack_cases :=
  repeat match goal with
  | H : Forall _ (_ :: _) |- _ => apply list.Forall_cons in H as [? H]
  end.

Lemma stack_op_safe op s : stack_ok s → size s < 2 ^ 62 → safe stack_ok (stack_op op s).
Proof.
  intros Hs Hn. assert (el_ok (getvch (size s))) as Hsz
    by (apply getvch_ok; unfold size in *; lia).
  assert (∀ v, el_ok v → el_ok (getvch (size v))) as Hv
    by (intros v [_ Hv]; apply getvch_ok; unfold MAX_SCRIPT_ELEMENT_SIZE, size in *; lia).
  unfold stack_op. do 15 (case_match; [repeat case_match; cbn; stack_cases; eauto 10|]).
  repeat case_match; cbn; stack_cases; eauto 10.
Qed.

Lemma op_pick_safe flags op s : stack_ok s → safe stack_ok (op_pick flags op s).
Proof.
  intros Hs. unfold op_pick. destruct s as [|top [|x s]]; [done|done|]. stack_cases.
  eapply safe_bind; [apply num4_safe; by destruct H|]. intros n _. cbn beta.
  set (l := x :: s). assert (stack_ok l) as Hl by (by constructor). clearbody l.
  destruct (_ || _) eqn:E; [done|]. to_prop. cbn. constructor.
  - destruct (l !! _) as [v|] eqn:Ev; cbn; [by eapply Forall_lookup_1|].
    apply lookup_ge_None in Ev. unfold size in *. lia.
  - destruct (op =? OP_ROLL); [|done]. by apply Forall_delete.
Qed.

Lemma unary_num_safe op n :
  - 2 ^ 31 < n < 2 ^ 31 → safe (fun m => - 2 ^ 32 < m < 2 ^ 32) (unary_num op n).
Proof.
  intros Hn. unfold unary_num, num_add_assign, num_sub_assign, num_neg, assert, require.
  repeat case_match; cbn; try lia; try (destruct (n =? 0); cbn; lia).
  all: match goal with H : ?b = false |- _ => exfalso end; to_prop; lia.
Qed.

Lemma op_unary_safe flags op s : stack_ok s → safe stack_ok (op_unary flags op s).
Proof.
  intros Hs. unfold op_unary. destruct s as [|x s]; [done|]. stack_cases.
  eapply safe_bind; [apply num4_safe; by destruct H|]. intros n Hn.
  eapply safe_bind; [by apply unary_num_safe|]. intros m Hm. cbn beta in Hm. cbn. constructor; [apply getvch_ok; lia|done].
Qed.

Lemma binary_num_range op n1 n2 :
  - 2 ^ 31 < n1 < 2 ^ 31 → - 2 ^ 31 < n2 < 2 ^ 31 → - 2 ^ 32 < binary_num op n1 n2 < 2 ^ 32.
Proof.
  intros H1 H2. unfold binary_num. repeat case_match; try lia;
    try (match goal with |- context [Z.b2z ?b] => destruct b end; cbn; lia);
    rewrite swrap_small; try lia; unfold in_s; lia.
Qed.

Lemma op_binary_safe flags op s : stack_ok s → safe stack_ok (op_binary flags op s).
Proof.
  intros Hs. unfold op_binary. destruct s as [|x2 [|x1 s]]; [done|done|]. stack_cases.
  eapply safe_bind; [apply num4_safe; by destruct H0|]. intros n1 Hn1.
  eapply safe_bind; [apply num4_safe; by destruct H|]. intros n2 Hn2. cbn beta.
  destruct (op =? OP_NUMEQUALVERIFY); [by eapply safe_bind; [apply safe_fail|]|].
  cbn. constructor; [|done]. apply getvch_ok. pose proof (binary_num_range op n1 n2 Hn1 Hn2). lia.
Qed.

Lemma op_within_safe flags s : stack_ok s → safe stack_ok (op_within flags s).
Proof.
  intros Hs. unfold op_within. destruct s as [|x3 [|x2 [|x1 s]]]; [done|done|done|]. stack_cases.
  do 3 (eapply safe_bind; [apply num4_safe; by match goal with H : el_ok ?x |- bytes_ok ?x => destruct H end|intros ? ?]).
  cbn. constructor; auto with safe.
Qed.

(** ** Signature checks *)

Lemma skip_copies_shorter fuel b pc n : (length (skip_copies fuel b pc n).1 <= length pc)%nat.
Proof.
  revert pc n. induction fuel as [|fuel IH]; intros pc n; cbn; [lia|]. case_bool_decide; [|cbn; lia].
  etrans; [apply IH|]. rewrite length_drop. lia.
Qed.

Lemma find_delete_loop_total fuel b pc2 pc r n :
  (length pc < fuel)%nat → is_Some (find_delete_loop fuel b pc2 pc r n).
Proof.
  revert pc2 pc r n. induction fuel as [|fuel IH]; intros pc2 pc r n Hf; [lia|]. cbn [find_delete_loop].
  pose proof (skip_copies_shorter (length pc) b pc n) as Hs. destruct (skip_copies _ _ _ _) as [pc' n']. cbn in Hs.
  destruct (GetScriptOp pc') as [[[op d] pc'']|] eqn:E; [|done]. apply GetScriptOp_shorter in E. apply IH. lia.
Qed.

Lemma FindAndDelete_safe script b : safe (fun _ => True) (FindAndDelete script b).
Proof.
  unfold FindAndDelete. destruct (length b =? 0)%nat; [done|].
  destruct (find_delete_loop_total (S (length script)) b script script [] 0) as [[[? ?] ?] ->]; [lia|done].
Qed.

Definition exec_ready (d : ScriptExecutionData) : Prop :=
  is_Some (m_tapleaf_hash d) ∧ is_Some (m_codeseparator_pos d) ∧ is_Some (m_annex d) ∧
  is_Some (m_validation_weight_left d).

Section Eval.
Context (hashes : script_hashes) (flags : Z) (checker : BaseSignatureChecker) (sigversion : SigVersion).

(** What the interpreter relies on: the checker does not fail an assertion. *)
Record checker_ok : Prop := {
  ecdsa_total : sigversion ≠ TAPSCRIPT → ∀ sig key code,
    safe (fun _ => True) (CheckECDSASignature checker sig key code sigversion);
  schnorr_total : ∀ sig key d, sigversion = TAPSCRIPT → size key = 32 → exec_ready d →
    safe exec_ready (CheckSchnorrSignature checker sig key sigversion d);
}.
Hypothesis Hhashes : hashes_ok hashes.
Hypothesis Hchecker : checker_ok.
Hypothesis Hversion : sigversion ≠ TAPROOT.

Lemma drop_signature_safe code sig : safe (fun _ => True) (drop_signature flags sigversion code sig).
Proof.
  unfold drop_signature. destruct (is_base sigversion); [|done].
  eapply safe_bind; [apply FindAndDelete_safe|]. intros [found code'] _.
  by eapply safe_bind; [apply safe_fail|].
Qed.

Lemma drop_signatures_safe sigs code : safe (fun _ => True) (drop_signatures flags sigversion code sigs).
Proof.
  revert code. induction sigs as [|sig sigs IH]; intros code; cbn; [done|].
  eapply safe_bind; [apply drop_signature_safe|]. intros; apply IH.
Qed.

Lemma encodings_safe sig key :
  safe (fun _ => True) (CheckSignatureEncoding hashes flags sig) ∧
  safe (fun _ => True) (CheckPubKeyEncoding flags key sigversion).
Proof.
  unfold CheckSignatureEncoding, CheckPubKeyEncoding, IsLowDERSignature, fail_if, require, set_error.
  split; repeat case_match; done.
Qed.

Lemma pre_tapscript_spec : pre_tapscript sigversion = negb (is_tapscript sigversion).
Proof. unfold pre_tapscript, is_tapscript, is_base. by destruct sigversion; try congruence. Qed.

Lemma EvalChecksig_safe sig key code d :
  (sigversion = TAPSCRIPT → exec_ready d) →
  safe (fun r => sigversion = TAPSCRIPT → exec_ready r.2)
    (EvalChecksig hashes flags checker sigversion sig key code d).
Proof.
  intros Hd. destruct (decide (sigversion = TAPSCRIPT)) as [Ev|Ev].
  - unfold EvalChecksig. rewrite Ev. unfold EvalChecksigTapscript.
    specialize (Hd Ev). destruct Hd as (Hl & Hc & Ha & [w Hw]).
    replace (is_tapscript TAPSCRIPT) with true by done. cbn [assert require rbind].
    eapply (safe_bind exec_ready).
    { destruct (negb (size sig =? 0)); [|by split_and!; [..|exists w]]. rewrite Hw.
      eapply safe_bind; [apply safe_fail|]. intros _ _. cbn. by split_and!; cbn; [..|eexists]. }
    intros d' Hd'. destruct (size key =? 0); [done|]. destruct (size key =? 32) eqn:Ek; to_prop.
    + destruct (negb _); [|exact (fun _ => Hd')]. eapply safe_bind; [|exact (fun _ H _ => H)].
      rewrite <- Ev. apply schnorr_total; [apply Hchecker|done|lia|done].
    + eapply safe_bind; [apply safe_fail|]. exact (fun _ _ _ => Hd').
  - assert (EvalChecksig hashes flags checker sigversion sig key code d =
      let! success := EvalChecksigPreTapscript hashes flags checker sigversion sig key code in Ok (success, d)) as ->
      by (unfold EvalChecksig; destruct sigversion; done).
    eapply safe_bind; [|by intros b _]. unfold EvalChecksigPreTapscript.
    rewrite pre_tapscript_spec. unfold is_tapscript. rewrite bool_decide_false by done. cbn [assert require rbind negb].
    eapply safe_bind; [apply drop_signature_safe|]. intros code' _.
    eapply safe_bind; [apply (encodings_safe sig key)|]. intros _ _.
    eapply safe_bind; [apply (encodings_safe sig key)|]. intros _ _.
    eapply safe_bind; [by apply Hchecker|]. intros ok _.
    eapply safe_bind; [apply safe_fail|]. exact (fun _ _ => I).
Qed.

Lemma multisig_loop_safe code keys sigs :
  sigversion ≠ TAPSCRIPT → safe (fun _ => True) (multisig_loop hashes flags checker sigversion code sigs keys).
Proof.
  intros Ev. revert sigs. induction keys as [|key keys IH]; intros [|sig sigs]; cbn [multisig_loop]; [done..|].
  eapply safe_bind; [apply (encodings_safe sig key)|]. intros _ _.
  eapply safe_bind; [apply (encodings_safe sig key)|]. intros _ _.
  eapply safe_bind; [by apply Hchecker|]. intros ok _. cbn beta. case_match; [done|apply IH].
Qed.

Lemma multisig_cleanup_safe n ok k s :
  stack_ok s → safe stack_ok (multisig_cleanup flags n ok k s).
Proof.
  revert k s. induction n as [|n IH]; intros k s Hs; cbn [multisig_cleanup]; [done|].
  destruct s as [|v s]; [done|]. stack_cases. eapply safe_bind; [apply safe_fail|]. intros _ _. by apply IH.
Qed.

(** ** States *)

(** [n] bounds the depth of the conditions. *)
Definition st_inv (n : Z) (st : eval_state) : Prop :=
  (∃ l, stands_for (vfExec st) l ∧ size l <= n) ∧ stack_ok (stack st) ∧ stack_ok (altstack st) ∧
  (sigversion = TAPSCRIPT → exec_ready (execdata st)).

(** The stacks the interpreter starts with may be larger than what it lets them
    grow to. *)
Context (limit : Z).
Hypothesis Hlimit : MAX_STACK_SIZE <= limit < 2 ^ 62.

Definition within_limits (st : eval_state) : Prop := size (stack st) + size (altstack st) <= limit.

Lemma on_stack_safe n st r : st_inv n st → safe stack_ok r → safe (st_inv n) (on_stack st r).
Proof.
  intros (Hc & _ & Ha & Hd) Hr. unfold on_stack. eapply safe_bind; [done|]. intros s Hs.
  by split_and!.
Qed.

Lemma st_inv_mono n m st : n <= m → st_inv n st → st_inv m st.
Proof. intros Hnm ((l & Hl & Hs) & H). split; [|done]. exists l. split; [done|lia]. Qed.

Lemma op_if_safe n op fExec st :
  st_inv n st → n + 1 < NO_FALSE → safe (st_inv (n + 1)) (op_if flags sigversion op fExec st).
Proof.
  intros ((l & Hl & Hln) & Hs & Ha & Hd) Hn. assert (∀ b, ∃ l', stands_for (cond_push_back (vfExec st) b) l' ∧ size l' <= n + 1) as Hp.
  { intros b. exists (l ++ [b]). split; [apply cond_push_back_spec; [done|lia]|]. rewrite size_app. unfold size at 2. cbn. lia. }
  unfold op_if. destruct fExec; [|by split_and!; [apply Hp|..]].
  destruct (stack st) as [|v s] eqn:E; [done|]. stack_cases.
  eapply safe_bind; [apply safe_fail|]. intros _ _. eapply safe_bind; [apply safe_fail|]. intros _ _.
  by split_and!; [apply Hp|..].
Qed.

(** Removing or toggling the innermost condition. *)
Lemma op_else_endif_safe n st :
  st_inv n st → safe (st_inv n) (op_else st) ∧ safe (st_inv n) (op_endif st).
Proof.
  intros ((l & Hl & Hln) & Hs & Ha & Hd). unfold op_else, op_endif. rewrite (cond_empty_spec _ _ Hl).
  destruct (exists_last_or_nil l) as [->|(l0 & b & ->)]; [done|].
  rewrite length_app, Nat.add_comm. cbn [Nat.add length Nat.eqb fail_if require negb rbind].
  destruct (toggle_top_spec _ _ _ Hl) as (c1 & -> & H1). destruct (cond_pop_back_spec _ _ _ Hl) as (c2 & -> & H2).
  rewrite size_app in Hln. cbn [rbind]. split; (split; [eexists; split; [done|]|done]).
  - rewrite size_app. done.
  - unfold size in *. cbn in Hln. lia.
Qed.

Lemma altstack_safe n st : st_inv n st → safe (st_inv n) (op_toaltstack st) ∧ safe (st_inv n) (op_fromaltstack st).
Proof.
  intros (Hc & Hs & Ha & Hd). unfold op_toaltstack, op_fromaltstack. split.
  - destruct (stack st) as [|v s]; [done|]. stack_cases. by split_and!; [..|constructor|].
  - destruct (altstack st) as [|v s]; [done|]. stack_cases. by split_and!; [|constructor|..].
Qed.

Lemma op_checksig_safe n op st : st_inv n st → safe (st_inv n) (op_checksig hashes flags checker sigversion op st).
Proof.
  intros (Hc & Hs & Ha & Hd). unfold op_checksig. destruct (stack st) as [|key [|sig s]]; [done|done|].
  stack_cases. eapply safe_bind; [by apply EvalChecksig_safe|]. intros [ok d] Hd'.
  destruct (op =? OP_CHECKSIGVERIFY).
  - eapply safe_bind; [apply safe_fail|]. intros _ _. by split_and!.
  - by split_and!; [|constructor; [apply vch_bool_ok|]|..].
Qed.

Lemma op_checksigadd_safe n st : st_inv n st → safe (st_inv n) (op_checksigadd hashes flags checker sigversion st).
Proof.
  intros (Hc & Hs & Ha & Hd). unfold op_checksigadd. eapply safe_bind; [apply safe_fail|]. intros _ _.
  destruct (stack st) as [|key [|num [|sig s]]]; [done..|]. stack_cases.
  eapply safe_bind; [apply num4_safe; by destruct H0|]. intros m Hm. cbn beta in Hm.
  eapply safe_bind; [by apply EvalChecksig_safe|]. intros [ok d] Hd'.
  split_and!; [done|constructor; [|done]|done|done]. apply getvch_ok.
  rewrite swrap_small by (unfold in_s; destruct ok; lia). destruct ok; lia.
Qed.

Lemma op_checkmultisig_safe n op st :
  st_inv n st → safe (st_inv n) (op_checkmultisig hashes flags checker sigversion op st).
Proof.
  intros (Hc & Hs & Ha & Hd). unfold op_checkmultisig. eapply safe_bind; [apply safe_fail|]. intros ? Ht.
  cbn beta in Ht. unfold is_tapscript in Ht. apply bool_decide_eq_false in Ht.
  assert (∀ v, el_ok v → safe (fun _ => True) (num4 flags v)) as Hnum
    by (intros v [Hv _]; eapply safe_weaken; [by apply num4_safe|done]).
  destruct (stack st) as [|top s] eqn:Es; [done|]. rewrite <- Es in Hs.
  eapply safe_bind; [apply Hnum; rewrite Es in Hs; by stack_cases|]. intros bn _. cbn beta.
  do 3 (eapply safe_bind; [apply safe_fail|]; intros ? ?).
  cbn [stack set_nOpCount]. set (k := CScriptNum.getint bn) in *.
  eapply safe_bind.
  { apply Hnum. destruct (stack st !! _) as [v|] eqn:Ev; cbn; [exact (Forall_lookup_1 _ _ _ _ Hs Ev)|].
    split; [constructor|done]. }
  intros bm _. cbn beta. do 2 (eapply safe_bind; [apply safe_fail|]; intros ? ?).
  eapply safe_bind; [apply drop_signatures_safe|]. intros code _.
  eapply safe_bind; [by apply multisig_loop_safe|]. intros ok _.
  eapply safe_bind; [by apply multisig_cleanup_safe|]. intros s' Hs'. cbn beta in Hs'.
  destruct s' as [|dummy s']; [done|]. stack_cases. eapply safe_bind; [apply safe_fail|]. intros _ _.
  destruct (op =? OP_CHECKMULTISIGVERIFY).
  - eapply safe_bind; [apply safe_fail|]. intros _ _. by split_and!.
  - by split_and!; [|constructor; [apply vch_bool_ok|]|..].
Qed.

Lemma push_stack_inv n st v : st_inv n st → el_ok v → st_inv n (set_stack st (v :: stack st)).
Proof. intros (Hc & Hs & Ha & Hd) Hv. by split_and!; [|constructor|..]. Qed.

Lemma lock_ops_safe st :
  stack_ok (stack st) →
  safe stack_ok (op_checklocktime flags checker (stack st)) ∧ safe stack_ok (op_checksequence flags checker (stack st)).
Proof.
  intros Hs. unfold op_checklocktime, op_checksequence. destruct (stack st) as [|v s] eqn:E; [done|].
  assert (bytes_ok v) as Hv by (by apply list.Forall_cons in Hs as [[? _] _]).
  split; (eapply safe_bind; [apply num_of_safe; [done|lia]|]; intros m _; eapply safe_bind; [apply safe_fail|]; intros _ _).
  - by eapply safe_bind; [apply safe_fail|].
  - case_match; [done|]. by eapply safe_bind; [apply safe_fail|].
Qed.

Lemma exec_op_safe n op pc fExec st :
  st_inv n st → within_limits st → n + 1 < NO_FALSE →
  safe (st_inv (n + 1)) (exec_op hashes flags checker sigversion op pc fExec st).
Proof.
  intros Hst Hl Hn. pose proof Hst as (_ & Hs & _ & _). pose proof (st_inv_mono n (n + 1) st ltac:(lia) Hst) as Hst1.
  assert (size (stack st) < 2 ^ 62) as Hsz by (unfold within_limits, size in *; lia).
  unfold exec_op.
  destruct (is_push_number op) eqn:Ep.
  { apply push_stack_inv; [done|]. apply getvch_ok. unfold is_push_number in Ep. to_prop. lia. }
  do 3 (case_match; [try (case_match; [apply on_stack_safe; [done|by apply lock_ops_safe]|]); done|]).
  case_match; [by eapply safe_bind; [apply safe_fail|]|].
  case_match; [by apply op_if_safe|].
  do 2 (case_match; [by apply op_else_endif_safe|]).
  case_match. { apply on_stack_safe; [done|]. unfold op_verify. destruct (stack st); [done|]. stack_cases.
    by eapply safe_bind; [apply safe_fail|]. }
  case_match; [done|]. do 2 (case_match; [by apply altstack_safe|]).
  case_match; [by apply on_stack_safe; [|apply op_pick_safe]|].
  case_match; [by apply on_stack_safe; [|apply stack_op_safe]|].
  case_match. { apply on_stack_safe; [done|]. unfold op_equal. destruct (stack st) as [|x [|y s]]; [done..|]. stack_cases.
    case_match; [by eapply safe_bind; [apply safe_fail|]|]. cbn. constructor; auto with safe. }
  case_match; [by apply on_stack_safe; [|apply op_unary_safe]|].
  case_match; [by apply on_stack_safe; [|apply op_binary_safe]|].
  case_match; [by apply on_stack_safe; [|apply op_within_safe]|].
  case_match. { apply on_stack_safe; [done|]. unfold op_hash. destruct (stack st); [done|]. stack_cases.
    cbn. constructor; auto with safe. }
  case_match. { destruct Hst1 as (Hc & ? & ? & Hd). split_and!; [done..|]. intros Ev. destruct (Hd Ev) as (? & ? & ? & ?).
    by split_and!; cbn. }
  case_match; [by apply op_checksig_safe|]. case_match; [by apply op_checksigadd_safe|].
  case_match; [by apply op_checkmultisig_safe|]. done.
Qed.

Lemma eval_op_safe n op v pc st :
  st_inv n st → within_limits st → n + 1 < NO_FALSE → bytes_ok v →
  safe (fun st' => st_inv (n + 1) st' ∧ within_limits st') (eval_op hashes flags checker sigversion op v pc st).
Proof.
  intros Hst Hl Hn Hv. unfold eval_op. eapply safe_bind; [apply safe_fail|]. intros ? Hsz. cbn beta in Hsz. to_prop.
  cbv zeta. set (st1 := if pre_tapscript sigversion && _ then _ else st).
  assert (st_inv n st1 ∧ within_limits st1) as [Hst1 Hl1] by (unfold st1; by case_match).
  do 3 (eapply safe_bind; [apply safe_fail|]; intros _ _).
  eapply (safe_bind (st_inv (n + 1))).
  - case_match.
    + eapply safe_bind; [apply safe_fail|]. intros _ _. apply push_stack_inv; [by eapply st_inv_mono; [|apply Hst1]; lia|].
      split; [done|lia].
    + case_match; [by apply exec_op_safe|]. cbn. eapply st_inv_mono; [|apply Hst1]. lia.
  - intros st2 H2. eapply safe_bind; [apply safe_fail|]. intros ? H3. cbn beta in H3. to_prop.
    split; [done|]. unfold within_limits. lia.
Qed.

Lemma GetScriptOp_bytes pc op d pc' :
  GetScriptOp pc = Some (op, d, pc') → bytes_ok pc → bytes_ok d ∧ bytes_ok pc'.
Proof.
  intros (hdr & -> & _)%GetScriptOp_inv Hb. apply list.Forall_cons in Hb as [_ Hb].
  apply Forall_app in Hb as [_ Hb]. by apply Forall_app in Hb.
Qed.

Lemma eval_loop_safe fuel pc st n :
  (length pc <= fuel)%nat → bytes_ok pc → st_inv n st → within_limits st → n + size pc < NO_FALSE →
  safe (fun st' => st_inv (n + size pc) st' ∧ within_limits st') (eval_loop hashes flags checker sigversion fuel pc st).
Proof.
  revert pc st n. induction fuel as [|fuel IH]; intros pc st n Hf Hb Hst Hl Hn.
  { destruct pc; [|cbn in Hf; lia]. cbn. split; [|done]. eapply st_inv_mono; [|done]. unfold size. cbn. lia. }
  destruct pc as [|b pc]; [cbn; split; [|done]; eapply st_inv_mono; [|done]; unfold size; cbn; lia|].
  cbn [eval_loop]. destruct (GetScriptOp (b :: pc)) as [[[op d] pc']|] eqn:E; [|done].
  destruct (GetScriptOp_bytes _ _ _ _ E Hb) as [Hd Hb']. apply GetScriptOp_shorter in E.
  unfold size in Hn. eapply safe_bind.
  { apply (eval_op_safe n); [done|done| |done]. cbn [length] in Hn. lia. }
  intros st1 [H1 Hl1]. cbn in Hf, E. eapply safe_weaken.
  - apply (IH pc' (next_pos st1) (n + 1)); [lia|done|done|done|]. unfold size. cbn [length] in Hn. lia.
  - intros st2 [H2 Hl2]. split; [|done]. eapply st_inv_mono; [|apply H2]. unfold size. cbn [length]. lia.
Qed.

(** The whole interpreter: no assertion fails, and the stack left behind is
    within the limits. *)
Lemma EvalScript_safe s script d :
  stack_ok s → size s <= limit → bytes_ok script →
  (sigversion = TAPSCRIPT → size script < NO_FALSE ∧ exec_ready (with_codeseparator_pos d 0)) →
  safe (fun r => stack_ok r.1 ∧ size r.1 <= limit) (EvalScript hashes flags checker sigversion s script d).
Proof.
  intros Hs Hl Hb Hd. unfold EvalScript. rewrite pre_tapscript_spec, orb_negb_l. cbn [assert require rbind].
  eapply safe_bind; [apply safe_fail|]. intros ? Hsz. cbn beta in Hsz.
  assert (size script < NO_FALSE) as Hn.
  { unfold is_tapscript in Hsz. case_bool_decide; [by apply Hd|]. cbn [negb andb] in Hsz. to_prop.
    unfold MAX_SCRIPT_SIZE, NO_FALSE in *. lia. }
  eapply safe_bind.
  - apply (eval_loop_safe _ _ _ 0); [done|done| |unfold within_limits, size in *; cbn; lia|lia].
    split_and!; [by exists []|done|constructor|]. intros Ev. destruct (Hd Ev) as (_ & ? & ? & ? & ?). by split_and!; cbn.
  - intros st [(_ & Hst & _ & _) Hl']. eapply safe_bind; [apply safe_fail|]. intros _ _. cbn.
    split; [done|]. unfold within_limits, size in *. lia.
Qed.
End Eval.
End SafetyFacts.

(** ** Properties *)

Module InterpreterProps.
Import ConditionFacts SafetyFacts.

(** The two counters that stand for the stack of [OP_IF] conditions behave
    like the stack: after any sequence of pushes, pops and toggles that stays
    below 2^32 - 1 operations, the operation sequence fails (an assertion of the
    class) exactly when the list would be popped or toggled while empty, and
    otherwise [empty] and [all_true] answer for the list of conditions. *)
Theorem condition_stack_refines (ops : list cond_op) :
  size ops < NO_FALSE →
  match run_list [] ops with
  | Some l => ∃ c, run_cond cond_new ops = Ok c ∧
                   cond_empty c = (length l =? 0)%nat ∧ all_true c = forallb id l
  | None => run_cond cond_new ops = Err Aborted
  end.
Proof.
  intros Hs. pose proof (run_cond_spec ops cond_new []) as H. destruct (run_list [] ops) as [l|].
  - destruct H as (c & E & Hc); [done|done|]. exists c. split_and!; [done|by apply cond_empty_spec|by apply all_true_spec].
  - by apply H.
Qed.

Lemma condition_stack_refines_witness :
  let ops := [PushBack true; PushBack false; ToggleTop; PushBack false; PopBack] in
  match run_list [] ops with
  | Some l => ∃ c, run_cond cond_new ops = Ok c ∧
                   cond_empty c = (length l =? 0)%nat ∧ all_true c = forallb id l
  | None => run_cond cond_new ops = Err Aborted
  end.
Proof. apply condition_stack_refines. reflexivity. Defined.

End InterpreterProps.
