(* ===== verification/SignatureFacts.v ===== *)
(** Signatures in scripts: [OP_CHECKMULTISIG] of [src/script/interpreter.cpp] is
    the search for an order-preserving assignment of signatures to keys, and the
    encoding check of ECDSA signatures accepts exactly one encoding of each pair
    of numbers (BIP66). *)
From Stdlib Require Import ZArith Lia.
From stdpp Require Import gmap.
From S2P Require Import Prelude Script Interpreter.
Import Script ScriptFacts ScriptFlags Interpreter.
Local Open Scope bb_scope.

(** * [OP_CHECKMULTISIG] *)
Module MultisigFacts.

(** The signatures match keys of the list, in the order of the list. *)
Definition m_of_n (valid : valtype → valtype → Prop) (sigs keys : list valtype) : Prop :=
  ∃ used, used `sublist_of` keys ∧ Forall2 valid sigs used.

Section Matching.
Context (valid : valtype → valtype → Prop).

Lemma m_of_n_take sig sigs key keys :
  valid sig key → m_of_n valid (sig :: sigs) (key :: keys) ↔ m_of_n valid sigs keys.
Proof.
  intros Hv. split.
  - intros (used & Hs & (k & used' & _ & Hf & ->)%Forall2_cons_inv_l). exists used'. split; [|done].
    apply sublist_cons_r in Hs as [Hs|(l & [= <- <-] & Hs)]; [|done].
    etrans; [|exact Hs]. by constructor.
  - intros (used & Hs & Hf). exists (key :: used). split; by constructor.
Qed.

Lemma m_of_n_skip sig sigs key keys :
  ¬ valid sig key → m_of_n valid (sig :: sigs) (key :: keys) ↔ m_of_n valid (sig :: sigs) keys.
Proof.
  intros Hv. split; intros (used & Hs & Hf).
  - exists used. split; [|done]. apply sublist_cons_r in Hs as [Hs|(l & -> & Hs)]; [done|].
    by apply list.Forall2_cons in Hf as [? _].
  - exists used. split; [by constructor|done].
Qed.

Lemma m_of_n_short sigs keys : m_of_n valid sigs keys → (length sigs <= length keys)%nat.
Proof. intros (used & Hs & Hf). apply Forall2_length in Hf. apply sublist_length in Hs. lia. Qed.
End Matching.

Section Loop.
Context (hashes : script_hashes) (flags : Z) (checker : BaseSignatureChecker) (sigversion : SigVersion) (code : CScript).

(** The signature is good for the key. *)
Definition good (sig key : valtype) : Prop := CheckECDSASignature checker sig key code sigversion = Ok true.

(** Both encodings are accepted, and the checker answers. *)
Definition checked (sig key : valtype) : Prop :=
  CheckSignatureEncoding hashes flags sig = Ok tt ∧ CheckPubKeyEncoding flags key sigversion = Ok tt ∧
  ∃ b, CheckECDSASignature checker sig key code sigversion = Ok b.

Lemma multisig_loop_spec keys sigs :
  (length sigs <= length keys)%nat → (∀ sig key, sig ∈ sigs → key ∈ keys → checked sig key) →
  ∃ b, multisig_loop hashes flags checker sigversion code sigs keys = Ok b ∧
       (b = true ↔ m_of_n good sigs keys).
Proof.
  revert sigs. induction keys as [|key keys IH]; intros [|sig sigs] Hl Hc; cbn in Hl; try lia.
  1-2: exists true; split; [done|]; split; [|done]; intros _; exists []; split; [apply sublist_nil_l|constructor].
  cbn [multisig_loop].
  destruct (Hc sig key) as (-> & -> & b & Eb); [by left..|]. rewrite Eb. cbn [rbind].
  assert (m_of_n good (sig :: sigs) (key :: keys) ↔ m_of_n good (if b then sigs else sig :: sigs) keys) as Hm.
  { destruct b; [by apply m_of_n_take|]. apply m_of_n_skip. unfold good. by rewrite Eb. }
  setoid_rewrite Hm. clear Hm. set (sigs' := if b then sigs else sig :: sigs).
  assert (∀ s, s ∈ sigs' → s ∈ sig :: sigs) as Hin by (intros s; unfold sigs'; destruct b; [by right|done]).
  destruct (size sigs' >? size keys) eqn:E; to_prop; unfold size in E.
  - exists false. split; [done|]. split; [done|]. intros ?%m_of_n_short. lia.
  - apply IH; [lia|]. intros s k Hs Hk. apply Hc; [by apply Hin|by right].
Qed.

(** ** The opcode *)

(** The counts a multisignature script can name. *)
Lemma num4_getvch n : 0 <= n <= 20 → num4 flags (getvch n) = Ok n.
Proof.
  intros Hn. unfold num4, num_of. generalize (fRequireMinimal flags). intros m.
  assert (forallb (fun n => match CScriptNum.CScriptNum (getvch n) m CScriptNum.nDefaultMaxNumSize with
                            | Ok k => k =? n | Err _ => false end) (seqZ 0 21) = true) as H
    by (destruct m; vm_compute; reflexivity).
  apply seqZ_forallb with (c := n) in H; [|lia].
  destruct (CScriptNum.CScriptNum _ _ _); [|done]. to_prop. by subst.
Qed.

Lemma cleanup_skip l ok m s :
  multisig_cleanup flags (length l + m) ok (size l) (l ++ s) = multisig_cleanup flags m ok 0 s.
Proof.
  induction l as [|v l IH]; [done|]. cbn [length Nat.add multisig_cleanup app].
  replace (size (v :: l) =? 0) with false by (unfold size; cbn; lia). rewrite !andb_false_r. cbn [andb fail_if negb require rbind].
  replace (size (v :: l) >? 0) with true by (unfold size; cbn; lia).
  replace (size (v :: l) - 1) with (size l) by (unfold size; cbn; lia). done.
Qed.

Definition nonempty (v : valtype) : bool := negb (size v =? 0).

Lemma cleanup_signatures sigs ok s :
  multisig_cleanup flags (length sigs) ok 0 (sigs ++ s) =
  if negb ok && flag flags SCRIPT_VERIFY_NULLFAIL && existsb nonempty sigs then set_error SCRIPT_ERR_SIG_NULLFAIL
  else Ok s.
Proof.
  induction sigs as [|v sigs IH]; cbn [length multisig_cleanup app existsb]; [by rewrite andb_false_r|].
  change (if 0 >? 0 then 0 - 1 else 0) with 0. rewrite IH. unfold nonempty. change (0 =? 0) with true. rewrite andb_true_r.
  destruct (negb ok && _), (negb (size v =? 0)); done.
Qed.

(** Where the opcode finds its arguments. *)
Lemma arguments (a b : valtype) keys sigs s :
  let l := a :: keys ++ b :: sigs ++ s in
  take (length keys) (drop 1 l) = keys ∧ l !! S (length keys) = Some b ∧
  take (length sigs) (drop (S (S (length keys))) l) = sigs ∧
  size l = size keys + 2 + size sigs + size s.
Proof.
  cbn zeta. split_and!.
  - apply take_app_length.
  - by apply (list_lookup_middle keys).
  - cbn [drop]. rewrite (cons_middle b keys), (assoc_L (++)), drop_app_length' by (rewrite length_app; cbn; lia). apply take_app_length.
  - unfold size. cbn [length]. rewrite length_app. cbn [length]. rewrite length_app. lia.
Qed.

Lemma getint_small n : 0 <= n <= 20 → CScriptNum.getint n = n.
Proof.
  intros Hn. unfold CScriptNum.getint. replace (n >? 2 ^ 31 - 1) with false by lia.
  by replace (n <? - 2 ^ 31) with false by lia.
Qed.

Lemma continue_if (c : bool) e {A} (k : unit → eval A) : c = false → rbind (fail_if c e) k = k tt.
Proof. by intros ->. Qed.

Lemma checkmultisig_spec st keys sigs dummy rest :
  sigversion ≠ TAPSCRIPT → size keys <= MAX_PUBKEYS_PER_MULTISIG → size sigs <= size keys →
  nOpCount st + size keys <= MAX_OPS_PER_SCRIPT →
  stack st = getvch (size keys) :: keys ++ getvch (size sigs) :: sigs ++ dummy :: rest →
  drop_signatures flags sigversion (pbegincodehash st) sigs = Ok code →
  op_checkmultisig hashes flags checker sigversion OP_CHECKMULTISIG st =
  let! ok := multisig_loop hashes flags checker sigversion code sigs keys in
  let! _ := fail_if (negb ok && flag flags SCRIPT_VERIFY_NULLFAIL && existsb nonempty sigs) SCRIPT_ERR_SIG_NULLFAIL in
  let! _ := fail_if (flag flags SCRIPT_VERIFY_NULLDUMMY && nonempty dummy) SCRIPT_ERR_SIG_NULLDUMMY in
  Ok (set_stack (set_nOpCount st (nOpCount st + size keys)) (vch_bool ok :: rest)).
Proof.
  intros Hv Hk Hs Ho Est Hd. unfold op_checkmultisig, is_tapscript. rewrite bool_decide_eq_false_2 by done.
  destruct (arguments (getvch (size keys)) (getvch (size sigs)) keys sigs (dummy :: rest)) as (Ek & Eb & Es & El).
  rewrite <- Est in Ek, Eb, Es, El. unfold MAX_PUBKEYS_PER_MULTISIG in *.
  assert (0 <= size sigs ∧ 2 <= size (dummy :: rest) + 1 ∧ Z.to_nat (size keys) = length keys ∧ Z.to_nat (size sigs) = length sigs)
    as (H0 & H1 & Enk & Ens) by (unfold size; cbn [length]; lia).
  rewrite continue_if by done. rewrite Est at 1. rewrite num4_getvch by lia. cbn [rbind]. rewrite getint_small by lia. cbv zeta.
  rewrite continue_if by lia. cbn [nOpCount set_nOpCount stack]. do 2 rewrite continue_if by lia.
  replace (Z.to_nat (size keys + 1)) with (S (length keys)) by lia. rewrite Enk, Ek, Eb. cbn [default id].
  rewrite num4_getvch by lia. cbn [rbind]. rewrite getint_small by lia. do 2 rewrite continue_if by lia.
  replace (Z.to_nat (size keys + 2)) with (S (S (length keys))) by lia. rewrite Ens, Es. cbn [pbegincodehash set_nOpCount].
  rewrite Hd. cbn [rbind]. destruct (multisig_loop _ _ _ _ _ _ _) as [ok|]; [|done]. cbn [rbind].
  replace (stack st) with ((getvch (size keys) :: keys ++ [getvch (size sigs)]) ++ sigs ++ dummy :: rest)
    by (rewrite Est; cbn; by rewrite <- (assoc_L (++))).
  set (front := getvch (size keys) :: keys ++ _).
  assert (size front = size keys + 2) as Ef by (unfold front, size; cbn [length]; rewrite length_app; cbn [length]; lia).
  rewrite <- Ef. replace (Z.to_nat _) with (length front + length sigs)%nat by (unfold size in *; lia).
  rewrite cleanup_skip, cleanup_signatures. by destruct (negb ok && _ && _).
Qed.
End Loop.
End MultisigFacts.

(** * Encoding of ECDSA signatures *)
Module DerFacts.

(** The DER contents of a non-negative integer: big endian, in the fewest bytes
    that leave the sign bit clear. *)
Definition der_int (n : Z) : list Z := rev (le_encode (S (Z.to_nat ((Z.log2 n + 1) / 8))) n).

(** The signature [(r, s)] followed by its hash type. *)
Definition der_signature (r s nHashType : Z) : valtype :=
  0x30 :: (size (der_int r) + size (der_int s) + 4) ::
  0x02 :: size (der_int r) :: der_int r ++ 0x02 :: size (der_int s) :: der_int s ++ [nHashType].

(** What the code asks of the contents of an integer. *)
Definition canonical (l : list Z) : bool :=
  negb (size l =? 0) && (Z.land (byte_at l 0) 0x80 =? 0) &&
  negb ((size l >? 1) && (byte_at l 0 =? 0x00) && (Z.land (byte_at l 1) 0x80 =? 0)).

Lemma be_cons b l : le_decode (rev (b :: l)) = le_decode (rev l) + 2 ^ (8 * size l) * b.
Proof. cbn [rev]. unfold le_decode. rewrite digits_val_snoc. unfold size. by rewrite length_rev. Qed.

Lemma be_range l : bytes_ok l → 0 <= le_decode (rev l) < 2 ^ (8 * size l).
Proof.
  intros Hl. assert (bytes_ok (rev l)) as Hr by (by apply Forall_rev).
  apply (digits_val_range 8) in Hr; [|lia]. unfold in_u in Hr. rewrite length_rev in Hr. done.
Qed.

Lemma canonical_value b l :
  bytes_ok (b :: l) →
  canonical (b :: l) = true ↔
  le_decode (rev (b :: l)) < 2 ^ (8 * size l + 7) ∧ (l ≠ [] → 2 ^ (8 * size l - 1) <= le_decode (rev (b :: l))).
Proof.
  intros [Hb Hl]%list.Forall_cons. unfold canonical.
  change (byte_at (b :: l) 0) with b. change (byte_at (b :: l) 1) with (byte_at l 0). rewrite be_cons.
  rewrite land_80 by done. replace (size (b :: l) =? 0) with false by (unfold size; cbn; lia).
  pose proof (be_range l Hl) as Hv. unfold in_u in Hb. cbn [negb andb].
  rewrite andb_true_iff, Z.ltb_lt, negb_true_iff.
  assert (2 ^ (8 * size l + 7) = 2 ^ (8 * size l) * 128) as E7 by (rewrite Z.pow_add_r by (unfold size; lia); lia).
  destruct l as [|c l].
  { change (size [b] >? 1) with false. change (le_decode (rev [])) with 0. change (2 ^ (8 * size (@nil Z))) with 1.
    change (2 ^ (8 * size (@nil Z) + 7)) with 128. cbn [andb]. split; (intros [? _]; split; [lia|done]). }
  apply list.Forall_cons in Hl as [Hc Hl]. change (byte_at (c :: l) 0) with c. rewrite land_80 by done.
  rewrite be_cons in *. pose proof (be_range l Hl) as Hv'. unfold in_u in Hc.
  assert (8 * size (c :: l) = 8 * size l + 8) as Es by (unfold size; cbn; lia). rewrite Es in *.
  replace (size (b :: c :: l) >? 1) with true by (unfold size; cbn; lia). cbn [andb].
  assert (0 <= 8 * size l) by (unfold size; lia).
  replace (8 * size l + 8 - 1) with (8 * size l + 7) by lia. rewrite !Z.pow_add_r in * by lia.
  set (p := 2 ^ (8 * size l)) in *. change (2 ^ 8) with 256 in *. change (2 ^ 7) with 128 in *.
  assert (0 < p) by lia. destruct (b =? 0) eqn:Eb; to_prop.
  - subst b. rewrite Z.mul_0_r, Z.add_0_r in *. cbn [andb]. rewrite Z.ltb_ge.
    split; [intros [_ Hc']; split; [nia|intros _; nia]|]. intros [_ H2]. split; [lia|]. specialize (H2 ltac:(done)). nia.
  - cbn [andb]. split; [intros [Hb' _]; split; [nia|intros _; nia]|]. intros [H1 _]. split; [nia|done].
Qed.

(** The integers with that many bytes. *)
Lemma byte_count k n :
  0 <= k → 0 <= n → n < 2 ^ (8 * k + 7) → (0 < k → 2 ^ (8 * k - 1) <= n) → (Z.log2 n + 1) / 8 = k.
Proof.
  intros Hk Hn Hu Hl. destruct (decide (n = 0)) as [->|Hn0].
  { destruct (decide (k = 0)) as [->|]; [done|]. specialize (Hl ltac:(lia)). assert (0 < 2 ^ (8 * k - 1)) by (apply Z.pow_pos_nonneg; lia). lia. }
  assert (Z.log2 n < 8 * k + 7) by (apply Z.log2_lt_pow2; lia). pose proof (Z.log2_nonneg n).
  destruct (decide (k = 0)) as [->|]; [apply Z.div_small; lia|].
  assert (8 * k - 1 <= Z.log2 n) by (apply Z.log2_le_pow2; [lia|apply Hl; lia]). symmetry. apply (Z.div_unique _ _ _ (Z.log2 n + 1 - 8 * k)); lia.
Qed.

Lemma byte_count_bounds n :
  0 <= n → let k := (Z.log2 n + 1) / 8 in 0 <= k ∧ n < 2 ^ (8 * k + 7) ∧ (0 < k → 2 ^ (8 * k - 1) <= n).
Proof.
  intros Hn k. pose proof (Z.log2_nonneg n). assert (0 <= k) by (apply Z.div_pos; lia).
  assert (8 * k <= Z.log2 n + 1 < 8 * k + 8) as Hk by (unfold k; zdm).
  split_and!; [done| |].
  - destruct (decide (n = 0)) as [->|]; [apply Z.pow_pos_nonneg; lia|].
    apply Z.lt_le_trans with (2 ^ (Z.succ (Z.log2 n))); [by apply Z.log2_spec; lia|apply Z.pow_le_mono_r; lia].
  - intros Hk0. destruct (decide (n = 0)) as [->|]; [cbn in Hk; lia|].
    apply Z.le_trans with (2 ^ Z.log2 n); [apply Z.pow_le_mono_r; lia|apply Z.log2_spec; lia].
Qed.

Lemma canonical_iff l :
  bytes_ok l → canonical l = true ↔ ∃ n, 0 <= n ∧ l = der_int n.
Proof.
  intros Hl. destruct l as [|b l].
  { split; [done|]. intros (n & _ & E). apply (f_equal length) in E. unfold der_int in E. rewrite length_rev, le_encode_length in E. done. }
  rewrite canonical_value by done. split.
  - intros [Hu Hlo]. exists (le_decode (rev (b :: l))). pose proof (be_range _ Hl) as Hr. split; [lia|].
    unfold der_int. rewrite (byte_count (size l)); [|unfold size; lia|lia|done|intros ?; apply Hlo; by intros ->].
    replace (S (Z.to_nat (size l))) with (length (rev (b :: l))) by (rewrite length_rev; unfold size; cbn; lia).
    rewrite le_encode_decode by (by apply Forall_rev). by rewrite rev_involutive.
  - intros (n & Hn & E). destruct (byte_count_bounds n Hn) as (Hk & Hu & Hlo). rewrite E. unfold der_int. rewrite rev_involutive.
    assert (size l = (Z.log2 n + 1) / 8) as ->.
    { apply (f_equal length) in E. unfold der_int in E. rewrite length_rev, le_encode_length in E. cbn in E. unfold size. lia. }
    rewrite le_decode_encode; [split; [done|]|].
    + intros Hne. apply Hlo. apply (f_equal length) in E. unfold der_int in E. rewrite length_rev, le_encode_length in E.
      destruct l; [done|]. cbn in E. lia.
    + split; [done|]. eapply Z.lt_le_trans; [exact Hu|]. apply Z.pow_le_mono_r; lia.
Qed.
(** A signature cut at the lengths it states. *)
Definition layout (a t u : Z) (R : list Z) (v n : Z) (S : list Z) (h : Z) : valtype :=
  a :: t :: u :: size R :: R ++ v :: n :: S ++ [h].

Lemma byte_at_skip l1 l2 i : byte_at (l1 ++ l2) (length l1 + i) = byte_at l2 i.
Proof. unfold byte_at. by rewrite lookup_app_r, Nat.add_comm, Nat.add_sub by lia. Qed.

Lemma byte_at_keep l1 l2 i : (i < length l1)%nat → byte_at (l1 ++ l2) i = byte_at l1 i.
Proof. intros. unfold byte_at. by rewrite lookup_app_l. Qed.

Lemma layout_bytes a t u R v n S h :
  let sig := layout a t u R v n S h in
  size sig = size R + size S + 7 ∧
  (∀ i, 0 <= i < size R → byte_at sig (Z.to_nat (4 + i)) = byte_at R (Z.to_nat i)) ∧
  byte_at sig (Z.to_nat (size R + 4)) = v ∧ byte_at sig (Z.to_nat (5 + size R)) = n ∧
  (∀ i, 0 <= i < size S → byte_at sig (Z.to_nat (size R + 6 + i)) = byte_at S (Z.to_nat i)).
Proof.
  cbn zeta. unfold layout, size.
  assert (∀ i, byte_at (a :: t :: u :: Z.of_nat (length R) :: R ++ v :: n :: S ++ [h]) (Z.to_nat (Z.of_nat (length R) + 4 + Z.of_nat i))
    = byte_at (v :: n :: S ++ [h]) i) as Hskip.
  { intros i. replace (Z.to_nat _) with (length (a :: t :: u :: Z.of_nat (length R) :: R) + i)%nat by (cbn [length]; lia).
    apply (byte_at_skip (a :: t :: u :: Z.of_nat (length R) :: R)). }
  split_and!.
  - cbn [length]. rewrite length_app. cbn [length]. rewrite length_app. cbn [length]. lia.
  - intros i Hi. replace (Z.to_nat (4 + i)) with (4 + Z.to_nat i)%nat by lia. cbn [Nat.add]. apply byte_at_keep. lia.
  - etrans; [|exact (Hskip 0%nat)]. f_equal. lia.
  - etrans; [|exact (Hskip 1%nat)]. f_equal. lia.
  - intros i Hi. etrans; [|apply (byte_at_keep S [h]); lia]. etrans; [|exact (Hskip (2 + Z.to_nat i)%nat)]. f_equal. lia.
Qed.

Lemma guard_iff (c b : bool) : (if c then false else b) = true ↔ c = false ∧ b = true.
Proof. destruct c, b; intuition done. Qed.

Lemma layout_valid a t u R v n S h :
  IsValidSignatureEncoding (layout a t u R v n S h) = true ↔
  (a = 0x30 ∧ u = 0x02 ∧ v = 0x02 ∧ n = size S ∧ t = size R + size S + 4) ∧
  canonical R = true ∧ canonical S = true ∧ size R + size S + 7 <= 73.
Proof.
  destruct (layout_bytes a t u R v n S h) as (Ez & HR & Ev & En & HS). set (sig := layout a t u R v n S h) in *.
  unfold IsValidSignatureEncoding. change (byte_at sig (Z.to_nat 0)) with a. change (byte_at sig (Z.to_nat 1)) with t.
  change (byte_at sig (Z.to_nat 2)) with u. change (byte_at sig (Z.to_nat 3)) with (size R). rewrite Ez, Ev, En.
  assert (0 <= size R ∧ 0 <= size S) as [H0 H1] by (unfold size; lia). unfold canonical.
  rewrite !guard_iff, !negb_false_iff, !Z.eqb_eq, !Z.eqb_neq.
  destruct (decide (n = size S)) as [->|Hn]; [|split; [lia|intros ((_ & _ & _ & ? & _) & _); done]].
  destruct (decide (size R = 0)) as [E0|N0]; [rewrite E0; intuition done|].
  destruct (decide (size S = 0)) as [E1|N1]; [rewrite E1; intuition done|].
  rewrite (HR 0 ltac:(lia) : byte_at sig (Z.to_nat 4) = _). replace (size R + 6) with (size R + 6 + 0) by lia. rewrite (HS 0) by lia.
  change (Z.to_nat 0) with 0%nat.
  assert ((size R >? 1) && (byte_at R 0 =? 0) && (Z.land (byte_at sig (Z.to_nat 5)) 0x80 =? 0) =
          (size R >? 1) && (byte_at R 0 =? 0) && (Z.land (byte_at R 1) 0x80 =? 0)) as ->.
  { destruct (size R >? 1) eqn:E; [|done]. to_prop. by rewrite (HR 1 ltac:(lia) : byte_at sig (Z.to_nat 5) = _). }
  assert ((size S >? 1) && (byte_at S 0 =? 0) && (Z.land (byte_at sig (Z.to_nat (size R + 7))) 0x80 =? 0) =
          (size S >? 1) && (byte_at S 0 =? 0) && (Z.land (byte_at S 1) 0x80 =? 0)) as ->.
  { destruct (size S >? 1) eqn:E; [|done]. to_prop. replace (size R + 7) with (size R + 6 + 1) by lia. by rewrite (HS 1) by lia. }
  replace (size R =? 0) with false by lia. replace (size S =? 0) with false by lia. cbn [negb andb].
  rewrite !andb_true_iff, !negb_true_iff, !Z.eqb_eq. split; [|intros ((-> & -> & -> & _ & ->) & [-> ->] & [-> ->] & ?); split_and!; done || lia].
  intros (? & ? & ? & ? & ? & _ & ? & _ & ? & ? & ? & _ & ? & ? & _). split_and!; done || lia.
Qed.

Lemma byte_at_range l i : bytes_ok l → in_u 8 (byte_at l i).
Proof.
  intros Hb. unfold byte_at. destruct (l !! i) as [b|] eqn:E; [exact (Forall_lookup_1 _ _ _ _ Hb E)|]. cbn. unfold in_u. lia.
Qed.

Lemma valid_layout sig :
  bytes_ok sig → IsValidSignatureEncoding sig = true → ∃ a t u R v n S h, sig = layout a t u R v n S h.
Proof.
  intros Hb Hv. destruct sig as [|a [|t [|u [|lenR rest]]]]; [done..|].
  unfold IsValidSignatureEncoding in Hv. rewrite !guard_iff, !negb_false_iff, !Z.eqb_eq in Hv.
  destruct Hv as (_ & _ & _ & _ & Hr & Hs & _ & _ & _ & _ & _ & HS & _).
  set (lenS := byte_at _ (Z.to_nat (5 + _))) in *. change (byte_at _ (Z.to_nat 3)) with lenR in *.
  assert (0 <= lenR) as HlR by (apply Forall_lookup_1 with (i := 3%nat) (x := lenR) in Hb; [|done]; apply Hb).
  assert (size rest = lenR + lenS + 3) as Esz by (unfold size in *; cbn [length] in Hs; lia).
  assert (0 <= lenS) as HlS by (apply (byte_at_range _ _ Hb)).
  rewrite <- (take_drop (Z.to_nat lenR) rest). set (R := take _ rest).
  assert (size R = lenR) as ER by (unfold R, size in *; rewrite length_take; lia).
  assert (length (drop (Z.to_nat lenR) rest) = Z.to_nat (lenS + 3)) as El by (rewrite length_drop; unfold size in *; lia).
  destruct (drop _ rest) as [|v [|n S]]; [cbn in El; lia..|].
  destruct (exists_last_or_nil S) as [->|(S' & h & ->)]; [cbn in El; lia|]. exists a, t, u, R, v, n, S', h.
  unfold layout. by rewrite ER.
Qed.

Lemma der_int_bytes n : bytes_ok (der_int n).
Proof. unfold der_int. apply Forall_rev. apply le_encode_bytes. Qed.

Lemma der_int_value n : 0 <= n → le_decode (rev (der_int n)) = n.
Proof.
  intros Hn. unfold der_int. rewrite rev_involutive. apply le_decode_encode. destruct (byte_count_bounds n Hn) as (Hk & Hu & _).
  split; [done|]. eapply Z.lt_le_trans; [exact Hu|]. apply Z.pow_le_mono_r; lia.
Qed.

(** A list behind its length is found again. *)
Lemma prefixed_inj (l1 l2 k1 k2 : list Z) : size l1 :: l1 ++ k1 = size l2 :: l2 ++ k2 → l1 = l2 ∧ k1 = k2.
Proof. intros [= El E]. apply app_inj_1 in E; [done|]. unfold size in El. lia. Qed.

Lemma der_signature_inj r s h r' s' h' :
  0 <= r → 0 <= s → 0 <= r' → 0 <= s' → der_signature r s h = der_signature r' s' h' → r = r' ∧ s = s' ∧ h = h'.
Proof.
  intros Hr Hs Hr' Hs' E. unfold der_signature in E. apply (f_equal (drop 3)) in E. cbn [drop] in E.
  apply prefixed_inj in E as [ER E]. apply (f_equal (drop 1)) in E. cbn [drop] in E.
  apply prefixed_inj in E as [ES [= ->]].
  split_and!; [rewrite <- (der_int_value r), <- (der_int_value r'), ER by done; done| |done].
  rewrite <- (der_int_value s), <- (der_int_value s'), ES by done; done.
Qed.

Lemma valid_iff sig :
  bytes_ok sig →
  IsValidSignatureEncoding sig = true ↔
  size sig <= 73 ∧ ∃ r s h, 0 <= r ∧ 0 <= s ∧ sig = der_signature r s h.
Proof.
  intros Hb. split.
  - intros Hv. destruct (valid_layout sig Hb Hv) as (a & t & u & R & v & n & S & h & ->).
    pose proof (layout_bytes a t u R v n S h) as (Ez & _).
    apply layout_valid in Hv as ((-> & -> & -> & -> & ->) & HR & HS & Hsz). split; [lia|].
    do 4 (apply list.Forall_cons in Hb as [_ Hb]). apply Forall_app in Hb as [HbR Hb].
    do 2 (apply list.Forall_cons in Hb as [_ Hb]). apply Forall_app in Hb as [HbS _].
    apply canonical_iff in HR as (r & Hr & ->); [|done]. apply canonical_iff in HS as (s & Hs & ->); [|done].
    by exists r, s, h.
  - intros [Hsz (r & s & h & Hr & Hs & ->)]. pose proof (layout_bytes 0x30 (size (der_int r) + size (der_int s) + 4) 0x02 (der_int r) 0x02 (size (der_int s)) (der_int s) h) as (Ez & _).
    apply layout_valid. split_and!; [done..| | |].
    + apply canonical_iff; [apply der_int_bytes|by exists r].
    + apply canonical_iff; [apply der_int_bytes|by exists s].
    + rewrite <- Ez. exact Hsz.
Qed.
End DerFacts.

(** * Properties *)
Module SignatureProps.
Import MultisigFacts DerFacts.

(** C29: [OP_CHECKMULTISIG] decides m-of-n outside Tapscript: on a stack with n
    keys, n at most 20 and within the limit of 201 counted operations, m <= n
    signatures and the dummy, when every signature and key passes the encoding checks and
    the checker answers, the opcode consumes its arguments and pushes true
    exactly when the signatures are good for m of the keys, in the order of the
    keys, each key used once.  Before that the empty-signature rule of BIP146 and
    the dummy rule of BIP147 apply when their flags are on. *)
Theorem checkmultisig_is_m_of_n (hashes : script_hashes) (flags : Z) (checker : BaseSignatureChecker)
    (sigversion : SigVersion) (st : eval_state) (keys sigs : list valtype) (dummy : valtype) (rest : list valtype)
    (code : CScript) :
  sigversion ≠ TAPSCRIPT → size keys <= MAX_PUBKEYS_PER_MULTISIG → size sigs <= size keys →
  nOpCount st + size keys <= MAX_OPS_PER_SCRIPT →
  stack st = getvch (size keys) :: keys ++ getvch (size sigs) :: sigs ++ dummy :: rest →
  drop_signatures flags sigversion (pbegincodehash st) sigs = Ok code →
  (∀ sig key, sig ∈ sigs → key ∈ keys → checked hashes flags checker sigversion code sig key) →
  ∃ ok, (ok = true ↔ m_of_n (good checker sigversion code) sigs keys) ∧
    op_checkmultisig hashes flags checker sigversion OP_CHECKMULTISIG st =
    if negb ok && flag flags SCRIPT_VERIFY_NULLFAIL && existsb nonempty sigs then set_error SCRIPT_ERR_SIG_NULLFAIL
    else if flag flags SCRIPT_VERIFY_NULLDUMMY && nonempty dummy then set_error SCRIPT_ERR_SIG_NULLDUMMY
    else Ok (set_stack (set_nOpCount st (nOpCount st + size keys)) (vch_bool ok :: rest)).
Proof.
  intros Hv Hk Hs Ho Est Hd Hc.
  destruct (multisig_loop_spec hashes flags checker sigversion code keys sigs) as (ok & El & Hok);
    [unfold size in Hs; lia|done|].
  exists ok. split; [done|]. erewrite checkmultisig_spec by done. rewrite El. cbn [rbind].
  destruct (negb ok && _ && _); [done|]. by destruct (flag _ _ && _).
Qed.

(** A checker that takes a signature for the key it is equal to. *)
Definition demo_hashes : script_hashes := mkHashes (fun _ => []) (fun _ => []) (fun _ => []) (fun _ => true).
Definition demo_checker : BaseSignatureChecker :=
  mkChecker (fun sig key _ _ => Ok (bool_decide (sig = key))) (fun _ _ _ d => Ok d) (fun _ _ _ _ _ => Ok false)
    (fun _ => true) (fun _ => true).
Definition demo_state : eval_state :=
  mkState [[3]; [11]; [12]; [13]; [2]; [11]; [13]; []; [99]] [] cond_new [] 0 0 execdata_empty.

Lemma checkmultisig_is_m_of_n_witness :
  ∃ ok, (ok = true ↔ m_of_n (good demo_checker WITNESS_V0 []) [[11]; [13]] [[11]; [12]; [13]]) ∧
    op_checkmultisig demo_hashes 0 demo_checker WITNESS_V0 OP_CHECKMULTISIG demo_state =
    if negb ok && flag 0 SCRIPT_VERIFY_NULLFAIL && existsb nonempty [[11]; [13]] then set_error SCRIPT_ERR_SIG_NULLFAIL
    else if flag 0 SCRIPT_VERIFY_NULLDUMMY && nonempty [] then set_error SCRIPT_ERR_SIG_NULLDUMMY
    else Ok (set_stack (set_nOpCount demo_state (0 + 3)) [vch_bool ok; [99]]).
Proof.
  apply (checkmultisig_is_m_of_n demo_hashes 0 demo_checker WITNESS_V0 demo_state [[11]; [12]; [13]] [[11]; [13]] [] [[99]] []);
    [discriminate|discriminate|discriminate|discriminate|reflexivity|reflexivity|].
  intros sig key Hs _. unfold checked. repeat (apply elem_of_cons in Hs as [->|Hs]; [split_and!; [reflexivity|reflexivity|by eexists]|]).
  by apply not_elem_of_nil in Hs.
Defined.

(** C30: The signature encoding that BIP66 made consensus: for a string of bytes,
    [IsValidSignatureEncoding] accepts exactly the DER encodings of a pair of
    non-negative integers followed by one hash type byte, up to 73 bytes; and the
    encoding is injective, so every accepted string stands for one signature and
    no other string does. *)
Theorem der_signature_canonical :
  (∀ sig, bytes_ok sig →
    IsValidSignatureEncoding sig = true ↔
    size sig <= 73 ∧ ∃ r s nHashType, 0 <= r ∧ 0 <= s ∧ sig = der_signature r s nHashType) ∧
  (∀ r s h r' s' h', 0 <= r → 0 <= s → 0 <= r' → 0 <= s' →
    der_signature r s h = der_signature r' s' h' → r = r' ∧ s = s' ∧ h = h').
Proof. split; [exact valid_iff|exact der_signature_inj]. Qed.

End SignatureProps.
