(* ===== verification/SigHashFacts.v ===== *)
(** Signature hashes: the precomputed hashes of [PrecomputedTransactionData] change
    nothing, in [SignatureHash] and in [SignatureHashSchnorr], and a signature with
    [SIGHASH_ALL] over a version 0 program commits to the transaction (BIP143). *)
From Stdlib Require Import ZArith Lia.
From stdpp Require Import gmap.
From S2P Require Import Prelude Serialize Script Transaction Interpreter SigHash.
Import Serialize SerializeFacts Script Transaction TransactionFacts ScriptFlags Interpreter SigHash.
Local Open Scope bb_scope.

Module SigHashFacts.

(** ** The cache *)

Definition taproot_spend (i : CTxIn) (o : CTxOut) : Prop :=
  witness_IsNull (scriptWitness i) = false ∧ size (scriptPubKey o) = 34 ∧ byte_at (scriptPubKey o) 0 = OP_1.

Lemma uses_scan_mono l spent b143 b341 :
  b341 = true → (uses_scan l spent true b143 b341).2 = true.
Proof.
  revert spent b143 b341. induction l as [|i l IH]; intros spent b143 b341 ->; cbn [uses_scan]; [done|].
  destruct b143; [done|]. cbn [andb].
  destruct (negb _); [match goal with |- context [if ?c then (_, true) else _] => destruct c end|]; by apply IH.
Qed.

Lemma uses_scan_taproot l spent b143 b341 n i o :
  l !! n = Some i → spent !! n = Some o → taproot_spend i o → (uses_scan l spent true b143 b341).2 = true.
Proof.
  intros Hi Ho (Hw & Hs & Hop). revert l spent b143 b341 Hi Ho.
  induction n as [|n IH]; intros [|i' l] [|o' spent] b143 b341 Hi Ho; try done; cbn [uses_scan drop].
  - injection Hi as ->. injection Ho as ->. destruct (b143 && b341) eqn:E; [by apply andb_true_iff in E as [_ ->]|].
    rewrite Hw, Hs, Hop. cbn [negb andb]. change (34 =? 2 + 32) with true. rewrite Z.eqb_refl. by apply uses_scan_mono.
  - destruct (b143 && b341) eqn:E; [by apply andb_true_iff in E as [_ ->]|].
    destruct (negb _); [match goal with |- context [if ?c then (_, true) else _] => destruct c end|]; by eapply IH.
Qed.

Section Cache.
Context (hashes : script_hashes).

(** Data computed from the transaction it is used with, or none. *)
Definition cache_of (tx : CTransaction) (cache : option PrecomputedTransactionData) : Prop :=
  match cache with
  | None => True
  | Some c => ∃ spent force, Init hashes tx spent force = Ok c
  end.

Lemma Init_hashes tx spent force c :
  Init hashes tx spent force = Ok c → m_bip143_segwit_ready c = true →
  hashPrevouts c = SHA256Uint256 hashes (GetPrevoutsSHA256 hashes tx) ∧
  hashSequence c = SHA256Uint256 hashes (GetSequencesSHA256 hashes tx) ∧
  hashOutputs c = SHA256Uint256 hashes (GetOutputsSHA256 hashes tx).
Proof.
  unfold Init. intros E Hr. apply rbind_ok in E as ([] & _ & E).
  destruct (uses_scan _ _ _ _ _) as [b143 b341]. injection E as <-. cbn in Hr |- *. by rewrite Hr.
Qed.

Lemma witness_preimage_cache code tx nIn hashtype amount cache :
  cache_of tx cache →
  witness_preimage hashes code tx nIn hashtype amount cache = witness_preimage hashes code tx nIn hashtype amount None.
Proof.
  destruct cache as [c|]; [|done]. intros (spent & force & E). unfold witness_preimage.
  destruct (m_bip143_segwit_ready c) eqn:Er; [|done].
  by destruct (Init_hashes _ _ _ _ E Er) as (-> & -> & ->).
Qed.

Lemma SignatureHash_cache code tx nIn hashtype amount sigversion cache :
  cache_of tx cache →
  SignatureHash hashes code tx nIn hashtype amount sigversion cache =
  SignatureHash hashes code tx nIn hashtype amount sigversion None.
Proof. intros Hc. unfold SignatureHash. by rewrite witness_preimage_cache. Qed.

(** Everything BIP143 and BIP341 ask for, computed from the transaction and
    the outputs it spends. *)
Definition full_data (tx : CTransaction) (spent : list CTxOut) : PrecomputedTransactionData :=
  let prevouts := SHA256 hashes (concat (map (fun i => ser_outpoint (prevout i)) (vin tx))) in
  let sequences := SHA256 hashes (concat (map (fun i => ser_writedata32 (nSequence i)) (vin tx))) in
  let outputs := SHA256 hashes (concat (map ser_txout (vout tx))) in
  {| m_prevouts_single_hash := prevouts;
     m_sequences_single_hash := sequences;
     m_outputs_single_hash := outputs;
     m_spent_amounts_single_hash := SHA256 hashes (concat (map (fun o => ser_signed 8 (nValue o)) spent));
     m_spent_scripts_single_hash := SHA256 hashes (concat (map (fun o => ser_bytes (scriptPubKey o)) spent));
     m_bip341_taproot_ready := true;
     hashPrevouts := SHA256 hashes prevouts;
     hashSequence := SHA256 hashes sequences;
     hashOutputs := SHA256 hashes outputs;
     m_bip143_segwit_ready := true;
     m_spent_outputs := spent;
     m_spent_outputs_ready := true |}.

(** Input [nIn] has a witness and spends a version 1 program of 32 bytes. *)
Definition spends_taproot (tx : CTransaction) (spent : list CTxOut) (nIn : nat) : Prop :=
  ∃ i o, vin tx !! nIn = Some i ∧ spent !! nIn = Some o ∧ taproot_spend i o.

(** The data [Init] makes has what BIP341 needs for such an input. *)
Lemma Init_taproot tx spent force c nIn : Init hashes tx spent force = Ok c → spends_taproot tx spent nIn →
  ∀ execdata hash_type sigversion,
  SignatureHashSchnorr hashes execdata tx nIn hash_type sigversion c =
  SignatureHashSchnorr hashes execdata tx nIn hash_type sigversion (full_data tx spent).
Proof.
  intros E (i & o & Hi & Ho & Ht). unfold Init in E. apply rbind_ok in E as ([] & _ & E).
  assert (negb (length spent =? 0)%nat = true) as Hr by (by destruct spent). rewrite Hr in E.
  pose proof (uses_scan_taproot _ _ force force _ _ _ Hi Ho Ht) as Hscan.
  destruct (uses_scan _ _ _ _ _) as [b143 b341]. cbn [snd] in Hscan. subst b341.
  rewrite orb_true_r in E. by injection E as <-.
Qed.
End Cache.

(** ** What a signature commits to *)

Lemma codec_app_inj {A} {ser : A → list Z} {unser ok} (C : codec ser unser ok) a b s t :
  ok a → ok b → ser a ++ s = ser b ++ t → a = b ∧ s = t.
Proof. intros Ha Hb E. apply (f_equal unser) in E. rewrite !(codec_read C) in E by done. by injection E. Qed.

Lemma codec_concat_inj {A} {ser : A → list Z} {unser ok} (C : codec ser unser ok) l k :
  (∀ a, ser a ≠ []) → Forall ok l → Forall ok k → concat (map ser l) = concat (map ser k) → l = k.
Proof.
  intros Hne. revert k. induction l as [|a l IH]; intros [|b k] Hl Hk E; cbn in E; try done.
  - symmetry in E. apply app_eq_nil in E as [E _]. by apply Hne in E.
  - apply app_eq_nil in E as [E _]. by apply Hne in E.
  - apply list.Forall_cons in Hl as [Ha Hl], Hk as [Hb Hk].
    apply (codec_app_inj C) in E as [-> E]; [|done|done]. f_equal. by apply IH.
Qed.

(** Splits equal first fields off two serializations. *)
Ltac peel C E H := apply (codec_app_inj C) in E as [H E]; [|done|done].

Section Commit.
Context (hashes : script_hashes).

(** The byte strings hashed for a signature: the lists of the transaction and
    the preimage, and their hashes. *)
Definition hashed_messages (code : CScript) (tx : CTransaction) (nIn : nat) (amount : Z) : list (list Z) :=
  let prevouts := concat (map (fun i => ser_outpoint (prevout i)) (vin tx)) in
  let sequences := concat (map (fun i => ser_writedata32 (nSequence i)) (vin tx)) in
  let outputs := concat (map ser_txout (vout tx)) in
  let preimage := witness_preimage hashes code tx nIn SIGHASH_ALL amount None in
  [prevouts; SHA256 hashes prevouts; sequences; SHA256 hashes sequences; outputs; SHA256 hashes outputs;
   preimage; SHA256 hashes preimage].

(** No two of the byte strings collide. *)
Definition coll_free (l : list (list Z)) : Prop :=
  ∀ x y, x ∈ l → y ∈ l → SHA256 hashes x = SHA256 hashes y → x = y.

Hypothesis Hsha : ∀ v, hash_ok (SHA256 hashes v).

(** A string behind two hashes. *)
Lemma hashed_twice l x y :
  coll_free l → x ∈ l → y ∈ l → SHA256 hashes x ∈ l → SHA256 hashes y ∈ l →
  SHA256 hashes (SHA256 hashes x) = SHA256 hashes (SHA256 hashes y) → x = y.
Proof. intros Hf Hx Hy Hx' Hy' E. by apply Hf, Hf. Qed.

(** What the two transactions have in common. *)
Record committed (code1 code2 : CScript) (tx1 tx2 : CTransaction) (nIn1 nIn2 : nat) (amount1 amount2 : Z) : Prop := {
  same_version : nVersion tx1 = nVersion tx2;
  same_prevouts : map prevout (vin tx1) = map prevout (vin tx2);
  same_sequences : map nSequence (vin tx1) = map nSequence (vin tx2);
  same_outputs : vout tx1 = vout tx2;
  same_locktime : nLockTime tx1 = nLockTime tx2;
  same_input : prevout <$> vin tx1 !! nIn1 = prevout <$> vin tx2 !! nIn2;
  same_input_sequence : nSequence <$> vin tx1 !! nIn1 = nSequence <$> vin tx2 !! nIn2;
  same_code : code1 = code2;
  same_amount : amount1 = amount2;
}.

Lemma input_ranges tx n i :
  Forall txin_full_ok (vin tx) → vin tx !! n = Some i → outpoint_ok (prevout i) ∧ in_u 32 (nSequence i).
Proof. intros H Ei. destruct (Forall_lookup_1 _ _ _ _ H Ei) as [(? & _ & ? & _) _]. done. Qed.

Lemma input_fields (v : list CTxIn) :
  Forall txin_full_ok v → Forall outpoint_ok (map prevout v) ∧ Forall (in_u 32) (map nSequence v).
Proof.
  intros H. split; apply Forall_map; (eapply Forall_impl; [|exact H]); by intros i [(? & _ & ? & _) _].
Qed.

Lemma ser_outpoint_nonempty o : ser_outpoint o ≠ [].
Proof. unfold ser_outpoint. intros [_ E]%app_eq_nil. done. Qed.

Lemma SIGHASH_ALL_preimage code tx nIn amount i :
  vin tx !! nIn = Some i →
  witness_preimage hashes code tx nIn SIGHASH_ALL amount None =
  ser_signed 4 (nVersion tx) ++ ser_uint256 (SHA256 hashes (SHA256 hashes (concat (map (fun i => ser_outpoint (prevout i)) (vin tx))))) ++
  ser_uint256 (SHA256 hashes (SHA256 hashes (concat (map (fun i => ser_writedata32 (nSequence i)) (vin tx))))) ++
  ser_outpoint (prevout i) ++ ser_bytes code ++ ser_signed 8 amount ++ ser_writedata32 (nSequence i) ++
  ser_uint256 (SHA256 hashes (SHA256 hashes (concat (map ser_txout (vout tx))))) ++
  ser_writedata32 (nLockTime tx) ++ ser_signed 4 SIGHASH_ALL.
Proof. intros E. unfold witness_preimage. by rewrite E. Qed.

Section Two.
Context (code1 code2 : CScript) (tx1 tx2 : CTransaction) (nIn1 nIn2 : nat) (amount1 amount2 : Z).
Let l := hashed_messages code1 tx1 nIn1 amount1 ++ hashed_messages code2 tx2 nIn2 amount2.

Lemma hashed_in x : x ∈ hashed_messages code1 tx1 nIn1 amount1 ∨ x ∈ hashed_messages code2 tx2 nIn2 amount2 → x ∈ l.
Proof. apply elem_of_app. Qed.

(** Membership in the list of messages. *)
Ltac in_messages := apply hashed_in; unfold hashed_messages; rewrite !elem_of_cons; tauto.

Lemma preimage_all_inj :
  tx_ok tx1 → tx_ok tx2 → (nIn1 < length (vin tx1))%nat → (nIn2 < length (vin tx2))%nat →
  bytes_vec_ok code1 → bytes_vec_ok code2 → in_s 64 amount1 → in_s 64 amount2 → coll_free l →
  witness_preimage hashes code1 tx1 nIn1 SIGHASH_ALL amount1 None =
  witness_preimage hashes code2 tx2 nIn2 SIGHASH_ALL amount2 None →
  committed code1 code2 tx1 tx2 nIn1 nIn2 amount1 amount2.
Proof.
  intros (Hv1 & [Hi1 _] & [Ho1 _] & Hl1) (Hv2 & [Hi2 _] & [Ho2 _] & Hl2) Hn1 Hn2 Hc1 Hc2 Ha1 Ha2 Hf E.
  destruct (lookup_lt_is_Some_2 _ _ Hn1) as [i1 E1]. destruct (lookup_lt_is_Some_2 _ _ Hn2) as [i2 E2].
  rewrite (SIGHASH_ALL_preimage _ _ _ _ _ E1), (SIGHASH_ALL_preimage _ _ _ _ _ E2) in E.
  destruct (input_ranges tx1 nIn1 i1 Hi1 E1) as [Hp1 Hs1]. destruct (input_ranges tx2 nIn2 i2 Hi2 E2) as [Hp2 Hs2].
  peel codec_i32 E Ev. peel codec_hash E Eprev. peel codec_hash E Eseq. peel codec_outpoint E Eown. peel codec_byte_vec E Ecode.
  peel codec_i64 E Eam. peel codec_u32 E Es. peel codec_hash E Eouts. peel codec_u32 E Elock.
  apply (hashed_twice l) in Eprev; [|done|in_messages..]. apply (hashed_twice l) in Eseq; [|done|in_messages..].
  apply (hashed_twice l) in Eouts; [|done|in_messages..].
  rewrite <- !(map_map prevout ser_outpoint) in Eprev. rewrite <- !(map_map nSequence ser_writedata32) in Eseq.
  destruct (input_fields _ Hi1) as [Hp1s Hs1s]. destruct (input_fields _ Hi2) as [Hp2s Hs2s].
  apply (codec_concat_inj codec_outpoint) in Eprev; [|apply ser_outpoint_nonempty|done|done].
  apply (codec_concat_inj codec_u32) in Eseq; [|done|done|done]. apply (codec_concat_inj codec_txout) in Eouts; [|done|done|done].
  split; try done; rewrite E1, E2; cbn; congruence.
Qed.

(** What is committed to is all the hash depends on. *)
Lemma preimage_all_same : (nIn1 < length (vin tx1))%nat → (nIn2 < length (vin tx2))%nat →
  committed code1 code2 tx1 tx2 nIn1 nIn2 amount1 amount2 →
  witness_preimage hashes code1 tx1 nIn1 SIGHASH_ALL amount1 None =
  witness_preimage hashes code2 tx2 nIn2 SIGHASH_ALL amount2 None.
Proof.
  intros Hn1 Hn2 [Hv Hp Hs Ho Hl Hi His -> ->].
  destruct (lookup_lt_is_Some_2 _ _ Hn1) as [i1 E1]. destruct (lookup_lt_is_Some_2 _ _ Hn2) as [i2 E2].
  rewrite (SIGHASH_ALL_preimage _ _ _ _ _ E1), (SIGHASH_ALL_preimage _ _ _ _ _ E2).
  rewrite E1, E2 in Hi, His. injection Hi as ->. injection His as ->.
  rewrite <- !(map_map prevout ser_outpoint), <- !(map_map nSequence ser_writedata32). by rewrite Hv, Hp, Hs, Ho, Hl.
Qed.

Lemma sighash_all_iff cache1 cache2 :
  cache_of hashes tx1 cache1 → cache_of hashes tx2 cache2 →
  tx_ok tx1 → tx_ok tx2 → (nIn1 < length (vin tx1))%nat → (nIn2 < length (vin tx2))%nat →
  bytes_vec_ok code1 → bytes_vec_ok code2 → in_s 64 amount1 → in_s 64 amount2 → coll_free l →
  SignatureHash hashes code1 tx1 nIn1 SIGHASH_ALL amount1 WITNESS_V0 cache1 =
  SignatureHash hashes code2 tx2 nIn2 SIGHASH_ALL amount2 WITNESS_V0 cache2 ↔
  committed code1 code2 tx1 tx2 nIn1 nIn2 amount1 amount2.
Proof.
  intros Hk1 Hk2 Ht1 Ht2 Hn1 Hn2 Hc1 Hc2 Ha1 Ha2 Hf. rewrite (SignatureHash_cache _ code1), (SignatureHash_cache _ code2) by done.
  unfold SignatureHash. rewrite (proj2 (Nat.ltb_lt _ _) Hn1), (proj2 (Nat.ltb_lt _ _) Hn2). cbn [assert require rbind]. split.
  - intros [= E]. unfold CHash256 in E. apply (hashed_twice l) in E; [|done|in_messages..].
    by apply preimage_all_inj.
  - intros H. by rewrite preimage_all_same.
Qed.
End Two.
End Commit.
End SigHashFacts.

(** ** Properties *)

Module SigHashProps.
Import SigHashFacts.

(** C40: The hashes a block's transactions precompute are transparent: with the
    data [Init] makes for the transaction and the outputs it spends, whatever it
    found worth computing, [SignatureHash] of every input and hash type, for
    legacy and version 0 scripts, is the one computed from the transaction
    alone; and for every input with a witness that spends a version 1 program,
    [SignatureHashSchnorr], for Taproot and Tapscript, is the one with every
    hash of BIP341 computed from the transaction and the spent outputs. *)
Theorem sighash_cache_transparent (hashes : script_hashes) (tx : CTransaction) (spent : list CTxOut) (force : bool)
    (c : PrecomputedTransactionData) :
  Init hashes tx spent force = Ok c →
  (∀ code nIn nHashType amount sigversion,
     SignatureHash hashes code tx nIn nHashType amount sigversion (Some c) =
     SignatureHash hashes code tx nIn nHashType amount sigversion None) ∧
  (∀ nIn, spends_taproot tx spent nIn → ∀ execdata hash_type sigversion,
     SignatureHashSchnorr hashes execdata tx nIn hash_type sigversion c =
     SignatureHashSchnorr hashes execdata tx nIn hash_type sigversion (full_data hashes tx spent)).
Proof.
  intros E. split; [|intros nIn; by eapply Init_taproot]. intros. apply SignatureHash_cache. by exists spent, force.
Qed.

(** C28: A [SIGHASH_ALL] signature over a version 0 witness program commits to the
    transaction (BIP143): as long as SHA-256 does not collide on the byte strings
    hashed for the two signatures, two inputs have one signature hash exactly
    when they have the same version, outpoints, sequence numbers, outputs, lock
    time, spent outpoint, own sequence number, script code and amount; input
    scripts and witnesses are not covered. *)
Theorem sighash_all_commits (hashes : script_hashes) (code1 code2 : CScript) (tx1 tx2 : CTransaction) (nIn1 nIn2 : nat)
    (amount1 amount2 : Z) (cache1 cache2 : option PrecomputedTransactionData) :
  (∀ v, hash_ok (SHA256 hashes v)) → cache_of hashes tx1 cache1 → cache_of hashes tx2 cache2 →
  tx_ok tx1 → tx_ok tx2 → (nIn1 < length (vin tx1))%nat → (nIn2 < length (vin tx2))%nat →
  bytes_vec_ok code1 → bytes_vec_ok code2 → in_s 64 amount1 → in_s 64 amount2 →
  coll_free hashes (hashed_messages hashes code1 tx1 nIn1 amount1 ++ hashed_messages hashes code2 tx2 nIn2 amount2) →
  SignatureHash hashes code1 tx1 nIn1 SIGHASH_ALL amount1 WITNESS_V0 cache1 =
  SignatureHash hashes code2 tx2 nIn2 SIGHASH_ALL amount2 WITNESS_V0 cache2 ↔
  committed code1 code2 tx1 tx2 nIn1 nIn2 amount1 amount2.
Proof. intros. by apply sighash_all_iff. Qed.

(** The bytes as a number, modulo a prime. *)
Definition demo_sha (v : list Z) : list Z := digits_of 8 32 ((3 * digits_val 8 v + size v + 1) mod (2 ^ 256 - 189)).
Definition demo_hashes : script_hashes := mkHashes demo_sha demo_sha demo_sha (fun _ => true).
Definition demo_tx_of (sig : CScript) (sequence : Z) (witness : CScriptWitness) : CTransaction :=
  mkTx [mkTxIn (mkOutPoint (replicate 32 7) 1) sig sequence witness] [mkTxOut 1000 [0x51]] 2 0.
(** Spends a version 0 output, then a version 1 output. *)
Definition demo_two : CTransaction :=
  mkTx [mkTxIn (mkOutPoint (replicate 32 7) 1) [] 5 [[1]]; mkTxIn (mkOutPoint (replicate 32 8) 0) [] 6 [[2]]]
    [mkTxOut 1000 [0x51]] 2 0.
Definition demo_spent : list CTxOut := [mkTxOut 2000 [0; 1; 1]; mkTxOut 3000 (OP_1 :: 32 :: replicate 32 4)].

Lemma sighash_cache_transparent_witness :
  ∃ c, Init demo_hashes demo_two demo_spent false = Ok c ∧ m_bip143_segwit_ready c = true ∧ m_bip341_taproot_ready c = true ∧
  SignatureHash demo_hashes [0x51] demo_two 0 SIGHASH_ALL 2000 WITNESS_V0 (Some c) =
  SignatureHash demo_hashes [0x51] demo_two 0 SIGHASH_ALL 2000 WITNESS_V0 None ∧
  SignatureHashSchnorr demo_hashes (mkExec None None (Some None) None None) demo_two 1 SIGHASH_DEFAULT TAPROOT c =
  SignatureHashSchnorr demo_hashes (mkExec None None (Some None) None None) demo_two 1 SIGHASH_DEFAULT TAPROOT
    (full_data demo_hashes demo_two demo_spent).
Proof.
  destruct (Init demo_hashes demo_two demo_spent false) as [c|] eqn:E; [|vm_compute in E; discriminate].
  destruct (sighash_cache_transparent demo_hashes demo_two demo_spent false c E) as [H1 H2].
  exists c. split; [reflexivity|]. split; [vm_compute in E; by injection E as <-|]. split; [vm_compute in E; by injection E as <-|].
  split; [apply H1|]. apply H2. by eexists _, _.
Defined.

Lemma demo_sha_ok v : hash_ok (demo_sha v).
Proof. split; [apply digits_of_range; lia|apply digits_of_length]. Qed.

Lemma demo_tx_ok sig sequence witness :
  forallb is_byte sig && forallb is_byte witness && (length sig <=? 100)%nat && (length witness <=? 100)%nat = true → in_u 32 sequence →
  tx_ok (demo_tx_of sig sequence [witness]).
Proof.
  assert (∀ l, forallb is_byte l = true → (length l <= 100)%nat → bytes_vec_ok l) as Hb.
  { intros l H Hl. rewrite forallb_forall in H. split; [|unfold MAX_SIZE; lia].
    apply List.Forall_forall. intros b Hin. specialize (H b Hin). unfold is_byte in H. unfold in_u. lia. }
  intros [[[H1 H2]%andb_true_iff H3%Nat.leb_le]%andb_true_iff H4%Nat.leb_le]%andb_true_iff Hseq.
  assert (∀ A (ok : A → Prop) a, ok a → vec_ok ok [a]) as Hv
    by (intros A ok a Ha; split; [by apply Forall_singleton|unfold MAX_SIZE; cbn; lia]).
  split_and!; [unfold in_s; cbn; lia| | |unfold in_u; cbn; lia]; apply Hv.
  - split; [|by apply Hv, Hb]. split_and!; [|by apply Hb|done|done].
    split; [split; [apply Forall_replicate; unfold in_u; lia|reflexivity]|unfold in_u; cbn; lia].
  - split; [unfold in_s; cbn; lia|apply Hb; [reflexivity|cbn; lia]].
Qed.

(** The strings hashed for two signatures do not collide. *)
Definition no_collision (l : list (list Z)) : bool :=
  forallb (fun x => forallb (fun y => negb (bool_decide (demo_sha x = demo_sha y)) || bool_decide (x = y)) l) l.

Lemma no_collision_ok l : no_collision l = true → coll_free demo_hashes l.
Proof.
  unfold no_collision. rewrite forallb_forall. intros H x y Hx%list_elem_of_In Hy%list_elem_of_In E. specialize (H x Hx).
  rewrite forallb_forall in H. specialize (H y Hy). rewrite (bool_decide_eq_true_2 _ E) in H. by apply bool_decide_eq_true in H.
Qed.

Lemma sighash_all_commits_witness :
  (SignatureHash demo_hashes [0x51] (demo_tx_of [] 5 [[1]]) 0 SIGHASH_ALL 2000 WITNESS_V0 None =
   SignatureHash demo_hashes [0x51] (demo_tx_of [2] 5 [[3]]) 0 SIGHASH_ALL 2000 WITNESS_V0 None) ∧
  (SignatureHash demo_hashes [0x51] (demo_tx_of [] 5 [[1]]) 0 SIGHASH_ALL 2000 WITNESS_V0 None ≠
   SignatureHash demo_hashes [0x51] (demo_tx_of [] 6 [[1]]) 0 SIGHASH_ALL 2000 WITNESS_V0 None).
Proof.
  assert (bytes_vec_ok [0x51]) as Hc by (split; [repeat constructor; unfold in_u; lia|vm_compute; discriminate]).
  assert (in_s 64 2000) as Ha by (unfold in_s; lia).
  split.
  - apply (sighash_all_commits demo_hashes [0x51] [0x51] (demo_tx_of [] 5 [[1]]) (demo_tx_of [2] 5 [[3]]) 0 0 2000 2000 None None
      demo_sha_ok I I); [apply demo_tx_ok; [reflexivity|unfold in_u; lia]..|cbn; lia|cbn; lia|done|done|done|done| |done].
    apply no_collision_ok. vm_compute. reflexivity.
  - rewrite (sighash_all_commits demo_hashes [0x51] [0x51] (demo_tx_of [] 5 [[1]]) (demo_tx_of [] 6 [[1]]) 0 0 2000 2000 None None
      demo_sha_ok I I); [by intros [_ _ H]|apply demo_tx_ok; [reflexivity|unfold in_u; lia]..|cbn; lia|cbn; lia|done|done|done|done|].
    apply no_collision_ok. vm_compute. reflexivity.
Defined.

End SigHashProps.
