(* ===== verification/SoftFork.v ===== *)
(** Every verification flag is a soft fork, as [src/script/interpreter.h]
    promises: a script input accepted under a set of flags is accepted under
    every subset of it that the interpreter admits. *)
From Stdlib Require Import ZArith Lia.
From stdpp Require Import gmap.
From S2P Require Import Prelude Serialize Script Transaction Interpreter SigHash VerifyScript.
Import Serialize Script Transaction ScriptFlags Interpreter SigHash VerifyScript.
Local Open Scope bb_scope.

Module SoftForkFacts.

(** [strict] succeeds only where [lax] does, with the same result. *)
Definition narrows {A} (strict lax : eval A) : Prop := ∀ v, strict = Ok v → lax = Ok v.

Lemma narrows_refl {A} (r : eval A) : narrows r r.
Proof. by intros v. Qed.

Lemma narrows_bind {A B} (s l : eval A) (ks kl : A → eval B) :
  narrows s l → (∀ a, narrows (ks a) (kl a)) → narrows (rbind s ks) (rbind l kl).
Proof. intros H Hk v. destruct s as [a|e]; [|done]. cbn. rewrite (H a eq_refl). apply Hk. Qed.

Lemma narrows_fail (cs cl : bool) es el :
  (cl = true → cs = true) → narrows (fail_if cs es) (fail_if cl el).
Proof. intros H v. unfold fail_if. destruct cs, cl; cbn; try done. by discriminate H. Qed.

Lemma narrows_err {A} e (l : eval A) : narrows (Err e) l.
Proof. done. Qed.

(** A check that the laxer side skips. *)
Lemma narrows_drop {A} (s : eval A) (a : A) : (∀ v, s = Ok v → v = a) → narrows s (Ok a).
Proof. intros H v E. by rewrite (H v E). Qed.

Create HintDb narrows.

(** Goes through binds and through tests both sides make. *)
Ltac narrow :=
  repeat first
    [ progress intros
    | lazymatch goal with
      | |- narrows ?r ?r => apply narrows_refl
      | |- narrows (Err _) _ => apply narrows_err
      | |- narrows (set_error _) _ => apply narrows_err
      | |- narrows bad_stack _ => apply narrows_err
      | |- narrows (if ?c then _ else _) (if ?c then _ else _) => destruct c
      | |- narrows (match ?x with _ => _ end) (match ?x with _ => _ end) => destruct x
      | |- narrows (rbind _ _) (rbind _ _) => apply narrows_bind
      | |- narrows (fail_if _ _) (fail_if _ _) => apply narrows_fail
      | |- _ => solve [eauto with narrows]
      end ].

Section Flags.
Context (hashes : script_hashes) (lib : sig_lib) (checker : BaseSignatureChecker).
Implicit Types (sigversion : SigVersion).
Context (strict lax : Z).
Hypothesis subset : Z.land lax strict = lax.

Lemma flag_subset f : flag lax f = true → flag strict f = true.
Proof.
  unfold flag. intros H. to_prop. apply negb_true_iff, Z.eqb_neq. intros E. apply H.
  by rewrite <- subset, <- Z.land_assoc, E, Z.land_0_r.
Qed.
Hint Resolve flag_subset : narrows.

Lemma flag_and f (b : bool) : flag lax f && b = true → flag strict f && b = true.
Proof. intros [H ->]%andb_true_iff. by rewrite flag_subset. Qed.
Hint Resolve flag_and : narrows.
Lemma and_flag f (b : bool) : b && flag lax f = true → b && flag strict f = true.
Proof. intros [-> H]%andb_true_iff. by rewrite flag_subset. Qed.
Hint Resolve and_flag : narrows.
Lemma and_flag_and f (a b : bool) : a && flag lax f && b = true → a && flag strict f && b = true.
Proof. intros [[-> H]%andb_true_iff ->]%andb_true_iff. by rewrite flag_subset. Qed.
Hint Resolve and_flag_and : narrows.
Lemma and_flag_and2 f (a b c : bool) : a && flag lax f && b && c = true → a && flag strict f && b && c = true.
Proof. intros [[[-> H]%andb_true_iff ->]%andb_true_iff ->]%andb_true_iff. by rewrite flag_subset. Qed.
Hint Resolve and_flag_and2 : narrows.
Lemma flag_and_and f (a b : bool) : flag lax f && a && b = true → flag strict f && a && b = true.
Proof. intros [[H ->]%andb_true_iff ->]%andb_true_iff. by rewrite flag_subset. Qed.
Hint Resolve flag_and_and : narrows.

Lemma CheckSignatureEncoding_narrows sig :
  narrows (CheckSignatureEncoding hashes strict sig) (CheckSignatureEncoding hashes lax sig).
Proof.
  unfold CheckSignatureEncoding. set (all := Z.lor _ _). destruct (size sig =? 0); [narrow|].
  destruct (flag strict all && negb (IsValidSignatureEncoding sig)) eqn:Es; [narrow|].
  destruct (flag lax all && negb (IsValidSignatureEncoding sig)) eqn:El.
  { apply flag_and in El. congruence. }
  narrow.
  destruct (flag lax SCRIPT_VERIFY_LOW_S) eqn:E; [rewrite (flag_subset _ E); narrow|].
  apply narrows_drop. by intros [].
Qed.
Hint Resolve CheckSignatureEncoding_narrows : narrows.

Lemma CheckPubKeyEncoding_narrows sigversion key :
  narrows (CheckPubKeyEncoding strict key sigversion) (CheckPubKeyEncoding lax key sigversion).
Proof. unfold CheckPubKeyEncoding. narrow. Qed.
Hint Resolve CheckPubKeyEncoding_narrows : narrows.

Lemma drop_signature_narrows sigversion code sig :
  narrows (drop_signature strict sigversion code sig) (drop_signature lax sigversion code sig).
Proof. unfold drop_signature. narrow. Qed.
Hint Resolve drop_signature_narrows : narrows.

Lemma drop_signatures_narrows sigversion sigs code :
  narrows (drop_signatures strict sigversion code sigs) (drop_signatures lax sigversion code sigs).
Proof. revert code. induction sigs as [|sig sigs IH]; intros code; cbn; narrow. Qed.
Hint Resolve drop_signatures_narrows : narrows.

Lemma EvalChecksig_narrows sigversion sig key code d :
  narrows (EvalChecksig hashes strict checker sigversion sig key code d)
    (EvalChecksig hashes lax checker sigversion sig key code d).
Proof.
  unfold EvalChecksig, EvalChecksigPreTapscript, EvalChecksigTapscript.
  destruct sigversion; narrow.
Qed.
Hint Resolve EvalChecksig_narrows : narrows.

Lemma num_of_narrows vch k : narrows (num_of strict vch k) (num_of lax vch k).
Proof.
  unfold num_of, fRequireMinimal, CScriptNum.CScriptNum.
  destruct (flag lax SCRIPT_VERIFY_MINIMALDATA) eqn:E; [rewrite (flag_subset _ E); narrow|].
  destruct (flag strict SCRIPT_VERIFY_MINIMALDATA); [|narrow]. intros v.
  destruct (size vch >? k); [done|]. cbn [andb]. destruct (_ && _); [done|]. done.
Qed.
Hint Resolve num_of_narrows : narrows.

Lemma num4_narrows vch : narrows (num4 strict vch) (num4 lax vch).
Proof. apply num_of_narrows. Qed.
Hint Resolve num4_narrows : narrows.

Lemma on_stack_narrows st rs rl : narrows rs rl → narrows (on_stack st rs) (on_stack st rl).
Proof. intros H. unfold on_stack. narrow. Qed.
Hint Resolve on_stack_narrows : narrows.

Lemma op_pick_narrows op s : narrows (op_pick strict op s) (op_pick lax op s).
Proof. unfold op_pick. narrow. Qed.
Lemma op_unary_narrows op s : narrows (op_unary strict op s) (op_unary lax op s).
Proof. unfold op_unary. narrow. Qed.
Lemma op_binary_narrows op s : narrows (op_binary strict op s) (op_binary lax op s).
Proof. unfold op_binary. narrow. Qed.
Lemma op_within_narrows s : narrows (op_within strict s) (op_within lax s).
Proof. unfold op_within. narrow. Qed.
Hint Resolve op_pick_narrows op_unary_narrows op_binary_narrows op_within_narrows : narrows.

Lemma op_if_narrows sigversion op fExec st : narrows (op_if strict sigversion op fExec st) (op_if lax sigversion op fExec st).
Proof. unfold op_if. narrow. Qed.
Lemma op_checksig_narrows sigversion op st :
  narrows (op_checksig hashes strict checker sigversion op st) (op_checksig hashes lax checker sigversion op st).
Proof. unfold op_checksig. narrow. Qed.
Lemma op_checksigadd_narrows sigversion st :
  narrows (op_checksigadd hashes strict checker sigversion st) (op_checksigadd hashes lax checker sigversion st).
Proof. unfold op_checksigadd. narrow. Qed.
Hint Resolve op_if_narrows op_checksig_narrows op_checksigadd_narrows : narrows.

Lemma multisig_loop_narrows sigversion code keys sigs :
  narrows (multisig_loop hashes strict checker sigversion code sigs keys)
    (multisig_loop hashes lax checker sigversion code sigs keys).
Proof. revert sigs. induction keys as [|key keys IH]; intros sigs; cbn [multisig_loop]; narrow. Qed.
Lemma multisig_cleanup_narrows n ok k s :
  narrows (multisig_cleanup strict n ok k s) (multisig_cleanup lax n ok k s).
Proof. revert k s. induction n as [|n IH]; intros k s; cbn [multisig_cleanup]; narrow. Qed.
Hint Resolve multisig_loop_narrows multisig_cleanup_narrows : narrows.

Lemma op_checkmultisig_narrows sigversion op st :
  narrows (op_checkmultisig hashes strict checker sigversion op st)
    (op_checkmultisig hashes lax checker sigversion op st).
Proof. unfold op_checkmultisig. narrow. Qed.
Hint Resolve op_checkmultisig_narrows : narrows.

(** Where the lock time opcodes are enabled they leave the stack alone. *)
Lemma op_checklocktime_same s v : op_checklocktime strict checker s = Ok v → v = s.
Proof.
  unfold op_checklocktime. destruct s as [|x s]; [done|].
  intros (n & _ & (? & _ & (? & _ & [=])%rbind_ok)%rbind_ok)%rbind_ok. done.
Qed.
Lemma op_checksequence_same s v : op_checksequence strict checker s = Ok v → v = s.
Proof.
  unfold op_checksequence. destruct s as [|x s]; [done|].
  intros (n & _ & (? & _ & H)%rbind_ok)%rbind_ok. destruct (flag n _); [congruence|].
  apply rbind_ok in H as (? & _ & [=]). done.
Qed.

Lemma set_stack_same st : set_stack st (stack st) = st.
Proof. by destruct st. Qed.

Lemma lock_op_narrows f st (op : Z → list valtype → eval (list valtype)) :
  (∀ v, op strict (stack st) = Ok v → v = stack st) → narrows (op strict (stack st)) (op lax (stack st)) →
  narrows (if flag strict f then on_stack st (op strict (stack st)) else Ok st)
    (if flag lax f then on_stack st (op lax (stack st)) else Ok st).
Proof.
  intros Hs Hn. destruct (flag lax f) eqn:E; [rewrite (flag_subset _ E); by apply on_stack_narrows|].
  destruct (flag strict f); [|narrow]. apply narrows_drop. intros v (s & ->%Hs & [= <-])%rbind_ok.
  apply set_stack_same.
Qed.

Lemma exec_op_narrows sigversion op pc fExec st :
  narrows (exec_op hashes strict checker sigversion op pc fExec st)
    (exec_op hashes lax checker sigversion op pc fExec st).
Proof.
  unfold exec_op. destruct (is_push_number op); [narrow|]. destruct (op =? OP_NOP); [narrow|].
  destruct (op =? OP_CHECKLOCKTIMEVERIFY).
  { apply (lock_op_narrows _ st (fun f s => op_checklocktime f checker s)); [apply op_checklocktime_same|].
    unfold op_checklocktime. narrow. }
  destruct (op =? OP_CHECKSEQUENCEVERIFY).
  { apply (lock_op_narrows _ st (fun f s => op_checksequence f checker s)); [apply op_checksequence_same|].
    unfold op_checksequence. narrow. }
  narrow.
Qed.
Hint Resolve exec_op_narrows : narrows.

Lemma eval_op_narrows sigversion op v pc st :
  narrows (eval_op hashes strict checker sigversion op v pc st)
    (eval_op hashes lax checker sigversion op v pc st).
Proof. unfold eval_op, fRequireMinimal. narrow. Qed.
Hint Resolve eval_op_narrows : narrows.

Lemma eval_loop_narrows sigversion fuel pc st :
  narrows (eval_loop hashes strict checker sigversion fuel pc st)
    (eval_loop hashes lax checker sigversion fuel pc st).
Proof.
  revert pc st. induction fuel as [|fuel IH]; intros pc st; cbn [eval_loop]; narrow.
Qed.
Hint Resolve eval_loop_narrows : narrows.

Lemma EvalScript_narrows sigversion s script d :
  narrows (EvalScript hashes strict checker sigversion s script d)
    (EvalScript hashes lax checker sigversion s script d).
Proof. unfold EvalScript. narrow. Qed.
Hint Resolve EvalScript_narrows : narrows.

(** ** Witness programs and inputs *)

Lemma ExecuteWitnessScript_narrows sigversion s script d :
  narrows (ExecuteWitnessScript hashes strict checker s script sigversion d)
    (ExecuteWitnessScript hashes lax checker s script sigversion d).
Proof. unfold ExecuteWitnessScript. narrow. Qed.
Hint Resolve ExecuteWitnessScript_narrows : narrows.

Lemma verify_v0_narrows w prog :
  narrows (verify_v0 hashes strict checker w prog) (verify_v0 hashes lax checker w prog).
Proof. unfold verify_v0. narrow. Qed.

Lemma verify_script_path_narrows w s prog annex :
  narrows (verify_script_path hashes lib strict checker w s prog annex)
    (verify_script_path hashes lib lax checker w s prog annex).
Proof. unfold verify_script_path. narrow. Qed.
Hint Resolve verify_v0_narrows verify_script_path_narrows : narrows.

Lemma verify_taproot_narrows w prog :
  narrows (verify_taproot hashes lib strict checker w prog) (verify_taproot hashes lib lax checker w prog).
Proof.
  unfold verify_taproot. destruct (flag lax SCRIPT_VERIFY_TAPROOT) eqn:E.
  - rewrite (flag_subset _ E). cbn [negb]. narrow.
  - apply narrows_drop. by intros [].
Qed.
Hint Resolve verify_taproot_narrows : narrows.

Lemma VerifyWitnessProgram_narrows w v prog p2sh :
  narrows (VerifyWitnessProgram hashes lib strict checker w v prog p2sh)
    (VerifyWitnessProgram hashes lib lax checker w v prog p2sh).
Proof. unfold VerifyWitnessProgram. narrow. Qed.
Hint Resolve VerifyWitnessProgram_narrows : narrows.

Lemma EvalBase_narrows s script :
  narrows (EvalBase hashes strict checker s script) (EvalBase hashes lax checker s script).
Proof. unfold EvalBase. narrow. Qed.
Hint Resolve EvalBase_narrows : narrows.

(** The combinations of flags [VerifyScript] admits. *)
Definition admissible (f : Z) : Prop :=
  (flag f SCRIPT_VERIFY_CLEANSTACK = true → flag f SCRIPT_VERIFY_WITNESS = true) ∧
  (flag f SCRIPT_VERIFY_WITNESS = true → flag f SCRIPT_VERIFY_P2SH = true).

(** With the witness rules on in both, the two runs go through the same steps. *)
Lemma VerifyScript_narrows_witness sig spk w :
  admissible lax → flag lax SCRIPT_VERIFY_WITNESS = true →
  narrows (VerifyScript hashes lib strict checker sig spk w) (VerifyScript hashes lib lax checker sig spk w).
Proof.
  intros [_ Hp] Hw. pose proof (Hp Hw) as Hp2.
  unfold VerifyScript, verify_program.
  rewrite Hw, Hp2, (flag_subset _ Hw), (flag_subset _ Hp2). cbn [andb].
  destruct (flag lax SCRIPT_VERIFY_CLEANSTACK) eqn:Ec; [rewrite (flag_subset _ Ec); narrow|].
  destruct (flag strict SCRIPT_VERIFY_CLEANSTACK); [|narrow]. narrow; apply narrows_drop; by intros [].
Qed.

(** Without them, the laxer run stops after the stack checks. *)
Lemma VerifyScript_narrows_plain sig spk w :
  admissible lax → flag lax SCRIPT_VERIFY_WITNESS = false →
  narrows (VerifyScript hashes lib strict checker sig spk w) (VerifyScript hashes lib lax checker sig spk w).
Proof.
  intros [Hc _] Hw [].
  assert (flag lax SCRIPT_VERIFY_CLEANSTACK = false) as Hc'
    by (destruct (flag lax SCRIPT_VERIFY_CLEANSTACK); [by rewrite Hw in Hc; discriminate Hc|done]).
  unfold VerifyScript. intros (? & E1 & (s1 & E2 & (s2 & E3 & (? & E4 & (had & _ & ([s3 had'] & E5 & _)%rbind_ok)%rbind_ok)
    %rbind_ok)%rbind_ok)%rbind_ok)%rbind_ok.
  rewrite (narrows_fail _ _ _ _ (flag_and _ _) _ E1). cbn [rbind].
  rewrite (EvalBase_narrows _ _ _ E2). cbn [rbind]. rewrite (EvalBase_narrows _ _ _ E3). cbn [rbind].
  rewrite E4. cbn [rbind]. unfold verify_program. rewrite Hw, Hc'. cbn [rbind].
  destruct (flag lax SCRIPT_VERIFY_P2SH && IsPayToScriptHash spk) eqn:Ep; [|done].
  rewrite (flag_and _ _ Ep) in E5.
  apply rbind_ok in E5 as (? & -> & E5). destruct s1 as [|redeem s1]; [done|].
  apply rbind_ok in E5 as (s4 & E6 & (? & E7 & _)%rbind_ok).
  cbn [rbind]. rewrite (EvalBase_narrows _ _ _ E6). cbn [rbind]. by rewrite E7.
Qed.

Lemma VerifyScript_narrows sig spk w :
  admissible lax →
  narrows (VerifyScript hashes lib strict checker sig spk w) (VerifyScript hashes lib lax checker sig spk w).
Proof.
  intros Ha. destruct (flag lax SCRIPT_VERIFY_WITNESS) eqn:Hw;
    [by apply VerifyScript_narrows_witness|by apply VerifyScript_narrows_plain].
Qed.

End Flags.
End SoftForkFacts.

(** ** Properties *)

Module SoftForkProps.
Import SoftForkFacts.

(** C15: Script verification flags are soft forks: for the combinations of flags
    [VerifyScript] admits, whatever the input, the output and the checker, a spend
    that verifies under a set of flags verifies under every subset of it.  Every
    rule a flag adds, in the interpreter, in the signature checks and in the
    witness programs, only rejects. *)
Theorem flags_are_soft_forks (hashes : script_hashes) (lib : sig_lib) (checker : BaseSignatureChecker) (strict lax : Z)
    (scriptSig scriptPubKey : CScript) (witness : CScriptWitness) :
  Z.land lax strict = lax → admissible lax →
  VerifyScript hashes lib strict checker scriptSig scriptPubKey witness = Ok tt →
  VerifyScript hashes lib lax checker scriptSig scriptPubKey witness = Ok tt.
Proof. intros Hs Ha. by apply VerifyScript_narrows. Qed.

Definition demo_hashes : script_hashes := mkHashes (fun _ => []) (fun _ => []) (fun _ => []) (fun _ => true).
Definition demo_lib : sig_lib :=
  mkSigLib (fun _ _ _ => true) (fun _ _ _ => true) (fun _ _ _ _ => true) (fun _ _ => []) (fun _ _ _ _ => true).
Definition demo_checker : BaseSignatureChecker :=
  mkChecker (fun _ _ _ _ => Ok true) (fun _ _ _ d => Ok d) (fun _ _ _ _ _ => Ok true) (fun _ => true) (fun _ => true).

Lemma flags_are_soft_forks_witness :
  let lax := Z.lor SCRIPT_VERIFY_P2SH SCRIPT_VERIFY_WITNESS in
  let strict := Z.lor lax (Z.lor SCRIPT_VERIFY_CLEANSTACK SCRIPT_VERIFY_MINIMALDATA) in
  VerifyScript demo_hashes demo_lib lax demo_checker [OP_1] [OP_DUP; OP_EQUAL] [] = Ok tt.
Proof.
  cbv zeta. eapply (flags_are_soft_forks demo_hashes demo_lib demo_checker
    (Z.lor (Z.lor SCRIPT_VERIFY_P2SH SCRIPT_VERIFY_WITNESS) (Z.lor SCRIPT_VERIFY_CLEANSTACK SCRIPT_VERIFY_MINIMALDATA)));
    [reflexivity|by split; vm_compute|vm_compute; reflexivity].
Defined.

End SoftForkProps.
