(* ===== verification/VerifyFacts.v ===== *)
(** Lemmas about the verification of transaction inputs: no assertion of the
    interpreter fails on a block's inputs, and what the witness programs that pay
    to keys ask of a witness. *)
From Stdlib Require Import ZArith Lia.
From stdpp Require Import gmap.
From S2P Require Import Prelude Serialize Script Transaction Interpreter SigHash VerifyScript InterpreterFacts SigHashFacts.
Import Serialize Script ScriptFacts Transaction ScriptFlags Interpreter SigHash VerifyScript SafetyFacts.
Local Open Scope bb_scope.

(** * Absence of failed assertions *)
Module VerifySafety.

(** An element of a witness. *)
Definition item_ok (v : valtype) : Prop := bytes_ok v ∧ size v < NO_FALSE.

Definition items_ok (w : CScriptWitness) : Prop := Forall item_ok w ∧ size w < 2 ^ 62.

Lemma op_success_scan_safe fuel pc : (length pc <= fuel)%nat → safe (fun _ => True) (op_success_scan fuel pc).
Proof.
  revert pc. induction fuel as [|fuel IH]; intros [|b pc] Hf; [done|cbn in Hf; lia|done|]. cbn [op_success_scan].
  destruct (GetScriptOp (b :: pc)) as [[[op d] pc']|] eqn:E; [|done]. apply GetScriptOp_shorter in E. cbn in Hf, E.
  destruct (IsOpSuccess op); [done|]. apply IH. lia.
Qed.

Section Verify.
Context (hashes : script_hashes) (lib : sig_lib) (flags : Z) (checker : BaseSignatureChecker).
Hypothesis Hhashes : hashes_ok hashes.

Lemma ExecuteWitnessScript_safe stack script sigversion d :
  checker_ok checker sigversion → sigversion ≠ TAPROOT → items_ok stack → bytes_ok script →
  (sigversion = TAPSCRIPT → size script < NO_FALSE ∧ exec_ready (with_codeseparator_pos d 0)) →
  safe (fun _ => True) (ExecuteWitnessScript hashes flags checker stack script sigversion d).
Proof.
  intros Hc Hv [Hw Hws] Hb Hd. unfold ExecuteWitnessScript. eapply (safe_bind (fun _ => True)).
  { destruct (bool_decide _); [by apply op_success_scan_safe|done]. }
  intros b _. destruct b; [eapply safe_weaken; [apply safe_fail|done]|].
  eapply safe_bind; [apply safe_fail|]. intros _ _. eapply safe_bind; [apply safe_fail|]. intros ? He. cbn beta in He.
  eapply safe_bind.
  - apply (EvalScript_safe hashes flags checker sigversion Hhashes Hc Hv (Z.max MAX_STACK_SIZE (size stack))).
    + unfold MAX_STACK_SIZE. lia.
    + apply Forall_rev. apply Forall_forall. intros v Hin. rewrite Forall_forall in Hw. split; [by apply Hw|].
      rewrite <- not_true_iff_false, existsb_exists in He. destruct (size v >? MAX_SCRIPT_ELEMENT_SIZE) eqn:E; [|lia].
      exfalso. apply He. by exists v.
    + unfold size. rewrite length_rev. lia.
    + done.
    + done.
  - intros [s d'] _. destruct s as [|top [|? ?]]; [done| |done]. eapply safe_weaken; [apply safe_fail|done].
Qed.

Lemma items_ok_removelast w : items_ok w → items_ok (removelast w).
Proof.
  intros [Hw Hs]. destruct (exists_last_or_nil w) as [->|(w' & v & ->)]; [done|]. rewrite removelast_last.
  apply Forall_app in Hw as [Hw _]. split; [done|]. rewrite size_app in Hs. unfold size in *. cbn in Hs. lia.
Qed.

Lemma items_ok_last w : w ≠ [] → items_ok w → item_ok (List.last w []).
Proof.
  intros Hne [Hw _]. destruct (exists_last_or_nil w) as [->|(w' & v & ->)]; [done|]. rewrite List.last_last.
  apply Forall_app in Hw as [_ Hw]. by rewrite Forall_singleton in Hw.
Qed.

Lemma p2wpkh_bytes program : bytes_ok program → size program = 20 → bytes_ok (p2wpkh_script program).
Proof.
  intros Hb Hs. unfold p2wpkh_script, push_vec, push_opcode. rewrite Hs. cbn.
  repeat (first [apply Forall_app; split|done|apply list.Forall_cons; split; [unfold in_u; lia|]|constructor]).
Qed.

Lemma verify_v0_safe witness program :
  checker_ok checker WITNESS_V0 → items_ok witness → bytes_ok program →
  safe (fun _ => True) (verify_v0 hashes flags checker witness program).
Proof.
  intros Hc Hw Hp. unfold verify_v0. destruct (size program =? WITNESS_V0_SCRIPTHASH_SIZE).
  - unfold pop_back. destruct witness as [|v w] eqn:E; [done|]. rewrite <- E in *. eapply safe_bind; [apply safe_fail|]. intros _ _.
    apply ExecuteWitnessScript_safe; [done|done|by apply items_ok_removelast| |done].
    apply items_ok_last; [by rewrite E|done].
  - destruct (size program =? WITNESS_V0_KEYHASH_SIZE) eqn:E; [|done]. to_prop. eapply safe_bind; [apply safe_fail|]. intros _ _.
    apply ExecuteWitnessScript_safe; [done|done|done| |done]. by apply p2wpkh_bytes.
Qed.

(** What the checker must be able to do for Taproot inputs. *)
Record taproot_ok : Prop := {
  tapscript_total : checker_ok checker TAPSCRIPT;
  key_path_total : ∀ sig key d, size key = 32 → is_Some (m_annex d) →
    safe (fun _ => True) (CheckSchnorrSignature checker sig key TAPROOT d);
}.

Lemma VerifyTaprootCommitment_safe control program leaf :
  size program = 32 →
  (size control <? TAPROOT_CONTROL_BASE_SIZE) || (size control >? TAPROOT_CONTROL_MAX_SIZE) ||
  negb ((size control - TAPROOT_CONTROL_BASE_SIZE) mod TAPROOT_CONTROL_NODE_SIZE =? 0) = false →
  safe (fun _ => True) (VerifyTaprootCommitment hashes lib control program leaf).
Proof.
  intros Hp H. rewrite !orb_false_iff, negb_false_iff in H. destruct H as [[H1 H2] H3].
  unfold VerifyTaprootCommitment, ComputeTaprootMerkleRoot. rewrite H3.
  replace (size control >=? TAPROOT_CONTROL_BASE_SIZE) with true by lia. replace (size program >=? 32) with true by lia.
  by replace (size control <=? TAPROOT_CONTROL_MAX_SIZE) with true by lia.
Qed.

Lemma verify_script_path_safe witness stack program annex :
  taproot_ok → items_ok stack → (2 <= length stack)%nat → size program = 32 →
  safe (fun _ => True) (verify_script_path hashes lib flags checker witness stack program annex).
Proof.
  intros Ht Hw Hl Hp. unfold verify_script_path.
  destruct (exists_last_or_nil stack) as [->|(s1 & control & ->)]; [cbn in Hl; lia|].
  destruct (exists_last_or_nil s1) as [->|(s2 & script & ->)]; [cbn in Hl; lia|].
  assert (∀ (s : list valtype) v, pop_back (s ++ [v]) = Some (v, s)) as Hpop.
  { intros s v. unfold pop_back. rewrite List.last_last, removelast_last. by destruct s. }
  rewrite !Hpop. apply items_ok_removelast in Hw. rewrite removelast_last in Hw.
  pose proof (items_ok_last (s2 ++ [script]) ltac:(by destruct s2) Hw) as Hscript. rewrite List.last_last in Hscript.
  apply items_ok_removelast in Hw. rewrite removelast_last in Hw.
  eapply safe_bind; [apply safe_fail|]. intros ? Hcontrol.
  eapply safe_bind; [by apply VerifyTaprootCommitment_safe|]. intros ok _.
  eapply safe_bind; [apply safe_fail|]. intros _ _.
  destruct (_ =? TAPROOT_LEAF_TAPSCRIPT); [|eapply safe_weaken; [apply safe_fail|done]].
  destruct Hscript. apply ExecuteWitnessScript_safe; [apply Ht|done|done|done|]. intros _. by split_and!; cbn.
Qed.

Lemma verify_taproot_safe witness program :
  (witness ≠ [] → taproot_ok) → items_ok witness → size program = 32 →
  safe (fun _ => True) (verify_taproot hashes lib flags checker witness program).
Proof.
  intros Ht Hw Hp. unfold verify_taproot. destruct (negb _); [done|].
  eapply safe_bind; [apply safe_fail|]. intros ? Hne. cbn beta in Hne. to_prop.
  specialize (Ht ltac:(by intros ->)). set (annexed := _ && _ && _). set (stack := if annexed then _ else _).
  assert (items_ok stack ∧ stack ≠ []) as [Hs Hs0].
  { unfold stack. destruct annexed eqn:E; [|split; [done|by intros ->]]. split; [by apply items_ok_removelast|].
    unfold annexed in E. to_prop. destruct witness as [|? [|? ?]]; [done| |done]. unfold size in *. cbn in *. lia. }
  destruct stack as [|sig [|? ?]]; [done| |].
  - eapply safe_bind; [apply key_path_total; [done|lia|done]|done].
  - apply verify_script_path_safe; [done|done|cbn; lia|done].
Qed.

Record checkers_ok : Prop := {
  base_total : checker_ok checker BASE;
  v0_total : checker_ok checker WITNESS_V0;
  hybrid_total : ∀ sig key msig mkey program,
    safe (fun _ => True) (CheckHybridSignature checker sig key msig mkey program);
}.
Hypothesis Hcheckers : checkers_ok.

Lemma VerifyWitnessProgram_safe witness version program is_p2sh :
  (version = 1 → size program = 32 → is_p2sh = false → witness ≠ [] → taproot_ok) → items_ok witness → bytes_ok program →
  safe (fun _ => True) (VerifyWitnessProgram hashes lib flags checker witness version program is_p2sh).
Proof.
  intros Ht Hw Hp. unfold VerifyWitnessProgram. destruct (version =? 0); [apply verify_v0_safe; [apply Hcheckers|done..]|].
  destruct (_ && _ && _) eqn:E1.
  { rewrite !andb_true_iff, negb_true_iff in E1. destruct E1 as [[E1 E2] E3]. to_prop. apply verify_taproot_safe; [|done|done].
    intros Hne. by apply Ht. }
  clear E1. destruct (_ && _ && _); [|eapply safe_weaken; [apply safe_fail|done]].
  unfold verify_hybrid. repeat (case_match; try done).
  eapply safe_bind; [apply Hcheckers|]. intros ok _. eapply safe_weaken; [apply safe_fail|done].
Qed.

Lemma IsWitnessProgram_bytes script version program :
  IsWitnessProgram script = Some (version, program) → bytes_ok script → bytes_ok program.
Proof.
  unfold IsWitnessProgram. intros H Hb. do 3 (case_match; try done).
  destruct (DecodeOP_N _); [|done]. injection H as _ <-. by apply Forall_drop.
Qed.

Lemma verify_program_safe script malleated e witness is_p2sh :
  (∀ program, IsWitnessProgram script = Some (1, program) → size program = 32 → is_p2sh = false → witness ≠ [] → taproot_ok) →
  items_ok witness → bytes_ok script →
  safe (fun _ => True) (verify_program hashes lib flags checker script malleated e witness is_p2sh).
Proof.
  intros Ht Hw Hb. unfold verify_program. destruct (flag _ _); [|done].
  destruct (IsWitnessProgram script) as [[version program]|] eqn:E; [|done].
  eapply safe_bind; [apply safe_fail|]. intros _ _. eapply safe_bind; [|by intros].
  apply VerifyWitnessProgram_safe; [|done|by eapply IsWitnessProgram_bytes]. intros ->. by apply Ht.
Qed.

Lemma EvalBase_safe stack script :
  Forall el_ok stack → size stack <= MAX_STACK_SIZE → bytes_ok script →
  safe (fun s => Forall el_ok s ∧ size s <= MAX_STACK_SIZE) (EvalBase hashes flags checker stack script).
Proof.
  intros Hs Hl Hb. unfold EvalBase. eapply safe_bind.
  - apply (EvalScript_safe hashes flags checker BASE Hhashes (base_total Hcheckers) ltac:(done) MAX_STACK_SIZE); done.
  - by intros [s d].
Qed.

(** A pay-to-script-hash output cannot be satisfied with an empty stack. *)
Lemma p2sh_needs_stack script s :
  IsPayToScriptHash script = true → EvalBase hashes flags checker [] script ≠ Ok s.
Proof.
  unfold IsPayToScriptHash. intros H. rewrite !andb_true_iff in H. destruct H as [[[Hs H0] _] _]. to_prop.
  destruct script as [|op script]; [done|]. unfold byte_at in H0. cbn in H0. subst op.
  unfold EvalBase, EvalScript. rewrite Hs. by vm_compute.
Qed.

Lemma require_true_safe stack : safe (fun _ => True) (require_true stack).
Proof. unfold require_true. destruct stack; [done|]. eapply safe_weaken; [apply safe_fail|done]. Qed.

Lemma VerifyScript_safe scriptSig scriptPubKey witness :
  (∀ program, IsWitnessProgram scriptPubKey = Some (1, program) → size program = 32 → witness ≠ [] → taproot_ok) →
  (flag flags SCRIPT_VERIFY_WITNESS = true → flag flags SCRIPT_VERIFY_P2SH = true) →
  (flag flags SCRIPT_VERIFY_CLEANSTACK = true → flag flags SCRIPT_VERIFY_WITNESS = true) →
  bytes_ok scriptSig → bytes_ok scriptPubKey → items_ok witness →
  safe (fun _ => True) (VerifyScript hashes lib flags checker scriptSig scriptPubKey witness).
Proof.
  intros Ht Hfw Hfc Hsig Hspk Hw. unfold VerifyScript. eapply safe_bind; [apply safe_fail|]. intros _ _.
  eapply safe_bind; [by apply EvalBase_safe|]. intros copy [Hcopy Hcl].
  destruct (EvalBase hashes flags checker copy scriptPubKey) as [s|e] eqn:Es.
  2: { pose proof (EvalBase_safe copy scriptPubKey Hcopy Hcl Hspk) as H. rewrite Es in H. by destruct e. }
  cbn [rbind]. eapply safe_bind; [apply require_true_safe|]. intros _ _.
  eapply safe_bind; [apply verify_program_safe; [|done|done]; intros; by eapply Ht|]. intros had _. cbv zeta.
  eapply (safe_bind (fun _ => True)).
  - destruct (flag flags SCRIPT_VERIFY_P2SH && IsPayToScriptHash scriptPubKey) eqn:E; [|done].
    apply andb_true_iff in E as [_ Ep]. eapply safe_bind; [apply safe_fail|]. intros _ _.
    destruct copy as [|pubKey2 rest]; [by apply p2sh_needs_stack in Es|].
    apply list.Forall_cons in Hcopy as [[Hk _] Hrest].
    eapply safe_bind; [apply EvalBase_safe; [done|unfold size in *; cbn in Hcl; lia|done]|]. intros s' _.
    eapply safe_bind; [apply require_true_safe|]. intros _ _.
    eapply safe_bind; [by apply verify_program_safe|]. done.
  - intros [s' had'] _. eapply (safe_bind (fun _ => True)).
    + destruct (flag flags SCRIPT_VERIFY_CLEANSTACK) eqn:Ec; [|done]. rewrite (Hfc eq_refl), (Hfw (Hfc eq_refl)).
      cbn [assert require rbind]. eapply safe_weaken; [apply safe_fail|done].
    + intros _ _. destruct (flag flags SCRIPT_VERIFY_WITNESS) eqn:Ew; [|done]. rewrite (Hfw eq_refl).
      cbn [assert require rbind]. eapply safe_weaken; [apply safe_fail|done].
Qed.
End Verify.

Section Checker.
Context (hashes : script_hashes) (lib : sig_lib) (txTo : CTransaction) (nIn : nat) (amount : Z).
Context (txdata : option PrecomputedTransactionData).
Hypothesis Hin : (nIn < length (vin txTo))%nat.
Hypothesis Hamount : 0 <= amount.
Abbreviation tx_checker := (TransactionSignatureChecker hashes lib txTo nIn amount txdata).

Lemma SignatureHash_safe code hashtype amt sigversion :
  safe (fun _ => True) (SignatureHash hashes code txTo nIn hashtype amt sigversion txdata).
Proof.
  unfold SignatureHash. replace (nIn <? length (vin txTo))%nat with true by (symmetry; by apply Nat.ltb_lt).
  cbn [assert require rbind]. by repeat case_match.
Qed.

Lemma check_ecdsa_safe sig key code sigversion : safe (fun _ => True) (check_ecdsa hashes lib txTo nIn amount txdata sig key code sigversion).
Proof.
  unfold check_ecdsa. destruct (CPubKey key); [|done]. destruct (_ =? _)%nat; [done|].
  replace (amount <? 0) with false by lia. rewrite andb_false_r. cbn [assert negb require rbind].
  eapply safe_bind; [apply SignatureHash_safe|done].
Qed.

Lemma check_hybrid_safe sig key msig mkey program :
  safe (fun _ => True) (check_hybrid hashes lib txTo nIn amount txdata sig key msig mkey program).
Proof.
  unfold check_hybrid. do 4 (case_match; [done|]). replace (amount <? 0) with false by lia. cbn [assert negb require rbind].
  eapply safe_bind; [apply SignatureHash_safe|]. intros h _. by repeat case_match.
Qed.

(** The execution data is ready for a Schnorr signature of this version. *)
Definition schnorr_ready (sigversion : SigVersion) (d : ScriptExecutionData) : Prop :=
  is_Some (m_annex d) ∧ (sigversion = TAPSCRIPT → exec_ready d).

Lemma SignatureHashSchnorr_safe d hashtype sigversion c :
  sigversion = TAPROOT ∨ sigversion = TAPSCRIPT →
  m_bip341_taproot_ready c = true → m_spent_outputs_ready c = true → schnorr_ready sigversion d →
  safe (fun r => ∀ h d', r = Some (h, d') → schnorr_ready sigversion d')
    (SignatureHashSchnorr hashes d txTo nIn hashtype sigversion c).
Proof.
  intros Hv H1 H2 [[annex Ha] Hd]. unfold SignatureHashSchnorr. rewrite H1, H2, Ha.
  replace (nIn <? length (vin txTo))%nat with true by (symmetry; by apply Nat.ltb_lt).
  assert (∀ (b : bool) x, schnorr_ready sigversion (if b then mkExec (m_tapleaf_hash d) (m_codeseparator_pos d) (Some annex)
    (m_validation_weight_left d) x else d)) as Hres.
  { intros b x. destruct b; (split; [cbn; rewrite ?Ha; by eexists|]); [|done]. intros Ev.
    destruct (Hd Ev) as (? & ? & ? & ?). by split_and!; cbn; [..|eexists|]. }
  destruct Hv as [Ev|Ev]; rewrite Ev in Hd, Hres |- *; cbn [assert andb require rbind].
  - do 2 (case_match; [done|]). intros h d' [= _ <-]. apply Hres.
  - destruct (Hd eq_refl) as ([leaf El] & [pos Ep] & _). do 2 (case_match; [done|]).
    set (d2 := if _ =? SIGHASH_SINGLE then mkExec _ _ _ _ _ else d).
    assert (m_tapleaf_hash d2 = Some leaf ∧ m_codeseparator_pos d2 = Some pos) as [-> ->] by (unfold d2; by destruct (_ =? SIGHASH_SINGLE)).
    cbn [rbind]. intros h d' [= _ <-]. apply Hres.
Qed.

Lemma check_schnorr_safe c sig key sigversion d :
  txdata = Some c → m_bip341_taproot_ready c = true → m_spent_outputs_ready c = true →
  sigversion = TAPROOT ∨ sigversion = TAPSCRIPT → size key = 32 → schnorr_ready sigversion d →
  safe (schnorr_ready sigversion) (check_schnorr hashes lib txTo nIn txdata sig key sigversion d).
Proof.
  intros -> H1 H2 Hv Hk Hd. unfold check_schnorr.
  replace (bool_decide (sigversion = TAPROOT) || bool_decide (sigversion = TAPSCRIPT)) with true by (by destruct Hv as [->| ->]).
  rewrite Hk. cbn [assert require rbind Z.eqb Pos.eqb].
  do 2 (eapply safe_bind; [apply safe_fail|]; intros _ _).
  eapply safe_bind; [by apply SignatureHashSchnorr_safe|]. intros [[h d']|] Hr; [|done]. cbn beta in Hr.
  eapply safe_bind; [apply safe_fail|]. intros _ _. by eapply Hr.
Qed.

Lemma tx_checkers_ok : checkers_ok tx_checker.
Proof.
  split; [split|split|]; try (intros; by apply check_ecdsa_safe); try done. intros. apply check_hybrid_safe.
Qed.

Lemma tx_taproot_ok c :
  txdata = Some c → m_bip341_taproot_ready c = true → m_spent_outputs_ready c = true → taproot_ok tx_checker.
Proof.
  intros E H1 H2. split; [split|].
  - done.
  - intros sig key d _ Hk Hd. eapply safe_weaken; [apply (check_schnorr_safe c); [done|done|done|by right|done|]|].
    + split; [apply Hd|done].
    + intros d' [_ Hd']. by apply Hd'.
  - intros sig key d Hk Ha. eapply safe_weaken; [apply (check_schnorr_safe c); [done|done|done|by left|done|]|done].
    by split.
Qed.
End Checker.

(** ** The precomputed data *)

Import SigHashFacts (taproot_spend, uses_scan_taproot).

Lemma Init_spec hashes tx spent :
  length spent = length (vin tx) → vin tx ≠ [] →
  ∃ c, Init hashes tx spent false = Ok c ∧ m_spent_outputs_ready c = true ∧
       ∀ n i o, vin tx !! n = Some i → spent !! n = Some o → taproot_spend i o → m_bip341_taproot_ready c = true.
Proof.
  intros Hl Hne. unfold Init. assert ((length spent =? 0)%nat = false) as E0 by (destruct (vin tx), spent; done).
  rewrite E0, Hl, Nat.eqb_refl. cbn [negb orb assert require rbind].
  destruct (uses_scan (vin tx) spent true false false) as [b143 b341] eqn:E. eexists. split; [done|]. split; [done|].
  intros n i o Hi Ho Ht. pose proof (uses_scan_taproot _ _ false false _ _ _ Hi Ho Ht) as H. rewrite E in H. cbn in H |- *.
  by rewrite H.
Qed.

Lemma IsWitnessProgram_v1 script program :
  IsWitnessProgram script = Some (1, program) → size program = 32 → size script = 34 ∧ byte_at script 0 = OP_1.
Proof.
  unfold IsWitnessProgram. intros H Hp. do 3 (case_match; try done). unfold DecodeOP_N in H. unfold size in Hp |- *.
  repeat (case_match; try done); injection H as H <-; rewrite length_drop in Hp; to_prop; unfold size in *; lia.
Qed.

(** ** [CScriptCheck] *)

(** The data of input [nIn]: bytes, and sizes that fit a machine word. *)
Record input_ok (tx : CTransaction) (spent_outputs : list CTxOut) (nIn : nat) : Prop := {
  in_range : (nIn < length (vin tx))%nat;
  in_spent : length spent_outputs = length (vin tx);
  in_amount : 0 <= nValue (default txout_null (spent_outputs !! nIn));
  in_scriptPubKey : bytes_ok (scriptPubKey (default txout_null (spent_outputs !! nIn)));
  in_scriptSig : bytes_ok (scriptSig (default null_txin (vin tx !! nIn)));
  in_witness : items_ok (scriptWitness (default null_txin (vin tx !! nIn)));
}.

(** The combinations of flags that [VerifyScript] asserts. *)
Definition flags_ok (flags : Z) : Prop :=
  (flag flags SCRIPT_VERIFY_WITNESS = true → flag flags SCRIPT_VERIFY_P2SH = true) ∧
  (flag flags SCRIPT_VERIFY_CLEANSTACK = true → flag flags SCRIPT_VERIFY_WITNESS = true).

Lemma CScriptCheck_safe hashes lib tx spent nIn flags :
  hashes_ok hashes → input_ok tx spent nIn → flags_ok flags →
  safe (fun _ => True) (CScriptCheck hashes lib tx spent nIn flags).
Proof.
  intros Hh [Hn Hl Ha Hspk Hsig Hw] [Hf1 Hf2]. unfold CScriptCheck.
  destruct (Init_spec hashes tx spent Hl) as (c & -> & Hready & Htap); [by intros E; rewrite E in Hn; cbn in Hn; lia|].
  cbn [rbind]. apply VerifyScript_safe; try done; [by apply tx_checkers_ok|].
  intros program Hp Hsz Hne. apply (tx_taproot_ok _ _ _ _ _ _ Hn c); [done| |done].
  destruct (lookup_lt_is_Some_2 (vin tx) nIn Hn) as [i Ei].
  destruct (lookup_lt_is_Some_2 spent nIn) as [o Eo]; [lia|]. rewrite Ei, Eo in *. cbn in *.
  eapply Htap; [done|done|]. destruct (IsWitnessProgram_v1 _ _ Hp Hsz). split_and!; [|done|done].
  unfold witness_IsNull. by destruct (scriptWitness i).
Qed.
End VerifySafety.

(** * Witness programs that pay to keys *)
Module ProgramFacts.

Lemma eval_push hashes flags checker sigversion op v pc st :
  all_true (vfExec st) = true → 0 <= op <= OP_PUSHDATA4 → size v <= MAX_SCRIPT_ELEMENT_SIZE → CheckMinimalPush v op = true →
  size (stack st) + size (altstack st) < MAX_STACK_SIZE →
  eval_op hashes flags checker sigversion op v pc st = Ok (set_stack st (v :: stack st)).
Proof.
  intros He Ho Hv Hm Hs. unfold eval_op. rewrite He, Hm. replace (size v >? MAX_SCRIPT_ELEMENT_SIZE) with false by lia.
  replace (op >? OP_16) with false by lia. rewrite andb_false_r. replace (is_disabled op) with false by (unfold is_disabled; lia).
  replace (op =? OP_CODESEPARATOR) with false by lia. replace (0 <=? op) with true by lia.
  replace (op <=? OP_PUSHDATA4) with true by lia. rewrite andb_false_r. cbn [andb fail_if negb require rbind stack altstack set_stack].
  by replace (_ >? MAX_STACK_SIZE) with false by (unfold size in *; cbn [length]; lia).
Qed.

(** The opcode of a small number ([CScript::EncodeOP_N]). *)
Definition op_n (n : Z) : Z := if n =? 0 then OP_0 else OP_1 + n - 1.

Definition program_script (version : Z) (program : valtype) : CScript := op_n version :: size program :: program.

Section Programs.
Context (hashes : script_hashes) (lib : sig_lib) (flags : Z) (checker : BaseSignatureChecker).

Lemma loop_step sigversion fuel pc st op d pc' :
  GetScriptOp pc = Some (op, d, pc') →
  eval_loop hashes flags checker sigversion (S fuel) pc st =
  let! st := eval_op hashes flags checker sigversion op d pc' st in
  eval_loop hashes flags checker sigversion fuel pc' (next_pos st).
Proof. intros E. destruct pc; [done|]. cbn [eval_loop]. by rewrite E. Qed.

(** A direct push. *)
Lemma parse_push v rest : 2 <= size v <= 75 → size rest < 2 ^ 30 →
  GetScriptOp (size v :: v ++ rest) = Some (size v, v, rest) ∧ CheckMinimalPush v (size v) = true.
Proof.
  intros Hv Hr. split.
  - apply (GetScriptOp_data (size v) [] v rest); [lia|rewrite size_app; lia|]. unfold push_size. cbn [app].
    by replace (size v <? OP_PUSHDATA1) with true by lia.
  - unfold CheckMinimalPush. replace (size v =? 0) with false by lia. replace (size v =? 1) with false by lia. cbn [andb].
    replace (size v <=? 75) with true by lia. lia.
Qed.

Lemma eval_op_n version rest code d :
  0 <= version <= 16 →
  ∃ x, let st := mkState [] [] cond_new code 0 0 d in
  eval_op hashes flags checker BASE (op_n version) [] rest st = Ok (set_stack st [x]).
Proof.
  intros Hv. unfold op_n. destruct (version =? 0) eqn:E0; [exists []; by apply eval_push|]. to_prop.
  set (op := OP_1 + version - 1). eexists. cbv zeta. unfold eval_op, exec_op. cbn [vfExec nOpCount].
  replace (op >? OP_16) with false by lia. rewrite andb_false_r. replace (is_disabled op) with false by (unfold is_disabled; lia).
  replace (op =? OP_CODESEPARATOR) with false by lia. replace (op <=? OP_PUSHDATA4) with false by lia. rewrite !andb_false_r.
  by replace (is_push_number op) with true by (unfold is_push_number; lia).
Qed.

Lemma parse_op_n version rest : 0 <= version <= 16 → GetScriptOp (op_n version :: rest) = Some (op_n version, [], rest).
Proof.
  intros Hv. unfold op_n. destruct (version =? 0) eqn:E0; to_prop; cbn [GetScriptOp].
  - change (OP_0 <=? OP_PUSHDATA4) with true. cbn [mbind option_bind push_size Z.ltb Z.compare].
    pose proof (wrap_range 32 (size rest) ltac:(lia)) as Hr. unfold in_u in Hr. by replace (_ <? 0) with false by lia.
  - by replace (_ <=? OP_PUSHDATA4) with false by lia.
Qed.

Lemma eval_program version program :
  0 <= version <= 16 → 2 <= size program <= 40 →
  ∃ x, EvalBase hashes flags checker [] (program_script version program) = Ok [program; x].
Proof.
  intros Hv Hp. unfold EvalBase, EvalScript. set (script := program_script version program).
  replace (size script >? MAX_SCRIPT_SIZE) with false by (unfold MAX_SCRIPT_SIZE, script, program_script, size in *; cbn [length]; lia).
  change (assert _) with (@Ok eval_error unit tt). rewrite andb_false_r. cbn [fail_if negb require rbind].
  destruct (eval_op_n version (size program :: program) script (with_codeseparator_pos execdata_empty 0xFFFFFFFF) Hv) as [x Ex].
  exists x. cbv zeta in Ex. change (length script) with (S (S (length program))).
  rewrite (loop_step _ _ script _ (op_n version) [] (size program :: program)) by (by apply parse_op_n).
  rewrite Ex. cbn [rbind]. destruct (parse_push program []) as [Eg Em]; [lia|done|]. rewrite app_nil_r in Eg.
  rewrite (loop_step _ _ _ _ _ _ _ Eg), eval_push by (done || unfold MAX_SCRIPT_ELEMENT_SIZE; lia).
  cbn [rbind]. by destruct (length program).
Qed.

Lemma IsWitnessProgram_script version program :
  0 <= version <= 16 → 2 <= size program <= 40 →
  IsWitnessProgram (program_script version program) = Some (version, program) ∧
  IsPayToScriptHash (program_script version program) = false.
Proof.
  intros Hv Hp. unfold IsWitnessProgram, IsPayToScriptHash, DecodeOP_N.
  change (byte_at (program_script version program) 0) with (op_n version).
  change (byte_at (program_script version program) 1) with (size program).
  assert (size (program_script version program) = size program + 2) as -> by (unfold size, program_script; cbn [length]; lia).
  replace (_ || _) with false by lia. rewrite (Z.eqb_refl (size program + 2)).
  unfold op_n. destruct (version =? 0) eqn:E0; to_prop; [subst; split; [done|by rewrite andb_false_r]|].
  replace (negb _ && _) with false by lia. replace (OP_1 + version - 1 =? OP_0) with false by lia.
  replace (_ && _) with true by lia. cbn [mbind option_bind]. split; [do 2 f_equal; lia|].
  replace (_ =? OP_HASH160) with false by lia. by rewrite andb_false_r.
Qed.

(** An output that is a witness program, spent with an empty [scriptSig]. *)
Lemma VerifyScript_program version program witness :
  flag flags SCRIPT_VERIFY_WITNESS = true → flag flags SCRIPT_VERIFY_P2SH = true →
  0 <= version <= 16 → 2 <= size program <= 40 →
  VerifyScript hashes lib flags checker [] (program_script version program) witness =
  let! _ := fail_if (negb (CastToBool program)) SCRIPT_ERR_EVAL_FALSE in
  VerifyWitnessProgram hashes lib flags checker witness version program false.
Proof.
  intros Hw Hp2 Hv Hp. unfold VerifyScript. change (IsPushOnly []) with true. rewrite andb_false_r.
  cbn [fail_if negb require rbind]. change (EvalBase hashes flags checker [] []) with (@Ok eval_error _ (@nil valtype)).
  cbn [rbind]. destruct (eval_program version program Hv Hp) as [x ->]. cbn [rbind require_true].
  destruct (CastToBool program); [|done]. cbn [negb fail_if require rbind].
  unfold verify_program. rewrite Hw. destruct (IsWitnessProgram_script version program Hv Hp) as [-> ->].
  change (negb (size (@nil Z) =? 0)) with false. cbn [fail_if negb require rbind].
  destruct (VerifyWitnessProgram _ _ _ _ _ _ _ _) as [[]|]; [|done]. cbn [rbind]. rewrite andb_false_r, Hp2.
  cbn [rbind assert require]. by destruct (flag flags SCRIPT_VERIFY_CLEANSTACK).
Qed.

(** ** Key hashes *)

(** Running the implied script on a signature and a key. *)
Lemma eval_p2wpkh sig key program :
  size program = 20 →
  EvalScript hashes flags checker WITNESS_V0 [key; sig] (p2wpkh_script program) execdata_empty =
  if bool_decide (CHash160 hashes key = program) then
    let! ok := EvalChecksigPreTapscript hashes flags checker WITNESS_V0 sig key (p2wpkh_script program) in
    Ok ([vch_bool ok], with_codeseparator_pos execdata_empty 0xFFFFFFFF)
  else set_error SCRIPT_ERR_EQUALVERIFY.
Proof.
  intros Hs. unfold EvalScript. set (script := p2wpkh_script program). set (d := with_codeseparator_pos _ _).
  assert (script = OP_DUP :: OP_HASH160 :: size program :: program ++ [OP_EQUALVERIFY; OP_CHECKSIG]) as Escript.
  { unfold script, p2wpkh_script, push_vec, push_opcode. by rewrite Hs; cbn; rewrite <- app_assoc. }
  assert (length script = 25%nat) as El by (rewrite Escript; cbn [length]; rewrite length_app; unfold size in Hs; cbn; lia).
  replace (size script) with 25 by (unfold size; lia). rewrite El. change (pre_tapscript WITNESS_V0 && (25 >? MAX_SCRIPT_SIZE)) with false.
  change (assert _) with (@Ok eval_error unit tt). cbn [fail_if negb require rbind]. rewrite Escript at 1.
  set (tail := [OP_EQUALVERIFY; OP_CHECKSIG]). set (st := mkState _ _ _ _ _ _ _).
  rewrite (loop_step _ _ _ _ OP_DUP [] (OP_HASH160 :: size program :: program ++ tail)) by done.
  change (eval_op _ _ _ _ OP_DUP _ _ _) with (@Ok eval_error _ (mkState [key; key; sig] [] cond_new script 1 0 d)). cbn [rbind].
  rewrite (loop_step _ _ _ _ OP_HASH160 [] (size program :: program ++ tail)) by done.
  change (eval_op _ _ _ _ OP_HASH160 _ _ _) with (@Ok eval_error _ (mkState [CHash160 hashes key; key; sig] [] cond_new script 2 1 d)). cbn [rbind].
  destruct (parse_push program tail) as [Eg Em]; [lia|done|].
  rewrite (loop_step _ _ _ _ _ _ _ Eg), eval_push by (done || unfold MAX_SCRIPT_ELEMENT_SIZE; lia). cbn [rbind].
  rewrite (loop_step _ _ _ _ OP_EQUALVERIFY [] [OP_CHECKSIG]) by done.
  set (limit := fun st : eval_state =>
    let! _ := fail_if (size (stack st) + size (altstack st) >? MAX_STACK_SIZE) SCRIPT_ERR_STACK_SIZE in Ok st).
  change (eval_op _ _ _ _ OP_EQUALVERIFY _ _ _) with
    (rbind (on_stack (mkState [] [] cond_new script 3 3 d) (op_equal OP_EQUALVERIFY [program; CHash160 hashes key; key; sig])) limit).
  unfold op_equal. destruct (bool_decide _); [|done]. change (rbind (on_stack _ _) _) with (@Ok eval_error _ (mkState [key; sig] [] cond_new script 3 3 d)).
  cbn [rbind]. rewrite (loop_step _ _ _ _ OP_CHECKSIG [] []) by done.
  change (eval_op _ _ _ _ OP_CHECKSIG _ _ _) with
    (rbind (op_checksig hashes flags checker WITNESS_V0 OP_CHECKSIG (mkState [key; sig] [] cond_new script 4 4 d)) limit).
  cbn [op_checksig stack]. unfold EvalChecksig. cbn [pbegincodehash].
  by destruct (EvalChecksigPreTapscript _ _ _ _ _ _ _) as [[]|].
Qed.

Lemma checksig_true sig key code :
  EvalChecksigPreTapscript hashes flags checker WITNESS_V0 sig key code = Ok true ↔
  CheckSignatureEncoding hashes flags sig = Ok tt ∧ CheckPubKeyEncoding flags key WITNESS_V0 = Ok tt ∧
  CheckECDSASignature checker sig key code WITNESS_V0 = Ok true.
Proof.
  unfold EvalChecksigPreTapscript. change (assert _) with (@Ok eval_error unit tt).
  change (drop_signature _ _ code sig) with (@Ok eval_error _ code). cbn [rbind]. split.
  - intros ([] & H1 & ([] & H2 & (ok & H3 & ([] & H4 & [= ->])%rbind_ok)%rbind_ok)%rbind_ok)%rbind_ok. done.
  - by intros (-> & -> & ->).
Qed.

Lemma execute_p2wpkh sig key program :
  size program = 20 →
  ExecuteWitnessScript hashes flags checker [sig; key] (p2wpkh_script program) WITNESS_V0 execdata_empty = Ok tt ↔
  (size sig <= MAX_SCRIPT_ELEMENT_SIZE ∧ size key <= MAX_SCRIPT_ELEMENT_SIZE) ∧ CHash160 hashes key = program ∧
  EvalChecksigPreTapscript hashes flags checker WITNESS_V0 sig key (p2wpkh_script program) = Ok true.
Proof.
  intros Hs. unfold ExecuteWitnessScript. change (bool_decide (WITNESS_V0 = TAPSCRIPT)) with false. cbn [andb fail_if negb require rbind rev app].
  rewrite eval_p2wpkh by done. cbn [existsb].
  destruct (_ || _) eqn:E; cbn [fail_if negb require rbind].
  { split; [done|]. intros [[? ?] _]. lia. }
  destruct (bool_decide _) eqn:Eb; [apply bool_decide_eq_true in Eb|apply bool_decide_eq_false in Eb; split; [done|by intros (_ & ? & _)]].
  destruct (EvalChecksigPreTapscript _ _ _ _ _ _ _) as [[]|] eqn:Ec; cbn [rbind].
  - split; [|done]. intros _. split_and!; [lia|lia|done|done].
  - split; [done|]. by intros (_ & _ & ?).
  - split; [done|]. by intros (_ & _ & ?).
Qed.

Lemma fail_if_ok (c : bool) e u : fail_if c e = Ok u ↔ c = false.
Proof. unfold fail_if. rewrite require_ok. by destruct c. Qed.

Lemma p2wpkh_iff program witness :
  flag flags SCRIPT_VERIFY_WITNESS = true → flag flags SCRIPT_VERIFY_P2SH = true → size program = 20 →
  VerifyScript hashes lib flags checker [] (program_script 0 program) witness = Ok tt ↔
  CastToBool program = true ∧ ∃ sig key, witness = [sig; key] ∧
  (size sig <= MAX_SCRIPT_ELEMENT_SIZE ∧ size key <= MAX_SCRIPT_ELEMENT_SIZE) ∧ CHash160 hashes key = program ∧
  CheckSignatureEncoding hashes flags sig = Ok tt ∧ CheckPubKeyEncoding flags key WITNESS_V0 = Ok tt ∧
  CheckECDSASignature checker sig key (p2wpkh_script program) WITNESS_V0 = Ok true.
Proof.
  intros Hw Hp Hs. rewrite VerifyScript_program by (done || lia). unfold VerifyWitnessProgram, verify_v0.
  change (0 =? 0) with true. rewrite Hs. change (20 =? WITNESS_V0_SCRIPTHASH_SIZE) with false.
  change (20 =? WITNESS_V0_KEYHASH_SIZE) with true. setoid_rewrite <- checksig_true. split.
  - intros ([] & Hc%fail_if_ok & ([] & Hl%fail_if_ok & H)%rbind_ok)%rbind_ok. rewrite negb_false_iff in Hc, Hl. split; [done|].
    apply Nat.eqb_eq in Hl. destruct witness as [|sig [|key [|? ?]]]; try done. exists sig, key. split; [done|].
    by apply execute_p2wpkh in H.
  - intros (-> & sig & key & -> & H). cbn [negb fail_if require rbind length Nat.eqb]. by apply execute_p2wpkh.
Qed.
End Programs.

(** ** Hybrid programs *)

Section Hybrid.
Context (hashes : script_hashes) (lib : sig_lib) (flags : Z).
Context (txTo : CTransaction) (nIn : nat) (amount : Z) (txdata : option PrecomputedTransactionData).
Abbreviation tx_checker := (TransactionSignatureChecker hashes lib txTo nIn amount txdata).

(** Both signatures are good for this input, and the keys are the committed ones. *)
Record hybrid_valid (program ecdsa_sig ecdsa_pub mldsa_sig mldsa_pub : valtype) : Prop := {
  hv_sizes : size ecdsa_pub = 33 ∧ size mldsa_pub = 1312;
  hv_commitment : shake256 lib 32 (ecdsa_pub ++ mldsa_pub) = program;
  hv_signatures : ∃ sighash sig,
    SignatureHash hashes (program_script 2 program) txTo nIn SIGHASH_ALL amount WITNESS_V0 txdata = Ok sighash ∧
    ecdsa_sig = sig ++ [SIGHASH_ALL] ∧ CPubKey ecdsa_pub = Some ecdsa_pub ∧
    ecdsa_verify lib ecdsa_pub sighash sig = true ∧ mldsa_verify_ctx lib mldsa_sig sighash CTX mldsa_pub = true;
}.

Lemma check_hybrid_iff program ecdsa_sig ecdsa_pub mldsa_sig mldsa_pub :
  size program = 32 → 0 <= amount →
  check_hybrid hashes lib txTo nIn amount txdata ecdsa_sig ecdsa_pub mldsa_sig mldsa_pub program = Ok true ↔
  hybrid_valid program ecdsa_sig ecdsa_pub mldsa_sig mldsa_pub.
Proof.
  intros Hs Ha. unfold check_hybrid. rewrite Hs.
  assert (push_vec (push_opcode [] OP_2) program = program_script 2 program) as ->
    by (unfold push_vec, push_opcode, program_script; by rewrite Hs).
  replace (amount <? 0) with false by lia. change (assert _) with (@Ok eval_error unit tt). cbn [negb rbind Z.eqb Pos.eqb]. split.
  - destruct (size ecdsa_pub =? 33) eqn:E1; [|done]. destruct (size mldsa_pub =? 1312) eqn:E2; [|done]. to_prop.
    destruct (bool_decide _) eqn:E3; [apply bool_decide_eq_true in E3|done]. cbn [negb].
    intros (h & Hh & H)%rbind_ok. destruct (_ || _) eqn:E4; [done|]. apply orb_false_iff in E4 as [E4 E5].
    unfold CPubKey in H. destruct (_ && _) eqn:Ek; [|done].
    destruct (ecdsa_verify _ _ _ _) eqn:Ee; [|done]. injection H as H.
    destruct (exists_last_or_nil ecdsa_sig) as [->|(sig & t & ->)]; [done|]. rewrite List.last_last in E5. rewrite removelast_last in Ee.
    rewrite negb_false_iff, Z.eqb_eq in E5. subst t. split; [done|done|]. exists h, sig. split_and!; try done. unfold CPubKey. by rewrite Ek.
  - intros [[-> ->] Hc (h & sig & Hh & -> & Hk & He & Hm)]. rewrite Hh, Hk, bool_decide_eq_true_2 by done. cbn [negb rbind].
    rewrite List.last_last, removelast_last, Z.eqb_refl, length_app, Nat.add_comm. cbn [length Nat.add Nat.eqb orb negb].
    by rewrite He, Hm.
Qed.

Lemma hybrid_iff program witness :
  flag flags SCRIPT_VERIFY_WITNESS = true → flag flags SCRIPT_VERIFY_P2SH = true → size program = 32 → 0 <= amount →
  VerifyScript hashes lib flags tx_checker [] (program_script 2 program) witness = Ok tt ↔
  CastToBool program = true ∧ ∃ ecdsa_sig ecdsa_pub mldsa_sig mldsa_pub,
    witness = [ecdsa_sig; ecdsa_pub; mldsa_sig; mldsa_pub] ∧ hybrid_valid program ecdsa_sig ecdsa_pub mldsa_sig mldsa_pub.
Proof.
  intros Hw Hp Hs Ha. rewrite VerifyScript_program by (done || lia). unfold VerifyWitnessProgram.
  rewrite Hs. change (2 =? 0) with false. change (2 =? 1) with false. cbn [andb]. change ((2 =? 2) && (32 =? 32) && negb false) with true.
  unfold verify_hybrid. split.
  - intros ([] & Hc%fail_if_ok & H)%rbind_ok. rewrite negb_false_iff in Hc. split; [done|].
    destruct witness as [|es [|ep [|ms [|mp [|? ?]]]]]; try done. exists es, ep, ms, mp. split; [done|].
    apply rbind_ok in H as (ok & Hk & Hf%fail_if_ok). rewrite negb_false_iff in Hf. subst ok. by apply check_hybrid_iff in Hk.
  - intros (-> & es & ep & ms & mp & -> & Hv). cbn [negb fail_if require rbind CheckHybridSignature TransactionSignatureChecker].
    apply check_hybrid_iff in Hv; [|done|done]. by rewrite Hv.
Qed.
End Hybrid.
End ProgramFacts.

(** * Properties *)
Module VerifyProps.
Import VerifySafety ProgramFacts.

(** C16: Checking an input never fails an assertion: for every input of a
    transaction whose spent outputs are known, with non-negative amounts, and for
    every admissible set of flags, [CScriptCheck] ends with success or a script
    error.  None of the assertions of the interpreter fires, among them that the
    stack copied for pay-to-script-hash is not empty, that the data for Taproot
    signatures was computed, and that the execution data of a tapscript is
    initialised; and every loop ends. *)
Theorem script_check_never_aborts (hashes : script_hashes) (lib : sig_lib) (tx : CTransaction)
    (spent_outputs : list CTxOut) (nIn : nat) (flags : Z) :
  hashes_ok hashes → input_ok tx spent_outputs nIn → flags_ok flags →
  CScriptCheck hashes lib tx spent_outputs nIn flags = Ok tt ∨
  ∃ e, CScriptCheck hashes lib tx spent_outputs nIn flags = Err (Fail e).
Proof.
  intros Hh Hi Hf. pose proof (CScriptCheck_safe hashes lib tx spent_outputs nIn flags Hh Hi Hf) as H.
  destruct (CScriptCheck _ _ _ _ _ _) as [[]|[e| |]]; [by left|right; by exists e|done|done].
Qed.

(** Pay to witness key hash: an output with a version 0 program of 20 bytes,
    spent with an empty [scriptSig], verifies exactly when the witness is a
    signature and a key, the key hashes to the program, both pass the encoding
    rules of the flags in force and the checker accepts the signature for the
    implied pay-to-key-hash script (and the program is not zero as a number,
    which the output script leaves on the stack). *)
Theorem p2wpkh_spend (hashes : script_hashes) (lib : sig_lib) (flags : Z) (checker : BaseSignatureChecker)
    (program : valtype) (witness : CScriptWitness) :
  flag flags SCRIPT_VERIFY_WITNESS = true → flag flags SCRIPT_VERIFY_P2SH = true → size program = 20 →
  VerifyScript hashes lib flags checker [] (program_script 0 program) witness = Ok tt ↔
  CastToBool program = true ∧ ∃ sig key, witness = [sig; key] ∧
  (size sig <= MAX_SCRIPT_ELEMENT_SIZE ∧ size key <= MAX_SCRIPT_ELEMENT_SIZE) ∧ CHash160 hashes key = program ∧
  CheckSignatureEncoding hashes flags sig = Ok tt ∧ CheckPubKeyEncoding flags key WITNESS_V0 = Ok tt ∧
  CheckECDSASignature checker sig key (p2wpkh_script program) WITNESS_V0 = Ok true.
Proof. apply p2wpkh_iff. Qed.

(** C12: Hybrid outputs need both signatures: with the P2SH and witness flags on,
    which is how blocks are verified, an output with a version 2 program of 32
    bytes and a non-negative amount, spent with an empty [scriptSig], verifies
    exactly when the program is true as a stack element (neither zero nor
    negative zero, which [VerifyScript] checks before it looks at the witness),
    the witness is an ECDSA signature and key and an ML-DSA-44 signature and
    key, the program is the SHAKE-256 commitment to the two keys, and both
    signatures verify for the [SIGHASH_ALL] hash of this input, with the program
    as script code. *)
Theorem hybrid_spend (hashes : script_hashes) (lib : sig_lib) (flags : Z) (tx : CTransaction) (nIn : nat) (amount : Z)
    (txdata : option PrecomputedTransactionData) (program : valtype) (witness : CScriptWitness) :
  flag flags SCRIPT_VERIFY_WITNESS = true → flag flags SCRIPT_VERIFY_P2SH = true → size program = 32 → 0 <= amount →
  VerifyScript hashes lib flags (TransactionSignatureChecker hashes lib tx nIn amount txdata) []
    (program_script 2 program) witness = Ok tt ↔
  CastToBool program = true ∧ ∃ ecdsa_sig ecdsa_pub mldsa_sig mldsa_pub,
    witness = [ecdsa_sig; ecdsa_pub; mldsa_sig; mldsa_pub] ∧
    hybrid_valid hashes lib tx nIn amount txdata program ecdsa_sig ecdsa_pub mldsa_sig mldsa_pub.
Proof. apply hybrid_iff. Qed.

(** Libraries for the examples: constant hashes, and signatures that are always good. *)
Definition demo_hashes : script_hashes :=
  mkHashes (fun _ => replicate 20 1) (fun _ => replicate 32 1) (fun _ => replicate 20 1) (fun _ => true).
Definition demo_lib : sig_lib :=
  mkSigLib (fun _ _ _ => true) (fun _ _ _ => true) (fun _ _ _ _ => true) (fun n _ => replicate n 1) (fun _ _ _ _ => true).
Definition demo_tx (w : CScriptWitness) : CTransaction :=
  mkTx [mkTxIn (mkOutPoint (replicate 32 7) 1) [] 5 w] [mkTxOut 1000 [0x51]] 2 0.
Definition demo_flags : Z := Z.lor SCRIPT_VERIFY_P2SH SCRIPT_VERIFY_WITNESS.

Definition demo_checker (w : CScriptWitness) : BaseSignatureChecker :=
  TransactionSignatureChecker demo_hashes demo_lib (demo_tx w) 0 2000 None.
Definition demo_p2wpkh : CScriptWitness := [[0x30; 1]; 2 :: replicate 32 9].
Definition demo_hybrid : CScriptWitness := [[0x30; 1]; 2 :: replicate 32 9; [5]; replicate 1312 3].

Lemma script_check_never_aborts_witness :
  CScriptCheck demo_hashes demo_lib (demo_tx demo_hybrid) [mkTxOut 2000 (program_script 2 (replicate 32 1))] 0 demo_flags = Ok tt ∨
  ∃ e, CScriptCheck demo_hashes demo_lib (demo_tx demo_hybrid) [mkTxOut 2000 (program_script 2 (replicate 32 1))] 0 demo_flags = Err (Fail e).
Proof.
  assert (∀ l, forallb is_byte l = true → bytes_ok l) as Hb.
  { intros l H. rewrite forallb_forall in H. apply List.Forall_forall. intros b Hin. specialize (H b Hin).
    unfold is_byte in H. unfold in_u. lia. }
  apply script_check_never_aborts.
  - intros v. split_and!; (reflexivity || apply Forall_replicate; unfold in_u; lia).
  - split; [cbn; lia|reflexivity|cbn; lia|apply Hb; reflexivity|constructor|].
    split; [|vm_compute; reflexivity]. cbn.
    repeat (apply list.Forall_cons; split; [split; [apply Hb; vm_compute; reflexivity|vm_compute; reflexivity]|]). constructor.
  - split; vm_compute; congruence.
Defined.

Lemma p2wpkh_spend_witness :
  VerifyScript demo_hashes demo_lib demo_flags (demo_checker demo_p2wpkh) []
    (program_script 0 (replicate 20 1)) demo_p2wpkh = Ok tt.
Proof.
  apply p2wpkh_spend; [reflexivity|reflexivity|reflexivity|]. split; [reflexivity|].
  exists [0x30; 1], (2 :: replicate 32 9). split_and!; vm_compute; (reflexivity || discriminate).
Defined.

Lemma hybrid_spend_witness :
  VerifyScript demo_hashes demo_lib demo_flags (demo_checker demo_hybrid) []
    (program_script 2 (replicate 32 1)) demo_hybrid = Ok tt.
Proof.
  apply hybrid_spend; [reflexivity|reflexivity|reflexivity|lia|]. split; [reflexivity|].
  do 4 eexists. split; [reflexivity|]. split; [split; reflexivity|reflexivity|].
  eexists _, [0x30]. split_and!; reflexivity.
Defined.

End VerifyProps.
