(* ===== verification/Block.v ===== *)
(** Blocks: [src/primitives/block.h], [src/primitives/block.cpp], the X16RV2
    header hash of [src/hash.h], and the weight and witness commitment helpers
    of [src/consensus/validation.h].

    The sixteen hash functions and Tiger of the [sph] library are fields of an
    argument [lib]; what [*_close] writes is the digest. *)
From Stdlib Require Import ZArith Lia.
From S2P Require Import Prelude Arith256 Chain Serialize Script Transaction.
Import Serialize Script Transaction Chain.
Local Open Scope bb_scope.

Module X16R.

Record sph_lib := mkSph {
  sph_blake512 : list Z → list Z;
  sph_bmw512 : list Z → list Z;
  sph_groestl512 : list Z → list Z;
  sph_jh512 : list Z → list Z;
  sph_keccak512 : list Z → list Z;
  sph_skein512 : list Z → list Z;
  sph_luffa512 : list Z → list Z;
  sph_cubehash512 : list Z → list Z;
  sph_shavite512 : list Z → list Z;
  sph_simd512 : list Z → list Z;
  sph_echo512 : list Z → list Z;
  sph_hamsi512 : list Z → list Z;
  sph_fugue512 : list Z → list Z;
  sph_shabal512 : list Z → list Z;
  sph_whirlpool : list Z → list Z;
  sph_sha512 : list Z → list Z;
  sph_tiger : list Z → list Z;
}.

Definition GetHashSelection (PrevBlockHash : uint256) (index : Z) : Z :=
  let START_OF_LAST_16_NIBBLES_OF_HASH := 48 in
  let nibble := 63 - (START_OF_LAST_16_NIBBLES_OF_HASH + index) in
  let d := default 0 (PrevBlockHash !! Z.to_nat (Z.quot nibble 2)) in
  if Z.rem nibble 2 =? 1 then Z.shiftr d 4 else Z.land d 0x0F.

(** A digest written at the start of the 64-byte buffer [dst]. *)
Definition close_into (dst digest : list Z) : list Z := digest ++ drop (length digest) dst.

(** One round of the loop on a zero-initialised [hash\[i\]]. *)
Definition round (lib : sph_lib) (hashSelection : Z) (toHash : list Z) : list Z :=
  let blank := replicate 64 0 in
  let via_tiger f := let h := close_into blank (sph_tiger lib toHash) in close_into h (f h) in
  match hashSelection with
  | 0 => close_into blank (sph_blake512 lib toHash)
  | 1 => close_into blank (sph_bmw512 lib toHash)
  | 2 => close_into blank (sph_groestl512 lib toHash)
  | 3 => close_into blank (sph_jh512 lib toHash)
  | 4 => via_tiger (sph_keccak512 lib)
  | 5 => close_into blank (sph_skein512 lib toHash)
  | 6 => via_tiger (sph_luffa512 lib)
  | 7 => close_into blank (sph_cubehash512 lib toHash)
  | 8 => close_into blank (sph_shavite512 lib toHash)
  | 9 => close_into blank (sph_simd512 lib toHash)
  | 10 => close_into blank (sph_echo512 lib toHash)
  | 11 => close_into blank (sph_hamsi512 lib toHash)
  | 12 => close_into blank (sph_fugue512 lib toHash)
  | 13 => close_into blank (sph_shabal512 lib toHash)
  | 14 => close_into blank (sph_whirlpool lib toHash)
  | 15 => via_tiger (sph_sha512 lib)
  | _ => blank
  end.

(** Rounds [i .. 15]; [toHash] is the input, then [hash\[i-1\]]. *)
Fixpoint x16_loop (lib : sph_lib) (PrevBlockHash : uint256) (n : nat) (i : Z) (toHash : list Z) : list Z :=
  match n with
  | O => toHash
  | S n => x16_loop lib PrevBlockHash n (i + 1) (round lib (GetHashSelection PrevBlockHash i) toHash)
  end.

Definition trim256 (h : list Z) : uint256 := take 32 h.

Definition HashX16RV2 (lib : sph_lib) (data : list Z) (PrevBlockHash : uint256) : uint256 :=
  trim256 (x16_loop lib PrevBlockHash 16 0 data).

End X16R.

Module Block.

Definition ser_header (h : CBlockHeader) : list Z :=
  ser_signed 4 (h_nVersion h) ++ ser_uint256 (h_hashPrevBlock h) ++ ser_uint256 (h_hashMerkleRoot h) ++
  ser_writedata32 (h_nTime h) ++ ser_writedata32 (h_nBits h) ++ ser_writedata32 (h_nNonce h).

Definition unser_header : parser CBlockHeader := fun s =>
  let! (v, s) := unser_signed 4 s in
  let! (prev, s) := unser_uint256 s in
  let! (root, s) := unser_uint256 s in
  let! (t, s) := ser_readdata32 s in
  let! (bits, s) := ser_readdata32 s in
  let! (nonce, s) := ser_readdata32 s in
  Ok (mkHeader v prev root t bits nonce, s).

(** The bytes from [&nVersion] to the end of [nNonce]: the members have no
    padding between them, and the host is little-endian. *)
Definition header_memory (h : CBlockHeader) : list Z :=
  le_encode 4 (h_nVersion h) ++ h_hashPrevBlock h ++ h_hashMerkleRoot h ++
  le_encode 4 (h_nTime h) ++ le_encode 4 (h_nBits h) ++ le_encode 4 (h_nNonce h).

Definition header_GetHash (lib : X16R.sph_lib) (h : CBlockHeader) : uint256 :=
  X16R.HashX16RV2 lib (header_memory h) (h_hashPrevBlock h).

(** A block, with the memory-only flags that cache the outcome of checks. *)
Record CBlock := mkBlock {
  header : CBlockHeader;
  vtx : list CTransaction;
  fChecked : bool;
  m_checked_witness_commitment : bool;
  m_checked_merkle_root : bool;
}.

Definition set_vtx (b : CBlock) (v : list CTransaction) : CBlock :=
  mkBlock (header b) v (fChecked b) (m_checked_witness_commitment b) (m_checked_merkle_root b).

Definition ser_block (allow_witness : bool) (b : CBlock) : list Z :=
  ser_header (header b) ++ ser_vector (SerializeTransaction allow_witness) (vtx b).

Definition unser_block (allow_witness : bool) : parser CBlock := fun s =>
  let! (h, s) := unser_header s in
  let! (v, s) := unser_vector (UnserializeTransaction allow_witness) s in
  Ok (mkBlock h v false false false, s).

Definition block_GetSerializeSize (allow_witness : bool) (b : CBlock) : Z := size (ser_block allow_witness b).

(** [int32_t] and [int64_t] results. *)
Definition GetTransactionWeight (tx : CTransaction) : Z :=
  i32 (GetSerializeSize false tx * (WITNESS_SCALE_FACTOR - 1) + GetSerializeSize true tx).
Definition GetBlockWeight (b : CBlock) : Z :=
  i64 (block_GetSerializeSize false b * (WITNESS_SCALE_FACTOR - 1) + block_GetSerializeSize true b).

(** ** The witness commitment *)

Definition NO_WITNESS_COMMITMENT : Z := -1.
Definition MINIMUM_WITNESS_COMMITMENT : Z := 38.

Definition is_commitment (o : CTxOut) : bool :=
  let spk := scriptPubKey o in
  (size spk >=? MINIMUM_WITNESS_COMMITMENT) && (byte_at spk 0 =? OP_RETURN) && (byte_at spk 1 =? 0x24) &&
  (byte_at spk 2 =? 0xaa) && (byte_at spk 3 =? 0x21) && (byte_at spk 4 =? 0xa9) && (byte_at spk 5 =? 0xed).

Fixpoint commitment_loop (o : Z) (l : list CTxOut) (commitpos : Z) : Z :=
  match l with
  | [] => commitpos
  | vout :: l => commitment_loop (o + 1) l (if is_commitment vout then o else commitpos)
  end.

Definition GetWitnessCommitmentIndex (b : CBlock) : Z :=
  match vtx b with
  | [] => NO_WITNESS_COMMITMENT
  | tx :: _ => commitment_loop 0 (vout tx) NO_WITNESS_COMMITMENT
  end.

End Block.

Module BlockFacts.
Import X16R Block SerializeFacts TransactionFacts.

(** ** Serialization *)

Definition header_ok (h : CBlockHeader) : Prop :=
  in_s 32 (h_nVersion h) ∧ hash_ok (h_hashPrevBlock h) ∧ hash_ok (h_hashMerkleRoot h) ∧
  in_u 32 (h_nTime h) ∧ in_u 32 (h_nBits h) ∧ in_u 32 (h_nNonce h).

Lemma codec_header : codec ser_header unser_header header_ok.
Proof.
  split.
  - intros h (? & [? ?] & [? ?] & ? & ? & ?). unfold ser_header. rewrite !bytes_ok_app.
    split_and!; done || apply le_encode_bytes.
  - intros [v p r t b n] s (? & ? & ? & ? & ? & ?). unfold unser_header, ser_header.
    cbn [h_nVersion h_hashPrevBlock h_hashMerkleRoot h_nTime h_nBits h_nNonce] in *.
    rewrite <- !app_assoc, (codec_read codec_i32) by done. cbn [rbind].
    rewrite (codec_read codec_hash) by done. cbn [rbind]. rewrite (codec_read codec_hash) by done. cbn [rbind].
    do 2 (rewrite (codec_read codec_u32) by done; cbn [rbind]). by rewrite (codec_read codec_u32).
  - intros b h s Hb E. unfold unser_header in E.
    inv_read codec_i32 E Hb. inv_read codec_hash E Hb. inv_read codec_hash E Hb.
    inv_read codec_u32 E Hb. inv_read codec_u32 E Hb. inv_read codec_u32 E Hb.
    injection E as <- <-. unfold ser_header.
    cbn [h_nVersion h_hashPrevBlock h_hashMerkleRoot h_nTime h_nBits h_nNonce].
    split; [done|]. by rewrite <- !app_assoc.
Qed.

(** A block as it is read: no check has been cached. *)
Definition block_ok (b : CBlock) : Prop :=
  header_ok (header b) ∧ vec_ok tx_wire_ok (vtx b) ∧
  fChecked b = false ∧ m_checked_witness_commitment b = false ∧ m_checked_merkle_root b = false.

Definition codec_vtx := codec_vector _ _ _ codec_tx.

Lemma codec_block : codec (ser_block true) (unser_block true) block_ok.
Proof.
  split.
  - intros b (Hh & Hv & _). unfold ser_block. rewrite bytes_ok_app.
    split; [by apply (codec_bytes codec_header)|by apply (codec_bytes codec_vtx)].
  - intros [h v f1 f2 f3] s (Hh & Hv & ? & ? & ?).
    cbn [header vtx fChecked m_checked_witness_commitment m_checked_merkle_root] in *. subst. unfold unser_block, ser_block. cbn [header vtx].
    rewrite <- app_assoc, (codec_read codec_header) by done. cbn [rbind].
    by rewrite (codec_read codec_vtx).
  - intros b blk s Hb E. unfold unser_block in E. inv_read codec_header E Hb. inv_read codec_vtx E Hb.
    injection E as <- <-. unfold ser_block. cbn [header vtx]. split; [done|]. by rewrite <- app_assoc.
Qed.

Lemma le_encode_wrap n z : le_encode n (wrap (8 * Z.of_nat n) z) = le_encode n z.
Proof.
  apply (digits_val_inj 8); [lia|by rewrite !le_encode_length|apply le_encode_bytes..|].
  unfold le_encode, wrap. rewrite !digits_val_of by lia. apply Z.mod_mod. lia.
Qed.

(** The hashed memory is the serialized header. *)
Lemma header_memory_ser h : header_memory h = ser_header h.
Proof.
  unfold header_memory, ser_header, ser_signed, ser_writedata. by rewrite !(le_encode_wrap 4).
Qed.

(** ** X16RV2 *)

(** The hexadecimal digits of a hash as displayed (most significant first). *)
Definition hex_digits (h : uint256) : list Z := flat_map (fun b => [b / 16; b mod 16]) (rev h).

Lemma hex_digits_cons b h : hex_digits (b :: h) = hex_digits h ++ [b / 16; b mod 16].
Proof. unfold hex_digits. cbn [rev]. by rewrite flat_map_app. Qed.

Lemma hex_digits_length h : length (hex_digits h) = (2 * length h)%nat.
Proof.
  induction h as [|b h IH]; [done|]. rewrite hex_digits_cons, length_app, IH. cbn. lia.
Qed.

Lemma hex_digits_range h : bytes_ok h → Forall (fun k => 0 <= k < 16) (hex_digits h).
Proof.
  induction 1 as [|b h Hb Hh IH]; [constructor|]. rewrite hex_digits_cons.
  apply Forall_app_2; [done|]. unfold in_u in Hb. repeat constructor; zdm.
Qed.

Lemma nibble_high b : Z.shiftr b 4 = b / 16.
Proof. by rewrite Z.shiftr_div_pow2. Qed.
Lemma nibble_low b : Z.land b 0x0F = b mod 16.
Proof. exact (land_ones_mod 4 b ltac:(lia)). Qed.

(** The selections are the last sixteen digits, in order. *)
Lemma selections_hex prev :
  length prev = 32%nat → map (GetHashSelection prev) (seqZ 0 16) = drop 48 (hex_digits prev).
Proof.
  intros Hl. do 8 (destruct prev as [|? prev]; [done|]).
  rewrite !hex_digits_cons, <- !app_assoc, drop_app_length'
    by (rewrite hex_digits_length; cbn in Hl; lia).
  rewrite <- !nibble_low, <- !nibble_high. reflexivity.
Qed.

Lemma x16_loop_foldl lib prev n i data :
  0 <= i →
  x16_loop lib prev n i data =
  foldl (fun d k => round lib k d) data (map (GetHashSelection prev) (seqZ i (Z.of_nat n))).
Proof.
  revert i data. induction n as [|n IH]; intros i data Hi; [done|].
  cbn [x16_loop]. rewrite IH, (seqZ_cons i) by lia. cbn [map foldl].
  by replace (Z.pred (Z.of_nat (S n))) with (Z.of_nat n) by lia.
Qed.

(** Digest sizes of the library: 64 bytes, 24 for Tiger. *)
Definition sph_sizes (lib : sph_lib) : Prop :=
  (∀ d, length (sph_tiger lib d) = 24%nat) ∧
  Forall (fun f => ∀ d : list Z, length (f d : list Z) = 64%nat)
    [sph_blake512 lib; sph_bmw512 lib; sph_groestl512 lib; sph_jh512 lib; sph_keccak512 lib; sph_skein512 lib;
     sph_luffa512 lib; sph_cubehash512 lib; sph_shavite512 lib; sph_simd512 lib; sph_echo512 lib;
     sph_hamsi512 lib; sph_fugue512 lib; sph_shabal512 lib; sph_whirlpool lib; sph_sha512 lib].

Lemma close_into_length dst digest :
  (length digest <= length dst)%nat → length (close_into dst digest) = length dst.
Proof. intros H. unfold close_into. rewrite length_app, length_drop. lia. Qed.

Lemma round_length lib k d : sph_sizes lib → length (round lib k d) = 64%nat.
Proof.
  intros [Ht Hf]. repeat (apply list.Forall_cons in Hf as [? Hf]).
  unfold round. repeat case_match; rewrite ?close_into_length; rewrite ?close_into_length;
    rewrite ?length_replicate, ?Ht; try done; match goal with H : _ |- _ => rewrite H; done end || lia.
Qed.
End BlockFacts.

Module BlockProps.
Import X16R Block SerializeFacts TransactionFacts BlockFacts.

(** The header hash runs the sixteen rounds chosen by the last sixteen
    hexadecimal digits of the previous block's hash as displayed, left to
    right, on the 80 serialized header bytes, and keeps the first 32 bytes of
    the last round; every selection is one of the sixteen algorithms. *)
Theorem x16r_pipeline (lib : sph_lib) (h : CBlockHeader) :
  hash_ok (h_hashPrevBlock h) → sph_sizes lib →
  header_GetHash lib h =
    take 32 (foldl (fun d k => round lib k d) (ser_header h) (drop 48 (hex_digits (h_hashPrevBlock h)))) ∧
  length (drop 48 (hex_digits (h_hashPrevBlock h))) = 16%nat ∧
  Forall (fun k => 0 <= k < 16) (drop 48 (hex_digits (h_hashPrevBlock h))) ∧
  length (header_GetHash lib h) = 32%nat.
Proof.
  intros [Hb Hl] Hs. unfold header_GetHash, HashX16RV2, trim256. rewrite header_memory_ser, x16_loop_foldl by lia.
  change (Z.of_nat 16) with 16. rewrite selections_hex by done. split; [done|].
  assert (length (drop 48 (hex_digits (h_hashPrevBlock h))) = 16%nat) as H16
    by (rewrite length_drop, hex_digits_length, Hl; done).
  split; [done|]. split.
  - apply list.Forall_drop, hex_digits_range. done.
  - destruct (drop 48 _) as [|k l] using rev_ind; [done|]. rewrite foldl_snoc, length_take, round_length by done. lia.
Qed.

(** A library with digests of the right sizes. *)
Definition demo_sph : sph_lib :=
  let f k (d : list Z) := replicate 64 ((k + foldl Z.add 0 d) mod 256) in
  mkSph (f 0) (f 1) (f 2) (f 3) (f 4) (f 5) (f 6) (f 7) (f 8) (f 9) (f 10) (f 11) (f 12) (f 13) (f 14) (f 15)
    (fun d => replicate 24 (foldl Z.add 0 d mod 256)).

Definition demo_header : CBlockHeader :=
  mkHeader 1 (digits_of 8 32 0xfedcba9876543210) (replicate 32 3) 1778351316 0x1f00ffff 19717.

Lemma x16r_pipeline_witness :
  header_GetHash demo_sph demo_header =
    take 32 (foldl (fun d k => round demo_sph k d) (ser_header demo_header)
               [15; 14; 13; 12; 11; 10; 9; 8; 7; 6; 5; 4; 3; 2; 1; 0]).
Proof.
  apply (x16r_pipeline demo_sph demo_header).
  - split; [apply digits_of_range; lia|reflexivity].
  - split; [intros d; apply length_replicate|]. repeat constructor.
Defined.

(** The block format is a bijection between blocks in range, as read with
    no cached check, and the byte strings the reader accepts; the weight of a
    block is three times its size without witnesses plus its full size. *)
Theorem block_wire_format :
  codec (ser_block true) (unser_block true) block_ok ∧
  (∀ b, size (ser_block true b) < 2 ^ 60 → size (ser_block false b) < 2 ^ 60 →
     GetBlockWeight b = 3 * size (ser_block false b) + size (ser_block true b)).
Proof.
  split; [apply codec_block|]. intros b H1 H2. unfold GetBlockWeight, block_GetSerializeSize, WITNESS_SCALE_FACTOR.
  rewrite swrap_small; [lia|lia|]. unfold in_s, size in *. lia.
Qed.
End BlockProps.
