(* ===== verification/Coins.v ===== *)
(** The unspent output set: [src/coins.h], [src/coins.cpp] and
    [CCoinsViewDB] of [src/txdb.cpp].

    [CCoinsView] is a class of operations, [CCoinsViewLaws] what a view
    promises to a cache stacked on it: an abstract map from outpoints to
    unspent coins that lookups read and [BatchWrite] updates.
    [CCoinsViewCache] over any view that keeps the promise is again such a
    view; [CCoinsViewDB] is the bottom of the stack.

    Methods declared [const] that fill the cache return the changed state.  A
    script too long for its inline buffer is taken to be allocated at its size.
    The key-value store below [CCoinsViewDB] holds coins rather than their
    bytes. *)
From Stdlib Require Import ZArith Lia.
From stdpp Require Import gmap.
From S2P Require Import Prelude Serialize Script Transaction.
Import Script Transaction.
Local Open Scope bb_scope.

Module Coins.

Record Coin := mkCoin {
  out : CTxOut;
  fCoinBase : bool;
  coin_nHeight : Z;
}.

#[export] Instance Coin_eq_dec : EqDecision Coin.
Proof. solve_decision. Defined.

(** [Coin(CTxOut, int, bool)]: [nHeight] is a 31-bit field. *)
Definition Coin_of (o : CTxOut) (nHeightIn : Z) (fCoinBaseIn : bool) : Coin :=
  mkCoin o fCoinBaseIn (wrap 31 nHeightIn).

(** [Coin()], [Coin::Clear] and [coinEmpty]. *)
Definition coinEmpty : Coin := mkCoin txout_null false 0.

Definition IsSpent (c : Coin) : bool := txout_IsNull (out c).

(** [memusage::MallocUsage] where pointers have 8 bytes. *)
Definition MallocUsage (alloc : Z) : Z :=
  if alloc =? 0 then 0 else u64 (Z.shiftl (Z.shiftr (u64 (alloc + 31)) 4) 4).

(** [CScript] is a [prevector] with room for 28 bytes inside the object; a longer
    one that was read from a stream or copied has the capacity of its size. *)
Definition allocated_memory (script : CScript) : Z := if size script <=? 28 then 0 else size script.

Definition DynamicMemoryUsage (c : Coin) : Z := MallocUsage (allocated_memory (scriptPubKey (out c))).

Record CCoinsCacheEntry := mkEntry { coin : Coin; flags : Z }.

Definition DIRTY : Z := Z.shiftl 1 0.
Definition FRESH : Z := Z.shiftl 1 1.

Definition is_DIRTY (e : CCoinsCacheEntry) : bool := negb (Z.land (flags e) DIRTY =? 0).
Definition is_FRESH (e : CCoinsCacheEntry) : bool := negb (Z.land (flags e) FRESH =? 0).

Abbreviation CCoinsMap := (gmap COutPoint CCoinsCacheEntry).

Inductive coins_error : Type :=
| AssertFailed
| LogicError.

(** ** Views *)

(** [GetCoin] returns the coin when it returns true. [BatchWrite] returns its
    verdict and the map it was handed, which it may empty. *)
Class CCoinsView (B : Type) := {
  view_GetCoin : B → COutPoint → option Coin * B;
  view_HaveCoin : B → COutPoint → bool * B;
  view_GetBestBlock : B → uint256 * B;
  view_BatchWrite : B → CCoinsMap → uint256 → bool → result coins_error (bool * CCoinsMap * B);
}.

Section Cache.
Context {B : Type} `{!CCoinsView B}.

Record CCoinsViewCache := mkCache {
  base : B;
  hashBlock : uint256;
  cacheCoins : CCoinsMap;
  cachedCoinsUsage : Z;  (* [size_t] *)
}.

Definition with_base (c : CCoinsViewCache) (b : B) : CCoinsViewCache :=
  mkCache b (hashBlock c) (cacheCoins c) (cachedCoinsUsage c).
Definition with_coins (c : CCoinsViewCache) (m : CCoinsMap) (usage : Z) : CCoinsViewCache :=
  mkCache (base c) (hashBlock c) m usage.

Definition FetchCoin (c : CCoinsViewCache) (outpoint : COutPoint)
    : option CCoinsCacheEntry * CCoinsViewCache :=
  match cacheCoins c !! outpoint with
  | Some e => (Some e, c)
  | None =>
      let '(r, b) := view_GetCoin (base c) outpoint in
      let c := with_base c b in
      match r with
      | None => (None, c)
      | Some tmp =>
          let ret := mkEntry tmp (if IsSpent tmp then FRESH else 0) in
          (Some ret, with_coins c (<[outpoint := ret]> (cacheCoins c))
                       (u64 (cachedCoinsUsage c + DynamicMemoryUsage tmp)))
      end
  end.

Definition GetCoin (c : CCoinsViewCache) (outpoint : COutPoint) : option Coin * CCoinsViewCache :=
  match FetchCoin c outpoint with
  | (Some e, c) => (if IsSpent (coin e) then None else Some (coin e), c)
  | (None, c) => (None, c)
  end.

Definition AddCoin (c : CCoinsViewCache) (outpoint : COutPoint) (newcoin : Coin) (possible_overwrite : bool)
    : result coins_error CCoinsViewCache :=
  let! _ := require (negb (IsSpent newcoin)) AssertFailed in
  if IsUnspendable (scriptPubKey (out newcoin)) then Ok c
  else
    (* emplace: a default entry unless there is one *)
    let it := default (mkEntry coinEmpty 0) (cacheCoins c !! outpoint) in
    let inserted := bool_decide (cacheCoins c !! outpoint = None) in
    let usage := if negb inserted then u64 (cachedCoinsUsage c - DynamicMemoryUsage (coin it))
                 else cachedCoinsUsage c in
    let! fresh :=
      if negb possible_overwrite then
        let! _ := require (IsSpent (coin it)) LogicError in
        Ok (negb (is_DIRTY it))
      else Ok false in
    let it := mkEntry newcoin (Z.lor (flags it) (Z.lor DIRTY (if fresh then FRESH else 0))) in
    Ok (with_coins c (<[outpoint := it]> (cacheCoins c)) (u64 (usage + DynamicMemoryUsage newcoin))).

(** The usage is counted even when [emplace] finds an entry and does nothing. *)
Definition EmplaceCoinInternalDANGER (c : CCoinsViewCache) (outpoint : COutPoint) (newcoin : Coin)
    : CCoinsViewCache :=
  let usage := u64 (cachedCoinsUsage c + DynamicMemoryUsage newcoin) in
  with_coins c (match cacheCoins c !! outpoint with
                | Some _ => cacheCoins c
                | None => <[outpoint := mkEntry newcoin DIRTY]> (cacheCoins c)
                end) usage.

(** The verdict, and the coin stored in [*moveout] when it is true. *)
Definition SpendCoin (c : CCoinsViewCache) (outpoint : COutPoint) : option Coin * CCoinsViewCache :=
  match FetchCoin c outpoint with
  | (None, c) => (None, c)
  | (Some e, c) =>
      let usage := u64 (cachedCoinsUsage c - DynamicMemoryUsage (coin e)) in
      (Some (coin e),
       if is_FRESH e then with_coins c (delete outpoint (cacheCoins c)) usage
       else with_coins c (<[outpoint := mkEntry coinEmpty (Z.lor (flags e) DIRTY)]> (cacheCoins c)) usage)
  end.

Definition AccessCoin (c : CCoinsViewCache) (outpoint : COutPoint) : Coin * CCoinsViewCache :=
  match FetchCoin c outpoint with
  | (None, c) => (coinEmpty, c)
  | (Some e, c) => (coin e, c)
  end.

Definition HaveCoin (c : CCoinsViewCache) (outpoint : COutPoint) : bool * CCoinsViewCache :=
  match FetchCoin c outpoint with
  | (None, c) => (false, c)
  | (Some e, c) => (negb (IsSpent (coin e)), c)
  end.

Definition HaveCoinInCache (c : CCoinsViewCache) (outpoint : COutPoint) : bool :=
  match cacheCoins c !! outpoint with
  | None => false
  | Some e => negb (IsSpent (coin e))
  end.

Definition GetBestBlock (c : CCoinsViewCache) : uint256 * CCoinsViewCache :=
  if IsNull256 (hashBlock c) then
    let '(h, b) := view_GetBestBlock (base c) in
    (h, mkCache b h (cacheCoins c) (cachedCoinsUsage c))
  else (hashBlock c, c).

Definition SetBestBlock (c : CCoinsViewCache) (hashBlockIn : uint256) : CCoinsViewCache :=
  mkCache (base c) hashBlockIn (cacheCoins c) (cachedCoinsUsage c).

(** One round of the loop of [BatchWrite], on the parent's map and its usage. *)
Definition batch_entry (us : CCoinsMap) (usage : Z) (key : COutPoint) (it : CCoinsCacheEntry)
    : result coins_error (CCoinsMap * Z) :=
  if negb (is_DIRTY it) then Ok (us, usage)
  else
    match us !! key with
    | None =>
        if negb (is_FRESH it && IsSpent (coin it)) then
          let fl := DIRTY in
          let fl := if is_FRESH it then Z.lor fl FRESH else fl in
          Ok (<[key := mkEntry (coin it) fl]> us, u64 (usage + DynamicMemoryUsage (coin it)))
        else Ok (us, usage)
    | Some itUs =>
        let! _ := require (negb (is_FRESH it && negb (IsSpent (coin itUs)))) LogicError in
        let usage := u64 (usage - DynamicMemoryUsage (coin itUs)) in
        if is_FRESH itUs && IsSpent (coin it) then Ok (delete key us, usage)
        else Ok (<[key := mkEntry (coin it) (Z.lor (flags itUs) DIRTY)]> us,
                 u64 (usage + DynamicMemoryUsage (coin it)))
    end.

Fixpoint batch_loop (us : CCoinsMap) (usage : Z) (l : list (COutPoint * CCoinsCacheEntry))
    : result coins_error (CCoinsMap * Z) :=
  match l with
  | [] => Ok (us, usage)
  | (key, it) :: l => let! (us, usage) := batch_entry us usage key it in batch_loop us usage l
  end.

(** The loop visits every entry of [mapCoins], in the order of the hash table;
    with [erase] it removes each one behind itself. *)
Definition BatchWrite (c : CCoinsViewCache) (mapCoins : CCoinsMap) (hashBlockIn : uint256) (erase : bool)
    : result coins_error (bool * CCoinsMap * CCoinsViewCache) :=
  let! (us, usage) := batch_loop (cacheCoins c) (cachedCoinsUsage c) (map_to_list mapCoins) in
  Ok (true, if erase then ∅ else mapCoins, mkCache (base c) hashBlockIn us usage).

Definition Flush (c : CCoinsViewCache) : result coins_error (bool * CCoinsViewCache) :=
  let! (fOk, m, b) := view_BatchWrite (base c) (cacheCoins c) (hashBlock c) true in
  let c := mkCache b (hashBlock c) m 0 in
  if fOk then
    let! _ := require (bool_decide (cacheCoins c = ∅)) LogicError in
    (* ReallocateCache: a new empty map *)
    Ok (fOk, with_coins c ∅ (cachedCoinsUsage c))
  else Ok (fOk, c).

(** The loop of [Sync] over the entries [l] of the cache. *)
Fixpoint sync_loop (m : CCoinsMap) (usage : Z) (l : list (COutPoint * CCoinsCacheEntry)) : CCoinsMap * Z :=
  match l with
  | [] => (m, usage)
  | (key, it) :: l =>
      if IsSpent (coin it) then sync_loop (delete key m) (u64 (usage - DynamicMemoryUsage (coin it))) l
      else sync_loop (<[key := mkEntry (coin it) 0]> m) usage l
  end.

Definition Sync (c : CCoinsViewCache) : result coins_error (bool * CCoinsViewCache) :=
  let! (fOk, m, b) := view_BatchWrite (base c) (cacheCoins c) (hashBlock c) false in
  let '(m, usage) := sync_loop m (cachedCoinsUsage c) (map_to_list m) in
  Ok (fOk, mkCache b (hashBlock c) m usage).

Definition Uncache (c : CCoinsViewCache) (outpoint : COutPoint) : CCoinsViewCache :=
  match cacheCoins c !! outpoint with
  | Some e =>
      if flags e =? 0
      then with_coins c (delete outpoint (cacheCoins c)) (u64 (cachedCoinsUsage c - DynamicMemoryUsage (coin e)))
      else c
  | None => c
  end.

Definition GetCacheSize (c : CCoinsViewCache) : Z := u32 (Z.of_nat (base.size (cacheCoins c))).

(** [SanityCheck]: the combinations of flags its assertion accepts. *)
Definition sane_entry (e : CCoinsCacheEntry) : bool :=
  let attr := Z.lor (Z.lor (if is_DIRTY e then 1 else 0) (if is_FRESH e then 2 else 0))
                    (if IsSpent (coin e) then 4 else 0) in
  negb (attr =? 2) && negb (attr =? 4) && negb (attr =? 7).

Definition recomputed_usage (l : list (COutPoint * CCoinsCacheEntry)) : Z :=
  foldl (fun usage p => u64 (usage + DynamicMemoryUsage (coin p.2))) 0 l.

Definition SanityCheck (c : CCoinsViewCache) : bool :=
  forallb (fun p => sane_entry p.2) (map_to_list (cacheCoins c)) &&
  (recomputed_usage (map_to_list (cacheCoins c)) =? cachedCoinsUsage c).

(** ** Transactions on a cache *)

Fixpoint have_inputs_loop (c : CCoinsViewCache) (l : list CTxIn) : bool * CCoinsViewCache :=
  match l with
  | [] => (true, c)
  | i :: l =>
      let '(have, c) := HaveCoin c (prevout i) in
      if negb have then (false, c) else have_inputs_loop c l
  end.

Definition HaveInputs (c : CCoinsViewCache) (tx : CTransaction) : bool * CCoinsViewCache :=
  if negb (IsCoinBase tx) then have_inputs_loop c (vin tx) else (true, c).

(** The outputs of transaction [txid] from index [i] on. *)
Fixpoint add_coins_loop (c : CCoinsViewCache) (txid : uint256) (i : Z) (l : list CTxOut)
    (nHeight : Z) (fCoinbase check_for_overwrite : bool) : result coins_error CCoinsViewCache :=
  match l with
  | [] => Ok c
  | o :: l =>
      let '(overwrite, c) :=
        if check_for_overwrite then HaveCoin c (mkOutPoint txid i) else (fCoinbase, c) in
      let! c := AddCoin c (mkOutPoint txid i) (Coin_of o nHeight fCoinbase) overwrite in
      add_coins_loop c txid (i + 1) l nHeight fCoinbase check_for_overwrite
  end.

Definition AddCoins (Hash : list Z → uint256) (c : CCoinsViewCache) (tx : CTransaction) (nHeight : Z)
    (check_for_overwrite : bool) : result coins_error CCoinsViewCache :=
  add_coins_loop c (GetHash Hash tx) 0 (vout tx) nHeight (IsCoinBase tx) check_for_overwrite.

(** [MAX_BLOCK_WEIGHT / (WITNESS_SCALE_FACTOR * ::GetSerializeSize(CTxOut()))]. *)
Definition MAX_OUTPUTS_PER_BLOCK : Z :=
  Z.quot MAX_BLOCK_WEIGHT (WITNESS_SCALE_FACTOR * size (ser_txout txout_null)).

Fixpoint access_by_txid_loop (fuel : nat) (c : CCoinsViewCache) (txid : uint256) (n : Z)
    : Coin * CCoinsViewCache :=
  match fuel with
  | O => (coinEmpty, c)
  | S fuel =>
      let '(alternate, c) := AccessCoin c (mkOutPoint txid n) in
      if negb (IsSpent alternate) then (alternate, c)
      else access_by_txid_loop fuel c txid (n + 1)
  end.

Definition AccessByTxid (c : CCoinsViewCache) (txid : uint256) : Coin * CCoinsViewCache :=
  access_by_txid_loop (Z.to_nat MAX_OUTPUTS_PER_BLOCK) c txid 0.

End Cache.
Arguments CCoinsViewCache : clear implicits.

(** A cache is a view: caches stack. *)
#[export] Instance CCoinsViewCache_view {B} `{!CCoinsView B} : CCoinsView (CCoinsViewCache B) := {|
  view_GetCoin := GetCoin;
  view_HaveCoin := HaveCoin;
  view_GetBestBlock := GetBestBlock;
  view_BatchWrite := BatchWrite;
|}.

(** ** The database view *)

Record CCoinsViewDB := mkDB {
  db_coins : gmap COutPoint Coin;
  db_best_block : option uint256;
  db_head_blocks : option (list uint256);
}.

(** Operations collected in a [CDBBatch]. *)
Inductive db_op : Type :=
| EraseCoin (o : COutPoint)
| WriteCoin (o : COutPoint) (c : Coin)
| EraseBestBlock
| WriteBestBlock (h : uint256)
| EraseHeadBlocks
| WriteHeadBlocks (l : list uint256).

Definition apply_op (db : CCoinsViewDB) (op : db_op) : CCoinsViewDB :=
  match op with
  | EraseCoin o => mkDB (delete o (db_coins db)) (db_best_block db) (db_head_blocks db)
  | WriteCoin o c => mkDB (<[o := c]> (db_coins db)) (db_best_block db) (db_head_blocks db)
  | EraseBestBlock => mkDB (db_coins db) None (db_head_blocks db)
  | WriteBestBlock h => mkDB (db_coins db) (Some h) (db_head_blocks db)
  | EraseHeadBlocks => mkDB (db_coins db) (db_best_block db) None
  | WriteHeadBlocks l => mkDB (db_coins db) (db_best_block db) (Some l)
  end.

(** [m_db->WriteBatch]: the operations of a batch, atomically and in order. *)
Definition WriteBatch (db : CCoinsViewDB) (batch : list db_op) : CCoinsViewDB := foldl apply_op db batch.

Definition db_GetCoin (db : CCoinsViewDB) (o : COutPoint) : option Coin := db_coins db !! o.
Definition db_HaveCoin (db : CCoinsViewDB) (o : COutPoint) : bool := bool_decide (is_Some (db_coins db !! o)).
Definition db_GetBestBlock (db : CCoinsViewDB) : uint256 := default null256 (db_best_block db).
Definition db_GetHeadBlocks (db : CCoinsViewDB) : list uint256 := default [] (db_head_blocks db).

Section DB.
(** [batch.SizeEstimate() > m_options.batch_write_bytes]. *)
Context (batch_full : list db_op → bool).

(** The loop of [BatchWrite]: database, pending batch and the states that have
    been committed so far, the latest last. *)
Fixpoint db_batch_loop (db : CCoinsViewDB) (batch : list db_op) (l : list (COutPoint * CCoinsCacheEntry))
    (committed : list CCoinsViewDB) : CCoinsViewDB * list db_op * list CCoinsViewDB :=
  match l with
  | [] => (db, batch, committed)
  | (key, it) :: l =>
      let batch :=
        if is_DIRTY it then
          batch ++ [if IsSpent (coin it) then EraseCoin key else WriteCoin key (coin it)]
        else batch in
      if batch_full batch then
        let db := WriteBatch db batch in
        db_batch_loop db [] l (committed ++ [db])
      else db_batch_loop db batch l committed
  end.

(** The tip the database is moving from. *)
Definition db_old_tip (db : CCoinsViewDB) (hashBlock : uint256) : result coins_error uint256 :=
  let old_tip := db_GetBestBlock db in
  if IsNull256 old_tip then
    match db_GetHeadBlocks db with
    | [h0; h1] => let! _ := require (bool_decide (h0 = hashBlock)) AssertFailed in Ok h1
    | _ => Ok old_tip
    end
  else Ok old_tip.

(** The result, and every state the database was in between two commits. *)
Definition db_BatchWrite_trace (db : CCoinsViewDB) (mapCoins : CCoinsMap) (hashBlock : uint256) (erase : bool)
    : result coins_error (bool * CCoinsMap * CCoinsViewDB * list CCoinsViewDB) :=
  let! _ := require (negb (IsNull256 hashBlock)) AssertFailed in
  let! old_tip := db_old_tip db hashBlock in
  let batch := [EraseBestBlock; WriteHeadBlocks [hashBlock; old_tip]] in
  let '(db, batch, committed) := db_batch_loop db batch (map_to_list mapCoins) [] in
  let batch := batch ++ [EraseHeadBlocks; WriteBestBlock hashBlock] in
  Ok (true, if erase then ∅ else mapCoins, WriteBatch db batch, committed).

Definition db_BatchWrite (db : CCoinsViewDB) (mapCoins : CCoinsMap) (hashBlock : uint256) (erase : bool)
    : result coins_error (bool * CCoinsMap * CCoinsViewDB) :=
  let! (ok, m, db, _) := db_BatchWrite_trace db mapCoins hashBlock erase in Ok (ok, m, db).

Definition CCoinsViewDB_view : CCoinsView CCoinsViewDB := {|
  view_GetCoin db o := (db_GetCoin db o, db);
  view_HaveCoin db o := (db_HaveCoin db o, db);
  view_GetBestBlock db := (db_GetBestBlock db, db);
  view_BatchWrite := db_BatchWrite;
|}.
End DB.

End Coins.

(** * What a view promises *)
Module CoinsSpec.
Import Coins.

(** The coin of an entry as a member of the unspent set. *)
Definition live (c : Coin) : option Coin := if IsSpent c then None else Some c.

(** An entry fits the value [u] the outpoint has in the view below: FRESH
    means there is none, not DIRTY that the entry agrees with it. *)
Definition entry_ok (u : option Coin) (e : CCoinsCacheEntry) : Prop :=
  0 <= flags e <= 3 ∧ (is_FRESH e = true → u = None) ∧
  (is_DIRTY e = false → live (coin e) = u) ∧ sane_entry e = true.

Definition map_fits (u : COutPoint → option Coin) (m : CCoinsMap) : Prop :=
  ∀ o e, m !! o = Some e → entry_ok (u o) e.

(** What [BatchWrite] of [m] makes of [u]. *)
Definition overlay (m : CCoinsMap) (u : COutPoint → option Coin) (o : COutPoint) : option Coin :=
  match m !! o with
  | Some e => if is_DIRTY e then live (coin e) else u o
  | None => u o
  end.

(** A query leaves the abstract state alone. *)
Record same_view {B} (utxo : B → COutPoint → option Coin) (best : B → uint256) (inv : B → Prop)
    (b b' : B) : Prop := {
  same_inv : inv b';
  same_utxo : ∀ o, utxo b' o = utxo b o;
  same_best : best b' = best b;
}.

(** Reading a view. *)
Class CCoinsViewReads (B : Type) `{!CCoinsView B} (utxo : B → COutPoint → option Coin)
    (best : B → uint256) (inv : B → Prop) : Prop := {
  law_unspent : ∀ b o c, inv b → utxo b o = Some c → IsSpent c = false;
  law_get : ∀ b o, inv b →
    (view_GetCoin b o).1 = utxo b o ∧ same_view utxo best inv b (view_GetCoin b o).2;
  law_have : ∀ b o, inv b →
    (view_HaveCoin b o).1 = bool_decide (is_Some (utxo b o)) ∧
    same_view utxo best inv b (view_HaveCoin b o).2;
  law_best : ∀ b, inv b →
    (view_GetBestBlock b).1 = best b ∧ same_view utxo best inv b (view_GetBestBlock b).2;
}.

(** Reading and writing. *)
Class CCoinsViewLaws (B : Type) `{!CCoinsView B} (utxo : B → COutPoint → option Coin)
    (best : B → uint256) (inv : B → Prop) : Prop := {
  #[global] law_reads :: CCoinsViewReads B utxo best inv;
  law_batch : ∀ b m h erase, inv b → map_fits (utxo b) m → IsNull256 h = false →
    ∃ b', view_BatchWrite b m h erase = Ok (true, if erase then ∅ else m, b') ∧
          inv b' ∧ best b' = h ∧ ∀ o, utxo b' o = overlay m (utxo b) o;
}.

End CoinsSpec.

Module CoinsFacts.
Import Coins CoinsSpec.

Lemma live_Some c k : live c = Some k → c = k ∧ IsSpent k = false.
Proof. unfold live. destruct (IsSpent c) eqn:E; [done|]. by intros [= <-]. Qed.

Lemma live_unspent c : IsSpent c = false → live c = Some c.
Proof. unfold live. by intros ->. Qed.

(** Case analysis on the two flag bits. *)
Ltac flag_cases e :=
  let fl := fresh "fl" in let c := fresh "c" in let H := fresh "Hfl" in
  destruct e as [c fl]; cbn [flags coin] in *;
  assert (fl = 0 ∨ fl = 1 ∨ fl = 2 ∨ fl = 3) as H by lia;
  destruct H as [-> | [-> | [-> | ->]]].

(** ** A map over a view *)

Definition look (m : CCoinsMap) (u : COutPoint → option Coin) (o : COutPoint) : option Coin :=
  match m !! o with
  | Some e => live (coin e)
  | None => u o
  end.

Lemma look_insert m u o e o' :
  look (<[o := e]> m) u o' = if decide (o' = o) then live (coin e) else look m u o'.
Proof.
  unfold look. destruct (decide (o' = o)) as [->|Hn].
  - by rewrite lookup_insert_eq.
  - by rewrite lookup_insert_ne.
Qed.

Lemma look_delete m u o o' :
  look (delete o m) u o' = if decide (o' = o) then u o else look m u o'.
Proof.
  unfold look. destruct (decide (o' = o)) as [->|Hn].
  - by rewrite lookup_delete_eq.
  - by rewrite lookup_delete_ne.
Qed.

Lemma look_overlay m u o : map_fits u m → overlay m u o = look m u o.
Proof.
  intros Hm. unfold overlay, look. destruct (m !! o) as [e|] eqn:E; [|done].
  destruct (Hm o e E) as (_ & _ & Hd & _). destruct (is_DIRTY e) eqn:Ed; [done|]. by rewrite Hd.
Qed.

Lemma map_fits_insert u m o e : map_fits u m → entry_ok (u o) e → map_fits u (<[o := e]> m).
Proof. intros Hm He o' e' [[<- <-]|[? ?]]%lookup_insert_Some; auto. Qed.

Lemma map_fits_delete u m o : map_fits u m → map_fits u (delete o m).
Proof. intros Hm o' e' [? ?]%lookup_delete_Some. auto. Qed.

Lemma map_fits_empty u : map_fits u ∅.
Proof. intros o e H. by rewrite lookup_empty in H. Qed.

Lemma map_fits_ext u u' m : (∀ o, u' o = u o) → map_fits u m → map_fits u' m.
Proof. intros E Hm o e H. rewrite E. auto. Qed.

Lemma look_ext u u' m o : (∀ o, u' o = u o) → look m u' o = look m u o.
Proof. intros E. unfold look. by destruct (m !! o). Qed.

(** ** Entries the operations create *)

Lemma entry_ok_fetched c : IsSpent c = false → entry_ok (Some c) (mkEntry c 0).
Proof.
  intros Hs. unfold entry_ok, is_FRESH, is_DIRTY, sane_entry, live. cbn [flags coin]. rewrite Hs. done.
Qed.

Lemma entry_ok_written c : entry_ok None (mkEntry c (if IsSpent c then 1 else 3)).
Proof.
  unfold entry_ok, sane_entry, is_FRESH, is_DIRTY, live. cbn [flags coin].
  destruct (IsSpent c) eqn:E; cbn; split_and!; done || lia.
Qed.

Lemma entry_ok_dirty u c : entry_ok u (mkEntry c 1).
Proof.
  unfold entry_ok, sane_entry, is_FRESH, is_DIRTY, live. cbn [flags coin].
  destruct (IsSpent c) eqn:E; cbn; split_and!; done || lia.
Qed.

(** Replacing the coin of an entry and marking it DIRTY. *)
Lemma entry_ok_modify u e c :
  entry_ok u e → is_FRESH e && IsSpent c = false →
  entry_ok u (mkEntry c (Z.lor (flags e) DIRTY)).
Proof.
  intros (Hf & Hfr & Hd & Hs) Hc. flag_cases e; unfold entry_ok, sane_entry, is_FRESH, is_DIRTY, live in *;
    cbn in *; rewrite ?Hc; destruct (IsSpent c); cbn; split_and!; try done; try lia; auto.
Qed.

Lemma batch_entry_spec u us usage key it :
  map_fits u us → entry_ok (look us u key) it →
  ∃ us' usage', batch_entry us usage key it = Ok (us', usage') ∧ map_fits u us' ∧
    ∀ o, look us' u o = if decide (o = key) then
                          (if is_DIRTY it then live (coin it) else look us u o)
                        else look us u o.
Proof.
  intros Hus Hit. unfold batch_entry. destruct (is_DIRTY it) eqn:Ed; cbn [negb].
  2:{ exists us, usage. split_and!; [done|done|]. intros o. by destruct (decide _). }
  destruct Hit as (Hf & Hfr & _ & Hs). unfold look at 1 in Hfr.
  destruct (us !! key) as [itUs|] eqn:E.
  - pose proof (Hus key itUs E) as HitUs.
    replace (is_FRESH it && negb (IsSpent (coin itUs))) with false.
    2:{ destruct (is_FRESH it); [|done]. specialize (Hfr eq_refl). unfold live in Hfr.
        by destruct (IsSpent (coin itUs)). }
    cbn [require negb rbind]. destruct (is_FRESH itUs && IsSpent (coin it)) eqn:E2.
    + eexists _, _. split_and!; [done|by apply map_fits_delete|]. intros o. rewrite look_delete.
      destruct (decide (o = key)) as [->|]; [|done].
      apply andb_true_iff in E2 as [E2 E3]. unfold live. rewrite E3.
      by destruct HitUs as (_ & -> & _).
    + eexists _, _. split_and!; [done|by apply map_fits_insert; [|apply entry_ok_modify]|].
      intros o. rewrite look_insert. by destruct (decide _).
  - destruct (is_FRESH it) eqn:Efr; cbn [andb].
    + specialize (Hfr eq_refl). pose proof (entry_ok_written (coin it)) as Hw.
      destruct (IsSpent (coin it)) eqn:Es; cbn [negb].
      * exfalso. unfold sane_entry in Hs. by rewrite Ed, Efr, Es in Hs.
      * eexists _, _. split_and!; [done| |intros o; rewrite look_insert; by destruct (decide _)].
        apply map_fits_insert; [done|]. by rewrite Hfr.
    + eexists _, _. split_and!; [done|apply map_fits_insert; [done|apply entry_ok_dirty]|].
      intros o. rewrite look_insert. by destruct (decide _).
Qed.

Lemma batch_loop_spec u us usage l :
  map_fits u us → base.NoDup l.*1 → (∀ o e, (o, e) ∈ l → entry_ok (look us u o) e) →
  ∃ us' usage', batch_loop us usage l = Ok (us', usage') ∧ map_fits u us' ∧
    ∀ o, look us' u o = overlay (list_to_map l) (look us u) o.
Proof.
  revert us usage. induction l as [|[key it] l IH]; intros us usage Hus Hnd Hl.
  { exists us, usage. split_and!; [done|done|]. intros o. unfold overlay. by rewrite list_to_map_nil, lookup_empty. }
  cbn [batch_loop]. apply list.NoDup_cons in Hnd as [Hk Hnd].
  destruct (batch_entry_spec u us usage key it Hus) as (us1 & usage1 & -> & Hus1 & Hlook); [apply Hl; left|].
  cbn [rbind]. destruct (IH us1 usage1) as (us2 & usage2 & -> & Hus2 & Hlook2); [done|done| |].
  { intros o e Ho. rewrite Hlook. destruct (decide (o = key)) as [->|]; [|apply Hl; by right].
    destruct Hk. by apply (list_elem_of_fmap_2 fst) in Ho. }
  exists us2, usage2. split_and!; [done|done|]. intros o. rewrite Hlook2. unfold overlay.
  rewrite list_to_map_cons, Hlook. destruct (decide (o = key)) as [->|Hn].
  - rewrite lookup_insert_eq. by rewrite (not_elem_of_list_to_map_1 (M := gmap COutPoint)) by done.
  - by rewrite lookup_insert_ne by done.
Qed.

(** ** Memory accounting *)

(** The memory behind the coins of a map, and a counter that agrees with it. *)
Definition usage_of (m : CCoinsMap) : Z := map_fold (fun _ e n => DynamicMemoryUsage (coin e) + n) 0 m.
Definition accounted (m : CCoinsMap) (usage : Z) : Prop := usage = u64 (usage_of m).

Lemma u64_add_l x y : u64 (u64 x + y) = u64 (x + y).
Proof. apply Zplus_mod_idemp_l. Qed.
Lemma u64_sub_l x y : u64 (u64 x - y) = u64 (x - y).
Proof. apply Zminus_mod_idemp_l. Qed.

Lemma accounted_insert m n k e : m !! k = None → accounted m n → accounted (<[k := e]> m) (u64 (n + DynamicMemoryUsage (coin e))).
Proof.
  intros Hk ->. unfold accounted, usage_of. rewrite map_fold_insert_L by (done || intros; lia). rewrite u64_add_l. f_equal. lia.
Qed.

Lemma accounted_delete m n k e : m !! k = Some e → accounted m n → accounted (delete k m) (u64 (n - DynamicMemoryUsage (coin e))).
Proof.
  intros Hk ->. unfold accounted. rewrite u64_sub_l. f_equal. unfold usage_of. rewrite (map_fold_delete_L _ _ k e m) by (done || intros; lia). lia.
Qed.

Lemma accounted_replace m n k e e' : m !! k = Some e → accounted m n →
  accounted (<[k := e']> m) (u64 (u64 (n - DynamicMemoryUsage (coin e)) + DynamicMemoryUsage (coin e'))).
Proof.
  intros Hk Hn. rewrite <- insert_delete_eq. apply accounted_insert; [apply lookup_delete_eq|by apply accounted_delete].
Qed.

(** Entries whose coins take the same room. *)
Lemma accounted_update m n k e e' : m !! k = Some e → DynamicMemoryUsage (coin e') = DynamicMemoryUsage (coin e) →
  accounted m n → accounted (<[k := e']> m) n.
Proof.
  intros Hk E Hn. pose proof (accounted_replace m n k e e' Hk Hn) as H. rewrite E, u64_add_l in H. unfold accounted in Hn.
  rewrite Hn in H |- *. replace (u64 (usage_of m) - DynamicMemoryUsage (coin e) + DynamicMemoryUsage (coin e)) with (u64 (usage_of m)) in H by lia.
  rewrite wrap_small in H; [done|]. by apply wrap_range.
Qed.

Lemma recomputed_usage_spec m : recomputed_usage (map_to_list m) = u64 (usage_of m).
Proof.
  unfold usage_of. rewrite map_fold_foldr. assert (∀ l n, foldl (fun n p => u64 (n + DynamicMemoryUsage (coin p.2))) (u64 n) l =
    u64 (n + foldr (uncurry (fun (_ : COutPoint) e n => DynamicMemoryUsage (coin e) + n)) 0 l)) as H.
  { induction l as [|[o e] l IH]; intros n; cbn; [f_equal; lia|]. rewrite u64_add_l, IH. f_equal. lia. }
  apply (H (map_to_list m) 0).
Qed.

Lemma batch_entry_accounted us n key it us' n' : batch_entry us n key it = Ok (us', n') → accounted us n → accounted us' n'.
Proof.
  unfold batch_entry. destruct (negb (is_DIRTY it)); [by intros [= <- <-]|]. destruct (us !! key) as [e|] eqn:E.
  - destruct (require _ _); [|done]. cbn [rbind]. destruct (_ && _); intros [= <- <-] Hn; [by apply accounted_delete|].
    exact (accounted_replace us n key e (mkEntry (coin it) (Z.lor (flags e) DIRTY)) E Hn).
  - destruct (negb _); intros [= <- <-] Hn; [|done].
    exact (accounted_insert us n key (mkEntry (coin it) (if is_FRESH it then Z.lor DIRTY FRESH else DIRTY)) E Hn).
Qed.

Lemma batch_loop_accounted l : ∀ us n us' n', batch_loop us n l = Ok (us', n') → accounted us n → accounted us' n'.
Proof.
  induction l as [|[key it] l IH]; intros us n us' n'; cbn [batch_loop]; [by intros [= <- <-]|].
  intros ([us1 n1] & H1 & H2)%rbind_ok Hn. eapply IH; [exact H2|]. by eapply batch_entry_accounted.
Qed.

Lemma sync_loop_spec l : ∀ m n, base.NoDup l.*1 → (∀ o e, (o, e) ∈ l → m !! o = Some e) →
  (accounted m n → accounted (sync_loop m n l).1 (sync_loop m n l).2) ∧
  ∀ o, (sync_loop m n l).1 !! o =
    match (list_to_map l : CCoinsMap) !! o with
    | Some e => if IsSpent (coin e) then None else Some (mkEntry (coin e) 0)
    | None => m !! o
    end.
Proof.
  induction l as [|[k e] l IH]; intros m n Hnd Hl; cbn [sync_loop].
  { split; [done|]. intros o. by rewrite list_to_map_nil, lookup_empty. }
  rewrite fmap_cons in Hnd. apply list.NoDup_cons in Hnd as [Hk Hnd]. assert (m !! k = Some e) as Hm by (apply Hl; left).
  assert (∀ m' : CCoinsMap, (∀ o, o ≠ k → m' !! o = m !! o) → ∀ o d, (o, d) ∈ l → m' !! o = Some d) as Hl'.
  { intros m' Hm' o d Ho. rewrite Hm'; [by apply Hl; right|]. intros ->. apply Hk. by apply (list_elem_of_fmap_2 fst) in Ho. }
  assert ((list_to_map l : CCoinsMap) !! k = None) as Hnone by (by apply not_elem_of_list_to_map_1).
  destruct (IsSpent (coin e)) eqn:Es.
  - destruct (IH (delete k m) (u64 (n - DynamicMemoryUsage (coin e))) Hnd) as [H1 H2].
    { apply Hl'. intros o Ho. by rewrite lookup_delete_ne. }
    split; [by intros Hn; apply H1, accounted_delete|]. intros o. rewrite H2, list_to_map_cons. destruct (decide (o = k)) as [->|Ho].
    + by rewrite Hnone, lookup_insert_eq, lookup_delete_eq, Es.
    + by rewrite lookup_insert_ne, lookup_delete_ne.
  - destruct (IH (<[k := mkEntry (coin e) 0]> m) n Hnd) as [H1 H2].
    { apply Hl'. intros o Ho. by rewrite lookup_insert_ne. }
    split; [by intros Hn; apply H1; eapply accounted_update|]. intros o. rewrite H2, list_to_map_cons. destruct (decide (o = k)) as [->|Ho].
    + by rewrite Hnone, !lookup_insert_eq, Es.
    + by rewrite !lookup_insert_ne.
Qed.

(** ** The cache over a view that keeps its promise *)
Section Cache.
Context {B : Type} `{!CCoinsView B} {utxo : B → COutPoint → option Coin} {best : B → uint256}
  {inv : B → Prop} `{HR : !CCoinsViewReads B utxo best inv}.
Implicit Types (c : CCoinsViewCache B) (o : COutPoint) (k : Coin).

Definition cache_utxo c : COutPoint → option Coin := look (cacheCoins c) (utxo (base c)).
Definition cache_best c : uint256 := if IsNull256 (hashBlock c) then best (base c) else hashBlock c.
Definition cache_inv c : Prop := inv (base c) ∧ map_fits (utxo (base c)) (cacheCoins c).

Abbreviation cache_same := (same_view cache_utxo cache_best cache_inv).

Lemma cache_utxo_unspent c o k : cache_inv c → cache_utxo c o = Some k → IsSpent k = false.
Proof.
  intros [Hb Hm]. unfold cache_utxo, look. destruct (cacheCoins c !! o) as [e|].
  - by intros [_ ?]%live_Some.
  - by apply (law_unspent (CCoinsViewReads := HR)).
Qed.

Lemma cache_same_base c b :
  cache_inv c → same_view utxo best inv (base c) b → cache_same c (with_base c b).
Proof.
  intros [Hb Hm] [H1 H2 H3]. split; unfold cache_inv, cache_utxo, cache_best; cbn.
  - split; [done|]. by eapply map_fits_ext.
  - intros o. by apply look_ext.
  - by rewrite H3.
Qed.

(** [FetchCoin] only fills the cache, and returns what the view holds. *)
Lemma FetchCoin_spec c o :
  cache_inv c →
  let '(r, c') := FetchCoin c o in
  cache_same c c' ∧ cacheCoins c' !! o = r ∧
  (r ≫= (fun e => live (coin e)) = cache_utxo c o) ∧
  (∀ e, r = Some e → entry_ok (utxo (base c') o) e).
Proof.
  intros Hinv. destruct Hinv as [Hb Hm] eqn:Eq. clear Eq. unfold FetchCoin.
  destruct (cacheCoins c !! o) as [e|] eqn:E.
  { split_and!; [done|done| |intros ? [= <-]; by apply Hm].
    unfold cache_utxo, look. by rewrite E. }
  pose proof (law_get (CCoinsViewReads := HR) (base c) o Hb) as [Hr Hsame].
  destruct (view_GetCoin (base c) o) as [r b]. cbn in Hr, Hsame. subst r.
  pose proof (cache_same_base c b Hinv Hsame) as Hs. destruct Hsame as [Hb' Hu' _].
  destruct (utxo (base c) o) as [k|] eqn:Eu.
  2:{ split_and!; [done|done| |done]. unfold cache_utxo, look. by rewrite E. }
  assert (IsSpent k = false) as Hk by exact (law_unspent (CCoinsViewReads := HR) (base c) o k Hb Eu).
  rewrite Hk. assert (entry_ok (utxo b o) (mkEntry k 0)) as He.
  { rewrite Hu', Eu. by apply entry_ok_fetched. }
  cbn [cacheCoins with_coins with_base base]. split_and!.
  - destruct Hs as [[? Hm'] Hs2 Hs3]. split; [|intros o'; rewrite <- Hs2|done].
    + split; [done|]. cbn. by apply map_fits_insert.
    + unfold cache_utxo. cbn [cacheCoins with_coins with_base base]. rewrite look_insert.
      destruct (decide (o' = o)) as [->|]; [|done]. cbn [coin]. rewrite live_unspent by done.
      unfold look. by rewrite E, Hu', Eu.
  - by rewrite lookup_insert_eq.
  - unfold cache_utxo, look. rewrite E, Eu. cbn. by apply live_unspent.
  - by intros ? [= <-].
Qed.

Lemma GetCoin_spec c o :
  cache_inv c → (GetCoin c o).1 = cache_utxo c o ∧ cache_same c (GetCoin c o).2.
Proof.
  intros Hinv. pose proof (FetchCoin_spec c o Hinv) as H. unfold GetCoin.
  destruct (FetchCoin c o) as [[e|] c']; destruct H as (Hs & _ & Hl & _); cbn in *; split; done.
Qed.

Lemma HaveCoin_spec c o :
  cache_inv c →
  (HaveCoin c o).1 = bool_decide (is_Some (cache_utxo c o)) ∧ cache_same c (HaveCoin c o).2.
Proof.
  intros Hinv. pose proof (FetchCoin_spec c o Hinv) as H. unfold HaveCoin.
  destruct (FetchCoin c o) as [[e|] c']; destruct H as (Hs & _ & Hl & _); cbn in *;
    rewrite <- Hl; unfold live; [|done]. by destruct (IsSpent (coin e)).
Qed.

Lemma AccessCoin_spec c o :
  cache_inv c → live (AccessCoin c o).1 = cache_utxo c o ∧ cache_same c (AccessCoin c o).2.
Proof.
  intros Hinv. pose proof (FetchCoin_spec c o Hinv) as H. unfold AccessCoin.
  destruct (FetchCoin c o) as [[e|] c']; destruct H as (Hs & _ & Hl & _); cbn in *; done.
Qed.

Lemma GetBestBlock_spec c :
  cache_inv c → (GetBestBlock c).1 = cache_best c ∧ cache_same c (GetBestBlock c).2.
Proof.
  intros Hinv. unfold GetBestBlock, cache_best. destruct (IsNull256 (hashBlock c)) eqn:E; [|done].
  destruct Hinv as [Hb Hm]. pose proof (law_best (CCoinsViewReads := HR) (base c) Hb) as [Hr [H1 H2 H3]].
  destruct (view_GetBestBlock (base c)) as [h b]. cbn in *. split; [done|]. split.
  - split; [done|]. by eapply map_fits_ext.
  - intros o. by apply look_ext.
  - unfold cache_best. cbn [hashBlock base]. rewrite E, H3, Hr. by destruct (IsNull256 (best (base c))).
Qed.

(** A change of the cache's own map. *)
Lemma cache_inv_insert c o e n :
  cache_inv c → entry_ok (utxo (base c) o) e → cache_inv (with_coins c (<[o := e]> (cacheCoins c)) n).
Proof. intros [Hb Hm] He. split; [done|]. by apply map_fits_insert. Qed.

Lemma AddCoin_spec c o k overwrite :
  cache_inv c → IsSpent k = false → IsUnspendable (scriptPubKey (out k)) = false →
  (overwrite = false → cache_utxo c o = None) →
  ∃ c', AddCoin c o k overwrite = Ok c' ∧ cache_inv c' ∧ cache_best c' = cache_best c ∧
        ∀ o', cache_utxo c' o' = if decide (o' = o) then Some k else cache_utxo c o'.
Proof.
  intros [Hb Hm] Hk Hu Hov. unfold AddCoin. rewrite Hk, Hu. cbn [negb require rbind].
  unfold cache_utxo, look in Hov.
  assert (∀ n e, entry_ok (utxo (base c) o) (mkEntry k e) →
    let c' := with_coins c (<[o := mkEntry k e]> (cacheCoins c)) n in
    cache_inv c' ∧ cache_best c' = cache_best c ∧
    ∀ o', cache_utxo c' o' = if decide (o' = o) then Some k else cache_utxo c o') as Hins.
  { intros n e He. split_and!; [by apply cache_inv_insert|done|].
    intros o'. unfold cache_utxo. cbn. rewrite look_insert. cbn [coin]. by rewrite live_unspent. }
  destruct (cacheCoins c !! o) as [e|] eqn:E; cbn [default from_option id].
  - pose proof (Hm o e E) as He.
    destruct overwrite; cbn [negb rbind].
    { eexists. split; [done|]. apply Hins. rewrite Z.lor_0_r. apply entry_ok_modify; [done|].
      by rewrite Hk, andb_false_r. }
    specialize (Hov eq_refl). unfold live in Hov. destruct (IsSpent (coin e)) eqn:Es; [|done].
    cbn [require rbind]. eexists. split; [done|]. apply Hins.
    destruct He as (Hf & Hfr & Hd & Hs). clear Hins E.
    flag_cases e; unfold entry_ok, sane_entry, is_FRESH, is_DIRTY, live in *; cbn in *;
      rewrite ?Es, ?Hk in *; cbn in *; split_and!; try done; try lia; intros _; naive_solver.
  - destruct overwrite; cbn [negb rbind require].
    { eexists. split; [done|]. apply Hins. apply entry_ok_dirty. }
    specialize (Hov eq_refl). eexists. split; [done|]. apply Hins. rewrite Hov. cbn.
    pose proof (entry_ok_written k) as Hw. by rewrite Hk in Hw.
Qed.

(** [SpendCoin] removes the coin; the coin it moves out is the one there was. *)
Lemma SpendCoin_spec c o :
  cache_inv c →
  ((SpendCoin c o).1 ≫= live) = cache_utxo c o ∧ cache_inv (SpendCoin c o).2 ∧
  cache_best (SpendCoin c o).2 = cache_best c ∧
  ∀ o', cache_utxo (SpendCoin c o).2 o' = if decide (o' = o) then None else cache_utxo c o'.
Proof.
  intros Hinv. pose proof (FetchCoin_spec c o Hinv) as H. unfold SpendCoin.
  destruct (FetchCoin c o) as [[e|] c']; destruct H as ([Hi Hsu Hsb] & Hlk & Hl & He); cbn in *.
  2:{ split_and!; [done|done|done|]. intros o'. rewrite Hsu. by destruct (decide (o' = o)) as [->|]. }
  specialize (He e eq_refl). destruct (is_FRESH e) eqn:Ef; cbn [fst snd].
  - split_and!; [done|destruct Hi; split; [done|by apply map_fits_delete]|done|].
    intros o'. rewrite <- Hsu. unfold cache_utxo. cbn. rewrite look_delete.
    destruct (decide (o' = o)); [|done]. by destruct He as (_ & -> & _).
  - split_and!; [done|apply cache_inv_insert; [done|]|done|].
    + apply entry_ok_modify; [done|]. by rewrite Ef.
    + intros o'. rewrite <- Hsu. unfold cache_utxo. cbn. rewrite look_insert. by destruct (decide (o' = o)).
Qed.

Lemma BatchWrite_spec c m h erase :
  cache_inv c → map_fits (cache_utxo c) m → IsNull256 h = false →
  ∃ c', BatchWrite c m h erase = Ok (true, if erase then ∅ else m, c') ∧
        cache_inv c' ∧ cache_best c' = h ∧ ∀ o, cache_utxo c' o = overlay m (cache_utxo c) o.
Proof.
  intros [Hb Hm] Hfit Hh. unfold BatchWrite.
  destruct (batch_loop_spec (utxo (base c)) (cacheCoins c) (cachedCoinsUsage c) (map_to_list m) Hm) as (us & n & -> & Hus & Hlk).
  - apply NoDup_fst_map_to_list.
  - intros o e Ho. apply elem_of_map_to_list in Ho. by apply Hfit.
  - eexists. split_and!; [done|done|unfold cache_best; cbn [hashBlock]; by rewrite Hh|].
    intros o. unfold cache_utxo. cbn. rewrite Hlk. by rewrite list_to_map_to_list.
Qed.

#[export] Instance CCoinsViewCache_laws : CCoinsViewLaws (CCoinsViewCache B) cache_utxo cache_best cache_inv.
Proof.
  split; [split|].
  - apply cache_utxo_unspent.
  - apply GetCoin_spec.
  - apply HaveCoin_spec.
  - apply GetBestBlock_spec.
  - apply BatchWrite_spec.
Qed.

Lemma Uncache_spec c o : cache_inv c → cache_same c (Uncache c o).
Proof.
  intros Hinv. unfold Uncache. destruct (cacheCoins c !! o) as [e|] eqn:E; [|done].
  destruct (flags e =? 0) eqn:Ef; [|done]. apply Z.eqb_eq in Ef. destruct Hinv as [Hb Hm]. split.
  - split; [done|]. by apply map_fits_delete.
  - intros o'. unfold cache_utxo. cbn. rewrite look_delete.
    destruct (decide (o' = o)) as [->|]; [|done]. unfold look. rewrite E.
    destruct (Hm o e E) as (_ & _ & Hd & _). symmetry. apply Hd. unfold is_DIRTY. by rewrite Ef.
  - done.
Qed.

(** The counter of a cache agrees with its coins. *)
Definition usage_exact c : Prop := accounted (cacheCoins c) (cachedCoinsUsage c).

Lemma FetchCoin_usage c o : usage_exact c → usage_exact (FetchCoin c o).2.
Proof.
  intros Hc. unfold FetchCoin. destruct (cacheCoins c !! o) as [e|] eqn:E; [done|].
  destruct (view_GetCoin (base c) o) as [[k|] b]; [|done]. by apply (accounted_insert _ _ o).
Qed.

Lemma AddCoin_usage c o k ow c' : AddCoin c o k ow = Ok c' → usage_exact c → usage_exact c'.
Proof.
  unfold AddCoin. intros (_ & _ & H)%rbind_ok Hc. destruct (IsUnspendable _); [by injection H as <-|].
  apply rbind_ok in H as (f & _ & [= <-]). unfold usage_exact. cbn [cacheCoins cachedCoinsUsage with_coins].
  destruct (cacheCoins c !! o) as [e|] eqn:E; cbn [default from_option id].
  - rewrite bool_decide_eq_false_2 by done. by apply (accounted_replace _ _ o e).
  - rewrite bool_decide_eq_true_2 by done. by apply (accounted_insert _ _ o).
Qed.

Lemma SpendCoin_usage c o : cache_inv c → usage_exact c → usage_exact (SpendCoin c o).2.
Proof.
  intros Hi Hc%(fun H => FetchCoin_usage c o H). pose proof (FetchCoin_spec c o Hi) as H. unfold SpendCoin.
  destruct (FetchCoin c o) as [[e|] c']; destruct H as (_ & Hlk & _); cbn in *; [|done].
  destruct (is_FRESH e); [by apply accounted_delete|].
  pose proof (accounted_replace _ _ o e (mkEntry coinEmpty (Z.lor (flags e) DIRTY)) Hlk Hc) as H. cbn [coin] in H.
  change (DynamicMemoryUsage coinEmpty) with 0 in H. rewrite u64_add_l, Z.add_0_r in H. exact H.
Qed.

Lemma Uncache_usage c o : usage_exact c → usage_exact (Uncache c o).
Proof.
  intros Hc. unfold Uncache. destruct (cacheCoins c !! o) as [e|] eqn:E; [|done]. destruct (flags e =? 0); [|done]. by apply accounted_delete.
Qed.

Lemma BatchWrite_usage c m h erase r m' c' : BatchWrite c m h erase = Ok (r, m', c') → usage_exact c → usage_exact c'.
Proof. unfold BatchWrite. intros ([us n] & H & [= _ _ <-])%rbind_ok Hc. by eapply batch_loop_accounted. Qed.

Lemma SanityCheck_inv c : cache_inv c → usage_exact c → SanityCheck c = true.
Proof.
  intros [_ Hm] Hc. unfold SanityCheck. apply andb_true_iff. split.
  - apply forallb_forall. intros [o e] Ho. cbn. apply list_elem_of_In, elem_of_map_to_list in Ho. by apply (Hm o e) in Ho as (_ & _ & _ & ?).
  - apply Z.eqb_eq. by rewrite recomputed_usage_spec, Hc.
Qed.
End Cache.

(** ** Writing back *)

Section Write.
Context {B : Type} `{!CCoinsView B} {utxo : B → COutPoint → option Coin} {best : B → uint256}
  {inv : B → Prop} `{HL : !CCoinsViewLaws B utxo best inv}.
Implicit Types (c : CCoinsViewCache B).
Abbreviation cache_utxo := (cache_utxo (utxo := utxo)).
Abbreviation cache_best := (cache_best (best := best)).
Abbreviation cache_inv := (cache_inv (utxo := utxo) (inv := inv)).
Abbreviation cache_same := (same_view cache_utxo cache_best cache_inv).

Lemma cache_write c erase :
  cache_inv c → IsNull256 (hashBlock c) = false →
  ∃ b, view_BatchWrite (base c) (cacheCoins c) (hashBlock c) erase =
         Ok (true, if erase then ∅ else cacheCoins c, b) ∧
       inv b ∧ best b = hashBlock c ∧ ∀ o, utxo b o = cache_utxo c o.
Proof.
  intros [Hb Hm] Hh.
  destruct (law_batch (CCoinsViewLaws := HL) (base c) (cacheCoins c) (hashBlock c) erase Hb Hm Hh)
    as (b & E & Hb' & Hbest & Hu).
  exists b. split_and!; [done|done|done|]. intros o. rewrite Hu. by apply look_overlay.
Qed.

Lemma Flush_spec c :
  cache_inv c → IsNull256 (hashBlock c) = false →
  ∃ c', Flush c = Ok (true, c') ∧ cache_same c c' ∧ cacheCoins c' = ∅ ∧
        (∀ o, utxo (base c') o = cache_utxo c o) ∧ best (base c') = hashBlock c.
Proof.
  intros Hinv Hh. destruct (cache_write c true Hinv Hh) as (b & E & Hb & Hbest & Hu).
  unfold Flush. rewrite E. cbn. eexists. split_and!; [done| |done|done|done]. split.
  - split; [done|]. apply map_fits_empty.
  - intros o. unfold cache_utxo, look. cbn. by rewrite lookup_empty.
  - unfold cache_best. cbn [hashBlock with_coins]. by rewrite Hh.
Qed.

Lemma Flush_usage c c' : Flush c = Ok (true, c') → usage_exact c'.
Proof.
  unfold Flush. intros ([[fOk m] b] & _ & H)%rbind_ok. destruct fOk; [|done]. by apply rbind_ok in H as (_ & _ & [= <-]).
Qed.

(** The loop of [Sync] drops what is spent and cleans the rest. *)
Lemma sync_all m n :
  (accounted m n → accounted (sync_loop m n (map_to_list m)).1 (sync_loop m n (map_to_list m)).2) ∧
  ∀ o, (sync_loop m n (map_to_list m)).1 !! o =
    m !! o ≫= (fun e => if IsSpent (coin e) then None else Some (mkEntry (coin e) 0)).
Proof.
  destruct (sync_loop_spec (map_to_list m) m n) as [H1 H2]; [apply NoDup_fst_map_to_list| |].
  { intros o e Ho. by apply elem_of_map_to_list. }
  split; [done|]. intros o. rewrite H2, list_to_map_to_list. by destruct (m !! o).
Qed.

Lemma Sync_spec c :
  cache_inv c → IsNull256 (hashBlock c) = false →
  ∃ c', Sync c = Ok (true, c') ∧ cache_same c c' ∧ (usage_exact c → usage_exact c') ∧
        (∀ o, utxo (base c') o = cache_utxo c o) ∧ best (base c') = hashBlock c.
Proof.
  intros Hinv Hh. destruct (cache_write c false Hinv Hh) as (b & E & Hb & Hbest & Hu).
  unfold Sync. rewrite E. cbn [rbind]. pose proof (sync_all (cacheCoins c) (cachedCoinsUsage c)) as [Ha Hm].
  destruct (sync_loop _ _ _) as [m n]. cbn [fst snd] in *. eexists. split_and!; [done| |exact Ha|done|done]. split.
  - split; [done|]. cbn [base cacheCoins]. intros o e. rewrite Hm.
    destruct (cacheCoins c !! o) as [e0|] eqn:E0; cbn; [|done].
    destruct (IsSpent (coin e0)) eqn:Es; [done|]. intros [= <-]. rewrite Hu.
    unfold cache_utxo, look. rewrite E0, live_unspent by done. by apply entry_ok_fetched.
  - intros o. unfold cache_utxo, look. cbn [base cacheCoins]. rewrite Hm, Hu.
    unfold cache_utxo, look. destruct (cacheCoins c !! o) as [e0|] eqn:E0; cbn; [|done].
    unfold live. destruct (IsSpent (coin e0)) eqn:Es; cbn; [done|]. by rewrite Es.
  - unfold cache_best. cbn [hashBlock]. by rewrite Hh.
Qed.

End Write.

(** ** The database *)

Definition db_utxo (db : CCoinsViewDB) (o : COutPoint) : option Coin := db_coins db !! o.
Definition db_inv (db : CCoinsViewDB) : Prop :=
  (∀ o c, db_coins db !! o = Some c → IsSpent c = false) ∧ db_head_blocks db = None.

Section DB.
Context (batch_full : list db_op → bool).

Lemma WriteBatch_app db b1 b2 : WriteBatch db (b1 ++ b2) = WriteBatch (WriteBatch db b1) b2.
Proof. apply foldl_app. Qed.

(** The operations the loop adds for the entries of [l]. *)
Definition coin_ops (l : list (COutPoint * CCoinsCacheEntry)) : list db_op :=
  omap (fun p => if is_DIRTY p.2 then
                   Some (if IsSpent (coin p.2) then EraseCoin p.1 else WriteCoin p.1 (coin p.2))
                 else None) l.

Lemma coin_ops_cons db o e l :
  WriteBatch db (coin_ops ((o, e) :: l)) =
  WriteBatch (if is_DIRTY e then
                apply_op db (if IsSpent (coin e) then EraseCoin o else WriteCoin o (coin e))
              else db) (coin_ops l).
Proof. unfold coin_ops. cbn. by destruct (is_DIRTY e). Qed.

Lemma db_batch_loop_spec db batch l acc :
  let '(db', batch', acc') := db_batch_loop batch_full db batch l acc in
  WriteBatch db' batch' = WriteBatch (WriteBatch db batch) (coin_ops l) ∧
  ∀ d, d ∈ acc' → d ∈ acc ∨ ∃ l1 l2, l = l1 ++ l2 ∧ d = WriteBatch (WriteBatch db batch) (coin_ops l1).
Proof.
  revert db batch acc. induction l as [|[key it] l IH]; intros db batch acc; cbn [db_batch_loop].
  { split; [done|by left]. }
  set (batch1 := if is_DIRTY it then _ else batch).
  assert (∀ ops, WriteBatch (WriteBatch db batch1) ops =
    WriteBatch (WriteBatch db batch) (coin_ops [(key, it)] ++ ops)) as Hb.
  { intros ops. unfold batch1. cbn. destruct (is_DIRTY it); [|done]. by rewrite WriteBatch_app. }
  assert (∀ l', coin_ops ((key, it) :: l') = coin_ops [(key, it)] ++ coin_ops l') as Hc.
  { intros l'. cbn. by destruct (is_DIRTY it). }
  destruct (batch_full batch1).
  - specialize (IH (WriteBatch db batch1) [] (acc ++ [WriteBatch db batch1])).
    destruct (db_batch_loop _ _ _ _ _) as [[db' batch'] acc']. destruct IH as [IH1 IH2]. split.
    + by rewrite IH1, Hc, <- Hb.
    + intros d Hd. destruct (IH2 d Hd) as [Hd'|(l1 & l2 & -> & ->)].
      * apply elem_of_app in Hd' as [?|Hd']; [by left|]. apply list_elem_of_singleton in Hd' as ->.
        right. exists [(key, it)], l. split; [done|]. by rewrite <- (app_nil_r (coin_ops _)), <- Hb.
      * right. exists ((key, it) :: l1), l2. split; [done|]. by rewrite Hc, <- Hb.
  - specialize (IH db batch1 acc). destruct (db_batch_loop _ _ _ _ _) as [[db' batch'] acc'].
    destruct IH as [IH1 IH2]. split; [by rewrite IH1, Hc, <- Hb|].
    intros d Hd. destruct (IH2 d Hd) as [?|(l1 & l2 & -> & ->)]; [by left|].
    right. exists ((key, it) :: l1), l2. split; [done|]. by rewrite Hc, <- Hb.
Qed.

Lemma coin_ops_meta db l :
  db_best_block (WriteBatch db (coin_ops l)) = db_best_block db ∧
  db_head_blocks (WriteBatch db (coin_ops l)) = db_head_blocks db.
Proof.
  revert db. induction l as [|[o e] l IH]; intros db; [done|]. rewrite coin_ops_cons.
  edestruct IH as [-> ->]. by destruct (is_DIRTY e), (IsSpent (coin e)).
Qed.

Lemma coin_ops_coins db l o :
  base.NoDup l.*1 →
  db_coins (WriteBatch db (coin_ops l)) !! o =
  overlay (list_to_map l) (db_utxo db) o.
Proof.
  revert db. induction l as [|[key e] l IH]; intros db Hnd.
  { unfold overlay. by rewrite list_to_map_nil, lookup_empty. }
  apply list.NoDup_cons in Hnd as [Hk Hnd]. rewrite coin_ops_cons, IH by done.
  unfold overlay, db_utxo. rewrite list_to_map_cons. destruct (decide (o = key)) as [->|Hn].
  - rewrite lookup_insert_eq, (not_elem_of_list_to_map_1 (M := gmap COutPoint)) by done.
    destruct (is_DIRTY e); [|done]. unfold live. destruct (IsSpent (coin e)); cbn.
    + by rewrite lookup_delete_eq.
    + by rewrite lookup_insert_eq.
  - rewrite (lookup_insert_ne _ key) by done.
    assert (db_coins (if is_DIRTY e then
        apply_op db (if IsSpent (coin e) then EraseCoin key else WriteCoin key (coin e)) else db) !! o
      = db_coins db !! o) as ->; [|done].
    destruct (is_DIRTY e), (IsSpent (coin e)); cbn; by rewrite ?lookup_delete_ne, ?lookup_insert_ne by done.
Qed.

(** The database in the middle of a write: marked as moving to [h] from [t],
    each coin either as before or as after. *)
Definition mid_write (db : CCoinsViewDB) (m : CCoinsMap) (h t : uint256) (d : CCoinsViewDB) : Prop :=
  db_best_block d = None ∧ db_head_blocks d = Some [h; t] ∧
  ∀ o, db_utxo d o = db_utxo db o ∨ db_utxo d o = overlay m (db_utxo db) o.

Lemma db_BatchWrite_trace_spec db m h t erase :
  IsNull256 h = false → db_old_tip db h = Ok t →
  ∃ db' mid, db_BatchWrite_trace batch_full db m h erase = Ok (true, if erase then ∅ else m, db', mid) ∧
    db_best_block db' = Some h ∧ db_head_blocks db' = None ∧
    (∀ o, db_utxo db' o = overlay m (db_utxo db) o) ∧
    (∀ d, d ∈ mid → mid_write db m h t d).
Proof.
  intros Hh Ht. unfold db_BatchWrite_trace. rewrite Hh, Ht. cbn [negb require rbind].
  set (batch0 := [EraseBestBlock; WriteHeadBlocks [h; t]]).
  pose proof (db_batch_loop_spec db batch0 (map_to_list m) []) as Hl.
  destruct (db_batch_loop _ _ _ _ _) as [[d1 b1] mid]. destruct Hl as [E1 E2].
  assert (base.NoDup (map_to_list m).*1) as Hnd by apply NoDup_fst_map_to_list.
  eexists _, mid. rewrite WriteBatch_app, E1. split_and!; [done|done|done| |].
  - intros o. change (db_utxo (WriteBatch ?d [EraseHeadBlocks; WriteBestBlock h]) o) with (db_coins d !! o).
    rewrite coin_ops_coins, list_to_map_to_list by done. done.
  - intros d Hd. destruct (E2 d Hd) as [Hd'|(l1 & l2 & El & ->)]; [by apply not_elem_of_nil in Hd'|].
    destruct (coin_ops_meta (WriteBatch db batch0) l1) as [Hb Hhd]. split_and!; [by rewrite Hb|by rewrite Hhd|].
    intros o. rewrite El, fmap_app in Hnd. apply list.NoDup_app in Hnd as (Hn1 & _ & _).
    unfold db_utxo at 1 3. rewrite coin_ops_coins by done. unfold overlay.
    destruct (list_to_map l1 !! o) as [e|] eqn:Ee; [|by left].
    destruct (is_DIRTY e) eqn:Ed; [|by left]. right.
    apply elem_of_list_to_map_2 in Ee. assert ((o, e) ∈ map_to_list m) as Hin by (rewrite El; set_solver).
    apply elem_of_map_to_list in Hin. by rewrite Hin, Ed.
Qed.

Lemma overlay_unspent m u o c :
  (∀ o c, u o = Some c → IsSpent c = false) → overlay m u o = Some c → IsSpent c = false.
Proof.
  intros Hu. unfold overlay. destruct (m !! o) as [e|]; [|apply Hu].
  destruct (is_DIRTY e); [by intros [_ ?]%live_Some|apply Hu].
Qed.

Lemma CCoinsViewDB_laws : CCoinsViewLaws CCoinsViewDB (CCoinsView0 := CCoinsViewDB_view batch_full) db_utxo db_GetBestBlock db_inv.
Proof.
  split; [split|].
  - intros db o c [Hu _]. apply Hu.
  - done.
  - done.
  - done.
  - intros db m h erase [Hu Hhd] Hfit Hh.
    assert (∃ t, db_old_tip db h = Ok t) as [t Ht].
    { unfold db_old_tip, db_GetHeadBlocks. rewrite Hhd. destruct (IsNull256 (db_GetBestBlock db)); eauto. }
    destruct (db_BatchWrite_trace_spec db m h t erase Hh Ht) as (db' & mid & E & H1 & H2 & H3 & _).
    exists db'. split_and!; [|split; [|done]|unfold db_GetBestBlock; by rewrite H1|done].
    { cbn [view_BatchWrite CCoinsViewDB_view]. unfold db_BatchWrite. by rewrite E. }
    intros o c Hc. eapply overlay_unspent; [exact Hu|]. by rewrite <- Hc, <- H3.
Qed.

End DB.

End CoinsFacts.

(** * The cache as a map of unspent coins *)
Module CoinsProps.
Import Coins CoinsSpec CoinsFacts.

(** Operations a client issues, and the answers it gets. *)
Inductive coin_op : Type :=
| OpGet (o : COutPoint)
| OpHave (o : COutPoint)
| OpAdd (o : COutPoint) (k : Coin) (possible_overwrite : bool)
| OpSpend (o : COutPoint)
| OpUncache (o : COutPoint)
| OpFlush
| OpSync.

Inductive answer : Type :=
| AnsCoin (k : option Coin)
| AnsBool (b : bool)
| AnsDone.

Definition run_op {B} `{!CCoinsView B} (c : CCoinsViewCache B) (op : coin_op)
    : result coins_error (answer * CCoinsViewCache B) :=
  match op with
  | OpGet o => let '(r, c) := GetCoin c o in Ok (AnsCoin r, c)
  | OpHave o => let '(r, c) := HaveCoin c o in Ok (AnsBool r, c)
  | OpAdd o k ow => let! c := AddCoin c o k ow in Ok (AnsDone, c)
  | OpSpend o => let '(r, c) := SpendCoin c o in Ok (AnsCoin r, c)
  | OpUncache o => Ok (AnsDone, Uncache c o)
  | OpFlush => let! (b, c) := Flush c in Ok (AnsBool b, c)
  | OpSync => let! (b, c) := Sync c in Ok (AnsBool b, c)
  end.

Fixpoint run_ops {B} `{!CCoinsView B} (c : CCoinsViewCache B) (ops : list coin_op)
    : result coins_error (list answer * CCoinsViewCache B) :=
  match ops with
  | [] => Ok ([], c)
  | op :: ops =>
      let! (a, c) := run_op c op in
      let! (l, c) := run_ops c ops in
      Ok (a :: l, c)
  end.

(** The specification: a plain map of unspent coins. *)
Definition spec_op (m : gmap COutPoint Coin) (op : coin_op) : answer * gmap COutPoint Coin :=
  match op with
  | OpGet o => (AnsCoin (m !! o), m)
  | OpHave o => (AnsBool (bool_decide (is_Some (m !! o))), m)
  | OpAdd o k _ => (AnsDone, if IsUnspendable (scriptPubKey (out k)) then m else <[o := k]> m)
  | OpSpend o => (AnsCoin (m !! o), delete o m)
  | OpUncache _ => (AnsDone, m)
  | OpFlush | OpSync => (AnsBool true, m)
  end.

Fixpoint spec_ops (m : gmap COutPoint Coin) (ops : list coin_op) : list answer * gmap COutPoint Coin :=
  match ops with
  | [] => ([], m)
  | op :: ops =>
      let '(a, m) := spec_op m op in
      let '(l, m) := spec_ops m ops in
      (a :: l, m)
  end.

(** The answer of an operation is the one of the map, but for a spend of a
    coin that is not there: [SpendCoin] then fails, or, where the cache holds a
    spent entry, succeeds and moves out the spent coin. *)
Definition answers (op : coin_op) (a spec : answer) : Prop :=
  match op, a, spec with
  | OpSpend _, AnsCoin (Some k), AnsCoin None => IsSpent k = true
  | _, _, _ => a = spec
  end.

(** The contract of [AddCoin]: the coin is unspent, and [possible_overwrite]
    is set where an unspent coin may be replaced. *)
Definition op_allowed (m : gmap COutPoint Coin) (op : coin_op) : Prop :=
  match op with
  | OpAdd o k ow => IsSpent k = false ∧ (ow = false → m !! o = None)
  | _ => True
  end.

Fixpoint ops_allowed (m : gmap COutPoint Coin) (ops : list coin_op) : Prop :=
  match ops with
  | [] => True
  | op :: ops => op_allowed m op ∧ ops_allowed (spec_op m op).2 ops
  end.

Section Refinement.
Context {B : Type} `{!CCoinsView B} {utxo : B → COutPoint → option Coin} {best : B → uint256}
  {inv : B → Prop} `{HL : !CCoinsViewLaws B utxo best inv}.

Definition represents (c : CCoinsViewCache B) (m : gmap COutPoint Coin) : Prop :=
  cache_inv (utxo := utxo) (inv := inv) c ∧ IsNull256 (hashBlock c) = false ∧
  ∀ o, cache_utxo (utxo := utxo) c o = m !! o.

Lemma answers_same op a : answers op a a.
Proof. by destruct op, a as [[]| |]. Qed.

Lemma FetchCoin_hashBlock (c : CCoinsViewCache B) o : hashBlock (FetchCoin c o).2 = hashBlock c.
Proof.
  unfold FetchCoin. destruct (cacheCoins c !! o); [done|].
  destruct (view_GetCoin (base c) o) as [[k|] b]; done.
Qed.

Lemma represents_same c c' m :
  represents c m → hashBlock c' = hashBlock c →
  same_view (cache_utxo (utxo := utxo)) (cache_best (best := best)) (cache_inv (utxo := utxo) (inv := inv)) c c' →
  represents c' m.
Proof. intros (H1 & H2 & H3) Hh [H4 H5 _]. split_and!; [done|by rewrite Hh|]. intros o. by rewrite H5. Qed.

Lemma run_op_refines c m op :
  represents c m → op_allowed m op →
  ∃ a c', run_op c op = Ok (a, c') ∧ answers op a (spec_op m op).1 ∧ represents c' (spec_op m op).2.
Proof.
  intros Hrep Hok. pose proof Hrep as (Hinv & Hh & Hu). pose proof (FetchCoin_hashBlock c) as Hfh.
  destruct op as [o|o|o k ow|o|o| |]; cbn [run_op spec_op fst snd].
  - pose proof (GetCoin_spec c o Hinv) as [H1 H2]. revert H1 H2. unfold GetCoin. specialize (Hfh o).
    destruct (FetchCoin c o) as [[e|] c']; cbn in *; intros -> H2; eexists _, _;
      (split_and!; [done|by rewrite Hu|by eapply represents_same]).
  - pose proof (HaveCoin_spec c o Hinv) as [H1 H2]. revert H1 H2. unfold HaveCoin. specialize (Hfh o).
    destruct (FetchCoin c o) as [[e|] c']; cbn in *; intros -> H2; eexists _, _;
      (split_and!; [done|by rewrite Hu|by eapply represents_same]).
  - destruct Hok as [Hk Hov]. destruct (IsUnspendable (scriptPubKey (out k))) eqn:E.
    + exists AnsDone, c. unfold AddCoin. by rewrite Hk, E.
    + destruct (AddCoin_spec (best := best) c o k ow Hinv Hk E) as (c' & Ea & H1 & _ & H2).
      { intros How. rewrite Hu. auto. }
      rewrite Ea. exists AnsDone, c'. split; [done|]. split; [done|]. split_and!; [done| |].
      * revert Ea. unfold AddCoin. rewrite Hk, E. cbn [negb require rbind]. intros Ea.
        apply rbind_ok in Ea as (f & _ & [= <-]). done.
      * intros o'. rewrite H2, lookup_insert. destruct (decide (o' = o)) as [->|].
        -- by rewrite decide_True.
        -- by rewrite decide_False.
  - pose proof (SpendCoin_spec c o Hinv) as (H1 & H2 & _ & H3). specialize (Hfh o).
    revert H1 H2 H3. unfold SpendCoin.
    assert (∀ c', (∀ o', cache_utxo (utxo := utxo) c' o' = if decide (o' = o) then None else cache_utxo (utxo := utxo) c o') →
      ∀ o', cache_utxo (utxo := utxo) c' o' = delete o m !! o') as Hdel.
    { intros c' H o'. rewrite H, lookup_delete, Hu. destruct (decide (o' = o)) as [->|].
      - by rewrite decide_True.
      - by rewrite decide_False. }
    destruct (FetchCoin c o) as [[e|] c']; cbn in *; intros H1 H2 H3; rewrite Hu in H1; eexists _, _; (split; [done|]); split.
    + rewrite <- H1. unfold live. by destruct (IsSpent (coin e)) eqn:Es.
    + split_and!; [done| |exact (Hdel _ H3)]. destruct (is_FRESH e); cbn; by rewrite Hfh.
    + by rewrite <- H1.
    + split_and!; [done|by rewrite Hfh|exact (Hdel _ H3)].
  - eexists _, _. split; [done|]. split; [done|]. eapply represents_same; [done| |by apply Uncache_spec].
    unfold Uncache. destruct (cacheCoins c !! o) as [e|]; [|done]. by destruct (flags e =? 0).
  - destruct (Flush_spec c Hinv Hh) as (c' & E & Hs & _ & _ & _). rewrite E. exists (AnsBool true), c'.
    split; [done|]. split; [done|]. eapply represents_same; [done| |done].
    revert E. unfold Flush. destruct (view_BatchWrite _ _ _ _) as [[[[] mm] b]|]; cbn; [|done..].
    destruct (bool_decide _); cbn; [by intros [= <-]|done].
  - destruct (Sync_spec c Hinv Hh) as (c' & E & Hs & _). rewrite E. exists (AnsBool true), c'.
    split; [done|]. split; [done|]. eapply represents_same; [done| |done].
    revert E. unfold Sync. destruct (view_BatchWrite _ _ _ _) as [[[f mm] b]|]; cbn; [|done]. destruct (sync_loop _ _ _). by intros [= _ <-].
Qed.

Lemma run_op_usage c m op a c' : represents c m → run_op c op = Ok (a, c') → usage_exact c → usage_exact c'.
Proof.
  intros (Hinv & Hh & _) Hr Hc. destruct op as [o|o|o k ow|o|o| |]; cbn [run_op] in Hr.
  - pose proof (FetchCoin_usage c o Hc). unfold GetCoin in Hr. destruct (FetchCoin c o) as [[e|] ?]; by injection Hr as _ <-.
  - pose proof (FetchCoin_usage c o Hc). unfold HaveCoin in Hr. destruct (FetchCoin c o) as [[e|] ?]; by injection Hr as _ <-.
  - apply rbind_ok in Hr as (c1 & H1 & [= _ <-]). by eapply AddCoin_usage.
  - pose proof (SpendCoin_usage c o Hinv Hc) as H. destruct (SpendCoin c o). by injection Hr as _ <-.
  - injection Hr as _ <-. by apply Uncache_usage.
  - destruct (Flush_spec c Hinv Hh) as (c1 & E & _). rewrite E in Hr. injection Hr as _ <-. by eapply Flush_usage.
  - destruct (Sync_spec c Hinv Hh) as (c1 & E & _ & Hu & _). rewrite E in Hr. injection Hr as _ <-. by apply Hu.
Qed.
End Refinement.

Lemma spec_ops_cons m op ops :
  spec_ops m (op :: ops) =
  ((spec_op m op).1 :: (spec_ops (spec_op m op).2 ops).1, (spec_ops (spec_op m op).2 ops).2).
Proof. cbn. destruct (spec_op m op) as [a m']. cbn. by destruct (spec_ops m' ops). Qed.

(** C9: over any backing view that keeps its promise, [CCoinsViewCache]
    refines a plain map of unspent coins: from a cache that represents a map,
    has its best block set and an exact memory counter, every sequence of
    lookups, additions, spends, uncachings, flushes and syncs that respects the
    contract of [AddCoin] runs without error, gives the answers the map
    gives, ends in a state that represents the final map, and passes
    [SanityCheck], the sum of the memory of the coins included.  The one answer
    that may differ is [SpendCoin]'s for a coin that is not there: where the
    cache holds a spent entry it returns true and that spent coin. *)
Theorem cache_refines_utxo_map {B : Type} `{!CCoinsView B} (utxo : B → COutPoint → option Coin)
    (best : B → uint256) (inv : B → Prop) (ops : list coin_op) (c : CCoinsViewCache B)
    (m : gmap COutPoint Coin) :
  CCoinsViewLaws B utxo best inv →
  represents (utxo := utxo) (inv := inv) c m → usage_exact c → ops_allowed m ops →
  ∃ l c', run_ops c ops = Ok (l, c') ∧ Forall3 answers ops l (spec_ops m ops).1 ∧
          represents (utxo := utxo) (inv := inv) c' (spec_ops m ops).2 ∧ SanityCheck c' = true.
Proof.
  intros HL. revert c m. induction ops as [|op ops IH]; intros c m Hrep Hu Hok.
  { exists [], c. split_and!; [done|constructor|done|]. destruct Hrep as [Hi _]. by eapply SanityCheck_inv. }
  destruct Hok as [Hop Hok]. rewrite spec_ops_cons. cbn [run_ops fst snd].
  destruct (run_op_refines c m op Hrep Hop) as (a & c1 & E & Ha & Hrep1).
  pose proof (run_op_usage c m op a c1 Hrep E Hu) as Hu1. rewrite E. cbn [rbind].
  destruct (IH c1 _ Hrep1 Hu1 Hok) as (l & c2 & -> & Hl & Hrep2 & Hs).
  exists (a :: l), c2. split_and!; [done|by constructor|done|done].
Qed.

(** A database with one coin, two caches on top of it. *)
Definition demo_out : CTxOut := mkTxOut 5000 [OP_1].
Definition demo_coin (h : Z) : Coin := Coin_of demo_out h false.
Definition demo_key (n : Z) : COutPoint := mkOutPoint (replicate 32 1) n.
Definition demo_db : CCoinsViewDB := mkDB {[ demo_key 0 := demo_coin 1 ]} (Some (replicate 32 9)) None.
#[local] Instance demo_view : CCoinsView CCoinsViewDB := CCoinsViewDB_view (fun b => (2 <? length b)%nat).
Definition demo_cache : CCoinsViewCache CCoinsViewDB := mkCache demo_db (replicate 32 8) ∅ 0.
Definition demo_ops : list coin_op :=
  [OpHave (demo_key 0); OpAdd (demo_key 1) (demo_coin 2) false; OpSpend (demo_key 0);
   OpSpend (demo_key 0); OpFlush; OpGet (demo_key 1); OpSpend (demo_key 1); OpSync; OpHave (demo_key 1)].

Lemma demo_db_inv : db_inv demo_db.
Proof.
  split; [|done]. intros o c. unfold demo_db. cbn [db_coins]. rewrite lookup_singleton_Some. by intros [_ <-].
Qed.

Lemma demo_cache_represents :
  represents (utxo := db_utxo) (inv := db_inv) demo_cache (db_coins demo_db).
Proof.
  split_and!; [split; [apply demo_db_inv|apply map_fits_empty]|done|].
  intros o. unfold cache_utxo, look. cbn. by rewrite lookup_empty.
Qed.

Lemma cache_refines_utxo_map_witness :
  ∃ c', run_ops demo_cache demo_ops =
          Ok ([AnsBool true; AnsDone; AnsCoin (Some (demo_coin 1)); AnsCoin (Some coinEmpty); AnsBool true;
               AnsCoin (Some (demo_coin 2)); AnsCoin (Some (demo_coin 2)); AnsBool true; AnsBool false], c') ∧
        SanityCheck c' = true.
Proof.
  destruct (cache_refines_utxo_map db_utxo db_GetBestBlock db_inv demo_ops demo_cache
    (db_coins demo_db)) as (l & c' & E & _ & _ & Hs).
  - apply CCoinsViewDB_laws.
  - exact demo_cache_represents.
  - done.
  - vm_compute. tauto.
  - exists c'. split; [|exact Hs]. rewrite E. f_equal. f_equal. revert E. vm_compute. by intros [= <- _].
Defined.

(** Caches stack.  A cache over a view that keeps its promise keeps it
    too, [BatchWrite] from the cache above included, and [Flush] and [Sync]
    return true, leave what the cache shows unchanged and make the view below
    show the same coins and the cache's best block; [Flush] empties the
    cache. *)
Theorem caches_stack {B : Type} `{!CCoinsView B} (utxo : B → COutPoint → option Coin)
    (best : B → uint256) (inv : B → Prop) :
  CCoinsViewLaws B utxo best inv →
  CCoinsViewLaws (CCoinsViewCache B) (cache_utxo (utxo := utxo)) (cache_best (best := best))
    (cache_inv (utxo := utxo) (inv := inv)) ∧
  (∀ c : CCoinsViewCache B,
     cache_inv (utxo := utxo) (inv := inv) c → IsNull256 (hashBlock c) = false →
     (∃ c', Flush c = Ok (true, c') ∧ cacheCoins c' = ∅ ∧
        (∀ o, cache_utxo (utxo := utxo) c' o = cache_utxo (utxo := utxo) c o) ∧
        (∀ o, utxo (base c') o = cache_utxo (utxo := utxo) c o) ∧ best (base c') = hashBlock c) ∧
     (∃ c', Sync c = Ok (true, c') ∧
        (∀ o, cache_utxo (utxo := utxo) c' o = cache_utxo (utxo := utxo) c o) ∧
        (∀ o, utxo (base c') o = cache_utxo (utxo := utxo) c o) ∧ best (base c') = hashBlock c)).
Proof.
  intros HL. split; [apply _|]. intros c Hinv Hh. split.
  - destruct (Flush_spec c Hinv Hh) as (c' & E & [_ Hs _] & He & Hu & Hb). by exists c'.
  - destruct (Sync_spec c Hinv Hh) as (c' & E & [_ Hs _] & _ & Hu & Hb). by exists c'.
Qed.

Lemma caches_stack_witness :
  CCoinsViewLaws (CCoinsViewCache CCoinsViewDB) (cache_utxo (utxo := db_utxo))
    (cache_best (best := db_GetBestBlock)) (cache_inv (utxo := db_utxo) (inv := db_inv)) ∧
  ∃ c', Flush demo_cache = Ok (true, c') ∧ cacheCoins c' = ∅.
Proof.
  destruct (caches_stack db_utxo db_GetBestBlock db_inv (CCoinsViewDB_laws (fun b => (2 <? length b)%nat))) as [H1 H2].
  split; [exact H1|]. destruct demo_cache_represents as (Hi & Hh & _).
  destruct (H2 demo_cache Hi Hh) as [(c' & E & He & _) _]. by exists c'.
Defined.

(** C25: writing a cache to the database survives a crash.  Whatever the batch
    size, the write ends with the coins of the cache laid over the old ones and
    the new best block; every state committed on the way is marked with the
    pair of heads it lies between and holds for each outpoint either the old or
    the new coin, and repeating the write from it ends in the same coins. *)
Theorem db_write_crash_safe (batch_full : list db_op → bool) (db : CCoinsViewDB) (m : CCoinsMap)
    (h t : uint256) (erase : bool) :
  IsNull256 h = false → db_old_tip db h = Ok t →
  ∃ db' mid, db_BatchWrite_trace batch_full db m h erase = Ok (true, if erase then ∅ else m, db', mid) ∧
    db_best_block db' = Some h ∧ db_head_blocks db' = None ∧
    (∀ o, db_utxo db' o = overlay m (db_utxo db) o) ∧
    (∀ d, d ∈ mid → mid_write db m h t d ∧
       ∃ d', db_BatchWrite batch_full d m h erase = Ok (true, if erase then ∅ else m, d') ∧
             db_best_block d' = Some h ∧ ∀ o, db_utxo d' o = db_utxo db' o).
Proof.
  intros Hh Ht. destruct (db_BatchWrite_trace_spec batch_full db m h t erase Hh Ht)
    as (db' & mid & E & H1 & H2 & H3 & H4).
  exists db', mid. split_and!; [done..|]. intros d Hd. pose proof (H4 d Hd) as Hm. split; [done|].
  destruct Hm as (Hb & Hhd & Hc).
  assert (db_old_tip d h = Ok t) as Htd.
  { unfold db_old_tip, db_GetBestBlock, db_GetHeadBlocks. rewrite Hb, Hhd. cbn.
    by rewrite bool_decide_true. }
  destruct (db_BatchWrite_trace_spec batch_full d m h t erase Hh Htd) as (d' & mid' & E' & H1' & _ & H3' & _).
  exists d'. unfold db_BatchWrite. rewrite E'. split_and!; [done|done|].
  intros o. rewrite H3', H3. destruct (Hc o) as [Ho|Ho]; unfold overlay in *;
    destruct (m !! o) as [e|]; try destruct (is_DIRTY e); congruence.
Qed.

Definition demo_map : CCoinsMap :=
  <[demo_key 0 := mkEntry coinEmpty 1]> (<[demo_key 1 := mkEntry (demo_coin 2) 3]>
    (<[demo_key 2 := mkEntry (demo_coin 3) 1]> ∅)).

Lemma db_write_crash_safe_witness :
  ∃ db' mid, db_BatchWrite_trace (fun b => (0 <? length b)%nat) demo_db demo_map (replicate 32 8) true =
    Ok (true, ∅, db', mid) ∧ length mid = 3%nat ∧ db_utxo db' (demo_key 0) = None.
Proof.
  destruct (db_write_crash_safe (fun b => (0 <? length b)%nat) demo_db demo_map (replicate 32 8)
    (replicate 32 9) true eq_refl eq_refl) as (db' & mid & E & _ & _ & H & _).
  exists db', mid. split_and!; [exact E| |by rewrite H].
  vm_compute in E. injection E as _ <-. reflexivity.
Defined.

End CoinsProps.
