(* ===== verification/TxVerify.v ===== *)
(** Contextual transaction checks: [src/consensus/tx_verify.cpp] and the
    witness signature-operation count of [src/script/interpreter.cpp].

    A [CBlockIndex&] argument is the hash of the entry in the block map, as in
    the block tree; the coins view is threaded through, because lookups fill
    its cache. *)
From Stdlib Require Import ZArith Lia.
From stdpp Require Import gmap.
From S2P Require Import Prelude Arith256 Chain Serialize Script Transaction Interpreter Coins.
Import Script Amount Transaction ScriptFlags Coins.
Local Open Scope bb_scope.

Module TxVerify.

Inductive txv_error : Type :=
| AssertFailed
| TxInputsMissingOrSpent
| PrematureSpendOfCoinbase
| InputValuesOutOfRange
| InBelowOut
| FeeOutOfRange
| TxThrown (e : tx_error)
| ChainFault (e : Chain.chain_error).

Definition lift_tx {A} (m : result tx_error A) : result txv_error A :=
  match m with Ok a => Ok a | Err e => Err (TxThrown e) end.
Definition lift_chain {A} (m : result Chain.chain_error A) : result txv_error A :=
  match m with Ok a => Ok a | Err e => Err (ChainFault e) end.

(** ** Lock times *)

Definition IsFinalTx (tx : CTransaction) (nBlockHeight nBlockTime : Z) : bool :=
  if nLockTime tx =? 0 then true
  else if nLockTime tx <? (if nLockTime tx <? LOCKTIME_THRESHOLD then nBlockHeight else nBlockTime) then true
  else forallb (fun txin => nSequence txin =? SEQUENCE_FINAL) (vin tx).

Definition LOCKTIME_VERIFY_SEQUENCE : Z := 1.

(** The loop of [CalculateSequenceLocks]: the two minima and the heights, with
    the entries of disabled inputs reset. *)
Fixpoint sequence_locks_loop (m : Chain.BlockMap) (block : uint256) (l : list CTxIn) (prevHeights : list Z)
    (nMinHeight nMinTime : Z) : result txv_error (Z * Z * list Z) :=
  match l, prevHeights with
  | [], _ => Ok (nMinHeight, nMinTime, prevHeights)
  | _ :: _, [] => Err AssertFailed
  | txin :: l, nCoinHeight :: hs =>
      if negb (Z.land (nSequence txin) SEQUENCE_LOCKTIME_DISABLE_FLAG =? 0) then
        let! (h, t, hs) := sequence_locks_loop m block l hs nMinHeight nMinTime in
        Ok (h, t, 0 :: hs)
      else
        let! (nMinHeight, nMinTime) :=
          if negb (Z.land (nSequence txin) SEQUENCE_LOCKTIME_TYPE_FLAG =? 0) then
            let! anc := lift_chain (Chain.GetAncestor m block (Z.max (nCoinHeight - 1) 0)) in
            match anc with
            | None => Err AssertFailed
            | Some a =>
                let! nCoinTime := lift_chain (Chain.GetMedianTimePast m a) in
                Ok (nMinHeight,
                    Z.max nMinTime
                      (nCoinTime + u32 (Z.shiftl (Z.land (nSequence txin) SEQUENCE_LOCKTIME_MASK)
                                                 SEQUENCE_LOCKTIME_GRANULARITY) - 1))
            end
          else
            Ok (Z.max nMinHeight (nCoinHeight + Z.land (nSequence txin) SEQUENCE_LOCKTIME_MASK - 1), nMinTime) in
        let! (h, t, hs) := sequence_locks_loop m block l hs nMinHeight nMinTime in
        Ok (h, t, nCoinHeight :: hs)
  end.

Definition CalculateSequenceLocks (m : Chain.BlockMap) (tx : CTransaction) (flags : Z)
    (prevHeights : list Z) (block : uint256) : result txv_error (Z * Z * list Z) :=
  let! _ := require (length prevHeights =? length (vin tx))%nat AssertFailed in
  let fEnforceBIP68 := (u32 (nVersion tx) >=? 2) && negb (Z.land flags LOCKTIME_VERIFY_SEQUENCE =? 0) in
  if negb fEnforceBIP68 then Ok (-1, -1, prevHeights)
  else sequence_locks_loop m block (vin tx) prevHeights (-1) (-1).

Definition EvaluateSequenceLocks (m : Chain.BlockMap) (block : uint256) (lockPair : Z * Z)
    : result txv_error bool :=
  let! b := lift_chain (Chain.deref m block) in
  match Chain.pprev b with
  | None => Err AssertFailed
  | Some prev =>
      let! nBlockTime := lift_chain (Chain.GetMedianTimePast m prev) in
      Ok (negb ((lockPair.1 >=? Chain.nHeight b) || (lockPair.2 >=? nBlockTime)))
  end.

Definition SequenceLocks (m : Chain.BlockMap) (tx : CTransaction) (flags : Z) (prevHeights : list Z)
    (block : uint256) : result txv_error bool :=
  let! (h, t, _) := CalculateSequenceLocks m tx flags prevHeights block in
  EvaluateSequenceLocks m block (h, t).

(** ** Signature operations *)

Definition GetLegacySigOpCount (tx : CTransaction) : Z :=
  let n := foldl (fun n txin => u32 (n + GetSigOpCount (scriptSig txin) false)) 0 (vin tx) in
  foldl (fun n txout => u32 (n + GetSigOpCount (scriptPubKey txout) false)) n (vout tx).

Definition WitnessSigOps (witversion : Z) (witprogram : valtype) (witness : CScriptWitness) : Z :=
  if witversion =? 0 then
    if size witprogram =? WITNESS_V0_KEYHASH_SIZE then 1
    else if (size witprogram =? WITNESS_V0_SCRIPTHASH_SIZE) && (size witness >? 0) then
      GetSigOpCount (List.last witness []) true
    else 0
  else 0.

(** The last data of a push-only [scriptSig]; each round consumes a byte, and
    [IsPushOnly] has checked that every [GetOp] succeeds. *)
Fixpoint last_data (fuel : nat) (data : valtype) (pc : CScript) : valtype :=
  match fuel with
  | O => data
  | S fuel =>
      match GetScriptOp pc with
      | None => data
      | Some (_, data, pc) => last_data fuel data pc
      end
  end.

Definition CountWitnessSigOps (sig pubkey : CScript) (witness : CScriptWitness) (flags : Z)
    : result txv_error Z :=
  if Z.land flags SCRIPT_VERIFY_WITNESS =? 0 then Ok 0
  else
    let! _ := require (negb (Z.land flags SCRIPT_VERIFY_P2SH =? 0)) AssertFailed in
    match IsWitnessProgram pubkey with
    | Some (witnessversion, witnessprogram) => Ok (WitnessSigOps witnessversion witnessprogram witness)
    | None =>
        if IsPayToScriptHash pubkey && IsPushOnly sig then
          match IsWitnessProgram (last_data (length sig) [] sig) with
          | Some (witnessversion, witnessprogram) => Ok (WitnessSigOps witnessversion witnessprogram witness)
          | None => Ok 0
          end
        else Ok 0
    end.

Section View.
Context {B : Type} `{!CCoinsView B}.

Fixpoint p2sh_sigops_loop (c : CCoinsViewCache B) (l : list CTxIn) (nSigOps : Z)
    : result txv_error (Z * CCoinsViewCache B) :=
  match l with
  | [] => Ok (nSigOps, c)
  | i :: l =>
      let '(coin, c) := AccessCoin c (prevout i) in
      let! _ := require (negb (IsSpent coin)) AssertFailed in
      let spk := scriptPubKey (out coin) in
      p2sh_sigops_loop c l
        (if IsPayToScriptHash spk then u32 (nSigOps + GetP2SHSigOps spk (scriptSig i)) else nSigOps)
  end.

Definition GetP2SHSigOpCount (c : CCoinsViewCache B) (tx : CTransaction)
    : result txv_error (Z * CCoinsViewCache B) :=
  if IsCoinBase tx then Ok (0, c) else p2sh_sigops_loop c (vin tx) 0.

Fixpoint witness_sigops_loop (c : CCoinsViewCache B) (l : list CTxIn) (flags nSigOps : Z)
    : result txv_error (Z * CCoinsViewCache B) :=
  match l with
  | [] => Ok (nSigOps, c)
  | i :: l =>
      let '(coin, c) := AccessCoin c (prevout i) in
      let! _ := require (negb (IsSpent coin)) AssertFailed in
      let! n := CountWitnessSigOps (scriptSig i) (scriptPubKey (out coin)) (scriptWitness i) flags in
      witness_sigops_loop c l flags (i64 (nSigOps + n))
  end.

Definition GetTransactionSigOpCost (c : CCoinsViewCache B) (tx : CTransaction) (flags : Z)
    : result txv_error (Z * CCoinsViewCache B) :=
  let nSigOps := u32 (GetLegacySigOpCount tx * WITNESS_SCALE_FACTOR) in
  if IsCoinBase tx then Ok (nSigOps, c)
  else
    let! (nSigOps, c) :=
      if negb (Z.land flags SCRIPT_VERIFY_P2SH =? 0) then
        let! (n, c) := GetP2SHSigOpCount c tx in
        Ok (nSigOps + u32 (n * WITNESS_SCALE_FACTOR), c)
      else Ok (nSigOps, c) in
    witness_sigops_loop c (vin tx) flags nSigOps.

(** ** [Consensus::CheckTxInputs] *)

Definition COINBASE_MATURITY : Z := 100.

Fixpoint check_inputs_loop (c : CCoinsViewCache B) (l : list CTxIn) (nSpendHeight nValueIn : Z)
    : result txv_error (Z * CCoinsViewCache B) :=
  match l with
  | [] => Ok (nValueIn, c)
  | i :: l =>
      let '(coin, c) := AccessCoin c (prevout i) in
      let! _ := require (negb (IsSpent coin)) AssertFailed in
      let! _ := require (negb (fCoinBase coin && (nSpendHeight - coin_nHeight coin <? COINBASE_MATURITY)))
                  PrematureSpendOfCoinbase in
      let nValueIn := i64 (nValueIn + nValue (out coin)) in
      let! _ := require (negb (negb (MoneyRange (nValue (out coin))) || negb (MoneyRange nValueIn)))
                  InputValuesOutOfRange in
      check_inputs_loop c l nSpendHeight nValueIn
  end.

(** The fee, and the view with the inputs fetched. *)
Definition CheckTxInputs (c : CCoinsViewCache B) (tx : CTransaction) (nSpendHeight : Z)
    : result txv_error (Z * CCoinsViewCache B) :=
  let '(have, c) := HaveInputs c tx in
  let! _ := require have TxInputsMissingOrSpent in
  let! (nValueIn, c) := check_inputs_loop c (vin tx) nSpendHeight 0 in
  let! value_out := lift_tx (GetValueOut tx) in
  let! _ := require (negb (nValueIn <? value_out)) InBelowOut in
  let txfee_aux := i64 (nValueIn - value_out) in
  let! _ := require (MoneyRange txfee_aux) FeeOutOfRange in
  Ok (txfee_aux, c).

End View.

End TxVerify.

Module TxVerifyFacts.
Import TransactionFacts CoinsSpec CoinsFacts TxVerify.

Lemma same_trans {B} (utxo : B → COutPoint → option Coin) best inv a b c :
  same_view utxo best inv a b → same_view utxo best inv b c → same_view utxo best inv a c.
Proof. intros [A1 A2 A3] [B1 B2 B3]. split; [done|intros; by rewrite B2|by rewrite B3]. Qed.

Definition mature (nSpendHeight : Z) (k : Coin) : Prop :=
  fCoinBase k = true → nSpendHeight - coin_nHeight k >= COINBASE_MATURITY.

(** The coins a list of inputs spends in the unspent set [u], and that it may. *)
Definition spends (u : COutPoint → option Coin) (l : list CTxIn) (coins : list Coin) : Prop :=
  Forall2 (fun i k => u (prevout i) = Some k) l coins.
Definition spendable (nSpendHeight : Z) (coins : list Coin) : Prop :=
  Forall (mature nSpendHeight) coins ∧ Forall in_range (map out coins) ∧ total (map out coins) <= MAX_MONEY.

Lemma spends_ext u u' l coins : (∀ o, u' o = u o) → spends u' l coins → spends u l coins.
Proof. intros E H. eapply list.Forall2_impl; [exact H|]. cbn. intros i k <-. by rewrite E. Qed.

Lemma spends_det u l k1 k2 : spends u l k1 → spends u l k2 → k1 = k2.
Proof.
  intros H. revert k2. induction H as [|i k l ks Hi H IH]; intros k2 H2; inversion H2; [done|].
  subst. f_equal; [congruence|auto].
Qed.

Lemma spends_some u l coins : spends u l coins → Forall (fun i => is_Some (u (prevout i))) l.
Proof. induction 1; constructor; eauto. Qed.

(** A transaction that may be included at a height: the coins it spends are
    unspent, mature, in range, and worth at least its outputs. *)
Definition affordable (u : COutPoint → option Coin) (tx : CTransaction) (h : Z) (coins : list Coin) : Prop :=
  spends u (vin tx) coins ∧ spendable h coins ∧ Forall in_range (vout tx) ∧
  total (vout tx) <= total (map out coins).

(** What each error of [CheckTxInputs] says of the transaction; the other
    errors, a failed assertion among them, do not occur. *)
Definition refuses (u : COutPoint → option Coin) (tx : CTransaction) (h : Z) (e : txv_error) : Prop :=
  match e with
  | TxInputsMissingOrSpent => ¬ ∃ coins, spends u (vin tx) coins
  | PrematureSpendOfCoinbase | InputValuesOutOfRange => ∃ coins, spends u (vin tx) coins ∧ ¬ spendable h coins
  | TxThrown _ => ¬ (Forall in_range (vout tx) ∧ total (vout tx) <= MAX_MONEY)
  | InBelowOut => ∃ coins, spends u (vin tx) coins ∧ total (map out coins) < total (vout tx)
  | _ => False
  end.

Lemma refuses_affordable u tx h e coins : refuses u tx h e → ¬ affordable u tx h coins.
Proof.
  intros He (Hs & Hsp & Hr & Hle). destruct e; cbn in He; try done.
  - apply He. by exists coins.
  - destruct He as (k & Hk & Hn). by rewrite (spends_det _ _ _ _ Hk Hs) in Hn.
  - destruct He as (k & Hk & Hn). by rewrite (spends_det _ _ _ _ Hk Hs) in Hn.
  - destruct He as (k & Hk & Hn). rewrite (spends_det _ _ _ _ Hk Hs) in Hn. lia.
  - apply He. split; [done|]. destruct Hsp as (_ & _ & ?). lia.
Qed.

Section View.
Context {B : Type} `{!CCoinsView B} {utxo : B → COutPoint → option Coin} {best : B → uint256}
  {inv : B → Prop} `{HR : !CCoinsViewReads B utxo best inv}.
Implicit Types (c : CCoinsViewCache B).

Abbreviation c_utxo := (cache_utxo (utxo := utxo)).
Abbreviation c_inv := (cache_inv (utxo := utxo) (inv := inv)).
Abbreviation c_same := (same_view (cache_utxo (utxo := utxo)) (cache_best (best := best))
  (cache_inv (utxo := utxo) (inv := inv))).

Lemma same_refl c : c_inv c → c_same c c.
Proof. by split. Qed.

Lemma have_inputs_loop_spec c l :
  c_inv c →
  (have_inputs_loop c l).1 = forallb (fun i => bool_decide (is_Some (c_utxo c (prevout i)))) l ∧
  c_same c (have_inputs_loop c l).2.
Proof.
  revert c. induction l as [|i l IH]; intros c Hc; cbn [have_inputs_loop forallb]; [by split; [|split]|].
  pose proof (HaveCoin_spec c (prevout i) Hc) as [H1 H2].
  destruct (HaveCoin c (prevout i)) as [b c1]. cbn [fst snd] in *. subst b.
  destruct (bool_decide (is_Some (c_utxo c (prevout i)))); cbn [negb andb fst snd]; [|done].
  destruct (IH c1) as [IH1 IH2]; [by destruct H2|]. rewrite IH1. split; [|by eapply same_trans].
  apply forallb_ext. intros j. by destruct H2 as [_ -> _].
Qed.

Lemma check_inputs_loop_spec c l h v :
  c_inv c → 0 <= v <= MAX_MONEY → Forall (fun i => is_Some (c_utxo c (prevout i))) l →
  ∃ coins, spends (c_utxo c) l coins ∧
    match check_inputs_loop c l h v with
    | Ok (v', c') => Forall (mature h) coins ∧ Forall in_range (map out coins) ∧
                     v' = v + total (map out coins) ∧ v' <= MAX_MONEY ∧ c_same c c'
    | Err _ => ¬ (Forall (mature h) coins ∧ Forall in_range (map out coins) ∧
                  v + total (map out coins) <= MAX_MONEY)
    end.
Proof.
  revert c v. induction l as [|i l IH]; intros c v Hc Hv Hl.
  { exists []. split; [constructor|]. cbn. rewrite Z.add_0_r.
    split_and!; [constructor|constructor|done|lia|by apply same_refl]. }
  apply list.Forall_cons in Hl as [[k Hk] Hl]. cbn [check_inputs_loop].
  pose proof (AccessCoin_spec c (prevout i) Hc) as [H1 H2].
  destruct (AccessCoin c (prevout i)) as [k' c1]. cbn [fst snd] in *.
  rewrite Hk in H1. apply live_Some in H1 as [-> Hs]. rewrite Hs. cbn [negb require rbind].
  destruct H2 as [Hc1 Hu1 Hb1].
  assert (∀ coins, Forall (mature h) (k :: coins) ↔ mature h k ∧ Forall (mature h) coins) as Em
    by (intros; apply list.Forall_cons).
  assert (∀ coins, Forall in_range (map out (k :: coins)) ↔ in_range (out k) ∧ Forall in_range (map out coins)) as Er
    by (intros; apply list.Forall_cons).
  assert (∀ x, 0 <= x <= MAX_MONEY →
    ∃ coins, spends (c_utxo c) l coins ∧ match check_inputs_loop c1 l h x with
      | Ok (v', c') => Forall (mature h) coins ∧ Forall in_range (map out coins) ∧
                     v' = x + total (map out coins) ∧ v' <= MAX_MONEY ∧ c_same c c'
      | Err _ => ¬ (Forall (mature h) coins ∧ Forall in_range (map out coins) ∧ x + total (map out coins) <= MAX_MONEY)
      end) as IH'.
  { intros x Hx. destruct (IH c1 x Hc1 Hx) as (coins & Hsp & Hm).
    { eapply Forall_impl; [|exact Hl]. intros j. by rewrite Hu1. }
    exists coins. split; [by eapply spends_ext|]. destruct (check_inputs_loop c1 l h x) as [[v' c']|]; [|done].
    destruct Hm as (? & ? & ? & ? & Hsame). split_and!; [done..|]. by eapply same_trans. }
  assert (∃ coins, spends (c_utxo c) l coins) as [coins0 Hsp0].
  { destruct (IH' 0) as (coins & Hsp & _); [unfold MAX_MONEY, COIN; lia|]. by exists coins. }
  destruct (fCoinBase k && (h - coin_nHeight k <? COINBASE_MATURITY)) eqn:Emat; cbn [negb rbind require].
  { exists (k :: coins0). split; [by constructor|]. rewrite Em. unfold mature at 1.
    apply andb_true_iff in Emat as [Ek Emat]. intros [[Hm _] _]. specialize (Hm Ek). lia. }
  assert (mature h k) as Hmk by (unfold mature; intros Ek; rewrite Ek in Emat; cbn in Emat; lia).
  destruct (MoneyRange (nValue (out k))) eqn:Ev.
  2:{ exists (k :: coins0). split; [by constructor|]. cbn [negb orb require rbind]. rewrite Er. unfold in_range at 1.
      intros (_ & [Hr _] & _). apply MoneyRange_spec in Hr. congruence. }
  apply MoneyRange_spec in Ev. rewrite add_money by done.
  destruct (MoneyRange (v + nValue (out k))) eqn:Ev2; cbn [negb orb require rbind].
  - apply MoneyRange_spec in Ev2. destruct (IH' _ Ev2) as (coins & Hsp & Hm).
    exists (k :: coins). split; [by constructor|].
    destruct (check_inputs_loop c1 l h _) as [[v' c']|]; rewrite Em, Er; cbn [map total].
    + destruct Hm as (? & ? & -> & ? & ?). split_and!; done || lia.
    + rewrite Z.add_assoc. tauto.
  - exists (k :: coins0). split; [by constructor|]. rewrite Er. cbn [map total].
    intros (_ & [_ Hr] & Hle). apply total_nonneg in Hr. unfold MoneyRange in Ev2. lia.
Qed.

Lemma check_inputs_loop_err c l h v e :
  c_inv c → Forall (fun i => is_Some (c_utxo c (prevout i))) l → check_inputs_loop c l h v = Err e →
  e = PrematureSpendOfCoinbase ∨ e = InputValuesOutOfRange.
Proof.
  revert c v. induction l as [|i l IH]; intros c v Hc Hl; cbn [check_inputs_loop]; [done|].
  apply list.Forall_cons in Hl as [[k Hk] Hl]. pose proof (AccessCoin_spec c (prevout i) Hc) as [H1 [Hc1 Hu1 _]].
  destruct (AccessCoin c (prevout i)) as [k' c1]. cbn [fst snd] in *.
  rewrite Hk in H1. apply live_Some in H1 as [-> Hs]. rewrite Hs. cbn [negb require rbind].
  destruct (require _ PrematureSpendOfCoinbase) eqn:E1; cbn [rbind]; [|apply require_err in E1 as ->; intros [= <-]; by left].
  destruct (require _ InputValuesOutOfRange) eqn:E2; cbn [rbind]; [|apply require_err in E2 as ->; intros [= <-]; by right].
  apply IH; [done|]. eapply Forall_impl; [|exact Hl]. intros j. by rewrite Hu1.
Qed.

Lemma CheckTxInputs_spec c tx h :
  c_inv c → IsCoinBase tx = false →
  match CheckTxInputs c tx h with
  | Ok (fee, c') => c_same c c' ∧
      ∃ coins, affordable (c_utxo c) tx h coins ∧ fee = total (map out coins) - total (vout tx)
  | Err e => refuses (c_utxo c) tx h e
  end.
Proof.
  intros Hc Hcb. unfold CheckTxInputs, HaveInputs. rewrite Hcb. cbn [negb].
  pose proof (have_inputs_loop_spec c (vin tx) Hc) as [H1 H2].
  destruct (have_inputs_loop c (vin tx)) as [b c1]. cbn [fst snd] in *. subst b.
  destruct (forallb _ _) eqn:Eall; cbn [require rbind].
  2:{ intros (coins & Hsp%spends_some).
      enough (forallb (fun i => bool_decide (is_Some (c_utxo c (prevout i)))) (vin tx) = true) by congruence.
      apply forallb_forall. intros i Hi. rewrite List.Forall_forall in Hsp. by apply bool_decide_eq_true, Hsp. }
  pose proof H2 as [Hc1 Hu1 _].
  assert (Forall (fun i => is_Some (c_utxo c1 (prevout i))) (vin tx)) as Hall.
  { apply List.Forall_forall. intros i Hi. rewrite forallb_forall in Eall. specialize (Eall i Hi).
    rewrite Hu1. by apply bool_decide_eq_true in Eall. }
  destruct (check_inputs_loop_spec c1 (vin tx) h 0 Hc1) as (coins & Hsp & Hm); [unfold MAX_MONEY, COIN; lia|done|].
  apply (spends_ext (c_utxo c)) in Hsp; [|exact Hu1].
  destruct (check_inputs_loop c1 (vin tx) h 0) as [[v c2]|e] eqn:El; cbn [rbind].
  2:{ rewrite Z.add_0_l in Hm. destruct (check_inputs_loop_err _ _ _ _ _ Hc1 Hall El) as [-> | ->]; by exists coins. }
  destruct Hm as (M1 & M2 & -> & M4 & Hs). rewrite Z.add_0_l in *. pose proof (total_nonneg _ M2).
  destruct (GetValueOut tx) as [vo|e] eqn:Ev; cbn [lift_tx rbind].
  2:{ intros [H5 H6]. enough (GetValueOut tx = Ok (total (vout tx))) by congruence. by apply GetValueOut_spec. }
  apply GetValueOut_spec in Ev as (R1 & -> & R2). pose proof (total_nonneg _ R1).
  destruct (total (map out coins) <? total (vout tx)) eqn:Ele; to_prop; cbn [negb require rbind].
  { exists coins. split; [done|lia]. }
  rewrite swrap_small by (unfold in_s, MAX_MONEY, COIN in *; lia).
  rewrite (proj2 (MoneyRange_spec _)) by lia. cbn [require rbind].
  split; [by eapply same_trans|]. exists coins. done.
Qed.

End View.

(** ** Relative lock times *)

Definition lock_disabled (i : CTxIn) : bool := negb (Z.land (nSequence i) SEQUENCE_LOCKTIME_DISABLE_FLAG =? 0).
Definition lock_time_type (i : CTxIn) : bool := negb (Z.land (nSequence i) SEQUENCE_LOCKTIME_TYPE_FLAG =? 0).
Definition lock_value (i : CTxIn) : Z := nSequence i mod 2 ^ 16.

(** BIP 68: the coin created at height [hc] may be spent by input [i] in a
    block of height [H] whose parent's median time past is [T]. *)
Definition lock_ok (m : Chain.BlockMap) (block : uint256) (H T : Z) (i : CTxIn) (hc : Z) : Prop :=
  if lock_disabled i then True
  else if lock_time_type i then
    ∃ a t, ChainFacts.is_anc m block (Z.max (hc - 1) 0) a ∧ Chain.GetMedianTimePast m a = Ok t ∧
           t + 512 * lock_value i <= T
  else hc + lock_value i <= H.

Lemma lock_value_mask i : Z.land (nSequence i) SEQUENCE_LOCKTIME_MASK = lock_value i.
Proof. exact (land_ones_mod 16 (nSequence i) ltac:(lia)). Qed.

Lemma lock_value_seconds i : u32 (Z.shiftl (lock_value i) SEQUENCE_LOCKTIME_GRANULARITY) = 512 * lock_value i.
Proof.
  unfold SEQUENCE_LOCKTIME_GRANULARITY. rewrite Z.shiftl_mul_pow2 by lia.
  assert (0 <= lock_value i < 2 ^ 16) by (apply Z.mod_pos_bound; lia).
  rewrite wrap_small by (unfold in_u; lia). lia.
Qed.

Lemma sequence_locks_loop_spec m block b l hs H T mh mt :
  ChainFacts.wf_tree m → m !! block = Some b →
  Forall2 (fun _ hc => 0 <= hc <= Chain.nHeight b) l hs →
  ∃ h t hs', sequence_locks_loop m block l hs mh mt = Ok (h, t, hs') ∧
    (h < H ∧ t < T ↔ mh < H ∧ mt < T ∧ Forall2 (lock_ok m block H T) l hs).
Proof.
  intros Hwf Hb Hl. revert mh mt. induction Hl as [|i hc l hs Hhc Hl IH]; intros mh mt; cbn [sequence_locks_loop].
  { eexists _, _, _. split; [done|]. split; [by intros []; split_and!|]. by intros (? & ? & _). }
  fold (lock_disabled i) (lock_time_type i).
  assert (∀ P : Prop, Forall2 (lock_ok m block H T) (i :: l) (hc :: hs) ↔
    lock_ok m block H T i hc ∧ Forall2 (lock_ok m block H T) l hs) as Ec by (intros _; apply list.Forall2_cons).
  specialize (Ec True). unfold lock_ok at 2 in Ec.
  destruct (lock_disabled i).
  { destruct (IH mh mt) as (h & t & hs' & -> & E). eexists _, _, _. split; [done|]. rewrite E, Ec. tauto. }
  rewrite lock_value_mask, lock_value_seconds. destruct (lock_time_type i).
  - destruct (proj1 (ChainFacts.GetAncestor_spec m Hwf block b (Z.max (hc - 1) 0) Hb) ltac:(lia)) as (a & -> & Ha).
    destruct (ChainFacts.is_anc_lookup m Hwf _ _ _ Ha) as (_ & ba & _ & Hba & _ & _).
    destruct (ChainFacts.GetMedianTimePast_total m a ba Hwf Hba) as [ta Hta]. cbn [lift_chain rbind].
    rewrite Hta. cbn [lift_chain rbind].
    destruct (IH mh (Z.max mt (ta + 512 * lock_value i - 1))) as (h & t & hs' & -> & E).
    eexists _, _, _. split; [done|]. rewrite E, Ec.
    assert ((∃ a t, ChainFacts.is_anc m block (Z.max (hc - 1) 0) a ∧ Chain.GetMedianTimePast m a = Ok t ∧
           t + 512 * lock_value i <= T) ↔ ta + 512 * lock_value i <= T) as ->.
    { split; [|by intros; exists a, ta]. intros (a' & t' & Ha' & Ht' & Hle).
      rewrite (ChainFacts.is_anc_fun m Hwf _ _ _ _ Ha' Ha) in Ht'. rewrite Hta in Ht'. by injection Ht' as <-. }
    split; [intros (? & ? & ?)|intros (? & ? & ? & ?)]; split_and!; done || lia.
  - cbn [rbind]. destruct (IH (Z.max mh (hc + lock_value i - 1)) mt) as (h & t & hs' & -> & E).
    eexists _, _, _. split; [done|]. rewrite E, Ec.
    split; [intros (? & ? & ?)|intros (? & ? & ? & ?)]; split_and!; done || lia.
Qed.

End TxVerifyFacts.

Module TxVerifyProps.
Import TransactionFacts CoinsSpec CoinsFacts TxVerify TxVerifyFacts.


Definition demo_spend : CTransaction :=
  mkTx [mkTxIn (CoinsProps.demo_key 0) [] SEQUENCE_FINAL []] [mkTxOut 4000 [OP_1]] 2 0.

(** Spends a coin that is not there. *)
Definition demo_missing : CTransaction :=
  mkTx [mkTxIn (CoinsProps.demo_key 5) [] SEQUENCE_FINAL []] [mkTxOut 4000 [OP_1]] 2 0.


(** With BIP 68 enforced (transaction version at least 2 as an unsigned
    number), [SequenceLocks] never fails in a well-formed block tree, and
    returns true exactly when every input whose sequence number is a relative
    lock is old enough: by height, or by 512-second units over the median time
    past of the block before the one that created the coin. *)
Theorem SequenceLocks_correct (m : Chain.BlockMap) (tx : CTransaction) (prevHeights : list Z)
    (block prev : uint256) (b : Chain.CBlockIndex) (T : Z) :
  ChainFacts.wf_tree m → m !! block = Some b → Chain.pprev b = Some prev →
  Chain.GetMedianTimePast m prev = Ok T → 2 <= u32 (nVersion tx) →
  Forall2 (fun _ hc => 0 <= hc <= Chain.nHeight b) (vin tx) prevHeights →
  0 <= T →
  ∃ r, SequenceLocks m tx LOCKTIME_VERIFY_SEQUENCE prevHeights block = Ok r ∧
       (r = true ↔ Forall2 (lock_ok m block (Chain.nHeight b) T) (vin tx) prevHeights).
Proof.
  intros Hwf Hb Hp HT Hv Hh HT0. unfold SequenceLocks, CalculateSequenceLocks.
  rewrite (Forall2_length Hh), Nat.eqb_refl. cbn [require rbind].
  replace (u32 (nVersion tx) >=? 2) with true by lia.
  change (negb (Z.land LOCKTIME_VERIFY_SEQUENCE LOCKTIME_VERIFY_SEQUENCE =? 0)) with true. cbn [andb negb].
  destruct (sequence_locks_loop_spec m block b (vin tx) prevHeights (Chain.nHeight b) T (-1) (-1) Hwf Hb Hh)
    as (h & t & hs & -> & E).
  cbn [rbind]. unfold EvaluateSequenceLocks, Chain.deref. rewrite Hb. cbn [lift_chain rbind].
  rewrite Hp, HT. cbn [lift_chain rbind fst snd]. eexists. split; [done|].
  destruct (Hwf block b Hb) as [Hnn _]. transitivity (h < Chain.nHeight b ∧ t < T); [lia|].
  rewrite E. split; [by intros (_ & _ & ?)|]. intros. split_and!; done || lia.
Qed.

Definition demo_locked : CTransaction := mkTx [mkTxIn (CoinsProps.demo_key 0) [] 1 []] [] 2 0.

Lemma SequenceLocks_correct_witness :
  ∃ r, SequenceLocks ChainProps.demo_tree demo_locked LOCKTIME_VERIFY_SEQUENCE [1] [3] = Ok r ∧
       (r = true ↔ Forall2 (lock_ok ChainProps.demo_tree [3] 2 20) (vin demo_locked) [1]).
Proof.
  apply (SequenceLocks_correct ChainProps.demo_tree demo_locked [1] [3] [1]
    (ChainProps.demo_index (Some [1]) (Some [0]) 2 35) 20).
  - exact ChainProps.demo_tree_wf.
  - reflexivity.
  - reflexivity.
  - vm_compute. reflexivity.
  - vm_compute. congruence.
  - constructor; [cbn; lia|constructor].
  - lia.
Defined.

End TxVerifyProps.
