(* ===== verification/Merkle.v ===== *)
(** Merkle trees: [src/consensus/merkle.cpp] and the partial trees of
    [src/merkleblock.h] / [src/merkleblock.cpp].

    The double SHA-256 of two concatenated hashes ([SHA256D64], [Hash(l, r)])
    is the argument [Hash2].  Positions and widths are [nat]: a partial tree
    has at most [MAX_BLOCK_WEIGHT / MIN_TRANSACTION_WEIGHT] = 16666 leaves, so
    the [unsigned int] computations of the source do not wrap. *)
From Stdlib Require Import ZArith Lia.
From S2P Require Import Prelude Serialize Script Transaction.
Import Script Transaction.

Module Merkle.
Section Merkle.
Context (Hash2 : uint256 → uint256 → uint256).

(** ** [ComputeMerkleRoot] *)

(** Two equal hashes at positions [2i], [2i + 1]. *)
Fixpoint level_mutated (hashes : list uint256) : bool :=
  match hashes with
  | a :: b :: l => bool_decide (a = b) || level_mutated l
  | _ => false
  end.

(** [if (hashes.size() & 1) hashes.push_back(hashes.back())]. *)
Definition pad_level (hashes : list uint256) : list uint256 :=
  if Nat.odd (length hashes) then hashes ++ [List.last hashes null256] else hashes.

(** [SHA256D64(hashes\[0\], hashes\[0\], hashes.size() / 2)]. *)
Fixpoint hash_pairs (hashes : list uint256) : list uint256 :=
  match hashes with
  | a :: b :: l => Hash2 a b :: hash_pairs l
  | _ => []
  end.

Definition next_level (hashes : list uint256) : list uint256 := hash_pairs (pad_level hashes).

(** Every round at least halves the list rounded up, so its length bounds the
    rounds. *)
Fixpoint merkle_loop (fuel : nat) (hashes : list uint256) (mutation : bool) : list uint256 * bool :=
  match fuel with
  | O => (hashes, mutation)
  | S fuel =>
      if (1 <? length hashes)%nat then
        merkle_loop fuel (next_level hashes) (mutation || level_mutated hashes)
      else (hashes, mutation)
  end.

(** The root and the [mutated] flag. *)
Definition ComputeMerkleRoot (hashes : list uint256) : uint256 * bool :=
  match merkle_loop (length hashes) hashes false with
  | ([], mutation) => (null256, mutation)
  | (h :: _, mutation) => (h, mutation)
  end.

Definition BlockMerkleRoot (Hash : list Z → uint256) (vtx : list CTransaction) : uint256 * bool :=
  ComputeMerkleRoot (map (GetHash Hash) vtx).

(** The witness hash of the coinbase is taken to be 0. *)
Definition BlockWitnessMerkleRoot (Hash : list Z → uint256) (vtx : list CTransaction) : uint256 * bool :=
  ComputeMerkleRoot (match vtx with
                     | [] => []
                     | _ :: l => null256 :: map (GetWitnessHash Hash) l
                     end).

(** ** Partial trees *)

Definition BitsToBytes (bits : list bool) : list Z :=
  let ret := replicate ((length bits + 7) / 8) 0 in
  foldl (fun ret p =>
           <[(p / 8)%nat := Z.lor (default 0 (ret !! (p / 8)%nat))
                                  (Z.shiftl (if default false (bits !! p) then 1 else 0) (Z.of_nat (p mod 8)))]> ret)
        ret (seq 0 (length bits)).

Definition BytesToBits (bytes : list Z) : list bool :=
  map (fun p => negb (Z.land (default 0 (bytes !! (p / 8)%nat)) (Z.shiftl 1 (Z.of_nat (p mod 8))) =? 0))
      (seq 0 (length bytes * 8)).

Record CPartialMerkleTree := mkPartial {
  nTransactions : nat;
  vBits : list bool;
  vHash : list uint256;
  fBad : bool;
}.

Definition CalcTreeWidth (nTx height : nat) : nat := (nTx + 2 ^ height - 1) / 2 ^ height.

Fixpoint CalcHash (vTxid : list uint256) (height pos : nat) : uint256 :=
  match height with
  | O => default null256 (vTxid !! pos)
  | S height =>
      let left := CalcHash vTxid height (pos * 2) in
      let right := if (pos * 2 + 1 <? CalcTreeWidth (length vTxid) height)%nat
                   then CalcHash vTxid height (pos * 2 + 1) else left in
      Hash2 left right
  end.

(** [for (p = pos << height; p < (pos+1) << height && p < nTransactions; p++)]. *)
Definition parent_of_match (vMatch : list bool) (nTx height pos : nat) : bool :=
  existsb (fun p => default false (vMatch !! p))
          (seq (pos * 2 ^ height) (Nat.min ((pos + 1) * 2 ^ height) nTx - pos * 2 ^ height)).

(** The bits and hashes appended by [TraverseAndBuild]. *)
Fixpoint TraverseAndBuild (vTxid : list uint256) (vMatch : list bool) (height pos : nat)
    : list bool * list uint256 :=
  let fParentOfMatch := parent_of_match vMatch (length vTxid) height pos in
  match height with
  | O => ([fParentOfMatch], [CalcHash vTxid O pos])
  | S h =>
      if negb fParentOfMatch then ([fParentOfMatch], [CalcHash vTxid (S h) pos])
      else
        let '(b1, h1) := TraverseAndBuild vTxid vMatch h (pos * 2) in
        if (pos * 2 + 1 <? CalcTreeWidth (length vTxid) h)%nat then
          let '(b2, h2) := TraverseAndBuild vTxid vMatch h (pos * 2 + 1) in
          (fParentOfMatch :: b1 ++ b2, h1 ++ h2)
        else (fParentOfMatch :: b1, h1)
  end.

(** [while (CalcTreeWidth(nHeight) > 1) nHeight++]: the height is below the
    number of transactions. *)
Fixpoint tree_height_loop (fuel nTx nHeight : nat) : nat :=
  match fuel with
  | O => nHeight
  | S fuel => if (1 <? CalcTreeWidth nTx nHeight)%nat then tree_height_loop fuel nTx (S nHeight) else nHeight
  end.

Definition tree_height (nTx : nat) : nat := tree_height_loop nTx nTx 0.

Definition CPartialMerkleTree_of (vTxid : list uint256) (vMatch : list bool) : CPartialMerkleTree :=
  let '(bits, hashes) := TraverseAndBuild vTxid vMatch (tree_height (length vTxid)) 0 in
  mkPartial (length vTxid) bits hashes false.

(** The state of an extraction. *)
Record extraction := mkExtraction {
  nBitsUsed : nat;
  nHashUsed : nat;
  matched : list uint256;
  vnIndex : list nat;
  bad : bool;
}.

Definition set_bad (st : extraction) : extraction :=
  mkExtraction (nBitsUsed st) (nHashUsed st) (matched st) (vnIndex st) true.

Fixpoint TraverseAndExtract (t : CPartialMerkleTree) (height pos : nat) (st : extraction)
    : uint256 * extraction :=
  match vBits t !! nBitsUsed st with
  | None => (null256, set_bad st)
  | Some fParentOfMatch =>
      let st := mkExtraction (S (nBitsUsed st)) (nHashUsed st) (matched st) (vnIndex st) (bad st) in
      let leaf (at_bottom : bool) :=
        match vHash t !! nHashUsed st with
        | None => (null256, set_bad st)
        | Some hash =>
            if at_bottom && fParentOfMatch then
              (hash, mkExtraction (nBitsUsed st) (S (nHashUsed st)) (matched st ++ [hash]) (vnIndex st ++ [pos]) (bad st))
            else
              (hash, mkExtraction (nBitsUsed st) (S (nHashUsed st)) (matched st) (vnIndex st) (bad st))
        end in
      match height with
      | O => leaf true
      | S h =>
          if negb fParentOfMatch then leaf false
          else
            let '(lhs, st) := TraverseAndExtract t h (pos * 2) st in
            let '(rhs, st) :=
              if (pos * 2 + 1 <? CalcTreeWidth (nTransactions t) h)%nat then
                let '(rhs, st) := TraverseAndExtract t h (pos * 2 + 1) st in
                (rhs, if bool_decide (rhs = lhs) then set_bad st else st)
              else (lhs, st) in
            (Hash2 lhs rhs, st)
      end
  end.

Definition MIN_TRANSACTION_WEIGHT : Z := WITNESS_SCALE_FACTOR * 60.
Definition max_transactions : nat := Z.to_nat (MAX_BLOCK_WEIGHT / MIN_TRANSACTION_WEIGHT).

(** [fBad] after a traversal: the object keeps the flag. *)
Definition with_fBad (t : CPartialMerkleTree) (b : bool) : CPartialMerkleTree :=
  mkPartial (nTransactions t) (vBits t) (vHash t) b.

(** Root (null on failure), [vMatch], [vnIndex] and the object afterwards.
    [vMatch] is cleared first, [vnIndex] is appended to. *)
Definition ExtractMatches (t : CPartialMerkleTree) (vnIndex0 : list nat)
    : uint256 * list uint256 * list nat * CPartialMerkleTree :=
  if (nTransactions t =? 0)%nat then (null256, [], vnIndex0, t)
  else if (max_transactions <? nTransactions t)%nat then (null256, [], vnIndex0, t)
  else if (nTransactions t <? length (vHash t))%nat then (null256, [], vnIndex0, t)
  else if (length (vBits t) <? length (vHash t))%nat then (null256, [], vnIndex0, t)
  else
    let '(root, st) := TraverseAndExtract t (tree_height (nTransactions t)) 0
                         (mkExtraction 0 0 [] vnIndex0 (fBad t)) in
    let answer r := (r, matched st, vnIndex st, with_fBad t (bad st)) in
    if bad st then answer null256
    else if negb ((nBitsUsed st + 7) / 8 =? (length (vBits t) + 7) / 8)%nat then answer null256
    else if negb (nHashUsed st =? length (vHash t))%nat then answer null256
    else answer root.

(** Reading a tree off the wire packs and unpacks the flag bits. *)
Definition wire_trip (t : CPartialMerkleTree) : CPartialMerkleTree :=
  mkPartial (nTransactions t) (BytesToBits (BitsToBytes (vBits t))) (vHash t) false.

End Merkle.
End Merkle.

Module MerkleFacts.
Import Merkle.
Section MerkleFacts.
Context (Hash2 : uint256 → uint256 → uint256).
Implicit Types (l : list uint256).

(** ** Levels *)

Definition level (k : nat) l : list uint256 := Nat.iter k (next_level Hash2) l.

Lemma level_S k l : level (S k) l = level k (next_level Hash2 l).
Proof. unfold level. induction k as [|k IH]; [done|]. cbn in *. by rewrite IH. Qed.

(** Induction two elements at a time. *)
Lemma list_ind2 {A} (P : list A → Prop) :
  P [] → (∀ a, P [a]) → (∀ a b (l : list A), P l → P (a :: b :: l)) → ∀ l : list A, P l.
Proof.
  intros H0 H1 H2 l. enough (P l ∧ ∀ a, P (a :: l)) by tauto.
  induction l as [|b l [IH1 IH2]]; split; auto.
Qed.

Lemma next_level_cons2 a b l :
  next_level Hash2 (a :: b :: l) = Hash2 a b :: next_level Hash2 l.
Proof.
  unfold next_level, pad_level. change (Nat.odd (length (a :: b :: l))) with (Nat.odd (length l)).
  destruct (Nat.odd (length l)) eqn:E; [|done]. by destruct l.
Qed.

Lemma next_level_one a : next_level Hash2 [a] = [Hash2 a a].
Proof. done. Qed.

Lemma next_level_length l : length (next_level Hash2 l) = ((length l + 1) / 2)%nat.
Proof.
  induction l as [|a|a b l IH] using list_ind2; [done|done|].
  rewrite next_level_cons2. cbn [length]. rewrite IH.
  replace (S (S (length l)) + 1)%nat with (length l + 1 + 1 * 2)%nat by lia.
  rewrite Nat.div_add by lia. lia.
Qed.

Lemma next_level_lookup l p :
  (p * 2 < length l)%nat →
  default null256 (next_level Hash2 l !! p) =
  Hash2 (default null256 (l !! (p * 2)%nat))
        (if (p * 2 + 1 <? length l)%nat then default null256 (l !! (p * 2 + 1)%nat)
         else default null256 (l !! (p * 2)%nat)).
Proof.
  revert p. induction l as [|a|a b l IH] using list_ind2; intros p Hp; cbn [length] in Hp; [lia| |].
  { assert (p = 0)%nat as -> by lia. done. }
  rewrite next_level_cons2. destruct p as [|p]; [done|].
  replace (S p * 2)%nat with (S (S (p * 2))) by lia.
  replace (S (S (p * 2)) + 1)%nat with (S (S (p * 2 + 1))) by lia. cbn [lookup list_lookup length].
  rewrite IH by lia. by destruct (Nat.ltb_spec (p * 2 + 1) (length l)),
    (Nat.ltb_spec (S (S (p * 2 + 1))) (S (S (length l)))); try lia.
Qed.

Lemma CalcTreeWidth_S n h : CalcTreeWidth n (S h) = ((CalcTreeWidth n h + 1) / 2)%nat.
Proof.
  unfold CalcTreeWidth. assert (2 ^ h ≠ 0)%nat by (apply Nat.pow_nonzero; lia).
  rewrite Nat.pow_succ_r', (Nat.mul_comm 2), <- Nat.Div0.div_div.
  f_equal. rewrite <- Nat.div_add by lia. f_equal. lia.
Qed.

Lemma CalcTreeWidth_0 n : CalcTreeWidth n 0 = n.
Proof. unfold CalcTreeWidth. rewrite Nat.pow_0_r, Nat.div_1_r. lia. Qed.

Lemma level_length k l : length (level k l) = CalcTreeWidth (length l) k.
Proof.
  induction k as [|k IH]; [by rewrite CalcTreeWidth_0|].
  rewrite CalcTreeWidth_S, <- IH. apply next_level_length.
Qed.

(** The recursive node hash of a partial tree is the node of the level list. *)
Lemma CalcHash_level l k p :
  (p < CalcTreeWidth (length l) k)%nat → CalcHash Hash2 l k p = default null256 (level k l !! p).
Proof.
  revert p. induction k as [|k IH]; intros p Hp; [done|].
  rewrite CalcTreeWidth_S in Hp.
  assert (p * 2 < CalcTreeWidth (length l) k)%nat.
  { pose proof (Nat.Div0.mul_div_le (CalcTreeWidth (length l) k + 1) 2). lia. }
  cbn [CalcHash]. change (level (S k) l) with (next_level Hash2 (level k l)).
  rewrite next_level_lookup, !level_length by (rewrite level_length; lia).
  rewrite IH by lia. destruct (Nat.ltb_spec (p * 2 + 1) (CalcTreeWidth (length l) k)); [|done].
  by rewrite IH.
Qed.

(** ** Height *)

Lemma width_le_1 n h : (n <= 2 ^ h)%nat → (CalcTreeWidth n h <= 1)%nat.
Proof.
  intros H. unfold CalcTreeWidth. assert (2 ^ h ≠ 0)%nat by (apply Nat.pow_nonzero; lia).
  enough ((n + 2 ^ h - 1) / 2 ^ h < 2)%nat by lia. apply Nat.Div0.div_lt_upper_bound. lia.
Qed.

Lemma width_pos n h : (0 < n)%nat → (0 < CalcTreeWidth n h)%nat.
Proof.
  intros H. unfold CalcTreeWidth. assert (2 ^ h ≠ 0)%nat by (apply Nat.pow_nonzero; lia).
  apply Nat.div_str_pos. lia.
Qed.

Lemma tree_height_loop_width fuel n h :
  (n <= fuel + h)%nat → (CalcTreeWidth n (tree_height_loop fuel n h) <= 1)%nat.
Proof.
  revert h. induction fuel as [|fuel IH]; intros h Hf; cbn [tree_height_loop].
  - apply width_le_1. pose proof (Nat.pow_gt_lin_r 2 h). lia.
  - destruct (Nat.ltb_spec 1 (CalcTreeWidth n h)); [|lia]. apply IH. lia.
Qed.

Lemma tree_height_width n : (0 < n)%nat → CalcTreeWidth n (tree_height n) = 1%nat.
Proof.
  intros Hn. pose proof (tree_height_loop_width n n 0). pose proof (width_pos n (tree_height n) Hn).
  unfold tree_height in *. lia.
Qed.

Lemma length_pos l : l ≠ [] → (0 < length l)%nat.
Proof. destruct l; cbn [length]; [done|lia]. Qed.

(** ** The loop *)

(** The flag accumulated over the levels [k .. k + d - 1]. *)
Definition mutated_in (k d : nat) l : bool := existsb (fun i => level_mutated (level i l)) (seq k d).

Lemma merkle_loop_spec fuel k l m :
  merkle_loop Hash2 fuel (level k l) m =
  (level (tree_height_loop fuel (length l) k) l,
   m || mutated_in k (tree_height_loop fuel (length l) k - k) l) ∧
  (k <= tree_height_loop fuel (length l) k)%nat.
Proof.
  revert k m. induction fuel as [|fuel IH]; intros k m; cbn [merkle_loop tree_height_loop].
  { rewrite Nat.sub_diag. cbn. by rewrite orb_false_r. }
  rewrite level_length. destruct (1 <? CalcTreeWidth (length l) k)%nat.
  - destruct (IH (S k) (m || level_mutated (level k l))) as [E Hk].
    change (next_level Hash2 (level k l)) with (level (S k) l). rewrite E. split; [|lia].
    f_equal. rewrite <- orb_assoc. f_equal. unfold mutated_in.
    replace (tree_height_loop fuel (length l) (S k) - k)%nat
      with (S (tree_height_loop fuel (length l) (S k) - S k)) by lia. done.
  - rewrite Nat.sub_diag. cbn. by rewrite orb_false_r.
Qed.

(** The root is the only node of the top level. *)
Lemma ComputeMerkleRoot_spec l :
  l ≠ [] →
  level (tree_height (length l)) l = [(ComputeMerkleRoot Hash2 l).1] ∧
  (ComputeMerkleRoot Hash2 l).2 = mutated_in 0 (tree_height (length l)) l.
Proof.
  intros Hl. unfold ComputeMerkleRoot. destruct (merkle_loop_spec (length l) 0 l false) as [E _].
  change (level 0 l) with l in E. rewrite E. fold (tree_height (length l)). rewrite Nat.sub_0_r.
  assert (length (level (tree_height (length l)) l) = 1%nat) as Hone.
  { rewrite level_length. by apply tree_height_width, length_pos. }
  destruct (level _ _) as [|h [|? ?]]; by cbn in Hone.
Qed.

Lemma root_CalcHash l :
  l ≠ [] → (ComputeMerkleRoot Hash2 l).1 = CalcHash Hash2 l (tree_height (length l)) 0.
Proof.
  intros Hl. destruct (ComputeMerkleRoot_spec l Hl) as [E _].
  rewrite CalcHash_level, E; [done|]. rewrite tree_height_width by by apply length_pos. lia.
Qed.

(** ** Binding *)

(** The pairs [next_level] hashes, and those of the first [k] levels of a list. *)
Fixpoint level_pairs l : list (uint256 * uint256) :=
  match l with
  | [] => []
  | [a] => [(a, a)]
  | a :: b :: l => (a, b) :: level_pairs l
  end.
Definition pairs_below (k : nat) l : list (uint256 * uint256) := mjoin (map (fun i => level_pairs (level i l)) (seq 0 k)).
(** Every pair hashed on the way to the root. *)
Definition hashed_pairs l : list (uint256 * uint256) := pairs_below (tree_height (length l)) l.

Lemma next_level_pairs l : next_level Hash2 l = map (fun p => Hash2 p.1 p.2) (level_pairs l).
Proof. induction l as [|a|a b l IH] using list_ind2; [done|done|]. rewrite next_level_cons2, IH. done. Qed.

Lemma pairs_below_S k l : pairs_below (S k) l = pairs_below k l ++ level_pairs (level k l).
Proof. unfold pairs_below. rewrite seq_S, map_app, join_app. cbn. by rewrite app_nil_r. Qed.

(** Two different pairs, one of each list, with the same hash. *)
Definition collide (s t : list (uint256 * uint256)) : Prop :=
  ∃ p q, p ∈ s ∧ q ∈ t ∧ p ≠ q ∧ Hash2 p.1 p.2 = Hash2 q.1 q.2.

Lemma collide_mono s t s' t' : s ⊆ s' → t ⊆ t' → collide s t → collide s' t'.
Proof. intros Hs Ht (p & q & Hp & Hq & H). exists p, q. split_and!; [by apply Hs|by apply Ht|apply H..]. Qed.

Lemma Hash2_inj s t a b c d : Hash2 a b = Hash2 c d → (a, b) ∈ s → (c, d) ∈ t → (a = c ∧ b = d) ∨ collide s t.
Proof.
  intros E Hs Ht. destruct (decide ((a, b) = (c, d))) as [[= -> ->]|Hn]; [by left|].
  right. by exists (a, b), (c, d).
Qed.

Lemma next_level_inj l1 l2 :
  level_mutated l1 = false → level_mutated l2 = false →
  next_level Hash2 l1 = next_level Hash2 l2 → l1 = l2 ∨ collide (level_pairs l1) (level_pairs l2).
Proof.
  revert l2. induction l1 as [|a|a b l1 IH] using list_ind2; intros l2 H1 H2 E;
    destruct l2 as [|c [|d l2]]; rewrite ?next_level_cons2, ?next_level_one in E; try done; auto; cbn [level_pairs].
  - injection E as E. destruct (Hash2_inj [(a, a)] [(c, c)] _ _ _ _ E) as [[-> _]|]; [left|left|by left|by right].
  - injection E as E E'. destruct (Hash2_inj [(a, a)] ((c, d) :: level_pairs l2) _ _ _ _ E) as [[-> ->]|]; [left|left| |by right].
    cbn in H2. by rewrite bool_decide_true in H2.
  - injection E as E E'. destruct (Hash2_inj ((a, b) :: level_pairs l1) [(c, c)] _ _ _ _ E) as [[-> ->]|]; [left|left| |by right].
    cbn in H1. by rewrite bool_decide_true in H1.
  - injection E as E E'. cbn in H1, H2. to_prop.
    destruct (Hash2_inj ((a, b) :: level_pairs l1) ((c, d) :: level_pairs l2) _ _ _ _ E) as [[-> ->]|]; [left|left| |by right].
    destruct (IH l2) as [->|Hc]; [done..|by left|right]. eapply collide_mono; [..|exact Hc]; by apply list_subseteq_cons.
Qed.

Lemma levels_inj k l1 l2 :
  mutated_in 0 k l1 = false → mutated_in 0 k l2 = false →
  level k l1 = level k l2 → l1 = l2 ∨ collide (pairs_below k l1) (pairs_below k l2).
Proof.
  revert l1 l2. induction k as [|k IH]; intros l1 l2 H1 H2 E; [by left|].
  unfold mutated_in in H1, H2. rewrite seq_S, !existsb_app in H1, H2. cbn in H1, H2. to_prop.
  change (next_level Hash2 (level k l1) = next_level Hash2 (level k l2)) in E. rewrite !pairs_below_S.
  apply next_level_inj in E as [E|Hc]; [|right|done|done].
  - destruct (IH l1 l2) as [|Hc]; [done..|by left|right].
    eapply collide_mono; [..|exact Hc]; by apply list_subseteq_app_l.
  - eapply collide_mono; [..|exact Hc]; by apply list_subseteq_app_r.
Qed.

Lemma level_pairs_lookup l p :
  (p * 2 < length l)%nat →
  (default null256 (l !! (p * 2)%nat),
   if (p * 2 + 1 <? length l)%nat then default null256 (l !! (p * 2 + 1)%nat)
   else default null256 (l !! (p * 2)%nat)) ∈ level_pairs l.
Proof.
  revert p. induction l as [|a|a b l IH] using list_ind2; intros p Hp; cbn [length] in Hp; [lia| |].
  { assert (p = 0)%nat as -> by lia. left. }
  destruct p as [|p]; [left|]. right.
  replace (S p * 2)%nat with (S (S (p * 2))) by lia.
  replace (S (S (p * 2)) + 1)%nat with (S (S (p * 2 + 1))) by lia. cbn [lookup list_lookup length].
  specialize (IH p ltac:(lia)). by destruct (Nat.ltb_spec (p * 2 + 1) (length l)),
    (Nat.ltb_spec (S (S (p * 2 + 1))) (S (S (length l)))); try lia.
Qed.

(** The children of an inner node are hashed on the way to the root. *)
Lemma CalcHash_pair l h p :
  (S h <= tree_height (length l))%nat → (p * 2 < CalcTreeWidth (length l) h)%nat →
  (CalcHash Hash2 l h (p * 2),
   if (p * 2 + 1 <? CalcTreeWidth (length l) h)%nat then CalcHash Hash2 l h (p * 2 + 1) else CalcHash Hash2 l h (p * 2)) ∈ hashed_pairs l.
Proof.
  intros Hh Hp. apply list_elem_of_join. exists (level_pairs (level h l)). split.
  - pose proof (level_pairs_lookup (level h l) p) as H. rewrite level_length in H. specialize (H Hp).
    rewrite <- !CalcHash_level in H by done. destruct (Nat.ltb_spec (p * 2 + 1) (CalcTreeWidth (length l) h)); [|done].
    by rewrite (CalcHash_level l h (p * 2 + 1)).
  - apply list_elem_of_In, in_map_iff. exists h. split; [done|]. apply in_seq. lia.
Qed.

(** ** Siblings *)

Lemma level_mutated_false l p :
  level_mutated l = false → (p * 2 + 1 < length l)%nat →
  default null256 (l !! (p * 2 + 1)%nat) ≠ default null256 (l !! (p * 2)%nat).
Proof.
  revert p. induction l as [|a|a b l IH] using list_ind2; intros p Hm Hp; cbn [length] in Hp; [lia|lia|].
  cbn [level_mutated] in Hm. apply orb_false_iff in Hm as [Hab Hm]. apply bool_decide_eq_false in Hab.
  destruct p as [|p]; [by intros E; cbn in E; subst|].
  replace (S p * 2)%nat with (S (S (p * 2))) by lia.
  replace (S (S (p * 2)) + 1)%nat with (S (S (p * 2 + 1))) by lia.
  cbn [lookup list_lookup]. apply IH; [done|lia].
Qed.

Lemma width_lt n h p : (p < CalcTreeWidth n h)%nat ↔ (p * 2 ^ h < n)%nat.
Proof.
  unfold CalcTreeWidth. assert (2 ^ h ≠ 0)%nat as Hz by (apply Nat.pow_nonzero; lia).
  pose proof (Nat.div_mod_eq (n + 2 ^ h - 1) (2 ^ h)) as E.
  pose proof (Nat.mod_upper_bound (n + 2 ^ h - 1) (2 ^ h) Hz).
  set (q := ((n + 2 ^ h - 1) / 2 ^ h)%nat) in *. split; intros; nia.
Qed.

Lemma width_antitone n h k : (h <= k)%nat → (CalcTreeWidth n k <= CalcTreeWidth n h)%nat.
Proof.
  induction 1 as [|k Hk IH]; [done|]. rewrite CalcTreeWidth_S.
  pose proof (Nat.Div0.div_le_mono (CalcTreeWidth n k + 1) (2 * CalcTreeWidth n k) 2) as Hd.
  rewrite (Nat.mul_comm 2), Nat.div_mul in Hd by lia.
  destruct (CalcTreeWidth n k); [cbn; lia|lia].
Qed.

(** An unmutated list has no two equal siblings, at any height. *)
Lemma siblings_differ l h p :
  l ≠ [] → (ComputeMerkleRoot Hash2 l).2 = false → (p * 2 + 1 < CalcTreeWidth (length l) h)%nat →
  CalcHash Hash2 l h (p * 2 + 1) ≠ CalcHash Hash2 l h (p * 2).
Proof.
  intros Hl Hm Hp. rewrite !CalcHash_level by lia.
  apply level_mutated_false; [|by rewrite level_length].
  destruct (ComputeMerkleRoot_spec l Hl) as [_ E]. rewrite E in Hm.
  destruct (Nat.lt_ge_cases h (tree_height (length l))) as [Hh|Hh].
  - unfold mutated_in in Hm. destruct (level_mutated (level h l)) eqn:El; [|done].
    exfalso. apply not_true_iff_false in Hm. apply Hm, existsb_exists.
    exists h. split; [apply in_seq; lia|done].
  - pose proof (width_antitone (length l) _ _ Hh) as Hw.
    rewrite tree_height_width in Hw by by apply length_pos. lia.
Qed.

(** ** Extraction *)

Section Extract.
Context (vTxid : list uint256) (vMatch : list bool).

Abbreviation n := (length vTxid).

Definition leaves (h pos : nat) : list nat :=
  seq (pos * 2 ^ h) (Nat.min ((pos + 1) * 2 ^ h) n - pos * 2 ^ h).

(** The matched positions below a node. *)
Definition matches_in (h pos : nat) : list nat :=
  List.filter (fun p => default false (vMatch !! p)) (leaves h pos).

Definition txid_at (p : nat) : uint256 := default null256 (vTxid !! p).

Lemma leaves_split h pos : leaves (S h) pos = leaves h (pos * 2) ++ leaves h (pos * 2 + 1).
Proof.
  unfold leaves. rewrite Nat.pow_succ_r'.
  replace (pos * (2 * 2 ^ h))%nat with (pos * 2 * 2 ^ h)%nat by lia.
  replace ((pos + 1) * (2 * 2 ^ h))%nat with (pos * 2 * 2 ^ h + 2 ^ h + 2 ^ h)%nat by lia.
  replace ((pos * 2 + 1) * 2 ^ h)%nat with (pos * 2 * 2 ^ h + 2 ^ h)%nat by lia.
  replace ((pos * 2 + 1 + 1) * 2 ^ h)%nat with (pos * 2 * 2 ^ h + 2 ^ h + 2 ^ h)%nat by lia.
  set (a := (pos * 2 * 2 ^ h)%nat). set (c := (2 ^ h)%nat).
  destruct (Nat.le_gt_cases (a + c) n).
  - replace (Nat.min (a + c) n - a)%nat with c by lia. rewrite <- seq_app. f_equal. lia.
  - replace (Nat.min (a + c + c) n - (a + c))%nat with 0%nat by lia. rewrite app_nil_r. f_equal. lia.
Qed.

Lemma leaves_none h pos : (CalcTreeWidth n h <= pos)%nat → leaves h pos = [].
Proof.
  intros H. unfold leaves. assert (¬ pos * 2 ^ h < n)%nat by (rewrite <- width_lt; lia).
  by replace (_ - _)%nat with 0%nat by lia.
Qed.

Lemma leaves_0 pos : (pos < n)%nat → leaves 0 pos = [pos].
Proof.
  intros H. unfold leaves. rewrite Nat.pow_0_r, !Nat.mul_1_r.
  by replace (_ - _)%nat with 1%nat by lia.
Qed.

Lemma matches_split h pos : matches_in (S h) pos = matches_in h (pos * 2) ++ matches_in h (pos * 2 + 1).
Proof. unfold matches_in. by rewrite leaves_split, List.filter_app. Qed.

Lemma matches_no_parent h pos : parent_of_match vMatch n h pos = false → matches_in h pos = [].
Proof.
  unfold parent_of_match, matches_in. fold (leaves h pos). induction (leaves h pos) as [|p l IH]; [done|].
  cbn. intros H. to_prop. rewrite H. auto.
Qed.

(** Descending into the right subtree only when it exists. *)
Lemma matches_single h pos :
  (CalcTreeWidth n h <= pos * 2 + 1)%nat → matches_in (S h) pos = matches_in h (pos * 2).
Proof. intros H. rewrite matches_split. unfold matches_in at 2. rewrite leaves_none by done. apply app_nil_r. Qed.

Lemma build_sizes h pos :
  (pos < CalcTreeWidth n h)%nat →
  let '(bits, hashes) := TraverseAndBuild Hash2 vTxid vMatch h pos in
  (length hashes <= length bits)%nat ∧ (length hashes <= length (leaves h pos))%nat.
Proof.
  revert pos. induction h as [|h IH]; intros pos Hp; cbn [TraverseAndBuild].
  { rewrite CalcTreeWidth_0 in Hp. rewrite leaves_0 by done. cbn. lia. }
  assert (pos * 2 < CalcTreeWidth n h)%nat as Hl.
  { rewrite width_lt in *. rewrite Nat.pow_succ_r' in Hp. lia. }
  destruct (negb _).
  { split; [done|]. cbn [length]. unfold leaves. rewrite length_seq. apply width_lt in Hp.
    assert (2 ^ S h ≠ 0)%nat by (apply Nat.pow_nonzero; lia). lia. }
  specialize (IH (pos * 2)%nat Hl) as IH1. specialize (IH (pos * 2 + 1)%nat).
  destruct (TraverseAndBuild _ _ _ h (pos * 2)) as [b1 h1]. rewrite leaves_split.
  destruct (Nat.ltb_spec (pos * 2 + 1) (CalcTreeWidth n h)) as [Hr|Hr].
  - specialize (IH Hr). destruct (TraverseAndBuild _ _ _ h (pos * 2 + 1)) as [b2 h2].
    cbn [length]. rewrite !length_app. lia.
  - cbn [length]. rewrite length_app. lia.
Qed.

(** Traversing a stretch of the flags and hashes written by
    [TraverseAndBuild] gives the node hash and the matches below it. *)
Lemma extract_build (t : CPartialMerkleTree) h pos st B1 B2 H1 H2 :
  nTransactions t = n → (∀ k p, (p * 2 + 1 < CalcTreeWidth n k)%nat →
    CalcHash Hash2 vTxid k (p * 2 + 1) ≠ CalcHash Hash2 vTxid k (p * 2)) →
  (pos < CalcTreeWidth n h)%nat →
  vBits t = B1 ++ (TraverseAndBuild Hash2 vTxid vMatch h pos).1 ++ B2 → nBitsUsed st = length B1 →
  vHash t = H1 ++ (TraverseAndBuild Hash2 vTxid vMatch h pos).2 ++ H2 → nHashUsed st = length H1 →
  TraverseAndExtract Hash2 t h pos st =
  (CalcHash Hash2 vTxid h pos,
   mkExtraction (length B1 + length (TraverseAndBuild Hash2 vTxid vMatch h pos).1)
                (length H1 + length (TraverseAndBuild Hash2 vTxid vMatch h pos).2)
                (matched st ++ map (txid_at) (matches_in h pos))
                (vnIndex st ++ matches_in h pos) (bad st)).
Proof.
  intros Hn Hsib. revert pos st B1 B2 H1 H2. induction h as [|h IH]; intros pos st B1 B2 H1 H2 Hp HB Hb HH Hh.
  - cbn [TraverseAndBuild TraverseAndExtract fst snd app] in *.
    rewrite CalcTreeWidth_0 in Hp. rewrite HB, Hb, list_lookup_middle by done.
    cbn [nHashUsed matched vnIndex bad nBitsUsed]. rewrite HH, Hh, list_lookup_middle by done.
    unfold matches_in, parent_of_match. fold (leaves 0 pos). rewrite leaves_0 by done. cbn [existsb List.filter length].
    rewrite orb_false_r, !Nat.add_1_r. destruct (default false (vMatch !! pos)); [done|].
    cbn [andb map]. by rewrite !app_nil_r.
  - cbn [TraverseAndBuild TraverseAndExtract CalcHash] in *.
    destruct (parent_of_match vMatch n (S h) pos) eqn:Epar; cbn [negb] in *.
    2:{ cbn [fst snd app] in HB, HH. rewrite HB, Hb, list_lookup_middle by done.
        cbn [nHashUsed matched vnIndex bad nBitsUsed negb]. rewrite HH, Hh, list_lookup_middle by done.
        rewrite matches_no_parent by done. cbn [andb map length fst snd]. by rewrite !app_nil_r, !Nat.add_1_r. }
    assert (pos * 2 < CalcTreeWidth n h)%nat as Hl.
    { rewrite width_lt in *. rewrite Nat.pow_succ_r' in Hp. lia. }
    destruct (TraverseAndBuild _ _ _ h (pos * 2)) as [b1 h1] eqn:E1.
    specialize (IH (pos * 2)%nat) as IHl. rewrite E1 in IHl. cbn [fst snd] in IHl.
    rewrite Hn. destruct (Nat.ltb_spec (pos * 2 + 1) (CalcTreeWidth n h)) as [Hr|Hr].
    + destruct (TraverseAndBuild _ _ _ h (pos * 2 + 1)) as [b2 h2] eqn:E2.
      specialize (IH (pos * 2 + 1)%nat) as IHr. rewrite E2 in IHr. cbn [fst snd app] in *.
      rewrite HB, Hb, list_lookup_middle by done. cbn [negb].
      rewrite (IHl _ (B1 ++ [true]) (b2 ++ B2) H1 (h2 ++ H2)); [|done| | |  |done];
        [|by rewrite HB, <- !app_assoc|cbn; rewrite length_app; cbn; lia|by rewrite HH, <- !app_assoc].
      rewrite (IHr _ (B1 ++ true :: b1) B2 (H1 ++ h1) H2); [|done| | | |];
        [|by rewrite HB, <- !app_assoc|cbn; rewrite !length_app; cbn; lia|by rewrite HH, <- !app_assoc|cbn; by rewrite length_app].
      rewrite bool_decide_false by by apply Hsib. cbn [matched vnIndex bad].
      rewrite matches_split, map_app, !length_app, <- !app_assoc. cbn [length]. rewrite !length_app.
      do 2 f_equal; lia.
    + cbn [fst snd app] in *. rewrite HB, Hb, list_lookup_middle by done. cbn [negb].
      rewrite (IHl _ (B1 ++ [true]) B2 H1 H2); [|done| | |done|done];
        [|by rewrite HB, <- !app_assoc|cbn; rewrite length_app; cbn; lia].
      cbn [matched vnIndex bad]. rewrite matches_single by done.
      rewrite !length_app. cbn [length]. do 2 f_equal; lia.
Qed.

(** ** Soundness of an arbitrary partial tree *)

Definition pairs_ok (st : extraction) : Prop :=
  Forall2 (fun m p => vTxid !! p = Some m) (matched st) (vnIndex st).

Lemma extract_bad_mono t h pos st hash st' :
  TraverseAndExtract Hash2 t h pos st = (hash, st') → bad st' = false → bad st = false.
Proof.
  revert pos st hash st'. induction h as [|h IH]; intros pos st hash st'; cbn [TraverseAndExtract];
    destruct (vBits t !! nBitsUsed st) as [b|]; try by intros [= _ <-].
  - cbn. destruct (vHash t !! nHashUsed st); [|by intros [= _ <-]]. by destruct b; intros [= _ <-].
  - destruct b; cbn [negb]; [|cbn; destruct (vHash t !! nHashUsed st); by intros [= _ <-]].
    destruct (TraverseAndExtract Hash2 t h (pos * 2) _) as [lhs st1] eqn:E1.
    destruct (_ <? _)%nat; [|intros [= _ <-] Hb; by apply (IH _ _ _ _ E1)].
    destruct (TraverseAndExtract Hash2 t h (pos * 2 + 1) st1) as [rhs st2] eqn:E2.
    intros [= _ <-] Hb. apply (IH _ _ _ _ E1). apply (IH _ _ _ _ E2). by case_bool_decide.
Qed.

(** The pairs a traversal hashes. *)
Fixpoint extract_pairs (t : CPartialMerkleTree) (height pos : nat) (st : extraction) : list (uint256 * uint256) :=
  match height, vBits t !! nBitsUsed st with
  | S h, Some true =>
      let st := mkExtraction (S (nBitsUsed st)) (nHashUsed st) (matched st) (vnIndex st) (bad st) in
      let '(lhs, st1) := TraverseAndExtract Hash2 t h (pos * 2) st in
      if (pos * 2 + 1 <? CalcTreeWidth (nTransactions t) h)%nat
      then (lhs, (TraverseAndExtract Hash2 t h (pos * 2 + 1) st1).1) ::
           extract_pairs t h (pos * 2) st ++ extract_pairs t h (pos * 2 + 1) st1
      else (lhs, lhs) :: extract_pairs t h (pos * 2) st
  | _, _ => []
  end.

Lemma extract_sound t h pos st hash st' :
  nTransactions t = n → (h <= tree_height n)%nat → (pos < CalcTreeWidth n h)%nat →
  TraverseAndExtract Hash2 t h pos st = (hash, st') → bad st' = false →
  hash = CalcHash Hash2 vTxid h pos → pairs_ok st → pairs_ok st' ∨ collide (extract_pairs t h pos st) (hashed_pairs vTxid).
Proof.
  intros Hn. revert pos st hash st'. unfold pairs_ok.
  induction h as [|h IH]; intros pos st hash st' Hh Hp; cbn [TraverseAndExtract extract_pairs];
    destruct (vBits t !! nBitsUsed st) as [b|]; try (intros [= _ <-]; by cbn).
  - cbn. destruct (vHash t !! nHashUsed st); [|by intros [= _ <-]].
    destruct b; intros [= -> <-] _ E Hst; left; cbn; [|done].
    apply Forall2_app; [done|]. constructor; [|constructor].
    rewrite CalcTreeWidth_0 in Hp. destruct (lookup_lt_is_Some_2 _ _ Hp) as [x Hx].
    rewrite E, Hx. done.
  - destruct b; cbn [negb];
      [|cbn; destruct (vHash t !! nHashUsed st); intros [= _ <-]; [intros; by left|done]].
    assert (pos * 2 < CalcTreeWidth n h)%nat as Hl.
    { rewrite width_lt in *. rewrite Nat.pow_succ_r' in Hp. lia. }
    pose proof (CalcHash_pair vTxid h pos Hh Hl) as Hin. cbn zeta. set (st0 := mkExtraction _ _ _ _ _).
    destruct (TraverseAndExtract Hash2 t h (pos * 2) st0) as [lhs st1] eqn:E1.
    rewrite Hn. cbn [CalcHash]. revert Hin. destruct (Nat.ltb_spec (pos * 2 + 1) (CalcTreeWidth n h)) as [Hr|Hr]; intros Hin.
    + destruct (TraverseAndExtract Hash2 t h (pos * 2 + 1) st1) as [rhs st2] eqn:E2. cbn [fst].
      case_bool_decide; [by intros [= _ <-]|]. intros [= <- <-] Hb E Hst.
      destruct (Hash2_inj ((lhs, rhs) :: extract_pairs t h (pos * 2) st0 ++ extract_pairs t h (pos * 2 + 1) st1) _ _ _ _ _ E
        ltac:(left) Hin) as [[El Er]|Hc]; [|by right].
      destruct (IH _ _ _ _ ltac:(lia) Hl E1) as [Hs1|Hc]; [|done|done| |right].
      * by apply (extract_bad_mono _ _ _ _ _ _ E2).
      * destruct (IH _ _ _ _ ltac:(lia) Hr E2) as [Hs2|Hc]; [done..|by left|right].
        eapply collide_mono; [|done|exact Hc]. by apply list_subseteq_cons, list_subseteq_app_r.
      * eapply collide_mono; [|done|exact Hc]. by apply list_subseteq_cons, list_subseteq_app_l.
    + intros [= <- <-] Hb E Hst.
      destruct (Hash2_inj ((lhs, lhs) :: extract_pairs t h (pos * 2) st0) _ _ _ _ _ E ltac:(left) Hin) as [[El Er]|Hc]; [|by right].
      destruct (IH _ _ _ _ ltac:(lia) Hl E1) as [Hs1|Hc]; [done..|by left|right].
      eapply collide_mono; [|done|exact Hc]. by apply list_subseteq_cons.
Qed.

End Extract.

(** ** Flag bits on the wire *)

Lemma bits_fold bits ret k :
  length ret = ((length bits + 7) / 8)%nat → (k <= length bits)%nat →
  (∀ q, Z.testbit (default 0 (ret !! q)) = Z.testbit 0) →
  let ret' := foldl (fun ret p =>
           <[(p / 8)%nat := Z.lor (default 0 (ret !! (p / 8)%nat))
                                  (Z.shiftl (if default false (bits !! p) then 1 else 0) (Z.of_nat (p mod 8)))]> ret)
        ret (seq 0 k) in
  length ret' = length ret ∧
  ∀ q, Z.testbit (default 0 (ret' !! (q / 8)%nat)) (Z.of_nat (q mod 8)) =
       (q <? k)%nat && default false (bits !! q).
Proof.
  intros Hlen Hk H0. induction k as [|k IH]; cbn zeta.
  { split; [done|]. intros q. cbn. by rewrite H0, Z.testbit_0_l. }
  rewrite seq_S, foldl_snoc. cbn [Nat.add]. destruct IH as [Hl Ht]; [lia|].
  set (r := foldl _ ret (seq 0 k)) in *. split; [by rewrite length_insert|]. intros q.
  assert (k / 8 < length r)%nat as Hb.
  { rewrite Hl, Hlen. apply Nat.Div0.div_lt_upper_bound.
    pose proof (Nat.div_mod_eq (length bits + 7) 8). pose proof (Nat.mod_upper_bound (length bits + 7) 8). lia. }
  rewrite list_lookup_insert_default by done.
  pose proof (Nat.div_mod_eq q 8). pose proof (Nat.div_mod_eq k 8).
  destruct (decide (k / 8 = q / 8)%nat) as [E|E].
  - rewrite Z.lor_spec, Z.shiftl_spec, E, Ht by lia.
    destruct (decide (q = k)) as [->|Hq].
    + rewrite Z.sub_diag, Nat.ltb_irrefl. replace (k <? S k)%nat with true by (symmetry; apply Nat.ltb_lt; lia).
      by destruct (default false (bits !! k)).
    + replace (q <? S k)%nat with (q <? k)%nat
        by (destruct (Nat.ltb_spec q k), (Nat.ltb_spec q (S k)); lia || done).
      enough (Z.testbit (if default false (bits !! k) then 1 else 0)
                (Z.of_nat (q mod 8) - Z.of_nat (k mod 8)) = false) as -> by by rewrite orb_false_r.
      destruct (Z.lt_ge_cases (Z.of_nat (q mod 8)) (Z.of_nat (k mod 8))).
      * apply Z.testbit_neg_r. lia.
      * apply (testbit_high 1); [|lia]. destruct (default _ _); unfold in_u; lia.
  - rewrite Ht. replace (q <? S k)%nat with (q <? k)%nat; [done|].
    destruct (Nat.ltb_spec q k), (Nat.ltb_spec q (S k)); try lia; try done.
    assert (q = k) as -> by lia. done.
Qed.

(** Packing and unpacking only adds padding up to a whole byte. *)
Lemma bits_padding bits :
  ∃ pad, BytesToBits (BitsToBytes bits) = bits ++ pad ∧
         (length bits + length pad = (length bits + 7) / 8 * 8)%nat.
Proof.
  unfold BytesToBits, BitsToBytes.
  destruct (bits_fold bits (replicate ((length bits + 7) / 8) 0) (length bits)) as [Hl Ht];
    [by rewrite length_replicate|done| |].
  { intros q. destruct (replicate _ _ !! q) eqn:E; [|done]. by apply lookup_replicate in E as [-> _]. }
  set (r := foldl _ _ _) in *. rewrite length_replicate in Hl. rewrite Hl.
  assert (length bits <= (length bits + 7) / 8 * 8)%nat as Hle.
  { pose proof (Nat.div_mod_eq (length bits + 7) 8). pose proof (Nat.mod_upper_bound (length bits + 7) 8). lia. }
  set (f := fun p => negb _). set (m := ((length bits + 7) / 8 * 8)%nat) in *.
  exists (map f (seq (length bits) (m - length bits))). split; [|rewrite length_map, length_seq; lia].
  replace m with (length bits + (m - length bits))%nat at 1 by lia.
  rewrite seq_app, map_app. f_equal. apply list_eq. intros i.
  destruct (Nat.lt_ge_cases i (length bits)) as [Hi|Hi].
  - rewrite list_lookup_fmap, lookup_seq_lt by done. cbn. unfold f.
    rewrite land_bit, Ht by lia. replace (i <? length bits)%nat with true by (symmetry; by apply Nat.ltb_lt).
    destruct (lookup_lt_is_Some_2 _ _ Hi) as [x Hx]. by rewrite Hx.
  - rewrite !lookup_ge_None_2; [done|lia|rewrite length_map, length_seq; lia].
Qed.


(** ** The public entry points *)

Section Entry.
Context (vTxid : list uint256) (vMatch : list bool).
Abbreviation built := (TraverseAndBuild Hash2 vTxid vMatch (tree_height (length vTxid)) 0).

Lemma built_fields t' :
  t' = CPartialMerkleTree_of Hash2 vTxid vMatch ∨ t' = wire_trip (CPartialMerkleTree_of Hash2 vTxid vMatch) →
  ∃ pad, vBits t' = built.1 ++ pad ∧ vHash t' = built.2 ∧ nTransactions t' = length vTxid ∧ fBad t' = false ∧
    ((length built.1 + 7) / 8 = (length (vBits t') + 7) / 8)%nat.
Proof.
  unfold CPartialMerkleTree_of. destruct built as [bits hashes]. intros [->| ->]; cbn [fst snd].
  - exists []. by rewrite app_nil_r.
  - cbn [wire_trip vBits vHash nTransactions fBad]. destruct (bits_padding bits) as (pad & -> & Hp).
    exists pad. split_and!; [done..|]. rewrite length_app, Hp, Nat.div_add_l by lia. cbn. lia.
Qed.

Lemma leaves_all :
  vTxid ≠ [] → leaves vTxid (tree_height (length vTxid)) 0 = seq 0 (length vTxid).
Proof.
  intros Hne. pose proof (tree_height_width _ (length_pos vTxid Hne)) as E.
  set (h := tree_height (length vTxid)) in *.
  unfold leaves. cbn [Nat.mul Nat.add]. rewrite Nat.sub_0_r, Nat.add_0_r. f_equal.
  enough (¬ 2 ^ h < length vTxid)%nat by lia.
  rewrite <- (Nat.mul_1_l (2 ^ h)), <- width_lt. lia.
Qed.

Lemma extract_built t' pad vnIndex0 :
  vTxid ≠ [] → (length vTxid <= max_transactions)%nat → (ComputeMerkleRoot Hash2 vTxid).2 = false →
  vBits t' = built.1 ++ pad → vHash t' = built.2 → nTransactions t' = length vTxid → fBad t' = false →
  ((length built.1 + 7) / 8 = (length (vBits t') + 7) / 8)%nat →
  let idx := List.filter (fun p => default false (vMatch !! p)) (seq 0 (length vTxid)) in
  ExtractMatches Hash2 t' vnIndex0 =
  ((ComputeMerkleRoot Hash2 vTxid).1, map (txid_at vTxid) idx, vnIndex0 ++ idx, t').
Proof.
  intros Hne Hmax Hmut Hb Hh Hnt Hf Hlen idx. pose proof (length_pos vTxid Hne) as Hn.
  pose proof (width_pos _ (tree_height (length vTxid)) Hn) as Hw.
  pose proof (build_sizes vTxid vMatch _ 0 Hw) as Hs.
  assert (TraverseAndExtract Hash2 t' (tree_height (nTransactions t')) 0 (mkExtraction 0 0 [] vnIndex0 (fBad t')) =
    (CalcHash Hash2 vTxid (tree_height (length vTxid)) 0,
     mkExtraction (length built.1) (length built.2) (map (txid_at vTxid) idx) (vnIndex0 ++ idx) false)) as He.
  { rewrite Hnt, (extract_build vTxid vMatch t' _ 0 _ [] pad [] []); try done.
    - unfold matches_in. by rewrite leaves_all, Hf.
    - intros. by apply siblings_differ.
    - cbn [app]. by rewrite app_nil_r. }
  unfold ExtractMatches. rewrite He. rewrite leaves_all, length_seq in Hs by done.
  destruct built as [bits hashes]. cbn [fst snd nBitsUsed nHashUsed matched vnIndex bad] in *.
  rewrite Hnt, Hh, Hlen, Nat.eqb_refl, Nat.eqb_refl, <- root_CalcHash by done. cbn [negb].
  rewrite (proj2 (Nat.eqb_neq _ 0)), (proj2 (Nat.ltb_ge max_transactions _)),
    (proj2 (Nat.ltb_ge (length vTxid) _)), (proj2 (Nat.ltb_ge (length (vBits t')) _))
    by (rewrite ?Hb, ?length_app; lia).
  unfold with_fBad. rewrite <- Hf. by destruct t'.
Qed.
End Entry.

(** A root other than null is only returned by a clean traversal. *)
Lemma extract_accepts t root ids idx t' :
  root ≠ null256 → ExtractMatches Hash2 t [] = (root, ids, idx, t') →
  ∃ st, TraverseAndExtract Hash2 t (tree_height (nTransactions t)) 0 (mkExtraction 0 0 [] [] (fBad t)) = (root, st) ∧
        bad st = false ∧ ids = matched st ∧ idx = vnIndex st.
Proof.
  intros Hr. unfold ExtractMatches. destruct (TraverseAndExtract _ _ _ _ _) as [r st].
  repeat (case_match; [intros [= <-]; done|]). intros [= -> <- <- <-]. by exists st.
Qed.

End MerkleFacts.
End MerkleFacts.

Module MerkleProps.
Import Merkle MerkleFacts.

(** A pairing without collisions, standing for the hash in the witnesses. *)
Definition demo_hash (a b : uint256) : uint256 := Z.of_nat (length a) :: a ++ b.
Definition demo_ids : list uint256 := [[1]; [2]; [3]; [4]; [5]].

(** C33: The Merkle root binds the transaction list.  Two non-empty lists of
    the same tree height with the same root and neither reported as mutated
    (the CVE-2012-2459 flag) are equal, unless two different pairs hashed on the
    way to the two roots have the same hash. *)
Theorem merkle_root_binding (Hash2 : uint256 → uint256 → uint256) (l1 l2 : list uint256) (root : uint256) :
  l1 ≠ [] → l2 ≠ [] → tree_height (length l1) = tree_height (length l2) →
  ComputeMerkleRoot Hash2 l1 = (root, false) → ComputeMerkleRoot Hash2 l2 = (root, false) →
  l1 = l2 ∨ collide Hash2 (hashed_pairs Hash2 l1) (hashed_pairs Hash2 l2).
Proof.
  intros N1 N2 Hh R1 R2.
  destruct (ComputeMerkleRoot_spec Hash2 l1 N1) as [E1 M1], (ComputeMerkleRoot_spec Hash2 l2 N2) as [E2 M2].
  rewrite R1 in *. rewrite R2 in *. unfold hashed_pairs. rewrite <- Hh in *. apply levels_inj; [done|done|].
  by rewrite E1, E2.
Qed.

(** With a constant hash the two lists have one root, and their pairs collide. *)
Lemma merkle_root_binding_witness :
  let Hash2 (_ _ : uint256) : uint256 := [0] in
  collide Hash2 (hashed_pairs Hash2 [[1]; [2]]) (hashed_pairs Hash2 [[1]; [3]]).
Proof.
  intros Hash2. destruct (merkle_root_binding Hash2 [[1]; [2]] [[1]; [3]] [0]) as [E|H];
    [discriminate|discriminate|reflexivity|reflexivity|reflexivity|discriminate|exact H].
Defined.

(** C34: A partial tree built from a block's transaction ids and a match mask,
    as built or after a trip over the wire, extracts to the root
    [ComputeMerkleRoot] computes, the matched ids and their positions, in
    order, and is not flagged bad. *)
Theorem partial_tree_roundtrip (Hash2 : uint256 → uint256 → uint256) (vTxid : list uint256)
    (vMatch : list bool) (vnIndex0 : list nat) :
  vTxid ≠ [] → (length vTxid <= max_transactions)%nat →
  (ComputeMerkleRoot Hash2 vTxid).2 = false →
  let t := CPartialMerkleTree_of Hash2 vTxid vMatch in
  let idx := List.filter (fun p => default false (vMatch !! p)) (seq 0 (length vTxid)) in
  ∀ t', t' = t ∨ t' = wire_trip t →
  ExtractMatches Hash2 t' vnIndex0 =
  ((ComputeMerkleRoot Hash2 vTxid).1, map (fun p => default null256 (vTxid !! p)) idx, vnIndex0 ++ idx, t').
Proof.
  intros Hne Hmax Hmut t idx t' Ht'.
  destruct (built_fields Hash2 vTxid vMatch t' Ht') as (pad & Hb & Hh & Hnt & Hf & Hlen).
  by rewrite (extract_built Hash2 vTxid vMatch t' pad).
Qed.

Lemma partial_tree_roundtrip_witness :
  let t := CPartialMerkleTree_of demo_hash demo_ids [false; true; false; false; true] in
  ExtractMatches demo_hash (wire_trip t) [] =
  ((ComputeMerkleRoot demo_hash demo_ids).1, [[2]; [5]], [1; 4]%nat, wire_trip t).
Proof.
  apply (partial_tree_roundtrip demo_hash demo_ids [false; true; false; false; true] []);
    [discriminate|apply Nat.leb_le; vm_compute; reflexivity|vm_compute; reflexivity|by right].
Defined.

(** C35: A partial tree from an untrusted peer that extracts to the Merkle root
    of a block with as many transactions only reports ids that are in the
    block, at the positions it gives, unless a pair hashed by the extraction
    collides with a different pair of the block's own tree. *)
Theorem partial_tree_sound (Hash2 : uint256 → uint256 → uint256) (vTxid : list uint256)
    (t t' : CPartialMerkleTree) (ids : list uint256) (idx : list nat) :
  nTransactions t = length vTxid → (ComputeMerkleRoot Hash2 vTxid).1 ≠ null256 →
  ExtractMatches Hash2 t [] = ((ComputeMerkleRoot Hash2 vTxid).1, ids, idx, t') →
  Forall2 (fun id p => vTxid !! p = Some id) ids idx ∨
  collide Hash2 (extract_pairs Hash2 t (tree_height (nTransactions t)) 0 (mkExtraction 0 0 [] [] (fBad t))) (hashed_pairs Hash2 vTxid).
Proof.
  intros Hn Hr He. apply extract_accepts in He as (st & HT & Hbad & -> & ->); [|done].
  rewrite Hn in HT |- *. assert (vTxid ≠ []) as Hne by (intros ->; by apply Hr).
  apply (extract_sound Hash2 vTxid t _ _ _ _ _ Hn) in HT; [done|done| |done| |by constructor].
  - by apply width_pos, length_pos.
  - by apply root_CalcHash.
Qed.

Lemma partial_tree_sound_witness :
  let t := CPartialMerkleTree_of demo_hash demo_ids [false; true; false; false; true] in
  Forall2 (fun id p => demo_ids !! p = Some id) [[2]; [5]] [1; 4]%nat ∨
  collide demo_hash (extract_pairs demo_hash t (tree_height (nTransactions t)) 0 (mkExtraction 0 0 [] [] (fBad t))) (hashed_pairs demo_hash demo_ids).
Proof.
  intros t. apply (partial_tree_sound demo_hash demo_ids t t);
    [reflexivity|vm_compute; discriminate|vm_compute; reflexivity].
Defined.

End MerkleProps.
