(* ===== verification/Subsidy.v ===== *)
(** Block rewards: [GetBlockSubsidy], [GetFounderRewardForBlock] and the
    constants of [BBFounderReward] in [src/validation.cpp].  [CAmount] is
    [int64_t]; integer division truncates ([Z.quot]). *)
From Stdlib Require Import ZArith Lia.
From S2P Require Import Prelude Arith256 Chain Params Serialize Script Transaction.
Import Consensus Amount.

Module Subsidy.

Definition GetBlockSubsidy (nHeight : Z) (consensusParams : Params) : Z :=
  if nHeight <=? 1000 then 1 * COIN
  else if nHeight <=? 2000 then 10 * COIN
  else
    let halvings := Z.quot (nHeight - 2001) (nSubsidyHalvingInterval consensusParams) in
    if halvings >=? 64 then 0
    else Z.shiftr (50 * COIN) halvings.

(** [namespace BBFounderReward] *)
Definition START_HEIGHT : Z := 2001.
Definition END_HEIGHT : Z := 210000.
Definition PERCENT : Z := 5.

Definition GetFounderRewardForBlock (nHeight : Z) (consensusParams : Params) : Z :=
  if nHeight <? START_HEIGHT then 0
  else if nHeight >=? END_HEIGHT then 0
  else Z.quot (i64 (GetBlockSubsidy nHeight consensusParams * PERCENT)) 100.

End Subsidy.

Module SubsidyFacts.
Import Subsidy.

Section Interval.
Context (params : Params) (Hi : 0 < nSubsidyHalvingInterval params).

Lemma GetBlockSubsidy_era h k :
  0 <= k < 64 → 2001 + k * nSubsidyHalvingInterval params <= h < 2001 + (k + 1) * nSubsidyHalvingInterval params →
  GetBlockSubsidy h params = 50 * COIN / 2 ^ k.
Proof.
  intros Hk Hh. unfold GetBlockSubsidy. repeat (split_if; [nia|]).
  assert (Z.quot (h - 2001) (nSubsidyHalvingInterval params) = k) as Ek.
  { rewrite Z.quot_div_nonneg by nia. symmetry. apply (Z.div_unique_pos _ _ _ (h - 2001 - k * nSubsidyHalvingInterval params)); nia. }
  rewrite Ek. replace (k >=? 64) with false by lia. apply Z.shiftr_div_pow2. lia.
Qed.

Lemma GetBlockSubsidy_zero h :
  2001 + 64 * nSubsidyHalvingInterval params <= h → GetBlockSubsidy h params = 0.
Proof.
  intros Hh. unfold GetBlockSubsidy. repeat (split_if; [nia|]).
  exfalso. enough (64 <= Z.quot (h - 2001) (nSubsidyHalvingInterval params)) by lia.
  rewrite Z.quot_div_nonneg by nia. apply Z.div_le_lower_bound; nia.
Qed.

Lemma GetBlockSubsidy_range h : 0 <= GetBlockSubsidy h params <= 50 * COIN.
Proof.
  unfold GetBlockSubsidy. repeat (split_if; [unfold COIN; lia|]).
  rewrite Z.shiftr_div_pow2 by (apply Z.quot_pos; lia).
  set (k := Z.quot _ _). assert (0 <= k) by (apply Z.quot_pos; lia).
  split; [apply Z.div_pos; unfold COIN; lia|]. apply Z.div_le_upper_bound; [lia|]. unfold COIN. nia.
Qed.

End Interval.

(** ** Emission *)

(** What blocks [from .. from + n - 1] may create. *)
Fixpoint emission (params : Params) (from : Z) (n : nat) : Z :=
  match n with
  | O => 0
  | S n => GetBlockSubsidy from params + emission params (from + 1) n
  end.

Lemma emission_app params from a b :
  emission params from (a + b) = emission params from a + emission params (from + Z.of_nat a) b.
Proof.
  revert from. induction a as [|a IH]; intros from; cbn [emission Nat.add].
  - change (Z.of_nat 0) with 0. by rewrite Z.add_0_r.
  - rewrite IH, Nat2Z.inj_succ. replace (from + 1 + Z.of_nat a) with (from + Z.succ (Z.of_nat a)) by lia. lia.
Qed.

Lemma emission_const params from n v :
  (∀ h, from <= h < from + Z.of_nat n → GetBlockSubsidy h params = v) →
  emission params from n = Z.of_nat n * v.
Proof.
  revert from. induction n as [|n IH]; intros from H; cbn [emission]; [lia|].
  rewrite H, IH by (intros; try apply H; lia). lia.
Qed.

(** The first [k] eras after the slow start. *)
Fixpoint eras (interval : Z) (k : nat) : Z :=
  match k with
  | O => 0
  | S k => eras interval k + interval * (50 * COIN / 2 ^ Z.of_nat k)
  end.

Lemma emission_eras params k :
  0 < nSubsidyHalvingInterval params → (k <= 64)%nat →
  emission params 2001 (Z.to_nat (nSubsidyHalvingInterval params * Z.of_nat k)) =
  eras (nSubsidyHalvingInterval params) k.
Proof.
  intros Hi. induction k as [|k IH]; intros Hk; cbn [eras].
  { by rewrite Z.mul_0_r. }
  replace (Z.to_nat _) with (Z.to_nat (nSubsidyHalvingInterval params * Z.of_nat k) +
                             Z.to_nat (nSubsidyHalvingInterval params))%nat by lia.
  rewrite emission_app, IH by lia. f_equal.
  rewrite (emission_const _ _ _ (50 * COIN / 2 ^ Z.of_nat k)); [f_equal; lia|].
  intros h Hh. apply GetBlockSubsidy_era; [done|lia|lia].
Qed.

(** Blocks 1 .. 2000 of the slow start. *)
Lemma emission_slow_start params : emission params 1 2000 = 11000 * COIN.
Proof.
  change 2000%nat with (1000 + 1000)%nat. rewrite emission_app.
  rewrite (emission_const _ 1 1000 (1 * COIN)), (emission_const _ _ 1000 (10 * COIN)).
  - unfold COIN. lia.
  - intros h Hh. unfold GetBlockSubsidy. replace (h <=? 1000) with false by lia. by replace (h <=? 2000) with true by lia.
  - intros h Hh. unfold GetBlockSubsidy. by replace (h <=? 1000) with true by lia.
Qed.

(** From block 1 to the last block of the last era. *)
Lemma emission_all params (n : nat) :
  0 < nSubsidyHalvingInterval params → 2000 + 64 * nSubsidyHalvingInterval params <= Z.of_nat n →
  emission params 1 n = 11000 * COIN + eras (nSubsidyHalvingInterval params) 64.
Proof.
  intros Hi Hn.
  replace n with (2000 + (Z.to_nat (nSubsidyHalvingInterval params * Z.of_nat 64) +
    (n - 2000 - Z.to_nat (nSubsidyHalvingInterval params * Z.of_nat 64))))%nat by lia.
  rewrite !emission_app, emission_slow_start, emission_eras by (done || lia).
  rewrite (emission_const _ _ _ 0); [lia|].
  intros h Hh. apply GetBlockSubsidy_zero; [done|lia].
Qed.

(** Into era [k], with [m] blocks of it. *)
Lemma emission_partial params k m :
  0 < nSubsidyHalvingInterval params → (k < 64)%nat → 0 <= m <= nSubsidyHalvingInterval params →
  emission params 1 (Z.to_nat (2000 + nSubsidyHalvingInterval params * Z.of_nat k + m)) =
  11000 * COIN + eras (nSubsidyHalvingInterval params) k + m * (50 * COIN / 2 ^ Z.of_nat k).
Proof.
  intros Hi Hk Hm.
  replace (Z.to_nat _) with (2000 + (Z.to_nat (nSubsidyHalvingInterval params * Z.of_nat k) + Z.to_nat m))%nat by lia.
  rewrite !emission_app, emission_slow_start, emission_eras by (done || lia).
  rewrite (emission_const _ _ _ (50 * COIN / 2 ^ Z.of_nat k)); [rewrite Z2Nat.id by lia; ring|].
  intros h Hh. apply GetBlockSubsidy_era; [done|lia|lia].
Qed.

Lemma emission_mono params from a b :
  0 < nSubsidyHalvingInterval params → (a <= b)%nat → emission params from a <= emission params from b.
Proof.
  intros Hi Hab. replace b with (a + (b - a))%nat by lia. rewrite emission_app.
  enough (∀ f n, 0 <= emission params f n) as H by (specialize (H (from + Z.of_nat a) (b - a)%nat); lia).
  intros f n. revert f. induction n as [|n IH]; intros f; cbn [emission]; [lia|].
  pose proof (GetBlockSubsidy_range params Hi f). specialize (IH (f + 1)). lia.
Qed.

End SubsidyFacts.

Module SubsidyProps.
Import Subsidy SubsidyFacts.

(** C31: On the main network every block creates between 0 and 50 BB, and each
    era of 210000 blocks after the slow start half of what the one before did.
    All blocks together create exactly 21010999.9769 BB, which exceeds
    [MAX_MONEY]; the supply passes [MAX_MONEY] with block 2296721. *)
Theorem main_emission (genesis_hash : uint256) :
  let params := CMainParams genesis_hash in
  (∀ h, 0 <= GetBlockSubsidy h params <= 50 * COIN) ∧
  (∀ h k, 0 <= k < 64 → 2001 + k * 210000 <= h < 2001 + (k + 1) * 210000 →
     GetBlockSubsidy h params = 50 * COIN / 2 ^ k) ∧
  (∀ n : nat, 13442000 <= Z.of_nat n → emission params 1 n = 2101099997690000) ∧
  (∀ n : nat, MAX_MONEY < emission params 1 n ↔ 2296721 <= Z.of_nat n).
Proof.
  intros params. assert (0 < nSubsidyHalvingInterval params) as Hi by (cbn; lia). split_and!.
  - intros h. by apply GetBlockSubsidy_range.
  - intros h k Hk Hh. apply GetBlockSubsidy_era; done.
  - intros n Hn. rewrite emission_all; [vm_compute; reflexivity|done|cbn; lia].
  - pose proof (emission_partial params 10 194720 Hi ltac:(lia) ltac:(cbn; lia)) as E1.
    pose proof (emission_partial params 10 194721 Hi ltac:(lia) ltac:(cbn; lia)) as E2.
    set (big := Z.to_nat _) in E1. set (big' := Z.to_nat _) in E2.
    assert (Z.of_nat big = 2296720) as B1 by (subst big; cbn [nSubsidyHalvingInterval params CMainParams]; lia).
    assert (Z.of_nat big' = 2296721) as B2 by (subst big'; cbn [nSubsidyHalvingInterval params CMainParams]; lia).
    clearbody big big'.
    assert (emission params 1 big <= MAX_MONEY) by (rewrite E1; vm_compute; done).
    assert (MAX_MONEY < emission params 1 big') by (rewrite E2; vm_compute; done).
    intros n. split; intros H'.
    + destruct (Z.le_gt_cases 2296721 (Z.of_nat n)); [done|].
      pose proof (emission_mono params 1 n big Hi ltac:(lia)). lia.
    + pose proof (emission_mono params 1 big' n Hi ltac:(lia)). lia.
Qed.

(** The founder reward is 5% of the subsidy, that is 2.5 BB, exactly for
    the blocks 2001 .. 209999 of the main network, and 0 elsewhere; never more
    than the subsidy. *)
Theorem founder_reward_correct (genesis_hash : uint256) (h : Z) :
  let params := CMainParams genesis_hash in
  GetFounderRewardForBlock h params = (if decide (2001 <= h <= 209999) then 250000000 else 0) ∧
  100 * GetFounderRewardForBlock h params <= 5 * GetBlockSubsidy h params.
Proof.
  intros params. assert (0 < nSubsidyHalvingInterval params) as Hi by (cbn; lia).
  unfold GetFounderRewardForBlock, START_HEIGHT, END_HEIGHT. pose proof (GetBlockSubsidy_range params Hi h).
  destruct (decide (2001 <= h <= 209999)).
  - replace (h <? 2001) with false by lia. replace (h >=? 210000) with false by lia.
    rewrite (GetBlockSubsidy_era params Hi h 0) by (cbn; lia). done.
  - destruct (h <? 2001) eqn:E; [lia|]. replace (h >=? 210000) with true by lia. lia.
Qed.

End SubsidyProps.
