(* ===== verification/BlockChecks.v ===== *)
(** Context-free and contextual checks of a block: [CheckMerkleRoot],
    [CheckWitnessMalleation], [CheckBlock], [ContextualCheckBlock],
    [IsBlockMutated] and the coinbase commitment of [src/validation.cpp].

    The double SHA-256 of a byte string is the argument [Hash]; the header
    hash is [GetHash].  Checks that cache their verdict in the block return
    the block with its flags. *)
From Stdlib Require Import ZArith Lia.
From stdpp Require Import gmap.
From S2P Require Import Prelude Arith256 Chain Params Pow Headers Serialize Script Transaction Block Coins TxVerify Merkle.
Import Consensus Serialize Script Transaction Chain Block TxVerify Merkle.
Local Open Scope bb_scope.

Module BlockChecks.

Inductive block_reject : Type :=
| HeaderInvalid (r : Headers.header_reject)
| BadSignetBlksig
| BadTxnmrklroot
| BadTxnsDuplicate
| BadBlkLength
| BadCbMissing
| BadCbMultiple
| TxInvalid (e : tx_error)
| BadBlkSigops
| BadWitnessNonceSize
| BadWitnessMerkleMatch
| UnexpectedWitness
| BadTxnsNonfinal
| BadCbHeight
| BadBlkWeight.

Inductive block_error : Type :=
| Invalid (r : block_reject)
| Fault (e : chain_error).

(** [state.GetResult() == BLOCK_MUTATED] *)
Definition IsMutated (r : block_reject) : bool :=
  match r with
  | BadTxnmrklroot | BadTxnsDuplicate | BadWitnessNonceSize | BadWitnessMerkleMatch | UnexpectedWitness => true
  | _ => false
  end.

Definition lift_chain {A} (m : result chain_error A) : result block_error A :=
  match m with Ok a => Ok a | Err e => Err (Fault e) end.
Definition lift_header {A} (m : result Headers.header_error A) : result block_error A :=
  match m with
  | Ok a => Ok a
  | Err (Headers.Invalid r) => Err (Invalid (HeaderInvalid r))
  | Err (Headers.Fault e) => Err (Fault e)
  end.
Definition lift_tx {A} (m : result tx_error A) : result block_error A :=
  match m with Ok a => Ok a | Err e => Err (Invalid (TxInvalid e)) end.

Definition MAX_BLOCK_SIGOPS_COST : Z := 80000.

Section Checks.
Context (Hash : list Z → uint256) (GetHash : CBlockHeader → uint256) (params : Params).
(** The check of the signet solution reads the header and the transactions,
    not the verdicts cached in the block. *)
Context (CheckSignetBlockSolution : CBlockHeader * list CTransaction → bool).

(** [Hash(left, right)] and [SHA256D64]. *)
Definition Hash2 (a b : uint256) : uint256 := Hash (a ++ b).

Definition CheckMerkleRoot (block : CBlock) : result block_error unit * CBlock :=
  if m_checked_merkle_root block then (Ok tt, block)
  else
    let '(merkle_root, mutated) := BlockMerkleRoot Hash2 Hash (vtx block) in
    if negb (bool_decide (h_hashMerkleRoot (header block) = merkle_root)) then (Err (Invalid BadTxnmrklroot), block)
    else if mutated then (Err (Invalid BadTxnsDuplicate), block)
    else (Ok tt, mkBlock (header block) (vtx block) (fChecked block) (m_checked_witness_commitment block) true).

(** No witness data without a commitment. *)
Definition no_witness (block : CBlock) : result block_error unit :=
  require (negb (existsb HasWitness (vtx block))) (Invalid UnexpectedWitness).

Definition CheckWitnessMalleation (block : CBlock) (expect_witness_commitment : bool)
    : result block_error unit * CBlock :=
  if expect_witness_commitment then
    if m_checked_witness_commitment block then (Ok tt, block)
    else
      let commitpos := GetWitnessCommitmentIndex block in
      if negb (commitpos =? NO_WITNESS_COMMITMENT) then
        match vtx block with
        | tx :: _ =>
            match vin tx with
            | txin :: _ =>
                match scriptWitness txin with
                | [nonce] =>
                    if negb (length nonce =? 32)%nat then (Err (Invalid BadWitnessNonceSize), block)
                    else
                      let hash_witness := (BlockWitnessMerkleRoot Hash2 Hash (vtx block)).1 in
                      let hash_witness := Hash (hash_witness ++ nonce) in
                      let spk := scriptPubKey (default txout_null (vout tx !! Z.to_nat commitpos)) in
                      if negb (bool_decide (hash_witness = take 32 (drop 6 spk)))
                      then (Err (Invalid BadWitnessMerkleMatch), block)
                      else (Ok tt, mkBlock (header block) (vtx block) (fChecked block) true (m_checked_merkle_root block))
                | _ => (Err (Invalid BadWitnessNonceSize), block)
                end
            | [] => (Err (Fault Chain.AssertFailed), block)
            end
        | [] => (Err (Fault Chain.AssertFailed), block)
        end
      else (no_witness block, block)
  else (no_witness block, block).

(** [block.vtx\[i\]] for [i >= 1] *)
Definition other_txs (block : CBlock) : list CTransaction := drop 1 (vtx block).

Fixpoint check_txs (l : list CTransaction) : result block_error unit :=
  match l with
  | [] => Ok tt
  | tx :: l => let! _ := lift_tx (CheckTransaction tx) in check_txs l
  end.

(** The counter is an [unsigned int]. *)
Definition legacy_sigops (l : list CTransaction) : Z :=
  foldl (fun nSigOps tx => u32 (nSigOps + GetLegacySigOpCount tx)) 0 l.

(** What [CheckBlock] does after the Merkle root. *)
Definition check_contents (block : CBlock) : result block_error unit :=
  let! _ := require (negb ((length (vtx block) =? 0)%nat ||
                           (Z.of_nat (length (vtx block)) * WITNESS_SCALE_FACTOR >? MAX_BLOCK_WEIGHT) ||
                           (block_GetSerializeSize false block * WITNESS_SCALE_FACTOR >? MAX_BLOCK_WEIGHT)))
              (Invalid BadBlkLength) in
  let! _ := require (match vtx block with tx :: _ => IsCoinBase tx | [] => false end) (Invalid BadCbMissing) in
  let! _ := require (forallb (fun tx => negb (IsCoinBase tx)) (other_txs block)) (Invalid BadCbMultiple) in
  let! _ := check_txs (vtx block) in
  require (negb (u32 (legacy_sigops (vtx block) * WITNESS_SCALE_FACTOR) >? MAX_BLOCK_SIGOPS_COST))
    (Invalid BadBlkSigops).

Definition CheckBlock (block : CBlock) (fCheckPOW fCheckMerkleRoot : bool) : result block_error unit * CBlock :=
  if fChecked block then (Ok tt, block)
  else
    match lift_header (Headers.CheckBlockHeader GetHash params (header block) fCheckPOW) with
    | Err e => (Err e, block)
    | Ok _ =>
        if signet_blocks params && fCheckPOW && negb (CheckSignetBlockSolution (header block, vtx block))
        then (Err (Invalid BadSignetBlksig), block)
        else
          match (if fCheckMerkleRoot then CheckMerkleRoot block else (Ok tt, block)) with
          | (Err e, block) => (Err e, block)
          | (Ok _, block) =>
              match check_contents block with
              | Err e => (Err e, block)
              | Ok _ =>
                  (Ok tt, if fCheckPOW && fCheckMerkleRoot
                          then mkBlock (header block) (vtx block) true (m_checked_witness_commitment block)
                                 (m_checked_merkle_root block)
                          else block)
              end
          end
    end.

Definition IsBlockMutated (block : CBlock) (check_witness_root : bool) : bool :=
  match CheckMerkleRoot block with
  | (Err _, _) => true
  | (Ok _, block) =>
      if (match vtx block with [] => true | tx :: _ => negb (IsCoinBase tx) end) then
        existsb (fun tx => GetSerializeSize false tx =? 64) (vtx block)
      else
        match CheckWitnessMalleation block check_witness_root with
        | (Err _, _) => true
        | (Ok _, _) => false
        end
  end.

(** [std::equal(expect.begin(), expect.end(), scriptSig.begin())] after the
    length test. *)
Definition starts_with (expect s : CScript) : bool :=
  negb (size s <? size expect) && bool_decide (take (length expect) s = expect).

(** [CScript() << nHeight] is [push_int64]. *)
Definition height_in_coinbase (block : CBlock) (nHeight : Z) : result block_error unit :=
  match vtx block with
  | tx :: _ =>
      match vin tx with
      | txin :: _ => require (starts_with (push_int64 [] nHeight) (scriptSig txin)) (Invalid BadCbHeight)
      | [] => Err (Fault NullDeref)
      end
  | [] => Err (Fault NullDeref)
  end.

Definition ContextualCheckBlock (m : BlockMap) (block : CBlock) (pindexPrev : option uint256)
    : result block_error unit * CBlock :=
  let prefix :=
    let! prev_height := match pindexPrev with
                        | None => Ok None
                        | Some p => let! b := lift_chain (deref m p) in Ok (Some (nHeight b))
                        end in
    let nHeight := match prev_height with None => 0 | Some h => h + 1 end in
    let after dep := DeploymentActiveAfter prev_height params dep in
    let! nLockTimeCutoff :=
      if after DEPLOYMENT_CSV then
        match pindexPrev with
        | None => Err (Fault Chain.AssertFailed)
        | Some p => lift_chain (GetMedianTimePast m p)
        end
      else Ok (h_nTime (header block)) in
    let! _ := require (forallb (fun tx => IsFinalTx tx nHeight nLockTimeCutoff) (vtx block)) (Invalid BadTxnsNonfinal) in
    let! _ := if after DEPLOYMENT_HEIGHTINCB then height_in_coinbase block nHeight else Ok tt in
    Ok (after DEPLOYMENT_SEGWIT) in
  match prefix with
  | Err e => (Err e, block)
  | Ok segwit =>
      match CheckWitnessMalleation block segwit with
      | (Err e, block) => (Err e, block)
      | (Ok _, block) => (require (negb (GetBlockWeight block >? MAX_BLOCK_WEIGHT)) (Invalid BadBlkWeight), block)
      end
  end.

(** ** The commitment a miner adds *)

(** [vin\[0\].scriptWitness.stack = {nonce}] *)
Definition set_nonce (tx : CTransaction) (nonce : valtype) : CTransaction :=
  match vin tx with
  | [] => tx
  | txin :: l => mkTx (mkTxIn (prevout txin) (scriptSig txin) (nSequence txin) [nonce] :: l)
                   (vout tx) (Transaction.nVersion tx) (nLockTime tx)
  end.

(** [segwit]: whether the deployment is active after [pindexPrev]. *)
Definition UpdateUncommittedBlockStructures (block : CBlock) (segwit : bool) : CBlock :=
  match vtx block with
  | [] => block
  | tx :: l =>
      if negb (GetWitnessCommitmentIndex block =? NO_WITNESS_COMMITMENT) && segwit && negb (HasWitness tx)
      then set_vtx block (set_nonce tx (replicate 32 0) :: l)
      else block
  end.

Definition commitment_script (witnessroot : uint256) : CScript :=
  [OP_RETURN; 0x24; 0xaa; 0x21; 0xa9; 0xed] ++ Hash (witnessroot ++ replicate 32 0).

(** The block and the commitment returned (empty when there already is one). *)
Definition GenerateCoinbaseCommitment (block : CBlock) (segwit : bool) : CBlock * CScript :=
  if GetWitnessCommitmentIndex block =? NO_WITNESS_COMMITMENT then
    let script := commitment_script (BlockWitnessMerkleRoot Hash2 Hash (vtx block)).1 in
    match vtx block with
    | [] => (block, [])
    | tx :: l =>
        let tx := mkTx (vin tx) (vout tx ++ [mkTxOut 0 script]) (Transaction.nVersion tx) (nLockTime tx) in
        (UpdateUncommittedBlockStructures (set_vtx block (tx :: l)) segwit, script)
    end
  else (UpdateUncommittedBlockStructures block segwit, []).

End Checks.
End BlockChecks.

Module BlockChecksFacts.
Import SerializeFacts ScriptFacts TransactionFacts TxVerifyFacts BlockChecks.

(** ** Signature operations are bounded by the block size *)

Fixpoint sumZ (l : list Z) : Z := match l with [] => 0 | x :: l => x + sumZ l end.

Definition tx_scripts (tx : CTransaction) : list CScript :=
  map scriptSig (vin tx) ++ map scriptPubKey (vout tx).
Definition block_scripts (l : list CTransaction) : list CScript := flat_map tx_scripts l.

(** The number of signature operations, counted without bound. *)
Definition sigops (l : list CScript) : Z := sumZ (map (fun s => GetSigOpCount s false) l).
Definition script_bytes (l : list CScript) : Z := sumZ (map size l).

Lemma sumZ_app a b : sumZ (a ++ b) = sumZ a + sumZ b.
Proof. induction a as [|x a IH]; cbn; lia. Qed.

Lemma sigops_app a b : sigops (a ++ b) = sigops a + sigops b.
Proof. unfold sigops. by rewrite map_app, sumZ_app. Qed.
Lemma script_bytes_app a b : script_bytes (a ++ b) = script_bytes a + script_bytes b.
Proof. unfold script_bytes. by rewrite map_app, sumZ_app. Qed.

Lemma script_bytes_nonneg l : 0 <= script_bytes l.
Proof. induction l as [|s l IH]; cbn; unfold script_bytes, size in *; cbn in *; lia. Qed.

Lemma sigop_loop_nonneg fuel acc last n pc : 0 <= n → 0 <= sigop_loop fuel acc last n pc.
Proof.
  revert last n pc. induction fuel as [|fuel IH]; intros last n pc Hn; cbn [sigop_loop]; [done|].
  destruct (GetScriptOp pc) as [[[op d] pc']|]; [|done]. apply IH.
  repeat case_match; try done; apply wrap_range; lia.
Qed.

Lemma sigops_bound l : script_bytes l <= 100000000 → 0 <= sigops l <= 20 * script_bytes l.
Proof.
  induction l as [|s l IH]; [done|].
  change (s :: l) with ([s] ++ l). rewrite sigops_app, script_bytes_app.
  pose proof (script_bytes_nonneg l). pose proof (script_bytes_nonneg [s]). intros Hb.
  assert (script_bytes [s] = size s) as Es by (unfold script_bytes; cbn; lia).
  assert (sigops [s] = GetSigOpCount s false) as En by (unfold sigops; cbn; lia).
  pose proof (ScriptFacts.sigop_loop_bounds (length s) OP_INVALIDOPCODE 0 0 s) as Hs.
  pose proof (sigop_loop_nonneg (length s) false OP_INVALIDOPCODE 0 s).
  unfold GetSigOpCount in En. lia.
Qed.

(** The wrapping counters agree with the unbounded count. *)
Lemma count_loop {A} (f : A → CScript) (l : list A) n :
  0 <= n → n + 20 * script_bytes (map f l) < 2 ^ 32 → script_bytes (map f l) <= 100000000 →
  foldl (fun n x => u32 (n + GetSigOpCount (f x) false)) n l = n + sigops (map f l).
Proof.
  revert n. induction l as [|x l IH]; intros n Hn Hb Hs; [cbn; unfold sigops; cbn; lia|].
  cbn [foldl map] in *. change (f x :: map f l) with ([f x] ++ map f l) in *.
  rewrite script_bytes_app in Hb, Hs. rewrite sigops_app.
  pose proof (script_bytes_nonneg (map f l)). pose proof (script_bytes_nonneg [f x]).
  pose proof (sigops_bound [f x] ltac:(lia)) as Hx.
  assert (sigops [f x] = GetSigOpCount (f x) false) as En by (unfold sigops; cbn; lia).
  rewrite <- En. rewrite wrap_small by (unfold in_u; lia). rewrite IH by lia. lia.
Qed.

Lemma GetLegacySigOpCount_spec tx :
  script_bytes (tx_scripts tx) <= 100000000 → GetLegacySigOpCount tx = sigops (tx_scripts tx).
Proof.
  unfold tx_scripts, GetLegacySigOpCount. rewrite script_bytes_app, sigops_app. intros Hb.
  pose proof (script_bytes_nonneg (map scriptSig (vin tx))).
  pose proof (script_bytes_nonneg (map scriptPubKey (vout tx))).
  pose proof (sigops_bound (map scriptSig (vin tx)) ltac:(lia)).
  rewrite (count_loop scriptSig (vin tx) 0) by lia. rewrite (count_loop scriptPubKey) by lia. lia.
Qed.

Lemma legacy_sigops_spec l n :
  0 <= n → n + 20 * script_bytes (block_scripts l) < 2 ^ 32 → script_bytes (block_scripts l) <= 100000000 →
  foldl (fun nSigOps tx => u32 (nSigOps + GetLegacySigOpCount tx)) n l = n + sigops (block_scripts l).
Proof.
  revert n. induction l as [|tx l IH]; intros n Hn Hb Hs; [cbn; unfold sigops; cbn; lia|].
  cbn [foldl block_scripts flat_map] in *. fold (block_scripts l) in *.
  rewrite script_bytes_app in Hb, Hs. rewrite sigops_app.
  pose proof (script_bytes_nonneg (block_scripts l)). pose proof (script_bytes_nonneg (tx_scripts tx)).
  pose proof (sigops_bound (tx_scripts tx) ltac:(lia)).
  rewrite GetLegacySigOpCount_spec by lia. rewrite wrap_small by (unfold in_u; lia). rewrite IH by lia. lia.
Qed.

(** ** Sizes *)

Lemma size_nonneg {A} (a : list A) : 0 <= size a.
Proof. unfold size. lia. Qed.

Lemma size_vector {A} (ser : A → list Z) (f : A → list CScript) l :
  (∀ a, script_bytes (f a) <= size (ser a)) → script_bytes (flat_map f l) <= size (ser_vector ser l).
Proof.
  intros H. unfold ser_vector. rewrite size_app.
  enough (script_bytes (flat_map f l) <= size (concat (map ser l)))
    by (pose proof (size_nonneg (WriteCompactSize (Z.of_nat (length l)))); lia).
  induction l as [|a l IH]; [done|]. cbn [flat_map map concat]. rewrite script_bytes_app, size_app.
  pose proof (H a). lia.
Qed.

Lemma flat_map_singleton {A B} (f : A → B) l : flat_map (fun a => [f a]) l = map f l.
Proof. induction l; cbn; congruence. Qed.

Lemma size_tx tx : script_bytes (tx_scripts tx) <= GetSerializeSize false tx.
Proof.
  assert (∀ s, script_bytes [s] = size s) as E1 by (intros; unfold script_bytes; cbn; lia).
  unfold GetSerializeSize, tx_scripts. rewrite ser_no_witness by auto. rewrite !size_app, script_bytes_app.
  rewrite <- !flat_map_singleton.
  pose proof (size_vector ser_txin (fun i => [scriptSig i]) (vin tx)) as H1.
  pose proof (size_vector ser_txout (fun o => [scriptPubKey o]) (vout tx)) as H2.
  pose proof (size_nonneg (ser_signed 4 (Transaction.nVersion tx))).
  pose proof (size_nonneg (ser_writedata32 (nLockTime tx))).
  enough (script_bytes (flat_map (λ i, [scriptSig i]) (vin tx)) <= size (ser_vector ser_txin (vin tx)) ∧
    script_bytes (flat_map (λ o, [scriptPubKey o]) (vout tx)) <= size (ser_vector ser_txout (vout tx))) by lia.
  split; [apply H1|apply H2]; intros a; rewrite E1; unfold ser_txin, ser_txout, ser_bytes; rewrite !size_app;
    unfold size; lia.
Qed.

Lemma size_block b : script_bytes (block_scripts (vtx b)) <= block_GetSerializeSize false b.
Proof.
  unfold block_GetSerializeSize, ser_block. rewrite size_app.
  pose proof (size_nonneg (ser_header (header b))).
  pose proof (size_vector (SerializeTransaction false) tx_scripts (vtx b) size_tx). unfold block_scripts. lia.
Qed.

(** ** [CheckBlock] *)

Section Checks.
Context (Hash : list Z → uint256) (GetHash : CBlockHeader → uint256) (params : Params).
Context (CheckSignetBlockSolution : CBlockHeader * list CTransaction → bool).

(** The contents of a valid block. *)
Definition contents_valid (b : CBlock) : Prop :=
  (∃ coinbase rest, vtx b = coinbase :: rest ∧ IsCoinBase coinbase = true ∧
     Forall (fun tx => IsCoinBase tx = false) rest) ∧
  Forall tx_valid (vtx b) ∧
  Z.of_nat (length (vtx b)) * WITNESS_SCALE_FACTOR <= MAX_BLOCK_WEIGHT ∧
  block_GetSerializeSize false b * WITNESS_SCALE_FACTOR <= MAX_BLOCK_WEIGHT ∧
  sigops (block_scripts (vtx b)) * WITNESS_SCALE_FACTOR <= MAX_BLOCK_SIGOPS_COST.

Lemma contents_valid_eq b b' :
  header b' = header b → vtx b' = vtx b → contents_valid b → contents_valid b'.
Proof. destruct b, b'. cbn. by intros -> ->. Qed.

Lemma check_txs_spec l : check_txs l = Ok tt ↔ Forall tx_valid l.
Proof.
  induction l as [|tx l IH]; cbn [check_txs]; [done|]. rewrite list.Forall_cons, rbind_ok, <- IH.
  rewrite <- CheckTransaction_spec. unfold lift_tx. split.
  - intros (u & H1 & H2). by destruct (CheckTransaction tx) as [[]|].
  - intros [H1 H2]. exists tt. by rewrite H1.
Qed.

Lemma sigops_no_wrap b :
  block_GetSerializeSize false b * WITNESS_SCALE_FACTOR <= MAX_BLOCK_WEIGHT →
  u32 (legacy_sigops (vtx b) * WITNESS_SCALE_FACTOR) = sigops (block_scripts (vtx b)) * WITNESS_SCALE_FACTOR.
Proof.
  intros Hs. pose proof (size_block b) as Hb. unfold WITNESS_SCALE_FACTOR, MAX_BLOCK_WEIGHT in *.
  pose proof (sigops_bound (block_scripts (vtx b)) ltac:(lia)).
  unfold legacy_sigops. rewrite legacy_sigops_spec by lia. apply wrap_small. unfold in_u. lia.
Qed.

Lemma check_contents_spec b : check_contents b = Ok tt ↔ contents_valid b.
Proof.
  unfold check_contents, contents_valid. split.
  - intros (_ & H1%require_ok & H')%rbind_ok. apply rbind_ok in H' as (_ & H2%require_ok & H').
    apply rbind_ok in H' as (_ & H3%require_ok & H'). apply rbind_ok in H' as ([] & H4%check_txs_spec & H5%require_ok).
    assert (block_GetSerializeSize false b * WITNESS_SCALE_FACTOR <= MAX_BLOCK_WEIGHT) as Hsz by lia.
    rewrite sigops_no_wrap in H5 by done. split_and!; [|done|lia|done|lia].
    unfold other_txs in H3. destruct (vtx b) as [|cb rest]; [done|]. exists cb, rest. split_and!; [done|done|].
    apply List.Forall_forall. intros tx Hin. cbn in H3. rewrite drop_0, forallb_forall in H3.
    by apply negb_true_iff, H3.
  - intros ((cb & rest & E & Hcb & Hrest) & Htx & Hn & Hsz & Hops).
    rewrite (proj2 (require_ok _ _ tt)); [cbn [rbind]|rewrite E in *; cbn [length] in *; lia].
    rewrite (proj2 (require_ok _ _ tt)); [cbn [rbind]|by rewrite E].
    rewrite (proj2 (require_ok _ _ tt)); [cbn [rbind]|].
    + rewrite (proj2 (check_txs_spec _)) by done. cbn [rbind]. apply require_ok.
      rewrite sigops_no_wrap by done. lia.
    + unfold other_txs. rewrite E. cbn [drop]. rewrite drop_0. apply forallb_forall. intros tx Hin.
      rewrite List.Forall_forall in Hrest. by rewrite Hrest.
Qed.

Lemma CheckMerkleRoot_spec b :
  m_checked_merkle_root b = false →
  (BlockMerkleRoot (Hash2 Hash) Hash (vtx b) = (h_hashMerkleRoot (header b), false) ∧
   CheckMerkleRoot Hash b =
     (Ok tt, mkBlock (header b) (vtx b) (fChecked b) (m_checked_witness_commitment b) true)) ∨
  (BlockMerkleRoot (Hash2 Hash) Hash (vtx b) ≠ (h_hashMerkleRoot (header b), false) ∧
   ∃ r, CheckMerkleRoot Hash b = (Err (Invalid r), b) ∧ IsMutated r = true).
Proof.
  intros Hc. unfold CheckMerkleRoot. rewrite Hc.
  destruct (BlockMerkleRoot (Hash2 Hash) Hash (vtx b)) as [root mutated].
  case_bool_decide as Hr; cbn [negb].
  - subst root. destruct mutated; [right|by left]. split; [done|]. by eexists.
  - right. split; [congruence|]. by eexists.
Qed.

(** [CheckBlock] ends in a verdict. *)
Lemma check_txs_no_fault l e : check_txs l ≠ Err (Fault e).
Proof. induction l as [|tx l IH]; [done|]. cbn [check_txs]. by destruct (CheckTransaction tx). Qed.

Lemma CheckBlock_no_fault block e : (CheckBlock Hash GetHash params CheckSignetBlockSolution block true true).1 ≠ Err (Fault e).
Proof.
  unfold CheckBlock, Headers.CheckBlockHeader. destruct (fChecked block); [done|]. destruct (true && negb _); [done|]. cbn [negb require lift_header].
  destruct (_ && _ && _); [done|]. destruct (CheckMerkleRoot Hash block) as [[u|e1] b1] eqn:Em.
  - destruct (check_contents b1) as [|e2] eqn:Ec; [done|]. cbn [fst]. intros [= ->]. revert Ec. unfold check_contents.
    do 3 (destruct (require _ _) as [|e3] eqn:Er; cbn [rbind]; [clear Er|revert Er; unfold require; case_match; congruence]).
    destruct (check_txs (vtx b1)) as [|e3] eqn:Et; cbn [rbind]; [unfold require; case_match; congruence|].
    intros [= ->]. by destruct (check_txs_no_fault (vtx b1) e).
  - revert Em. unfold CheckMerkleRoot. destruct (m_checked_merkle_root block); [done|].
    destruct (BlockMerkleRoot _ _ _) as [root []]; destruct (negb _); intros [= <- _]; done.
Qed.

(** What a block that passes has: on a signet, its solution too. *)
Definition block_valid (b : CBlock) : Prop :=
  Pow.CheckProofOfWork (GetHash (header b)) (h_nBits (header b)) params = true ∧
  (signet_blocks params = true → CheckSignetBlockSolution (header b, vtx b) = true) ∧
  BlockMerkleRoot (Hash2 Hash) Hash (vtx b) = (h_hashMerkleRoot (header b), false) ∧ contents_valid b.

Lemma CheckBlock_spec b :
  fChecked b = false → m_checked_merkle_root b = false →
  (CheckBlock Hash GetHash params CheckSignetBlockSolution b true true).1 = Ok tt ↔ block_valid b.
Proof.
  intros Hf Hm. unfold CheckBlock, Headers.CheckBlockHeader, block_valid. rewrite Hf.
  destruct (Pow.CheckProofOfWork _ _ _); cbn [negb require lift_header]; [|split; [done|by intros [? _]]].
  destruct (signet_blocks params && true && negb (CheckSignetBlockSolution (header b, vtx b))) eqn:Es.
  { split; [done|]. intros (_ & Hs & _). destruct (signet_blocks params); [|done]. by rewrite Hs in Es. }
  assert (signet_blocks params = true → CheckSignetBlockSolution (header b, vtx b) = true) as Hs.
  { intros E. rewrite E in Es. by destruct (CheckSignetBlockSolution _). }
  destruct (CheckMerkleRoot_spec b Hm) as [[Hr ->]|[Hr (r & -> & _)]].
  2:{ split; [done|]. by intros (_ & _ & ? & _). }
  set (b1 := mkBlock _ _ _ _ _). assert (contents_valid b1 ↔ contents_valid b) as Ec by done.
  rewrite <- Ec, <- check_contents_spec. destruct (check_contents b1) as [[]|]; cbn; [done|].
  split; [done|]. by intros (_ & _ & _ & ?).
Qed.

(** A verdict that was cached was earned: the flags say what was checked. *)
Definition flags_sound (b : CBlock) : Prop :=
  (m_checked_merkle_root b = true → BlockMerkleRoot (Hash2 Hash) Hash (vtx b) = (h_hashMerkleRoot (header b), false)) ∧
  (fChecked b = true → block_valid b).

Lemma flags_sound_unchecked b b' :
  header b' = header b → vtx b' = vtx b → fChecked b' = false →
  (m_checked_merkle_root b' = true → BlockMerkleRoot (Hash2 Hash) Hash (vtx b) = (h_hashMerkleRoot (header b), false)) →
  flags_sound b'.
Proof. intros E1 E2 E3 H. split; [by rewrite E1, E2|]. rewrite E3. done. Qed.

Lemma block_valid_eq b b' : header b' = header b → vtx b' = vtx b → block_valid b → block_valid b'.
Proof.
  intros E1 E2 (H1 & H2 & H3 & H4). unfold block_valid. rewrite E1, E2. split_and!; [done..|].
  by apply (contents_valid_eq b).
Qed.

Lemma CheckBlock_flags b pow merkle :
  flags_sound b → flags_sound (CheckBlock Hash GetHash params CheckSignetBlockSolution b pow merkle).2.
Proof.
  intros [H1 H2]. unfold CheckBlock. destruct (fChecked b) eqn:Ef; [by split; [|intros _; apply H2]|].
  destruct (lift_header _) as [u|] eqn:Eh; [|by apply (flags_sound_unchecked b)].
  destruct (_ && _ && _) eqn:Es; [by apply (flags_sound_unchecked b)|].
  assert (pow = true → Pow.CheckProofOfWork (GetHash (header b)) (h_nBits (header b)) params = true) as Hpow.
  { intros ->. unfold Headers.CheckBlockHeader in Eh. by destruct (Pow.CheckProofOfWork _ _ _). }
  assert (∀ r b', (if merkle then CheckMerkleRoot Hash b else (Ok tt, b)) = (r, b') →
    header b' = header b ∧ vtx b' = vtx b ∧ fChecked b' = false ∧
    (m_checked_merkle_root b' = true → BlockMerkleRoot (Hash2 Hash) Hash (vtx b) = (h_hashMerkleRoot (header b), false)) ∧
    (merkle = true → ∀ v, r = Ok v → m_checked_merkle_root b' = true)) as Hm.
  { intros r b'. destruct merkle; [|by intros [= <- <-]].
    destruct (m_checked_merkle_root b) eqn:Em.
    - unfold CheckMerkleRoot. rewrite Em. intros [= <- <-]. split_and!; auto.
    - destruct (CheckMerkleRoot_spec b Em) as [[Hr ->]|[Hr (x & -> & _)]]; intros [= <- <-]; cbn; auto.
      split_and!; try done. intros Ht. congruence. }
  destruct (if merkle then _ else _) as [[v|] b'] eqn:E; destruct (Hm _ _ eq_refl) as (E1 & E2 & E3 & E4 & E5).
  2:{ by apply (flags_sound_unchecked b). }
  destruct (check_contents b') as [w|] eqn:Ec; [|by apply (flags_sound_unchecked b)].
  assert (contents_valid b') as Hc by (apply check_contents_spec; by destruct w).
  destruct pow, merkle; cbn [andb snd]; try by apply (flags_sound_unchecked b).
  specialize (E5 eq_refl v eq_refl). specialize (E4 E5). specialize (Hpow eq_refl).
  split; cbn [m_checked_merkle_root fChecked header vtx]; [by rewrite E1, E2|]. intros _.
  apply (block_valid_eq b'); [done..|]. unfold block_valid. rewrite E1, E2. split_and!; [done| |done|done].
  intros E0. rewrite E0 in Es. by destruct (CheckSignetBlockSolution _).
Qed.

(** ** The commitment *)

Lemma commitment_loop_snoc o l x c :
  commitment_loop o (l ++ [x]) c = if is_commitment x then o + Z.of_nat (length l) else commitment_loop o l c.
Proof.
  revert o c. induction l as [|y l IH]; intros o c; cbn [app commitment_loop length].
  - change (Z.of_nat 0) with 0. by rewrite Z.add_0_r.
  - rewrite IH. destruct (is_commitment x); [lia|done].
Qed.

Lemma is_commitment_script v r :
  length (Hash (r ++ replicate 32 0)) = 32%nat → is_commitment (mkTxOut v (commitment_script Hash r)) = true.
Proof.
  intros Hl. unfold is_commitment, commitment_script. cbn [scriptPubKey].
  replace (size _ >=? MINIMUM_WITNESS_COMMITMENT) with true; [done|].
  unfold size, MINIMUM_WITNESS_COMMITMENT. rewrite length_app, Hl. done.
Qed.

(** A block whose first transaction ends in the commitment to the rest. *)
Lemma committed_block b i ins outs v ver lock rest :
  (∀ l, length (Hash l) = 32%nat) →
  vtx b = mkTx (i :: ins) (outs ++ [mkTxOut v (commitment_script Hash
            (ComputeMerkleRoot (Hash2 Hash) (null256 :: map (GetWitnessHash Hash) rest)).1)]) ver lock :: rest →
  GetWitnessCommitmentIndex b = Z.of_nat (length outs) ∧
  (scriptWitness i = [replicate 32 0] → (CheckWitnessMalleation Hash b true).1 = Ok tt).
Proof.
  intros Hl Hv. assert (GetWitnessCommitmentIndex b = Z.of_nat (length outs)) as Ei.
  { unfold GetWitnessCommitmentIndex. rewrite Hv. cbn [vout].
    by rewrite commitment_loop_snoc, is_commitment_script. }
  split; [done|]. intros Hi. unfold CheckWitnessMalleation.
  destruct (m_checked_witness_commitment b); [done|]. rewrite Ei, Hv. cbn [vin vout]. rewrite Hi.
  replace (Z.of_nat (length outs) =? NO_WITNESS_COMMITMENT) with false by (unfold NO_WITNESS_COMMITMENT; lia).
  rewrite length_replicate, Nat2Z.id, list_lookup_middle by done. cbn [negb Nat.eqb default from_option id scriptPubKey].
  rewrite bool_decide_true; [done|]. unfold BlockWitnessMerkleRoot, commitment_script.
  rewrite (drop_app_length' _ _ 6) by done. by rewrite take_ge by (rewrite Hl; lia).
Qed.
End Checks.
End BlockChecksFacts.

Module BlockChecksProps.
Import SerializeFacts TransactionFacts BlockChecks BlockChecksFacts.

(** C10: [CheckBlock] on a block with no cached verdict accepts exactly the
    blocks whose header hash meets its target, which on a signet carry a
    solution the (given) signet check accepts, whose header commits to the
    transactions (unmutated Merkle root), with one coinbase, in first place,
    with valid transactions, within the size limit and with at most 20000
    legacy signature operations (the [unsigned int] counters cannot wrap in a
    block of admissible size); and the verdicts it caches in the block are
    only ever earned ones. *)
Theorem CheckBlock_correct (Hash : list Z → uint256) (GetHash : CBlockHeader → uint256) (params : Params)
    (signet : CBlockHeader * list CTransaction → bool) (b : CBlock) :
  (fChecked b = false → m_checked_merkle_root b = false →
   ((CheckBlock Hash GetHash params signet b true true).1 = Ok tt ↔
    Pow.CheckProofOfWork (GetHash (header b)) (h_nBits (header b)) params = true ∧
    (signet_blocks params = true → signet (header b, vtx b) = true) ∧
    BlockMerkleRoot (Hash2 Hash) Hash (vtx b) = (h_hashMerkleRoot (header b), false) ∧ contents_valid b)) ∧
  (∀ pow merkle, flags_sound Hash GetHash params signet b →
     flags_sound Hash GetHash params signet (CheckBlock Hash GetHash params signet b pow merkle).2).
Proof.
  split; [intros; by apply CheckBlock_spec|]. intros pow merkle. apply CheckBlock_flags.
Qed.

(** A block of one coinbase under toy hash functions. *)
Definition demo_Hash (l : list Z) : uint256 := digits_of 8 32 (digits_val 8 l mod (2 ^ 256 - 189)).
Definition demo_GetHash (h : CBlockHeader) : uint256 := digits_of 8 32 (h_nNonce h).
Definition demo_coinbase : CTransaction :=
  mkTx [mkTxIn outpoint_null [OP_1; OP_0] SEQUENCE_FINAL []] [mkTxOut 100000000 [OP_1]] 1 0.
Definition demo_block : CBlock :=
  mkBlock (mkHeader 4 (replicate 32 0) (Transaction.GetHash demo_Hash demo_coinbase) 1778351316 0x1f00ffff 7)
    [demo_coinbase] false false false.

Lemma CheckBlock_correct_witness :
  contents_valid demo_block ∧
  (CheckBlock demo_Hash demo_GetHash (CMainParams (replicate 32 0)) (fun _ => true) demo_block true true).1 = Ok tt.
Proof.
  assert ((CheckBlock demo_Hash demo_GetHash (CMainParams (replicate 32 0)) (fun _ => true) demo_block true true).1 = Ok tt)
    as E by (vm_compute; reflexivity).
  split; [|exact E].
  apply (proj1 (CheckBlock_correct demo_Hash demo_GetHash (CMainParams (replicate 32 0)) (fun _ => true) demo_block)
           eq_refl eq_refl). exact E.
Defined.

(** The commitment [GenerateCoinbaseCommitment] adds is the one
    [CheckWitnessMalleation] looks for: after it, a block whose coinbase had
    neither commitment nor witness passes the witness check, with the
    commitment as its last coinbase output and nothing else changed. *)
Theorem coinbase_commitment_accepted (Hash : list Z → uint256) (b : CBlock) (cb : CTransaction)
    (rest : list CTransaction) :
  (∀ l, length (Hash l) = 32%nat) → vtx b = cb :: rest → vin cb ≠ [] → HasWitness cb = false →
  GetWitnessCommitmentIndex b = NO_WITNESS_COMMITMENT →
  let '(b', script) := GenerateCoinbaseCommitment Hash b true in
  (CheckWitnessMalleation Hash b' true).1 = Ok tt ∧ header b' = header b ∧
  ∃ cb', vtx b' = cb' :: rest ∧ vout cb' = vout cb ++ [mkTxOut 0 script] ∧ map strip (vin cb') = map strip (vin cb).
Proof.
  intros Hlen Hv Hin Hw Hi. unfold GenerateCoinbaseCommitment. rewrite Hi, Hv. cbn [Z.eqb NO_WITNESS_COMMITMENT].
  set (script := commitment_script Hash _). set (cb1 := mkTx _ _ _ _). change (-1 =? -1) with true. cbn iota.
  destruct (vin cb) as [|i ins] eqn:Ein; [done|].
  destruct (committed_block Hash (set_vtx b (cb1 :: rest)) i ins (vout cb) 0 (Transaction.nVersion cb) (nLockTime cb) rest Hlen)
    as [Ei _]; [done|].
  unfold UpdateUncommittedBlockStructures. cbn [vtx set_vtx]. cbn [vtx set_vtx] in Ei. rewrite Ei.
  replace (HasWitness cb1) with false by (unfold HasWitness in Hw; rewrite Ein in Hw; done).
  replace (Z.of_nat (length (vout cb)) =? NO_WITNESS_COMMITMENT) with false by (unfold NO_WITNESS_COMMITMENT; lia).
  cbn [negb andb]. split_and!; [|done|].
  - by eapply committed_block.
  - by eexists.
Qed.

Lemma coinbase_commitment_accepted_witness :
  (CheckWitnessMalleation demo_Hash (GenerateCoinbaseCommitment demo_Hash demo_block true).1 true).1 = Ok tt.
Proof.
  pose proof (coinbase_commitment_accepted demo_Hash demo_block demo_coinbase []
    (fun l => digits_of_length 8 32 _) eq_refl ltac:(discriminate) eq_refl eq_refl) as H.
  destruct (GenerateCoinbaseCommitment demo_Hash demo_block true) as [b' script]. exact (proj1 H).
Defined.

End BlockChecksProps.
