(* ===== verification/Connect.v ===== *)
(** Connecting and disconnecting blocks: [UpdateCoins], [ApplyTxInUndo],
    [CheckInputScripts], [GetBlockScriptFlags], [Chainstate::DisconnectBlock]
    and [Chainstate::ConnectBlock] of [src/validation.cpp], with the undo data
    of [src/undo.h].

    Undo data is exchanged as values: what [UndoReadFromDisk] returns is an
    argument of [DisconnectBlock], what [WriteUndoDataForBlock] is handed is a
    result of [ConnectBlock].  The hashes and signature libraries of the script
    checks, hits of the script execution cache and the outcome of decoding the
    founder address are arguments.  A view that is left behind by a failing call is discarded by
    every caller, so errors carry no view. *)
From Stdlib Require Import ZArith Lia.
From stdpp Require Import gmap.
From S2P Require Import Prelude Arith256 Chain Params Pow Headers Serialize Script Transaction Interpreter SigHash VerifyScript Block Coins TxVerify Merkle Subsidy BlockChecks.
Import Interpreter SigHash VerifyScript Arith256.BaseUint Consensus Serialize Script Amount Transaction ScriptFlags Chain Block Coins TxVerify Merkle Subsidy BlockChecks.
Local Open Scope bb_scope.

Module Connect.

(** [CTxUndo::vprevout] and [CBlockUndo::vtxundo]. *)
Abbreviation CTxUndo := (list Coin).
Abbreviation CBlockUndo := (list CTxUndo).

Inductive DisconnectResult : Type :=
| DISCONNECT_OK
| DISCONNECT_UNCLEAN
| DISCONNECT_FAILED.

Inductive connect_error : Type :=
| CheckBlockFailed (r : block_reject)
| CorruptBlock  (* [FatalError]: a block that was stored is mutated *)
| BadTxnsBIP30
| TxInputsInvalid (e : txv_error)
| AccumulatedFeeOutOfRange
| TxNonfinal
| TooManySigops
| InputScriptsFailed
| BadCbAmount
| BadCbFounderConfig
| BadCbFounderReward
| BlockValidationFailed
| UndoWriteFailed
| CoinsFault (e : coins_error)
| ChainFault (e : chain_error)
| UintFault (e : uint_error)
| AssertFailed.

Definition lift_coins {A} (m : result coins_error A) : result connect_error A :=
  match m with Ok a => Ok a | Err e => Err (CoinsFault e) end.
Definition lift_txv {A} (m : result txv_error A) : result connect_error A :=
  match m with Ok a => Ok a | Err e => Err (TxInputsInvalid e) end.
Definition lift_index {A} (m : result chain_error A) : result connect_error A :=
  match m with Ok a => Ok a | Err e => Err (ChainFault e) end.
Definition lift_uint {A} (m : result uint_error A) : result connect_error A :=
  match m with Ok a => Ok a | Err e => Err (UintFault e) end.

(** [uint256S] of a hexadecimal literal. *)
Definition uint256S (z : Z) : uint256 := digits_of 8 32 z.

Definition IsBIP30Repeat (height : Z) (hash : uint256) : bool :=
  ((height =? 91842) && bool_decide (hash = uint256S 0x00000000000a4d0a398161ffc163c503763b1f4360639393e0e4c8e300e0caec)) ||
  ((height =? 91880) && bool_decide (hash = uint256S 0x00000000000743f190a18c5577a3c2d2a1f610ae9601ac046a38084ccb7cd721)).

Definition IsBIP30Unspendable (height : Z) (hash : uint256) : bool :=
  ((height =? 91722) && bool_decide (hash = uint256S 0x00000000000271a2dc26e7667f8419f2e15416dc6955e5a6c6cdf3f2574dd08e)) ||
  ((height =? 91812) && bool_decide (hash = uint256S 0x00000000000af0aed4792b1acee3d966af36cf5def14935db8de83d6f9306f2f)).

Definition GetBlockScriptFlags (height : Z) (hash : uint256) (params : Params) : Z :=
  let flags := Z.lor (Z.lor SCRIPT_VERIFY_P2SH SCRIPT_VERIFY_WITNESS) SCRIPT_VERIFY_TAPROOT in
  let flags := match script_flag_exceptions params !! hash with Some f => f | None => flags end in
  let active dep := DeploymentActiveAt height params dep in
  let flags := if active DEPLOYMENT_DERSIG then Z.lor flags SCRIPT_VERIFY_DERSIG else flags in
  let flags := if active DEPLOYMENT_CLTV then Z.lor flags SCRIPT_VERIFY_CHECKLOCKTIMEVERIFY else flags in
  let flags := if active DEPLOYMENT_CSV then Z.lor flags SCRIPT_VERIFY_CHECKSEQUENCEVERIFY else flags in
  if active DEPLOYMENT_SEGWIT then Z.lor flags SCRIPT_VERIFY_NULLDUMMY else flags.

Section View.
Context {B : Type} `{!CCoinsView B} (Hash : list Z → uint256).

(** ** Spending and creating coins *)

Fixpoint spend_loop (c : CCoinsViewCache B) (l : list CTxIn) : result coins_error (CTxUndo * CCoinsViewCache B) :=
  match l with
  | [] => Ok ([], c)
  | txin :: l =>
      match SpendCoin c (prevout txin) with
      | (None, _) => Err Coins.AssertFailed
      | (Some coin, c) => let! (undo, c) := spend_loop c l in Ok (coin :: undo, c)
      end
  end.

Definition UpdateCoins (c : CCoinsViewCache B) (tx : CTransaction) (nHeight : Z)
    : result coins_error (CTxUndo * CCoinsViewCache B) :=
  let! (txundo, c) := if negb (IsCoinBase tx) then spend_loop c (vin tx) else Ok ([], c) in
  let! c := AddCoins Hash c tx nHeight false in
  Ok (txundo, c).

(** ** Undoing *)

Definition ApplyTxInUndo (undo : Coin) (view : CCoinsViewCache B) (o : COutPoint)
    : result coins_error (DisconnectResult * CCoinsViewCache B) :=
  let '(have, view) := HaveCoin view o in
  let fClean := negb have in
  let '(undo, view) :=
    if coin_nHeight undo =? 0 then
      let '(alternate, view) := AccessByTxid view (op_hash o) in
      (if negb (IsSpent alternate)
       then Some (mkCoin (out undo) (fCoinBase alternate) (coin_nHeight alternate)) else None, view)
    else (Some undo, view) in
  match undo with
  | None => Ok (DISCONNECT_FAILED, view)
  | Some undo =>
      let! view := AddCoin view o undo (negb fClean) in
      Ok (if fClean then DISCONNECT_OK else DISCONNECT_UNCLEAN, view)
  end.

(** The outputs of a transaction, from index [o]: whether all matched. *)
Fixpoint unspend_outputs (view : CCoinsViewCache B) (hash : uint256) (o : Z) (l : list CTxOut)
    (nHeight : Z) (is_coinbase is_bip30_exception fClean : bool) : bool * CCoinsViewCache B :=
  match l with
  | [] => (fClean, view)
  | txout :: l =>
      let '(fClean, view) :=
        if negb (IsUnspendable (scriptPubKey txout)) then
          let '(r, view) := SpendCoin view (mkOutPoint hash o) in
          let coin := default coinEmpty r in
          let is_spent := bool_decide (is_Some r) in
          (if negb is_spent || negb (bool_decide (txout = Coins.out coin)) ||
              negb (nHeight =? coin_nHeight coin) || negb (Bool.eqb is_coinbase (fCoinBase coin))
           then if negb is_bip30_exception then false else fClean
           else fClean, view)
        else (fClean, view) in
      unspend_outputs view hash (o + 1) l nHeight is_coinbase is_bip30_exception fClean
  end.

(** The inputs and their coins, from the last one on: [None] on failure. *)
Fixpoint restore_inputs (view : CCoinsViewCache B) (l : list (CTxIn * Coin)) (fClean : bool)
    : result coins_error (option bool * CCoinsViewCache B) :=
  match l with
  | [] => Ok (Some fClean, view)
  | (txin, undo) :: l =>
      let! (r, view) := restore_inputs view l fClean in
      match r with
      | None => Ok (None, view)
      | Some fClean =>
          let! (res, view) := ApplyTxInUndo undo view (prevout txin) in
          Ok (match res with
              | DISCONNECT_FAILED => None
              | DISCONNECT_UNCLEAN => Some false
              | DISCONNECT_OK => Some fClean
              end, view)
      end
  end.

(** One transaction: [undo] is [None] for [i = 0]. *)
Definition disconnect_tx (view : CCoinsViewCache B) (tx : CTransaction) (undo : option CTxUndo)
    (nHeight : Z) (fEnforceBIP30 fClean : bool) : result coins_error (option bool * CCoinsViewCache B) :=
  let is_coinbase := IsCoinBase tx in
  let '(fClean, view) := unspend_outputs view (GetHash Hash tx) 0 (vout tx) nHeight is_coinbase
                           (is_coinbase && negb fEnforceBIP30) fClean in
  match undo with
  | None => Ok (Some fClean, view)
  | Some txundo =>
      if negb (length txundo =? length (vin tx))%nat then Ok (None, view)
      else restore_inputs view (zip (vin tx) txundo) fClean
  end.

(** The transactions after the coinbase with their undo data, last one first. *)
Fixpoint disconnect_loop (view : CCoinsViewCache B) (l : list (CTransaction * CTxUndo)) (nHeight : Z)
    (fEnforceBIP30 : bool) : result coins_error (option bool * CCoinsViewCache B) :=
  match l with
  | [] => Ok (Some true, view)
  | (tx, undo) :: l =>
      let! (r, view) := disconnect_loop view l nHeight fEnforceBIP30 in
      match r with
      | None => Ok (None, view)
      | Some fClean => disconnect_tx view tx (Some undo) nHeight fEnforceBIP30 fClean
      end
  end.

(** [blockUndo]: what [UndoReadFromDisk] returned. *)
Definition DisconnectBlock (m : BlockMap) (block : CBlock) (pindex : uint256) (blockUndo : option CBlockUndo)
    (view : CCoinsViewCache B) : result connect_error (DisconnectResult * CCoinsViewCache B) :=
  let! index := lift_index (deref m pindex) in
  match blockUndo with
  | None => Ok (DISCONNECT_FAILED, view)
  | Some vtxundo =>
      if negb (length vtxundo + 1 =? length (vtx block))%nat then Ok (DISCONNECT_FAILED, view)
      else
        let fEnforceBIP30 := negb (IsBIP30Unspendable (nHeight index) pindex) in
        let! (r, view) := lift_coins (disconnect_loop view (zip (drop 1 (vtx block)) vtxundo) (nHeight index) fEnforceBIP30) in
        match r, vtx block with
        | Some fClean, coinbase :: _ =>
            let! (r, view) := lift_coins (disconnect_tx view coinbase None (nHeight index) fEnforceBIP30 fClean) in
            match r with
            | None => Ok (DISCONNECT_FAILED, view)
            | Some fClean =>
                match pprev index with
                | None => Err (ChainFault NullDeref)
                | Some prev => Ok (if fClean then DISCONNECT_OK else DISCONNECT_UNCLEAN, SetBestBlock view prev)
                end
            end
        | _, _ => Ok (DISCONNECT_FAILED, view)
        end
  end.

End View.

(** ** [CheckInputScripts] *)

Section Scripts.
Context {B : Type} `{!CCoinsView B}.
(** What script checks use. *)
Context (hashes : script_hashes) (lib : sig_lib).
(** A hit in [g_scriptExecutionCache]. *)
Context (script_cached : CTransaction → Z → bool).

Fixpoint spent_outputs_loop (c : CCoinsViewCache B) (l : list CTxIn)
    : result connect_error (list CTxOut * CCoinsViewCache B) :=
  match l with
  | [] => Ok ([], c)
  | txin :: l =>
      let '(coin, c) := AccessCoin c (prevout txin) in
      let! _ := require (negb (IsSpent coin)) AssertFailed in
      let! (outs, c) := spent_outputs_loop c l in
      Ok (Coins.out coin :: outs, c)
  end.

(** The checks of the inputs [l], up to the first failure; an assertion that
    fails stops the node. *)
Fixpoint run_checks (tx : CTransaction) (spent_outputs : list CTxOut) (flags : Z) (l : list nat)
    : result connect_error bool :=
  match l with
  | [] => Ok true
  | i :: l =>
      match CScriptCheck hashes lib tx spent_outputs i flags with
      | Ok _ => run_checks tx spent_outputs flags l
      | Err (Fail _) => Ok false
      | Err _ => Err AssertFailed
      end
  end.

(** The outcome of the checks: run inline, or queued and waited for later.  The
    second check, without the flags of policy, only tells which reason to report. *)
Definition CheckInputScripts (c : CCoinsViewCache B) (tx : CTransaction) (flags : Z)
    : result connect_error (bool * CCoinsViewCache B) :=
  if IsCoinBase tx then Ok (true, c)
  else if script_cached tx flags then Ok (true, c)
  else
    let! (spent_outputs, c) := spent_outputs_loop c (vin tx) in
    let! ok := run_checks tx spent_outputs flags (seq 0 (length (vin tx))) in
    Ok (ok, c).

End Scripts.

(** ** [ConnectBlock] *)

Definition BIP34_IMPLIES_BIP30_LIMIT : Z := 1983702.

(** Whether the BIP30 check is made for entry [pindex]. *)
Definition enforce_bip30 (m : BlockMap) (params : Params) (pindex : uint256) : result connect_error bool :=
  let! index := lift_index (deref m pindex) in
  let fEnforceBIP30 := negb (IsBIP30Repeat (nHeight index) pindex) in
  match pprev index with
  | None => Err AssertFailed
  | Some prev =>
      let! pindexBIP34height := lift_index (GetAncestor m prev (BIP34Height params)) in
      let fEnforceBIP30 :=
        fEnforceBIP30 && match pindexBIP34height with
                         | None => true
                         | Some h => negb (bool_decide (h = BIP34Hash params))
                         end in
      Ok (fEnforceBIP30 || (nHeight index >=? BIP34_IMPLIES_BIP30_LIMIT))
  end.

Section Connecting.
Context {B : Type} `{!CCoinsView B}.
Context (Hash : list Z → uint256) (GetBlockHash : CBlockHeader → uint256) (params : Params).
Context (CheckSignetBlockSolution : CBlockHeader * list CTransaction → bool).
Context (hashes : script_hashes) (lib : sig_lib) (script_cached : CTransaction → Z → bool).
(** [AssumedValidBlock()] when not null, [m_best_header], [MinimumChainWork()]. *)
Context (assumed_valid : option uint256) (best_header : uint256) (minimum_chain_work : base_uint).
(** The check queue has threads; the script of the founder address, if valid. *)
Context (parallel_script_checks : bool) (founderScript : option CScript).
Context (WriteUndoDataForBlock : CBlockUndo → bool).

Definition need_script_checks (m : BlockMap) (pindex : uint256) : result connect_error bool :=
  match assumed_valid with
  | None => Ok true
  | Some av =>
      match m !! av with
      | None => Ok true
      | Some _ =>
          let! index := lift_index (deref m pindex) in
          let! a1 := lift_index (GetAncestor m av (nHeight index)) in
          if negb (bool_decide (a1 = Some pindex)) then Ok true
          else
            let! a2 := lift_index (GetAncestor m best_header (nHeight index)) in
            if negb (bool_decide (a2 = Some pindex)) then Ok true
            else
              let! best := lift_index (deref m best_header) in
              if negb (op_ge (nChainWork best) minimum_chain_work) then Ok true
              else
                let! t := lift_uint (GetBlockProofEquivalentTime (nChainWork best) (nChainWork index) (nBits best)
                                       (nPowTargetSpacing params)) in
                Ok (t <=? 60 * 60 * 24 * 7 * 2)
      end
  end.

Fixpoint bip30_outputs (view : CCoinsViewCache B) (hash : uint256) (o : Z) (l : list CTxOut)
    : result connect_error (CCoinsViewCache B) :=
  match l with
  | [] => Ok view
  | _ :: l =>
      let '(have, view) := HaveCoin view (mkOutPoint hash o) in
      let! _ := require (negb have) BadTxnsBIP30 in
      bip30_outputs view hash (o + 1) l
  end.

Fixpoint bip30_loop (view : CCoinsViewCache B) (l : list CTransaction) : result connect_error (CCoinsViewCache B) :=
  match l with
  | [] => Ok view
  | tx :: l => let! view := bip30_outputs view (Transaction.GetHash Hash tx) 0 (vout tx) in bip30_loop view l
  end.

Fixpoint prev_heights (view : CCoinsViewCache B) (l : list CTxIn) : list Z * CCoinsViewCache B :=
  match l with
  | [] => ([], view)
  | txin :: l =>
      let '(coin, view) := AccessCoin view (prevout txin) in
      let '(hs, view) := prev_heights view l in
      (coin_nHeight coin :: hs, view)
  end.

(** The part of the loop body for a transaction other than a coinbase. *)
Definition connect_inputs (m : BlockMap) (pindex : uint256) (height nLockTimeFlags : Z)
    (view : CCoinsViewCache B) (tx : CTransaction) (nFees : Z) : result connect_error (Z * CCoinsViewCache B) :=
  let! (txfee, view) := lift_txv (CheckTxInputs view tx height) in
  let nFees := i64 (nFees + txfee) in
  let! _ := require (MoneyRange nFees) AccumulatedFeeOutOfRange in
  let '(prevheights, view) := prev_heights view (vin tx) in
  let! ok := lift_txv (SequenceLocks m tx nLockTimeFlags prevheights pindex) in
  let! _ := require ok TxNonfinal in
  Ok (nFees, view).

(** The loop over [block.vtx]: fees, undo data (the first transaction has
    none), and whether all queued script checks succeed. *)
Fixpoint connect_loop (m : BlockMap) (pindex : uint256) (height nLockTimeFlags flags : Z) (fScriptChecks : bool)
    (view : CCoinsViewCache B) (l : list CTransaction) (nFees nSigOpsCost : Z) (queued : bool)
    : result connect_error (Z * CBlockUndo * bool * CCoinsViewCache B) :=
  match l with
  | [] => Ok (nFees, [], queued, view)
  | tx :: l =>
      let! (nFees, view) :=
        if negb (IsCoinBase tx) then connect_inputs m pindex height nLockTimeFlags view tx nFees
        else Ok (nFees, view) in
      let! (cost, view) := lift_txv (GetTransactionSigOpCost view tx flags) in
      let nSigOpsCost := nSigOpsCost + cost in
      let! _ := require (negb (nSigOpsCost >? MAX_BLOCK_SIGOPS_COST)) TooManySigops in
      let! (queued, view) :=
        if negb (IsCoinBase tx) && fScriptChecks then
          let! (ok, view) := CheckInputScripts hashes lib script_cached view tx flags in
          if parallel_script_checks then Ok (queued && ok, view)
          else let! _ := require ok InputScriptsFailed in Ok (queued, view)
        else Ok (queued, view) in
      let! (txundo, view) := lift_coins (UpdateCoins Hash view tx height) in
      let! (nFees, undos, queued, view) :=
        connect_loop m pindex height nLockTimeFlags flags fScriptChecks view l nFees nSigOpsCost queued in
      Ok (nFees, txundo :: undos, queued, view)
  end.

(** The founder output of the coinbase. *)
Definition check_founder (coinbase : CTransaction) (height : Z) : result connect_error unit :=
  let expectedFounderReward := GetFounderRewardForBlock height params in
  if expectedFounderReward >? 0 then
    match founderScript with
    | None => Err BadCbFounderConfig
    | Some script =>
        require (existsb (fun output => bool_decide (scriptPubKey output = script) &&
                                        (nValue output >=? expectedFounderReward)) (vout coinbase)) BadCbFounderReward
    end
  else Ok tt.

Record connected := mkConnected {
  c_block : CBlock;
  c_view : CCoinsViewCache B;
  c_undo : option CBlockUndo;  (* written to disk, when it is *)
  c_status : Z;                (* [pindex->nStatus] *)
}.

Definition ConnectBlock (m : BlockMap) (block : CBlock) (pindex : uint256) (view : CCoinsViewCache B)
    (fJustCheck : bool) : result connect_error connected :=
  let! index := lift_index (deref m pindex) in
  let! _ := require (bool_decide (pindex = GetBlockHash (header block))) AssertFailed in
  match CheckBlock Hash GetBlockHash params CheckSignetBlockSolution block (negb fJustCheck) (negb fJustCheck) with
  | (Err (Invalid r), _) => if IsMutated r then Err CorruptBlock else Err (CheckBlockFailed r)
  | (Err (Fault e), _) => Err (ChainFault e)
  | (Ok _, block) =>
      let hashPrevBlock := default null256 (pprev index) in
      let '(best, view) := GetBestBlock view in
      let! _ := require (bool_decide (hashPrevBlock = best)) AssertFailed in
      if bool_decide (pindex = hashGenesisBlock params) then
        Ok (mkConnected block (if negb fJustCheck then SetBestBlock view pindex else view) None (nStatus index))
      else
        let! fScriptChecks := need_script_checks m pindex in
        let! enforce := enforce_bip30 m params pindex in
        let! view := if enforce then bip30_loop view (vtx block) else Ok view in
        let nLockTimeFlags := if DeploymentActiveAt (nHeight index) params DEPLOYMENT_CSV
                              then LOCKTIME_VERIFY_SEQUENCE else 0 in
        let flags := GetBlockScriptFlags (nHeight index) pindex params in
        let! (nFees, undos, queued, view) :=
          connect_loop m pindex (nHeight index) nLockTimeFlags flags fScriptChecks view (vtx block) 0 0 true in
        match vtx block with
        | [] => Err (ChainFault NullDeref)
        | coinbase :: _ =>
            let blockReward := i64 (nFees + GetBlockSubsidy (nHeight index) params) in
            let! value_out := lift_txv (TxVerify.lift_tx (GetValueOut coinbase)) in
            let! _ := require (negb (value_out >? blockReward)) BadCbAmount in
            let! _ := check_founder coinbase (nHeight index) in
            let! _ := require queued BlockValidationFailed in
            if fJustCheck then Ok (mkConnected block view None (nStatus index))
            else
              let blockundo := drop 1 undos in
              let! _ := require (WriteUndoDataForBlock blockundo) UndoWriteFailed in
              let! valid := lift_index (Headers.IsValid (nStatus index) BLOCK_VALID_SCRIPTS) in
              let! status := if negb valid then
                               let! (s, _) := lift_index (RaiseValidity (nStatus index) BLOCK_VALID_SCRIPTS) in Ok s
                             else Ok (nStatus index) in
              Ok (mkConnected block (SetBestBlock view pindex) (Some blockundo) status)
        end
  end.

End Connecting.

End Connect.
