(* ===== verification/ConnectFacts.v ===== *)
(** Proofs about connecting and disconnecting blocks: the effect of a block on
    the unspent set as a map, that [ConnectBlock] has it, that
    [DisconnectBlock] reverts it, and what it does to the money supply. *)
From Stdlib Require Import ZArith Lia.
From stdpp Require Import gmap.
From S2P Require Import Prelude Arith256 Chain Params Pow Headers Serialize Script Transaction Interpreter SigHash VerifyScript Block Coins TxVerify Merkle Subsidy BlockChecks Connect.
Import Interpreter SigHash VerifyScript Consensus Script Amount Transaction Chain Block Coins TxVerify Subsidy BlockChecks Connect.
Import TransactionFacts CoinsSpec CoinsFacts TxVerifyFacts BlockChecksFacts.
Local Open Scope bb_scope.

Module Effect.

(** ** The effect of transactions on the unspent set *)

Abbreviation utxo_set := (gmap COutPoint Coin).

Definition del_ins (m : utxo_set) (l : list CTxIn) : utxo_set :=
  foldl (fun m i => delete (prevout i) m) m l.

Fixpoint ins_outs (m : utxo_set) (txid : uint256) (i : Z) (l : list CTxOut) (h : Z) (cb : bool) : utxo_set :=
  match l with
  | [] => m
  | o :: l =>
      ins_outs (if IsUnspendable (scriptPubKey o) then m else <[mkOutPoint txid i := Coin_of o h cb]> m)
        txid (i + 1) l h cb
  end.

Definition apply_tx (Hash : list Z → uint256) (h : Z) (m : utxo_set) (tx : CTransaction) : utxo_set :=
  ins_outs (if IsCoinBase tx then m else del_ins m (vin tx)) (GetHash Hash tx) 0 (vout tx) h (IsCoinBase tx).

(** The undo data of a transaction: the coins it spends. *)
Definition tx_undo (m : utxo_set) (tx : CTransaction) (undo : list Coin) : Prop :=
  if IsCoinBase tx then undo = [] else spends (fun o => m !! o) (vin tx) undo.

(** A list of transactions takes [m] to [m'], leaving the undo data. *)
Inductive applied (Hash : list Z → uint256) (h : Z) : utxo_set → list CTransaction → list (list Coin) → utxo_set → Prop :=
| applied_nil m : applied Hash h m [] [] m
| applied_cons m tx l undo undos m' :
    tx_undo m tx undo → applied Hash h (apply_tx Hash h m tx) l undos m' →
    applied Hash h m (tx :: l) (undo :: undos) m'.

(** Every input of the transaction passes its script check, for the outputs the
    unspent set has. *)
Definition inputs_verified (hashes : script_hashes) (lib : sig_lib) (flags : Z) (m : utxo_set) (tx : CTransaction) : Prop :=
  ∃ coins, spends (fun o => m !! o) (vin tx) coins ∧
    ∀ i, (i < length (vin tx))%nat → CScriptCheck hashes lib tx (map Coins.out coins) i flags = Ok tt.

(** All of a list, each against the set left by the ones before it, except where
    the script execution cache has the transaction. *)
Fixpoint verified (Hash : list Z → uint256) (h : Z) (hashes : script_hashes) (lib : sig_lib)
    (cached : CTransaction → Z → bool) (flags : Z) (m : utxo_set) (l : list CTransaction) : Prop :=
  match l with
  | [] => True
  | tx :: l =>
      (IsCoinBase tx = false → cached tx flags = true ∨ inputs_verified hashes lib flags m tx) ∧
      verified Hash h hashes lib cached flags (apply_tx Hash h m tx) l
  end.

(** ** Facts about the maps *)

Lemma del_ins_lookup m l o :
  del_ins m l !! o = if decide (o ∈ map prevout l) then None else m !! o.
Proof.
  revert m. induction l as [|i l IH]; intros m; cbn [del_ins foldl map].
  - rewrite decide_False; [done|]. apply not_elem_of_nil.
  - change (foldl _ (delete (prevout i) m) l) with (del_ins (delete (prevout i) m) l). rewrite IH, lookup_delete.
    destruct (decide (o ∈ map prevout l)) as [H|H].
    + rewrite decide_True; [done|]. by right.
    + destruct (decide (prevout i = o)) as [<-|Hn].
      * rewrite (decide_True (P := prevout i ∈ _)); [done|]. left.
      * rewrite decide_False; [done|]. intros [->|?]%elem_of_cons; auto.
Qed.

Lemma ins_outs_lookup_other m txid i l h cb o :
  op_hash o ≠ txid ∨ op_n o < i → ins_outs m txid i l h cb !! o = m !! o.
Proof.
  revert m i. induction l as [|x l IH]; intros m i Ho; cbn [ins_outs]; [done|].
  rewrite IH by (destruct Ho; [by left|right; lia]). destruct (IsUnspendable _); [done|].
  apply lookup_insert_ne. intros <-. cbn in Ho. destruct Ho; [done|lia].
Qed.

Lemma ins_outs_insert m txid i l h cb k v :
  op_n k < i → ins_outs (<[k := v]> m) txid i l h cb = <[k := v]> (ins_outs m txid i l h cb).
Proof.
  revert m i. induction l as [|x l IH]; intros m i Hk; cbn [ins_outs]; [done|].
  destruct (IsUnspendable _); [apply IH; lia|].
  rewrite insert_insert_ne by (intros E; apply (f_equal op_n) in E; cbn in E; lia). apply IH. lia.
Qed.

(** No coin of [m] is an output of one of the transactions. *)
Definition fresh (Hash : list Z → uint256) (m : utxo_set) (l : list CTransaction) : Prop :=
  ∀ tx n, tx ∈ l → 0 <= n < Z.of_nat (length (vout tx)) → m !! mkOutPoint (GetHash Hash tx) n = None.

Lemma fresh_apply Hash h m tx l :
  fresh Hash m (tx :: l) → GetHash Hash tx ∉ map (GetHash Hash) l → fresh Hash (apply_tx Hash h m tx) l.
Proof.
  intros Hf Hn tx' n Hin Hr. unfold apply_tx. rewrite ins_outs_lookup_other.
  - assert (m !! mkOutPoint (GetHash Hash tx') n = None) as E by (apply Hf; [by right|done]).
    destruct (IsCoinBase tx); [done|]. rewrite del_ins_lookup, E. by destruct (decide _).
  - left. cbn. intros E. apply Hn. rewrite <- E. by apply list_elem_of_fmap_2.
Qed.

(** What every coin of the set satisfies: created above height 0, spendable,
    with a value in range. *)
Definition coin_ok (k : Coin) : Prop :=
  0 < coin_nHeight k ∧ IsUnspendable (scriptPubKey (Coins.out k)) = false ∧ in_range (Coins.out k).
Definition utxo_ok (m : utxo_set) : Prop := map_Forall (fun _ => coin_ok) m.

Lemma del_ins_sub m l o k : del_ins m l !! o = Some k → m !! o = Some k.
Proof. rewrite del_ins_lookup. by destruct (decide _). Qed.

Lemma ins_outs_ok m txid i l h cb :
  0 < h < 2 ^ 31 → utxo_ok m → Forall in_range l → utxo_ok (ins_outs m txid i l h cb).
Proof.
  intros Hh. revert m i. induction l as [|o l IH]; intros m i Hm Hl; cbn [ins_outs]; [done|].
  apply list.Forall_cons in Hl as [Ho Hl]. apply IH; [|done]. destruct (IsUnspendable _) eqn:E; [done|].
  apply map_Forall_insert_2; [|done]. split_and!; [|done|done].
  cbn. rewrite wrap_small by (unfold in_u; lia). lia.
Qed.

Lemma apply_tx_ok Hash h m tx :
  0 < h < 2 ^ 31 → utxo_ok m → Forall in_range (vout tx) → utxo_ok (apply_tx Hash h m tx).
Proof.
  intros Hh Hm Hv. apply ins_outs_ok; [done| |done]. destruct (IsCoinBase tx); [done|].
  intros o k Ho. by apply (Hm o), (del_ins_sub _ (vin tx)).
Qed.

Lemma in_range_unspent o h cb : in_range o → IsSpent (Coin_of o h cb) = false.
Proof. unfold in_range, IsSpent, txout_IsNull. cbn. lia. Qed.

(** ** Value *)

Definition value (m : utxo_set) : Z := map_fold (fun _ k acc => nValue (Coins.out k) + acc) 0 m.

Lemma value_insert m o k : m !! o = None → value (<[o := k]> m) = nValue (Coins.out k) + value m.
Proof.
  intros H. unfold value.
  rewrite (map_fold_insert_L (fun _ k acc => nValue (Coins.out k) + acc)); [done| |done]. intros. lia.
Qed.

Lemma value_delete m o k : m !! o = Some k → value (delete o m) = value m - nValue (Coins.out k).
Proof.
  intros H. rewrite <- (insert_delete_id m o k H) at 2. rewrite value_insert; [lia|]. apply lookup_delete_eq.
Qed.

Lemma spends_agree (m m' : utxo_set) l coins :
  (∀ o, o ∈ map prevout l → m' !! o = m !! o) →
  spends (fun o => m !! o) l coins → spends (fun o => m' !! o) l coins.
Proof.
  intros H Hs. induction Hs as [|i k l coins Hi Hs IH]; constructor.
  - rewrite H; [done|]. left.
  - apply IH. intros o Ho. apply H. by right.
Qed.

Lemma spends_delete (m : utxo_set) i l coins :
  prevout i ∉ map prevout l → spends (fun o => m !! o) l coins →
  spends (fun o => delete (prevout i) m !! o) l coins.
Proof. intros Hn. apply spends_agree. intros o Ho. apply lookup_delete_ne. intros E. apply Hn. by rewrite E. Qed.

Lemma value_del_ins m l coins :
  spends (fun o => m !! o) l coins → base.NoDup (map prevout l) →
  value (del_ins m l) = value m - total (map Coins.out coins).
Proof.
  intros Hs. revert m Hs. induction l as [|i l IH] in coins |- *; intros m Hs Hnd; inversion Hs; subst; cbn.
  { lia. }
  apply list.NoDup_cons in Hnd as [Hi Hnd].
  change (foldl _ _ l) with (del_ins (delete (prevout i) m) l).
  rewrite (IH l'); [|by apply spends_delete|done]. rewrite (value_delete _ _ y) by done. lia.
Qed.

Lemma value_ins_outs m txid i l h cb :
  (∀ n, i <= n < i + Z.of_nat (length l) → m !! mkOutPoint txid n = None) → Forall in_range l →
  value (ins_outs m txid i l h cb) <= value m + total l.
Proof.
  revert m i. induction l as [|o l IH]; intros m i Hf Hl; cbn [ins_outs total length] in *; [lia|].
  apply list.Forall_cons in Hl as [Ho Hl]. destruct (IsUnspendable _).
  - specialize (IH m (i + 1)). unfold in_range in Ho.
    enough (value (ins_outs m txid (i + 1) l h cb) <= value m + total l) by lia.
    apply IH; [|done]. intros n Hn. apply Hf. lia.
  - rewrite ins_outs_insert by (cbn; lia). rewrite value_insert.
    + cbn. specialize (IH m (i + 1)). enough (value (ins_outs m txid (i + 1) l h cb) <= value m + total l) by lia.
      apply IH; [|done]. intros n Hn. apply Hf. lia.
    + rewrite ins_outs_lookup_other by (cbn; lia). apply Hf. lia.
Qed.

(** A transaction other than a coinbase moves value, less its fee; a coinbase
    creates at most its outputs. *)
Lemma value_apply_tx Hash h m tx undo :
  fresh Hash m [tx] → Forall in_range (vout tx) → base.NoDup (map prevout (vin tx)) → tx_undo m tx undo →
  value (apply_tx Hash h m tx) <= value m - total (map Coins.out undo) + total (vout tx).
Proof.
  intros Hf Hv Hnd Hu. unfold apply_tx, tx_undo in *.
  assert (∀ n, 0 <= n < 0 + Z.of_nat (length (vout tx)) → m !! mkOutPoint (GetHash Hash tx) n = None) as Hk
    by (intros n Hn; apply Hf; [left|lia]).
  destruct (IsCoinBase tx).
  - subst undo. cbn. pose proof (value_ins_outs m (GetHash Hash tx) 0 (vout tx) h true). cbn in *.
    enough (value (ins_outs m (GetHash Hash tx) 0 (vout tx) h true) <= value m + total (vout tx)) by lia. auto.
  - rewrite <- (value_del_ins m (vin tx)) by done. apply value_ins_outs; [|done].
    intros n Hn. rewrite del_ins_lookup, Hk by done. by destruct (decide _).
Qed.

Lemma del_ins_delete m i l : del_ins (delete (prevout i) m) l = delete (prevout i) (del_ins m l).
Proof.
  revert m. induction l as [|j l IH]; intros m; [done|]. cbn.
  change (del_ins (delete (prevout j) (delete (prevout i) m)) l = delete (prevout i) (del_ins (delete (prevout j) m) l)).
  rewrite <- IH. f_equal. apply map_eq. intros o. rewrite !lookup_delete. by repeat case_decide.
Qed.
End Effect.

(** ** The code on a view *)
Module OnView.
Import Effect.

Section View.
Context {B : Type} `{!CCoinsView B} {utxo : B → COutPoint → option Coin} {best : B → uint256}
  {inv : B → Prop} `{HR : !CCoinsViewReads B utxo best inv}.
Implicit Types (c : CCoinsViewCache B) (m : utxo_set).

Abbreviation c_best := (cache_best (best := best)).

(** The view holds the set [m] on top of block [b]. *)
Definition holds c m (b : uint256) : Prop :=
  cache_inv (utxo := utxo) (inv := inv) c ∧ (∀ o, cache_utxo (utxo := utxo) c o = m !! o) ∧ c_best c = b.

Lemma holds_same c c' m b :
  holds c m b →
  same_view (cache_utxo (utxo := utxo)) c_best (cache_inv (utxo := utxo) (inv := inv)) c c' → holds c' m b.
Proof. intros (H1 & H2 & H3) [H4 H5 H6]. split_and!; [done|intros; by rewrite H5|by rewrite H6]. Qed.

Lemma holds_HaveCoin c m b o :
  holds c m b → (HaveCoin c o).1 = bool_decide (is_Some (m !! o)) ∧ holds (HaveCoin c o).2 m b.
Proof.
  intros Hc. pose proof Hc as (H1 & H2 & _). destruct (HaveCoin_spec c o H1) as [E Hs].
  split; [by rewrite E, H2|by eapply holds_same].
Qed.

Lemma holds_AccessCoin c m b o :
  holds c m b → live (AccessCoin c o).1 = m !! o ∧ holds (AccessCoin c o).2 m b.
Proof.
  intros Hc. pose proof Hc as (H1 & H2 & _). destruct (AccessCoin_spec c o H1) as [E Hs].
  split; [by rewrite E, H2|by eapply holds_same].
Qed.

Lemma holds_SpendCoin c m b o k :
  holds c m b → m !! o = Some k → ∃ c', SpendCoin c o = (Some k, c') ∧ holds c' (delete o m) b.
Proof.
  intros (H1 & H2 & H3) Hk. destruct (SpendCoin_spec c o H1) as (E1 & E2 & E3 & E4).
  rewrite H2, Hk in E1. destruct (SpendCoin c o) as [[k'|] c']; cbn in *; [|done].
  apply live_Some in E1 as [-> _]. exists c'. split; [done|]. split_and!; [done| |by rewrite E3].
  intros o'. rewrite E4, lookup_delete. destruct (decide (o' = o)) as [->|].
  - by rewrite decide_True.
  - by rewrite decide_False.
Qed.

Lemma holds_AddCoin c m b o k ow :
  holds c m b → IsSpent k = false → IsUnspendable (scriptPubKey (Coins.out k)) = false →
  (ow = false → m !! o = None) → ∃ c', AddCoin c o k ow = Ok c' ∧ holds c' (<[o := k]> m) b.
Proof.
  intros (H1 & H2 & H3) Hk Hu Ho.
  destruct (AddCoin_spec (best := best) c o k ow H1 Hk Hu) as (c' & E & E1 & E2 & E3).
  { intros How. rewrite H2. auto. }
  exists c'. split; [done|]. split_and!; [done| |by rewrite E2]. intros o'. rewrite E3, lookup_insert.
  destruct (decide (o' = o)) as [->|].
  - by rewrite decide_True.
  - by rewrite decide_False.
Qed.

(** ** [UpdateCoins] *)

Lemma spend_loop_spec c m b l coins :
  holds c m b → spends (fun o => m !! o) l coins → base.NoDup (map prevout l) →
  ∃ c', spend_loop c l = Ok (coins, c') ∧ holds c' (del_ins m l) b.
Proof.
  intros Hc Hs. revert c m coins Hc Hs. induction l as [|i l IH]; intros c m coins Hc Hs Hnd; inversion Hs; subst.
  { by exists c. }
  apply list.NoDup_cons in Hnd as [Hi Hnd]. cbn [spend_loop].
  destruct (holds_SpendCoin c m b (prevout i) y Hc) as (c1 & -> & Hc1); [done|].
  destruct (IH c1 (delete (prevout i) m) l' Hc1) as (c2 & -> & Hc2); [by apply spends_delete|done|].
  by exists c2.
Qed.

Lemma add_coins_loop_spec c m b txid i l h cb :
  holds c m b → Forall in_range l → (∀ n, i <= n < i + Z.of_nat (length l) → m !! mkOutPoint txid n = None) →
  ∃ c', add_coins_loop c txid i l h cb false = Ok c' ∧ holds c' (ins_outs m txid i l h cb) b.
Proof.
  revert c m i. induction l as [|o l IH]; intros c m i Hc Hl Hf; cbn [add_coins_loop ins_outs length] in *.
  { by exists c. }
  apply list.Forall_cons in Hl as [Ho Hl]. pose proof (in_range_unspent o h cb Ho) as Hs.
  destruct (IsUnspendable (scriptPubKey o)) eqn:E.
  - unfold AddCoin. rewrite Hs. cbn [negb require rbind]. cbn [Coins.out Coin_of]. rewrite E. cbn [rbind].
    apply IH; [done|done|]. intros n Hn. apply Hf. lia.
  - destruct (holds_AddCoin c m b (mkOutPoint txid i) (Coin_of o h cb) cb Hc Hs E) as (c1 & -> & Hc1).
    { intros _. apply Hf. lia. }
    cbn [rbind]. apply IH; [done|done|]. intros n Hn. rewrite lookup_insert_ne; [apply Hf; lia|].
    intros [=]. lia.
Qed.

Lemma UpdateCoins_spec Hash c m b tx h undo :
  holds c m b → tx_undo m tx undo → fresh Hash m [tx] → Forall in_range (vout tx) →
  base.NoDup (map prevout (vin tx)) →
  ∃ c', UpdateCoins Hash c tx h = Ok (undo, c') ∧ holds c' (apply_tx Hash h m tx) b.
Proof.
  intros Hc Hu Hf Hv Hnd. unfold UpdateCoins, AddCoins, apply_tx, tx_undo in *.
  assert (∀ n, 0 <= n < 0 + Z.of_nat (length (vout tx)) → m !! mkOutPoint (GetHash Hash tx) n = None) as Hk
    by (intros n Hn; apply Hf; [left|lia]).
  destruct (IsCoinBase tx); cbn [negb rbind].
  - subst undo. destruct (add_coins_loop_spec c m b (GetHash Hash tx) 0 (vout tx) h true Hc Hv) as (c' & -> & Hc'); [done|].
    by exists c'.
  - destruct (spend_loop_spec c m b (vin tx) undo Hc Hu Hnd) as (c1 & -> & Hc1). cbn [rbind].
    destruct (add_coins_loop_spec c1 _ b (GetHash Hash tx) 0 (vout tx) h false Hc1 Hv) as (c' & -> & Hc').
    { intros n Hn. rewrite del_ins_lookup, Hk by done. by destruct (decide _). }
    by exists c'.
Qed.

(** ** Undoing a transaction *)

Lemma unspend_outputs_spec c m b txid i l h cb exc fClean :
  0 <= h < 2 ^ 31 → (∀ n, i <= n < i + Z.of_nat (length l) → m !! mkOutPoint txid n = None) →
  holds c (ins_outs m txid i l h cb) b →
  ∃ c', unspend_outputs c txid i l h cb exc fClean = (fClean, c') ∧ holds c' m b.
Proof.
  intros Hh. revert c m i. induction l as [|o l IH]; intros c m i Hf Hc; cbn [unspend_outputs ins_outs length] in *.
  { by exists c. }
  destruct (IsUnspendable (scriptPubKey o)); cbn [negb].
  { apply IH; [|done]. intros n Hn. apply Hf. lia. }
  assert (mkOutPoint txid i = mkOutPoint txid i) as _ by done.
  rewrite ins_outs_insert in Hc by (cbn; lia).
  destruct (holds_SpendCoin c _ b (mkOutPoint txid i) (Coin_of o h cb) Hc) as (c1 & -> & Hc1); [by rewrite lookup_insert_eq|].
  rewrite delete_insert_id in Hc1 by (rewrite ins_outs_lookup_other by (cbn; lia); apply Hf; lia).
  cbn [default from_option id Coins.out coin_nHeight fCoinBase Coin_of].
  rewrite bool_decide_true, bool_decide_true by done. cbn [negb orb].
  rewrite wrap_small by (unfold in_u; lia). rewrite Z.eqb_refl, eqb_reflx. cbn [negb orb].
  apply IH; [|done]. intros n Hn. apply Hf. lia.
Qed.

Lemma restore_inputs_spec c m b l coins fClean :
  spends (fun o => m !! o) l coins → base.NoDup (map prevout l) → utxo_ok m →
  holds c (del_ins m l) b →
  ∃ c', restore_inputs c (zip l coins) fClean = Ok (Some fClean, c') ∧ holds c' m b.
Proof.
  intros Hs. revert c m Hs. induction l as [|i l IH] in coins |- *; intros c m Hs Hnd Hok Hc; inversion Hs; subst.
  { by exists c. }
  apply list.NoDup_cons in Hnd as [Hi Hnd]. cbn [zip_with restore_inputs].
  destruct (IH l' c (delete (prevout i) m)) as (c1 & -> & Hc1);
    [by apply spends_delete|done|by apply map_Forall_delete|done|]. cbn [rbind].
  destruct (Hok _ _ ltac:(eassumption)) as (Hh & Hu & Hr).
  unfold ApplyTxInUndo. destruct (holds_HaveCoin c1 _ b (prevout i) Hc1) as [E Hc2].
  destruct (HaveCoin c1 (prevout i)) as [have c2]. cbn [fst snd] in *.
  rewrite lookup_delete_eq in E. rewrite bool_decide_false in E by by intros [? ?]. subst have. cbn [negb].
  replace (coin_nHeight y =? 0) with false by lia.
  destruct (holds_AddCoin c2 _ b (prevout i) y false Hc2) as (c3 & -> & Hc3); [|done| |].
  { unfold IsSpent, txout_IsNull, in_range in *. lia. }
  { intros _. apply lookup_delete_eq. }
  exists c3. split; [done|]. by rewrite insert_delete_id in Hc3.
Qed.

Lemma disconnect_tx_spec Hash c m b tx undo h enforce fClean :
  0 <= h < 2 ^ 31 → fresh Hash m [tx] → base.NoDup (map prevout (vin tx)) → utxo_ok m →
  tx_undo m tx undo → holds c (apply_tx Hash h m tx) b →
  ∃ c', disconnect_tx Hash c tx (if IsCoinBase tx then None else Some undo) h enforce fClean = Ok (Some fClean, c') ∧
        holds c' m b.
Proof.
  intros Hh Hf Hnd Hok Hu Hc. unfold disconnect_tx, apply_tx, tx_undo in *.
  assert (∀ n, 0 <= n < 0 + Z.of_nat (length (vout tx)) → m !! mkOutPoint (GetHash Hash tx) n = None) as Hk
    by (intros n Hn; apply Hf; [left|lia]).
  destruct (IsCoinBase tx).
  - destruct (unspend_outputs_spec c m b (GetHash Hash tx) 0 (vout tx) h true (true && negb enforce) fClean)
      as (c' & -> & Hc'); [done|done|done|]. by exists c'.
  - destruct (unspend_outputs_spec c (del_ins m (vin tx)) b (GetHash Hash tx) 0 (vout tx) h false (false && negb enforce) fClean)
      as (c1 & -> & Hc1); [done| |done|].
    { intros n Hn. rewrite del_ins_lookup, Hk by done. by destruct (decide _). }
    rewrite <- (Forall2_length Hu), Nat.eqb_refl. cbn [negb]. by apply restore_inputs_spec.
Qed.

Lemma disconnect_loop_spec Hash h m l undos m' c b enforce :
  0 < h < 2 ^ 31 → applied Hash h m l undos m' → utxo_ok m → fresh Hash m l →
  base.NoDup (map (GetHash Hash) l) → Forall tx_valid l → Forall (fun tx => IsCoinBase tx = false) l →
  holds c m' b →
  ∃ c', disconnect_loop Hash c (zip l undos) h enforce = Ok (Some true, c') ∧ holds c' m b.
Proof.
  intros Hh Ha. revert c. induction Ha as [m|m tx l undo undos m' Hu Ha IH]; intros c Hok Hf Hnd Hv Hcb Hc.
  { by exists c. }
  cbn [map] in Hnd. apply list.NoDup_cons in Hnd as [Hn Hnd]. apply list.Forall_cons in Hv as [Htx Hv].
  apply list.Forall_cons in Hcb as [Hcb Hcbs]. destruct Htx as (_ & _ & _ & Hr & _ & Hd & _).
  destruct (IH c) as (c1 & E1 & Hc1); [by apply apply_tx_ok; [lia|..]|by apply fresh_apply|done..|].
  cbn [zip_with disconnect_loop]. rewrite E1. cbn [rbind].
  destruct (disconnect_tx_spec Hash c1 m b tx undo h enforce true) as (c2 & E2 & Hc2);
    [lia| |done|done|done|done|].
  { intros tx' n ->%list_elem_of_singleton Hr'. apply Hf; [left|done]. }
  rewrite Hcb in E2. by exists c2.
Qed.

(** ** Queries of the loop body *)

Ltac access Hc Hc' :=
  match goal with |- context [AccessCoin ?c ?o] =>
    let H := fresh in pose proof (holds_AccessCoin c _ _ o Hc) as [H Hc'];
    destruct (AccessCoin c o) as [? ?]; cbn [fst snd] in H, Hc'
  end.

Lemma p2sh_sigops_loop_holds c m b l n r c' :
  holds c m b → p2sh_sigops_loop c l n = Ok (r, c') → holds c' m b.
Proof.
  revert c n. induction l as [|i l IH]; intros c n Hc; cbn [p2sh_sigops_loop]; [by intros [= _ <-]|].
  access Hc Hc1. intros (_ & _ & H')%rbind_ok. by eapply IH.
Qed.

Lemma witness_sigops_loop_holds c m b l flags n r c' :
  holds c m b → witness_sigops_loop c l flags n = Ok (r, c') → holds c' m b.
Proof.
  revert c n. induction l as [|i l IH]; intros c n Hc; cbn [witness_sigops_loop]; [by intros [= _ <-]|].
  access Hc Hc1. intros (_ & _ & H')%rbind_ok. apply rbind_ok in H' as (x & _ & H'). by eapply IH.
Qed.

Lemma GetTransactionSigOpCost_holds c m b tx flags r c' :
  holds c m b → GetTransactionSigOpCost c tx flags = Ok (r, c') → holds c' m b.
Proof.
  intros Hc. unfold GetTransactionSigOpCost. destruct (IsCoinBase tx) eqn:Ecb; [by intros [= _ <-]|].
  intros ([n c1] & H1 & H2)%rbind_ok. eapply witness_sigops_loop_holds; [|exact H2].
  destruct (negb _); [|by injection H1 as _ <-]. apply rbind_ok in H1 as ([x c2] & H1 & [= _ <-]).
  unfold GetP2SHSigOpCount in H1. rewrite Ecb in H1. by eapply p2sh_sigops_loop_holds.
Qed.

Lemma spent_outputs_loop_spec c m b l r c' :
  holds c m b → spent_outputs_loop c l = Ok (r, c') →
  holds c' m b ∧ ∃ coins, spends (fun o => m !! o) l coins ∧ r = map Coins.out coins.
Proof.
  revert c r. induction l as [|i l IH]; intros c r Hc; cbn [spent_outputs_loop].
  { intros [= <- <-]. split; [done|]. exists []. by split; [constructor|]. }
  destruct (holds_AccessCoin c _ _ (prevout i) Hc) as [Ek Hc1]. destruct (AccessCoin c (prevout i)) as [k c1].
  cbn [fst snd] in Ek, Hc1.
  intros (_ & Hs%require_ok%negb_true_iff & H')%rbind_ok. apply rbind_ok in H' as ([x c2] & H' & [= <- <-]).
  destruct (IH _ _ Hc1 H') as (Hc2 & coins & Hsp & ->). split; [done|]. unfold live in Ek. rewrite Hs in Ek.
  exists (k :: coins). by split; [constructor|].
Qed.

Lemma run_checks_true hashes lib tx outs flags l :
  run_checks hashes lib tx outs flags l = Ok true → ∀ i, i ∈ l → CScriptCheck hashes lib tx outs i flags = Ok tt.
Proof.
  induction l as [|k l IH]; cbn [run_checks]; [by intros _ i ?%not_elem_of_nil|].
  destruct (CScriptCheck hashes lib tx outs k flags) as [[]|[]] eqn:E; [|done..].
  intros H i [->|Hi]%elem_of_cons; [done|by apply IH].
Qed.

Lemma CheckInputScripts_spec hashes lib cached c m b tx flags ok c' :
  holds c m b → IsCoinBase tx = false → CheckInputScripts hashes lib cached c tx flags = Ok (ok, c') →
  holds c' m b ∧ (ok = true → cached tx flags = true ∨ inputs_verified hashes lib flags m tx).
Proof.
  intros Hc Hcb. unfold CheckInputScripts. rewrite Hcb. destruct (cached tx flags); [intros [= _ <-]; auto|].
  intros ([x c2] & H' & (ok' & Hr & [= <- <-])%rbind_ok)%rbind_ok.
  destruct (spent_outputs_loop_spec _ _ _ _ _ _ Hc H') as (Hc2 & coins & Hsp & ->). split; [done|].
  intros ->. right. exists coins. split; [done|]. intros i Hi. eapply run_checks_true; [exact Hr|]. apply elem_of_seq. lia.
Qed.

Lemma prev_heights_holds c m b l : holds c m b → holds (prev_heights c l).2 m b.
Proof.
  revert c. induction l as [|i l IH]; intros c Hc; cbn [prev_heights]; [done|].
  access Hc Hc1. specialize (IH _ Hc1). by destruct (prev_heights _ l).
Qed.

Lemma bip30_outputs_spec c m b txid i l c' :
  holds c m b → bip30_outputs c txid i l = Ok c' →
  holds c' m b ∧ ∀ n, i <= n < i + Z.of_nat (length l) → m !! mkOutPoint txid n = None.
Proof.
  revert c i. induction l as [|o l IH]; intros c i Hc; cbn [bip30_outputs].
  { intros [= <-]. split; [done|]. cbn. lia. }
  destruct (holds_HaveCoin c m b (mkOutPoint txid i) Hc) as [E Hc1].
  destruct (HaveCoin c (mkOutPoint txid i)) as [have c1]. cbn [fst snd] in *.
  intros (_ & Hr%require_ok & H')%rbind_ok. destruct (IH _ _ Hc1 H') as [Hc2 Hn]. split; [done|].
  intros n Hr'. destruct (decide (n = i)) as [->|Hne]; [|apply Hn; cbn [length] in Hr'; lia].
  rewrite E in Hr. apply negb_true_iff, bool_decide_eq_false in Hr. by apply eq_None_not_Some.
Qed.

Lemma bip30_loop_spec Hash c m b l c' :
  holds c m b → bip30_loop Hash c l = Ok c' →
  holds c' m b ∧
  ∀ tx n, tx ∈ l → 0 <= n < Z.of_nat (length (vout tx)) → m !! mkOutPoint (GetHash Hash tx) n = None.
Proof.
  revert c. induction l as [|tx l IH]; intros c Hc; cbn [bip30_loop].
  { intros [= <-]. split; [done|]. by intros ? ? ?%not_elem_of_nil. }
  intros (c1 & H1 & H2)%rbind_ok. destruct (bip30_outputs_spec _ _ _ _ _ _ _ Hc H1) as [Hc1 Hn].
  destruct (IH _ Hc1 H2) as [Hc2 Hl]. split; [done|]. intros tx' n [->|Hin]%elem_of_cons Hr; [apply Hn; lia|by apply Hl].
Qed.

(** ** The loop of [ConnectBlock] *)

Section Loop.
Context (Hash : list Z → uint256).
Context (hashes : script_hashes) (lib : sig_lib) (script_cached : CTransaction → Z → bool).
Context (parallel_script_checks : bool) (bm : BlockMap) (pindex : uint256) (h nLockTimeFlags sflags : Z).

Lemma connect_inputs_spec c m b tx nFees nFees' c' :
  holds c m b → IsCoinBase tx = false → 0 <= nFees <= MAX_MONEY →
  connect_inputs bm pindex h nLockTimeFlags c tx nFees = Ok (nFees', c') →
  holds c' m b ∧ ∃ coins, affordable (fun o => m !! o) tx h coins ∧
    nFees' = nFees + (total (map Coins.out coins) - total (vout tx)) ∧ 0 <= nFees' <= MAX_MONEY.
Proof.
  intros Hc Hcb Hn. pose proof Hc as (Hinv & Hu & _).
  pose proof (CheckTxInputs_spec c tx h Hinv Hcb) as Hs. unfold connect_inputs.
  destruct (CheckTxInputs c tx h) as [[fee c1]|]; [|done]. destruct Hs as (Hsame & coins & Haff & ->).
  cbn [lift_txv rbind]. intros (_ & Hr%require_ok & H')%rbind_ok.
  pose proof (prev_heights_holds c1 m b (vin tx) (holds_same _ _ _ _ Hc Hsame)) as Hc2.
  destruct (prev_heights c1 (vin tx)) as [hs c2]. apply rbind_ok in H' as (ok & _ & H').
  apply rbind_ok in H' as (_ & _ & [= <- <-]). split; [done|]. exists coins.
  pose proof Haff as (Hsp & (Hm & Hra & Hle) & Hv & Ht).
  assert (0 <= total (vout tx)) by by apply total_nonneg.
  rewrite add_money in * by lia. apply MoneyRange_spec in Hr. split_and!; [|done|lia|lia].
  split; [|split; [done|split; done]]. by eapply spends_ext; [|exact Hsp].
Qed.

(** What the coinbase transactions of a list pay out. *)
Fixpoint coinbase_total (l : list CTransaction) : Z :=
  match l with
  | [] => 0
  | tx :: l => (if IsCoinBase tx then total (vout tx) else 0) + coinbase_total l
  end.

(** The part of the loop body that checks scripts. *)
Lemma script_step_spec c m b tx fsc queued q c' :
  holds c m b →
  (if negb (IsCoinBase tx) && fsc then
     let! (ok, view) := CheckInputScripts hashes lib script_cached c tx sflags in
     if parallel_script_checks then Ok (queued && ok, view)
     else let! _ := require ok InputScriptsFailed in Ok (queued, view)
   else Ok (queued, c)) = Ok (q, c') →
  holds c' m b ∧ (q = true → queued = true ∧ (fsc = true → IsCoinBase tx = false →
    script_cached tx sflags = true ∨ inputs_verified hashes lib sflags m tx)).
Proof.
  intros Hc. destruct (negb (IsCoinBase tx) && fsc) eqn:E.
  - apply andb_true_iff in E as [Hcb%negb_true_iff _]. intros ([ok c2] & H1 & H2)%rbind_ok.
    destruct (CheckInputScripts_spec _ _ _ _ _ _ _ _ _ _ Hc Hcb H1) as [Hc2 Hv].
    assert (c2 = c' ∧ (q = true → queued = true ∧ ok = true)) as [-> Hq].
    { destruct parallel_script_checks; [injection H2 as <- <-; split; [done|apply andb_true_iff]|].
      apply rbind_ok in H2 as (_ & Hok%require_ok & [= <- <-]). done. }
    split; [done|]. intros Hqt. destruct (Hq Hqt) as [? ?]. split; [done|]. intros _ _. by apply Hv.
  - intros [= <- <-]. split; [done|]. intros ->. split; [done|]. intros -> Hcb. by rewrite Hcb in E.
Qed.

Lemma connect_loop_spec l c m b fsc nFees cost queued nFees' undos queued' c' :
  0 < h < 2 ^ 31 → holds c m b → utxo_ok m → fresh Hash m l → base.NoDup (map (GetHash Hash) l) →
  Forall tx_valid l → 0 <= nFees <= MAX_MONEY →
  connect_loop Hash hashes lib script_cached parallel_script_checks bm pindex h nLockTimeFlags sflags fsc
    c l nFees cost queued = Ok (nFees', undos, queued', c') →
  ∃ m', applied Hash h m l undos m' ∧ holds c' m' b ∧ utxo_ok m' ∧ 0 <= nFees' <= MAX_MONEY ∧
    value m' + nFees' <= value m + nFees + coinbase_total l ∧
    (queued' = true → queued = true ∧ (fsc = true → verified Hash h hashes lib script_cached sflags m l)).
Proof.
  intros Hh. revert c m nFees cost queued nFees' undos.
  induction l as [|tx l IH]; intros c m nFees cost queued nFees' undos Hc Hok Hf Hnd Hv Hn; cbn [connect_loop].
  { intros [= <- <- <- <-]. exists m. split_and!; [constructor|done|done|lia|lia|cbn; lia|done]. }
  cbn [map] in Hnd. apply list.NoDup_cons in Hnd as [Hni Hnd]. apply list.Forall_cons in Hv as [Htx Hv].
  assert (fresh Hash m [tx]) as Hf1 by (intros tx' n ->%list_elem_of_singleton Hr'; apply Hf; [left|done]).
  pose proof Htx as (_ & _ & _ & Hr & _ & Hd & _).
  intros ([f1 c1] & H1 & H')%rbind_ok.
  assert (holds c1 m b ∧ 0 <= f1 <= MAX_MONEY ∧ ∃ undo, tx_undo m tx undo ∧
    (if IsCoinBase tx then f1 = nFees else f1 = nFees + (total (map Coins.out undo) - total (vout tx)))) as (Hc1 & Hf1' & undo & Hu & Ef).
  { unfold tx_undo. destruct (IsCoinBase tx) eqn:Ecb; cbn [negb] in H1.
    - injection H1 as <- <-. split_and!; [done|lia|lia|]. by exists [].
    - destruct (connect_inputs_spec _ _ _ _ _ _ _ Hc Ecb Hn H1) as (Hc1 & coins & (Hsp & _) & E & Hb).
      split_and!; [done|lia|lia|]. by exists coins. }
  apply rbind_ok in H' as ([x c2] & H2 & H'). assert (holds c2 m b) as Hc2.
  { destruct (GetTransactionSigOpCost c1 tx sflags) as [[y c2']|] eqn:E; [|done]. injection H2 as -> ->.
    by eapply GetTransactionSigOpCost_holds. }
  apply rbind_ok in H' as (_ & _ & H'). apply rbind_ok in H' as ([q c3] & H3 & H').
  destruct (script_step_spec c2 m b tx fsc queued q c3 Hc2 H3) as [Hc3 Hq].
  destruct (UpdateCoins_spec Hash c3 m b tx h undo Hc3 Hu Hf1 Hr Hd) as (c4 & E4 & Hc4).
  rewrite E4 in H'. cbn [lift_coins rbind] in H'. apply rbind_ok in H' as ([[[nf us] qq] c5] & H5 & [= <- <- <- <-]).
  destruct (IH _ _ _ _ _ _ _ Hc4 (apply_tx_ok Hash h m tx Hh Hok Hr) (fresh_apply _ _ _ _ _ Hf Hni) Hnd Hv Hf1' H5)
    as (m' & Ha & Hc5 & Hok5 & Hb5 & Hval & Hver).
  exists m'. split_and!; [by econstructor|done|done|lia|lia| |].
  2: { intros Hqq. destruct (Hver Hqq) as [Hq1 Hv1]. destruct (Hq Hq1) as [Hq2 Hv2]. split; [done|]. intros Hfsc.
       split; [by apply Hv2|by apply Hv1]. }
  pose proof (value_apply_tx Hash h m tx undo Hf1 Hr Hd Hu). cbn [coinbase_total]. unfold tx_undo in Hu.
  destruct (IsCoinBase tx); [subst undo; cbn in *; lia|lia].
Qed.
End Loop.

(** ** Whole blocks *)

Lemma holds_SetBestBlock c m b hash : IsNull256 hash = false → holds c m b → holds (SetBestBlock c hash) m hash.
Proof.
  intros Hn (H1 & H2 & _). split_and!; [done|done|]. unfold cache_best. cbn [hashBlock SetBestBlock]. by rewrite Hn.
Qed.

Lemma CheckBlock_same Hash GetBlockHash params signet block pow merkle r block' :
  CheckBlock Hash GetBlockHash params signet block pow merkle = (r, block') →
  header block' = header block ∧ vtx block' = vtx block.
Proof.
  unfold CheckBlock. destruct (fChecked block); [by intros [= _ <-]|].
  destruct (lift_header _); [|by intros [= _ <-]]. destruct (_ && _ && _); [by intros [= _ <-]|].
  assert (∀ r b1, (if merkle then CheckMerkleRoot Hash block else (Ok tt, block)) = (r, b1) →
    header b1 = header block ∧ vtx b1 = vtx block) as Hm.
  { intros r1 b1. destruct merkle; [|by intros [= _ <-]]. unfold CheckMerkleRoot.
    destruct (m_checked_merkle_root block); [by intros [= _ <-]|].
    destruct (Merkle.BlockMerkleRoot _ _ _) as [root mut]. destruct (negb _); [by intros [= _ <-]|].
    destruct mut; by intros [= _ <-]. }
  destruct (if merkle then _ else _) as [[u|] b1] eqn:E; destruct (Hm _ _ eq_refl) as [E1 E2]; [|by intros [= _ <-]].
  destruct (check_contents b1); [|by intros [= _ <-]]. intros [= _ <-]. by destruct (pow && merkle).
Qed.

Lemma CheckBlock_contents Hash GetBlockHash params signet block block' :
  flags_sound Hash GetBlockHash params signet block →
  CheckBlock Hash GetBlockHash params signet block true true = (Ok tt, block') → contents_valid block.
Proof.
  intros Hf E. destruct (CheckBlock_same _ _ _ _ _ _ _ _ _ E) as [E1 E2].
  assert (flags_sound Hash GetBlockHash params signet block') as Hf'.
  { pose proof (CheckBlock_flags Hash GetBlockHash params signet block true true Hf) as H. by rewrite E in H. }
  apply (contents_valid_eq block'); [done|done|]. apply Hf'. revert E. unfold CheckBlock.
  destruct (fChecked block) eqn:Ef; [by intros [= <-]|]. destruct (lift_header _); [|done]. destruct (_ && _ && _); [done|].
  destruct (CheckMerkleRoot Hash block) as [[u|] b1]; [|done]. destruct (check_contents b1); [|done].
  by intros [= <-].
Qed.

Section Block.
Context (Hash : list Z → uint256) (GetBlockHash : CBlockHeader → uint256) (params : Params).
Context (signet : CBlockHeader * list CTransaction → bool).
Context (hashes : script_hashes) (lib : sig_lib) (script_cached : CTransaction → Z → bool).
Context (assumed_valid : option uint256) (best_header : uint256) (minimum_chain_work : list Z).
Context (parallel : bool) (founder : option CScript) (WriteUndo : CBlockUndo → bool).
Abbreviation connect_block := (ConnectBlock Hash GetBlockHash params signet hashes lib script_cached
  assumed_valid best_header minimum_chain_work parallel founder WriteUndo).

(** The situation [ConnectBlock] is called in: an entry above the genesis, a
    view that holds the unspent set of its parent, and transactions with
    distinct ids. *)
Record ready (bm : BlockMap) (block : CBlock) (pindex : uint256) (index : CBlockIndex) (prev : uint256)
    (view : CCoinsViewCache B) (m : utxo_set) : Prop := {
  r_index : bm !! pindex = Some index;
  r_height : 0 < nHeight index < 2 ^ 31;
  r_prev : pprev index = Some prev ∧ IsNull256 prev = false;
  r_hash : IsNull256 pindex = false ∧ pindex ≠ hashGenesisBlock params;
  r_flags : flags_sound Hash GetBlockHash params signet block;
  r_bip30 : enforce_bip30 bm params pindex = Ok true;
  r_ids : base.NoDup (map (GetHash Hash) (vtx block));
  r_view : holds view m prev;
  r_utxo : utxo_ok m;
}.

(** What a connected block guarantees. *)
Record connects (block : CBlock) (pindex : uint256) (index : CBlockIndex) (m m' : utxo_set)
    (undos : CBlockUndo) : Prop := {
  k_contents : contents_valid block;
  k_applied : ∃ coinbase rest, vtx block = coinbase :: rest ∧
    applied Hash (nHeight index) m (coinbase :: rest) ([] :: undos) m' ∧
    Forall (fun tx => IsCoinBase tx = false) rest ∧ IsCoinBase coinbase = true ∧ fresh Hash m (coinbase :: rest) ∧
    check_founder params founder coinbase (nHeight index) = Ok tt;
  k_utxo : utxo_ok m';
  k_value : value m' <= value m + GetBlockSubsidy (nHeight index) params;
}.

(** What it guarantees of the scripts. *)
Definition scripts_verified (bm : BlockMap) (block : CBlock) (pindex : uint256) (index : CBlockIndex) (m : utxo_set) : Prop :=
  need_script_checks params assumed_valid best_header minimum_chain_work bm pindex = Ok true →
  verified Hash (nHeight index) hashes lib script_cached (GetBlockScriptFlags (nHeight index) pindex params) m (vtx block).

Lemma ConnectBlock_spec bm block pindex index prev view m r :
  0 < nSubsidyHalvingInterval params →
  ready bm block pindex index prev view m →
  connect_block bm block pindex view false = Ok r →
  scripts_verified bm block pindex index m ∧
  ∃ m' undos, connects block pindex index m m' undos ∧ c_undo r = Some undos ∧ holds (c_view r) m' pindex.
Proof.
  intros Hi [Hidx Hh [Hpp Hpn] [Hhn Hg] Hfl Hb30 Hids Hview Hok].
  unfold ConnectBlock, deref. rewrite Hidx. cbn [lift_index rbind negb].
  intros (_ & _ & H')%rbind_ok. destruct (CheckBlock _ _ _ _ _ _ _) as [[[]|[r0|]] block'] eqn:Ecb; [|by destruct (IsMutated r0)|done].
  destruct (CheckBlock_same _ _ _ _ _ _ _ _ _ Ecb) as [Eh Ev].
  pose proof (CheckBlock_contents _ _ _ _ _ _ Hfl Ecb) as Hcont.
  pose proof Hcont as ((coinbase & rest & Evt & Hcb & Hrest) & Hvalid & _).
  destruct (GetBestBlock view) as [best0 view1] eqn:Eb.
  assert (holds view1 m prev) as Hv1.
  { pose proof (GetBestBlock_spec view (proj1 Hview)) as [_ Hs]. rewrite Eb in Hs. by eapply holds_same. }
  apply rbind_ok in H' as (_ & _ & H'). rewrite bool_decide_false in H' by done.
  apply rbind_ok in H' as (fsc & Hfsc & H'). rewrite Hb30 in H'. cbn [rbind] in H'.
  apply rbind_ok in H' as (view2 & H30 & H'). rewrite Ev in *.
  destruct (bip30_loop_spec Hash _ _ _ _ _ Hv1 H30) as [Hv2 Hfresh].
  apply rbind_ok in H' as ([[[nFees undos] queued] view3] & Hloop & H').
  assert (0 <= 0 <= MAX_MONEY) as Hz by (unfold MAX_MONEY, COIN; lia).
  rewrite Evt in *. edestruct connect_loop_spec as (m' & Ha & Hv3 & Hok' & Hfees & Hval & Hver);
    [exact Hh|exact Hv2|exact Hok|exact Hfresh|exact Hids|exact Hvalid|exact Hz|exact Hloop|].
  apply rbind_ok in H' as (vo & Hvo & H'). apply rbind_ok in H' as (_ & Hamt%require_ok & H').
  apply rbind_ok in H' as ([] & Hfound & H'). apply rbind_ok in H' as (_ & Hqueued%require_ok & H').
  apply rbind_ok in H' as (_ & _ & H'). apply rbind_ok in H' as (vv & _ & H'). apply rbind_ok in H' as (st & _ & [= <-]).
  inversion Ha as [|? ? ? undo undos' ? Hu Ha' E1 E2 E3]; subst. unfold tx_undo in Hu. rewrite Hcb in Hu. subst undo.
  split; [intros Hn; rewrite Hn in Hfsc; injection Hfsc as <-; rewrite Evt; by apply Hver|].
  exists m', undos'. split; [|split; [done|by eapply holds_SetBestBlock]].
  split; [done| |done|].
  - exists coinbase, rest. split_and!; done.
  - apply list.Forall_cons in Hvalid as [(_ & _ & _ & Hr & Htot & _) _].
    assert (GetValueOut coinbase = Ok (total (vout coinbase))) as Ev0 by by apply GetValueOut_spec.
    rewrite Ev0 in Hvo. injection Hvo as <-.
    assert (coinbase_total rest = 0) as Er.
    { clear -Hrest. induction Hrest as [|tx l Htx _ IH]; cbn; [done|]. by rewrite Htx. }
    cbn [coinbase_total] in Hval. rewrite Hcb, Er in Hval.
    pose proof (SubsidyFacts.GetBlockSubsidy_range params Hi (nHeight index)).
    rewrite swrap_small in Hamt; [lia|lia|]. unfold in_s, MAX_MONEY, COIN in *. lia.
Qed.

Lemma DisconnectBlock_spec bm block pindex index prev m m' undos c enforce_hash :
  bm !! pindex = Some index → 0 < nHeight index < 2 ^ 31 → pprev index = Some prev → IsNull256 prev = false →
  base.NoDup (map (GetHash Hash) (vtx block)) → utxo_ok m → connects block pindex index m m' undos →
  holds c m' enforce_hash →
  ∃ c', DisconnectBlock Hash bm block pindex (Some undos) c = Ok (DISCONNECT_OK, c') ∧ holds c' m prev.
Proof.
  intros Hidx Hh Hpp Hpn Hids Hok [Hcont (coinbase & rest & Ev & Ha & Hrest & Hcb & Hfresh & _) _ _] Hc.
  pose proof Hcont as (_ & Hvalid & _). rewrite Ev in *.
  inversion Ha as [|? ? ? ? ? ? Hu Ha' E1 E2 E3]; subst.
  cbn [map] in Hids. apply list.NoDup_cons in Hids as [Hn Hids]. apply list.Forall_cons in Hvalid as [Htx Hvalid].
  pose proof Htx as (_ & _ & _ & Hr & _ & Hd & _).
  unfold DisconnectBlock, deref. rewrite Hidx, Ev. cbn [lift_index rbind drop]. rewrite drop_0.
  assert (length undos = length rest) as El.
  { clear -Ha'. induction Ha'; cbn; congruence. }
  replace (length undos + 1 =? length (coinbase :: rest))%nat with true
    by (symmetry; apply Nat.eqb_eq; cbn; lia). cbn [negb].
  destruct (disconnect_loop_spec Hash (nHeight index) (apply_tx Hash (nHeight index) m coinbase) rest undos m' c enforce_hash
    (negb (IsBIP30Unspendable (nHeight index) pindex))) as (c1 & -> & Hc1);
    [done|done|by apply apply_tx_ok|by apply fresh_apply|done|done|done|done|].
  cbn [lift_coins rbind].
  destruct (disconnect_tx_spec Hash c1 m enforce_hash coinbase [] (nHeight index)
    (negb (IsBIP30Unspendable (nHeight index) pindex)) true) as (c2 & E & Hc2); [lia| |done|done|done|done|].
  { intros tx' n ->%list_elem_of_singleton Hr'. apply Hfresh; [left|done]. }
  rewrite Hcb in E. rewrite E. cbn [lift_coins rbind]. rewrite Hpp.
  eexists. split; [done|]. by eapply holds_SetBestBlock.
Qed.
End Block.
End View.
End OnView.

Module ConnectProps.
Import Effect OnView.

Section Props.
Context {B : Type} `{!CCoinsView B} (utxo : B → COutPoint → option Coin) (best : B → uint256)
  (inv : B → Prop).
Context (Hash : list Z → uint256) (GetBlockHash : CBlockHeader → uint256) (params : Params).
Context (signet : CBlockHeader * list CTransaction → bool).
Context (hashes : script_hashes) (lib : sig_lib) (script_cached : CTransaction → Z → bool).
Context (assumed_valid : option uint256) (best_header : uint256) (minimum_chain_work : list Z).
Context (parallel : bool) (founder : option CScript) (WriteUndo : CBlockUndo → bool).
Abbreviation connect_block := (ConnectBlock Hash GetBlockHash params signet hashes lib script_cached
  assumed_valid best_header minimum_chain_work parallel founder WriteUndo).
Abbreviation is_ready := (ready (utxo := utxo) (best := best) (inv := inv) Hash GetBlockHash params signet).
Abbreviation view_holds := (holds (utxo := utxo) (best := best) (inv := inv)).

(** C5: A block that [ConnectBlock] accepts cannot inflate the supply: the
    unspent set after it is worth at most the one before plus the subsidy of
    its height, fees included, and keeps its invariant; the view ends up on
    the block; and where a founder reward is due, the coinbase has an output
    of at least that value to the founder script. *)
Theorem connect_no_inflation bm block pindex index prev view m r :
  CCoinsViewLaws B utxo best inv → 0 < nSubsidyHalvingInterval params →
  is_ready bm block pindex index prev view m →
  connect_block bm block pindex view false = Ok r →
  ∃ m', view_holds (c_view r) m' pindex ∧ utxo_ok m' ∧
    value m' <= value m + GetBlockSubsidy (nHeight index) params ∧
    (0 < GetFounderRewardForBlock (nHeight index) params →
     ∃ coinbase rest script o, vtx block = coinbase :: rest ∧ founder = Some script ∧ o ∈ vout coinbase ∧
       scriptPubKey o = script ∧ GetFounderRewardForBlock (nHeight index) params <= nValue o).
Proof.
  intros HL Hi Hready E.
  edestruct (ConnectBlock_spec (HR := law_reads)) as (_ & m' & undos & Hk & _ & Hh); [exact Hi|exact Hready|exact E|].
  exists m'. split_and!; [done|apply Hk|apply Hk|]. intros Hpos.
  destruct Hk as [_ (coinbase & rest & Ev & _ & _ & _ & _ & Hf) _ _]. exists coinbase, rest.
  unfold check_founder in Hf. replace (_ >? 0) with true in Hf by lia.
  destruct founder as [script|]; [|done]. apply require_ok, existsb_exists in Hf as (o & Hin & Ho).
  apply andb_true_iff in Ho as [Ho1 Ho2]. exists script, o. split_and!; [done|done| | |lia].
  - by apply list_elem_of_In.
  - by apply bool_decide_eq_true in Ho1.
Qed.

(** C6: Disconnecting is the inverse of connecting: with the undo data
    [ConnectBlock] wrote, [DisconnectBlock] reports a clean disconnection and
    leaves a view that holds exactly the unspent set and best block there were
    before the block, including coins created and spent within it. *)
Theorem disconnect_undoes_connect bm block pindex index prev view m r :
  CCoinsViewLaws B utxo best inv → 0 < nSubsidyHalvingInterval params →
  is_ready bm block pindex index prev view m →
  connect_block bm block pindex view false = Ok r →
  ∃ undos view', c_undo r = Some undos ∧
    DisconnectBlock Hash bm block pindex (Some undos) (c_view r) = Ok (DISCONNECT_OK, view') ∧
    holds (utxo := utxo) (best := best) (inv := inv) view' m prev.
Proof.
  intros HL Hi Hready E.
  edestruct (ConnectBlock_spec (HR := law_reads)) as (_ & m' & undos & Hk & Hu & Hh); [exact Hi|exact Hready|exact E|].
  pose proof Hready as [Hidx Hht [Hpp Hpn] _ _ _ Hids _ Hok].
  edestruct (DisconnectBlock_spec (HR := law_reads)) as (c' & Ed & Hc'); [exact Hidx|done|exact Hpp|done|exact Hids|exact Hok|exact Hk|exact Hh|].
  by exists undos, c'.
Qed.

(** C8: A connected block's scripts were verified: where the assumed-valid rule
    does not switch the checks off, every input of every transaction after the
    coinbase passes [CScriptCheck] under the flags of the block's height, for the
    outputs it spends in the unspent set left by the transactions before it,
    unless the script execution cache has the transaction under these flags.  The
    checks are run for real by the interpreter, inline or queued. *)
Theorem connected_scripts_verified bm block pindex index prev view m r :
  CCoinsViewLaws B utxo best inv → 0 < nSubsidyHalvingInterval params →
  is_ready bm block pindex index prev view m →
  connect_block bm block pindex view false = Ok r →
  need_script_checks params assumed_valid best_header minimum_chain_work bm pindex = Ok true →
  verified Hash (nHeight index) hashes lib script_cached (GetBlockScriptFlags (nHeight index) pindex params) m (vtx block).
Proof.
  intros HL Hi Hready E.
  edestruct (ConnectBlock_spec (HR := law_reads)) as (Hs & _); [exact Hi|exact Hready|exact E|]. exact Hs.
Qed.
End Props.

(** ** A block of three transactions on top of a genesis *)

Definition demo_Hash : list Z → uint256 := BlockChecksProps.demo_Hash.
Definition demo_GetHash : CBlockHeader → uint256 := BlockChecksProps.demo_GetHash.
Definition genesis_hash : uint256 := digits_of 8 32 7.
Definition block_hash : uint256 := digits_of 8 32 9.
Definition demo_params : Params := CMainParams genesis_hash.

Definition demo_index (prev : option uint256) (h t : Z) : CBlockIndex :=
  {| pprev := prev; pskip := None; nHeight := h; nChainWork := replicate 8 0; nTx := 0; nChainTx := 0; nStatus := 2; Chain.nVersion := 4;
     hashMerkleRoot := null256; nTime := t; nBits := 0x1f00ffff; nNonce := 0; nSequenceId := 0; nTimeMax := t |}.
Definition demo_map : BlockMap :=
  {[ genesis_hash := demo_index None 0 1778351316; block_hash := demo_index (Some genesis_hash) 1 1778351916 ]}.

Definition demo_key : COutPoint := mkOutPoint (replicate 32 5) 0.
Definition demo_utxo : utxo_set := {[ demo_key := Coin_of (mkTxOut 5000 [OP_1]) 1 false ]}.
Definition demo_spend : CTransaction :=
  mkTx [mkTxIn demo_key [] SEQUENCE_FINAL []] [mkTxOut 4000 [OP_1]; mkTxOut 0 [OP_RETURN]] 1 0.
Definition demo_respend : CTransaction :=
  mkTx [mkTxIn (mkOutPoint (GetHash demo_Hash demo_spend) 0) [] SEQUENCE_FINAL []] [mkTxOut 3500 [OP_1]] 1 0.
Definition demo_coinbase : CTransaction :=
  mkTx [mkTxIn outpoint_null [OP_1; OP_0] SEQUENCE_FINAL []] [mkTxOut 100001500 [OP_1]] 1 0.
Definition demo_txs : list CTransaction := [demo_coinbase; demo_spend; demo_respend].
Definition demo_block : CBlock :=
  mkBlock (mkHeader 4 genesis_hash (Merkle.BlockMerkleRoot (Hash2 demo_Hash) demo_Hash demo_txs).1 1778351916 0x1f00ffff 9)
    demo_txs false false false.

Definition demo_view_ops : CCoinsView CCoinsViewDB := CCoinsViewDB_view (fun _ => false).
Definition demo_view : CCoinsViewCache CCoinsViewDB := mkCache (mkDB demo_utxo (Some genesis_hash) None) genesis_hash ∅ 0.
Definition demo_hashes : script_hashes := mkHashes demo_Hash demo_Hash demo_Hash (fun _ => true).
Definition demo_lib : sig_lib :=
  mkSigLib (fun _ _ _ => false) (fun _ _ _ => false) (fun _ _ _ _ => false) (fun n _ => replicate n 0) (fun _ _ _ _ => false).
Definition demo_connect : result connect_error (connected (B := CCoinsViewDB)) :=
  ConnectBlock (CCoinsView0 := demo_view_ops) demo_Hash demo_GetHash demo_params (fun _ => true)
    demo_hashes demo_lib (fun _ _ => false) None block_hash (replicate 8 0) true None (fun _ => true)
    demo_map demo_block block_hash demo_view false.
Definition demo_connected : connected (B := CCoinsViewDB) :=
  match demo_connect with Ok r => r | Err _ => mkConnected demo_block demo_view None 0 end.

Lemma demo_connect_ok : demo_connect = Ok demo_connected.
Proof. vm_compute. reflexivity. Qed.

Lemma demo_ready :
  ready (utxo := db_utxo) (best := db_GetBestBlock) (inv := db_inv)
    demo_Hash demo_GetHash demo_params (fun _ => true) demo_map demo_block block_hash (demo_index (Some genesis_hash) 1 1778351916)
    genesis_hash demo_view demo_utxo.
Proof.
  split; try done; try (split; done).
  - apply (bool_decide_eq_true_1 (base.NoDup (map (GetHash demo_Hash) demo_txs))). vm_compute. reflexivity.
  - split_and!; [|done|done]. split; [|apply map_fits_empty]. split; [|done].
    intros o k Ho. change (demo_utxo !! o = Some k) in Ho. unfold demo_utxo in Ho. apply lookup_singleton_Some in Ho as [_ <-]. reflexivity.
  - apply map_Forall_singleton. split_and!; [reflexivity|reflexivity|]. unfold in_range, MAX_MONEY, COIN. cbn. lia.
Qed.

Lemma connect_no_inflation_witness :
  ∃ m', holds (utxo := db_utxo) (best := db_GetBestBlock) (inv := db_inv)
          (c_view demo_connected) m' block_hash ∧ value m' <= value demo_utxo + COIN.
Proof.
  destruct (connect_no_inflation (CCoinsView0 := demo_view_ops) db_utxo db_GetBestBlock db_inv demo_Hash demo_GetHash demo_params
    (fun _ => true) demo_hashes demo_lib (fun _ _ => false) None block_hash (replicate 8 0) true None (fun _ => true)
    demo_map demo_block block_hash _ genesis_hash demo_view demo_utxo demo_connected
    (CCoinsViewDB_laws (fun _ => false)) ltac:(cbn; lia) demo_ready demo_connect_ok) as (m' & H1 & _ & H2 & _).
  exists m'. split; [exact H1|exact H2].
Defined.

Lemma disconnect_undoes_connect_witness :
  ∃ undos view', c_undo demo_connected = Some undos ∧
    DisconnectBlock (CCoinsView0 := demo_view_ops) demo_Hash demo_map demo_block block_hash (Some undos)
      (c_view demo_connected) = Ok (DISCONNECT_OK, view') ∧
    holds (utxo := db_utxo) (best := db_GetBestBlock) (inv := db_inv) view' demo_utxo genesis_hash.
Proof.
  exact (disconnect_undoes_connect (CCoinsView0 := demo_view_ops) db_utxo db_GetBestBlock db_inv demo_Hash demo_GetHash demo_params
    (fun _ => true) demo_hashes demo_lib (fun _ _ => false) None block_hash (replicate 8 0) true None (fun _ => true)
    demo_map demo_block block_hash _ genesis_hash demo_view demo_utxo demo_connected
    (CCoinsViewDB_laws (fun _ => false)) ltac:(cbn; lia) demo_ready demo_connect_ok).
Defined.

Lemma connected_scripts_verified_witness :
  verified demo_Hash 1 demo_hashes demo_lib (fun _ _ => false) (GetBlockScriptFlags 1 block_hash demo_params)
    demo_utxo demo_txs.
Proof.
  exact (connected_scripts_verified (CCoinsView0 := demo_view_ops) db_utxo db_GetBestBlock db_inv demo_Hash demo_GetHash demo_params
    (fun _ => true) demo_hashes demo_lib (fun _ _ => false) None block_hash (replicate 8 0) true None (fun _ => true)
    demo_map demo_block block_hash _ genesis_hash demo_view demo_utxo demo_connected
    (CCoinsViewDB_laws (fun _ => false)) ltac:(cbn; lia) demo_ready demo_connect_ok eq_refl).
Defined.

End ConnectProps.
