(* ===== verification/ConnectExact.v ===== *)
(** [ConnectBlock] decides: it accepts exactly the blocks that are valid on the
    unspent set of their parent, and every other outcome is a rejection, never a
    failed assertion. *)
From Stdlib Require Import ZArith Lia.
From stdpp Require Import gmap.
From S2P Require Import Prelude Arith256 Chain Params Pow Headers Serialize Script Transaction Interpreter SigHash VerifyScript InterpreterFacts VerifyFacts Block Coins TxVerify Merkle Subsidy BlockChecks Connect ConnectFacts.
Import Interpreter SigHash VerifyScript ScriptFlags SafetyFacts VerifySafety Consensus Script Amount Transaction Chain Block Coins TxVerify Subsidy BlockChecks Connect.
Import TransactionFacts CoinsSpec CoinsFacts TxVerifyFacts BlockChecksFacts Effect OnView.
Local Open Scope bb_scope.

(** ** The rules, on the unspent set *)
Module Rules.

(** Outcomes that are verdicts about the block. *)
Definition txv_rejects (e : txv_error) : bool :=
  match e with
  | TxInputsMissingOrSpent | PrematureSpendOfCoinbase | InputValuesOutOfRange | InBelowOut | FeeOutOfRange => true
  | _ => false
  end.
Definition rejects (e : connect_error) : bool :=
  match e with
  | CheckBlockFailed _ | BadTxnsBIP30 | AccumulatedFeeOutOfRange | TxNonfinal | TooManySigops | InputScriptsFailed
  | BadCbAmount | BadCbFounderConfig | BadCbFounderReward | BlockValidationFailed => true
  | TxInputsInvalid e => txv_rejects e
  | _ => false
  end.

Definition CountWitnessSigOps' (i : CTxIn) (k : Coin) (flags : Z) : Z :=
  match CountWitnessSigOps (scriptSig i) (scriptPubKey (Coins.out k)) (scriptWitness i) flags with Ok n => n | Err _ => 0 end.

(** The signature operations of a transaction that spends [coins]. *)
Definition p2sh_sigops (l : list (CTxIn * Coin)) (n : Z) : Z :=
  foldl (fun n e => let spk := scriptPubKey (Coins.out e.2) in
                    if IsPayToScriptHash spk then u32 (n + GetP2SHSigOps spk (scriptSig e.1)) else n) n l.
Definition witness_sigops (flags : Z) (l : list (CTxIn * Coin)) (n : Z) : Z :=
  foldl (fun n e => i64 (n + CountWitnessSigOps' e.1 e.2 flags)) n l.
Definition sigop_cost (flags : Z) (tx : CTransaction) (coins : list Coin) : Z :=
  let n := u32 (GetLegacySigOpCount tx * WITNESS_SCALE_FACTOR) in
  if IsCoinBase tx then n
  else
    let l := zip (vin tx) coins in
    witness_sigops flags l
      (if negb (Z.land flags SCRIPT_VERIFY_P2SH =? 0) then n + u32 (p2sh_sigops l 0 * WITNESS_SCALE_FACTOR) else n).

Definition tx_fee (tx : CTransaction) (coins : list Coin) : Z :=
  if IsCoinBase tx then 0 else total (map Coins.out coins) - total (vout tx).

Section Rules.
Context (Hash : list Z → uint256) (hashes : script_hashes) (lib : sig_lib) (script_cached : CTransaction → Z → bool).
Context (bm : BlockMap) (pindex : uint256) (h nLockTimeFlags flags : Z).

(** A transaction that spends [coins] may follow transactions with these fees
    and this cost. *)
Definition tx_ok (m : utxo_set) (tx : CTransaction) (coins : list Coin) (nFees nSigOpsCost : Z) : Prop :=
  nSigOpsCost + sigop_cost flags tx coins <= MAX_BLOCK_SIGOPS_COST ∧
  if IsCoinBase tx then coins = []
  else
    affordable (fun o => m !! o) tx h coins ∧ nFees + tx_fee tx coins <= MAX_MONEY ∧
    SequenceLocks bm tx nLockTimeFlags (map coin_nHeight coins) pindex = Ok true ∧
    (script_cached tx flags = true ∨
     ∀ i, (i < length (vin tx))%nat → CScriptCheck hashes lib tx (map Coins.out coins) i flags = Ok tt).

(** The transactions of a block, each on the set the ones before it leave. *)
Inductive txs_ok : utxo_set → list CTransaction → Z → Z → Z → list (list Coin) → utxo_set → Prop :=
| txs_nil m nFees cost : txs_ok m [] nFees cost nFees [] m
| txs_cons m tx l nFees cost coins nFees' undos m' :
    tx_ok m tx coins nFees cost →
    txs_ok (apply_tx Hash h m tx) l (nFees + tx_fee tx coins) (cost + sigop_cost flags tx coins) nFees' undos m' →
    txs_ok m (tx :: l) nFees cost nFees' (coins :: undos) m'.

Lemma tx_ok_coins m tx k1 k2 f1 f2 c1 c2 : tx_ok m tx k1 f1 c1 → tx_ok m tx k2 f2 c2 → k1 = k2.
Proof.
  intros [_ H1] [_ H2]. destruct (IsCoinBase tx); [congruence|].
  destruct H1 as ((H1 & _) & _). destruct H2 as ((H2 & _) & _). by eapply spends_det.
Qed.

Lemma txs_ok_det m l nFees cost f1 u1 m1 f2 u2 m2 :
  txs_ok m l nFees cost f1 u1 m1 → txs_ok m l nFees cost f2 u2 m2 → f1 = f2 ∧ u1 = u2 ∧ m1 = m2.
Proof.
  intros H. revert f2 u2 m2. induction H as [m f c|m tx l f c k f' us m' Hok H IH]; intros f2 u2 m2 H2; inversion H2; subst; [done|].
  assert (coins = k) as -> by (by eapply tx_ok_coins). edestruct IH as (-> & -> & ->); [done|done].
Qed.

End Rules.
End Rules.

(** ** The code follows the rules *)
Module Exact.
Import Rules.

(** What the scripts of the unspent set and of transactions are made of. *)
Definition coin_in (h : Z) (k : Coin) : Prop :=
  coin_ok k ∧ coin_nHeight k <= h ∧ bytes_ok (scriptPubKey (Coins.out k)).
Definition utxo_in (h : Z) (m : utxo_set) : Prop := map_Forall (fun _ => coin_in h) m.
Definition tx_bytes (tx : CTransaction) : Prop :=
  Forall (fun o => bytes_ok (scriptPubKey o)) (vout tx) ∧
  Forall (fun i => bytes_ok (scriptSig i) ∧ items_ok (scriptWitness i)) (vin tx).

Lemma utxo_in_ok h m : utxo_in h m → utxo_ok m.
Proof. intros Hm o k Ho. apply (Hm o k Ho). Qed.

Lemma utxo_in_mono h h' m : h <= h' → utxo_in h m → utxo_in h' m.
Proof. intros Hh Hm o k Ho. destruct (Hm o k Ho) as (? & ? & ?). split_and!; [done|lia|done]. Qed.

Lemma ins_outs_in m txid i l h cb :
  0 < h < 2 ^ 31 → utxo_in h m → Forall TransactionFacts.in_range l → Forall (fun o => bytes_ok (scriptPubKey o)) l →
  utxo_in h (ins_outs m txid i l h cb).
Proof.
  intros Hh. revert m i. induction l as [|o l IH]; intros m i Hm Hl Hb; cbn [ins_outs]; [done|].
  apply list.Forall_cons in Hl as [Ho Hl]. apply list.Forall_cons in Hb as [Hob Hb].
  apply IH; [|done|done]. destruct (IsUnspendable _) eqn:E; [done|].
  apply map_Forall_insert_2; [|done]. assert (wrap 31 h = h) as Ew by (apply wrap_small; unfold in_u; lia).
  split_and!; [split_and!; [cbn; lia|done|done]|cbn; lia|done].
Qed.

Lemma apply_tx_in Hash h m tx : 0 < h < 2 ^ 31 → utxo_in h m → Forall TransactionFacts.in_range (vout tx) → tx_bytes tx →
  utxo_in h (apply_tx Hash h m tx).
Proof.
  intros Hh Hm Hv [Hb _]. apply ins_outs_in; [done| |done|done]. destruct (IsCoinBase tx); [done|].
  intros o k Ho. by apply (Hm o), (del_ins_sub _ (vin tx)).
Qed.

Lemma spends_in h m l coins : utxo_in h m → spends (fun o => m !! o) l coins → Forall (coin_in h) coins.
Proof. intros Hm. induction 1 as [|i k l coins Hk _ IH]; constructor; [by apply (Hm (prevout i))|done]. Qed.

Section View.
Context {B : Type} `{!CCoinsView B} {utxo : B → COutPoint → option Coin} {best : B → uint256}
  {inv : B → Prop} `{HR : !CCoinsViewReads B utxo best inv}.
Implicit Types (c : CCoinsViewCache B) (m : utxo_set).
Abbreviation holds := (holds (utxo := utxo) (best := best) (inv := inv)).

Lemma access_unspent c m b o k : holds c m b → m !! o = Some k →
  ∃ c', AccessCoin c o = (k, c') ∧ holds c' m b ∧ IsSpent k = false.
Proof.
  intros Hc Hk. destruct (holds_AccessCoin c m b o Hc) as [E Hc']. rewrite Hk in E.
  destruct (AccessCoin c o) as [k' c']. cbn [fst snd] in *. apply live_Some in E as [-> Hs]. by exists c'.
Qed.

(** *** [CheckTxInputs] *)

Lemma CheckTxInputs_exact c m b tx h :
  holds c m b → IsCoinBase tx = false → Forall TransactionFacts.in_range (vout tx) → total (vout tx) <= MAX_MONEY →
  match CheckTxInputs c tx h with
  | Ok (fee, c') => holds c' m b ∧ ∃ coins, affordable (fun o => m !! o) tx h coins ∧ fee = tx_fee tx coins
  | Err e => txv_rejects e = true ∧ ¬ ∃ coins, affordable (fun o => m !! o) tx h coins
  end.
Proof.
  intros Hc Hcb Hr Ht. pose proof Hc as (Hinv & Hu & _). pose proof (CheckTxInputs_spec c tx h Hinv Hcb) as Hs.
  assert (∀ coins, affordable (cache_utxo (utxo := utxo) c) tx h coins ↔ affordable (fun o => m !! o) tx h coins) as Eaff.
  { intros coins. unfold affordable. split; intros (H1 & H2); (split; [eapply spends_ext; [|exact H1]|exact H2]); intros; by rewrite Hu. }
  destruct (CheckTxInputs c tx h) as [[fee c']|e] eqn:E.
  - destruct Hs as (Hsame & coins & Haff & ->). split; [by eapply holds_same|]. exists coins. rewrite <- Eaff.
    split; [done|]. unfold tx_fee. by rewrite Hcb.
  - split; [destruct e; cbn in Hs |- *; tauto|]. setoid_rewrite <- Eaff. intros (coins & Ha). by eapply refuses_affordable.
Qed.

Lemma prev_heights_exact c m b l coins : holds c m b → spends (fun o => m !! o) l coins →
  ∃ c', prev_heights c l = (map coin_nHeight coins, c') ∧ holds c' m b.
Proof.
  intros Hc Hs. revert c Hc. induction Hs as [|i k l coins Hk Hs IH]; intros c Hc; cbn [prev_heights map]; [by exists c|].
  destruct (access_unspent c m b (prevout i) k Hc Hk) as (c1 & -> & Hc1 & _). destruct (IH c1 Hc1) as (c2 & -> & Hc2).
  by exists c2.
Qed.

(** *** Signature operations *)

Lemma p2sh_sigops_exact c m b l coins n : holds c m b → spends (fun o => m !! o) l coins →
  ∃ c', p2sh_sigops_loop c l n = Ok (p2sh_sigops (zip l coins) n, c') ∧ holds c' m b.
Proof.
  intros Hc Hs. revert c n Hc. induction Hs as [|i k l coins Hk Hs IH]; intros c n Hc; cbn [p2sh_sigops_loop]; [by exists c|].
  destruct (access_unspent c m b (prevout i) k Hc Hk) as (c1 & -> & Hc1 & ->). cbn [negb require rbind].
  apply (IH c1 _ Hc1).
Qed.

Lemma CountWitnessSigOps_total i k flags : flags_ok flags →
  CountWitnessSigOps (scriptSig i) (scriptPubKey (Coins.out k)) (scriptWitness i) flags = Ok (CountWitnessSigOps' i k flags).
Proof.
  intros [Hf _]. unfold CountWitnessSigOps', CountWitnessSigOps, flag in *.
  destruct (Z.land flags SCRIPT_VERIFY_WITNESS =? 0); [done|]. rewrite (Hf eq_refl). cbn [require rbind].
  destruct (IsWitnessProgram _) as [[? ?]|]; [done|]. destruct (_ && _); [|done]. by destruct (IsWitnessProgram _) as [[? ?]|].
Qed.

Lemma witness_sigops_exact flags c m b l coins n : flags_ok flags → holds c m b → spends (fun o => m !! o) l coins →
  ∃ c', witness_sigops_loop c l flags n = Ok (witness_sigops flags (zip l coins) n, c') ∧ holds c' m b.
Proof.
  intros Hf Hc Hs. revert c n Hc. induction Hs as [|i k l coins Hk Hs IH]; intros c n Hc; cbn [witness_sigops_loop]; [by exists c|].
  destruct (access_unspent c m b (prevout i) k Hc Hk) as (c1 & -> & Hc1 & ->). cbn [negb require rbind].
  rewrite CountWitnessSigOps_total by done. cbn [rbind]. apply (IH c1 _ Hc1).
Qed.

Lemma sigop_cost_exact flags c m b tx coins : flags_ok flags → holds c m b →
  (IsCoinBase tx = false → spends (fun o => m !! o) (vin tx) coins) →
  ∃ c', GetTransactionSigOpCost c tx flags = Ok (sigop_cost flags tx coins, c') ∧ holds c' m b.
Proof.
  intros Hf Hc Hs. unfold GetTransactionSigOpCost, sigop_cost. destruct (IsCoinBase tx) eqn:Ecb; [by exists c|].
  specialize (Hs eq_refl). destruct (negb (Z.land flags SCRIPT_VERIFY_P2SH =? 0)); cbn [rbind].
  - unfold GetP2SHSigOpCount. rewrite Ecb. destruct (p2sh_sigops_exact c m b (vin tx) coins 0 Hc Hs) as (c1 & -> & Hc1).
    cbn [rbind]. by apply (witness_sigops_exact flags c1 m b).
  - by apply (witness_sigops_exact flags c m b).
Qed.

(** *** Scripts *)

Lemma spent_outputs_exact c m b l coins : holds c m b → spends (fun o => m !! o) l coins →
  ∃ c', spent_outputs_loop c l = Ok (map Coins.out coins, c') ∧ holds c' m b.
Proof.
  intros Hc Hs. revert c Hc. induction Hs as [|i k l coins Hk Hs IH]; intros c Hc; cbn [spent_outputs_loop]; [by exists c|].
  destruct (access_unspent c m b (prevout i) k Hc Hk) as (c1 & -> & Hc1 & ->). cbn [negb require rbind].
  destruct (IH c1 Hc1) as (c2 & -> & Hc2). by exists c2.
Qed.

Lemma run_checks_exact hashes lib tx outs flags l :
  hashes_ok hashes → flags_ok flags → (∀ i, i ∈ l → input_ok tx outs i) →
  ∃ ok, run_checks hashes lib tx outs flags l = Ok ok ∧
    (ok = true ↔ ∀ i, i ∈ l → CScriptCheck hashes lib tx outs i flags = Ok tt).
Proof.
  intros Hh Hf. induction l as [|k l IH]; intros Hi; cbn [run_checks].
  { exists true. split; [done|]. split; [|done]. by intros _ i ?%not_elem_of_nil. }
  destruct IH as (ok & Er & Hok); [intros i Hl; apply Hi; by right|].
  pose proof (CScriptCheck_safe hashes lib tx outs k flags Hh (Hi k ltac:(by left)) Hf) as Hs.
  destruct (CScriptCheck hashes lib tx outs k flags) as [[]|[e| |]] eqn:E; [|exists false|done|done].
  - exists ok. split; [done|]. rewrite Hok. split; [|intros H i Hl; apply H; by right].
    intros H i [->|Hl]%elem_of_cons; [done|by apply H].
  - split; [done|]. split; [done|]. intros H. by rewrite (H k ltac:(by left)) in E.
Qed.

Lemma spends_input_ok h m tx coins i :
  utxo_in h m → spends (fun o => m !! o) (vin tx) coins → tx_bytes tx → (i < length (vin tx))%nat →
  input_ok tx (map Coins.out coins) i.
Proof.
  intros Hm Hs [_ Hb] Hi. pose proof (Forall2_length Hs) as Hl. pose proof (spends_in h m (vin tx) coins Hm Hs) as Hin.
  destruct (lookup_lt_is_Some_2 coins i) as [k Hk]; [lia|]. destruct (lookup_lt_is_Some_2 (vin tx) i Hi) as [t Ht].
  assert (map Coins.out coins !! i = Some (Coins.out k)) as Ek by (by rewrite list_lookup_fmap, Hk).
  destruct (Forall_lookup_1 _ _ _ _ Hin Hk) as ((_ & _ & [Hr _]) & _ & Hkb).
  destruct (Forall_lookup_1 _ _ _ _ Hb Ht) as [Hsig Hw].
  split; rewrite ?Ek, ?Ht; cbn [default]; try done. by rewrite length_map.
Qed.

Lemma CheckInputScripts_exact hashes lib cached flags h c m b tx coins :
  hashes_ok hashes → flags_ok flags → holds c m b → utxo_in h m → tx_bytes tx → IsCoinBase tx = false →
  spends (fun o => m !! o) (vin tx) coins →
  ∃ ok c', CheckInputScripts hashes lib cached c tx flags = Ok (ok, c') ∧ holds c' m b ∧
    (ok = true ↔ cached tx flags = true ∨
       ∀ i, (i < length (vin tx))%nat → CScriptCheck hashes lib tx (map Coins.out coins) i flags = Ok tt).
Proof.
  intros Hh Hf Hc Hm Hb Hcb Hs. unfold CheckInputScripts. rewrite Hcb.
  destruct (cached tx flags); [exists true, c; split_and!; try done; split; auto|].
  destruct (spent_outputs_exact c m b (vin tx) coins Hc Hs) as (c1 & -> & Hc1). cbn [rbind].
  destruct (run_checks_exact hashes lib tx (map Coins.out coins) flags (seq 0 (length (vin tx))) Hh Hf) as (ok & -> & Hok).
  { intros i Hi%elem_of_seq. eapply spends_input_ok; [done|done|done|lia]. }
  cbn [rbind]. exists ok, c1. split_and!; [done|done|]. rewrite Hok. split.
  - intros H. right. intros i Hi. apply H, elem_of_seq. lia.
  - intros [?|H]; [done|]. intros i Hi%elem_of_seq. apply H. lia.
Qed.

(** *** The outputs of BIP 30 *)

Lemma bip30_outputs_exact c m b txid i l : holds c m b →
  match bip30_outputs c txid i l with
  | Ok c' => holds c' m b ∧ ∀ n, i <= n < i + Z.of_nat (length l) → m !! mkOutPoint txid n = None
  | Err e => rejects e = true ∧ ∃ n, i <= n < i + Z.of_nat (length l) ∧ m !! mkOutPoint txid n ≠ None
  end.
Proof.
  revert c i. induction l as [|o l IH]; intros c i Hc; cbn [bip30_outputs length].
  { split; [done|]. lia. }
  destruct (holds_HaveCoin c m b (mkOutPoint txid i) Hc) as [E Hc1].
  destruct (HaveCoin c (mkOutPoint txid i)) as [have c1]. cbn [fst snd] in *. subst have.
  case_bool_decide as Hs; cbn [negb require rbind].
  { split; [done|]. exists i. split; [lia|]. by destruct Hs as [? ->]. }
  apply eq_None_not_Some in Hs. specialize (IH c1 (i + 1) Hc1). destruct (bip30_outputs c1 txid (i + 1) l) as [c'|e].
  - destruct IH as [Hc' Hn]. split; [done|]. intros n Hr. destruct (decide (n = i)) as [->|Hne]; [done|apply Hn; lia].
  - destruct IH as (He & n & Hr & Hn). split; [done|]. exists n. split; [lia|done].
Qed.

Lemma bip30_loop_exact Hash c m b l : holds c m b →
  match bip30_loop Hash c l with
  | Ok c' => holds c' m b ∧ fresh Hash m l
  | Err e => rejects e = true ∧ ¬ fresh Hash m l
  end.
Proof.
  revert c. induction l as [|tx l IH]; intros c Hc; cbn [bip30_loop].
  { split; [done|]. by intros ? ? ?%not_elem_of_nil. }
  pose proof (bip30_outputs_exact c m b (GetHash Hash tx) 0 (vout tx) Hc) as H1.
  destruct (bip30_outputs c _ 0 (vout tx)) as [c1|e]; cbn [rbind].
  - destruct H1 as [Hc1 Hn]. specialize (IH c1 Hc1). destruct (bip30_loop Hash c1 l).
    + destruct IH as [Hc2 Hl]. split; [done|]. intros tx' n [->|Hin]%elem_of_cons Hr; [apply Hn; lia|by apply Hl].
    + destruct IH as [He Hl]. split; [done|]. intros Hf. apply Hl. intros tx' n Hin. apply Hf. by right.
  - destruct H1 as (He & n & Hr & Hn). split; [done|]. intros Hf. apply Hn. apply Hf; [by left|lia].
Qed.

(** *** The loop over the transactions *)

Section Loop.
Context (Hash : list Z → uint256) (hashes : script_hashes) (lib : sig_lib) (script_cached : CTransaction → Z → bool).
Context (parallel : bool) (bm : BlockMap) (pindex : uint256) (index : CBlockIndex) (prev : uint256) (nLockTimeFlags flags : Z).
Context (Hwf : ChainFacts.wf_tree bm) (Hidx : bm !! pindex = Some index) (Hprev : pprev index = Some prev).
Context (Hheight : 0 < nHeight index < 2 ^ 31) (Hhashes : hashes_ok hashes) (Hflags : flags_ok flags).
Abbreviation h := (nHeight index).
Abbreviation tx_ok := (tx_ok hashes lib script_cached bm pindex h nLockTimeFlags flags).
Abbreviation txs_ok := (txs_ok Hash hashes lib script_cached bm pindex h nLockTimeFlags flags).

Lemma SequenceLocks_total tx coins : Forall (coin_in h) coins → length coins = length (vin tx) →
  ∃ ok, SequenceLocks bm tx nLockTimeFlags (map coin_nHeight coins) pindex = Ok ok.
Proof.
  intros Hc Hl. destruct (Hwf pindex index Hidx) as [_ Hp]. rewrite Hprev in Hp. destruct Hp as [(d & Hd & _) _].
  assert (∀ x, ∃ ok, EvaluateSequenceLocks bm pindex x = Ok ok) as Hev.
  { intros x. unfold EvaluateSequenceLocks, deref. rewrite Hidx. cbn [TxVerify.lift_chain rbind]. rewrite Hprev.
    destruct (ChainFacts.GetMedianTimePast_total bm prev d Hwf Hd) as [t ->]. by eexists. }
  unfold SequenceLocks, CalculateSequenceLocks. rewrite length_map, Hl, Nat.eqb_refl. cbn [require rbind].
  destruct (_ && _); cbn [negb rbind]; [|apply Hev].
  destruct (sequence_locks_loop_spec bm pindex index (vin tx) (map coin_nHeight coins) 0 0 (-1) (-1) Hwf Hidx)
    as (hh & t & hs & -> & _); [|apply Hev].
  clear Hev. revert Hl. generalize (vin tx) as l. induction Hc as [|k coins Hk Hc IH]; intros l Hl; destruct l; try done; constructor.
  - destruct Hk as ((? & _) & ? & _). lia.
  - apply IH. by injection Hl.
Qed.

Definition may_spend m tx nFees coins : Prop :=
  affordable (fun o => m !! o) tx h coins ∧ nFees + tx_fee tx coins <= MAX_MONEY ∧
  SequenceLocks bm tx nLockTimeFlags (map coin_nHeight coins) pindex = Ok true.

Lemma may_spend_coins m tx f1 f2 k1 k2 : may_spend m tx f1 k1 → may_spend m tx f2 k2 → k1 = k2.
Proof. intros ((H1 & _) & _) ((H2 & _) & _). by eapply spends_det. Qed.

Lemma affordable_fee m tx coins : IsCoinBase tx = false → affordable (fun o => m !! o) tx h coins → 0 <= tx_fee tx coins <= MAX_MONEY.
Proof.
  intros Hcb (_ & (_ & Hr & Hle) & Hv & Ht). unfold tx_fee. rewrite Hcb.
  pose proof (total_nonneg _ Hv). lia.
Qed.

Lemma connect_inputs_exact c m b tx nFees :
  holds c m b → utxo_in h m → IsCoinBase tx = false → tx_valid tx → 0 <= nFees <= MAX_MONEY →
  match connect_inputs bm pindex h nLockTimeFlags c tx nFees with
  | Ok (nFees', c') => holds c' m b ∧ ∃ coins, may_spend m tx nFees coins ∧ nFees' = nFees + tx_fee tx coins
  | Err e => rejects e = true ∧ ¬ ∃ coins, may_spend m tx nFees coins
  end.
Proof.
  intros Hc Hm Hcb (_ & _ & _ & Hr & Ht & _) Hn. unfold connect_inputs.
  pose proof (CheckTxInputs_exact c m b tx h Hc Hcb Hr Ht) as Hs.
  destruct (CheckTxInputs c tx h) as [[fee c1]|e]; cbn [lift_txv rbind].
  2:{ destruct Hs as [He Hs]. split; [done|]. intros (coins & Ha & _). apply Hs. by exists coins. }
  destruct Hs as (Hc1 & coins & Ha & ->). pose proof (affordable_fee m tx coins Hcb Ha) as Hfee. rewrite add_money by lia.
  assert (∀ coins', may_spend m tx nFees coins' → coins' = coins) as Hdet.
  { intros coins' ((H1 & _) & _). destruct Ha as (H2 & _). by eapply spends_det. }
  destruct (MoneyRange (nFees + tx_fee tx coins)) eqn:Emr; cbn [require rbind].
  2:{ split; [done|]. intros (coins' & Hms). pose proof (Hdet _ Hms) as ->. destruct Hms as (_ & Hle & _).
      enough (MoneyRange (nFees + tx_fee tx coins) = true) by congruence. apply MoneyRange_spec. lia. }
  apply MoneyRange_spec in Emr. pose proof Ha as (Hsp & _).
  destruct (prev_heights_exact c1 m b (vin tx) coins Hc1 Hsp) as (c2 & -> & Hc2).
  destruct (SequenceLocks_total tx coins) as [ok Eok].
  { by eapply spends_in. }
  { symmetry. by eapply Forall2_length. }
  rewrite Eok. cbn [lift_txv rbind]. destruct ok; cbn [require rbind].
  - split; [done|]. exists coins. split; [|done]. split_and!; [done|lia|done].
  - split; [done|]. intros (coins' & Hms). pose proof (Hdet _ Hms) as ->. destruct Hms as (_ & _ & ?). congruence.
Qed.

Definition pre m tx nFees coins : Prop := if IsCoinBase tx then coins = [] else may_spend m tx nFees coins.
Definition scripts_ok tx coins : Prop :=
  IsCoinBase tx = false → script_cached tx flags = true ∨
    ∀ i, (i < length (vin tx))%nat → CScriptCheck hashes lib tx (map Coins.out coins) i flags = Ok tt.

Lemma tx_ok_iff m tx coins nFees cost :
  tx_ok m tx coins nFees cost ↔
  pre m tx nFees coins ∧ cost + sigop_cost flags tx coins <= MAX_BLOCK_SIGOPS_COST ∧ scripts_ok tx coins.
Proof.
  unfold Rules.tx_ok, pre, scripts_ok, may_spend. destruct (IsCoinBase tx).
  - split; [intros [? ?]; split_and!; done|]. by intros (? & ? & _).
  - split; [intros (? & ? & ? & ? & ?); split_and!; auto|]. intros ((? & ? & ?) & ? & ?). split_and!; auto.
Qed.

Lemma pre_coins m tx f1 f2 k1 k2 : pre m tx f1 k1 → pre m tx f2 k2 → k1 = k2.
Proof. unfold pre. destruct (IsCoinBase tx); [congruence|]. apply may_spend_coins. Qed.

(** The coins of a transaction decide whether it is valid. *)
Lemma txs_ok_inv m tx l nFees cost coins : pre m tx nFees coins →
  (∃ f u m', txs_ok m (tx :: l) nFees cost f u m') →
  cost + sigop_cost flags tx coins <= MAX_BLOCK_SIGOPS_COST ∧ scripts_ok tx coins ∧
  ∃ f u m', txs_ok (apply_tx Hash h m tx) l (nFees + tx_fee tx coins) (cost + sigop_cost flags tx coins) f u m'.
Proof.
  intros Hp (f & u & m' & H). inversion H as [|? ? ? ? ? k ? u' ? Hok H']; subst.
  apply tx_ok_iff in Hok as (Hp' & Hcost & Hs). assert (k = coins) as -> by (by eapply pre_coins). eauto 10.
Qed.

Lemma inputs_step c m b tx nFees :
  holds c m b → utxo_in h m → tx_valid tx → 0 <= nFees <= MAX_MONEY →
  match (if negb (IsCoinBase tx) then connect_inputs bm pindex h nLockTimeFlags c tx nFees else Ok (nFees, c)) with
  | Ok (nFees', c') => holds c' m b ∧ ∃ coins, pre m tx nFees coins ∧ nFees' = nFees + tx_fee tx coins ∧
      0 <= nFees' <= MAX_MONEY ∧ tx_undo m tx coins
  | Err e => rejects e = true ∧ ¬ ∃ coins, pre m tx nFees coins
  end.
Proof.
  intros Hc Hm Hv Hn. unfold pre, tx_undo. destruct (IsCoinBase tx) eqn:Ecb; cbn [negb].
  { split; [done|]. exists []. unfold tx_fee. rewrite Ecb. split_and!; done || lia. }
  pose proof (connect_inputs_exact c m b tx nFees Hc Hm Ecb Hv Hn) as H.
  destruct (connect_inputs _ _ _ _ _ _ _) as [[f c1]|e]; [|done]. destruct H as (Hc1 & coins & Hms & ->). split; [done|].
  exists coins. pose proof Hms as (Ha & Hle & _). pose proof (affordable_fee m tx coins Ecb Ha).
  split_and!; [done|done|lia|lia|apply Ha].
Qed.

Lemma script_step c m b tx coins nFees queued :
  holds c m b → utxo_in h m → tx_bytes tx → pre m tx nFees coins →
  match (if negb (IsCoinBase tx) && true then
     let! (ok, view) := CheckInputScripts hashes lib script_cached c tx flags in
     if parallel then Ok (queued && ok, view)
     else let! _ := require ok InputScriptsFailed in Ok (queued, view)
   else Ok (queued, c)) with
  | Ok (q, c') => holds c' m b ∧ (q = true → queued = true ∧ scripts_ok tx coins) ∧ (q = false → queued = false ∨ ¬ scripts_ok tx coins)
  | Err e => rejects e = true ∧ ¬ scripts_ok tx coins
  end.
Proof.
  intros Hc Hm Hb Hp. unfold pre, scripts_ok in *. destruct (IsCoinBase tx) eqn:Ecb; cbn [negb andb].
  { split_and!; [done|by intros ->|by left]. }
  destruct Hp as ((Hsp & _) & _).
  destruct (CheckInputScripts_exact hashes lib script_cached flags h c m b tx coins Hhashes Hflags Hc Hm Hb Ecb Hsp)
    as (ok & c' & -> & Hc' & Hok). cbn [rbind]. destruct parallel.
  - split; [done|]. split.
    + intros [-> ->]%andb_true_iff. split; [done|]. intros _. by apply Hok.
    + intros [->| ->]%andb_false_iff; [by left|right]. intros Hs. specialize (Hs eq_refl). by apply Hok in Hs.
  - destruct ok; cbn [require rbind].
    + split_and!; [done| |by left]. intros ->. split; [done|]. intros _. by apply Hok.
    + split; [done|]. intros Hs. specialize (Hs eq_refl). by apply Hok in Hs.
Qed.

Lemma connect_loop_exact l c m b nFees cost queued :
  holds c m b → utxo_in h m → fresh Hash m l → base.NoDup (map (GetHash Hash) l) →
  Forall tx_valid l → Forall tx_bytes l → 0 <= nFees <= MAX_MONEY →
  match connect_loop Hash hashes lib script_cached parallel bm pindex h nLockTimeFlags flags true c l nFees cost queued with
  | Ok (nFees', undos, q, c') =>
      (q = true → queued = true ∧ ∃ m', txs_ok m l nFees cost nFees' undos m' ∧ holds c' m' b ∧ utxo_in h m' ∧
         0 <= nFees' <= MAX_MONEY) ∧
      (q = false → queued = false ∨ ¬ ∃ f u m', txs_ok m l nFees cost f u m')
  | Err e => rejects e = true ∧ ¬ ∃ f u m', txs_ok m l nFees cost f u m'
  end.
Proof.
  revert c m nFees cost queued. induction l as [|tx l IH]; intros c m nFees cost queued Hc Hm Hf Hnd Hv Hb Hn; cbn [connect_loop].
  { split; [|by left]. intros ->. split; [done|]. exists m. split_and!; [constructor|done|done|lia|lia]. }
  cbn [map] in Hnd. apply list.NoDup_cons in Hnd as [Hni Hnd]. apply list.Forall_cons in Hv as [Htx Hv].
  apply list.Forall_cons in Hb as [Hbt Hb].
  assert (fresh Hash m [tx]) as Hf1 by (intros tx' n ->%list_elem_of_singleton Hr'; apply Hf; [left|done]).
  pose proof Htx as (_ & _ & _ & Hr & _ & Hd & _).
  pose proof (inputs_step c m b tx nFees Hc Hm Htx Hn) as H1.
  destruct (if negb (IsCoinBase tx) then _ else _) as [[f1 c1]|e]; cbn [rbind].
  2:{ destruct H1 as [He H1]. split; [done|]. intros (f & u & m' & H). inversion H as [|? ? ? ? ? k ? u' ? Hok H']; subst.
      apply H1. exists k. by apply tx_ok_iff in Hok as (? & _). }
  destruct H1 as (Hc1 & coins & Hp & -> & Hf1' & Hu).
  destruct (sigop_cost_exact flags c1 m b tx coins Hflags Hc1) as (c2 & -> & Hc2).
  { intros Ecb. unfold tx_undo in Hu. by rewrite Ecb in Hu. }
  cbn [lift_txv rbind]. pose proof (txs_ok_inv m tx l nFees cost coins Hp) as Hinv.
  destruct (cost + sigop_cost flags tx coins >? MAX_BLOCK_SIGOPS_COST) eqn:Ecost; cbn [negb require rbind].
  { split; [done|]. intros H. destruct (Hinv H) as (? & _). lia. }
  pose proof (script_step c2 m b tx coins nFees queued Hc2 Hm Hbt Hp) as H3.
  destruct (if negb (IsCoinBase tx) && true then _ else _) as [[q1 c3]|e]; cbn [rbind].
  2:{ destruct H3 as [He H3]. split; [done|]. intros H. apply H3. by apply Hinv in H as (_ & ? & _). }
  destruct H3 as (Hc3 & Hq1 & Hq0).
  destruct (UpdateCoins_spec Hash c3 m b tx h coins Hc3 Hu Hf1 Hr Hd) as (c4 & -> & Hc4). cbn [lift_coins rbind].
  specialize (IH c4 (apply_tx Hash h m tx) (nFees + tx_fee tx coins) (cost + sigop_cost flags tx coins) q1 Hc4
    (apply_tx_in Hash h m tx Hheight Hm Hr Hbt) (fresh_apply _ _ _ _ _ Hf Hni) Hnd Hv Hb Hf1').
  destruct (connect_loop _ _ _ _ _ _ _ _ _ _ _ _ _ _ _ _) as [[[[f' us] q] c5]|e]; cbn [rbind].
  - destruct IH as [IH1 IH2]. split.
    + intros Hq. destruct (IH1 Hq) as (Hq1' & m' & Ht & Hh' & Hm' & Hf'). destruct (Hq1 Hq1') as [Hqq Hs]. split; [done|].
      exists m'. split_and!; try done; try lia. econstructor; [|done]. apply tx_ok_iff. split_and!; [done|lia|done].
    + intros Hq. destruct (IH2 Hq) as [Hq'|Hno].
      * destruct (Hq0 Hq') as [?|Hns]; [by left|right]. intros H. by apply Hinv in H as (_ & ? & _).
      * right. intros H. by apply Hinv in H as (_ & _ & ?).
  - destruct IH as [He Hno]. split; [done|]. intros H. by apply Hinv in H as (_ & _ & ?).
Qed.

End Loop.
(** *** The whole block *)

Section Block.
Context (Hash : list Z → uint256) (GetBlockHash : CBlockHeader → uint256) (params : Params).
Context (signet : CBlockHeader * list CTransaction → bool).
Context (hashes : script_hashes) (lib : sig_lib) (script_cached : CTransaction → Z → bool).
Context (assumed_valid : option uint256) (best_header : uint256) (minimum_chain_work : list Z).
Context (parallel : bool) (founder : option CScript) (WriteUndo : CBlockUndo → bool).
Abbreviation connect_block := (ConnectBlock Hash GetBlockHash params signet hashes lib script_cached
  assumed_valid best_header minimum_chain_work parallel founder WriteUndo).

(** The rules of a block with entry [pindex] on the unspent set [m]: they make
    it [m'] and leave the undo data. *)
Definition block_ok (bm : BlockMap) (block : CBlock) (pindex : uint256) (index : CBlockIndex) (m m' : utxo_set)
    (undos : CBlockUndo) : Prop :=
  (CheckBlock Hash GetBlockHash params signet block true true).1 = Ok tt ∧ fresh Hash m (vtx block) ∧
  ∃ coinbase rest nFees, vtx block = coinbase :: rest ∧
    txs_ok Hash hashes lib script_cached bm pindex (nHeight index)
      (if DeploymentActiveAt (nHeight index) params DEPLOYMENT_CSV then LOCKTIME_VERIFY_SEQUENCE else 0)
      (GetBlockScriptFlags (nHeight index) pindex params) m (vtx block) 0 0 nFees ([] :: undos) m' ∧
    total (vout coinbase) <= nFees + GetBlockSubsidy (nHeight index) params ∧
    check_founder params founder coinbase (nHeight index) = Ok tt.

Lemma block_ok_det bm block pindex index m m1 u1 m2 u2 :
  block_ok bm block pindex index m m1 u1 → block_ok bm block pindex index m m2 u2 → m1 = m2 ∧ u1 = u2.
Proof.
  intros (_ & _ & ? & ? & f1 & _ & H1 & _) (_ & _ & ? & ? & f2 & _ & H2 & _).
  assert (f1 = f2 ∧ [] :: u1 = [] :: u2 ∧ m1 = m2) as (_ & E & ->) by (by eapply txs_ok_det). by injection E as ->.
Qed.

(** Where [ConnectBlock] is called: besides [ready], the tree is well-formed,
    scripts are bytes, and every script is to be checked. *)
Record callable (bm : BlockMap) (block : CBlock) (pindex : uint256) (index : CBlockIndex) (m : utxo_set) : Prop := {
  l_tree : ChainFacts.wf_tree bm;
  l_hash : pindex = GetBlockHash (header block);
  l_utxo : utxo_in (nHeight index) m;
  l_bytes : Forall tx_bytes (vtx block);
  l_checks : need_script_checks params assumed_valid best_header minimum_chain_work bm pindex = Ok true;
  l_flags : flags_ok (GetBlockScriptFlags (nHeight index) pindex params);
}.

(** Why a block is refused: it breaks a rule, and which; it is a mutation of the
    block its header commits to, which stops the node; or its undo data could not
    be written, which stops the node too. *)
Definition refused (bm : BlockMap) (block : CBlock) (pindex : uint256) (index : CBlockIndex) (m : utxo_set)
    (e : connect_error) : Prop :=
  (rejects e = true ∧ ¬ ∃ m' undos, block_ok bm block pindex index m m' undos) ∨
  (e = CorruptBlock ∧ ∃ r, (CheckBlock Hash GetBlockHash params signet block true true).1 = Err (Invalid r) ∧ IsMutated r = true) ∨
  (e = UndoWriteFailed ∧ ∃ m' undos, block_ok bm block pindex index m m' undos ∧ WriteUndo undos = false).

Lemma check_founder_rejects coinbase height e : check_founder params founder coinbase height = Err e → rejects e = true.
Proof.
  unfold check_founder. destruct (_ >? 0); [|done]. destruct founder; [|by intros [= <-]].
  by intros ->%require_err.
Qed.

(** The new status: only the validity level changes, and the mark of blocks
    that were assumed valid. *)
Lemma land_raised x k : Z.land BLOCK_VALID_SCRIPTS k = 0 → Z.land (Z.lnot BLOCK_VALID_MASK) k = k →
  Z.land (Z.lor (Z.land x (Z.lnot BLOCK_VALID_MASK)) BLOCK_VALID_SCRIPTS) k = Z.land x k.
Proof. intros H1 H2. by rewrite Z.land_lor_distr_l, <- Z.land_assoc, H1, H2, Z.lor_0_r. Qed.

Definition raised (s s' : Z) : Prop :=
  (∀ k, k = BLOCK_FAILED_MASK ∨ k = 8 → Z.land s' k = Z.land s k) ∧ Z.land s BLOCK_VALID_MASK <= Z.land s' BLOCK_VALID_MASK.

Lemma raise_scripts s : ∃ s',
  (let! valid := lift_index (Headers.IsValid s BLOCK_VALID_SCRIPTS) in
   if negb valid then let! (s, _) := lift_index (RaiseValidity s BLOCK_VALID_SCRIPTS) in Ok s else Ok s) = Ok s' ∧
  raised s s'.
Proof.
  unfold Headers.IsValid, RaiseValidity.
  change (negb (Z.land BLOCK_VALID_SCRIPTS (Z.lnot BLOCK_VALID_MASK) =? 0)) with false.
  destruct (negb (Z.land s BLOCK_FAILED_MASK =? 0)); cbn [lift_index rbind negb]; [by exists s|].
  destruct (Z.land s BLOCK_VALID_MASK >=? BLOCK_VALID_SCRIPTS) eqn:E; cbn [lift_index rbind negb]; [by exists s|].
  replace (Z.land s BLOCK_VALID_MASK <? BLOCK_VALID_SCRIPTS) with true by lia. cbn [lift_index rbind].
  eexists. split; [done|]. split.
  - intros k Hk. rewrite land_raised by (destruct Hk as [-> | ->]; reflexivity).
    destruct (_ && _); [|done]. rewrite <- Z.land_assoc. f_equal. by destruct Hk as [-> | ->].
  - rewrite Z.land_lor_distr_l, <- Z.land_assoc. change (Z.land (Z.lnot BLOCK_VALID_MASK) BLOCK_VALID_MASK) with 0.
    rewrite Z.land_0_r. change (Z.lor 0 _) with BLOCK_VALID_SCRIPTS. lia.
Qed.

(** After the loop: the coinbase, the queued checks and the undo data. *)
Lemma ConnectBlock_end bm block block' pindex index m coinbase rest nFees undos q (view3 : CCoinsViewCache B) prev :
  0 < nSubsidyHalvingInterval params → IsNull256 pindex = false → IsCoinBase coinbase = true → tx_valid coinbase →
  vtx block = coinbase :: rest →
  (CheckBlock Hash GetBlockHash params signet block true true).1 = Ok tt → fresh Hash m (vtx block) →
  let ok f u m' := txs_ok Hash hashes lib script_cached bm pindex (nHeight index)
      (if DeploymentActiveAt (nHeight index) params DEPLOYMENT_CSV then LOCKTIME_VERIFY_SEQUENCE else 0)
      (GetBlockScriptFlags (nHeight index) pindex params) m (vtx block) 0 0 f u m' in
  (q = true → true = true ∧ ∃ m', ok nFees undos m' ∧ holds view3 m' prev ∧ utxo_in (nHeight index) m' ∧ 0 <= nFees <= MAX_MONEY) →
  (q = false → true = false ∨ ¬ ∃ f u m', ok f u m') →
  match (let blockReward := i64 (nFees + GetBlockSubsidy (nHeight index) params) in
         let! value_out := lift_txv (TxVerify.lift_tx (GetValueOut coinbase)) in
         let! _ := require (negb (value_out >? blockReward)) BadCbAmount in
         let! _ := check_founder params founder coinbase (nHeight index) in
         let! _ := require q BlockValidationFailed in
         let blockundo := drop 1 undos in
         let! _ := require (WriteUndo blockundo) UndoWriteFailed in
         let! valid := lift_index (Headers.IsValid (nStatus index) BLOCK_VALID_SCRIPTS) in
         let! status := if negb valid then
                          let! (s, _) := lift_index (RaiseValidity (nStatus index) BLOCK_VALID_SCRIPTS) in Ok s
                        else Ok (nStatus index) in
         Ok (mkConnected block' (SetBestBlock view3 pindex) (Some blockundo) status)) with
  | Ok r => ∃ m' undos, block_ok bm block pindex index m m' undos ∧ c_undo r = Some undos ∧ WriteUndo undos = true ∧
      holds (c_view r) m' pindex ∧ utxo_in (nHeight index) m' ∧ raised (nStatus index) (c_status r)
  | Err e => refused bm block pindex index m e
  end.
Proof.
  intros Hi Hnn Hcb (_ & _ & _ & Hr & Htot & _) Ev Hck Hfresh ok Hq1 Hq0.
  assert (∀ e, rejects e = true → ¬ (∃ m' undos, block_ok bm block pindex index m m' undos) → refused bm block pindex index m e) as Hrej by by left.
  assert (GetValueOut coinbase = Ok (total (vout coinbase))) as -> by by apply GetValueOut_spec.
  cbn [TxVerify.lift_tx lift_txv rbind]. pose proof (SubsidyFacts.GetBlockSubsidy_range params Hi (nHeight index)) as Hsub.
  assert (∀ m' u, block_ok bm block pindex index m m' u → ∃ f, ok f ([] :: u) m' ∧
    total (vout coinbase) <= f + GetBlockSubsidy (nHeight index) params ∧ check_founder params founder coinbase (nHeight index) = Ok tt) as Hbo.
  { intros m' u (_ & _ & cb & rst & f & E & ? & ? & ?). rewrite E in Ev. injection Ev as -> ->. by exists f. }
  destruct q.
  2:{ destruct (Hq0 eq_refl) as [?|Hno]; [done|].
      assert (¬ ∃ m' u, block_ok bm block pindex index m m' u) as Hnb.
      { intros (m' & u & (f & ? & _)%Hbo). apply Hno. eauto. }
      destruct (negb _); cbn [require rbind]; [|by apply Hrej].
      destruct (check_founder _ _ _ _) eqn:Ef; cbn [rbind]; [by apply Hrej|]. apply Hrej; [by eapply check_founder_rejects|done]. }
  destruct (Hq1 eq_refl) as (_ & m' & Hok & Hv3 & Hin & Hf). rewrite swrap_small by (unfold in_s, MAX_MONEY, COIN in *; lia).
  assert (∀ m2 u f, ok f ([] :: u) m2 → f = nFees) as Hdet by (intros m2 u f H; by edestruct txs_ok_det as (-> & _ & _); [exact H|exact Hok|]).
  destruct (negb (total (vout coinbase) >? _)) eqn:Eamt; cbn [require rbind].
  2:{ apply Hrej; [done|]. intros (m2 & u & (f & H & Hle & _)%Hbo). pose proof (Hdet m2 u f H) as ->. lia. }
  destruct (check_founder _ _ _ _) as [[]|e] eqn:Ef; cbn [rbind].
  2:{ apply Hrej; [by eapply check_founder_rejects|]. by intros (m2 & u & (f & _ & _ & ?)%Hbo). }
  cbn [require rbind]. assert (∃ us, undos = [] :: us) as [us ->].
  { unfold ok in Hok. rewrite Ev in Hok. inversion Hok as [|? ? ? ? ? k ? us ? Htx _]; subst. destruct Htx as [_ Htx].
    rewrite Hcb in Htx. subst k. by exists us. }
  assert (block_ok bm block pindex index m m' us) as Hbok.
  { split_and!; [done|done|]. exists coinbase, rest, nFees. split_and!; [done|done|lia|done]. }
  cbn [drop]. rewrite drop_0. destruct (WriteUndo us) eqn:Ew; cbn [require rbind]; [|right; right; eauto].
  destruct (raise_scripts (nStatus index)) as (s' & Es & Hs').
  apply rbind_ok in Es as (valid & -> & Es). cbn [rbind]. rewrite Es. cbn [rbind c_undo c_view c_status].
  exists m', us. split_and!; [done|done|done|by eapply holds_SetBestBlock|done|done].
Qed.

Lemma ConnectBlock_exact bm block pindex index prev view m :
  0 < nSubsidyHalvingInterval params → hashes_ok hashes →
  ready (utxo := utxo) (best := best) (inv := inv) Hash GetBlockHash params signet bm block pindex index prev view m →
  callable bm block pindex index m →
  match connect_block bm block pindex view false with
  | Ok r => ∃ m' undos, block_ok bm block pindex index m m' undos ∧ c_undo r = Some undos ∧ WriteUndo undos = true ∧
      holds (c_view r) m' pindex ∧ utxo_in (nHeight index) m' ∧ raised (nStatus index) (c_status r)
  | Err e => refused bm block pindex index m e
  end.
Proof.
  intros Hi Hhash [Hidx Hh [Hpp Hpn] [Hhn Hg] Hfl Hb30 Hids Hview Hok] [Hwf Hph Hin Hby Hsc Hf].
  assert (∀ e, rejects e = true → ¬ (∃ m' undos, block_ok bm block pindex index m m' undos) → refused bm block pindex index m e) as Hrej by by left.
  unfold ConnectBlock, deref. rewrite Hidx. cbn [lift_index rbind negb].
  rewrite bool_decide_eq_true_2 by done. cbn [require rbind].
  destruct (CheckBlock Hash GetBlockHash params signet block true true) as [[[]|e] block'] eqn:Ecb.
  2:{ destruct e as [r|e]; [|by destruct (CheckBlock_no_fault Hash GetBlockHash params signet block e); rewrite Ecb].
      destruct (IsMutated r) eqn:Em; [right; left; split; [done|exists r; by rewrite Ecb]|].
      apply Hrej; [done|]. intros (m' & u & H & _). by rewrite Ecb in H. }
  destruct (CheckBlock_same _ _ _ _ _ _ _ _ _ Ecb) as [_ Ev].
  pose proof (CheckBlock_contents _ _ _ _ _ _ Hfl Ecb) as ((coinbase & rest & Evt & Hcb & Hrest) & Hvalid & _).
  pose proof (GetBestBlock_spec view (proj1 Hview)) as [Eb Hs1]. rewrite (proj2 (proj2 Hview)) in Eb.
  destruct (GetBestBlock view) as [best0 view1]. cbn [fst snd] in Eb, Hs1. subst best0.
  pose proof (holds_same _ _ _ _ Hview Hs1) as Hv1. rewrite Hpp. cbn [default].
  rewrite bool_decide_eq_true_2 by done. cbn [require rbind]. rewrite bool_decide_eq_false_2 by done.
  rewrite Hsc, Hb30. cbn [rbind]. rewrite Ev.
  pose proof (bip30_loop_exact Hash view1 m prev (vtx block) Hv1) as H30.
  destruct (bip30_loop Hash view1 (vtx block)) as [view2|e]; cbn [rbind].
  2:{ destruct H30 as [He H30]. apply Hrej; [done|]. by intros (m' & u & _ & ? & _). }
  destruct H30 as [Hv2 Hfresh]. assert (0 <= 0 <= MAX_MONEY) as Hz by (unfold MAX_MONEY, COIN; lia).
  pose proof (connect_loop_exact Hash hashes lib script_cached parallel bm pindex index prev
    (if DeploymentActiveAt (nHeight index) params DEPLOYMENT_CSV then LOCKTIME_VERIFY_SEQUENCE else 0)
    (GetBlockScriptFlags (nHeight index) pindex params) Hwf Hidx Hpp Hh Hhash Hf
    (vtx block) view2 m prev 0 0 true Hv2 Hin Hfresh Hids Hvalid Hby Hz) as Hloop.
  destruct (connect_loop _ _ _ _ _ _ _ _ _ _ _ _ _ _ _ _) as [[[[nFees undos] q] view3]|e]; cbn [rbind].
  2:{ destruct Hloop as [He Hno]. apply Hrej; [done|]. intros (m' & u & _ & _ & ? & ? & f & _ & H & _). apply Hno. eauto. }
  destruct Hloop as [Hq1 Hq0]. rewrite Evt.
  rewrite Evt in Hvalid. apply list.Forall_cons in Hvalid as [Hvc _].
  assert ((CheckBlock Hash GetBlockHash params signet block true true).1 = Ok tt) as Hck by by rewrite Ecb.
  pose proof (ConnectBlock_end bm block block' pindex index m coinbase rest nFees undos q view3 prev Hi Hhn Hcb Hvc Evt Hck Hfresh Hq1 Hq0) as Hend.
  cbv zeta in Hend. revert Hend. match goal with |- match ?x with _ => _ end → match ?y with _ => _ end => change y with x; by destruct x end.
Qed.

End Block.
End View.
End Exact.

(** * Properties *)

Module ConnectExactProps.
Import Rules Exact.

Section Props.
Context {B : Type} `{!CCoinsView B} (utxo : B → COutPoint → option Coin) (best : B → uint256) (inv : B → Prop).
Context (Hash : list Z → uint256) (GetBlockHash : CBlockHeader → uint256) (params : Params).
Context (signet : CBlockHeader * list CTransaction → bool).
Context (hashes : script_hashes) (lib : sig_lib) (script_cached : CTransaction → Z → bool).
Context (assumed_valid : option uint256) (best_header : uint256) (minimum_chain_work : list Z).
Context (parallel : bool) (founder : option CScript) (WriteUndo : CBlockUndo → bool).
Abbreviation connect_block := (ConnectBlock Hash GetBlockHash params signet hashes lib script_cached
  assumed_valid best_header minimum_chain_work parallel founder WriteUndo).
Abbreviation is_ready := (ready (utxo := utxo) (best := best) (inv := inv) Hash GetBlockHash params signet).
Abbreviation is_ok := (block_ok Hash GetBlockHash params signet hashes lib script_cached founder).

(** C3: [ConnectBlock] decides validity.  Let it be called as [ConnectTip]
    calls it: on a block whose hash is that of its entry in a well-formed tree, above
    the genesis, with a view of its parent's unspent set, its transactions having
    distinct ids, the BIP30 check being due, and no assumed-valid block sparing it
    the script checks.  It accepts the block exactly when the block passes
    [CheckBlock], creates no coin that exists, every transaction spends unspent,
    mature coins worth at least its outputs, meets its relative locks and passes
    its script checks, the signature operations stay within the limit, the coinbase
    takes no more than fees and subsidy and pays the founder, and the undo data
    can be written; the view then holds the new unspent set.  Every other outcome
    is the rejection of a block that breaks a rule, or a fatal error: for a block
    that [CheckBlock] recognises as mutated, or when a valid block's undo data
    cannot be written.  No assertion fails, and no exception is thrown. *)
Theorem connect_block_decides bm block pindex index prev view m :
  CCoinsViewLaws B utxo best inv → 0 < nSubsidyHalvingInterval params → hashes_ok hashes →
  is_ready bm block pindex index prev view m →
  callable GetBlockHash params assumed_valid best_header minimum_chain_work bm block pindex index m →
  (∀ r, connect_block bm block pindex view false = Ok r →
     ∃ m' undos, is_ok bm block pindex index m m' undos ∧ c_undo r = Some undos ∧ WriteUndo undos = true ∧
       holds (utxo := utxo) (best := best) (inv := inv) (c_view r) m' pindex) ∧
  ((∃ m' undos, is_ok bm block pindex index m m' undos ∧ WriteUndo undos = true) →
     ∃ r, connect_block bm block pindex view false = Ok r) ∧
  (∀ e, connect_block bm block pindex view false = Err e →
     (rejects e = true ∧ ¬ ∃ m' undos, is_ok bm block pindex index m m' undos) ∨
     (e = CorruptBlock ∧
        ∃ r, (CheckBlock Hash GetBlockHash params signet block true true).1 = Err (Invalid r) ∧ IsMutated r = true) ∨
     (e = UndoWriteFailed ∧ ∃ m' undos, is_ok bm block pindex index m m' undos ∧ WriteUndo undos = false)).
Proof.
  intros HL Hi Hh Hr Hc. pose proof (ConnectBlock_exact (HR := law_reads) Hash GetBlockHash params signet hashes lib script_cached
    assumed_valid best_header minimum_chain_work parallel founder WriteUndo bm block pindex index prev view m Hi Hh Hr Hc) as H.
  destruct (connect_block bm block pindex view false) as [r|e].
  - destruct H as (m' & undos & H1 & H2 & H3 & H4 & _). split_and!; [|by eexists|done]. intros ? [= <-]. eauto 6.
  - split_and!; [done| |by intros ? [= <-]]. intros (m' & undos & Hok & Hw).
    exfalso. destruct H as [[_ H]|[(_ & r & H & _)|(_ & m2 & u2 & H & Hw')]]; [eauto|by destruct Hok as [Hok _]; rewrite Hok in H|].
    destruct (block_ok_det _ _ _ _ _ _ _ _ _ _ _ _ _ _ _ _ _ Hok H) as [-> ->]. congruence.
Qed.

End Props.

(** ** A block of three transactions *)

Definition demo_hashes : script_hashes :=
  mkHashes (fun _ => replicate 20 1) (fun _ => replicate 32 1) (fun _ => replicate 20 1) (fun _ => true).

Lemma demo_bytes l : forallb (fun b => (0 <=? b) && (b <? 256)) l = true → bytes_ok l.
Proof.
  intros H. rewrite forallb_forall in H. apply List.Forall_forall. intros b Hin. specialize (H b Hin). unfold in_u. lia.
Qed.

Lemma demo_callable :
  callable ConnectProps.demo_GetHash ConnectProps.demo_params None ConnectProps.block_hash (replicate 8 0)
    ConnectProps.demo_map ConnectProps.demo_block ConnectProps.block_hash
    (ConnectProps.demo_index (Some ConnectProps.genesis_hash) 1 1778351916) ConnectProps.demo_utxo.
Proof.
  split; try done.
  - intros p b Hb. unfold ConnectProps.demo_map in Hb. apply lookup_insert_Some in Hb as [[_ <-]|[_ Hb]]; [by split|].
    apply lookup_singleton_Some in Hb as [_ <-]. split; [done|]. split; [eexists; split; [reflexivity|done]|done].
  - apply map_Forall_singleton. split_and!; [split_and!; [reflexivity|reflexivity|]|by vm_compute|by apply demo_bytes].
    unfold TransactionFacts.in_range, MAX_MONEY, COIN. cbn. lia.
  - repeat (apply list.Forall_cons; split; [split; repeat (apply list.Forall_cons; split; [|]); try constructor|]);
      try (by apply demo_bytes); try (by apply list.Forall_nil); try done; by constructor.
Qed.

Definition demo_accepts : bool :=
  match ConnectBlock (CCoinsView0 := ConnectProps.demo_view_ops) ConnectProps.demo_Hash ConnectProps.demo_GetHash ConnectProps.demo_params
          (fun _ => true) demo_hashes ConnectProps.demo_lib (fun _ _ => false) None ConnectProps.block_hash (replicate 8 0) true None
          (fun _ => true) ConnectProps.demo_map ConnectProps.demo_block ConnectProps.block_hash ConnectProps.demo_view false with
  | Ok _ => true
  | Err _ => false
  end.

Lemma demo_accepted : demo_accepts = true.
Proof. vm_compute. reflexivity. Qed.

Lemma connect_block_decides_witness :
  ∃ m' undos, block_ok ConnectProps.demo_Hash ConnectProps.demo_GetHash ConnectProps.demo_params (fun _ => true) demo_hashes
    ConnectProps.demo_lib (fun _ _ => false) None ConnectProps.demo_map ConnectProps.demo_block ConnectProps.block_hash
    (ConnectProps.demo_index (Some ConnectProps.genesis_hash) 1 1778351916) ConnectProps.demo_utxo m' undos.
Proof.
  destruct (connect_block_decides (CCoinsView0 := ConnectProps.demo_view_ops) CoinsFacts.db_utxo db_GetBestBlock CoinsFacts.db_inv
    ConnectProps.demo_Hash ConnectProps.demo_GetHash ConnectProps.demo_params
    (fun _ => true) demo_hashes ConnectProps.demo_lib (fun _ _ => false) None ConnectProps.block_hash (replicate 8 0) true None (fun _ => true)
    ConnectProps.demo_map ConnectProps.demo_block ConnectProps.block_hash _ ConnectProps.genesis_hash ConnectProps.demo_view ConnectProps.demo_utxo
    (CCoinsViewDB_laws (fun _ => false)) ltac:(cbn; lia) ltac:(intros v; split_and!; (apply demo_bytes; reflexivity) || reflexivity)
    ConnectProps.demo_ready demo_callable) as (H & _ & _).
  pose proof demo_accepted as E. unfold demo_accepts in E. destruct (ConnectBlock _ _ _ _ _ _ _ _ _ _ _ _ _ _ _ _ _ _) as [r|]; [|discriminate E].
  destruct (H r eq_refl) as (m' & undos & Hok & _). by exists m', undos.
Defined.

End ConnectExactProps.
