(* ===== verification/ChainSelection.v ===== *)
(** Choosing the active chain: [CBlockIndexWorkComparator] of
    [src/node/blockstorage.cpp], and [FindMostWorkChain],
    [PruneBlockIndexCandidates], [ConnectTip], [DisconnectTip],
    [ActivateBestChainStep], [ActivateBestChain], [PreciousBlock],
    [InvalidateBlock], [ResetBlockFailureFlags], [TryAddBlockIndexCandidate] and
    [ReceivedBlockTransactions] of [src/validation.cpp].

    The chain state is one record.  What applies a block to the coins is the
    interface [BlockEngine]; [Engine] instantiates it with [ConnectBlock],
    [DisconnectBlock] and the coin caches.  Block files are a map from block
    hash to block; a missing key is a failed read.  There is one chain state (no
    snapshot), the memory pool is told of nothing, and shutdown requests,
    notifications and the pruning of block files are left out. *)
From Stdlib Require Import ZArith Lia.
From stdpp Require Import gmap.
From S2P Require Import Prelude Arith256 Chain Params Headers Transaction Block.
Import Arith256.BaseUint Chain Headers Block.
Local Open Scope bb_scope.

Module ChainSelection.

(** ** What connecting blocks does to the coins *)

(** The verdict of [ConnectBlock]: the coins after the block and the new
    [nStatus] of its entry, a [BlockValidationState] that is invalid, or one that
    is an error. *)
Inductive connect_outcome (C : Type) : Type :=
| Connected (coins : C) (status : Z)
| BlockInvalid (mutated : bool)
| SystemError.
Arguments Connected {C}.
Arguments BlockInvalid {C}.
Arguments SystemError {C}.

(** [C] is [CoinsTip()] with the undo files.  [disconnect_block] is [None] when
    [DisconnectBlock] does not return [DISCONNECT_OK], [flush_state] when
    [FlushStateToDisk] fails, in either mode. *)
Class BlockEngine (C : Type) := {
  connect_block : BlockManager → CBlock → uint256 → C → result chain_error (connect_outcome C);
  disconnect_block : BlockManager → CBlock → uint256 → C → result chain_error (option C);
  flush_state : C → option C;
}.

(** ** The state *)

Record Chainstate (C : Type) := mkChainstate {
  chainman : ChainstateManager;
  m_blocks_unlinked : list (uint256 * uint256);  (* a multimap, in order of insertion *)
  m_best_invalid : option uint256;
  nBlockSequenceId : Z;
  nBlockReverseSequenceId : Z;
  nLastPreciousChainwork : base_uint;
  m_chain : CChain;
  setBlockIndexCandidates : gset uint256;
  block_files : gmap uint256 CBlock;
  coins_tip : C;
}.
Arguments mkChainstate {C}.
Arguments chainman {C}.
Arguments m_blocks_unlinked {C}.
Arguments m_best_invalid {C}.
Arguments nBlockSequenceId {C}.
Arguments nBlockReverseSequenceId {C}.
Arguments nLastPreciousChainwork {C}.
Arguments m_chain {C}.
Arguments setBlockIndexCandidates {C}.
Arguments block_files {C}.
Arguments coins_tip {C}.

Definition BLOCK_VALID_TRANSACTIONS : Z := 3.
Definition BLOCK_HAVE_DATA : Z := 8.
Definition BLOCK_HAVE_UNDO : Z := 16.
Definition BLOCK_OPT_WITNESS : Z := 128.

Definition HaveNumChainTxs (b : CBlockIndex) : bool := negb (nChainTx b =? 0).

(** Assignments through a pointer to an entry. *)
Definition with_txs (b : CBlockIndex) (tx chain_tx : Z) : CBlockIndex :=
  {| pprev := pprev b; pskip := pskip b; nHeight := nHeight b; nChainWork := nChainWork b;
     nTx := tx; nChainTx := chain_tx; nStatus := nStatus b; nVersion := nVersion b;
     hashMerkleRoot := hashMerkleRoot b; nTime := nTime b; nBits := nBits b; nNonce := nNonce b;
     nSequenceId := nSequenceId b; nTimeMax := nTimeMax b |}.
Definition with_sequence (b : CBlockIndex) (id : Z) : CBlockIndex :=
  {| pprev := pprev b; pskip := pskip b; nHeight := nHeight b; nChainWork := nChainWork b;
     nTx := nTx b; nChainTx := nChainTx b; nStatus := nStatus b; nVersion := nVersion b;
     hashMerkleRoot := hashMerkleRoot b; nTime := nTime b; nBits := nBits b; nNonce := nNonce b;
     nSequenceId := id; nTimeMax := nTimeMax b |}.

Section Access.
Context {C : Type}.
Implicit Types (st : Chainstate C).

Definition index st : BlockMap := m_block_index (m_blockman (chainman st)).
Definition m_best_header st : option uint256 := best_header (m_blockman (chainman st)).
Definition dirty st : gset uint256 := m_dirty_blockindex (m_blockman (chainman st)).

Definition set_chainman st (cm : ChainstateManager) : Chainstate C :=
  mkChainstate cm (m_blocks_unlinked st) (m_best_invalid st) (nBlockSequenceId st) (nBlockReverseSequenceId st)
    (nLastPreciousChainwork st) (m_chain st) (setBlockIndexCandidates st) (block_files st) (coins_tip st).
Definition set_index st (m : BlockMap) : Chainstate C :=
  set_chainman st (mkManager (mkBlockManager m (m_best_header st) (dirty st)) (m_failed_blocks (chainman st))).
Definition set_best_header st (h : option uint256) : Chainstate C :=
  set_chainman st (mkManager (mkBlockManager (index st) h (dirty st)) (m_failed_blocks (chainman st))).
Definition set_failed st (l : list uint256) : Chainstate C :=
  set_chainman st (mkManager (m_blockman (chainman st)) l).
Definition mark_dirty st (p : uint256) : Chainstate C :=
  set_chainman st (mkManager (mkBlockManager (index st) (m_best_header st) ({[ p ]} ∪ dirty st))
                     (m_failed_blocks (chainman st))).
Definition set_unlinked st (l : list (uint256 * uint256)) : Chainstate C :=
  mkChainstate (chainman st) l (m_best_invalid st) (nBlockSequenceId st) (nBlockReverseSequenceId st)
    (nLastPreciousChainwork st) (m_chain st) (setBlockIndexCandidates st) (block_files st) (coins_tip st).
Definition set_best_invalid st (p : option uint256) : Chainstate C :=
  mkChainstate (chainman st) (m_blocks_unlinked st) p (nBlockSequenceId st) (nBlockReverseSequenceId st)
    (nLastPreciousChainwork st) (m_chain st) (setBlockIndexCandidates st) (block_files st) (coins_tip st).
Definition set_sequence_id st (id : Z) : Chainstate C :=
  mkChainstate (chainman st) (m_blocks_unlinked st) (m_best_invalid st) id (nBlockReverseSequenceId st)
    (nLastPreciousChainwork st) (m_chain st) (setBlockIndexCandidates st) (block_files st) (coins_tip st).
Definition set_precious st (id : Z) (work : base_uint) : Chainstate C :=
  mkChainstate (chainman st) (m_blocks_unlinked st) (m_best_invalid st) (nBlockSequenceId st) id
    work (m_chain st) (setBlockIndexCandidates st) (block_files st) (coins_tip st).
Definition set_chain st (c : CChain) : Chainstate C :=
  mkChainstate (chainman st) (m_blocks_unlinked st) (m_best_invalid st) (nBlockSequenceId st)
    (nBlockReverseSequenceId st) (nLastPreciousChainwork st) c (setBlockIndexCandidates st) (block_files st)
    (coins_tip st).
Definition set_candidates st (s : gset uint256) : Chainstate C :=
  mkChainstate (chainman st) (m_blocks_unlinked st) (m_best_invalid st) (nBlockSequenceId st)
    (nBlockReverseSequenceId st) (nLastPreciousChainwork st) (m_chain st) s (block_files st) (coins_tip st).
Definition set_files st (f : gmap uint256 CBlock) : Chainstate C :=
  mkChainstate (chainman st) (m_blocks_unlinked st) (m_best_invalid st) (nBlockSequenceId st)
    (nBlockReverseSequenceId st) (nLastPreciousChainwork st) (m_chain st) (setBlockIndexCandidates st) f
    (coins_tip st).
Definition set_coins st (c : C) : Chainstate C :=
  mkChainstate (chainman st) (m_blocks_unlinked st) (m_best_invalid st) (nBlockSequenceId st)
    (nBlockReverseSequenceId st) (nLastPreciousChainwork st) (m_chain st) (setBlockIndexCandidates st)
    (block_files st) c.

(** [p->nStatus = s; m_dirty_blockindex.insert(p)] *)
Definition set_status st (p : uint256) (s : Z → Z) : result chain_error (Chainstate C) :=
  let! b := deref (index st) p in
  Ok (mark_dirty (set_index st (<[p := with_status b (s (nStatus b))]> (index st))) p).

Definition insert_candidate st (p : uint256) : Chainstate C :=
  set_candidates st ({[ p ]} ∪ setBlockIndexCandidates st).
Definition erase_candidate st (p : uint256) : Chainstate C :=
  set_candidates st (setBlockIndexCandidates st ∖ {[ p ]}).

End Access.

Section Selection.
Context {C : Type} `{!BlockEngine C}.
(** The address of an entry. *)
Context (addr : uint256 → Z).
Implicit Types (st : Chainstate C).

(** ** The set of candidates *)

(** Reading an entry through a pointer of the set. *)
Definition entry (m : BlockMap) (p : uint256) : CBlockIndex :=
  default (index_of_header (mkHeader 0 [] [] 0 0 0)) (m !! p).

Definition CBlockIndexWorkComparator (m : BlockMap) (pa pb : uint256) : bool :=
  let a := entry m pa in
  let b := entry m pb in
  if op_gt (nChainWork a) (nChainWork b) then false
  else if op_lt (nChainWork a) (nChainWork b) then true
  else if nSequenceId a <? nSequenceId b then false
  else if nSequenceId a >? nSequenceId b then true
  else if addr pa <? addr pb then false
  else if addr pa >? addr pb then true
  else false.

Definition better_of (m : BlockMap) (acc : option uint256) (p : uint256) : option uint256 :=
  match acc with
  | None => Some p
  | Some q => Some (if CBlockIndexWorkComparator m q p then p else q)
  end.
(** [*setBlockIndexCandidates.rbegin()]: the greatest element. *)
Definition last_candidate (m : BlockMap) (s : gset uint256) : option uint256 :=
  foldl (better_of m) None (elements s).

(** The loop erases the elements before the first one that is not less than
    the tip, which are those less than the tip. *)
Definition PruneBlockIndexCandidates st : result chain_error (Chainstate C) :=
  match Tip (m_chain st) with
  | None => if bool_decide (setBlockIndexCandidates st = ∅) then Err AssertFailed else Err NullDeref
  | Some tip =>
      let s := filter (fun p => CBlockIndexWorkComparator (index st) p tip = false) (setBlockIndexCandidates st) in
      let! _ := require (negb (bool_decide (s = ∅))) AssertFailed in
      Ok (set_candidates st s)
  end.

Definition TryAddBlockIndexCandidate st (pindex : uint256) : Chainstate C :=
  match Tip (m_chain st) with
  | Some tip => if CBlockIndexWorkComparator (index st) pindex tip then st else insert_candidate st pindex
  | None => insert_candidate st pindex
  end.

(** The walk of [FindMostWorkChain] from a candidate to the active chain: the
    first unusable block on it, and whether that block failed. *)
Fixpoint find_unusable (fuel : nat) (m : BlockMap) (c : CChain) (pindexTest : option uint256)
    : result chain_error (option (uint256 * bool)) :=
  match pindexTest with
  | None => Ok None
  | Some p =>
      match fuel with
      | O => Err OutOfFuel
      | S fuel =>
          let! contained := Contains m c p in
          if (contained : bool) then Ok None
          else
            let! b := deref m p in
            let! _ := require (HaveNumChainTxs b || (nHeight b =? 0)) AssertFailed in
            let fFailedChain := negb (Z.land (nStatus b) BLOCK_FAILED_MASK =? 0) in
            let fMissingData := Z.land (nStatus b) BLOCK_HAVE_DATA =? 0 in
            if fFailedChain || fMissingData then Ok (Some (p, fFailedChain))
            else find_unusable fuel m c (pprev b)
      end
  end.

(** [while (pindexTest != pindexFailed)] *)
Fixpoint remove_chain (fuel : nat) st (pindexTest : uint256) (fFailedChain : bool) (pindexFailed : uint256)
    : result chain_error (Chainstate C) :=
  if bool_decide (pindexTest = pindexFailed) then Ok st
  else
    match fuel with
    | O => Err OutOfFuel
    | S fuel =>
        let! b := deref (index st) pindexFailed in
        match pprev b with
        | None => Err NullDeref
        | Some prev =>
            let! st := if fFailedChain then set_status st pindexFailed (fun s => Z.lor s BLOCK_FAILED_CHILD)
                       else Ok (set_unlinked st (m_blocks_unlinked st ++ [(prev, pindexFailed)])) in
            remove_chain fuel (erase_candidate st pindexFailed) pindexTest fFailedChain prev
        end
    end.

(** [do ... while (true)]: every round but the last erases its candidate. *)
Fixpoint find_most_work_loop (fuel : nat) st : result chain_error (option uint256 * Chainstate C) :=
  match last_candidate (index st) (setBlockIndexCandidates st) with
  | None => Ok (None, st)
  | Some pindexNew =>
      match fuel with
      | O => Err OutOfFuel
      | S fuel =>
          let! b := deref (index st) pindexNew in
          let steps := S (Z.to_nat (nHeight b)) in
          let! unusable := find_unusable steps (index st) (m_chain st) (Some pindexNew) in
          match unusable with
          | None => Ok (Some pindexNew, st)
          | Some (pindexTest, fFailedChain) =>
              let! better := match m_best_invalid st with
                             | None => Ok true
                             | Some q => let! c := deref (index st) q in Ok (op_gt (nChainWork b) (nChainWork c))
                             end in
              let st := if fFailedChain && better then set_best_invalid st (Some pindexNew) else st in
              let! st := remove_chain steps st pindexTest fFailedChain pindexNew in
              find_most_work_loop fuel (erase_candidate st pindexTest)
          end
      end
  end.

Definition FindMostWorkChain st : result chain_error (option uint256 * Chainstate C) :=
  find_most_work_loop (size (setBlockIndexCandidates st)) st.

(** ** Invalid blocks *)

(** [std::set<CBlockIndex*>::insert] *)
Fixpoint failed_insert (p : uint256) (l : list uint256) : list uint256 :=
  match l with
  | [] => [p]
  | q :: l' => if bool_decide (p = q) then l
               else if addr p <? addr q then p :: l else q :: failed_insert p l'
  end.

Definition InvalidChainFound st (pindexNew : uint256) : result chain_error (Chainstate C) :=
  let! b := deref (index st) pindexNew in
  let! better := match m_best_invalid st with
                 | None => Ok true
                 | Some q => let! c := deref (index st) q in Ok (op_gt (nChainWork b) (nChainWork c))
                 end in
  let st := if (better : bool) then set_best_invalid st (Some pindexNew) else st in
  let! st := match m_best_header st with
             | None => Ok st
             | Some h =>
                 let! a := GetAncestor (index st) h (nHeight b) in
                 Ok (if bool_decide (a = Some pindexNew) then set_best_header st (Tip (m_chain st)) else st)
             end in
  let! _ := require (bool_decide (is_Some (Tip (m_chain st)))) AssertFailed in
  Ok st.

Definition InvalidBlockFound st (pindex : uint256) (mutated : bool) : result chain_error (Chainstate C) :=
  if negb mutated then
    let! st := set_status st pindex (fun s => Z.lor s BLOCK_FAILED_VALID) in
    let st := set_failed st (failed_insert pindex (m_failed_blocks (chainman st))) in
    InvalidChainFound (erase_candidate st pindex) pindex
  else Ok st.

(** ** Moving the tip *)

Definition DisconnectTip st : result chain_error (bool * Chainstate C) :=
  match Tip (m_chain st) with
  | None => Err AssertFailed
  | Some pindexDelete =>
      let! b := deref (index st) pindexDelete in
      match pprev b with
      | None => Err AssertFailed
      | Some prev =>
          match block_files st !! pindexDelete with
          | None => Ok (false, st)
          | Some block =>
              let! r := disconnect_block (m_blockman (chainman st)) block pindexDelete (coins_tip st) in
              match r with
              | None => Ok (false, st)
              | Some coins =>
                  match flush_state coins with
                  | None => Ok (false, set_coins st coins)
                  | Some coins =>
                      let! chain := SetTip (index st) (m_chain st) prev in
                      Ok (true, set_chain (set_coins st coins) chain)
                  end
              end
          end
      end
  end.

Inductive tip_outcome : Type :=
| TipConnected
| TipInvalid (mutated : bool)
| TipError.

Definition ConnectTip st (pindexNew : uint256) (pblock : option CBlock)
    : result chain_error (tip_outcome * Chainstate C) :=
  let! b := deref (index st) pindexNew in
  let! _ := require (bool_decide (pprev b = Tip (m_chain st))) AssertFailed in
  match (match pblock with Some _ => pblock | None => block_files st !! pindexNew end) with
  | None => Ok (TipError, st)
  | Some blockConnecting =>
      let! r := connect_block (m_blockman (chainman st)) blockConnecting pindexNew (coins_tip st) in
      match r with
      | SystemError => Ok (TipError, st)
      | BlockInvalid mutated =>
          let! st := InvalidBlockFound st pindexNew mutated in
          Ok (TipInvalid mutated, st)
      | Connected coins status =>
          let! st := if status =? nStatus b then Ok st else set_status st pindexNew (fun _ => status) in
          let st := set_coins st coins in
          match flush_state coins with
          | None => Ok (TipError, st)
          | Some coins =>
              let! chain := SetTip (index st) (m_chain st) pindexNew in
              Ok (TipConnected, set_chain (set_coins st coins) chain)
          end
      end
  end.

(** ** One step towards a better chain *)

(** [while (m_chain.Tip() && m_chain.Tip() != pindexFork)] *)
Fixpoint disconnect_to (fuel : nat) st (pindexFork : option uint256) : result chain_error (bool * Chainstate C) :=
  match Tip (m_chain st) with
  | None => Ok (true, st)
  | Some tip =>
      if bool_decide (Some tip = pindexFork) then Ok (true, st)
      else
        match fuel with
        | O => Err OutOfFuel
        | S fuel =>
            let! (ok, st) := DisconnectTip st in
            if negb ok then Ok (false, st) else disconnect_to fuel st pindexFork
        end
  end.

(** [vpindexToConnect]: from [pindexIter] down to above [nHeight]. *)
Fixpoint to_connect (fuel : nat) (m : BlockMap) (pindexIter : option uint256) (height : Z)
    : result chain_error (list uint256) :=
  match pindexIter with
  | None => Ok []
  | Some p =>
      let! b := deref m p in
      if nHeight b =? height then Ok []
      else
        match fuel with
        | O => Err OutOfFuel
        | S fuel => let! l := to_connect fuel m (pprev b) height in Ok (p :: l)
        end
  end.

(** How the loop over the blocks to connect ends. *)
Inductive step_outcome : Type :=
| StepGoOn            (* all connected, [fContinue] is still set *)
| StepBetter          (* more work than the old tip *)
| StepInvalid         (* [fInvalidFound] *)
| StepError.          (* [return false] *)

(** [front] is [vpindexToConnect.front()]; the list is in connecting order. *)
Fixpoint connect_list st (l : list uint256) (front pindexMostWork : uint256) (pblock : option CBlock)
    (pindexOldTip : option uint256) : result chain_error (step_outcome * Chainstate C) :=
  match l with
  | [] => Ok (StepGoOn, st)
  | pindexConnect :: l =>
      let! (r, st) := ConnectTip st pindexConnect (if bool_decide (pindexConnect = pindexMostWork) then pblock else None) in
      match r with
      | TipError => Ok (StepError, st)
      | TipInvalid mutated =>
          let! st := if negb mutated then InvalidChainFound st front else Ok st in
          Ok (StepInvalid, st)
      | TipConnected =>
          let! st := PruneBlockIndexCandidates st in
          let! better :=
            match pindexOldTip, Tip (m_chain st) with
            | None, _ => Ok true
            | Some old, Some tip =>
                let! o := deref (index st) old in
                let! t := deref (index st) tip in
                Ok (op_gt (nChainWork t) (nChainWork o))
            | Some _, None => Err NullDeref
            end in
          if (better : bool) then Ok (StepBetter, st)
          else connect_list st l front pindexMostWork pblock pindexOldTip
      end
  end.

(** [while (fContinue && nHeight != pindexMostWork->nHeight)] *)
Fixpoint connect_chunks (fuel : nat) st (height : Z) (pindexMostWork : uint256) (pblock : option CBlock)
    (pindexOldTip : option uint256) : result chain_error (step_outcome * Chainstate C) :=
  let! most := deref (index st) pindexMostWork in
  if height =? nHeight most then Ok (StepGoOn, st)
  else
    match fuel with
    | O => Err OutOfFuel
    | S fuel =>
        let nTargetHeight := Z.min (height + 32) (nHeight most) in
        let! pindexIter := GetAncestor (index st) pindexMostWork nTargetHeight in
        let! vpindexToConnect := to_connect (S (Z.to_nat nTargetHeight)) (index st) pindexIter height in
        let front := hd pindexMostWork vpindexToConnect in
        let! (r, st) := connect_list st (rev vpindexToConnect) front pindexMostWork pblock pindexOldTip in
        match r with
        | StepGoOn => connect_chunks fuel st nTargetHeight pindexMostWork pblock pindexOldTip
        | _ => Ok (r, st)
        end
    end.

(** The return value and [fInvalidFound]. *)
Definition ActivateBestChainStep st (pindexMostWork : uint256) (pblock : option CBlock)
    : result chain_error (bool * bool * Chainstate C) :=
  let pindexOldTip := Tip (m_chain st) in
  let! pindexFork := FindFork (index st) (m_chain st) (Some pindexMostWork) in
  let! (ok, st) := disconnect_to (length (m_chain st)) st pindexFork in
  if negb ok then Ok (false, false, st)
  else
    let! height := match pindexFork with
                   | None => Ok (-1)
                   | Some f => let! b := deref (index st) f in Ok (nHeight b)
                   end in
    let! most := deref (index st) pindexMostWork in
    let! (r, st) := connect_chunks (S (Z.to_nat (nHeight most))) st height pindexMostWork pblock pindexOldTip in
    match r with
    | StepError => Ok (false, false, st)
    | StepInvalid => Ok (true, true, st)
    | _ => Ok (true, false, st)
    end.

(** ** [ActivateBestChain] *)

(** The inner [do] loop: [None] after a system error, else [pindexMostWork],
    [pindexNewTip] and [blocks_connected].  [hash_of] is [CBlock::GetHash]. *)
Context (hash_of : CBlock → uint256).

Fixpoint activate_inner (fuel : nat) st (pindexMostWork pindexNewTip starting_tip : option uint256) (pblock : option CBlock)
    (blocks_connected : bool) : result chain_error (option (option uint256 * option uint256 * bool) * Chainstate C) :=
  match fuel with
  | O => Err OutOfFuel
  | S fuel =>
      let! (pindexMostWork, st) :=
        match pindexMostWork with None => FindMostWorkChain st | Some _ => Ok (pindexMostWork, st) end in
      match pindexMostWork with
      | None => Ok (Some (None, pindexNewTip, blocks_connected), st)
      | Some most =>
          if bool_decide (Some most = Tip (m_chain st)) then Ok (Some (pindexMostWork, pindexNewTip, blocks_connected), st)
          else
            let given := match pblock with
                         | Some blk => if bool_decide (hash_of blk = most) then pblock else None
                         | None => None
                         end in
            let! (ok, fInvalidFound, st) := ActivateBestChainStep st most given in
            if negb ok then Ok (None, st)
            else
              let pindexMostWork := if (fInvalidFound : bool) then None else Some most in
              let pindexNewTip := Tip (m_chain st) in
              let again :=
                match Tip (m_chain st), starting_tip with
                | None, _ => true
                | Some tip, Some start => CBlockIndexWorkComparator (index st) tip start
                | Some _, None => false
                end in
              if again then activate_inner fuel st pindexMostWork pindexNewTip starting_tip pblock true
              else Ok (Some (pindexMostWork, pindexNewTip, true), st)
      end
  end.

(** The outer [do] loop. *)
Fixpoint activate_outer (fuel : nat) (steps : nat) st (pindexMostWork pindexNewTip : option uint256) (pblock : option CBlock)
    : result chain_error (bool * Chainstate C) :=
  match fuel with
  | O => Err OutOfFuel
  | S fuel =>
      let! (r, st) := activate_inner steps st pindexMostWork pindexNewTip (Tip (m_chain st)) pblock false in
      match r with
      | None => Ok (false, st)
      | Some (pindexMostWork, pindexNewTip, blocks_connected) =>
          if negb blocks_connected then Ok (true, st)
          else if bool_decide (pindexNewTip = pindexMostWork) then
            match flush_state (coins_tip st) with
            | None => Ok (false, st)
            | Some coins => Ok (true, set_coins st coins)
            end
          else activate_outer fuel steps st pindexMostWork pindexNewTip pblock
      end
  end.

(** Each round connects a block of the chain it works towards, or marks a block
    as failed, after which it may start over. *)
Definition activation_steps st : nat :=
  let height := foldr (fun b h => Nat.max (Z.to_nat (nHeight b)) h) 0%nat ((map_to_list (index st)).*2) in
  (S (size (index st)) * (height + 3))%nat.

Definition ActivateBestChain st (pblock : option CBlock) : result chain_error (bool * Chainstate C) :=
  activate_outer (activation_steps st) (activation_steps st) st None None pblock.

(** ** Requests to prefer, reject and reconsider blocks *)

(** [IsValid(BLOCK_VALID_TRANSACTIONS)], also the default argument. *)
Definition valid_transactions (b : CBlockIndex) : bool :=
  match IsValid (nStatus b) BLOCK_VALID_TRANSACTIONS with Ok v => v | Err _ => false end.

Definition PreciousBlock st (pindex : uint256) : result chain_error (bool * Chainstate C) :=
  match Tip (m_chain st) with
  | None => Err NullDeref
  | Some tip =>
      let! b := deref (index st) pindex in
      let! t := deref (index st) tip in
      if op_lt (nChainWork b) (nChainWork t) then Ok (true, st)
      else
        let id := if op_gt (nChainWork t) (nLastPreciousChainwork st) then -1 else nBlockReverseSequenceId st in
        let st := erase_candidate st pindex in
        let st := set_index st (<[pindex := with_sequence b id]> (index st)) in
        let st := set_precious st (if id >? - 2 ^ 31 then id - 1 else id) (nChainWork t) in
        let! st := if valid_transactions b && HaveNumChainTxs b
                   then PruneBlockIndexCandidates (insert_candidate st pindex) else Ok st in
        ActivateBestChain st None
  end.

(** Entries outside the active chain with at least the work of [prev]. *)
Definition candidate_blocks st (prev : uint256) : list (base_uint * uint256) :=
  map (fun e => (nChainWork e.2, e.1))
    (List.filter (fun e => negb (bool_decide (at_height (m_chain st) (nHeight e.2) = Some e.1)) &&
                           negb (CBlockIndexWorkComparator (index st) e.1 prev) &&
                           valid_transactions e.2 && HaveNumChainTxs e.2) (map_to_list (index st))).

(** Those of [candidate_blocks_by_work] that become candidates above [prev], and
    the others. *)
Definition take_candidates st (prev : uint256) (by_work : list (base_uint * uint256))
    : Chainstate C * list (base_uint * uint256) :=
  let '(now, later) :=
    List.partition (fun e => op_ge e.1 (nChainWork (entry (index st) prev)) &&
                             negb (CBlockIndexWorkComparator (index st) e.2 prev)) by_work in
  (set_candidates st (list_to_set now.*2 ∪ setBlockIndexCandidates st), later).

(** The loop of [InvalidateBlock]: [None] when disconnecting failed, else
    [to_mark_failed]. *)
Fixpoint invalidate_loop (fuel : nat) st (pindex to_mark_failed : uint256) (by_work : list (base_uint * uint256))
    : result chain_error (option uint256 * Chainstate C) :=
  let! contained := Contains (index st) (m_chain st) pindex in
  if negb contained then Ok (Some to_mark_failed, st)
  else
    match fuel, Tip (m_chain st) with
    | O, _ => Err OutOfFuel
    | _, None => Err NullDeref
    | S fuel, Some invalid_walk_tip =>
        let! (ret, st) := DisconnectTip st in
        if negb ret then Ok (None, st)
        else
          let! w := deref (index st) invalid_walk_tip in
          let! _ := require (bool_decide (pprev w = Tip (m_chain st))) AssertFailed in
          match pprev w with
          | None => Err NullDeref
          | Some prev =>
              let! st := set_status st invalid_walk_tip (fun s => Z.lor s BLOCK_FAILED_VALID) in
              let st := insert_candidate (erase_candidate st invalid_walk_tip) prev in
              let! f := deref (index st) to_mark_failed in
              let! st := if bool_decide (prev = to_mark_failed) && negb (Z.land (nStatus f) BLOCK_FAILED_VALID =? 0)
                         then set_status st to_mark_failed
                                (fun s => Z.lor (Z.lxor s BLOCK_FAILED_VALID) BLOCK_FAILED_CHILD)
                         else Ok st in
              let '(st, by_work) := take_candidates st prev by_work in
              invalidate_loop fuel st pindex invalid_walk_tip by_work
          end
    end.

(** Every valid entry that is not worse than the tip. *)
Definition all_candidates st (tip : uint256) : gset uint256 :=
  list_to_set (map fst (List.filter (fun e => valid_transactions e.2 && HaveNumChainTxs e.2 &&
                                              negb (CBlockIndexWorkComparator (index st) e.1 tip))
                          (map_to_list (index st)))).

Definition InvalidateBlock st (pindex : uint256) : result chain_error (bool * Chainstate C) :=
  let! b := deref (index st) pindex in
  if nHeight b =? 0 then Ok (false, st)
  else
    match pprev b with
    | None => Err NullDeref
    | Some prev =>
        let by_work := candidate_blocks st prev in
        let! (r, st) := invalidate_loop (length (m_chain st)) st pindex pindex by_work in
        match r with
        | None => Ok (false, st)
        | Some to_mark_failed =>
            let! contained := Contains (index st) (m_chain st) to_mark_failed in
            if (contained : bool) then Ok (false, st)
            else
              let! st := set_status st to_mark_failed (fun s => Z.lor s BLOCK_FAILED_VALID) in
              let st := erase_candidate st to_mark_failed in
              let st := set_failed st (failed_insert to_mark_failed (m_failed_blocks (chainman st))) in
              match Tip (m_chain st) with
              | None => Err NullDeref
              | Some tip =>
                  let st := set_candidates st (all_candidates st tip ∪ setBlockIndexCandidates st) in
                  let! st := InvalidChainFound st to_mark_failed in
                  Ok (true, st)
              end
        end
    end.

Definition clear_failure (s : Z) : Z := Z.land s (Z.lnot BLOCK_FAILED_MASK).

(** One round of the loop over [m_block_index]. *)
Definition reset_entry (nHeight' : Z) (pindex : uint256) st (p : uint256) : result chain_error (Chainstate C) :=
  let! b := deref (index st) p in
  let! a := GetAncestor (index st) p nHeight' in
  if negb (valid_transactions b) && bool_decide (a = Some pindex) then
    let! st := set_status st p clear_failure in
    let! b := deref (index st) p in
    let! st :=
      if valid_transactions b && HaveNumChainTxs b then
        match Tip (m_chain st) with
        | None => Err NullDeref
        | Some tip => Ok (if CBlockIndexWorkComparator (index st) tip p then insert_candidate st p else st)
        end
      else Ok st in
    let st := if bool_decide (m_best_invalid st = Some p) then set_best_invalid st None else st in
    Ok (set_failed st (List.filter (fun q => negb (bool_decide (q = p))) (m_failed_blocks (chainman st))))
  else Ok st.

Fixpoint reset_entries (nHeight' : Z) (pindex : uint256) st (l : list uint256) : result chain_error (Chainstate C) :=
  match l with
  | [] => Ok st
  | p :: l => let! st := reset_entry nHeight' pindex st p in reset_entries nHeight' pindex st l
  end.

(** [while (pindex != nullptr)] *)
Fixpoint reset_ancestors (fuel : nat) st (pindex : option uint256) : result chain_error (Chainstate C) :=
  match pindex with
  | None => Ok st
  | Some p =>
      match fuel with
      | O => Err OutOfFuel
      | S fuel =>
          let! b := deref (index st) p in
          let! st :=
            if negb (Z.land (nStatus b) BLOCK_FAILED_MASK =? 0) then
              let! st := set_status st p clear_failure in
              Ok (set_failed st (List.filter (fun q => negb (bool_decide (q = p))) (m_failed_blocks (chainman st))))
            else Ok st in
          reset_ancestors fuel st (pprev b)
      end
  end.

Definition ResetBlockFailureFlags st (pindex : uint256) : result chain_error (Chainstate C) :=
  let! b := deref (index st) pindex in
  let! st := reset_entries (nHeight b) pindex st (map_to_list (index st)).*1 in
  reset_ancestors (S (Z.to_nat (nHeight b))) st (Some pindex).

(** ** Data of a block arrives *)

Context (params : Consensus.Params).

(** [while (!queue.empty())]: blocks whose parents are all there. *)
Fixpoint link_queue (fuel : nat) st (queue : list uint256) : result chain_error (Chainstate C) :=
  match queue with
  | [] => Ok st
  | pindex :: queue =>
      match fuel with
      | O => Err OutOfFuel
      | S fuel =>
          let! b := deref (index st) pindex in
          let! before := match pprev b with
                         | None => Ok 0
                         | Some q => let! c := deref (index st) q in Ok (nChainTx c)
                         end in
          let b := with_sequence (with_txs b (nTx b) (u32 (before + nTx b))) (nBlockSequenceId st) in
          let st := set_index st (<[pindex := b]> (index st)) in
          let st := set_sequence_id st (i32 (nBlockSequenceId st + 1)) in
          let st := TryAddBlockIndexCandidate st pindex in
          let '(range, rest) := List.partition (fun e => bool_decide (e.1 = pindex)) (m_blocks_unlinked st) in
          link_queue fuel (set_unlinked st rest) (queue ++ range.*2)
      end
  end.

Definition ReceivedBlockTransactions st (block : CBlock) (pindexNew : uint256) : result chain_error (Chainstate C) :=
  let! b := deref (index st) pindexNew in
  let status := Z.lor (nStatus b) BLOCK_HAVE_DATA in
  let status := if Consensus.DeploymentActiveAt (nHeight b) params Consensus.DEPLOYMENT_SEGWIT
                then Z.lor status BLOCK_OPT_WITNESS else status in
  let! (status, _) := RaiseValidity status BLOCK_VALID_TRANSACTIONS in
  let b := with_status (with_txs b (u32 (Z.of_nat (length (vtx block)))) 0) status in
  let st := mark_dirty (set_index st (<[pindexNew := b]> (index st))) pindexNew in
  let! parent := match pprev b with
                 | None => Ok None
                 | Some q => let! c := deref (index st) q in Ok (Some (q, c))
                 end in
  match parent with
  | Some (q, c) =>
      if HaveNumChainTxs c then link_queue (S (length (m_blocks_unlinked st))) st [pindexNew]
      else
        let! valid := IsValid (nStatus c) BLOCK_VALID_TREE in
        Ok (if (valid : bool) then set_unlinked st (m_blocks_unlinked st ++ [(q, pindexNew)]) else st)
  | None => link_queue (S (length (m_blocks_unlinked st))) st [pindexNew]
  end.

End Selection.
End ChainSelection.
