(* ===== verification/ChainSelectionFacts.v ===== *)
(** Lemmas about the choice of the active chain: the order of candidates, the
    entries on the path to a candidate, and the steps of [ActivateBestChain]. *)
From Stdlib Require Import ZArith Lia.
From stdpp Require Import gmap.
From S2P Require Import Prelude Arith256 Chain Params Headers Transaction Block ChainSelection.
Import Arith256.BaseUint Arith256.BaseUintFacts Chain ChainFacts Headers HeadersFacts Block ChainSelection.
Local Open Scope bb_scope.

(** ** Entries that agree up to their status *)
Module SameCore.

Lemma core_counters b b' :
  core b' = core b → nTx b' = nTx b ∧ nChainTx b' = nChainTx b ∧ nSequenceId b' = nSequenceId b.
Proof. destruct b, b'. unfold core, with_status. cbn. by intros [= -> -> -> -> -> -> -> -> -> -> -> -> ->]. Qed.

Lemma same_core_refl m : same_core m m.
Proof. split; apply ext_refl. Qed.
Lemma same_core_sym m m' : same_core m m' → same_core m' m.
Proof. by intros [? ?]. Qed.

#[export] Instance same_core_equivalence : Equivalence same_core.
Proof. split; [exact same_core_refl|exact same_core_sym|exact same_core_trans]. Qed.

Lemma is_anc_same m m' p h q : same_core m m' → is_anc m p h q ↔ is_anc m' p h q.
Proof. intros [H1 H2]. split; by apply is_anc_grows, ext_grows. Qed.

Lemma chain_of_same m m' tip c : same_core m m' → chain_of m tip c → chain_of m' tip c.
Proof.
  intros Hs (b & Hb & Hl & Hc). destruct (proj1 Hs tip b Hb) as (b' & Hb' & Ec).
  exists b'. split; [done|]. destruct (core_fields _ _ Ec) as (_ & _ & -> & _). split; [done|].
  intros i q Hq. apply Hc. by apply (is_anc_same m m').
Qed.

Lemma GetAncestor_same m m' p h r : same_core m m' → GetAncestor m p h = Ok r → GetAncestor m' p h = Ok r.
Proof. intros [H _]. by apply GetAncestor_grows, ext_grows. Qed.

End SameCore.

(** ** The order of candidates *)
Module Order.
Import SameCore.

Section Order.
Context (addr : uint256 → Z) `{!Inj (=) (=) addr}.

Definition known (m : BlockMap) (p : uint256) : Prop := ∃ b, m !! p = Some b ∧ wf (nChainWork b).
Definition lt (m : BlockMap) (p q : uint256) : Prop := CBlockIndexWorkComparator addr m p q = true.

Definition rank (m : BlockMap) (p : uint256) : Z * Z * Z :=
  (val (nChainWork (entry m p)), - nSequenceId (entry m p), - addr p).
Definition rank_lt (x y : Z * Z * Z) : Prop :=
  x.1.1 < y.1.1 ∨ (x.1.1 = y.1.1 ∧ (x.1.2 < y.1.2 ∨ (x.1.2 = y.1.2 ∧ x.2 < y.2))).

Lemma known_wf m p : known m p → wf (nChainWork (entry m p)).
Proof. intros (b & Hb & Hw). unfold entry. by rewrite Hb. Qed.

Lemma lt_rank m p q : known m p → known m q → lt m p q ↔ rank_lt (rank m p) (rank m q).
Proof.
  intros Hp%known_wf Hq%known_wf. unfold lt, CBlockIndexWorkComparator, rank_lt, rank. cbn [fst snd].
  rewrite op_gt_spec, op_lt_spec by done.
  repeat match goal with |- context [if ?b then _ else _] => destruct b eqn:? end; lia.
Qed.

Lemma lt_irrefl m p : known m p → ¬ lt m p p.
Proof. intros Hp. rewrite lt_rank by done. unfold rank_lt. lia. Qed.

Lemma lt_trans m p q r : known m p → known m q → known m r → lt m p q → lt m q r → lt m p r.
Proof. intros Hp Hq Hr. rewrite !lt_rank by done. unfold rank_lt. lia. Qed.

Lemma lt_total m p q : known m p → known m q → lt m p q ∨ p = q ∨ lt m q p.
Proof.
  intros Hp Hq. rewrite !lt_rank by done. destruct (decide (addr p = addr q)) as [E|E].
  - right. left. by apply (inj addr).
  - unfold rank_lt, rank. cbn [fst snd]. lia.
Qed.

(** [p] is not better than [q]. *)
Lemma not_lt_le_trans m p q r : known m p → known m q → known m r → ¬ lt m q p → ¬ lt m r q → ¬ lt m r p.
Proof. intros Hp Hq Hr. rewrite !lt_rank by done. unfold rank_lt. lia. Qed.

Lemma lt_work m p q : known m p → known m q →
  val (nChainWork (entry m p)) < val (nChainWork (entry m q)) → lt m p q.
Proof. intros Hp Hq. rewrite lt_rank by done. unfold rank_lt, rank. cbn [fst snd]. lia. Qed.

Lemma not_lt_work m p q : known m p → known m q → ¬ lt m p q →
  val (nChainWork (entry m q)) <= val (nChainWork (entry m p)).
Proof. intros Hp Hq. rewrite lt_rank by done. unfold rank_lt, rank. cbn [fst snd]. lia. Qed.

#[global] Instance lt_dec m p q : Decision (lt m p q).
Proof. unfold lt. apply _. Defined.

Lemma entry_same m m' p : same_core m m' →
  nChainWork (entry m' p) = nChainWork (entry m p) ∧ nSequenceId (entry m' p) = nSequenceId (entry m p).
Proof.
  intros [H1 H2]. unfold entry. destruct (m !! p) as [b|] eqn:E.
  - destruct (H1 p b E) as (b' & -> & Ec). destruct (core_fields _ _ Ec) as (_ & _ & _ & ? & _).
    by destruct (core_counters _ _ Ec) as (_ & _ & ?).
  - destruct (m' !! p) as [b'|] eqn:E'; [|done]. destruct (H2 p b' E') as (b & ? & _). congruence.
Qed.

Lemma comparator_same m m' p q : same_core m m' →
  CBlockIndexWorkComparator addr m' p q = CBlockIndexWorkComparator addr m p q.
Proof.
  intros Hs. unfold CBlockIndexWorkComparator.
  destruct (entry_same m m' p Hs) as [-> ->]. by destruct (entry_same m m' q Hs) as [-> ->].
Qed.

Lemma lt_same m m' p q : same_core m m' → lt m' p q ↔ lt m p q.
Proof. intros Hs. unfold lt. by rewrite (comparator_same m m'). Qed.

Lemma known_same m m' p : same_core m m' → known m p → known m' p.
Proof.
  intros Hs (b & Hb & Hw). destruct (proj1 Hs p b Hb) as (b' & Hb' & Ec). exists b'. split; [done|].
  by destruct (core_fields _ _ Ec) as (_ & _ & _ & -> & _).
Qed.

(** [acc] is the greatest element of [l]. *)
Definition is_max (m : BlockMap) (acc : option uint256) (l : list uint256) : Prop :=
  match acc with
  | None => l = []
  | Some p => p ∈ l ∧ ∀ q, q ∈ l → ¬ lt m p q
  end.

Lemma better_of_max m acc x l :
  Forall (known m) l → known m x → is_max m acc l → is_max m (better_of addr m acc x) (l ++ [x]).
Proof.
  intros Hl Hx Hm. rewrite list.Forall_forall in Hl. destruct acc as [p|]; cbn [better_of is_max] in *.
  - destruct Hm as [Hp Hm]. pose proof (Hl p Hp) as Hk.
    destruct (CBlockIndexWorkComparator addr m p x) eqn:E.
    + split; [set_solver|]. intros q [Hq| ->%list_elem_of_singleton]%elem_of_app; [|by apply lt_irrefl].
      intros Hlt. apply (Hm q Hq). apply (lt_trans m p x q); [done|done|by apply Hl|exact E|exact Hlt].
    + split; [set_solver|]. intros q [Hq| ->%list_elem_of_singleton]%elem_of_app; [by apply Hm|].
      unfold lt. congruence.
  - subst l. split; [set_solver|]. intros q ->%list_elem_of_singleton. by apply lt_irrefl.
Qed.

Lemma better_of_fold m l acc seen :
  Forall (known m) seen → Forall (known m) l → is_max m acc seen →
  is_max m (foldl (better_of addr m) acc l) (seen ++ l).
Proof.
  revert acc seen. induction l as [|x l IH]; intros acc seen Hs Hl Hm; cbn [foldl]; [by rewrite app_nil_r|].
  apply list.Forall_cons in Hl as [Hx Hl]. rewrite (cons_middle x seen l), app_assoc.
  apply IH; [by apply list.Forall_app; split; [|constructor]|done|by apply better_of_max].
Qed.

(** [rbegin] is the maximum. *)
Lemma last_candidate_spec (m : BlockMap) (s : gset uint256) :
  (∀ p, p ∈ s → known m p) →
  match last_candidate addr m s with
  | None => s = ∅
  | Some p => p ∈ s ∧ ∀ q, q ∈ s → ¬ lt m p q
  end.
Proof.
  intros Hk. unfold last_candidate.
  pose proof (better_of_fold m (elements s) None [] (Forall_nil_2 _)) as Hf. cbn [app] in Hf.
  destruct (foldl _ None (elements s)) as [p|]; cbn [is_max] in Hf.
  - destruct Hf as [Hp Hm]; [|done|].
    { apply list.Forall_forall. intros q Hq. apply Hk. set_solver. }
    split; [set_solver|]. intros q Hq. apply Hm. set_solver.
  - apply leibniz_equiv, elements_empty_iff, Hf; [|done]. apply list.Forall_forall. intros q Hq. apply Hk. set_solver.
Qed.

End Order.
End Order.

(** ** Ancestors and the active chain *)
Module Paths.
Import SameCore.

(** [q] is [p] or an ancestor of it. *)
Definition anc (m : BlockMap) (p q : uint256) : Prop := ∃ h, is_anc m p h q.

Definition failed (b : CBlockIndex) : bool := negb (Z.land (nStatus b) BLOCK_FAILED_MASK =? 0).
Definition usable (b : CBlockIndex) : bool := negb (failed b) && negb (Z.land (nStatus b) BLOCK_HAVE_DATA =? 0).

(** Some block on the way to [p] failed or has no data. *)
Definition tainted (m : BlockMap) (p : uint256) : Prop :=
  ∃ q b, anc m p q ∧ m !! q = Some b ∧ usable b = false.

Lemma anc_same m m' p q : same_core m m' → anc m p q ↔ anc m' p q.
Proof. intros Hs. split; intros [h H]; exists h; by apply (is_anc_same m m'). Qed.

Section Tree.
Context (m : BlockMap) (Hwf : wf_tree m).

Lemma anc_refl p b : m !! p = Some b → anc m p p.
Proof. intros H. exists (nHeight b). by apply anc_self. Qed.
Lemma anc_trans p q r : anc m p q → anc m q r → anc m p r.
Proof. intros [h H] [h' H']. exists h'. by eapply is_anc_trans. Qed.
Lemma anc_step p b q : m !! p = Some b → pprev b = Some q → anc m p q.
Proof.
  intros Hb Hq. destruct (Hwf p b Hb) as [_ Hp]. rewrite Hq in Hp. destruct Hp as [(c & Hc & _) _].
  exists (nHeight c). eapply anc_prev; [done|done|by apply anc_self].
Qed.
Lemma anc_lookup p q : anc m p q → ∃ b c, m !! p = Some b ∧ m !! q = Some c ∧ nHeight c <= nHeight b.
Proof.
  intros [h H]. destruct (is_anc_lookup m Hwf _ _ _ H) as (b & c & Hb & Hc & E & ?). exists b, c. split_and!; [done|done|lia].
Qed.
Lemma anc_cases p b q : m !! p = Some b → anc m p q → p = q ∨ ∃ r, pprev b = Some r ∧ anc m r q.
Proof.
  intros Hb [h H]. destruct (is_anc_inv m Hwf p b h q Hb H) as [[_ ->]|(_ & r & Hr & Ha)]; [by left|].
  right. exists r. split; [done|by exists h].
Qed.
Lemma anc_height p q b c : m !! p = Some b → m !! q = Some c → anc m p q → is_anc m p (nHeight c) q.
Proof.
  intros Hb Hc [h H]. destruct (is_anc_lookup m Hwf _ _ _ H) as (? & c' & _ & Hc' & E & _).
  by simplify_eq.
Qed.
Lemma anc_antisym p q : anc m p q → anc m q p → p = q.
Proof.
  intros H H'. destruct (anc_lookup p q H) as (b & c & Hb & Hc & Hle).
  destruct (anc_lookup q p H') as (c' & b' & Hc' & Hb' & Hle'). simplify_eq.
  destruct (anc_cases p b q Hb H) as [->|(r & Hr & Ha)]; [done|].
  destruct (Hwf p b Hb) as [_ Hp]. rewrite Hr in Hp. destruct Hp as [(d & Hd & Hh) _].
  destruct (anc_lookup r q Ha) as (d' & c' & ? & ? & ?). simplify_eq. lia.
Qed.

(** ** [CChain] *)

Lemma chain_of_Tip tip c : chain_of m tip c → Tip c = Some tip.
Proof.
  intros (b & Hb & Hl & Hc). destruct (Hwf tip b Hb) as [H0 _]. unfold Tip.
  replace (length c =? 0)%nat with false by (symmetry; apply Nat.eqb_neq; lia).
  rewrite (Hc (length c - 1)%nat tip); [done|].
  replace (Z.of_nat (length c - 1)) with (nHeight b) by lia. by apply anc_self.
Qed.

Lemma chain_of_fun tip c c' : chain_of m tip c → chain_of m tip c' → c = c'.
Proof.
  intros (b & Hb & Hl & Hc) (b' & Hb' & Hl' & Hc'). assert (b' = b) as -> by congruence. destruct (Hwf tip b Hb) as [H0 _].
  apply (list_eq_same_length _ _ (length c)); [lia|done|].
  intros i x y Hi Hx Hy. destruct (is_anc_exists m Hwf tip b (Z.of_nat i) Hb) as [q Hq]; [lia|].
  rewrite (Hc i q Hq) in Hx. rewrite (Hc' i q Hq) in Hy. by simplify_eq.
Qed.

Lemma chain_of_exists p b : m !! p = Some b → ∃ c, chain_of m p c.
Proof. intros Hb. destruct (SetTip_spec m Hwf [] p b Hb) as (c & _ & Hc); [by left|by exists c]. Qed.

Lemma chain_of_snoc p b q c : m !! p = Some b → pprev b = Some q → chain_of m q c → chain_of m p (c ++ [Some p]).
Proof.
  intros Hb Hq (d & Hd & Hl & Hc). destruct (Hwf p b Hb) as [_ Hp]. rewrite Hq in Hp.
  destruct Hp as [(d' & Hd' & Hh) _]. assert (d' = d) as -> by congruence. destruct (Hwf q d Hd) as [H0 _].
  exists b. split; [done|]. rewrite length_app. split; [cbn; lia|].
  intros i r Hr. destruct (is_anc_inv m Hwf p b _ r Hb Hr) as [[Hi ->]|(Hi & q' & Hq' & Ha)].
  - rewrite lookup_app_r by lia. by replace (i - length c)%nat with 0%nat by lia.
  - simplify_eq. rewrite lookup_app_l by lia. by apply Hc.
Qed.

Lemma chain_of_inv p b q c : m !! p = Some b → pprev b = Some q → chain_of m p c →
  ∃ c', c = c' ++ [Some p] ∧ chain_of m q c'.
Proof.
  intros Hb Hq Hc. destruct (Hwf p b Hb) as [_ Hp]. rewrite Hq in Hp. destruct Hp as [(d & Hd & _) _].
  destruct (chain_of_exists q d Hd) as [c' Hc']. exists c'. split; [|done].
  apply (chain_of_fun p); [done|]. by apply (chain_of_snoc p b q).
Qed.

Lemma chain_of_elem tip c p : chain_of m tip c → Some p ∈ c ↔ anc m tip p.
Proof.
  intros Hch. split.
  - intros [i Hi]%list_elem_of_lookup. exists (Z.of_nat i). by eapply chain_of_lookup.
  - intros [h H]. destruct Hch as (b & Hb & Hl & Hc). destruct (is_anc_lookup m Hwf _ _ _ H) as (? & ? & ? & ? & ? & ?).
    apply (list_elem_of_lookup_2 _ (Z.to_nat h)). apply Hc. by replace (Z.of_nat (Z.to_nat h)) with h by lia.
Qed.

Lemma Contains_spec tip c p b : chain_of m tip c → m !! p = Some b → Contains m c p = Ok (bool_decide (Some p ∈ c)).
Proof.
  intros Hch Hb. unfold Contains, deref. rewrite Hb. f_equal. apply bool_decide_ext.
  rewrite (chain_of_elem tip c p Hch). destruct (Hwf p b Hb) as [H0 _].
  unfold at_height. split.
  - destruct (_ || _) eqn:E; [done|]. intros H. exists (Z.of_nat (Z.to_nat (nHeight b))).
    apply (chain_of_lookup m Hwf tip c); [done|]. destruct (c !! Z.to_nat (nHeight b)) as [x|]; [|done]. cbn in H. by subst x.
  - intros Ha. destruct (anc_lookup tip p Ha) as (bt & b' & Hbt & Hb' & Hle). assert (b' = b) as -> by congruence.
    destruct Hch as (bt' & Hbt' & Hl & Hc). assert (bt' = bt) as -> by congruence.
    replace (_ || _) with false by lia. rewrite (Hc _ p); [done|].
    replace (Z.of_nat (Z.to_nat (nHeight b))) with (nHeight b) by lia. by apply (anc_height tip p bt b).
Qed.

End Tree.
End Paths.

(** ** [FindMostWorkChain] *)
Module MostWork.
Export SameCore Order Paths.

Section Walk.
Context (m : BlockMap) (Hwf : wf_tree m) (tip : uint256) (c : CChain) (Hc : chain_of m tip c).

(** All blocks from [p] down to the active chain have their transactions. *)
Definition linked (p : uint256) : Prop :=
  ∀ q b, anc m p q → Some q ∉ c → m !! q = Some b → nChainTx b ≠ 0.

Lemma linked_prev p b q : m !! p = Some b → pprev b = Some q → linked p → linked q.
Proof. intros Hb Hq Hl r d Hr. apply Hl. by eapply anc_trans; [by eapply anc_step|]. Qed.

Lemma on_chain_below p q : Some p ∈ c → anc m p q → Some q ∈ c.
Proof. rewrite !(chain_of_elem m Hwf tip c) by done. apply anc_trans. Qed.

Lemma find_unusable_spec fuel p b :
  m !! p = Some b → (Z.to_nat (nHeight b) < fuel)%nat → linked p →
  match find_unusable fuel m c (Some p) with
  | Ok None => ∀ q d, anc m p q → Some q ∉ c → m !! q = Some d → usable d = true
  | Ok (Some (t, f)) => anc m p t ∧ ∃ d, m !! t = Some d ∧ usable d = false ∧ f = failed d ∧ nChainTx d ≠ 0
  | Err _ => False
  end.
Proof.
  revert p b. induction fuel as [|fuel IH]; intros p b Hb Hf Hl; [lia|]. cbn [find_unusable].
  rewrite (Contains_spec m Hwf tip c p b Hc Hb). cbn [rbind]. case_bool_decide as Hin.
  { intros q d Hq Hn. by apply (on_chain_below p q Hin) in Hq. }
  unfold deref. rewrite Hb. cbn [rbind].
  pose proof (Hl p b (anc_refl m p b Hb) Hin Hb) as Htx.
  assert (HaveNumChainTxs b || (nHeight b =? 0) = true) as -> by (unfold HaveNumChainTxs; lia). cbn [require rbind].
  fold (failed b).
  destruct (failed b || (Z.land (nStatus b) BLOCK_HAVE_DATA =? 0)) eqn:Eu.
  { split; [by eapply anc_refl|]. exists b. split_and!; [done| |done|done]. unfold usable.
    destruct (failed b), (Z.land _ BLOCK_HAVE_DATA =? 0); done. }
  assert (usable b = true) as Hu.
  { unfold usable. destruct (failed b), (Z.land _ BLOCK_HAVE_DATA =? 0); done. }
  destruct (pprev b) as [q|] eqn:Eq.
  - destruct (Hwf p b Hb) as [_ Hp]. rewrite Eq in Hp. destruct Hp as [(d & Hd & Hh) _].
    destruct (Hwf q d Hd) as [H0 _].
    specialize (IH q d Hd ltac:(lia) (linked_prev p b q Hb Eq Hl)).
    pose proof (anc_step m Hwf p b q Hb Eq) as Hpq.
    destruct (find_unusable fuel m c (Some q)) as [[[t f]|]|]; [| |done].
    + destruct IH as [Ha Hd']. split; [by eapply anc_trans|done].
    + intros r e Hr Hn He. destruct (anc_cases m Hwf p b r Hb Hr) as [<-|(q' & Hq' & Hr')]; [by simplify_eq|].
      simplify_eq. by apply (IH r).
  - destruct fuel; cbn [find_unusable]; intros r e Hr Hn He;
      (destruct (anc_cases m Hwf p b r Hb Hr) as [<-|(q' & Hq' & _)]; [by simplify_eq|congruence]).
Qed.

End Walk.

(** ** Bookkeeping that activation does not disturb *)

(** Entries whose transactions are counted are those that have their data
    (nothing was pruned), every entry is valid as a header, and
    [m_failed_blocks] holds blocks that failed themselves. *)
Record books (cm : ChainstateManager) : Prop := {
  bk_data : ∀ p b, m_block_index (m_blockman cm) !! p = Some b → nTx b ≠ 0 ↔ Z.land (nStatus b) BLOCK_HAVE_DATA ≠ 0;
  bk_linked : ∀ p b, m_block_index (m_blockman cm) !! p = Some b → nChainTx b ≠ 0 → nTx b ≠ 0;
  bk_valid : ∀ p b, m_block_index (m_blockman cm) !! p = Some b → BLOCK_VALID_TREE <= Z.land (nStatus b) BLOCK_VALID_MASK;
  bk_failed : ∀ p, p ∈ m_failed_blocks cm →
    ∃ b, m_block_index (m_blockman cm) !! p = Some b ∧ Z.land (nStatus b) BLOCK_FAILED_VALID ≠ 0;
}.

(** A new status that forgets none of this. *)
Definition keeps (s s' : Z) : Prop :=
  Z.land s' BLOCK_HAVE_DATA = Z.land s BLOCK_HAVE_DATA ∧ Z.land s BLOCK_VALID_MASK <= Z.land s' BLOCK_VALID_MASK ∧
  (Z.land s BLOCK_FAILED_VALID ≠ 0 → Z.land s' BLOCK_FAILED_VALID ≠ 0).

Lemma keeps_lor s t : t = BLOCK_FAILED_VALID ∨ t = BLOCK_FAILED_CHILD → keeps s (Z.lor s t).
Proof.
  intros Ht. split_and!; rewrite ?Z.land_lor_distr_l.
  - destruct Ht as [-> | ->]; apply Z.lor_0_r.
  - destruct Ht as [-> | ->]; by rewrite Z.lor_0_r.
  - intros H [? _]%Z.lor_eq_0_iff. done.
Qed.

Lemma books_keep cm cm' :
  same_core (m_block_index (m_blockman cm)) (m_block_index (m_blockman cm')) →
  (∀ q b b', m_block_index (m_blockman cm) !! q = Some b → m_block_index (m_blockman cm') !! q = Some b' →
     keeps (nStatus b) (nStatus b')) →
  (∀ q, q ∈ m_failed_blocks cm' → q ∈ m_failed_blocks cm ∨
     ∃ b, m_block_index (m_blockman cm') !! q = Some b ∧ Z.land (nStatus b) BLOCK_FAILED_VALID ≠ 0) →
  books cm → books cm'.
Proof.
  intros Hs Hk Hf [Hd Hl Hv Hb].
  assert (∀ p b', m_block_index (m_blockman cm') !! p = Some b' → ∃ b, m_block_index (m_blockman cm) !! p = Some b ∧
    nTx b' = nTx b ∧ nChainTx b' = nChainTx b ∧ keeps (nStatus b) (nStatus b')) as Hold.
  { intros p b' Hp. destruct (proj2 Hs p b' Hp) as (b & Hp0 & Ec). exists b.
    destruct (core_counters _ _ Ec) as (-> & -> & _). split_and!; try done; by apply (Hk p b b'). }
  split.
  - intros p b' (b & Hp & -> & _ & (-> & _))%Hold. by apply (Hd p).
  - intros p b' (b & Hp & -> & -> & _)%Hold. by apply (Hl p).
  - intros p b' (b & Hp & _ & _ & (_ & Hle & _))%Hold. specialize (Hv p b Hp). lia.
  - intros q Hq. destruct (Hf q Hq) as [Hq0|?]; [|done]. destruct (Hb q Hq0) as (b & Hq1 & Hfv).
    destruct (proj1 Hs q b Hq1) as (b' & Hq' & _). exists b'. split; [done|]. by apply (Hk q b b' Hq1 Hq').
Qed.

Section Settle.
Context {C : Type} `{!BlockEngine C} (addr : uint256 → Z) `{!Inj (=) (=) addr}.
(** The blocks that break a rule. *)
Context {bad : uint256 → Prop}.
Implicit Types (st : Chainstate C).

(** What excuses a failure mark on [p]: a block below has one, or is bad. *)
Definition guilty (m : BlockMap) (p : uint256) : Prop :=
  ∃ q b, anc m p q ∧ m !! q = Some b ∧ (failed b = true ∨ is_Some (pprev b) ∧ bad q).
(** The marks of [m'] are excused by [m]. *)
Definition blamed (m m' : BlockMap) : Prop := ∀ p b, m' !! p = Some b → failed b = true → guilty m p.

Lemma blamed_refl m : blamed m m.
Proof. intros p b Hb Hf. exists p, b. split_and!; [by eapply anc_refl|done|by left]. Qed.

Lemma guilty_above m p q : anc m p q → guilty m q → guilty m p.
Proof. intros Ha (r & b & Hr & Hb). exists r, b. split; [by eapply anc_trans|done]. Qed.

Lemma blamed_trans m m1 m2 : same_core m m1 → blamed m m1 → blamed m1 m2 → blamed m m2.
Proof.
  intros Hs H1 H2 p b Hb Hf. destruct (H2 p b Hb Hf) as (q & d & Ha & Hd & Hq). apply (anc_same m m1) in Ha; [|done].
  apply (guilty_above m p q Ha). destruct Hq as [Hq|[Hp Hq]]; [by apply (H1 q d)|].
  destruct (proj2 Hs q d Hd) as (d0 & Hd0 & Ec). exists q, d0. split_and!; [by eapply anc_refl|done|right].
  destruct (core_fields _ _ Ec) as (E & _). split; [congruence|done].
Qed.

Definition pointer_ok (m : BlockMap) (p : option uint256) : Prop := ∀ q, p = Some q → is_Some (m !! q).

(** [st'] differs from [st] in what is known of blocks with an unusable block
    below them. *)
Record settles st st' : Prop := {
  se_core : same_core (index st) (index st');
  se_kept : ∀ q, index st' !! q = index st !! q ∨ tainted (index st) q;
  se_usable : ∀ q b b', index st !! q = Some b → index st' !! q = Some b' → usable b = false → usable b' = false;
  se_failed : ∀ q b b', index st !! q = Some b → index st' !! q = Some b' → failed b = true → failed b' = true;
  se_cands : setBlockIndexCandidates st' ⊆ setBlockIndexCandidates st;
  se_stay : ∀ q, q ∈ setBlockIndexCandidates st → q ∈ setBlockIndexCandidates st' ∨ tainted (index st) q;
  se_chain : m_chain st' = m_chain st;
  se_coins : coins_tip st' = coins_tip st;
  se_files : block_files st' = block_files st;
  se_header : m_best_header st' = m_best_header st;
  se_invalid : pointer_ok (index st) (m_best_invalid st) → pointer_ok (index st') (m_best_invalid st');
  se_books : books (chainman st) → books (chainman st') ∧ m_blocks_unlinked st' = m_blocks_unlinked st;
  se_blame : blamed (index st) (index st');
}.

Lemma same_core_lookup m m' (q : uint256) : same_core m m' → is_Some (m !! q) → is_Some (m' !! q).
Proof. intros [H _] [b Hb]. destruct (H q b Hb) as (b' & -> & _). eauto. Qed.

Lemma pointer_same m m' p : same_core m m' → pointer_ok m p → pointer_ok m' p.
Proof. intros Hs Hp q Hq. eapply same_core_lookup; [done|by apply Hp]. Qed.

Lemma settles_refl st : settles st st.
Proof. split; try done; try (intros; simplify_eq; auto; fail). apply blamed_refl. Qed.

Lemma tainted_above m p q : anc m p q → tainted m q → tainted m p.
Proof. intros Ha (r & b & Hr & Hb). exists r, b. split; [by eapply anc_trans|done]. Qed.

Lemma settles_tainted st st' q : settles st st' → tainted (index st') q ↔ tainted (index st) q.
Proof.
  intros [Hs Hk Hu _ _ _ _ _ _ _ _ _ _]. split; intros (t & b & Ha & Hb & Hub).
  - apply (anc_same _ _ _ _ Hs) in Ha. destruct (Hk t) as [E|Ht]; [|by eapply tainted_above].
    exists t, b. split_and!; [done|congruence|done].
  - destruct (proj1 Hs t b Hb) as (b' & Hb' & _). exists t, b'.
    split_and!; [by apply (anc_same _ _ _ _ Hs)|done|by eapply Hu].
Qed.

Lemma settles_trans st st1 st2 : settles st st1 → settles st1 st2 → settles st st2.
Proof.
  intros H1 H2. pose proof (fun q => settles_tainted st st1 q H1) as Ht.
  destruct H1 as [Hs Hk Hu Hf Hc Hst E1 E2 E3 E4 Hi HB Hg]. destruct H2 as [Hs' Hk' Hu' Hf' Hc' Hst' E1' E2' E3' E4' Hi' HB' Hg'].
  split; try congruence.
  - by etrans.
  - intros q. destruct (Hk' q) as [->|Hq]; [apply Hk|]. right. by apply Ht in Hq.
  - intros q b b' Hb Hb' Hub. destruct (proj1 Hs q b Hb) as (b1 & Hb1 & _). by eapply Hu', Hu.
  - intros q b b' Hb Hb' Hub. destruct (proj1 Hs q b Hb) as (b1 & Hb1 & _). by eapply Hf', Hf.
  - etrans; [exact Hc'|exact Hc].
  - intros q Hq. destruct (Hst q Hq) as [Hq1|?]; [|by right]. destruct (Hst' q Hq1) as [?|Hq2]; [by left|].
    right. by apply Ht in Hq2.
  - auto.
  - intros [Hb1 <-]%HB. by apply HB'.
  - by eapply blamed_trans.
Qed.

Lemma failed_mark b t : t = BLOCK_FAILED_VALID ∨ t = BLOCK_FAILED_CHILD → failed (with_status b (Z.lor (nStatus b) t)) = true.
Proof.
  intros Ht. unfold failed. cbn [nStatus with_status]. rewrite negb_true_iff, Z.eqb_neq, Z.land_lor_distr_l.
  intros [_ E]%Z.lor_eq_0_iff. by destruct Ht as [-> | ->].
Qed.

Lemma failed_unusable b : failed b = true → usable b = false.
Proof. unfold usable. by intros ->. Qed.

(** Marking a tainted block. *)
Lemma settles_mark st p b t : t = BLOCK_FAILED_VALID ∨ t = BLOCK_FAILED_CHILD → index st !! p = Some b → tainted (index st) p →
  guilty (index st) p →
  ∃ st', set_status st p (fun s => Z.lor s t) = Ok st' ∧ settles st st' ∧
    setBlockIndexCandidates st' = setBlockIndexCandidates st ∧ ∀ q, q ≠ p → index st' !! q = index st !! q.
Proof.
  intros Hf Hb Ht Hgu. unfold set_status, deref. rewrite Hb. cbn [rbind]. eexists. split; [done|].
  assert (∀ q b0 b', index st !! q = Some b0 →
    <[p := with_status b (Z.lor (nStatus b) t)]> (index st) !! q = Some b' → b' = b0 ∨ failed b' = true) as Hcase.
  { intros q b0 b' H0 [[<- <-]|[_ H']]%lookup_insert_Some; [right; by apply failed_mark|left; congruence]. }
  split; [|split; [done|by intros q Hq; apply lookup_insert_ne]].
  split; try done; cbn.
  - by apply with_status_same.
  - intros q. destruct (decide (q = p)) as [->|Hn]; [by right|left; by apply lookup_insert_ne].
  - intros q b0 b' H0 H' Hu. destruct (Hcase q b0 b' H0 H') as [->|?]; [done|by apply failed_unusable].
  - intros q b0 b' H0 H' Hu. by destruct (Hcase q b0 b' H0 H') as [->|?].
  - auto.
  - by apply pointer_same, with_status_same.
  - intros Hbk. split; [|done]. revert Hbk. apply books_keep; cbn; [by apply with_status_same| |by left].
    intros q b0 b' H0 [[<- <-]|[_ H']]%lookup_insert_Some.
    + assert (b0 = b) as -> by (unfold index in Hb; congruence). by apply keeps_lor.
    + unfold index in H'. assert (b' = b0) as -> by congruence. by split_and!.
  - intros q d [[<- _]|[_ Hd]]%lookup_insert_Some; [done|by apply blamed_refl].
Qed.

(** Changes next to the index. *)
Lemma settles_beside st st' :
  chainman st' = chainman st → (books (chainman st) → m_blocks_unlinked st' = m_blocks_unlinked st) → setBlockIndexCandidates st' ⊆ setBlockIndexCandidates st →
  (∀ q, q ∈ setBlockIndexCandidates st → q ∈ setBlockIndexCandidates st' ∨ tainted (index st) q) →
  m_chain st' = m_chain st → coins_tip st' = coins_tip st → block_files st' = block_files st →
  pointer_ok (index st) (m_best_invalid st') ∨ m_best_invalid st' = m_best_invalid st → settles st st'.
Proof.
  intros Hi HB Hsub Hst E1 E2 E3 Hp. unfold index, m_best_header in *.
  split; unfold index, m_best_header; rewrite ?Hi; try done; try (intros; simplify_eq; auto; fail).
  - destruct Hp as [?| ->]; auto.
  - apply blamed_refl.
Qed.

Lemma settles_erase st p : tainted (index st) p → settles st (erase_candidate st p).
Proof.
  intros Ht. apply settles_beside; try done; [cbn; set_solver| |by right].
  intros q Hq. destruct (decide (q = p)) as [->|]; [by right|left; cbn; set_solver].
Qed.

Lemma settles_unlinked st l : ¬ books (chainman st) → settles st (set_unlinked st l).
Proof. intros Hn. apply settles_beside; try done; auto. Qed.

Lemma remove_chain_spec fuel st p t f b d :
  wf_tree (index st) → index st !! p = Some b → index st !! t = Some d → usable d = false → f = failed d →
  anc (index st) p t → (f = false → ¬ books (chainman st)) → (Z.to_nat (nHeight b - nHeight d) <= fuel)%nat →
  ∃ st', remove_chain fuel st t f p = Ok st' ∧ settles st st' ∧ index st' !! t = Some d ∧
    (p ∈ setBlockIndexCandidates st' → p = t).
Proof.
  revert st p b. induction fuel as [|fuel IH]; intros st p b Hwf Hb Hd Hu Hfd Ha HB Hf; cbn [remove_chain];
    (case_bool_decide as Et; [exists st; by split_and!; [|apply settles_refl|..]|]);
    (destruct (anc_cases _ Hwf p b t Hb Ha) as [->|(q & Hq & Hqt)]; [done|]);
    pose proof (Hwf p b Hb) as [_ Hp]; rewrite Hq in Hp; destruct Hp as [(e & He & Hh) _];
    destruct (anc_lookup _ Hwf q t Hqt) as (e' & d' & He' & Hd' & Hle);
    (assert (e' = e) as -> by congruence); (assert (d' = d) as -> by congruence); [lia|].
  assert (tainted (index st) p) as Htp by (by exists t, d).
  unfold deref. rewrite Hb. cbn [rbind]. rewrite Hq.
  assert (∃ st1, (if f then set_status st p (fun s => Z.lor s BLOCK_FAILED_CHILD)
                  else Ok (set_unlinked st (m_blocks_unlinked st ++ [(q, p)]))) = Ok st1 ∧ settles st st1 ∧
            (∀ r, r ≠ p → index st1 !! r = index st !! r) ∧ (f = false → chainman st1 = chainman st)) as (st1 & -> & Hs1 & Hk1 & HB1).
  { destruct f.
    { assert (guilty (index st) p) as Hgp by (exists t, d; by split_and!; [..|left]).
      destruct (settles_mark st p b _ (or_intror eq_refl) Hb Htp Hgp) as (st1 & ? & ? & _ & ?). exists st1. by split_and!. }
    eexists. split_and!; [done|by apply settles_unlinked, HB|done|done]. }
  cbn [rbind]. pose proof (se_core _ _ Hs1) as Hc1. set (st2 := erase_candidate st1 p).
  assert (settles st st2) as Hs2.
  { eapply settles_trans; [done|]. apply settles_erase. by apply (settles_tainted st st1). }
  assert (q ≠ p) as Hqp by (intros ->; rewrite Hb in He; simplify_eq; lia).
  destruct (IH st2 q e) as (st' & E & Hs' & Ht' & Hin); [by apply (wf_tree_same (index st))| | |done|done| | |lia|].
  { change (index st1 !! q = Some e). by rewrite Hk1. }
  { change (index st1 !! t = Some d). by rewrite Hk1. }
  { by apply (anc_same (index st) (index st1)). }
  { intros Ef. change (chainman st2) with (chainman st1). rewrite HB1; auto. }
  exists st'. split_and!; [done|by eapply settles_trans|done|].
  intros Hp'%(se_cands _ _ Hs'). cbn in Hp'. set_solver.
Qed.

Lemma linked_same m m' c p : same_core m m' → linked m c p → linked m' c p.
Proof.
  intros Hs Hl q b' Ha Hn Hb'. destruct (proj2 Hs q b' Hb') as (b & Hb & Ec).
  destruct (core_counters _ _ Ec) as (_ & <- & _). by apply (Hl q b); [apply (anc_same m m')|..].
Qed.

(** What the loop needs of the candidates. *)
Record searchable st (tip : uint256) : Prop := {
  sc_tree : wf_tree (index st);
  sc_chain : chain_of (index st) tip (m_chain st);
  sc_known : ∀ p, p ∈ setBlockIndexCandidates st → known (index st) p ∧ linked (index st) (m_chain st) p;
  sc_invalid : pointer_ok (index st) (m_best_invalid st);
}.

Lemma settles_searchable st st' tip : settles st st' → searchable st tip → searchable st' tip.
Proof.
  intros [Hs _ _ _ Hc _ E _ _ _ Hi _ _] [Ht Hch Hk Hp]. split.
  - by eapply wf_tree_same.
  - rewrite E. by eapply chain_of_same.
  - intros p Hp'%Hc. rewrite E. destruct (Hk p Hp') as [? ?].
    split; [by eapply known_same|by eapply linked_same].
  - auto.
Qed.

(** The candidate turned out unusable: it is removed. *)
Lemma drop_candidate st tip p b t d (better : bool) :
  searchable st tip → p ∈ setBlockIndexCandidates st → index st !! p = Some b →
  index st !! t = Some d → usable d = false → nChainTx d ≠ 0 → anc (index st) p t →
  ∃ st', remove_chain (S (Z.to_nat (nHeight b))) (if failed d && better then set_best_invalid st (Some p) else st)
           t (failed d) p = Ok st' ∧ settles st (erase_candidate st' t) ∧
    (size (setBlockIndexCandidates (erase_candidate st' t)) < size (setBlockIndexCandidates st))%nat.
Proof.
  intros [Hwf _ _ _] Hp Hb Hd Hu Htx Ha. set (st0 := if failed d && better then _ else st).
  assert (settles st st0) as Hs0.
  { unfold st0. destruct (failed d && better); [|apply settles_refl]. apply settles_beside; try done; [by auto|].
    left. intros q [= <-]. eauto. }
  assert (index st0 = index st) as E0 by (unfold st0; by destruct (failed d && better)).
  assert (setBlockIndexCandidates st0 = setBlockIndexCandidates st) as Ec0 by (unfold st0; by destruct (failed d && better)).
  destruct (Hwf t d Hd) as [H0 _].
  destruct (remove_chain_spec (S (Z.to_nat (nHeight b))) st0 p t (failed d) b d) as (st' & E & Hs & Ht & Hin);
    rewrite ?E0; [done..| |lia|].
  { intros Ef Hbk. assert (chainman st0 = chainman st) as Em by (unfold st0; by rewrite Ef). rewrite Em in Hbk.
    unfold usable in Hu. rewrite Ef in Hu. apply (proj1 (bk_data _ Hbk t d Hd)); [by apply (bk_linked _ Hbk t)|]. cbn in Hu. lia. }
  exists st'. split; [done|].
  assert (settles st (erase_candidate st' t)) as Hs'.
  { eapply settles_trans; [exact Hs0|]. eapply settles_trans; [exact Hs|]. apply settles_erase.
    exists t, d. split_and!; [by eapply anc_refl|done|done]. }
  split; [done|]. apply subset_size. pose proof (se_cands _ _ Hs') as Hsub.
  split; [exact Hsub|]. intros Hsup. apply Hsup in Hp. cbn in Hp. set_solver.
Qed.

Lemma find_most_work_spec fuel st tip :
  searchable st tip → (size (setBlockIndexCandidates st) <= fuel)%nat →
  ∃ r st', find_most_work_loop addr fuel st = Ok (r, st') ∧ settles st st' ∧
    match r with
    | None => setBlockIndexCandidates st' = ∅
    | Some p => p ∈ setBlockIndexCandidates st' ∧ (∀ q, q ∈ setBlockIndexCandidates st' → ¬ lt addr (index st') p q) ∧
        (∀ q d, anc (index st') p q → Some q ∉ m_chain st' → index st' !! q = Some d → usable d = true)
    end.
Proof.
  revert st. induction fuel as [|fuel IH]; intros st Hsc Hf; pose proof Hsc as [Hwf Hch Hk Hi];
    pose proof (last_candidate_spec addr (index st) (setBlockIndexCandidates st) (fun p Hp => proj1 (Hk p Hp))) as Hl;
    cbn [find_most_work_loop]; (destruct (last_candidate _ _ _) as [p|]; [|exists None, st; by split_and!; [|apply settles_refl|]]);
    destruct Hl as [Hp Hmax].
  { exfalso. assert (size (setBlockIndexCandidates st) ≠ 0%nat); [|lia]. apply size_non_empty_iff. set_solver. }
  destruct (Hk p Hp) as [(b & Hb & Hw) Hlk]. unfold deref at 1. rewrite Hb. cbn [rbind].
  pose proof (find_unusable_spec (index st) Hwf tip (m_chain st) Hch (S (Z.to_nat (nHeight b))) p b Hb ltac:(lia) Hlk) as Hfu.
  destruct (find_unusable _ _ _ _) as [[[t f]|]|]; [|exists (Some p), st; by split_and!; [|apply settles_refl|..]|done].
  destruct Hfu as (Ha & d & Hd & Hu & -> & Htx). cbn [rbind].
  assert (∃ better, match m_best_invalid st with None => Ok true
    | Some q => let! c := deref (index st) q in Ok (op_gt (nChainWork b) (nChainWork c)) end = Ok better) as [better ->].
  { destruct (m_best_invalid st) as [q|] eqn:Eq; [|by eexists]. destruct (Hi q eq_refl) as [c Hc].
    unfold deref. rewrite Hc. by eexists. }
  cbn [rbind]. destruct (drop_candidate st tip p b t d better Hsc Hp Hb Hd Hu Htx Ha) as (st' & -> & Hs & Hlt). cbn [rbind].
  destruct (IH (erase_candidate st' t)) as (r & st2 & -> & Hs2 & Hr); [by eapply settles_searchable|lia|].
  exists r, st2. split_and!; [done|by eapply settles_trans|done].
Qed.

Lemma FindMostWorkChain_spec st tip :
  searchable st tip →
  ∃ r st', FindMostWorkChain addr st = Ok (r, st') ∧ settles st st' ∧
    match r with
    | None => setBlockIndexCandidates st' = ∅
    | Some p => p ∈ setBlockIndexCandidates st' ∧ (∀ q, q ∈ setBlockIndexCandidates st' → ¬ lt addr (index st') p q) ∧
        (∀ q d, anc (index st') p q → Some q ∉ m_chain st' → index st' !! q = Some d → usable d = true)
    end.
Proof. intros Hsc. by apply (find_most_work_spec _ st tip). Qed.

End Settle.

#[global] Arguments guilty bad m p : clear implicits.
#[global] Arguments blamed bad m m' : clear implicits.
#[global] Arguments settles {C} bad st st'.
End MostWork.

(** ** From the fork to the block with the most work *)
Module Walks.
Import SameCore Paths.

(** [l] are successive blocks on top of [q]. *)
Fixpoint path (m : BlockMap) (q : uint256) (l : list uint256) : Prop :=
  match l with
  | [] => True
  | x :: l => (∃ b, m !! x = Some b ∧ pprev b = Some q) ∧ path m x l
  end.

Lemma last_default {A} (l : list A) x q : List.last (x :: l) q = List.last l x.
Proof.
  revert x q. induction l as [|y l IH]; intros x q; [done|]. change (List.last (y :: l) q = List.last (y :: l) x).
  by rewrite !IH.
Qed.

Lemma path_app m q l1 l2 : path m q (l1 ++ l2) ↔ path m q l1 ∧ path m (List.last l1 q) l2.
Proof.
  revert q. induction l1 as [|x l1 IH]; intros q; cbn [path app]; [tauto|].
  rewrite IH, last_default. tauto.
Qed.

Lemma path_same m m' q l : same_core m m' → path m q l → path m' q l.
Proof.
  intros Hs. revert q. induction l as [|x l IH]; intros q; cbn [path]; [done|].
  intros [(b & Hb & Hq) Hl]. split; [|by apply IH]. destruct (proj1 Hs x b Hb) as (b' & Hb' & Ec).
  exists b'. split; [done|]. by destruct (core_fields _ _ Ec) as (-> & _).
Qed.

Section Tree.
Context (m : BlockMap) (Hwf : wf_tree m).

Lemma parent_height p b q : m !! p = Some b → pprev b = Some q → ∃ c, m !! q = Some c ∧ nHeight b = nHeight c + 1.
Proof.
  intros Hb Hq. destruct (Hwf p b Hb) as [_ Hp]. rewrite Hq in Hp. destruct Hp as [(c & Hc & Hh) _].
  exists c. split; [done|lia].
Qed.

Lemma path_anc q d l : m !! q = Some d → path m q l → ∀ x, x ∈ l → anc m x q ∧ x ≠ q.
Proof.
  revert q d. induction l as [|y l IH]; intros q d Hd Hl x Hx; [by apply elem_of_nil in Hx|].
  destruct Hl as [(b & Hb & Hq) Hl]. pose proof (anc_step m Hwf y b q Hb Hq) as Hyq.
  destruct (parent_height y b q Hb Hq) as (d' & Hd' & Hh). assert (d' = d) as -> by congruence.
  apply elem_of_cons in Hx as [->|Hx]; [split; [done|intros ->; simplify_eq; lia]|].
  destruct (IH y b Hb Hl x Hx) as [Ha _]. split; [by eapply anc_trans|]. intros ->.
  destruct (anc_lookup m Hwf q y Ha) as (? & ? & ? & ? & ?). simplify_eq. lia.
Qed.

Lemma to_connect_spec fuel p b q c :
  m !! p = Some b → m !! q = Some c → anc m p q → (Z.to_nat (nHeight b - nHeight c) <= fuel)%nat →
  ∃ l, to_connect fuel m (Some p) (nHeight c) = Ok l ∧ path m q (rev l) ∧ List.last (rev l) q = p ∧
    (p ≠ q → hd p l = p ∧ l ≠ []) ∧ ∀ x, x ∈ l → anc m p x ∧ ∃ d, m !! x = Some d ∧ nHeight c < nHeight d.
Proof.
  revert p b. induction fuel as [|fuel IH]; intros p b Hb Hc Ha Hf; cbn [to_connect]; unfold deref; rewrite Hb; cbn [rbind];
    destruct (anc_lookup m Hwf p q Ha) as (b' & c' & Hb' & Hc' & Hle); simplify_eq.
  - replace (nHeight b =? nHeight c) with true by lia. exists [].
    assert (p = q) as ->.
    { destruct (anc_cases m Hwf p b q Hb Ha) as [?|(r & Hr & Hrq)]; [done|].
      destruct (parent_height p b r Hb Hr) as (d & Hd & Hh). destruct (anc_lookup m Hwf r q Hrq) as (? & ? & ? & ? & ?).
      simplify_eq. lia. }
    split_and!; try done. intros x Hx%elem_of_nil. done.
  - destruct (Z.eqb_spec (nHeight b) (nHeight c)) as [E|E].
    + exists []. split_and!; try done; [|intros Hn; exfalso; apply Hn|intros x Hx%elem_of_nil; done];
        (destruct (anc_cases m Hwf p b q Hb Ha) as [?|(r & Hr & Hrq)]; [done|];
         destruct (parent_height p b r Hb Hr) as (d & Hd & Hh); destruct (anc_lookup m Hwf r q Hrq) as (? & ? & ? & ? & ?);
         simplify_eq; lia).
    + destruct (anc_cases m Hwf p b q Hb Ha) as [->|(r & Hr & Hrq)]; [simplify_eq; done|].
      destruct (parent_height p b r Hb Hr) as (d & Hd & Hh). rewrite Hr.
      destruct (IH r d Hd Hc Hrq ltac:(lia)) as (l & -> & Hl & Hlast & _ & Hin). cbn [rbind].
      exists (p :: l). split_and!; [done| |by cbn [rev]; rewrite List.last_last|done|].
      * cbn [rev]. apply path_app. split; [done|]. rewrite Hlast. split; [eauto|done].
      * intros x [->|Hx]%elem_of_cons; [split; [by eapply anc_refl|exists b; split; [done|lia]]|].
        destruct (Hin x Hx) as [Hax ?]. split; [|done]. eapply anc_trans; [by eapply anc_step|done].
Qed.

(** ** [FindFork] *)

Context (tip : uint256) (c : CChain) (Hch : chain_of m tip c).

Lemma at_height_elem p b : m !! p = Some b → at_height c (nHeight b) = Some p ↔ Some p ∈ c.
Proof.
  intros Hb. pose proof (Contains_spec m Hwf tip c p b Hch Hb) as H. unfold Contains, deref in H. rewrite Hb in H.
  injection H as H. by rewrite <- (bool_decide_eq_true (at_height _ _ = _)), <- (bool_decide_eq_true (Some p ∈ c)), H.
Qed.

Lemma find_fork_loop_spec fuel p b g :
  m !! p = Some b → (Z.to_nat (nHeight b) < fuel)%nat → anc m p g → Some g ∈ c →
  ∃ f, find_fork_loop fuel m c (Some p) = Ok (Some f) ∧ anc m p f ∧ Some f ∈ c ∧ ∀ q, anc m p q → Some q ∈ c → anc m f q.
Proof.
  revert p b. induction fuel as [|fuel IH]; intros p b Hb Hf Hg Hin; [lia|]. cbn [find_fork_loop]. unfold deref. rewrite Hb.
  case_bool_decide as E; rewrite (at_height_elem p b Hb) in E.
  { exists p. split_and!; [done|by eapply anc_refl|done|done]. }
  destruct (anc_cases m Hwf p b g Hb Hg) as [->|(r & Hr & Hrg)]; [done|]. rewrite Hr.
  destruct (parent_height p b r Hb Hr) as (d & Hd & Hh). destruct (Hwf r d Hd) as [H0 _].
  destruct (IH r d Hd ltac:(lia) Hrg Hin) as (f & Ef & Haf & Hfc & Hmax).
  exists f. split_and!; [done|by eapply anc_trans; [eapply anc_step|]|done|].
  intros q Hq Hqc. destruct (anc_cases m Hwf p b q Hb Hq) as [->|(r' & Hr' & Hq')]; [done|].
  simplify_eq. by apply Hmax.
Qed.

Lemma Height_chain bt : m !! tip = Some bt → Height c = nHeight bt.
Proof. intros Hb. destruct Hch as (b & Hb' & Hl & _). destruct (Hwf tip b Hb') as [H0 _]. unfold Height. assert (b = bt) by congruence. subst b. lia. Qed.

Lemma FindFork_spec p b g :
  m !! p = Some b → anc m p g → Some g ∈ c →
  ∃ f, FindFork m c (Some p) = Ok (Some f) ∧ anc m p f ∧ Some f ∈ c ∧ ∀ q, anc m p q → Some q ∈ c → anc m f q.
Proof.
  intros Hb Hg Hin. unfold FindFork, deref. rewrite Hb.
  destruct Hch as (bt & Hbt & _ & _). destruct (Hwf tip bt Hbt) as [Ht0 _]. rewrite (Height_chain bt Hbt).
  destruct (Hwf p b Hb) as [Hp0 _].
  assert (∀ q, Some q ∈ c → ∃ d, m !! q = Some d ∧ nHeight d <= nHeight bt) as Hlow.
  { intros q Hq%(chain_of_elem m Hwf tip c q Hch). destruct (anc_lookup m Hwf tip q Hq) as (? & d & ? & ? & ?).
    simplify_eq. eauto. }
  set (h := Z.min (nHeight b) (nHeight bt)).
  assert (∃ q d, (if nHeight b >? nHeight bt then GetAncestor m p (nHeight bt) else Ok (Some p)) = Ok (Some q) ∧
    m !! q = Some d ∧ nHeight d = h ∧ is_anc m p h q) as (q & d & -> & Hd & Hh & Hq).
  { destruct (ancestor_or_self m Hwf p b h Hb ltac:(lia)) as (q & d & E & ?). exists q, d. split; [|done]. rewrite <- E.
    unfold h. rewrite !Z.gtb_ltb. destruct (Z.ltb_spec (nHeight bt) (nHeight b)), (Z.ltb_spec (Z.min (nHeight b) (nHeight bt)) (nHeight b)); try lia; [|done].
    do 2 f_equal. lia. }
  assert (∀ r, anc m p r → Some r ∈ c → anc m q r) as Hbelow.
  { intros r Hr Hrc. destruct (Hlow r Hrc) as (e & He & Hle). exists (nHeight e).
    destruct (anc_lookup m Hwf p r Hr) as (b1 & e1 & Hb1 & He1 & Hle'). rewrite Hb in Hb1. rewrite He in He1.
    injection Hb1 as <-. injection He1 as <-. apply (is_anc_split m Hwf p h); [done|by eapply anc_height|lia]. }
  destruct (find_fork_loop_spec (S (Z.to_nat (nHeight b))) q d g Hd ltac:(lia) (Hbelow g Hg Hin) Hin) as (f & Ef & Haf & Hfc & Hmax).
  exists f. split_and!; [done|eapply anc_trans; [by exists h|done]|done|]. intros r Hr Hrc. apply Hmax; [by apply Hbelow|done].
Qed.

End Tree.
End Walks.
