(* ===== verification/ChainActivation.v ===== *)
(** [ActivateBestChain]: against any engine whose verdict on a block is a
    function of the block's chain, the active chain becomes the valid chain with
    the most work, in a bounded number of steps. *)
From Stdlib Require Import ZArith Lia.
From stdpp Require Import gmap.
From S2P Require Import Prelude Arith256 Chain Params Headers Transaction Block ChainSelection ChainSelectionFacts.
Import Arith256.BaseUint Arith256.BaseUintFacts Chain ChainFacts Headers HeadersFacts Block ChainSelection MostWork.
Local Open Scope bb_scope.

(** ** What chain selection relies on *)
Module EngineInterface.

(** Connecting a block changes neither its failure flags nor that its data is
    there, and does not lower its level of validity. *)
Definition raises (s s' : Z) : Prop :=
  Z.land s' BLOCK_FAILED_MASK = Z.land s BLOCK_FAILED_MASK ∧
  Z.land s' BLOCK_HAVE_DATA = Z.land s BLOCK_HAVE_DATA ∧
  Z.land s BLOCK_VALID_MASK <= Z.land s' BLOCK_VALID_MASK.

(** [holds ch c]: [c] are the coins of chain [ch].  [block_of p blk]: [blk] is the
    block of entry [p].  [connectable p]: block [p] is valid on top of its
    ancestors. *)
Class EngineLaws (C : Type) `{!BlockEngine C} (m0 : BlockMap) (block_of : uint256 → CBlock → Prop)
    (holds : CChain → C → Prop) (connectable : uint256 → Prop) : Prop := {
  law_connect bm blk p b q ch c :
    same_core m0 (m_block_index bm) → m_block_index bm !! p = Some b → pprev b = Some q → chain_of m0 q ch →
    block_of p blk → holds ch c →
    (connectable p ∧ ∃ c' s, connect_block bm blk p c = Ok (Connected c' s) ∧ holds (ch ++ [Some p]) c' ∧ raises (nStatus b) s) ∨
    (¬ connectable p ∧ connect_block bm blk p c = Ok (BlockInvalid false));
  law_disconnect bm blk p b q ch c :
    same_core m0 (m_block_index bm) → m_block_index bm !! p = Some b → pprev b = Some q → chain_of m0 q ch →
    block_of p blk → holds (ch ++ [Some p]) c →
    ∃ c', disconnect_block bm blk p c = Ok (Some c') ∧ holds ch c';
  law_flush ch c : holds ch c → ∃ c', flush_state c = Some c' ∧ holds ch c';
  law_history ch c p b q : holds ch c → Some p ∈ ch → m0 !! p = Some b → pprev b = Some q → connectable p;
}.

End EngineInterface.

Module Activation.
Export EngineInterface Walks.

(** ** Entries that have not failed *)

Definition unfailed (m : BlockMap) : gset uint256 := dom (filter (fun e => failed e.2 = false) m).

Lemma elem_of_unfailed m p : p ∈ unfailed m ↔ ∃ b, m !! p = Some b ∧ failed b = false.
Proof.
  unfold unfailed. rewrite elem_of_dom. split.
  - intros [b [Hb Hf]%map_lookup_filter_Some]. eauto.
  - intros (b & Hb & Hf). exists b. by apply map_lookup_filter_Some.
Qed.

(** Failure flags are only added. *)
Definition failures_grow (m m' : BlockMap) : Prop :=
  ∀ q b b', m !! q = Some b → m' !! q = Some b' → failed b = true → failed b' = true.

Lemma unfailed_mono m m' : same_core m m' → failures_grow m m' → unfailed m' ⊆ unfailed m.
Proof.
  intros [_ Hs] Hf p. rewrite !elem_of_unfailed. intros (b' & Hb' & Hn). destruct (Hs p b' Hb') as (b & Hb & _).
  exists b. split; [done|]. destruct (failed b) eqn:E; [|done]. by rewrite (Hf p b b' Hb Hb' E) in Hn.
Qed.

Lemma unfailed_less m m' p b b' : same_core m m' → failures_grow m m' →
  m !! p = Some b → failed b = false → m' !! p = Some b' → failed b' = true →
  (size (unfailed m') < size (unfailed m))%nat.
Proof.
  intros Hs Hf Hb Hn Hb' Hn'. apply subset_size. split; [by apply unfailed_mono|]. intros Hsub.
  assert (p ∈ unfailed m') as Hp by (apply Hsub, elem_of_unfailed; eauto).
  apply elem_of_unfailed in Hp as (? & ? & ?). congruence.
Qed.

(** A block that can be connected once its ancestors are. *)
Definition eligible (m : BlockMap) (p : uint256) : Prop :=
  (∃ b, m !! p = Some b ∧ nChainTx b ≠ 0) ∧ ∀ q b, anc m p q → m !! q = Some b → usable b = true.

Lemma eligible_not_tainted m p : eligible m p → ¬ tainted m p.
Proof. intros [_ H] (q & b & Ha & Hb & Hu). specialize (H q b Ha Hb). congruence. Qed.

Lemma eligible_mono m m' p : same_core m m' →
  (∀ q b b', anc m p q → m !! q = Some b → m' !! q = Some b' → usable b = true → usable b' = true) →
  eligible m p → eligible m' p.
Proof.
  intros Hs Hu [(b & Hb & Htx) He]. destruct (proj1 Hs p b Hb) as (b' & Hb' & Ec). split.
  - exists b'. split; [done|]. by destruct (core_counters _ _ Ec) as (_ & -> & _).
  - intros q d' Hq%(anc_same m m' p q Hs) Hd'. destruct (proj2 Hs q d' Hd') as (d & Hd & _). by eapply Hu, He.
Qed.

Section Run.
Context {C : Type} `{!BlockEngine C} (addr : uint256 → Z) `{!Inj (=) (=) addr}.
Context (m0 : BlockMap) (block_of : uint256 → CBlock → Prop) (holds : CChain → C → Prop) (connectable : uint256 → Prop).
Context `{HL : !EngineLaws C m0 block_of holds connectable}.
(** The blocks that break a rule: those that cannot be connected are among them. *)
Context {bad : uint256 → Prop} (Hbad : ∀ p, ¬ connectable p → bad p).
Implicit Types (st : Chainstate C).

(** The tree, which does not change: chain work grows along it, it has one
    root, and transactions are counted from the root on. *)
Record tree_ok (genesis : uint256) : Prop := {
  to_wf : wf_tree m0;
  to_work : ∀ p b, m0 !! p = Some b → wf (nChainWork b) ∧
    ∀ q c, pprev b = Some q → m0 !! q = Some c → val (nChainWork c) < val (nChainWork b);
  to_root : ∀ p b, m0 !! p = Some b → pprev b = None → p = genesis;
  to_txs : ∀ p b q c, m0 !! p = Some b → nChainTx b ≠ 0 → pprev b = Some q → m0 !! q = Some c → nChainTx c ≠ 0;
}.

(** Every block from [p] down to the genesis is valid. *)
Definition valid_chain (p : uint256) : Prop :=
  ∀ q b r, anc m0 p q → m0 !! q = Some b → pprev b = Some r → connectable q.

(** The blocks the node should be able to connect: at the start nothing speaks
    against them, and they are valid. *)
Definition sound (p : uint256) : Prop := eligible m0 p ∧ valid_chain p.

(** The states a call of [ActivateBestChain] goes through: [mark] is the best
    tip so far. *)
Record run st (mark : uint256) : Prop := {
  rn_core : same_core m0 (index st);
  rn_tip : ∃ tip, chain_of m0 tip (m_chain st) ∧ ¬ lt addr m0 mark tip;
  rn_good : ∀ p b, Some p ∈ m_chain st → index st !! p = Some b → usable b = true;
  rn_cands : ∀ p, p ∈ setBlockIndexCandidates st → ∃ b, m0 !! p = Some b ∧ nChainTx b ≠ 0;
  rn_mark : mark ∈ setBlockIndexCandidates st ∧ eligible (index st) mark ∧ valid_chain mark;
  rn_complete : ∀ p, eligible (index st) p → ¬ lt addr m0 p mark → p ∈ setBlockIndexCandidates st;
  rn_sound : ∀ p, sound p → eligible (index st) p;
  rn_coins : holds (m_chain st) (coins_tip st);
  rn_files : ∀ p b, index st !! p = Some b → usable b = true → ∃ blk, block_files st !! p = Some blk ∧ block_of p blk;
  rn_invalid : pointer_ok (index st) (m_best_invalid st);
  rn_header : pointer_ok (index st) (m_best_header st);
}.

Context (genesis : uint256) (HT : tree_ok genesis).

(** ** Consequences *)

Lemma known_m0 p b : m0 !! p = Some b → known m0 p.
Proof. intros Hb. exists b. split; [done|]. by apply (to_work genesis HT p b). Qed.

Lemma eligible_known m p : same_core m0 m → eligible m p → known m0 p.
Proof.
  intros [_ Hs] [(b & Hb & _) _]. destruct (Hs p b Hb) as (b0 & Hb0 & _). by eapply known_m0.
Qed.

Lemma linked_txs m c p b : same_core m0 m → m0 !! p = Some b → nChainTx b ≠ 0 → linked m c p.
Proof.
  intros Hs Hb Htx q d' Ha _ Hd'. apply (anc_same m0 m) in Ha as [h Ha]; [|done].
  destruct (proj2 Hs q d' Hd') as (d & Hd & Ec). destruct (core_counters _ _ Ec) as (_ & <- & _).
  clear d' Hd' Ec. revert b Hb Htx Hd. induction Ha as [p b' Hb'|p b' q' h r Hb' Hq' Ha IH]; intros b Hb Htx Hd; [congruence|].
  destruct (parent_height m0 (to_wf genesis HT) p b' q' Hb' Hq') as (e & He & _).
  assert (b' = b) as -> by congruence. apply (IH e); [done| |done]. by apply (to_txs genesis HT p b q').
Qed.

(** Work grows towards the tip. *)
Lemma anc_work p q b c : anc m0 p q → m0 !! p = Some b → m0 !! q = Some c → p ≠ q →
  val (nChainWork c) < val (nChainWork b).
Proof.
  intros [h Ha]. revert b. induction Ha as [p b' Hb'|p b' q' h r Hb' Hq' Ha IH]; intros b Hb Hc Hn; [done|].
  assert (b' = b) as -> by congruence.
  destruct (parent_height m0 (to_wf genesis HT) p b q' Hb Hq') as (e & He & _).
  pose proof (proj2 (to_work genesis HT p b Hb) q' e Hq' He) as Hlt.
  destruct (decide (q' = r)) as [->|Hn']; [by simplify_eq|]. specialize (IH e He Hc Hn'). lia.
Qed.

Lemma anc_lt p q : anc m0 p q → p ≠ q → lt addr m0 q p.
Proof.
  intros Ha Hn. destruct (anc_lookup m0 (to_wf genesis HT) p q Ha) as (b & c & Hb & Hc & _).
  apply lt_work; [by eapply known_m0..|]. unfold entry. rewrite Hb, Hc. by apply (anc_work p q).
Qed.

Lemma anc_not_lt p q : anc m0 p q → ¬ lt addr m0 p q.
Proof.
  intros Ha. destruct (anc_lookup m0 (to_wf genesis HT) p q Ha) as (b & c & Hb & Hc & _).
  destruct (decide (p = q)) as [->|Hn]; [by eapply lt_irrefl, known_m0|].
  intros Hlt. apply (lt_irrefl addr m0 p); [by eapply known_m0|].
  eapply lt_trans; [..|exact Hlt|by apply anc_lt]; by eapply known_m0.
Qed.

Lemma run_wf st mark : run st mark → wf_tree (index st).
Proof. intros Hr. eapply wf_tree_same; [apply (rn_core _ _ Hr)|apply (to_wf genesis HT)]. Qed.

Lemma run_searchable st mark tip : run st mark → chain_of m0 tip (m_chain st) → searchable st tip.
Proof.
  intros Hr Hch. pose proof (rn_core _ _ Hr) as Hs. split.
  - by eapply run_wf.
  - by eapply chain_of_same.
  - intros p Hp. destruct (rn_cands _ _ Hr p Hp) as (b & Hb & Htx).
    split; [eapply known_same; [done|by eapply known_m0]|by eapply linked_txs].
  - apply (rn_invalid _ _ Hr).
Qed.

Lemma eligible_settles st st' p : settles bad st st' → eligible (index st) p → eligible (index st') p.
Proof.
  intros Hs He. pose proof (eligible_not_tainted _ _ He) as Hn. revert He. apply eligible_mono; [apply (se_core _ _ Hs)|].
  intros q b b' Ha Hb Hb' Hu. destruct (se_kept _ _ Hs q) as [E|Ht]; [congruence|].
  destruct Hn. by eapply tainted_above.
Qed.

Lemma settles_eligible st st' p : settles bad st st' → eligible (index st') p → eligible (index st) p.
Proof.
  intros Hs. apply eligible_mono; [apply same_core_sym, (se_core _ _ Hs)|].
  intros q b' b _ Hb' Hb Hu. destruct (usable b) eqn:E; [done|]. by rewrite (se_usable _ _ Hs q b b' Hb Hb' E) in Hu.
Qed.

Lemma run_settles st st' mark : settles bad st st' → run st mark → run st' mark.
Proof.
  intros Hs [Hc (tip & Ht & Hle) Hg Hk (Hm1 & Hm2 & Hm3) Hcm Hsd Hco Hfi Hi Hh].
  split.
  - etrans; [exact Hc|apply (se_core _ _ Hs)].
  - rewrite (se_chain _ _ Hs). eauto.
  - intros p b' Hp Hb'. rewrite (se_chain _ _ Hs) in Hp. destruct (se_kept _ _ Hs p) as [E|(q & d & Ha & Hd & Hu)].
    + rewrite E in Hb'. eauto.
    + apply (anc_same m0 (index st)) in Ha; [|done]. rewrite (Hg q d) in Hu; [done| |done].
      apply (on_chain_below m0 (to_wf genesis HT) tip (m_chain st) Ht p q Hp Ha).
  - intros p Hp. apply Hk. by apply (se_cands _ _ Hs).
  - split_and!; [|by eapply eligible_settles|done].
    destruct (se_stay _ _ Hs mark Hm1) as [?|Htm]; [done|]. by destruct (eligible_not_tainted _ _ Hm2).
  - intros p He%(settles_eligible st st' p Hs) Hl. destruct (se_stay _ _ Hs p (Hcm p He Hl)) as [?|Htp]; [done|].
    by destruct (eligible_not_tainted _ _ He).
  - intros p Hp. eapply eligible_settles; [done|by apply Hsd].
  - rewrite (se_chain _ _ Hs), (se_coins _ _ Hs). done.
  - intros p b' Hb' Hu. rewrite (se_files _ _ Hs). destruct (proj2 (se_core _ _ Hs) p b' Hb') as (b & Hb & _).
    apply (Hfi p b Hb). destruct (usable b) eqn:E; [done|]. by rewrite (se_usable _ _ Hs p b b' Hb Hb' E) in Hu.
  - by apply (se_invalid _ _ Hs).
  - rewrite (se_header _ _ Hs). eapply pointer_same; [apply (se_core _ _ Hs)|done].
Qed.

(** ** Failed blocks *)

Lemma failed_lor b : failed (with_status b (Z.lor (nStatus b) BLOCK_FAILED_VALID)) = true.
Proof.
  unfold failed. cbn [nStatus with_status]. rewrite negb_true_iff, Z.eqb_neq. intros H.
  assert (Z.testbit (Z.land (Z.lor (nStatus b) BLOCK_FAILED_VALID) BLOCK_FAILED_MASK) 5 = true) as Ht.
  { rewrite Z.land_spec, Z.lor_spec. cbn. by rewrite orb_true_r. }
  by rewrite H in Ht.
Qed.

(** What the callers of [InvalidChainFound] rely on. *)
Definition same_but_pointers st st' : Prop :=
  index st' = index st ∧ m_chain st' = m_chain st ∧ setBlockIndexCandidates st' = setBlockIndexCandidates st ∧
  coins_tip st' = coins_tip st ∧ block_files st' = block_files st ∧
  m_failed_blocks (chainman st') = m_failed_blocks (chainman st) ∧ m_blocks_unlinked st' = m_blocks_unlinked st.

Lemma run_pointers st st' mark : same_but_pointers st st' →
  pointer_ok (index st) (m_best_invalid st') → pointer_ok (index st) (m_best_header st') → run st mark → run st' mark.
Proof.
  intros (E1 & E2 & E3 & E4 & E5 & _) Hi Hh [H1 H2 H3 H4 H5 H6 H7 H8 H9 _ _].
  split; rewrite ?E1, ?E2, ?E3, ?E4, ?E5; done.
Qed.

Lemma InvalidChainFound_spec st mark p b : run st mark → index st !! p = Some b →
  ∃ st', InvalidChainFound st p = Ok st' ∧ same_but_pointers st st' ∧ run st' mark.
Proof.
  intros Hr Hb. pose proof Hr as [Hc (tip & Ht & _) _ _ _ _ _ _ _ Hi Hh]. pose proof (run_wf st mark Hr) as Hwf.
  apply (chain_of_same m0 (index st)) in Ht; [|done].
  pose proof (chain_of_Tip _ Hwf _ _ Ht) as HTip. unfold InvalidChainFound, deref at 1. rewrite Hb. cbn [rbind].
  assert (∃ better, match m_best_invalid st with None => Ok true
    | Some q => let! c := deref (index st) q in Ok (op_gt (nChainWork b) (nChainWork c)) end = Ok better) as [better ->].
  { destruct (m_best_invalid st) as [q|]; [|by eexists]. destruct (Hi q eq_refl) as [c Hq]. unfold deref. rewrite Hq. by eexists. }
  cbn [rbind]. set (st1 := if better then _ else _).
  assert (same_but_pointers st st1 ∧ m_best_header st1 = m_best_header st ∧ pointer_ok (index st) (m_best_invalid st1)) as (Hs1 & Eh & Hi1).
  { unfold st1. destruct better; [|done]. split_and!; try done. intros q [= <-]. eauto. }
  pose proof Hs1 as (E1 & E2 & _). rewrite Eh, E1, E2.
  assert (∃ st2, match m_best_header st with None => Ok st1
    | Some h => let! a := GetAncestor (index st) h (nHeight b) in
        Ok (if bool_decide (a = Some p) then set_best_header st1 (Tip (m_chain st)) else st1) end = Ok st2 ∧
      same_but_pointers st st2 ∧ pointer_ok (index st) (m_best_invalid st2) ∧ pointer_ok (index st) (m_best_header st2))
    as (st2 & -> & Hs2 & Hi2 & Hh2).
  { destruct (m_best_header st) as [h|] eqn:E; [|exists st1; rewrite Eh; done].
    destruct (Hh h eq_refl) as [d Hd].
    assert (∃ a, GetAncestor (index st) h (nHeight b) = Ok a) as [a ->].
    { destruct (GetAncestor_spec _ Hwf h d (nHeight b) Hd) as [Hin Hout].
      destruct (decide (0 <= nHeight b <= nHeight d)) as [Hd'|Hd']; [destruct (Hin Hd') as (? & ? & _)|pose proof (Hout Hd')]; eauto. }
    cbn [rbind]. eexists. split; [done|]. case_bool_decide; [|by rewrite Eh].
    split_and!; try apply Hs1; [done|]. cbn. rewrite HTip. intros q [= <-]. destruct Ht as (? & ? & _). eauto. }
  cbn [rbind]. pose proof Hs2 as (_ & -> & _). rewrite HTip. rewrite bool_decide_eq_true_2 by eauto. cbn [require rbind].
  exists st2. split_and!; [done|done|by eapply run_pointers].
Qed.

(** Nothing is forgotten: failures stay and candidates only leave. *)
Record moves st st' : Prop := {
  mv_core : same_core (index st) (index st');
  mv_failed : failures_grow (index st) (index st');
  mv_cands : setBlockIndexCandidates st' ⊆ setBlockIndexCandidates st;
  mv_books : books (chainman st) → books (chainman st') ∧ m_blocks_unlinked st' = m_blocks_unlinked st;
  mv_blame : blamed bad (index st) (index st');
}.

Lemma moves_refl st : moves st st.
Proof. split; [done| |done|done|apply blamed_refl]. intros q b b' Hb Hb'. congruence. Qed.

Lemma moves_trans st st1 st2 : moves st st1 → moves st1 st2 → moves st st2.
Proof.
  intros [H1 H2 H3 H4 H5] [H1' H2' H3' H4' H5']. split; [by etrans| |by etrans| |by eapply blamed_trans].
  - intros q b b' Hb Hb' Hf. destruct (proj1 H1 q b Hb) as (b1 & Hb1 & _). by eapply H2', H2.
  - intros [Hb <-]%H4. by apply H4'.
Qed.

Lemma settles_moves st st' : settles bad st st' → moves st st'.
Proof. intros []. by split. Qed.

Lemma moves_index st st' : index st' = index st → setBlockIndexCandidates st' ⊆ setBlockIndexCandidates st →
  m_failed_blocks (chainman st') = m_failed_blocks (chainman st) → m_blocks_unlinked st' = m_blocks_unlinked st → moves st st'.
Proof.
  intros E1 E2 E3 E4. split; rewrite ?E1; [done| |done| |apply blamed_refl].
  - intros q b b' Hb Hb'. congruence.
  - unfold index in E1. intros [H1 H2]. split; [|done]. split; by rewrite ?E1, ?E3.
Qed.

(** A block that is not valid is marked. *)
Definition marked st p b : Chainstate C :=
  let st := mark_dirty (set_index st (<[p := with_status b (Z.lor (nStatus b) BLOCK_FAILED_VALID)]> (index st))) p in
  erase_candidate (set_failed st (failed_insert addr p (m_failed_blocks (chainman st)))) p.

Lemma marked_lookup st p b q d : index (marked st p b) !! q = Some d →
  (q = p ∧ failed d = true) ∨ (q ≠ p ∧ index st !! q = Some d).
Proof.
  change (index (marked st p b)) with (<[p := with_status b (Z.lor (nStatus b) BLOCK_FAILED_VALID)]> (index st)).
  intros [[<- <-]|[Hn Hd]]%lookup_insert_Some; [left; split; [done|apply failed_lor]|by right].
Qed.

Lemma marked_core st p b : index st !! p = Some b → same_core (index st) (index (marked st p b)).
Proof. intros Hb. by apply with_status_same. Qed.

Lemma elem_of_failed_insert p l q : q ∈ failed_insert addr p l → q = p ∨ q ∈ l.
Proof.
  induction l as [|r l IH]; cbn [failed_insert]; [set_solver|].
  repeat case_bool_decide; [set_solver|]. destruct (addr p <? addr r); set_solver.
Qed.

Lemma marked_moves st p b : index st !! p = Some b → is_Some (pprev b) → ¬ connectable p → moves st (marked st p b).
Proof.
  intros Hb Hpp Hn. split; [by apply marked_core| |cbn; set_solver| |].
  3:{ intros q d [[-> _]|[_ Hd]]%marked_lookup Hf; [|by eapply blamed_refl].
      exists p, b. split_and!; [by eapply anc_refl|done|right; auto]. }
  - intros q d d' Hd [[_ ?]|[_ Hd']]%marked_lookup Hf; [done|congruence].
  - intros Hbk. split; [|done]. revert Hbk. apply books_keep; [by apply marked_core| |].
    + intros q d d' Hd Hd'. change (<[p := with_status b (Z.lor (nStatus b) BLOCK_FAILED_VALID)]> (index st) !! q = Some d') in Hd'.
      apply lookup_insert_Some in Hd' as [[<- <-]|[_ Hd']].
      * assert (d = b) as -> by (unfold index in Hb; congruence). apply keeps_lor. by left.
      * unfold index in Hd'. assert (d' = d) as -> by congruence. by split_and!.
    + intros q [->|Hq]%elem_of_failed_insert; [right|by left]. eexists. split; [apply lookup_insert_eq|].
      cbn. intros E. assert (Z.testbit (Z.land (Z.lor (nStatus b) BLOCK_FAILED_VALID) BLOCK_FAILED_VALID) 5 = true) as Ht.
      { rewrite Z.land_spec, Z.lor_spec. cbn. by rewrite orb_true_r. }
      by rewrite E in Ht.
Qed.

Lemma marked_eligible st p b q : index st !! p = Some b → ¬ anc (index st) q p →
  eligible (index st) q → eligible (index (marked st p b)) q.
Proof.
  intros Hb Hn. apply eligible_mono; [by apply marked_core|].
  intros r d d' Ha Hd [[-> _]|[_ Hd']]%marked_lookup Hu; [done|congruence].
Qed.

Lemma eligible_marked st p b q : index st !! p = Some b → eligible (index (marked st p b)) q →
  eligible (index st) q ∧ ¬ anc (index st) q p.
Proof.
  intros Hb He. pose proof (marked_core st p b Hb) as Hc. split.
  - revert He. apply eligible_mono; [by apply same_core_sym|].
    intros r d' d Ha [[-> Hf]|[_ Hd']]%marked_lookup Hd Hu; [|congruence]. by rewrite (failed_unusable _ Hf) in Hu.
  - intros Ha. destruct He as [_ He]. specialize (He p (with_status b (Z.lor (nStatus b) BLOCK_FAILED_VALID))).
    rewrite (failed_unusable _ (failed_lor b)) in He. discriminate He; [by apply (anc_same (index st))|apply lookup_insert_eq].
Qed.

Lemma run_marked st mark p b q : run st mark → index st !! p = Some b → pprev b = Some q → ¬ connectable p →
  run (marked st p b) mark.
Proof.
  intros [Hc (tip & Ht & Hle) Hg Hk (Hm1 & Hm2 & Hm3) Hcm Hsd Hco Hfi Hi Hh] Hb Hq Hn.
  pose proof (marked_core st p b Hb) as Hs. destruct (proj2 Hc p b Hb) as (b0 & Hb0 & Ec).
  assert (pprev b0 = Some q) as Hq0 by (destruct (core_fields _ _ Ec) as (-> & _); done).
  assert (∀ r, valid_chain r → ¬ anc (index st) r p) as Hva.
  { intros r Hr Ha. apply Hn. apply (Hr p b0 q); [by apply (anc_same m0 (index st))|done..]. }
  split; try done.
  - by etrans.
  - eauto.
  - intros r d Hr [[-> _]|[_ Hd]]%marked_lookup; [|by eapply Hg]. destruct Hn. by eapply (law_history (m_chain st)).
  - intros r Hr. apply Hk. cbn in Hr. set_solver.
  - split_and!; [cbn|apply marked_eligible; auto|done]. apply elem_of_difference. split; [done|].
    intros ->%elem_of_singleton. apply (Hva p Hm3). by eapply anc_refl.
  - intros r [He Hna]%(eligible_marked st p b r Hb) Hl. cbn. apply elem_of_difference. split; [by apply Hcm|].
    intros ->%elem_of_singleton. apply Hna. by eapply anc_refl.
  - intros r Hr. apply marked_eligible; [done|apply Hva, Hr|by apply Hsd].
  - intros r d [[-> Hf]|[_ Hd]]%marked_lookup Hu; [by rewrite (failed_unusable _ Hf) in Hu|by eapply Hfi].
  - by eapply pointer_same.
  - by eapply pointer_same.
Qed.

Lemma InvalidBlockFound_spec st mark p b q : run st mark → index st !! p = Some b → pprev b = Some q → ¬ connectable p →
  ∃ st', InvalidBlockFound addr st p false = Ok st' ∧ run st' mark ∧ moves st st' ∧ m_chain st' = m_chain st ∧
    ∃ b', index st' !! p = Some b' ∧ failed b' = true.
Proof.
  intros Hr Hb Hq Hn. unfold InvalidBlockFound, set_status, deref. rewrite Hb. cbn [negb rbind].
  pose proof (run_marked st mark p b q Hr Hb Hq Hn) as Hr1.
  destruct (InvalidChainFound_spec (marked st p b) mark p _ Hr1 (lookup_insert_eq _ _ _)) as (st' & E & Hs & Hr').
  exists st'. split; [exact E|]. pose proof Hs as (Ei & Ech & _). split_and!; [done| |done|].
  - eapply moves_trans; [by apply marked_moves; [|eauto|]|]. apply moves_index; [done|by destruct Hs as (_ & _ & -> & _)|apply Hs..].
  - rewrite Ei. eexists. split; [apply lookup_insert_eq|apply failed_lor].
Qed.

(** ** The tip moves *)

Lemma holds_valid tip ch c : chain_of m0 tip ch → holds ch c → valid_chain tip.
Proof.
  intros Hch Hh p b q Ha Hb Hq. eapply law_history; [exact Hh| |exact Hb|exact Hq].
  by apply (chain_of_elem m0 (to_wf genesis HT) tip).
Qed.

Lemma lookup_m0 st mark p b : run st mark → index st !! p = Some b →
  ∃ b0, m0 !! p = Some b0 ∧ pprev b0 = pprev b ∧ nHeight b0 = nHeight b ∧ nChainTx b0 = nChainTx b.
Proof.
  intros Hr Hb. destruct (proj2 (rn_core _ _ Hr) p b Hb) as (b0 & Hb0 & Ec). exists b0.
  destruct (core_fields _ _ Ec) as (-> & _ & -> & _). by destruct (core_counters _ _ Ec) as (_ & -> & _).
Qed.

Lemma lookup_index st mark p b0 : run st mark → m0 !! p = Some b0 →
  ∃ b, index st !! p = Some b ∧ pprev b = pprev b0 ∧ nHeight b = nHeight b0 ∧ nChainWork b = nChainWork b0.
Proof.
  intros Hr Hb0. destruct (proj1 (rn_core _ _ Hr) p b0 Hb0) as (b & Hb & Ec). exists b.
  by destruct (core_fields _ _ Ec) as (-> & _ & -> & -> & _).
Qed.

Lemma SetTip_run st mark p b : run st mark → m0 !! p = Some b →
  ∃ c', SetTip (index st) (m_chain st) p = Ok c' ∧ chain_of m0 p c'.
Proof.
  intros Hr Hb. pose proof (rn_core _ _ Hr) as Hc. destruct (rn_tip _ _ Hr) as (tip & Ht & _).
  destruct (lookup_index st mark p b Hr Hb) as (b' & Hb' & _).
  destruct (SetTip_spec (index st) (run_wf st mark Hr) (m_chain st) p b' Hb') as (c' & E & Hc').
  - right. exists tip. by eapply chain_of_same.
  - exists c'. split; [done|]. eapply chain_of_same; [by apply same_core_sym|done].
Qed.

Lemma DisconnectTip_spec st mark tip b q :
  run st mark → chain_of m0 tip (m_chain st) → m0 !! tip = Some b → pprev b = Some q →
  ∃ st', DisconnectTip st = Ok (true, st') ∧ run st' mark ∧ moves st st' ∧ index st' = index st ∧ chain_of m0 q (m_chain st').
Proof.
  intros Hr Hch Hb Hq. pose proof (to_wf genesis HT) as Hwf0. pose proof Hr as [Hc (tip' & Ht & Hle) Hg Hk Hm Hcm Hsd Hco Hfi Hi Hh].
  assert (tip' = tip) as ->.
  { pose proof (chain_of_Tip m0 Hwf0 _ _ Ht). pose proof (chain_of_Tip m0 Hwf0 _ _ Hch). congruence. }
  destruct (chain_of_inv m0 Hwf0 tip b q (m_chain st) Hb Hq Hch) as (ch & Ech & Hchq).
  destruct (lookup_index st mark tip b Hr Hb) as (b' & Hb' & Hq' & _). rewrite Hq in Hq'.
  destruct (parent_height m0 Hwf0 tip b q Hb Hq) as (d & Hd & _).
  destruct (Hfi tip b' Hb') as (blk & Hblk & Hof).
  { apply (Hg tip b'); [rewrite Ech; set_solver|done]. }
  unfold DisconnectTip, deref. rewrite (chain_of_Tip m0 Hwf0 _ _ Hch), Hb'. cbn [rbind]. rewrite Hq', Hblk.
  rewrite Ech in Hco. destruct (law_disconnect (m_blockman (chainman st)) blk tip b' q ch (coins_tip st)) as (c1 & -> & Hc1); [done..|].
  cbn [rbind]. destruct (law_flush ch c1 Hc1) as (c2 & -> & Hc2).
  destruct (SetTip_run st mark q d Hr Hd) as (c' & -> & Hc'). cbn [rbind].
  assert (c' = ch) as -> by (by eapply (chain_of_fun m0 Hwf0 q)).
  eexists. split; [done|]. split_and!; [|by apply moves_index|done|done].
  split; try done.
  - exists q. split; [done|]. eapply (not_lt_le_trans addr m0 q tip mark); [by eapply known_m0..| | |done].
    + eapply eligible_known; [exact Hc|apply Hm].
    + apply anc_not_lt. by eapply anc_step.
  - intros p e Hp. apply Hg. rewrite Ech. set_solver.
Qed.

(** The state after a block was connected, before candidates are pruned. *)
Record connected st st' (p : uint256) : Prop := {
  cn_core : same_core (index st) (index st');
  cn_flags : ∀ r d d', index st !! r = Some d → index st' !! r = Some d' → usable d' = usable d ∧ failed d' = failed d;
  cn_cands : setBlockIndexCandidates st' = setBlockIndexCandidates st;
  cn_chain : m_chain st' = m_chain st ++ [Some p];
  cn_files : block_files st' = block_files st;
  cn_invalid : m_best_invalid st' = m_best_invalid st;
  cn_header : m_best_header st' = m_best_header st;
  cn_coins : holds (m_chain st') (coins_tip st');
  cn_books : books (chainman st) → books (chainman st') ∧ m_blocks_unlinked st' = m_blocks_unlinked st;
}.

Lemma raises_flags b s : raises (nStatus b) s → usable (with_status b s) = usable b ∧ failed (with_status b s) = failed b.
Proof. intros (H1 & H2 & _). unfold usable, failed. cbn [nStatus with_status]. by rewrite H1, H2. Qed.

Lemma raises_books st p b s : index st !! p = Some b → raises (nStatus b) s → books (chainman st) →
  books (chainman (mark_dirty (set_index st (<[p := with_status b s]> (index st))) p)).
Proof.
  intros Hb (H1 & H2 & H3). apply books_keep; cbn; [by apply with_status_same| |by left].
  intros q d d' Hd [[<- <-]|[_ Hd']]%lookup_insert_Some.
  - assert (d = b) as -> by (unfold index in Hb; congruence). split_and!; cbn; [done|done|].
    intros Hn E. apply Hn. assert (∀ t, Z.land t BLOCK_FAILED_VALID = Z.land (Z.land t BLOCK_FAILED_MASK) BLOCK_FAILED_VALID) as Hm
      by (intros t; by rewrite <- Z.land_assoc). by rewrite Hm, <- H1, <- Hm.
  - unfold index in Hd'. assert (d' = d) as -> by congruence. by split_and!.
Qed.

Lemma ConnectTip_spec st mark p b q pblock :
  run st mark → chain_of m0 q (m_chain st) → index st !! p = Some b → pprev b = Some q → usable b = true →
  (∀ blk, pblock = Some blk → block_of p blk) →
  (∃ st', ConnectTip addr st p pblock = Ok (TipConnected, st') ∧ connected st st' p) ∨
  (∃ st', ConnectTip addr st p pblock = Ok (TipInvalid false, st') ∧ run st' mark ∧ moves st st' ∧
     m_chain st' = m_chain st ∧ ∃ b', index st' !! p = Some b' ∧ failed b' = true).
Proof.
  intros Hr Hch Hb Hq Hu Hp. pose proof (to_wf genesis HT) as Hwf0. pose proof Hr as [Hc _ Hg Hk Hm Hcm Hsd Hco Hfi Hi Hh].
  unfold ConnectTip, deref. rewrite Hb. cbn [rbind].
  rewrite bool_decide_eq_true_2 by (rewrite Hq, (chain_of_Tip m0 Hwf0 _ _ Hch); done). cbn [require rbind].
  assert (∃ blk, (match pblock with Some _ => pblock | None => block_files st !! p end) = Some blk ∧ block_of p blk) as (blk & -> & Hof).
  { destruct pblock as [blk|]; [exists blk; auto|]. destruct (Hfi p b Hb Hu) as (blk & ? & ?). eauto. }
  destruct (law_connect (m_blockman (chainman st)) blk p b q (m_chain st) (coins_tip st))
    as [(Hok & c1 & s & -> & Hc1 & Hs)|(Hno & ->)]; [done..| |].
  - left. cbn [rbind]. set (st1 := mark_dirty (set_index st (<[p := with_status b s]> (index st))) p).
    assert (∃ st2, (if s =? nStatus b then Ok st else set_status st p (fun _ => s)) = Ok st2 ∧ (st2 = st ∨ st2 = st1)) as (st2 & -> & E2).
    { destruct (s =? nStatus b); [eauto|]. unfold set_status, deref. rewrite Hb. cbn [rbind]. eauto. }
    cbn [rbind]. destruct (law_flush _ c1 Hc1) as (c2 & -> & Hc2).
    assert (same_core (index st) (index st2)) as Hs2 by (destruct E2 as [-> | ->]; [done|by apply with_status_same]).
    destruct (lookup_m0 st mark p b Hr Hb) as (b0 & Hb0 & Hq0 & _). rewrite Hq in Hq0.
    assert (∃ c', SetTip (index (set_coins st2 c1)) (m_chain (set_coins st2 c1)) p = Ok c' ∧ c' = m_chain st ++ [Some p]) as (c' & -> & ->).
    { destruct (proj1 Hs2 p b Hb) as (b2 & Hb2 & _). destruct (SetTip_spec (index st2) ltac:(by eapply wf_tree_same, run_wf) (m_chain st) p b2 Hb2) as (c' & E & Hc').
      - right. exists q. by eapply chain_of_same, chain_of_same.
      - exists c'. split; [by destruct E2 as [-> | ->]|]. apply (chain_of_fun m0 Hwf0 p); [|by eapply chain_of_snoc].
        eapply chain_of_same; [apply same_core_sym; by etrans|done]. }
    cbn [rbind]. eexists. split; [done|]. split; cbn; try (by destruct E2 as [-> | ->]).
    + intros r d d' Hd Hd'. destruct E2 as [-> | ->]; [by change (index st !! r = Some d') in Hd'; simplify_eq|].
      change (<[p := with_status b s]> (index st) !! r = Some d') in Hd'. apply lookup_insert_Some in Hd' as [[<- <-]|[_ Hd']]; [|by simplify_eq].
      assert (d = b) as -> by congruence. by apply raises_flags.
    + intros Hbk. destruct E2 as [-> | ->]; [done|]. split; [|done]. by apply (raises_books st p b s).
  - right. cbn [rbind]. destruct (InvalidBlockFound_spec st mark p b q Hr Hb Hq Hno) as (st' & -> & ?). cbn [rbind].
    exists st'. by split.
Qed.

Lemma connected_eligible st st1 p r : connected st st1 p → eligible (index st) r ↔ eligible (index st1) r.
Proof.
  intros Hcn. pose proof (cn_core _ _ _ Hcn) as Hc.
  split; (apply eligible_mono; [first [exact Hc|by apply same_core_sym]|]).
  - intros q d d' _ Hd Hd' Hu. by destruct (cn_flags _ _ _ Hcn q d d' Hd Hd') as [-> _].
  - intros q d d' _ Hd Hd' Hu. by destruct (cn_flags _ _ _ Hcn q d' d Hd' Hd) as [<- _].
Qed.

(** The new tip is the mark if it is better. *)
Definition new_mark (mark p : uint256) : uint256 := if decide (lt addr m0 mark p) then p else mark.

Lemma new_mark_spec mark p : known m0 mark → known m0 p →
  ¬ lt addr m0 (new_mark mark p) p ∧ ¬ lt addr m0 (new_mark mark p) mark ∧ (new_mark mark p = mark ∨ new_mark mark p = p).
Proof.
  intros Hm Hp. unfold new_mark. destruct (decide _) as [Hlt|Hlt].
  - split_and!; [by apply lt_irrefl| |by right]. intros Hlt'.
    apply (lt_irrefl addr m0 p Hp). by apply (lt_trans addr m0 p mark p).
  - split_and!; [done|by apply lt_irrefl|by left].
Qed.

Lemma prune_connected st st1 mark p b q :
  run st mark → chain_of m0 q (m_chain st) → index st !! p = Some b → pprev b = Some q → eligible (index st) p →
  connected st st1 p →
  ∃ st2, PruneBlockIndexCandidates addr st1 = Ok st2 ∧ run st2 (new_mark mark p) ∧ moves st st2 ∧
    chain_of m0 p (m_chain st2) ∧ ∀ r, eligible (index st) r → eligible (index st2) r.
Proof.
  intros Hr Hch Hb Hq He Hcn. pose proof (to_wf genesis HT) as Hwf0. pose proof Hr as [Hc _ Hg Hk (Hm1 & Hm2 & Hm3) Hcm Hsd Hco Hfi Hi Hh].
  pose proof Hcn as [Cc Cf Cca Cch Cfi Ci Chh Cco Cbk].
  destruct (lookup_m0 st mark p b Hr Hb) as (b0 & Hb0 & Hq0 & _). rewrite Hq in Hq0.
  assert (chain_of m0 p (m_chain st1)) as Hch1 by (rewrite Cch; by eapply chain_of_snoc).
  assert (same_core m0 (index st1)) as Hs1 by (by etrans).
  pose proof (eligible_known _ _ Hc Hm2) as Km. pose proof (known_m0 p b0 Hb0) as Kp.
  destruct (new_mark_spec mark p Km Kp) as (N1 & N2 & N3). set (mark' := new_mark mark p) in *.
  assert (known m0 mark') as Km' by (destruct N3 as [-> | ->]; done).
  assert (eligible (index st) mark' ∧ valid_chain mark') as [He' Hv'].
  { destruct N3 as [-> | ->]; [done|]. split; [done|by eapply holds_valid]. }
  assert (∀ r, CBlockIndexWorkComparator addr (index st1) r p = false ↔ ¬ lt addr m0 r p) as Hcmp.
  { intros r. rewrite (comparator_same addr m0 (index st1)) by done. unfold lt. by destruct (CBlockIndexWorkComparator _ _ _ _). }
  set (s := filter (fun r => CBlockIndexWorkComparator addr (index st1) r p = false) (setBlockIndexCandidates st1)).
  assert (mark' ∈ s) as Hin.
  { apply elem_of_filter. rewrite Cca. split; [by apply Hcmp|]. by apply Hcm. }
  exists (set_candidates st1 s). split; [|split; [|split; [|split]]].
  - unfold PruneBlockIndexCandidates. rewrite (chain_of_Tip m0 Hwf0 _ _ Hch1). fold s.
    rewrite bool_decide_eq_false_2 by set_solver. done.
  - split; try done.
    + eauto.
    + intros r d' Hr' Hd'. change (Some r ∈ m_chain st1) in Hr'. destruct (proj2 Cc r d' Hd') as (d & Hd & _).
      destruct (Cf r d d' Hd Hd') as [-> _]. rewrite Cch in Hr'. apply elem_of_app in Hr' as [Hr'| [= ->]%list_elem_of_singleton].
      * by eapply Hg.
      * destruct He as [_ He]. apply (He p d); [by eapply anc_refl|done].
    + intros r [_ Hr']%elem_of_filter. apply Hk. by rewrite <- Cca.
    + split_and!; [done|by apply (connected_eligible st st1 p)|done].
    + intros r Her%(connected_eligible st st1 p r Hcn) Hlr. apply elem_of_filter. rewrite Cca.
      pose proof (eligible_known _ _ Hc Her) as Kr. split; [apply Hcmp|apply Hcm; [done|]].
      * by apply (not_lt_le_trans addr m0 p mark' r).
      * by apply (not_lt_le_trans addr m0 mark mark' r).
    + intros r Hsr. apply (connected_eligible st st1 p); [done|by apply Hsd].
    + intros r d' Hd' Hu'. change (block_files (set_candidates st1 s)) with (block_files st1). rewrite Cfi.
      destruct (proj2 Cc r d' Hd') as (d & Hd & _). destruct (Cf r d d' Hd Hd') as [E _]. apply (Hfi r d); [done|congruence].
    + change (pointer_ok (index st1) (m_best_invalid st1)). rewrite Ci. by apply (pointer_same (index st)).
    + change (pointer_ok (index st1) (m_best_header st1)). rewrite Chh. by apply (pointer_same (index st)).
  - split; [exact Cc| |intros r [_ Hr']%elem_of_filter; by rewrite <- Cca|exact Cbk|].
    + intros r d d' Hd Hd' Hf. by destruct (Cf r d d' Hd Hd') as [_ ->].
    + intros r d' Hd' Hf. destruct (proj2 Cc r d' Hd') as (d & Hd & _). apply (blamed_refl (index st) r d Hd).
      by destruct (Cf r d d' Hd Hd') as [_ <-].
  - exact Hch1.
  - intros r. apply (connected_eligible st st1 p r Hcn).
Qed.

(** ** One step *)

Lemma eligible_anc st mark p q : run st mark → eligible (index st) p → anc m0 p q → eligible (index st) q.
Proof.
  intros Hr [(b & Hb & Htx) He] Ha. pose proof (rn_core _ _ Hr) as Hc. pose proof (proj1 (anc_same _ _ p q Hc) Ha) as Ha'.
  destruct (lookup_m0 st mark p b Hr Hb) as (b0 & Hb0 & _ & _ & Etx).
  destruct (anc_lookup _ (run_wf st mark Hr) p q Ha') as (_ & d & _ & Hd & _). split.
  - exists d. split; [done|]. apply (linked_txs (index st) [] p b0 Hc Hb0 ltac:(congruence) q d); [done|set_solver|done].
  - intros r e Hre. apply He. by eapply anc_trans.
Qed.

(** [l] leads towards [most]. *)
Record towards st (q most : uint256) (l : list uint256) : Prop := {
  tw_chain : chain_of m0 q (m_chain st);
  tw_path : path m0 q l;
  tw_anc : ∀ x, x ∈ l → anc m0 most x;
  tw_most : eligible (index st) most;
}.

Definition known_tip (old : option uint256) : Prop := ∀ p, old = Some p → is_Some (m0 !! p).

Definition list_result (q most : uint256) (l : list uint256) (r : step_outcome) st' : Prop :=
  match r with
  | StepGoOn => chain_of m0 (List.last l q) (m_chain st') ∧ eligible (index st') most
  | StepBetter => ∃ x, x ∈ l ∧ chain_of m0 x (m_chain st') ∧ eligible (index st') most
  | StepInvalid => ∃ x b, x ∈ l ∧ index st' !! x = Some b ∧ failed b = true
  | StepError => False
  end.

Lemma connect_list_spec st mark q most l front pblock old :
  run st mark → towards st q most l → is_Some (m0 !! front) → known_tip old →
  (∀ blk, pblock = Some blk → block_of most blk) →
  ∃ r st' mark', connect_list addr st l front most pblock old = Ok (r, st') ∧
    run st' mark' ∧ moves st st' ∧ ¬ lt addr m0 mark' mark ∧ list_result q most l r st'.
Proof.
  intros Hr Htw Hfr Hold Hblk. pose proof (to_wf genesis HT) as Hwf0.
  revert st mark q Hr Htw. induction l as [|x l IH]; intros st mark q Hr [Hch Hpath Hanc Hmost]; cbn [connect_list];
    pose proof (eligible_known _ _ (rn_core _ _ Hr) (proj1 (proj2 (rn_mark _ _ Hr)))) as Km.
  { exists StepGoOn, st, mark. split_and!; [done|done|apply moves_refl|by apply lt_irrefl|done]. }
  destruct Hpath as [(b0 & Hb0 & Hq0) Hpath]. pose proof (eligible_anc st mark most x Hr Hmost (Hanc x ltac:(set_solver))) as Hex.
  destruct (lookup_index st mark x b0 Hr Hb0) as (b & Hb & Hq & _). rewrite Hq0 in Hq.
  assert (usable b = true) as Hu by (destruct Hex as [_ Hex]; apply (Hex x b); [by eapply anc_refl|done]).
  destruct (ConnectTip_spec st mark x b q (if bool_decide (x = most) then pblock else None) Hr Hch Hb Hq Hu)
    as [(st1 & -> & Hcn)|(st1 & -> & Hr1 & Hmv & Hch1 & b' & Hb' & Hf')].
  { case_bool_decide; [subst x; done|done]. }
  - cbn [rbind]. destruct (prune_connected st st1 mark x b q Hr Hch Hb Hq Hex Hcn) as (st2 & -> & Hr2 & Hmv & Hch2 & Hel).
    cbn [rbind]. rewrite (chain_of_Tip m0 Hwf0 _ _ Hch2).
    destruct (new_mark_spec mark x Km (known_m0 x b0 Hb0)) as (_ & N2 & N3).
    destruct (lookup_index st2 _ x b0 Hr2 Hb0) as (t & Ht & _).
    assert (∃ better, match old with None => Ok true
      | Some o => let! o := deref (index st2) o in let! t := deref (index st2) x in Ok (op_gt (nChainWork t) (nChainWork o)) end
      = Ok better) as [better ->].
    { destruct old as [o|]; [|by eexists]. destruct (Hold o eq_refl) as [d0 Hd0].
      destruct (lookup_index st2 _ o d0 Hr2 Hd0) as (d & Hd & _). unfold deref. rewrite Hd, Ht. by eexists. }
    cbn [rbind]. destruct better.
    + exists StepBetter, st2, (new_mark mark x). split_and!; [done..|]. exists x. split_and!; [set_solver|done|by apply Hel].
    + destruct (IH st2 (new_mark mark x) x Hr2) as (r & st' & mark' & -> & Hr' & Hmv' & Hle & Hres).
      { split; [done|done|intros y Hy; apply Hanc; set_solver|by apply Hel]. }
      exists r, st', mark'. split_and!; [done|done|by eapply moves_trans| |].
      * pose proof (eligible_known _ _ (rn_core _ _ Hr2) (proj1 (proj2 (rn_mark _ _ Hr2)))).
        pose proof (eligible_known _ _ (rn_core _ _ Hr') (proj1 (proj2 (rn_mark _ _ Hr')))).
        by apply (not_lt_le_trans addr m0 mark (new_mark mark x) mark').
      * destruct r; cbn [list_result] in *; [by rewrite last_default| |..|done].
        -- destruct Hres as (y & ? & ?). exists y. split; [set_solver|done].
        -- destruct Hres as (y & d & ? & ?). exists y, d. split; [set_solver|done].
  - cbn [rbind negb]. destruct Hfr as [f0 Hf0]. destruct (lookup_index st1 mark front f0 Hr1 Hf0) as (f & Hf & _).
    destruct (InvalidChainFound_spec st1 mark front f Hr1 Hf) as (st2 & -> & Hs2 & Hr2). cbn [rbind].
    pose proof Hs2 as (Ei & _ & Eca & _). exists StepInvalid, st2, mark. split_and!; [done|done| |by apply lt_irrefl|].
    + eapply moves_trans; [done|]. apply moves_index; [done|by rewrite Eca|apply Hs2..].
    + exists x, b'. rewrite Ei. split; [set_solver|done].
Qed.

Lemma disconnect_to_spec fuel st mark tip f b d :
  run st mark → chain_of m0 tip (m_chain st) → m0 !! tip = Some b → m0 !! f = Some d → anc m0 tip f →
  (Z.to_nat (nHeight b - nHeight d) <= fuel)%nat →
  ∃ st', disconnect_to fuel st (Some f) = Ok (true, st') ∧ run st' mark ∧ moves st st' ∧ index st' = index st ∧
    chain_of m0 f (m_chain st').
Proof.
  pose proof (to_wf genesis HT) as Hwf0.
  revert st tip b. induction fuel as [|fuel IH]; intros st tip b Hr Hch Hb Hd Ha Hf; cbn [disconnect_to];
    rewrite (chain_of_Tip m0 Hwf0 _ _ Hch);
    (case_bool_decide as E; [injection E as ->; exists st; split_and!; try done; apply moves_refl|]);
    (destruct (anc_cases m0 Hwf0 tip b f Hb Ha) as [->|(q & Hq & Hqf)]; [done|]);
    destruct (parent_height m0 Hwf0 tip b q Hb Hq) as (e & He & Hh);
    destruct (anc_lookup m0 Hwf0 q f Hqf) as (e' & d' & He' & Hd' & Hle);
    (assert (e' = e) as -> by congruence); (assert (d' = d) as -> by congruence); [lia|].
  destruct (DisconnectTip_spec st mark tip b q Hr Hch Hb Hq) as (st1 & -> & Hr1 & Hm1 & Ei & Hch1). cbn [rbind negb].
  destruct (IH st1 q e Hr1 Hch1 He Hd Hqf ltac:(lia)) as (st' & -> & Hr' & Hm' & Ei' & Hch').
  exists st'. split_and!; [done|done|by eapply moves_trans|congruence|done].
Qed.

Definition chunks_result (q most : uint256) (r : step_outcome) st' : Prop :=
  match r with
  | StepGoOn => chain_of m0 most (m_chain st') ∧ eligible (index st') most
  | StepBetter => ∃ x, anc m0 most x ∧ anc m0 x q ∧ x ≠ q ∧ chain_of m0 x (m_chain st') ∧ eligible (index st') most
  | StepInvalid => ∃ x b, anc m0 most x ∧ index st' !! x = Some b ∧ failed b = true
  | StepError => False
  end.

(** The blocks of one round. *)
Lemma chunk_towards st mark q d most bm :
  run st mark → chain_of m0 q (m_chain st) → m0 !! q = Some d → m0 !! most = Some bm → anc m0 most q → q ≠ most →
  eligible (index st) most →
  let target := Z.min (nHeight d + 32) (nHeight bm) in
  ∃ x bx l, GetAncestor (index st) most target = Ok (Some x) ∧ m0 !! x = Some bx ∧ nHeight bx = target ∧
    anc m0 most x ∧ nHeight d < target ∧
    to_connect (S (Z.to_nat target)) (index st) (Some x) (nHeight d) = Ok l ∧ towards st q most (rev l) ∧
    List.last (rev l) q = x ∧ hd most l = x.
Proof.
  intros Hr Hch Hd Hbm Ha Hn Hel target. pose proof (to_wf genesis HT) as Hwf0. pose proof (run_wf st mark Hr) as Hwf.
  pose proof (rn_core _ _ Hr) as Hc.
  assert (nHeight d < nHeight bm) as Hlt.
  { destruct (anc_cases m0 Hwf0 most bm q Hbm Ha) as [->|(r & Hq & Hrq)]; [done|].
    destruct (parent_height m0 Hwf0 most bm r Hbm Hq) as (e & He & Hh).
    destruct (anc_lookup m0 Hwf0 r q Hrq) as (? & ? & ? & ? & ?). simplify_eq. lia. }
  destruct (Hwf0 q d Hd) as [H0 _].
  destruct (lookup_index st mark most bm Hr Hbm) as (bm' & Hbm' & _ & Hhm & _).
  destruct (lookup_index st mark q d Hr Hd) as (d' & Hd' & _ & Hhd & _).
  destruct (GetAncestor_spec (index st) Hwf most bm' target Hbm') as [Hga _]. destruct Hga as (x & Ex & Hx); [lia|].
  pose proof (proj2 (is_anc_same m0 (index st) most target x Hc) Hx) as Hx0.
  destruct (is_anc_lookup m0 Hwf0 _ _ _ Hx0) as (_ & bx & _ & Hbx & Hhx & _).
  destruct (lookup_index st mark x bx Hr Hbx) as (bx' & Hbx' & _ & Hhx' & _).
  assert (anc m0 x q) as Hxq.
  { exists (nHeight d). apply (is_anc_split m0 Hwf0 most target); [done|by eapply anc_height|lia]. }
  destruct (to_connect_spec (index st) Hwf (S (Z.to_nat target)) x bx' q d' Hbx' Hd') as (l & El & Hpath & Hlast & Hhd' & Hin).
  { by apply (anc_same m0 (index st)). }
  { lia. }
  assert (x ≠ q) as Hxn by (intros ->; simplify_eq; lia).
  exists x, bx, l. rewrite <- Hhd. split_and!; try done; [by exists target|lia| |].
  - split; [done|by eapply path_same; [apply same_core_sym|]| |done].
    intros y Hy. eapply anc_trans; [by exists target|]. apply (anc_same m0 (index st)); [done|]. apply Hin.
    apply list_elem_of_In. apply in_rev. by apply list_elem_of_In.
  - destruct (Hhd' Hxn) as [Hh1 Hnn]. by destruct l.
Qed.

Lemma mark_known st mark : run st mark → known m0 mark.
Proof. intros Hr. eapply eligible_known; [apply (rn_core _ _ Hr)|apply (rn_mark _ _ Hr)]. Qed.

Lemma anc_same_height p q b c : m0 !! p = Some b → m0 !! q = Some c → anc m0 p q → nHeight b = nHeight c → p = q.
Proof.
  intros Hb Hc Ha E. pose proof (to_wf genesis HT) as Hwf0.
  destruct (anc_cases m0 Hwf0 p b q Hb Ha) as [?|(r & Hr & Hrq)]; [done|].
  destruct (parent_height m0 Hwf0 p b r Hb Hr) as (e & He & Hh).
  destruct (anc_lookup m0 Hwf0 r q Hrq) as (? & ? & ? & ? & ?). simplify_eq. lia.
Qed.

Lemma connect_chunks_spec fuel st mark q d most bm pblock old :
  run st mark → chain_of m0 q (m_chain st) → m0 !! q = Some d → m0 !! most = Some bm → anc m0 most q →
  eligible (index st) most → known_tip old → (∀ blk, pblock = Some blk → block_of most blk) →
  (Z.to_nat (nHeight bm - nHeight d) <= fuel)%nat →
  ∃ r st' mark', connect_chunks addr fuel st (nHeight d) most pblock old = Ok (r, st') ∧
    run st' mark' ∧ moves st st' ∧ ¬ lt addr m0 mark' mark ∧ chunks_result q most r st'.
Proof.
  intros Hr Hch Hd Hbm Ha Hel Hold Hblk. pose proof (to_wf genesis HT) as Hwf0.
  revert st mark q d Hr Hch Hd Ha Hel. induction fuel as [|fuel IH]; intros st mark q d Hr Hch Hd Ha Hel Hf; cbn [connect_chunks];
    destruct (lookup_index st mark most bm Hr Hbm) as (bm' & Hbm' & _ & Hhm & _); unfold deref at 1; rewrite Hbm'; cbn [rbind]; rewrite Hhm;
    destruct (anc_lookup m0 Hwf0 most q Ha) as (bm1 & d1 & Hbm1 & Hd1 & Hle); simplify_eq;
    (destruct (Z.eqb_spec (nHeight d) (nHeight bm)) as [E|E];
      [assert (most = q) as -> by (by eapply (anc_same_height most q bm d));
       exists StepGoOn, st, mark; split_and!; try done; [apply moves_refl|by eapply lt_irrefl, mark_known]|]); [lia|].
  destruct (chunk_towards st mark q d most bm Hr Hch Hd Hbm Ha ltac:(intros ->; simplify_eq) Hel)
    as (x & bx & l & -> & Hbx & Hhx & Hmx & Hlt & El & Htw & Hlast & Hhd).
  cbn [rbind]. rewrite El. cbn [rbind]. rewrite Hhd.
  destruct (connect_list_spec st mark q most (rev l) x pblock old Hr Htw ltac:(by eexists) Hold Hblk)
    as (r & st1 & mark1 & -> & Hr1 & Hmv1 & Hle1 & Hres). cbn [rbind].
  assert (∀ y, y ∈ rev l → anc m0 most y ∧ anc m0 y q ∧ y ≠ q) as Hrl.
  { intros y Hy. split; [by apply Htw|]. apply (path_anc m0 Hwf0 q d (rev l)); [done|apply Htw|done]. }
  destruct r; cbn [list_result] in Hres; [|exists StepBetter, st1, mark1|exists StepInvalid, st1, mark1|done].
  - rewrite Hlast in Hres. destruct Hres as [Hch1 Hel1].
    destruct (IH st1 mark1 x bx Hr1 Hch1 Hbx Hmx Hel1 ltac:(lia)) as (r & st' & mark' & E' & Hr' & Hmv' & Hle' & Hres').
    rewrite <- Hhx, E'. exists r, st', mark'. split_and!; [done|done|by eapply moves_trans| |].
    + apply (not_lt_le_trans addr m0 mark mark1 mark'); try done; by eapply mark_known.
    + assert (anc m0 x q ∧ x ≠ q) as [Hxq Hxn].
      { split; [|intros ->; simplify_eq; lia]. exists (nHeight d).
        apply (is_anc_split m0 Hwf0 most (nHeight bx)); [by eapply anc_height..|lia]. }
      destruct r; cbn [chunks_result] in *; [done| |done|done].
      destruct Hres' as (y & Hy1 & Hy2 & Hy3 & ?). exists y. split_and!; [done|by eapply anc_trans| |apply H..].
      intros ->. apply Hxn. by apply (anc_antisym m0 Hwf0).
  - split_and!; [done..|]. destruct Hres as (y & Hy & ?). destruct (Hrl y Hy) as (? & ? & ?). by exists y.
  - split_and!; [done..|]. destruct Hres as (y & e & Hy & ?). destruct (Hrl y Hy) as (? & ? & ?). by exists y, e.
Qed.

Lemma root_anc p b : m0 !! p = Some b → anc m0 p genesis.
Proof.
  intros Hb. pose proof (to_wf genesis HT) as Hwf0. destruct (Hwf0 p b Hb) as [H0 _].
  destruct (is_anc_exists m0 Hwf0 p b 0 Hb ltac:(lia)) as [q Hq].
  destruct (is_anc_lookup m0 Hwf0 _ _ _ Hq) as (_ & c & _ & Hc & Hh & _).
  assert (q = genesis) as ->; [|by exists 0]. apply (to_root genesis HT q c Hc).
  destruct (pprev c) as [r|] eqn:E; [|done]. destruct (parent_height m0 Hwf0 q c r Hc E) as (d & Hd & Hhd).
  destruct (Hwf0 r d Hd). lia.
Qed.

(** A step either finds a block that fails, or ends above every block that the
    old chain shares with the best one. *)
Definition step_result st (most : uint256) (fInvalidFound : bool) st' : Prop :=
  if fInvalidFound then (size (unfailed (index st')) < size (unfailed (index st)))%nat
  else eligible (index st') most ∧ ∃ tip, chain_of m0 tip (m_chain st') ∧ anc m0 most tip ∧
         ∀ f, anc m0 most f → Some f ∈ m_chain st → anc m0 tip f ∧ tip ≠ f.

Lemma ActivateBestChainStep_spec st mark most bm pblock :
  run st mark → m0 !! most = Some bm → eligible (index st) most → Some most ∉ m_chain st →
  (∀ blk, pblock = Some blk → block_of most blk) →
  ∃ inv st' mark', ActivateBestChainStep addr st most pblock = Ok (true, inv, st') ∧
    run st' mark' ∧ moves st st' ∧ ¬ lt addr m0 mark' mark ∧ step_result st most inv st'.
Proof.
  intros Hr Hbm Hel Hout Hblk. pose proof (to_wf genesis HT) as Hwf0. pose proof (run_wf st mark Hr) as Hwf. pose proof (rn_core _ _ Hr) as Hc.
  destruct (rn_tip _ _ Hr) as (tip & Hch & _). pose proof Hch as (bt & Hbt & Hlen & _).
  destruct (lookup_index st mark most bm Hr Hbm) as (bm' & Hbm' & _ & Hhm & _).
  destruct (FindFork_spec (index st) Hwf tip (m_chain st) ltac:(by eapply chain_of_same) most bm' genesis Hbm') as (f & Ef & Hmf & Hfc & Hmax).
  { apply (anc_same m0 (index st)); [done|by eapply root_anc]. }
  { apply (chain_of_elem m0 Hwf0 tip _ _ Hch). by eapply root_anc. }
  apply (anc_same m0 (index st)) in Hmf; [|done]. pose proof (proj1 (chain_of_elem m0 Hwf0 tip _ _ Hch) Hfc) as Htf.
  destruct (anc_lookup m0 Hwf0 tip f Htf) as (bt' & d & Hbt' & Hd & Hle). assert (bt' = bt) as -> by congruence.
  unfold ActivateBestChainStep. rewrite Ef. cbn [rbind]. rewrite (chain_of_Tip m0 Hwf0 _ _ Hch).
  destruct (Hwf0 f d Hd) as [H0 _].
  destruct (disconnect_to_spec (length (m_chain st)) st mark tip f bt d Hr Hch Hbt Hd Htf ltac:(lia)) as (st1 & -> & Hr1 & Hm1 & Ei & Hch1).
  cbn [rbind negb]. destruct (lookup_index st1 mark f d Hr1 Hd) as (d1 & Hd1 & _ & Hhd1 & _).
  unfold deref. rewrite Hd1. cbn [rbind]. rewrite Ei, Hbm'. cbn [rbind]. rewrite Hhd1, Hhm.
  destruct (connect_chunks_spec (S (Z.to_nat (nHeight bm))) st1 mark f d most bm pblock (Some tip) Hr1 Hch1 Hd Hbm Hmf
    ltac:(by rewrite Ei) ltac:(intros ? [= <-]; eauto) Hblk ltac:(lia)) as (r & st' & mark' & -> & Hr' & Hm' & Hle' & Hres).
  cbn [rbind]. pose proof (moves_trans _ _ _ Hm1 Hm') as Hmv.
  assert (∀ x, anc m0 x f → x ≠ f → ∀ g, anc m0 most g → Some g ∈ m_chain st → anc m0 x g ∧ x ≠ g) as Habove.
  { intros x Hx Hxn g Hg Hgc. assert (anc m0 f g) as Hfg.
    { apply (anc_same m0 (index st)); [done|]. apply Hmax; [by apply (anc_same m0 (index st))|done]. }
    split; [by eapply anc_trans|]. intros ->. apply Hxn. by apply (anc_antisym m0 Hwf0). }
  destruct r; cbn [chunks_result] in Hres; [| | |done].
  - destruct Hres as [Hch' Hel']. exists false, st', mark'. split_and!; [done..|]. split; [done|].
    exists most. split_and!; [done|by eapply anc_refl|]. apply Habove; [done|congruence].
  - destruct Hres as (x & Hx1 & Hx2 & Hx3 & Hch' & Hel'). exists false, st', mark'. split_and!; [done..|]. split; [done|].
    exists x. split_and!; [done|done|]. by apply Habove.
  - destruct Hres as (x & b' & Hx & Hb' & Hf'). exists true, st', mark'. split_and!; [done..|].
    pose proof (mv_core _ _ Hmv) as Hcc. destruct (proj2 Hcc x b' Hb') as (b & Hb & _).
    apply (unfailed_less _ _ x b b'); try done; [apply Hmv|].
    destruct Hel as [_ Hel]. specialize (Hel x b (proj1 (anc_same _ _ _ _ Hc) Hx) Hb).
    destruct (failed b) eqn:E; [|done]. by rewrite (failed_unusable _ E) in Hel.
Qed.

(** ** The loops *)

Context (hash_of : CBlock → uint256) (pblock : option CBlock) (Hgiven : ∀ blk, pblock = Some blk → block_of (hash_of blk) blk).
Context (top : nat) (Htop : ∀ p b, m0 !! p = Some b → (Z.to_nat (nHeight b) <= top)%nat).

(** [most] is worth working towards. *)
Definition goal st (most : uint256) : Prop :=
  eligible (index st) most ∧ ∀ q, q ∈ setBlockIndexCandidates st → ¬ lt addr m0 most q.

(** At most [k] blocks are missing between the active chain and [most]. *)
Definition within st (most : uint256) (k : nat) : Prop :=
  ∃ f bf bm, anc m0 most f ∧ Some f ∈ m_chain st ∧ m0 !! f = Some bf ∧ m0 !! most = Some bm ∧
    (Z.to_nat (nHeight bm - nHeight bf) <= k)%nat.

(** [n] steps are enough: each brings the chain closer to [pindexMostWork], or
    finds one more block that fails. *)
Definition budget st (pindexMostWork : option uint256) (n : nat) : Prop :=
  match pindexMostWork with
  | None => (size (unfailed (index st)) * (top + 2) + (top + 1) <= n)%nat
  | Some most => goal st most ∧ ∃ k, within st most k ∧ (size (unfailed (index st)) * (top + 2) + k <= n)%nat
  end.

Lemma goal_lookup st mark most : run st mark → goal st most → ∃ b, m0 !! most = Some b.
Proof.
  intros Hr [[(b & Hb & _) _] _]. destruct (lookup_m0 st mark most b Hr Hb) as (b0 & Hb0 & _). eauto.
Qed.

(** The best candidate is not below the tip. *)
Lemma goal_chain st mark tip most : run st mark → chain_of m0 tip (m_chain st) → goal st most →
  Some most ∈ m_chain st → most = tip.
Proof.
  intros Hr Hch Hg Hin. pose proof (to_wf genesis HT) as Hwf0. destruct (goal_lookup st mark most Hr Hg) as [b Hb].
  apply (chain_of_elem m0 Hwf0 tip _ _ Hch) in Hin. destruct (decide (most = tip)) as [|Hn]; [done|]. exfalso.
  destruct (rn_tip _ _ Hr) as (tip' & Ht & Hle).
  assert (tip' = tip) as -> by (pose proof (chain_of_Tip m0 Hwf0 _ _ Ht); pose proof (chain_of_Tip m0 Hwf0 _ _ Hch); congruence).
  destruct (anc_lookup m0 Hwf0 tip most Hin) as (bt & ? & Hbt & _).
  refine (not_lt_le_trans addr m0 tip mark most _ _ _ _ _ _); [by eapply known_m0|by eapply mark_known|by eapply known_m0|done| |].
  - apply Hg. apply (rn_mark _ _ Hr).
  - by apply anc_lt.
Qed.

Lemma find_goal st mark : run st mark →
  ∃ most st', FindMostWorkChain addr st = Ok (Some most, st') ∧ run st' mark ∧ settles bad st st' ∧ m_chain st' = m_chain st ∧ goal st' most.
Proof.
  intros Hr. destruct (rn_tip _ _ Hr) as (tip & Hch & _).
  destruct (FindMostWorkChain_spec addr (bad := bad) st tip (run_searchable st mark tip Hr Hch)) as (r & st' & E & Hs & Hres).
  pose proof (run_settles st st' mark Hs Hr) as Hr'. pose proof (rn_core _ _ Hr') as Hc'. destruct r as [most|].
  - destruct Hres as (Hin & Hmax & Hu). exists most, st'. split_and!; [done|done|done|apply (se_chain _ _ Hs)|].
    destruct (rn_cands _ _ Hr' most Hin) as (b0 & Hb0 & Htx). split.
    + split.
      * destruct (proj1 Hc' most b0 Hb0) as (b & Hb & Ec). exists b. split; [done|].
        by destruct (core_counters _ _ Ec) as (_ & -> & _).
      * intros q d Ha Hd. destruct (decide (Some q ∈ m_chain st')) as [Hq|Hq]; [by eapply (rn_good _ _ Hr')|by eapply Hu].
    + intros q Hq. rewrite <- (lt_same addr m0 (index st')) by done. by apply Hmax.
  - exfalso. pose proof (proj1 (rn_mark _ _ Hr')) as Hm. rewrite Hres in Hm. by apply elem_of_empty in Hm.
Qed.

Lemma within_root st mark most b : run st mark → m0 !! most = Some b → within st most top.
Proof.
  intros Hr Hb. pose proof (to_wf genesis HT) as Hwf0. destruct (rn_tip _ _ Hr) as (tip & Hch & _).
  pose proof Hch as (bt & Hbt & _). pose proof (root_anc most b Hb) as Ha.
  destruct (anc_lookup m0 Hwf0 most genesis Ha) as (b' & bg & Hb' & Hbg & _). assert (b' = b) as -> by congruence.
  exists genesis, bg, b. split_and!; [done| |done|done|].
  - apply (chain_of_elem m0 Hwf0 tip _ _ Hch). by eapply root_anc.
  - pose proof (Htop most b Hb). destruct (Hwf0 genesis bg Hbg). lia.
Qed.

Lemma moves_unfailed st st' : moves st st' → (size (unfailed (index st')) <= size (unfailed (index st)))%nat.
Proof. intros [Hc Hf _ _]. apply subseteq_size. by apply unfailed_mono. Qed.

Lemma within_closer st st' most tip k : chain_of m0 tip (m_chain st') → anc m0 most tip →
  (∀ f, anc m0 most f → Some f ∈ m_chain st → anc m0 tip f ∧ tip ≠ f) → within st most k →
  (0 < k)%nat ∧ within st' most (k - 1).
Proof.
  intros Hch Ha Habove (f & bf & bm & Hmf & Hf & Hbf & Hbm & Hk). pose proof (to_wf genesis HT) as Hwf0.
  destruct (Habove f Hmf Hf) as [Htf Hn].
  destruct (anc_lookup m0 Hwf0 tip f Htf) as (bt & bf' & Hbt & Hbf' & Hle). assert (bf' = bf) as -> by congruence.
  destruct (anc_lookup m0 Hwf0 most tip Ha) as (bm' & bt' & Hbm' & Hbt' & Hle'). simplify_eq.
  assert (nHeight bt ≠ nHeight bf) as Hne by (intros E; apply Hn; by eapply (anc_same_height tip f)).
  split; [lia|]. exists tip, bt, bm. split_and!; [done| |done|done|lia].
  apply (chain_of_elem m0 Hwf0 tip _ _ Hch). by eapply anc_refl.
Qed.

Lemma step_budget st mark most n given :
  run st mark → budget st (Some most) n → Some most ≠ Tip (m_chain st) → (∀ blk, given = Some blk → block_of most blk) →
  ∃ inv st' mark' n', ActivateBestChainStep addr st most given = Ok (true, inv, st') ∧
    run st' mark' ∧ moves st st' ∧ ¬ lt addr m0 mark' mark ∧
    budget st' (if inv : bool then None else Some most) n' ∧ (n' < n)%nat.
Proof.
  intros Hr [Hg (k & Hw & Hn)] Hnt Hblk. pose proof (to_wf genesis HT) as Hwf0.
  destruct (rn_tip _ _ Hr) as (tip & Hch & _). rewrite (chain_of_Tip m0 Hwf0 _ _ Hch) in Hnt.
  destruct (goal_lookup st mark most Hr Hg) as [b Hb].
  destruct (ActivateBestChainStep_spec st mark most b given Hr Hb (proj1 Hg)) as (inv & st' & mark' & E & Hr' & Hm & Hle & Hres).
  { intros Hin. apply Hnt. f_equal. by eapply goal_chain. }
  { done. }
  pose proof (moves_unfailed st st' Hm) as HU. destruct inv; cbn [step_result] in Hres.
  - exists true, st', mark', (size (unfailed (index st')) * (top + 2) + (top + 1))%nat. split_and!; [done..|cbn [budget]; lia|].
    set (x := size (unfailed (index st'))) in *. set (y := size (unfailed (index st))) in *. nia.
  - destruct Hres as (Hel & tip' & Hch' & Ha & Habove). destruct (within_closer st st' most tip' k Hch' Ha Habove Hw) as [Hk Hw'].
    exists false, st', mark', (n - 1)%nat. split_and!; try done.
    + split; [split; [done|]|exists (k - 1)%nat; split; [done|]].
      * intros q Hq. apply Hg. by apply (mv_cands _ _ Hm).
      * assert (size (unfailed (index st')) * (top + 2) <= size (unfailed (index st)) * (top + 2))%nat by (by apply Nat.mul_le_mono_r). lia.
    + lia.
Qed.

(** What the inner loop hands to the outer one. *)
Record inner_result (bc : bool) (mw nt : option uint256) st (n0 n : nat) : Prop := {
  ir_tip : bc = true → nt = Tip (m_chain st);
  ir_idle : bc = false → mw = Tip (m_chain st);
  ir_budget : budget st mw n;
  ir_less : (n < n0)%nat ∨ mw = Tip (m_chain st);
}.

Lemma activate_inner_spec fuel st mark mw nt start bc n :
  run st mark → budget st mw n → (n < fuel)%nat → (bc = true → nt = Tip (m_chain st)) →
  ∃ mw' nt' bc' st' mark' n', activate_inner addr hash_of fuel st mw nt start pblock bc = Ok (Some (mw', nt', bc'), st') ∧
    run st' mark' ∧ moves st st' ∧ ¬ lt addr m0 mark' mark ∧ inner_result bc' mw' nt' st' n n'.
Proof.
  revert st mark mw nt bc n. induction fuel as [|fuel IH]; intros st mark mw nt bc n Hr Hb Hf Hnt; [lia|]. cbn [activate_inner].
  assert (∃ most st1, match mw with None => FindMostWorkChain addr st | Some _ => Ok (mw, st) end = Ok (Some most, st1) ∧
    run st1 mark ∧ moves st st1 ∧ m_chain st1 = m_chain st ∧ budget st1 (Some most) n) as (most & st1 & -> & Hr1 & Hm1 & Ech & Hb1).
  { destruct mw as [most|]; [exists most, st; split_and!; try done; apply moves_refl|].
    destruct (find_goal st mark Hr) as (most & st1 & -> & Hr1 & Hm1%settles_moves & Ech & Hg). exists most, st1. split_and!; try done.
    split; [done|]. destruct (goal_lookup st1 mark most Hr1 Hg) as [b Hb']. exists top. split; [by eapply within_root|].
    cbn [budget] in Hb. pose proof (moves_unfailed st st1 Hm1) as HU. assert (size (unfailed (index st1)) * (top + 2) <= size (unfailed (index st)) * (top + 2))%nat by (by apply Nat.mul_le_mono_r). lia. }
  cbn [rbind]. case_bool_decide as Et.
  { exists (Some most), nt, bc, st1, mark, n. split_and!; try done; [by eapply lt_irrefl, mark_known|].
    split; [rewrite Ech; done|done|done|by right]. }
  set (given := match pblock with Some blk => _ | None => None end).
  assert (∀ blk, given = Some blk → block_of most blk) as Hgv.
  { unfold given. destruct pblock as [blk'|]; [|done]. case_bool_decide as E; [|done]. intros blk [= <-].
    subst most. by apply Hgiven. }
  destruct (step_budget st1 mark most n given Hr1 Hb1 Et Hgv) as (inv & st2 & mark2 & n2 & -> & Hr2 & Hm2 & Hle2 & Hb2 & Hn2).
  cbn [rbind negb]. destruct (match Tip (m_chain st2) with Some _ => _ | None => true end).
  - destruct (IH st2 mark2 (if inv then None else Some most) (Tip (m_chain st2)) true n2 Hr2 Hb2 ltac:(lia) (fun _ => eq_refl))
      as (mw' & nt' & bc' & st' & mark' & n' & -> & Hr' & Hm' & Hle' & [H1 H2 H3 H4]).
    exists mw', nt', bc', st', mark', n'. split_and!; [done|done| | |].
    + eapply moves_trans; [done|]. by eapply moves_trans.
    + apply (not_lt_le_trans addr m0 mark mark2 mark'); try done; by eapply mark_known.
    + split; [done..|]. destruct H4; [left; lia|by right].
  - exists (if inv then None else Some most), (Tip (m_chain st2)), true, st2, mark2, n2.
    split_and!; [done|done|by eapply moves_trans|done|]. split; [done|done|done|by left].
Qed.

Lemma run_coins st mark c : run st mark → holds (m_chain st) c → run (set_coins st c) mark.
Proof. intros [] Hc. by split. Qed.

Lemma activate_outer_spec fuel steps st mark mw nt n :
  run st mark → budget st mw n → (n < fuel)%nat → (n < steps)%nat →
  ∃ st' mark' most, activate_outer addr hash_of fuel steps st mw nt pblock = Ok (true, st') ∧
    run st' mark' ∧ moves st st' ∧ ¬ lt addr m0 mark' mark ∧ goal st' most ∧ chain_of m0 most (m_chain st').
Proof.
  pose proof (to_wf genesis HT) as Hwf0.
  assert (∀ st mark n, run st mark → budget st (Tip (m_chain st)) n → ∃ most, goal st most ∧ chain_of m0 most (m_chain st)) as Hend.
  { intros st0 mark0 n0 Hr0 Hb0. destruct (rn_tip _ _ Hr0) as (tip & Hch & _). rewrite (chain_of_Tip m0 Hwf0 _ _ Hch) in Hb0.
    destruct Hb0 as [Hg _]. by exists tip. }
  revert st mark mw nt n. induction fuel as [|fuel IH]; intros st mark mw nt n Hr Hb Hf Hs; [lia|]. cbn [activate_outer].
  destruct (activate_inner_spec steps st mark mw nt (Tip (m_chain st)) false n Hr Hb Hs ltac:(done))
    as (mw1 & nt1 & bc & st1 & mark1 & n1 & -> & Hr1 & Hm1 & Hle1 & [H1 H2 H3 H4]). cbn [rbind].
  destruct bc; cbn [negb].
  - specialize (H1 eq_refl). case_bool_decide as Et.
    + destruct (law_flush (m_chain st1) (coins_tip st1) (rn_coins _ _ Hr1)) as (c & -> & Hc).
      assert (mw1 = Tip (m_chain st1)) as -> by congruence. destruct (Hend st1 mark1 n1 Hr1 H3) as (most & Hg & Hch).
      exists (set_coins st1 c), mark1, most. split_and!; try done; [by apply run_coins|].
      eapply moves_trans; [done|]. by apply moves_index.
    + destruct H4 as [Hlt|E]; [|congruence].
      destruct (IH st1 mark1 mw1 nt1 n1 Hr1 H3 ltac:(lia) ltac:(lia)) as (st' & mark' & most & -> & Hr' & Hm' & Hle' & Hg & Hch).
      exists st', mark', most. split_and!; try done; [by eapply moves_trans|].
      apply (not_lt_le_trans addr m0 mark mark1 mark'); try done; by eapply mark_known.
  - specialize (H2 eq_refl). subst mw1. destruct (Hend st1 mark1 n1 Hr1 H3) as (most & Hg & Hch).
    exists st1, mark1, most. by split_and!.
Qed.

Lemma goal_mark st mark most : run st mark → goal st most → chain_of m0 most (m_chain st) → most = mark.
Proof.
  intros Hr Hg Hch. pose proof (to_wf genesis HT) as Hwf0. destruct (goal_lookup st mark most Hr Hg) as [b Hb].
  destruct (rn_tip _ _ Hr) as (tip & Ht & Hle).
  assert (tip = most) as -> by (pose proof (chain_of_Tip m0 Hwf0 _ _ Ht); pose proof (chain_of_Tip m0 Hwf0 _ _ Hch); congruence).
  destruct (lt_total addr m0 most mark) as [Hlt|[?|Hlt]]; [by eapply known_m0|by eapply mark_known| |done|done].
  exfalso. apply (proj2 Hg mark); [apply (rn_mark _ _ Hr)|done].
Qed.

(** When nothing is better than the tip, the block that was handed in is not looked at. *)
Lemma quiet_inner fuel st tip nt start given bc :
  run st tip → chain_of m0 tip (m_chain st) → (∀ p, eligible (index st) p → ¬ lt addr m0 tip p) →
  ∃ st', activate_inner addr hash_of (S fuel) st None nt start given bc = Ok (Some (Some tip, nt, bc), st') ∧ settles bad st st' ∧ run st' tip.
Proof.
  intros Hr Hch Hq. destruct (find_goal st tip Hr) as (most & st' & E & Hr' & Hs & Ech & Hg).
  assert (most = tip) as ->.
  { destruct (goal_lookup st' tip most Hr' Hg) as [b Hb].
    destruct (lt_total addr m0 most tip) as [Hlt|[?|Hlt]]; [by eapply known_m0|by eapply mark_known| |done|].
    - destruct (proj2 Hg tip); [apply (rn_mark _ _ Hr')|done].
    - destruct (Hq most); [|done]. eapply settles_eligible; [exact Hs|apply Hg]. }
  exists st'. split_and!; [|done|done]. cbn [activate_inner]. rewrite E. cbn [rbind].
  by rewrite Ech, (chain_of_Tip m0 (to_wf genesis HT) _ _ Hch), bool_decide_eq_true_2.
Qed.

End Run.

#[global] Arguments moves {C} bad st st'.

(** ** Enough steps *)

Lemma foldr_max (l : list CBlockIndex) b : b ∈ l →
  (Z.to_nat (nHeight b) <= foldr (fun b h => Nat.max (Z.to_nat (nHeight b)) h) 0 l)%nat.
Proof.
  induction l as [|c l IH]; [by intros ?%elem_of_nil|]. intros [->|H]%elem_of_cons; cbn [foldr]; [lia|].
  specialize (IH H). lia.
Qed.

Definition top_height (m : BlockMap) : nat :=
  foldr (fun b h => Nat.max (Z.to_nat (nHeight b)) h) 0%nat ((map_to_list m).*2).

Lemma tree_height_max (m : BlockMap) p b : m !! p = Some b → (Z.to_nat (nHeight b) <= top_height m)%nat.
Proof.
  intros Hb. apply foldr_max. apply list_elem_of_fmap. exists (p, b). split; [done|]. by apply elem_of_map_to_list.
Qed.

Lemma unfailed_size m : (size (unfailed m) <= size m)%nat.
Proof.
  rewrite <- (size_dom (D := gset uint256) m). apply subseteq_size. unfold unfailed. apply dom_filter_subseteq.
Qed.

Lemma steps_enough {C} (st : Chainstate C) :
  (size (unfailed (index st)) * (top_height (index st) + 2) + (top_height (index st) + 1) < activation_steps st)%nat.
Proof.
  unfold activation_steps. fold (top_height (index st)). pose proof (unfailed_size (index st)) as H.
  set (u := size (unfailed (index st))) in *. set (h := top_height (index st)). nia.
Qed.

(** ** A chain state between two calls *)

Section Kept.
Context {C : Type} `{!BlockEngine C} (addr : uint256 → Z).
Context (block_of : uint256 → CBlock → Prop) (holds : CChain → C → Prop) (connectable : uint256 → Prop).
Implicit Types (st : Chainstate C).

(** Every block that could replace the tip is a candidate. *)
Record well_kept (genesis : uint256) st (tip : uint256) : Prop := {
  wk_tree : tree_ok (index st) genesis;
  wk_chain : chain_of (index st) tip (m_chain st);
  wk_tip : eligible (index st) tip;
  wk_cands : ∀ p, p ∈ setBlockIndexCandidates st → ∃ b, index st !! p = Some b ∧ nChainTx b ≠ 0;
  wk_complete : ∀ p, eligible (index st) p → ¬ lt addr (index st) p tip → p ∈ setBlockIndexCandidates st;
  wk_coins : holds (m_chain st) (coins_tip st);
  wk_files : ∀ p b, index st !! p = Some b → usable b = true → ∃ blk, block_files st !! p = Some blk ∧ block_of p blk;
  wk_invalid : pointer_ok (index st) (m_best_invalid st);
  wk_header : pointer_ok (index st) (m_best_header st);
}.

Lemma tree_ok_same m m' genesis : same_core m m' → tree_ok m genesis → tree_ok m' genesis.
Proof.
  intros Hs [H1 H2 H3 H4].
  assert (∀ p b', m' !! p = Some b' → ∃ b, m !! p = Some b ∧ pprev b = pprev b' ∧ nChainWork b = nChainWork b' ∧ nChainTx b = nChainTx b') as Hk.
  { intros p b' Hb'. destruct (proj2 Hs p b' Hb') as (b & Hb & Ec). exists b.
    destruct (core_fields _ _ Ec) as (-> & _ & _ & -> & _). by destruct (core_counters _ _ Ec) as (_ & -> & _). }
  split.
  - by eapply wf_tree_same.
  - intros p b' Hb'. destruct (Hk p b' Hb') as (b & Hb & <- & <- & _). destruct (H2 p b Hb) as [Hw Hlt]. split; [done|].
    intros q c' Hq Hc'. destruct (Hk q c' Hc') as (c & Hc & _ & <- & _). by eapply Hlt.
  - intros p b' Hb'. destruct (Hk p b' Hb') as (b & Hb & <- & _). by apply H3.
  - intros p b' q c' Hb' Htx Hq Hc'. destruct (Hk p b' Hb') as (b & Hb & E1 & _ & E2). destruct (Hk q c' Hc') as (c & Hc & _ & _ & <-).
    apply (H4 p b q c); congruence.
Qed.

Lemma run_start genesis st tip `{!EngineLaws C (index st) block_of holds connectable} :
  well_kept genesis st tip → run addr (index st) block_of holds connectable st tip.
Proof.
  intros [Ht Hch He Hk Hcm Hco Hfi Hi Hh]. pose proof (to_wf _ _ Ht) as Hwf.
  destruct He as [(b & Hb & Htx) Hu]. split; try done.
  - exists tip. split; [done|]. apply lt_irrefl. by apply (known_m0 (index st) genesis Ht tip b).
  - intros p d Hp Hd. apply (Hu p); [|done]. by apply (chain_of_elem _ Hwf tip (m_chain st) p Hch).
  - split_and!; [|split; [eauto|done]|].
    + apply Hcm; [split; [eauto|done]|]. apply lt_irrefl. by apply (known_m0 (index st) genesis Ht tip b).
    + by eapply (holds_valid (index st) block_of holds connectable genesis Ht).
  - by intros p [? _].
Qed.

Lemma run_kept genesis m0 st tip :
  tree_ok m0 genesis → chain_of m0 tip (m_chain st) → run addr m0 block_of holds connectable st tip →
  well_kept genesis st tip.
Proof.
  intros Ht Hch Hr. pose proof Hr as [Hc _ Hg Hk (_ & Hm & _) Hcm _ Hco Hfi Hi Hh]. split; try done.
  - by eapply tree_ok_same.
  - by eapply chain_of_same.
  - intros p Hp. destruct (Hk p Hp) as (b0 & Hb0 & Htx). destruct (proj1 Hc p b0 Hb0) as (b & Hb & Ec). exists b.
    split; [done|]. by destruct (core_counters _ _ Ec) as (_ & -> & _).
  - intros p He. rewrite (lt_same addr m0 (index st)) by done. by apply Hcm.
Qed.

(** The laws do not depend on the statuses of the entries. *)
Lemma laws_same m m' : same_core m m' → EngineLaws C m block_of holds connectable → EngineLaws C m' block_of holds connectable.
Proof.
  intros Hs HL. assert (∀ q ch, chain_of m' q ch → chain_of m q ch) as Hch.
  { intros q ch. apply chain_of_same. by apply same_core_sym. }
  split.
  - intros bm blk p b q ch c Hc Hb Hq Hq'. apply (law_connect bm blk p b q ch c); [by etrans|done|done|by apply Hch].
  - intros bm blk p b q ch c Hc Hb Hq Hq'. apply (law_disconnect bm blk p b q ch c); [by etrans|done|done|by apply Hch].
  - apply law_flush.
  - intros ch c p b' q Hh Hp Hb' Hq. destruct (proj2 Hs p b' Hb') as (b & Hb & Ec).
    apply (law_history ch c p b q Hh Hp Hb). by destruct (core_fields _ _ Ec) as (-> & _).
Qed.

Lemma activate_spec (Hinj : Inj (=) (=) addr) (bad : uint256 → Prop) genesis st tip (hash_of : CBlock → uint256) pblock :
  (∀ p, ¬ connectable p → bad p) →
  EngineLaws C (index st) block_of holds connectable → well_kept genesis st tip →
  (∀ blk, pblock = Some blk → block_of (hash_of blk) blk) →
  ∃ st' tip', ActivateBestChain addr hash_of st pblock = Ok (true, st') ∧ well_kept genesis st' tip' ∧
    moves bad st st' ∧ ¬ lt addr (index st) tip' tip ∧ valid_chain (index st) connectable tip' ∧
    (∀ p, eligible (index st) p → valid_chain (index st) connectable p →
         eligible (index st') p ∧ ¬ lt addr (index st) tip' p) ∧
    ∀ p, eligible (index st') p → ¬ lt addr (index st) tip' p.
Proof.
  intros Hbad HL Hwk Hgiven. pose proof (wk_tree _ _ _ Hwk) as Ht. pose proof (run_start genesis st tip Hwk) as Hr.
  destruct (activate_outer_spec addr (index st) block_of holds connectable Hbad genesis Ht hash_of pblock Hgiven
    (top_height (index st)) (tree_height_max (index st)) (activation_steps st) (activation_steps st) st tip None None _ Hr
    (Nat.le_refl _) (steps_enough st) (steps_enough st)) as (st' & mark & most & E & Hr' & Hm & Hle & Hg & Hch).
  assert (most = mark) as -> by (by eapply (goal_mark addr (index st) block_of holds connectable genesis Ht)).
  assert (∀ p, eligible (index st') p → ¬ lt addr (index st) mark p) as Hbest.
  { intros p He'. pose proof (rn_core _ _ _ _ _ _ _ Hr') as Hc. pose proof (eligible_known (index st) genesis Ht _ _ Hc He') as Kp.
    assert (known (index st) mark) as Km by (by eapply (mark_known addr (index st) block_of holds connectable genesis Ht)).
    intros Hlt. apply (proj2 Hg p); [|done]. apply (rn_complete _ _ _ _ _ _ _ Hr' p He').
    intros Hlt'. apply (lt_irrefl addr (index st) p Kp). by apply (lt_trans addr (index st) p mark p). }
  exists st', mark. split_and!; [done|by eapply run_kept|done|done|apply (rn_mark _ _ _ _ _ _ _ Hr')| |done].
  intros p He Hv. assert (eligible (index st') p) by (by apply (rn_sound _ _ _ _ _ _ _ Hr')). auto.
Qed.

(** A call when there is nothing to do, whatever block it is given. *)
Lemma activate_quiet (Hinj : Inj (=) (=) addr) (bad : uint256 → Prop) genesis st tip (hash_of : CBlock → uint256) pblock :
  (∀ p, ¬ connectable p → bad p) →
  EngineLaws C (index st) block_of holds connectable → well_kept genesis st tip →
  (∀ p, eligible (index st) p → ¬ lt addr (index st) tip p) →
  ∃ st', ActivateBestChain addr hash_of st pblock = Ok (true, st') ∧ settles bad st st'.
Proof.
  intros Hbad HL Hwk Hq. pose proof (wk_tree _ _ _ Hwk) as Ht. pose proof (run_start genesis st tip Hwk) as Hr.
  unfold ActivateBestChain. pose proof (steps_enough st) as Hn. destruct (activation_steps st) as [|n]; [lia|].
  destruct (quiet_inner addr (index st) block_of holds connectable (bad := bad) genesis Ht hash_of n st tip None (Tip (m_chain st)) pblock
    false Hr (wk_chain _ _ _ Hwk) Hq) as (st' & E & Hs & _).
  exists st'. split; [|done]. change (activate_outer addr hash_of (S n) (S n) st None None pblock) with
    (let! (r, st) := activate_inner addr hash_of (S n) st None None (Tip (m_chain st)) pblock false in
     match r with
     | None => Ok (false, st)
     | Some (pindexMostWork, pindexNewTip, blocks_connected) =>
         if negb blocks_connected then Ok (true, st)
         else if bool_decide (pindexNewTip = pindexMostWork) then
           match flush_state (coins_tip st) with
           | None => Ok (false, st)
           | Some coins => Ok (true, set_coins st coins)
           end
         else activate_outer addr hash_of n (S n) st pindexMostWork pindexNewTip pblock
     end). by rewrite E.
Qed.

End Kept.
End Activation.

(** * Properties *)

Module ActivationProps.
Import Activation.

(** C4: [ActivateBestChain] returns, within the bounded number of steps of the
    model, without tripping an assertion, whatever blocks turn out to be invalid
    on the way.  It ends on a tip whose chain is valid, whose coins are the
    coins of that chain, and than which no block that has its data, has not
    failed and is valid down to the genesis is better; the set of candidates is
    again complete, so that the next call finds what this one left. *)
Theorem best_valid_chain_activated {C : Type} `{!BlockEngine C} (addr : uint256 → Z)
    (block_of : uint256 → CBlock → Prop) (holds : CChain → C → Prop) (connectable : uint256 → Prop)
    genesis (st : Chainstate C) tip (hash_of : CBlock → uint256) pblock :
  Inj (=) (=) addr → EngineLaws C (index st) block_of holds connectable →
  well_kept addr block_of holds genesis st tip → (∀ blk, pblock = Some blk → block_of (hash_of blk) blk) →
  ∃ st' tip', ActivateBestChain addr hash_of st pblock = Ok (true, st') ∧
    well_kept addr block_of holds genesis st' tip' ∧
    same_core (index st) (index st') ∧ ¬ lt addr (index st) tip' tip ∧ valid_chain (index st) connectable tip' ∧
    ∀ p, eligible (index st) p → valid_chain (index st) connectable p →
         eligible (index st') p ∧ ¬ lt addr (index st) tip' p.
Proof.
  intros Hinj HL Hwk Hg.
  destruct (activate_spec addr block_of holds connectable Hinj (fun p => ¬ connectable p) genesis st tip hash_of pblock (fun _ Hn => Hn) HL Hwk Hg)
    as (st' & tip' & E & Hk & Hm & H1 & H2 & H3 & _). exists st', tip'. split_and!; try done. apply Hm.
Qed.

(** ** A concrete node *)

(** Addresses: an injection. *)
Definition demo_addr (p : uint256) : Z := Zpos (encode p).

(** An engine whose coins are the list of blocks, and that rejects block [2]. *)
Definition demo_engine : BlockEngine CChain := {|
  connect_block bm _ p c :=
    Ok (if bool_decide (p = [2]) then BlockInvalid false
        else Connected (c ++ [Some p]) (default 0 (nStatus <$> m_block_index bm !! p)));
  disconnect_block _ _ _ c := Ok (Some (removelast c));
  flush_state c := Some c;
|}.

Definition demo_entry (pp : option uint256) (h seq : Z) : CBlockIndex :=
  {| pprev := pp; pskip := None; nHeight := h; nChainWork := of_u64 (h + 1); nTx := 1; nChainTx := h + 1;
     nStatus := 11; nVersion := 1; hashMerkleRoot := []; nTime := 0; nBits := 0x207fffff; nNonce := 0;
     nSequenceId := seq; nTimeMax := 0 |}.
(** [0 <- 1 <- 2] and [1 <- 3], where [3] arrived last. *)
Definition demo_map : BlockMap :=
  <[ [3] := demo_entry (Some [1]) 2 3 ]> (<[ [2] := demo_entry (Some [1]) 2 2 ]>
  (<[ [1] := demo_entry (Some [0]) 1 1 ]> (<[ [0] := demo_entry None 0 0 ]> ∅))).
Definition demo_block : CBlock := mkBlock (mkHeader 0 [] [] 0 0 0) [] false false false.
Definition demo_state : Chainstate CChain :=
  mkChainstate (mkManager (mkBlockManager demo_map (Some [3]) ∅) []) [] None 4 (-1) (of_u64 0) [Some [0]]
    {[ [0]; [1]; [2]; [3] ]} (fmap (fun _ => demo_block) demo_map) [Some [0]].
Definition demo_of (p : uint256) (blk : CBlock) : Prop := blk = demo_block.
Definition demo_holds (ch c : CChain) : Prop := c = ch ∧ Some [2] ∉ ch.

Lemma demo_cases p b : demo_map !! p = Some b →
  (p = [0] ∧ b = demo_entry None 0 0) ∨ (p = [1] ∧ b = demo_entry (Some [0]) 1 1) ∨
  (p = [2] ∧ b = demo_entry (Some [1]) 2 2) ∨ (p = [3] ∧ b = demo_entry (Some [1]) 2 3).
Proof.
  unfold demo_map. intros [[<- <-]|[_ H]]%lookup_insert_Some; [by auto|]. revert H.
  intros [[<- <-]|[_ H]]%lookup_insert_Some; [by auto|]. revert H.
  intros [[<- <-]|[_ H]]%lookup_insert_Some; [by auto|]. revert H.
  intros [[<- <-]|[_ H]]%lookup_insert_Some; [by auto|]. by rewrite lookup_empty in H.
Qed.

Lemma demo_tree : tree_ok demo_map [0].
Proof.
  split.
  - intros p b [[-> ->]|[[-> ->]|[[-> ->]|[-> ->]]]]%demo_cases; (split; [done|]); cbn [pprev demo_entry]; [done|..];
      (split; [eexists; split; [reflexivity|done]|done]).
  - intros p b Hb. assert (wf (nChainWork b) ∧ val (nChainWork b) = nHeight b + 1) as [Hw Hv].
    { apply demo_cases in Hb as [[-> ->]|[[-> ->]|[[-> ->]|[-> ->]]]]; (split; [apply of_u64_wf|apply of_u64_val; unfold in_u; cbn; lia]). }
    split; [done|]. intros q c Hq Hc.
    apply demo_cases in Hb as [[-> ->]|[[-> ->]|[[-> ->]|[-> ->]]]]; cbn [pprev demo_entry] in Hq; simplify_eq;
      vm_compute in Hc; injection Hc as <-; reflexivity.
  - by intros p b [[-> ->]|[[-> ->]|[[-> ->]|[-> ->]]]]%demo_cases.
  - by intros p b q c _ _ _ [[-> ->]|[[-> ->]|[[-> ->]|[-> ->]]]]%demo_cases.
Qed.

Lemma demo_laws : @EngineLaws CChain demo_engine demo_map demo_of demo_holds (fun p => p ≠ [2]).
Proof.
  split.
  - intros bm blk p b q ch c _ Hb _ _ _ [-> Hn]. cbn. case_bool_decide as E; [right; split; [intros Hp; by apply Hp|done]|left].
    split; [done|]. eexists _, _. split; [done|]. rewrite Hb. split; [split; [done|]|done].
    intros [?|[= ?]%list_elem_of_singleton]%elem_of_app; congruence.
  - intros bm blk p b q ch c _ _ _ _ _ [-> Hn]. exists ch. cbn. rewrite removelast_last. split; [done|].
    split; [done|set_solver].
  - intros ch c [-> Hn]. by exists ch.
  - intros ch c p b q [-> Hn] Hp _ _ ->. done.
Qed.

Lemma demo_kept : @well_kept CChain demo_addr demo_of demo_holds [0] demo_state [0].
Proof.
  split.
  - exact demo_tree.
  - exists (demo_entry None 0 0). split; [reflexivity|]. split; [reflexivity|]. intros i p Hp.
    destruct (is_anc_inv demo_map (to_wf _ _ demo_tree) [0] (demo_entry None 0 0) _ _ eq_refl Hp) as [[Hi ->]|(_ & q & Hq & _)]; [|done].
    cbn in Hi. by replace i with 0%nat by lia.
  - split; [by eexists|]. by intros q b _ [[-> ->]|[[-> ->]|[[-> ->]|[-> ->]]]]%demo_cases.
  - intros p Hp. assert (p = [0] ∨ p = [1] ∨ p = [2] ∨ p = [3]) as [->|[->|[->| ->]]] by (cbn in Hp; set_solver);
      by eexists.
  - intros p [(b & Hb & _) _] _. apply demo_cases in Hb as [[-> ->]|[[-> ->]|[[-> ->]|[-> ->]]]]; cbn; set_solver.
  - split; [done|]. cbn. intros [=]%list_elem_of_singleton.
  - intros p b Hb _. exists demo_block. split; [|done]. unfold demo_state. cbn [block_files]. rewrite lookup_fmap.
    change (demo_map !! p = Some b) in Hb. by rewrite Hb.
  - done.
  - intros q [= <-]. by eexists.
Qed.

Lemma best_valid_chain_activated_witness :
  ∃ st' tip', @ActivateBestChain CChain demo_engine demo_addr (fun _ => [0]) demo_state None = Ok (true, st') ∧
    @well_kept CChain demo_addr demo_of demo_holds [0] st' tip' ∧
    same_core demo_map (index st') ∧ ¬ lt demo_addr demo_map tip' [0] ∧ valid_chain demo_map (fun p => p ≠ [2]) tip' ∧
    ∀ p, eligible demo_map p → valid_chain demo_map (fun p => p ≠ [2]) p →
         eligible (index st') p ∧ ¬ lt demo_addr demo_map tip' p.
Proof.
  apply (@best_valid_chain_activated CChain demo_engine demo_addr demo_of demo_holds (fun p => p ≠ [2]) [0] demo_state [0]
    (fun _ => [0]) None).
  - intros p q [= H]. by apply (inj encode).
  - exact demo_laws.
  - exact demo_kept.
  - done.
Defined.

End ActivationProps.
