(* ===== verification/Engine.v ===== *)
(** The engine of chain selection: [ConnectBlock] and [DisconnectBlock] run on a
    cache over [CoinsTip()] that is flushed into it, undo data in files, and
    [FlushStateToDisk] ([src/validation.cpp], [WriteUndoDataForBlock] of
    [src/node/blockstorage.cpp]).  It keeps the laws chain selection relies on,
    for the validity of blocks that the rules of [ConnectExact] define. *)
From Stdlib Require Import ZArith Lia.
From stdpp Require Import gmap.
From S2P Require Import Prelude Arith256 Chain Params Pow Headers Serialize Script Transaction Interpreter SigHash VerifyScript InterpreterFacts VerifyFacts Block Coins TxVerify Merkle Subsidy BlockChecks Connect ConnectFacts ConnectExact ChainSelection ChainSelectionFacts ChainActivation.
Import Arith256.BaseUint Arith256.BaseUintFacts Interpreter SigHash VerifyScript SafetyFacts VerifySafety Consensus Script Amount Transaction Chain ChainFacts Headers HeadersFacts Block Coins TxVerify Subsidy SubsidyFacts BlockChecks Connect.
Import TransactionFacts CoinsSpec CoinsFacts TxVerifyFacts BlockChecksFacts Effect OnView Rules Exact ChainSelection MostWork EngineInterface Activation.
Local Open Scope bb_scope.

Module Engine.

(** [CoinsTip()] and the undo files. *)
Record coins_state (B : Type) := mkCoinsState {
  tip_view : CCoinsViewCache B;
  undo_files : gmap uint256 CBlockUndo;
}.
Arguments mkCoinsState {B}.
Arguments tip_view {B}.
Arguments undo_files {B}.

Section Engine.
Context {B : Type} `{!CCoinsView B}.
Context (Hash : list Z → uint256) (GetBlockHash : CBlockHeader → uint256) (params : Params).
Context (CheckSignetBlockSolution : CBlockHeader * list CTransaction → bool).
Context (hashes : script_hashes) (lib : sig_lib) (script_cached : CTransaction → Z → bool).
Context (assumed_valid : option uint256) (minimum_chain_work : base_uint).
Context (parallel_script_checks : bool) (founderScript : option CScript).
(** Undo data can be written to disk; the cache is to be written now. *)
Context (undo_writable : CBlockUndo → bool) (fDoFullFlush : CCoinsViewCache B → bool).

(** [CCoinsViewCache view(&CoinsTip())] *)
Definition work_view (c : coins_state B) : CCoinsViewCache (CCoinsViewCache B) := mkCache (tip_view c) null256 ∅ 0.

(** [bool flushed = view.Flush(); assert(flushed)] *)
Definition flush_view (view : CCoinsViewCache (CCoinsViewCache B)) : result chain_error (CCoinsViewCache B) :=
  match Flush view with
  | Ok (true, view) => Ok (base view)
  | _ => Err Chain.AssertFailed
  end.

(** What the state of a failed [ConnectBlock] says. *)
Definition connect_failure (e : connect_error) : result chain_error (connect_outcome (coins_state B)) :=
  match e with
  | CorruptBlock | UndoWriteFailed => Ok SystemError
  | e => if rejects e then Ok (BlockInvalid false) else Err Chain.AssertFailed
  end.

(** [WriteUndoDataForBlock]: undo data is written once. *)
Definition write_undo (files : gmap uint256 CBlockUndo) (p : uint256) (undo : option CBlockUndo) : gmap uint256 CBlockUndo :=
  match undo, files !! p with
  | Some u, None => <[p := u]> files
  | _, _ => files
  end.
Definition undo_status (files : gmap uint256 CBlockUndo) (p : uint256) (undo : option CBlockUndo) (status : Z) : Z :=
  match undo, files !! p with
  | Some _, None => Z.lor status BLOCK_HAVE_UNDO
  | _, _ => status
  end.

Definition engine_connect (bm : BlockManager) (block : CBlock) (pindex : uint256) (c : coins_state B)
    : result chain_error (connect_outcome (coins_state B)) :=
  match ConnectBlock Hash GetBlockHash params CheckSignetBlockSolution hashes lib script_cached assumed_valid
          (default null256 (best_header bm)) minimum_chain_work parallel_script_checks founderScript undo_writable
          (m_block_index bm) block pindex (work_view c) false with
  | Ok r =>
      let! tip := flush_view (c_view r) in
      Ok (Connected (mkCoinsState tip (write_undo (undo_files c) pindex (c_undo r)))
            (undo_status (undo_files c) pindex (c_undo r) (c_status r)))
  | Err e => connect_failure e
  end.

Definition engine_disconnect (bm : BlockManager) (block : CBlock) (pindex : uint256) (c : coins_state B)
    : result chain_error (option (coins_state B)) :=
  let '(best, view) := GetBestBlock (work_view c) in
  let! _ := require (bool_decide (best = pindex)) Chain.AssertFailed in
  match DisconnectBlock Hash (m_block_index bm) block pindex (undo_files c !! pindex) view with
  | Ok (DISCONNECT_OK, view) =>
      let! tip := flush_view view in
      Ok (Some (mkCoinsState tip (undo_files c)))
  | Ok _ => Ok None
  | Err _ => Err Chain.AssertFailed
  end.

(** The part of [FlushStateToDisk] that concerns the coins. *)
Definition FlushStateToDisk (c : coins_state B) : option (coins_state B) :=
  if negb (fDoFullFlush (tip_view c)) then Some c
  else
    let '(best, view) := GetBestBlock (tip_view c) in
    if IsNull256 best then Some (mkCoinsState view (undo_files c))
    else
      match Flush view with
      | Ok (true, view) => Some (mkCoinsState view (undo_files c))
      | _ => None
      end.

Definition engine : BlockEngine (coins_state B) := {|
  connect_block := engine_connect;
  disconnect_block := engine_disconnect;
  flush_state := FlushStateToDisk;
|}.

End Engine.
End Engine.

(** * The laws *)
Module EngineFacts.
Import Engine.

(** ** The rules depend on the tree, not on statuses *)

Lemma sequence_locks_loop_grows m m' block l hs mh mt r : grows m m' →
  sequence_locks_loop m block l hs mh mt = Ok r → sequence_locks_loop m' block l hs mh mt = Ok r.
Proof.
  intros He. revert hs mh mt r. induction l as [|i l IH]; intros hs mh mt r; [done|]. destruct hs as [|hc hs]; [done|].
  cbn [sequence_locks_loop]. destruct (negb _).
  - intros ([[h t] hs'] & H & H')%rbind_ok. by rewrite (IH _ _ _ _ H).
  - intros ([mh1 mt1] & H1 & H2)%rbind_ok. apply rbind_ok. exists (mh1, mt1). split.
    + destruct (negb _); [|done]. apply rbind_ok in H1 as (a & Ha & H1). apply rbind_ok. exists a. split.
      * destruct (GetAncestor m block _) as [a'|] eqn:E; [|done]. by rewrite (GetAncestor_grows m m' He _ _ _ E).
      * destruct a as [a|]; [|done]. apply rbind_ok in H1 as (t & Ht & H1). apply rbind_ok. exists t. split; [|done].
        destruct (GetMedianTimePast m a) as [t'|] eqn:E; [|done]. by rewrite (GetMedianTimePast_grows m m' He _ _ E).
    + apply rbind_ok in H2 as ([[h t] hs'] & H & H'). by rewrite (IH _ _ _ _ H).
Qed.

Lemma SequenceLocks_grows m m' tx fl hs block r : grows m m' →
  SequenceLocks m tx fl hs block = Ok r → SequenceLocks m' tx fl hs block = Ok r.
Proof.
  intros He. unfold SequenceLocks. intros ([[h t] hs'] & H1 & H2)%rbind_ok. apply rbind_ok. exists (h, t, hs'). split.
  - revert H1. unfold CalculateSequenceLocks. destruct (require _ _); [|done]. cbn [rbind].
    destruct (negb _); [done|]. by apply sequence_locks_loop_grows.
  - revert H2. unfold EvaluateSequenceLocks. destruct (deref m block) as [b|] eqn:E; [|done].
    destruct (deref_grows m m' He block b E) as (b' & -> & Ec). cbn [TxVerify.lift_chain rbind].
    destruct (shape_fields _ _ Ec) as (-> & _ & -> & _). destruct (pprev b) as [prev|]; [|done].
    destruct (GetMedianTimePast m prev) as [t'|] eqn:Et; [|done]. by rewrite (GetMedianTimePast_grows m m' He _ _ Et).
Qed.

Lemma txs_ok_grows Hash hashes lib cached m m' p h fl sf u l f c f' us u' : grows m m' →
  txs_ok Hash hashes lib cached m p h fl sf u l f c f' us u' → txs_ok Hash hashes lib cached m' p h fl sf u l f c f' us u'.
Proof.
  intros He. induction 1 as [|u tx l f c k f' us u' Hok _ IH]; constructor; [|done]. destruct Hok as [Hc Hok]. split; [done|].
  destruct (IsCoinBase tx); [done|]. destruct Hok as (? & ? & ? & ?). split_and!; try done. by eapply SequenceLocks_grows.
Qed.

Lemma enforce_bip30_grows m m' params p r : grows m m' → enforce_bip30 m params p = Ok r → enforce_bip30 m' params p = Ok r.
Proof.
  intros He. unfold enforce_bip30. destruct (deref m p) as [b|] eqn:E; [|done].
  destruct (deref_grows m m' He p b E) as (b' & -> & Ec). cbn [lift_index rbind].
  destruct (shape_fields _ _ Ec) as (-> & _ & -> & _). destruct (pprev b) as [prev|]; [|done].
  destruct (GetAncestor m prev _) as [a|] eqn:Ea; [|done]. by rewrite (GetAncestor_grows m m' He _ _ _ Ea).
Qed.

(** ** Views *)

Section Views.
Context {B : Type} `{!CCoinsView B} {utxo : B → COutPoint → option Coin} {best : B → uint256}
  {inv : B → Prop} `{HL : !CCoinsViewLaws B utxo best inv}.
Abbreviation tip_holds := (OnView.holds (utxo := utxo) (best := best) (inv := inv)).
Abbreviation work_holds := (OnView.holds (B := CCoinsViewCache B) (utxo := cache_utxo (utxo := utxo)) (best := cache_best (best := best))
  (inv := cache_inv (utxo := utxo) (inv := inv))).

Lemma work_view_holds c m b : tip_holds (tip_view c) m b → work_holds (work_view c) m b.
Proof. intros (H1 & H2 & H3). split_and!; [split; [done|apply map_fits_empty]|done|done]. Qed.

(** Flushing the working view moves the coins to [CoinsTip()]. *)
Lemma flush_view_holds v m b : work_holds v m b → IsNull256 (hashBlock v) = false →
  ∃ c, flush_view v = Ok c ∧ tip_holds c m b.
Proof.
  intros (H1 & H2 & H3) Hn. destruct (Flush_spec v H1 Hn) as (v' & E & Hs & _ & Hu & Hb). unfold flush_view. rewrite E.
  eexists. split; [done|]. split_and!; [apply (same_inv _ _ _ _ _ Hs)|intros; by rewrite Hu, H2|].
  unfold cache_best in H3. by rewrite Hn in H3; rewrite Hb.
Qed.

Lemma FlushStateToDisk_holds fDoFullFlush c m b : IsNull256 b = false → tip_holds (tip_view c) m b →
  ∃ c', FlushStateToDisk fDoFullFlush c = Some c' ∧ tip_holds (tip_view c') m b ∧ undo_files c' = undo_files c.
Proof.
  intros Hn Hc. unfold FlushStateToDisk. destruct (negb _); [by exists c|].
  pose proof Hc as (H1 & _ & H3). destruct (GetBestBlock_spec (tip_view c) H1) as [E Hs].
  assert (hashBlock (GetBestBlock (tip_view c)).2 = b) as Eh.
  { revert E. unfold GetBestBlock. destruct (IsNull256 (hashBlock (tip_view c))) eqn:En; [|cbn; by rewrite H3].
    destruct (view_GetBestBlock _). cbn. by rewrite H3. }
  destruct (GetBestBlock (tip_view c)) as [b' v]. cbn [fst snd] in *. rewrite H3 in E. subst b'. rewrite Hn.
  pose proof (holds_same _ _ _ _ Hc Hs) as Hv. destruct (Flush_spec v (proj1 Hv)) as (v' & -> & Hs' & _); [by rewrite Eh|].
  eexists. split; [done|]. split; [by eapply holds_same|done].
Qed.

Lemma holds_fun c m1 m2 b1 b2 : tip_holds c m1 b1 → tip_holds c m2 b2 → m1 = m2.
Proof. intros (_ & H1 & _) (_ & H2 & _). apply map_eq. intros o. by rewrite <- H1, <- H2. Qed.

Lemma ConnectBlock_tip Hash GetBlockHash params signet hashes lib cached av bh mw par founder W bm block p
    (v : CCoinsViewCache B) r :
  p ≠ hashGenesisBlock params →
  ConnectBlock Hash GetBlockHash params signet hashes lib cached av bh mw par founder W bm block p v false = Ok r →
  hashBlock (c_view r) = p.
Proof.
  intros Hg. unfold ConnectBlock. intros (i & _ & H)%rbind_ok. apply rbind_ok in H as (_ & _ & H).
  destruct (CheckBlock _ _ _ _ _ _ _) as [[|[r0|]]]; [|by destruct (IsMutated r0)|done]. destruct (GetBestBlock v). apply rbind_ok in H as (_ & _ & H).
  rewrite bool_decide_eq_false_2 in H by done. apply rbind_ok in H as (? & _ & H). apply rbind_ok in H as (? & _ & H).
  apply rbind_ok in H as (? & _ & H). apply rbind_ok in H as ([[[? ?] ?] ?] & _ & H). destruct (vtx _); [done|].
  apply rbind_ok in H as (? & _ & H). apply rbind_ok in H as (? & _ & H). apply rbind_ok in H as (? & _ & H).
  apply rbind_ok in H as (? & _ & H). apply rbind_ok in H as (? & _ & H). apply rbind_ok in H as (? & _ & H).
  apply rbind_ok in H as (? & _ & [= <-]). done.
Qed.

Lemma DisconnectBlock_tip Hash bm block p undo (v : CCoinsViewCache B) v' b prev :
  bm !! p = Some b → pprev b = Some prev → DisconnectBlock Hash bm block p undo v = Ok (DISCONNECT_OK, v') → hashBlock v' = prev.
Proof.
  intros Hb Hp. unfold DisconnectBlock, deref. rewrite Hb. cbn [lift_index rbind]. destruct undo as [us|]; [|done].
  destruct (negb _); [done|]. intros ([r v1] & _ & H)%rbind_ok. destruct r as [f|]; [|done]. destruct (vtx block); [done|].
  apply rbind_ok in H as ([r v2] & _ & H). destruct r; [|done]. rewrite Hp in H. by injection H as _ <-.
Qed.

End Views.

(** ** Chains of valid blocks *)

Section Laws.
Context {B : Type} `{!CCoinsView B} {utxo : B → COutPoint → option Coin} {best : B → uint256}
  {inv : B → Prop} `{HL : !CCoinsViewLaws B utxo best inv}.
Context (Hash : list Z → uint256) (GetBlockHash : CBlockHeader → uint256) (params : Params).
Context (signet : CBlockHeader * list CTransaction → bool).
Context (hashes : script_hashes) (lib : sig_lib) (script_cached : CTransaction → Z → bool).
Context (minimum_chain_work : base_uint) (parallel : bool) (founder : option CScript).
Context (undo_writable : CBlockUndo → bool) (fDoFullFlush : CCoinsViewCache B → bool).
(** The tree, and the blocks of its entries. *)
Context (m0 : BlockMap) (content : uint256 → CBlock).
Abbreviation tip_holds := (OnView.holds (utxo := utxo) (best := best) (inv := inv)).
Abbreviation work_holds := (OnView.holds (B := CCoinsViewCache B) (utxo := cache_utxo (utxo := utxo)) (best := cache_best (best := best))
  (inv := cache_inv (utxo := utxo) (inv := inv))).
Abbreviation the_engine := (engine Hash GetBlockHash params signet hashes lib script_cached None minimum_chain_work parallel founder
  undo_writable fDoFullFlush).
Abbreviation is_ok := (block_ok Hash GetBlockHash params signet hashes lib script_cached founder).

(** The parameters: [BIP34Hash] is null, so that BIP30 is always enforced. *)
Record rules_ok : Prop := {
  ru_interval : 0 < nSubsidyHalvingInterval params;
  ru_bip34 : IsNull256 (BIP34Hash params) = true;
  ru_flags : ∀ h p, flags_ok (GetBlockScriptFlags h p params);
}.

(** The entries of the tree above its root.  A block that passes [CheckBlock]
    is the one its hash names, and its transactions have distinct ids. *)
Record content_ok (p : uint256) (idx : CBlockIndex) (q : uint256) : Prop := {
  co_null : IsNull256 p = false ∧ IsNull256 q = false;
  co_height : nHeight idx < 2 ^ 31;
  co_genesis : p ≠ hashGenesisBlock params;
  co_repeat : IsBIP30Repeat (nHeight idx) p = false;
  co_block : (CheckBlock Hash GetBlockHash params signet (content p) true true).1 = Ok tt →
    GetBlockHash (header (content p)) = p ∧ base.NoDup (map (GetHash Hash) (vtx (content p))) ∧ Forall tx_bytes (vtx (content p));
}.

(** A copy of the block of [p], in a file or from the network. *)
Definition block_of (p : uint256) (blk : CBlock) : Prop :=
  header blk = header (content p) ∧ vtx blk = vtx (content p) ∧ flags_sound Hash GetBlockHash params signet blk ∧
  (CheckBlock Hash GetBlockHash params signet blk true true).1 = Ok tt ∧
  (CheckBlock Hash GetBlockHash params signet (content p) true true).1 = Ok tt.

(** The unspent set of a chain of valid blocks. *)
Inductive chain_utxo : CChain → utxo_set → Prop :=
| cu_genesis : chain_utxo [Some (hashGenesisBlock params)] ∅
| cu_block ch m p idx m' undos :
    chain_utxo ch m → m0 !! p = Some idx → is_ok m0 (content p) p idx m m' undos →
    connects Hash params founder (content p) p idx m m' undos → utxo_in (nHeight idx) m' →
    chain_utxo (ch ++ [Some p]) m'.

(** Block [p] is valid on top of its ancestors. *)
Definition connectable (p : uint256) : Prop :=
  ∃ q idx ch m', m0 !! p = Some idx ∧ pprev idx = Some q ∧ chain_of m0 q ch ∧ chain_utxo (ch ++ [Some p]) m'.

(** The coins are those of the chain, and the undo data of its blocks is there. *)
Definition undo_right (files : gmap uint256 CBlockUndo) : Prop :=
  ∀ p u, files !! p = Some u → ∀ idx q ch m m' u', m0 !! p = Some idx → pprev idx = Some q → chain_of m0 q ch →
    chain_utxo ch m → is_ok m0 (content p) p idx m m' u' → u = u'.
Definition chain_holds (ch : CChain) (c : coins_state B) : Prop :=
  ∃ tip m, chain_of m0 tip ch ∧ IsNull256 tip = false ∧ chain_utxo ch m ∧ tip_holds (tip_view c) m tip ∧
    undo_right (undo_files c) ∧ (∀ p, is_Some (undo_files c !! p) → is_Some (m0 !! p)) ∧
    ∀ p idx q, Some p ∈ ch → m0 !! p = Some idx → pprev idx = Some q → is_Some (undo_files c !! p).

Lemma chain_utxo_last ch p m' : chain_utxo (ch ++ [Some p]) m' → ch ≠ [] →
  ∃ m idx undos, chain_utxo ch m ∧ m0 !! p = Some idx ∧ is_ok m0 (content p) p idx m m' undos ∧
    connects Hash params founder (content p) p idx m m' undos ∧ utxo_in (nHeight idx) m'.
Proof.
  intros H Hn. inversion H as [E|ch' m p' idx m2 undos H1 H2 H3 H4 H5 E]; subst.
  - destruct ch as [|x [|y ch]]; done.
  - apply app_inj_tail in E as [-> [= ->]]. by exists m, idx, undos.
Qed.

Lemma chain_utxo_nonempty ch m : chain_utxo ch m → ch ≠ [].
Proof. destruct 1; [done|]. by destruct ch. Qed.

Lemma chain_utxo_det ch m1 m2 : chain_utxo ch m1 → chain_utxo ch m2 → m1 = m2.
Proof.
  intros H. revert m2. induction H as [|ch m p idx m' undos H IH Hp Hok _ _]; intros m2 H2.
  - inversion H2 as [|ch m p idx m' undos H _ _ _ _ E]; subst; [done|].
    apply chain_utxo_nonempty in H. destruct ch as [|? [|? ?]]; done.
  - destruct (chain_utxo_last ch p m2 H2 (chain_utxo_nonempty ch m H)) as (m3 & idx3 & u3 & H3 & Hp3 & Hok3 & _).
    assert (idx3 = idx) as -> by congruence. rewrite <- (IH m3 H3) in Hok3.
    by destruct (block_ok_det _ _ _ _ _ _ _ _ _ _ _ _ _ _ _ _ _ Hok Hok3).
Qed.

(** Blocks of a chain are valid. *)
Lemma chain_utxo_connectable ch m tip p idx q : wf_tree m0 →
  chain_utxo ch m → chain_of m0 tip ch → Some p ∈ ch → m0 !! p = Some idx → pprev idx = Some q → connectable p.
Proof.
  intros Hwf H. revert tip. induction H as [|ch m p' idx' m' undos H IH Hp' Hok Hk Hin]; intros tip Hch Hp Hidx Hq.
  - pose proof (chain_of_Tip m0 Hwf _ _ Hch) as Ht. injection Ht as <-. apply list_elem_of_singleton in Hp as [= ->].
    destruct (chain_of_inv m0 Hwf _ idx q _ Hidx Hq Hch) as (c' & E & (b & Hb & Hl & _)).
    destruct c' as [|? [|? ?]]; try done. destruct (Hwf q b Hb). cbn in Hl. lia.
  - pose proof (chain_of_Tip m0 Hwf _ _ Hch) as Ht. unfold Tip in Ht. rewrite length_app, Nat.add_comm in Ht. cbn in Ht.
    rewrite Nat.sub_0_r, lookup_app_r, Nat.sub_diag in Ht by lia. injection Ht as ->.
    assert (∃ q', pprev idx' = Some q') as [q' Hq'].
    { destruct (pprev idx') as [q'|] eqn:E; [by exists q'|]. destruct Hch as (b & Hb & Hl & _).
      assert (b = idx') as -> by congruence. pose proof (Hwf tip idx' Hb) as [_ H0]. rewrite E in H0.
      rewrite length_app in Hl. apply chain_utxo_nonempty in H. destruct ch; [done|]. cbn in Hl. lia. }
    destruct (chain_of_inv m0 Hwf tip idx' q' _ Hp' Hq' Hch) as (c' & E & Hc'). apply app_inj_tail in E as [<- _].
    apply elem_of_app in Hp as [Hp|[= ->]%list_elem_of_singleton]; [by eapply IH|].
    exists q', idx', ch, m'. split_and!; [done|done|done|]. by apply (cu_block ch m tip idx' m' undos).
Qed.

Context (Hrules : rules_ok) (Hhashes : hashes_ok hashes) (Hwrite : ∀ u, undo_writable u = true).
Context (Hwf : wf_tree m0) (Hcontent : ∀ p idx q, m0 !! p = Some idx → pprev idx = Some q → content_ok p idx q).

(** No block of the tree is [BIP34Hash]. *)
Lemma content_bip30 p idx q : m0 !! p = Some idx → pprev idx = Some q → enforce_bip30 m0 params p = Ok true.
Proof.
  intros Hp Hq. pose proof (Hcontent p idx q Hp Hq) as Hco. destruct (parent_height m0 Hwf p idx q Hp Hq) as (d & Hd & _).
  assert (∀ r h a, is_anc m0 r h a → IsNull256 r = false → IsNull256 a = false) as Hn.
  { intros r h a Ha. induction Ha as [|r br s h a Hr Hs _ IH]; [done|]. intros _. apply IH, (co_null _ _ _ (Hcontent r br s Hr Hs)). }
  assert (∃ a, GetAncestor m0 q (BIP34Height params) = Ok a ∧ ∀ x, a = Some x → IsNull256 x = false) as (a & Ea & Ha).
  { destruct (GetAncestor_spec _ Hwf q d (BIP34Height params) Hd) as [Hin Hout].
    destruct (decide (0 <= BIP34Height params <= nHeight d)) as [Hd1|Hd1].
    - destruct (Hin Hd1) as (x & -> & Hx). exists (Some x). split; [done|]. intros ? [= <-]. by apply (Hn _ _ _ Hx), Hco.
    - rewrite (Hout Hd1). by exists None. }
  unfold enforce_bip30, deref. rewrite Hp. cbn [lift_index rbind]. rewrite Hq, Ea, (co_repeat _ _ _ Hco). cbn [lift_index rbind negb andb].
  destruct a as [x|]; [|done]. rewrite bool_decide_eq_false_2; [done|]. intros ->. specialize (Ha _ eq_refl). by rewrite (ru_bip34 Hrules) in Ha.
Qed.

Lemma block_ok_transfer bm bm' blk blk' p b b' m m' u :
  grows bm bm' → vtx blk' = vtx blk → nHeight b' = nHeight b →
  (CheckBlock Hash GetBlockHash params signet blk' true true).1 = Ok tt →
  is_ok bm blk p b m m' u → is_ok bm' blk' p b' m m' u.
Proof.
  intros He Ev Eh Hc (_ & Hf & cb & rest & fees & Evt & Htx & Hle & Hfo). unfold block_ok. rewrite Ev, Eh.
  split_and!; [done|done|]. exists cb, rest, fees. split_and!; try done. by eapply txs_ok_grows.
Qed.

(** The situation of [ConnectBlock] when chain selection calls it. *)
Lemma engine_ready bm blk p b idx q ch m tip c bh :
  same_core m0 bm → m0 !! p = Some idx → bm !! p = Some b → pprev idx = Some q → chain_of m0 q ch → chain_utxo ch m →
  block_of p blk → tip_holds (tip_view c) m tip → tip = q →
  ready (utxo := cache_utxo (utxo := utxo)) (best := cache_best (best := best)) (inv := cache_inv (utxo := utxo) (inv := inv))
    Hash GetBlockHash params signet bm blk p b q (work_view c) m ∧
  callable GetBlockHash params None bh minimum_chain_work bm blk p b m.
Proof.
  intros Hs Hidx Hb Hq Hch Hcu (Eh & Ev & Hfl & Hck & Hcc) Hv ->. pose proof (content_bip30 p idx q Hidx Hq) as Hb30.
  destruct (Hcontent p idx q Hidx Hq) as [[Hn1 Hn2] Hht Hg _ Hblk]. destruct (Hblk Hcc) as (Hhash & Hids & Hby).
  destruct (proj1 Hs p idx Hidx) as (b' & Hb' & Ec). assert (b' = b) as -> by congruence.
  destruct (core_fields _ _ Ec) as (Epp & _ & Ehh & _).
  destruct (parent_height m0 Hwf p idx q Hidx Hq) as (d & Hd & Hhd). destruct (Hwf q d Hd) as [H0 _].
  assert (utxo_in (nHeight b) m) as Hin.
  { destruct Hcu as [|ch m p' idx' m' undos Hcu Hp' Hok Hk Hin]; [by intros o k Hk; rewrite lookup_empty in Hk|].
    pose proof (chain_of_Tip m0 Hwf _ _ Hch) as Ht. unfold Tip in Ht. rewrite length_app, Nat.add_comm in Ht. cbn in Ht.
    rewrite Nat.sub_0_r, lookup_app_r, Nat.sub_diag in Ht by lia. injection Ht as ->.
    eapply utxo_in_mono; [|done]. assert (idx' = d) as -> by congruence. lia. }
  split.
  - split; try done; try (by rewrite Ev); [lia|by rewrite Epp, Hq|eapply enforce_bip30_grows; [apply ext_grows, Hs|done]|by apply work_view_holds|by eapply utxo_in_ok].
  - split; try done; [by eapply wf_tree_same|by rewrite Eh|by rewrite Ev|by apply (ru_flags Hrules)].
Qed.

Lemma undo_right_write files p u idx q ch m m' :
  m0 !! p = Some idx → pprev idx = Some q → chain_of m0 q ch → chain_utxo ch m → is_ok m0 (content p) p idx m m' u →
  undo_right files → undo_right (write_undo files p (Some u)) ∧ is_Some (write_undo files p (Some u) !! p) ∧
  (∀ r, is_Some (files !! r) → is_Some (write_undo files p (Some u) !! r)) ∧
  ∀ r, is_Some (write_undo files p (Some u) !! r) → r = p ∨ is_Some (files !! r).
Proof.
  intros Hidx Hq Hch Hcu Hok Hr. unfold write_undo. destruct (files !! p) as [u0|] eqn:E; [by eauto 6|]. split_and!.
  - intros r u1 [[<- <-]|[_ Hr1]]%lookup_insert_Some; [|by apply (Hr r u1)].
    intros idx2 q2 ch2 m2 m2' u2 Hidx2 Hq2 Hch2 Hcu2 Hok2. simplify_eq.
    assert (ch2 = ch) as -> by (by eapply (chain_of_fun m0 Hwf q)). assert (m2 = m) as -> by (by eapply chain_utxo_det).
    by destruct (block_ok_det _ _ _ _ _ _ _ _ _ _ _ _ _ _ _ _ _ Hok Hok2).
  - rewrite lookup_insert_eq. by eexists.
  - intros r Hs. destruct (decide (r = p)) as [->|Hn]; [rewrite lookup_insert_eq; by eexists|by rewrite lookup_insert_ne].
  - intros r. destruct (decide (r = p)) as [->|Hn]; [by left|rewrite lookup_insert_ne by done; by right].
Qed.

Lemma connects_transfer blk blk' p b b' m m' u :
  header blk' = header blk → vtx blk' = vtx blk → nHeight b' = nHeight b →
  connects Hash params founder blk p b m m' u → connects Hash params founder blk' p b' m m' u.
Proof.
  intros E1 E2 E3 [H1 H2 H3 H4]. split; [by eapply contents_valid_eq|by rewrite E2, E3|done|by rewrite E3].
Qed.

Lemma undo_status_raises files p u s : raises s (undo_status files p u s).
Proof.
  unfold undo_status. destruct u as [u|]; [|done]. destruct (files !! p); [done|].
  split_and!; by rewrite Z.land_lor_distr_l, Z.lor_0_r.
Qed.

Lemma engine_connects bm blk p b q ch c :
  same_core m0 (m_block_index bm) → m_block_index bm !! p = Some b → pprev b = Some q → chain_of m0 q ch →
  block_of p blk → chain_holds ch c →
  (connectable p ∧ ∃ c' s, connect_block (BlockEngine := the_engine) bm blk p c = Ok (Connected c' s) ∧
     chain_holds (ch ++ [Some p]) c' ∧ raises (nStatus b) s) ∨
  (¬ connectable p ∧ connect_block (BlockEngine := the_engine) bm blk p c = Ok (BlockInvalid false)).
Proof.
  intros Hs Hb Hq Hch Hblk (tip & m & Ht & Htn & Hcu & Hv & Hur & Huk & Hut).
  destruct (proj2 Hs p b Hb) as (idx & Hidx & Ec). destruct (core_fields _ _ Ec) as (Epp & _ & Ehh & _). rewrite Hq in Epp.
  assert (tip = q) as -> by (pose proof (chain_of_Tip m0 Hwf _ _ Ht); pose proof (chain_of_Tip m0 Hwf _ _ Hch); congruence).
  destruct (engine_ready (m_block_index bm) blk p b idx q ch m q c (default null256 (best_header bm)) Hs Hidx Hb Epp Hch Hcu Hblk Hv eq_refl) as [Hrd Hcl].
  pose proof Hblk as (Eh & Ev & _ & Hck & Hcc). pose proof (Hcontent p idx q Hidx Epp) as Hco.
  pose proof (ConnectBlock_exact Hash GetBlockHash params signet hashes lib script_cached None (default null256 (best_header bm))
    minimum_chain_work parallel founder undo_writable (m_block_index bm) blk p b q (work_view c) m (ru_interval Hrules) Hhashes Hrd Hcl) as Hex.
  assert (∀ m' u, is_ok (m_block_index bm) blk p b m m' u ↔ is_ok m0 (content p) p idx m m' u) as Htr.
  { intros m' u. split; apply block_ok_transfer; try done; apply ext_grows, Hs. }
  cbn [connect_block engine]. unfold engine_connect. destruct (ConnectBlock _ _ _ _ _ _ _ _ _ _ _ _ _ _ _ _ _ _) as [r|e] eqn:E.
  - left. destruct Hex as (m' & u & Hok & Hu & _ & Hv' & Hin & Hst).
    pose proof (ConnectBlock_tip _ _ _ _ _ _ _ _ _ _ _ _ _ _ _ _ _ _ (co_genesis _ _ _ Hco) E) as Etip.
    destruct (ConnectBlock_spec Hash GetBlockHash params signet hashes lib script_cached None (default null256 (best_header bm))
      minimum_chain_work parallel founder undo_writable (m_block_index bm) blk p b q (work_view c) m r (ru_interval Hrules) Hrd E) as (_ & m2 & u2 & Hk & Hu2 & Hv2).
    assert (u2 = u) as -> by congruence. assert (m2 = m') as -> by (by eapply holds_fun).
    assert (chain_utxo (ch ++ [Some p]) m') as Hcu'.
    { apply (cu_block ch m p idx m' u); [done|done|by apply Htr| |by rewrite Ehh]. by eapply connects_transfer; [..|exact Hk]. }
    split; [by exists q, idx, ch, m'|].
    destruct (flush_view_holds (c_view r) m' p Hv') as (tip' & -> & Hv3); [rewrite Etip; apply Hco|]. cbn [rbind]. rewrite Hu.
    eexists _, _. split; [done|].
    destruct (undo_right_write (undo_files c) p u idx q ch m m' Hidx Epp Hch Hcu (proj1 (Htr _ _) Hok) Hur) as (W1 & W2 & W3 & W4). split.
    + exists p, m'. split_and!; [by eapply chain_of_snoc|apply Hco|done|done|done|by intros r0 [->|?%Huk]%W4; [eexists|]|]. cbn [undo_files].
      intros r0 idx0 q0 [Hr0|[= ->]%list_elem_of_singleton]%elem_of_app ? ?; [|done]. by eapply W3, Hut.
    + destruct (undo_status_raises (undo_files c) p (Some u) (c_status r)) as (S1 & S2 & S3).
      destruct Hst as [Hst1 Hst2]. split_and!; [rewrite S1; apply Hst1; by left|rewrite S2; apply Hst1; by right|lia].
  - right. destruct Hex as [[He Hno]|[(_ & r & Hr & _)|(_ & _ & u & _ & Hu)]]; [|congruence|by rewrite Hwrite in Hu]. split.
    + intros (q1 & idx1 & ch1 & m1' & Hidx1 & Hq1 & Hch1 & Hcu1).
      assert (idx1 = idx) as -> by congruence. assert (q1 = q) as -> by congruence.
      assert (ch1 = ch) as -> by (by eapply (chain_of_fun m0 Hwf q)).
      destruct (chain_utxo_last ch p m1' Hcu1 (chain_utxo_nonempty ch m Hcu)) as (m2 & idx2 & u2 & Hcu2 & Hidx2 & Hok2 & _).
      assert (idx2 = idx) as -> by congruence. assert (m2 = m) as -> by (by eapply chain_utxo_det). apply Hno. exists m1', u2. by apply Htr.
    + unfold connect_failure. destruct e; cbn [rejects] in He; try done. cbn [rejects]. by rewrite He.
Qed.

(** The supply is at most what the blocks of the chain may create. *)
Lemma chain_utxo_value ch m tip : chain_utxo ch m → chain_of m0 tip ch → value m <= emission params 1 (length ch - 1).
Proof.
  intros H. revert tip. induction H as [|ch m p idx m' undos H IH Hp Hok Hk Hin]; intros tip Hch; [done|].
  pose proof (chain_utxo_nonempty ch m H) as Hne.
  assert (tip = p) as ->.
  { pose proof (chain_of_Tip m0 Hwf _ _ Hch) as Ht. unfold Tip in Ht. rewrite length_app, Nat.add_comm in Ht. cbn in Ht.
    rewrite Nat.sub_0_r, lookup_app_r, Nat.sub_diag in Ht by lia. by injection Ht as ->. }
  pose proof Hch as (b & Hb & Hl & _). assert (b = idx) as -> by congruence. rewrite length_app in Hl |- *. cbn [length] in *.
  assert (0 < length ch)%nat as Hlen by (destruct ch; [done|cbn; lia]).
  destruct (pprev idx) as [q|] eqn:Eq; [|pose proof (Hwf p idx Hp) as [_ H0]; rewrite Eq in H0; lia].
  destruct (chain_of_inv m0 Hwf p idx q _ Hp Eq Hch) as (c' & E & Hc'). apply app_inj_tail in E as [<- _].
  specialize (IH q Hc'). pose proof (k_value _ _ _ _ _ _ _ _ _ Hk) as Hval.
  replace (length ch + 1 - 1)%nat with (length ch - 1 + 1)%nat by lia. rewrite emission_app. cbn [emission].
  replace (1 + Z.of_nat (length ch - 1)) with (nHeight idx) by lia. lia.
Qed.

Lemma chain_utxo_ok ch m : chain_utxo ch m → utxo_ok m.
Proof. destruct 1; [by intros o k Hk; rewrite lookup_empty in Hk|]. by eapply utxo_in_ok. Qed.

Lemma engine_disconnects bm blk p b q ch c :
  same_core m0 (m_block_index bm) → m_block_index bm !! p = Some b → pprev b = Some q → chain_of m0 q ch →
  block_of p blk → chain_holds (ch ++ [Some p]) c →
  ∃ c', disconnect_block (BlockEngine := the_engine) bm blk p c = Ok (Some c') ∧ chain_holds ch c'.
Proof.
  intros Hs Hb Hq Hch (Eh & Ev & _ & _ & Hcc) (tip & m' & Ht & Htn & Hcu' & Hv & Hur & Huk & Hut).
  destruct (proj2 Hs p b Hb) as (idx & Hidx & Ec). destruct (core_fields _ _ Ec) as (Epp & _ & Ehh & _). rewrite Hq in Epp.
  pose proof (chain_of_snoc m0 Hwf p idx q ch Hidx Epp Hch) as Hchp.
  assert (tip = p) as -> by (pose proof (chain_of_Tip m0 Hwf _ _ Ht); pose proof (chain_of_Tip m0 Hwf _ _ Hchp); congruence).
  assert (ch ≠ []) as Hne by (intros ->; pose proof (chain_of_Tip m0 Hwf _ _ Hch); done).
  destruct (chain_utxo_last ch p m' Hcu' Hne) as (m & idx2 & u & Hcu & Hidx2 & Hok & Hk & Hin).
  assert (idx2 = idx) as -> by congruence. destruct (Hcontent p idx q Hidx Epp) as [[Hn1 Hn2] Hht _ _ Hblk]. destruct (Hblk Hcc) as (_ & Hids & _).
  destruct (Hut p idx q ltac:(set_solver) Hidx Epp) as [u0 Hu0]. assert (u0 = u) as -> by (by eapply (Hur p u0 Hu0)).
  destruct (parent_height m0 Hwf p idx q Hidx Epp) as (d & Hd & Hhd). destruct (Hwf q d Hd) as [H0 _].
  cbn [disconnect_block engine]. unfold engine_disconnect. pose proof (work_view_holds c m' p Hv) as Hw.
  destruct (GetBestBlock_spec (work_view c) (proj1 Hw)) as [Eb Hsv]. rewrite (proj2 (proj2 Hw)) in Eb.
  destruct (GetBestBlock (work_view c)) as [b' v]. cbn [fst snd] in Eb, Hsv. subst b'. rewrite bool_decide_eq_true_2 by done. cbn [require rbind].
  pose proof (holds_same _ _ _ _ Hw Hsv) as Hv1. rewrite Hu0.
  destruct (DisconnectBlock_spec Hash params founder (m_block_index bm) blk p b q m m' u v p) as (v2 & E2 & Hv2);
    [done|lia|done|done|by rewrite Ev|by eapply chain_utxo_ok|by eapply connects_transfer; [..|exact Hk]|done|].
  rewrite E2. pose proof (DisconnectBlock_tip _ _ _ _ _ _ _ _ _ Hb Hq E2) as Etip.
  destruct (flush_view_holds v2 m q Hv2) as (tip' & -> & Hv3); [by rewrite Etip|]. cbn [rbind].
  eexists. split; [done|]. exists q, m. split_and!; try done. intros r idx0 q0 Hr. apply Hut. set_solver.
Qed.

Lemma engine_laws : EngineLaws (coins_state B) (BlockEngine0 := the_engine) m0 block_of chain_holds connectable.
Proof.
  split.
  - exact engine_connects.
  - exact engine_disconnects.
  - intros ch c (tip & m & Ht & Htn & Hcu & Hv & Hur & Huk & Hut).
    destruct (FlushStateToDisk_holds fDoFullFlush c m tip Htn Hv) as (c' & E & Hv' & Eu). exists c'. split; [exact E|].
    exists tip, m. rewrite Eu. by split_and!.
  - intros ch c p b q (tip & m & Ht & _ & Hcu & _) Hp Hb Hq. by eapply (chain_utxo_connectable ch m tip p b q).
Qed.

End Laws.
End EngineFacts.

(** * Properties *)

Module EngineProps.
Import Engine EngineFacts.

Section Props.
Context {B : Type} `{!CCoinsView B} (utxo : B → COutPoint → option Coin) (best : B → uint256) (inv : B → Prop).
Context (Hash : list Z → uint256) (GetBlockHash : CBlockHeader → uint256) (params : Params).
Context (signet : CBlockHeader * list CTransaction → bool).
Context (hashes : script_hashes) (lib : sig_lib) (script_cached : CTransaction → Z → bool).
Context (minimum_chain_work : base_uint) (parallel : bool) (founder : option CScript).
Context (undo_writable : CBlockUndo → bool) (fDoFullFlush : CCoinsViewCache B → bool) (content : uint256 → CBlock).
Abbreviation the_engine := (engine Hash GetBlockHash params signet hashes lib script_cached None minimum_chain_work parallel founder
  undo_writable fDoFullFlush).
Abbreviation is_block_of := (block_of Hash GetBlockHash params signet content).
Abbreviation coins_of m0 := (chain_holds (utxo := utxo) (best := best) (inv := inv) Hash GetBlockHash params signet hashes lib
  script_cached founder m0 content).
Abbreviation is_connectable m0 := (connectable Hash GetBlockHash params signet hashes lib script_cached founder m0 content).
Abbreviation unspent_of m0 := (chain_utxo Hash GetBlockHash params signet hashes lib script_cached founder m0 content).

(** C2: The node follows the most-work valid chain.  With [ConnectBlock],
    [DisconnectBlock], the coin caches and the undo files as the engine, every
    script checked, undo data that can be written and blocks whose transactions
    have distinct ids, [ActivateBestChain] terminates without a failed assertion.  It leaves a tip such that no block with all its data and no
    failure mark, whose ancestors and itself are valid by the consensus rules,
    is better; and [CoinsTip()] holds exactly the unspent set that the blocks of
    the active chain produce from the genesis, worth at most the subsidies of
    its blocks. *)
Theorem node_follows_best_valid_chain (addr : uint256 → Z) (st : Chainstate (coins_state B)) tip pblock :
  CCoinsViewLaws B utxo best inv → Inj (=) (=) addr → rules_ok params → hashes_ok hashes →
  (∀ u, undo_writable u = true) →
  (∀ p idx q, index st !! p = Some idx → pprev idx = Some q →
     content_ok Hash GetBlockHash params signet content p idx q) →
  well_kept addr is_block_of (coins_of (index st)) (hashGenesisBlock params) st tip →
  (∀ blk, pblock = Some blk → is_block_of (GetBlockHash (header blk)) blk) →
  ∃ st' tip' m',
    ActivateBestChain (BlockEngine0 := the_engine) addr (fun blk => GetBlockHash (header blk)) st pblock = Ok (true, st') ∧
    chain_of (index st) tip' (m_chain st') ∧ unspent_of (index st) (m_chain st') m' ∧
    OnView.holds (utxo := utxo) (best := best) (inv := inv) (tip_view (coins_tip st')) m' tip' ∧
    value m' <= emission params 1 (length (m_chain st') - 1) ∧
    ∀ p, eligible (index st) p → valid_chain (index st) (is_connectable (index st)) p → ¬ lt addr (index st) tip' p.
Proof.
  intros HL Hinj Hi Hh Hw Hcontent Hwk Hgiven. pose proof (to_wf _ _ (wk_tree _ _ _ _ _ _ Hwk)) as Hwf.
  pose proof (engine_laws (HL := HL) Hash GetBlockHash params signet hashes lib script_cached minimum_chain_work parallel founder
    undo_writable fDoFullFlush (index st) content Hi Hh Hw Hwf Hcontent) as Hlaws.
  destruct (activate_spec (BlockEngine0 := the_engine) addr is_block_of (coins_of (index st)) (is_connectable (index st)) Hinj
    (fun p => ¬ is_connectable (index st) p) (hashGenesisBlock params) st tip (fun blk => GetBlockHash (header blk)) pblock (fun _ Hn => Hn)
    Hlaws Hwk Hgiven) as (st' & tip' & E & Hwk' & [Hs _ _ _ _] & _ & _ & Hbest & _).
  destruct (wk_coins _ _ _ _ _ _ Hwk') as (tip2 & m' & Hch2 & _ & Hcu & Hv & _).
  pose proof (chain_of_same _ _ _ _ (same_core_sym _ _ Hs) (wk_chain _ _ _ _ _ _ Hwk')) as Hch.
  assert (tip2 = tip') as -> by (pose proof (chain_of_Tip _ Hwf _ _ Hch); pose proof (chain_of_Tip _ Hwf _ _ Hch2); congruence).
  exists st', tip', m'. split_and!; try done.
  - by eapply chain_utxo_value.
  - intros p He Hvc. by apply Hbest.
Qed.

End Props.
(** ** A fork whose preferred branch is invalid *)

Definition demo_Hash : list Z → uint256 := ConnectProps.demo_Hash.
Definition demo_GetHash : CBlockHeader → uint256 := ConnectProps.demo_GetHash.
Definition genesis_hash : uint256 := digits_of 8 32 7.
(** The block with hash [n]: block 8 pays itself more than the subsidy. *)
Definition demo_coinbase (n : Z) : CTransaction :=
  mkTx [mkTxIn outpoint_null [OP_1; OP_0] SEQUENCE_FINAL []] [mkTxOut (if n =? 8 then 200000000 else 100000000) [OP_1]] n 0.
Definition demo_block (n : Z) : CBlock :=
  mkBlock (mkHeader 4 genesis_hash (Transaction.GetHash demo_Hash (demo_coinbase n)) 1778351316 0x1f00ffff n) [demo_coinbase n] false false false.
Definition demo_content (p : uint256) : CBlock := demo_block (hd 0 p).
Definition demo_params : Params := CMainParams genesis_hash.

Definition demo_entry (pp : option uint256) (h seq : Z) : CBlockIndex :=
  {| pprev := pp; pskip := None; nHeight := h; nChainWork := of_u64 (h + 1); nTx := 1; nChainTx := h + 1;
     nStatus := 11; Chain.nVersion := 4; hashMerkleRoot := null256; nTime := 1778351316; nBits := 0x1f00ffff; nNonce := 0;
     nSequenceId := seq; nTimeMax := 1778351316 |}.
(** Blocks 8 and 9 on top of the genesis; 8 came first. *)
Definition demo_map : BlockMap :=
  <[ digits_of 8 32 9 := demo_entry (Some genesis_hash) 1 2 ]> (<[ digits_of 8 32 8 := demo_entry (Some genesis_hash) 1 1 ]>
  (<[ genesis_hash := demo_entry None 0 0 ]> ∅)).
Definition demo_coins : coins_state CCoinsViewDB :=
  mkCoinsState (mkCache (mkDB ∅ (Some genesis_hash) None) genesis_hash ∅ 0) ∅.
Definition demo_state : Chainstate (coins_state CCoinsViewDB) :=
  mkChainstate (mkManager (mkBlockManager demo_map (Some (digits_of 8 32 9)) ∅) []) [] None 3 (-1) (of_u64 0) [Some genesis_hash]
    {[ genesis_hash; digits_of 8 32 8; digits_of 8 32 9 ]}
    (<[ genesis_hash := demo_block 7 ]> (<[ digits_of 8 32 8 := demo_block 8 ]> (<[ digits_of 8 32 9 := demo_block 9 ]> ∅))) demo_coins.

Lemma two_tips_cases p b : demo_map !! p = Some b →
  (p = genesis_hash ∧ b = demo_entry None 0 0) ∨ (p = digits_of 8 32 8 ∧ b = demo_entry (Some genesis_hash) 1 1) ∨
  (p = digits_of 8 32 9 ∧ b = demo_entry (Some genesis_hash) 1 2).
Proof.
  unfold demo_map. intros [[<- <-]|[_ H]]%lookup_insert_Some; [by auto|]. revert H.
  intros [[<- <-]|[_ H]]%lookup_insert_Some; [by auto|]. revert H.
  intros [[<- <-]|[_ H]]%lookup_insert_Some; [by auto|]. by rewrite lookup_empty in H.
Qed.

Lemma two_tips_tree : tree_ok demo_map genesis_hash.
Proof.
  split.
  - intros p b [[-> ->]|[[-> ->]|[-> ->]]]%two_tips_cases; (split; [done|]); cbn [pprev demo_entry]; [done|..];
      (split; [eexists; split; [reflexivity|done]|done]).
  - intros p b Hb. assert (wf (nChainWork b) ∧ val (nChainWork b) = nHeight b + 1) as [Hw Hv].
    { apply two_tips_cases in Hb as [[-> ->]|[[-> ->]|[-> ->]]]; (split; [apply of_u64_wf|apply of_u64_val; unfold in_u; cbn; lia]). }
    split; [done|]. intros q c Hq Hc. rewrite Hv.
    assert (nHeight b = 1 ∧ q = genesis_hash) as [-> ->].
    { apply two_tips_cases in Hb as [[-> ->]|[[-> ->]|[-> ->]]]; cbn [pprev demo_entry] in Hq; [done|..]; by injection Hq as <-. }
    apply two_tips_cases in Hc as [[_ ->]|[[E _]|[E _]]]; [vm_compute; reflexivity|vm_compute in E; discriminate E..].
  - by intros p b [[-> ->]|[[-> ->]|[-> ->]]]%two_tips_cases.
  - by intros p b q c _ _ _ [[-> ->]|[[-> ->]|[-> ->]]]%two_tips_cases.
Qed.

Lemma demo_block_bytes n : Forall tx_bytes (vtx (demo_block n)).
Proof.
  assert (∀ l, forallb (fun b => (0 <=? b) && (b <? 256)) l = true → bytes_ok l) as Hb.
  { intros l H. rewrite forallb_forall in H. apply List.Forall_forall. intros b Hin. specialize (H b Hin). unfold in_u. lia. }
  repeat constructor; cbn; try lia; try (by apply Hb); done.
Qed.

Lemma demo_content_ok p idx q : demo_map !! p = Some idx → pprev idx = Some q →
  content_ok demo_Hash demo_GetHash demo_params (fun _ => true) demo_content p idx q.
Proof.
  intros [[-> ->]|[[-> ->]|[-> ->]]]%two_tips_cases; [done|..]; cbn [pprev demo_entry]; intros [= <-];
    (split; [done|done|vm_compute; congruence|reflexivity|];
     intros _; split_and!; [reflexivity|apply NoDup_singleton|apply demo_block_bytes]).
Qed.

Lemma demo_files p b : demo_map !! p = Some b →
  ∃ blk, block_files demo_state !! p = Some blk ∧ block_of demo_Hash demo_GetHash demo_params (fun _ => true) demo_content p blk.
Proof.
  intros [[-> ->]|[[-> ->]|[-> ->]]]%two_tips_cases; eexists; (split; [reflexivity|]);
    (split_and!; [reflexivity|reflexivity|by split|vm_compute; reflexivity..]).
Qed.

(** The main network's parameters. *)
Lemma main_rules genesis : rules_ok (CMainParams genesis).
Proof.
  split; [done|done|]. intros h p. unfold GetBlockScriptFlags. cbn [script_flag_exceptions CMainParams]. rewrite lookup_empty.
  repeat destruct (DeploymentActiveAt _ _ _); by split.
Qed.

Definition demo_addr (p : uint256) : Z := Zpos (encode p).
Definition demo_hashes : script_hashes := ConnectExactProps.demo_hashes.
Definition demo_engine : BlockEngine (coins_state CCoinsViewDB) :=
  engine (CCoinsView0 := ConnectProps.demo_view_ops) demo_Hash demo_GetHash demo_params (fun _ => true) demo_hashes
    ConnectProps.demo_lib (fun _ _ => false) None (replicate 8 0) true None (fun _ => true) (fun _ => true).

Lemma two_tips_kept :
  well_kept demo_addr (block_of demo_Hash demo_GetHash demo_params (fun _ => true) demo_content)
    (chain_holds (utxo := CoinsFacts.db_utxo) (best := db_GetBestBlock) (inv := CoinsFacts.db_inv)
       demo_Hash demo_GetHash demo_params (fun _ => true) demo_hashes ConnectProps.demo_lib (fun _ _ => false) None demo_map demo_content)
    genesis_hash demo_state genesis_hash.
Proof.
  assert (chain_of demo_map genesis_hash [Some genesis_hash]) as Hch.
  { exists (demo_entry None 0 0). split; [reflexivity|]. split; [reflexivity|]. intros i p Hp.
    destruct (is_anc_inv demo_map (to_wf _ _ two_tips_tree) genesis_hash (demo_entry None 0 0) _ _ eq_refl Hp) as [[Hi ->]|(_ & q & Hq & _)]; [|done].
    cbn in Hi. by replace i with 0%nat by lia. }
  split; try done.
  - exact two_tips_tree.
  - split; [by eexists|]. by intros q b _ [[-> ->]|[[-> ->]|[-> ->]]]%two_tips_cases.
  - intros p Hp. assert (p = genesis_hash ∨ p = digits_of 8 32 8 ∨ p = digits_of 8 32 9) as [->|[->| ->]] by (cbn [setBlockIndexCandidates demo_state] in Hp; set_solver);
      eexists; (split; [reflexivity|done]).
  - intros p [(b & Hb & _) _] _. apply two_tips_cases in Hb as [[-> ->]|[[-> ->]|[-> ->]]]; cbn [setBlockIndexCandidates demo_state]; set_solver.
  - exists genesis_hash, ∅. split_and!; [exact Hch|reflexivity|apply cu_genesis| |intros p u Hu; change ((∅ : gmap uint256 CBlockUndo) !! p = Some u) in Hu; by rewrite lookup_empty in Hu| |].
    + split_and!; [|done|done]. split; [|apply map_fits_empty]. split; [|done]. intros o k Ho.
      change ((∅ : utxo_set) !! o = Some k) in Ho. by rewrite lookup_empty in Ho.
    + intros p [u Hu]. change ((∅ : gmap uint256 CBlockUndo) !! p = Some u) in Hu. by rewrite lookup_empty in Hu.
    + intros p idx q [= ->]%list_elem_of_singleton Hidx Hq. change (demo_map !! genesis_hash) with (Some (demo_entry None 0 0)) in Hidx. by simplify_eq.
  - intros p b Hb _. by apply (demo_files p b).
  - intros q [= <-]. by eexists.
Qed.

Lemma node_follows_best_valid_chain_witness :
  ∃ st' tip' m', ActivateBestChain (BlockEngine0 := demo_engine) demo_addr (fun blk => demo_GetHash (header blk)) demo_state None = Ok (true, st') ∧
    chain_of demo_map tip' (m_chain st') ∧
    OnView.holds (utxo := CoinsFacts.db_utxo) (best := db_GetBestBlock) (inv := CoinsFacts.db_inv) (tip_view (coins_tip st')) m' tip' ∧
    value m' <= emission demo_params 1 (length (m_chain st') - 1).
Proof.
  destruct (node_follows_best_valid_chain (CCoinsView0 := ConnectProps.demo_view_ops) CoinsFacts.db_utxo db_GetBestBlock CoinsFacts.db_inv
    demo_Hash demo_GetHash demo_params (fun _ => true) demo_hashes ConnectProps.demo_lib (fun _ _ => false) (replicate 8 0) true None
    (fun _ => true) (fun _ => true) demo_content demo_addr demo_state genesis_hash None)
    as (st' & tip' & m' & E & Hch & _ & Hv & Hle & _).
  - exact (CCoinsViewDB_laws (fun _ => false)).
  - intros p q [= H]. by apply (inj encode).
  - apply main_rules.
  - intros v. split_and!; (apply ConnectExactProps.demo_bytes; reflexivity) || reflexivity.
  - done.
  - exact demo_content_ok.
  - exact two_tips_kept.
  - done.
  - exists st', tip', m'. split_and!; [exact E|exact Hch|exact Hv|exact Hle].
Defined.

End EngineProps.
