(* ===== verification/Acceptance.v ===== *)
(** A block arrives: [AcceptBlock] and [ProcessNewBlock] of
    [src/validation.cpp], which check it, store it, link it into the tree with
    the blocks that waited for it, and activate the best chain.

    Block files hold serialised blocks: what is read back has no cached
    verdicts.  Relaying, notifications and the pruning of block files are left
    out. *)
From Stdlib Require Import ZArith Lia.
From stdpp Require Import gmap.
From S2P Require Import Prelude Arith256 Chain Params Headers Transaction Block BlockChecks ChainSelection ChainSelectionFacts ChainActivation.
Import Transaction.Transaction Arith256.BaseUint Arith256.BaseUintFacts Chain ChainFacts Headers HeadersFacts Block BlockChecks ChainSelection MostWork Activation.
Local Open Scope bb_scope.

Module Acceptance.

Inductive accept_error : Type :=
| HeaderRejected (e : header_error)
| BlockRejected (e : block_error)
| SaveFailed
| AcceptFault (e : chain_error).

(** An assertion that failed, or a null pointer. *)
Definition fault_of (e : accept_error) : option chain_error :=
  match e with
  | HeaderRejected (Headers.Fault e) | BlockRejected (BlockChecks.Fault e) | AcceptFault e => Some e
  | _ => None
  end.

Definition MIN_BLOCKS_TO_KEEP : Z := 288.

(** A block as it is read from disk. *)
Definition stored (b : CBlock) : CBlock := mkBlock (header b) (vtx b) false false false.

Section Accept.
Context {C : Type} `{!BlockEngine C} (addr : uint256 → Z).
Context (Hash : list Z → uint256) (GetBlockHash : CBlockHeader → uint256) (params : Consensus.Params).
Context (CheckSignetBlockSolution : CBlockHeader * list CTransaction → bool) (checkpoints_enabled : bool) (checkpoints : list (Z * uint256)) (minimum_chain_work : base_uint).
(** [SaveBlockToDisk] finds a position. *)
Context (writable : CBlock → bool).
Implicit Types (st : Chainstate C).

(** A block that failed its checks is marked, unless it may be a mutation. *)
Definition mark_rejected st (pindex : uint256) (e : block_error) : result chain_error (Chainstate C) :=
  match e with
  | BlockChecks.Invalid r => if IsMutated r then Ok st else set_status st pindex (fun s => Z.lor s BLOCK_FAILED_VALID)
  | BlockChecks.Fault e => Ok st
  end.

(** [CheckBlock] and [ContextualCheckBlock]. *)
Definition check_block st (block : CBlock) (prev : option uint256) : result block_error unit * CBlock :=
  match CheckBlock Hash GetBlockHash params CheckSignetBlockSolution block true true with
  | (Err e, block) => (Err e, block)
  | (Ok _, block) => ContextualCheckBlock Hash params (index st) block prev
  end.

(** The anti-DoS tests on blocks that were not requested. *)
Definition skip_unrequested st (b : CBlockIndex) (fHasMoreOrSameWork : bool) : bool :=
  negb (nTx b =? 0) || negb fHasMoreOrSameWork || (nHeight b >? Height (m_chain st) + MIN_BLOCKS_TO_KEEP) ||
  op_lt (nChainWork b) minimum_chain_work.

(** The verdict with [fNewBlock], the state and the block with its flags. *)
Definition AcceptBlock st (block : CBlock) (fRequested min_pow_checked : bool) (now : Z)
    : result accept_error bool * Chainstate C * CBlock :=
  match AcceptBlockHeader GetBlockHash params checkpoints_enabled checkpoints (chainman st) (header block) min_pow_checked now with
  | (Err e, cm) => (Err (HeaderRejected e), set_chainman st cm, block)
  | (Ok pindex, cm) =>
      let st := set_chainman st cm in
      let work :=
        let! b := deref (index st) pindex in
        let! more := match Tip (m_chain st) with
                     | None => Ok true
                     | Some tip => let! t := deref (index st) tip in Ok (op_ge (nChainWork b) (nChainWork t))
                     end in
        Ok (b, more) in
      match work with
      | Err e => (Err (AcceptFault e), st, block)
      | Ok (b, fHasMoreOrSameWork) =>
          if negb (Z.land (nStatus b) BLOCK_HAVE_DATA =? 0) then (Ok false, st, block)
          else if negb fRequested && skip_unrequested st b fHasMoreOrSameWork then (Ok false, st, block)
          else
            match check_block st block (pprev b) with
            | (Err e, block) =>
                match mark_rejected st pindex e with
                | Ok st => (Err (BlockRejected e), st, block)
                | Err e => (Err (AcceptFault e), st, block)
                end
            | (Ok _, block) =>
                if negb (writable block) then (Err SaveFailed, st, block)
                else
                  let st := set_files st (<[pindex := stored block]> (block_files st)) in
                  match ReceivedBlockTransactions addr params st block pindex with
                  | Ok st => (Ok true, st, block)
                  | Err e => (Err (AcceptFault e), st, block)
                  end
            end
      end
  end.

Definition ProcessNewBlock st (block : CBlock) (force_processing min_pow_checked : bool) (now : Z)
    : result chain_error (bool * Chainstate C) :=
  match CheckBlock Hash GetBlockHash params CheckSignetBlockSolution block true true with
  | (Err (BlockChecks.Fault e), _) => Err e
  | (Err _, _) => Ok (false, st)
  | (Ok _, block) =>
      match AcceptBlock st block force_processing min_pow_checked now with
      | (Err e, st, _) => match fault_of e with Some e => Err e | None => Ok (false, st) end
      | (Ok _, st, block) => ActivateBestChain addr (fun b => GetBlockHash (header b)) st (Some block)
      end
  end.

End Accept.
End Acceptance.
