(* ===== verification/Arrival.v ===== *)
(** What the arrival of blocks keeps: lemmas about [ReceivedBlockTransactions],
    [AcceptBlock] and [ProcessNewBlock], and the theorem that a node which
    follows the best valid chain still does after any block arrived. *)
From Stdlib Require Import ZArith Lia.
From stdpp Require Import gmap.
From S2P Require Import Prelude Arith256 Chain Params Pow Headers Transaction Block BlockChecks ChainSelection ChainSelectionFacts ChainActivation Acceptance.
Import Arith256.BaseUint Arith256.BaseUintFacts Chain ChainFacts Headers HeadersFacts Block BlockChecks BlockChecksFacts ChainSelection MostWork Activation Acceptance.
Local Open Scope bb_scope.

(** ** Growing trees *)
Module Growth.

Section Growth.
Context (m m' : BlockMap) (Hwf : wf_tree m) (Hwf' : wf_tree m') (Hg : grows m m').

Lemma is_anc_old p b h q : m !! p = Some b → is_anc m' p h q → is_anc m p h q.
Proof.
  intros Hb Ha. destruct (Hg p b Hb) as (b' & Hb' & Es). destruct (shape_fields _ _ Es) as (_ & _ & Eh & _).
  destruct (is_anc_lookup m' Hwf' p h q Ha) as (b2 & _ & Hb2 & _ & _ & Hh). assert (b2 = b') as -> by congruence.
  destruct (is_anc_exists m Hwf p b h Hb ltac:(lia)) as [q' Hq'].
  by rewrite (is_anc_fun m' Hwf' p h q q' Ha (is_anc_grows m m' Hg _ _ _ Hq')).
Qed.

Lemma anc_new p q : anc m p q → anc m' p q.
Proof. intros [h H]. exists h. by apply (is_anc_grows m m'). Qed.

Lemma anc_old p b q : m !! p = Some b → anc m' p q → anc m p q.
Proof. intros Hb [h H]. exists h. by eapply is_anc_old. Qed.

Lemma chain_of_new tip c : chain_of m tip c → chain_of m' tip c.
Proof.
  intros (b & Hb & Hl & Hc). destruct (Hg tip b Hb) as (b' & Hb' & Es). exists b'. split; [done|].
  destruct (shape_fields _ _ Es) as (_ & _ & -> & _). split; [done|]. intros i q Hq. apply Hc. by eapply is_anc_old.
Qed.

End Growth.
End Growth.

(** ** Linking blocks whose ancestors are there *)
Module Linking.
Import Growth.

Lemma partition_perm {A} (f : A → bool) (l : list A) a b :
  List.partition f l = (a, b) → l ≡ₚ a ++ b ∧ Forall (fun x => f x = true) a ∧ Forall (fun x => f x = false) b.
Proof.
  revert a b. induction l as [|x l IH]; intros a b; cbn [List.partition]; [by intros [= <- <-]|].
  destruct (List.partition f l) as [a' b']. destruct (IH a' b' eq_refl) as (Hp & Ha & Hb).
  destruct (f x) eqn:E; intros [= <- <-].
  - split_and!; [by rewrite Hp|by constructor|done].
  - split_and!; [by rewrite Hp, Permutation_middle|done|by constructor].
Qed.

(** The counters of a tree with [N] transactions at most in a block: counted
    are the blocks whose ancestors all have data; a block with data that is not
    counted waits in the queue or among [m_blocks_unlinked], or its parent
    failed. *)
Section Counters.
Context (N : Z).

Record linked_up (m : BlockMap) (unlinked : list (uint256 * uint256)) (queue : list uint256) : Prop := {
  lu_txs : ∀ p b q c, m !! p = Some b → nChainTx b ≠ 0 → pprev b = Some q → m !! q = Some c → nChainTx c ≠ 0;
  lu_queue : ∀ p, p ∈ queue → ∃ b, m !! p = Some b ∧ nTx b ≠ 0 ∧ nChainTx b = 0 ∧
    ∀ q c, pprev b = Some q → m !! q = Some c → nChainTx c ≠ 0;
  lu_unlinked : ∀ q p, (q, p) ∈ unlinked → ∃ b c, m !! p = Some b ∧ m !! q = Some c ∧
    pprev b = Some q ∧ nTx b ≠ 0 ∧ nChainTx b = 0 ∧ nChainTx c = 0;
  lu_nodup : base.NoDup (queue ++ unlinked.*2);
  lu_complete : ∀ p b, m !! p = Some b → nTx b ≠ 0 → nChainTx b = 0 → p ∈ queue ∨ p ∈ unlinked.*2 ∨
    ∃ q c, pprev b = Some q ∧ m !! q = Some c ∧ failed c = true;
  lu_pos : ∀ p b, m !! p = Some b → nChainTx b ≠ 0 → nTx b ≠ 0;
  lu_count : ∀ p b, m !! p = Some b → 0 <= nTx b <= N ∧ 0 <= nChainTx b <= (nHeight b + 1) * N ∧ (nHeight b + 1) * N < 2 ^ 32;
}.

(** The entry of a block that is being linked. *)
Definition counted (b : CBlockIndex) (before id : Z) : CBlockIndex :=
  with_sequence (with_txs b (nTx b) (u32 (before + nTx b))) id.

Lemma linked_step m unlinked x b queue before id range rest :
  wf_tree m → linked_up m unlinked (x :: queue) → m !! x = Some b →
  match pprev b with None => before = 0 | Some q => ∃ c, m !! q = Some c ∧ before = nChainTx c end →
  List.partition (fun e => bool_decide (e.1 = x)) unlinked = (range, rest) →
  linked_up (<[x := counted b before id]> m) rest (queue ++ range.*2) ∧ u32 (before + nTx b) ≠ 0.
Proof.
  intros Hwf [Ht Hq Hu Hn Hc Hpo Hco] Hb Hbef Hpart. destruct (partition_perm _ _ _ _ Hpart) as (Hperm & Hra & Hre).
  rewrite list.Forall_forall in Hra. rewrite list.Forall_forall in Hre.
  destruct (Hq x ltac:(set_solver)) as (b1 & Hb1 & Htx & Hctx & Hpar). assert (b1 = b) as -> by congruence.
  destruct (Hco x b Hb) as (Hx1 & Hx2 & Hx3).
  assert (0 <= before <= nHeight b * N) as Hbb.
  { destruct (Hwf x b Hb) as [Hh Hpp]. destruct (pprev b) as [q|]; [|lia]. destruct Hbef as (c & Hcq & ->).
    destruct Hpp as [(c' & Hc' & E) _]. assert (c' = c) as -> by congruence. destruct (Hco q c Hcq) as (_ & ? & _). lia. }
  assert (u32 (before + nTx b) = before + nTx b) as Eu by (apply wrap_small; unfold in_u; lia). split; [|lia].
  set (b' := counted b before id). assert (nChainTx b' ≠ 0) as Hb' by (cbn; lia).
  assert (∀ p d, <[x := b']> m !! p = Some d → (p = x ∧ d = b') ∨ (p ≠ x ∧ m !! p = Some d)) as Hl.
  { intros p d [[-> ->]|[? ?]]%lookup_insert_Some; auto. }
  assert (x ∉ queue ∧ x ∉ unlinked.*2) as [Hxq Hxu].
  { cbn in Hn. apply list.NoDup_cons in Hn as [Hn _]. set_solver. }
  assert (∀ p, p ≠ x → <[x := b']> m !! p = m !! p) as Hne by (intros; by apply lookup_insert_ne).
  split.
  - intros p d q c [[-> ->]|[_ Hd]]%Hl Hd0 Hpq [[-> ->]|[_ Hcq]]%Hl; [done| |done|by apply (Ht p d q c)]. by apply (Hpar q).
  - intros p [Hp|Hp]%elem_of_app.
    + destruct (Hq p ltac:(set_solver)) as (d & Hd & H1 & H2 & H3). exists d. rewrite Hne by set_solver.
      split_and!; try done. intros q c Hpq [[-> ->]|[_ ?]]%Hl; [done|by eapply H3].
    + apply list_elem_of_fmap in Hp as ([q p'] & -> & Hp). pose proof (Hra _ Hp) as Eq. cbn in Eq. apply bool_decide_eq_true in Eq as ->.
      destruct (Hu x p') as (d & c & Hd & _ & H1 & H2 & H3 & _); [rewrite Hperm; set_solver|]. cbn.
      exists d. rewrite Hne by (intros ->; apply Hxu, list_elem_of_fmap; exists (x, x); split; [done|rewrite Hperm; set_solver]).
      split_and!; try done. intros q c' Hpq [[-> ->]|[? ?]]%Hl; [done|congruence].
  - intros q p Hp. destruct (Hu q p) as (d & c & Hd & Hcq & H1 & H2 & H3 & H4); [rewrite Hperm; set_solver|].
    pose proof (Hre _ Hp) as Eq. cbn in Eq. apply bool_decide_eq_false in Eq. exists d, c.
    rewrite !Hne; [by split_and!|done|]. intros ->. apply Hxu, list_elem_of_fmap. exists (q, x). split; [done|rewrite Hperm; set_solver].
  - cbn in Hn. apply list.NoDup_cons in Hn as [_ Hn]. rewrite Hperm, fmap_app in Hn. by rewrite <- (assoc_L (A := list uint256) app).
  - intros p d [[-> ->]|[Hpx Hd]]%Hl H1 H2; [done|]. destruct (Hc p d Hd H1 H2) as [Hp|[Hp|(q & c & Hpq & Hcq & Hf)]].
    + left. set_solver.
    + rewrite Hperm, fmap_app in Hp. set_solver.
    + right; right. exists q. destruct (decide (q = x)) as [->|Hqx]; [|exists c; by rewrite Hne].
      exists b'. rewrite lookup_insert_eq. split_and!; [done..|]. assert (c = b) as -> by congruence. done.
  - intros p d [[-> ->]|[_ Hd]]%Hl; [done|by apply (Hpo p)].
  - intros p d [[-> ->]|[_ Hd]]%Hl; [|by apply (Hco p)]. cbn. rewrite Eu. lia.
Qed.

Section Queue.
Context {C : Type} `{!BlockEngine C} (addr : uint256 → Z) (st0 : Chainstate C) (tip : uint256) (bt : CBlockIndex).
Implicit Types (st : Chainstate C).
Context (Hwf0 : wf_tree (index st0)) (Htip : Tip (m_chain st0) = Some tip)
  (Hbt : index st0 !! tip = Some bt) (Hbtx : nChainTx bt ≠ 0).

(** Everything but the tree, the candidates and the waiting blocks. *)
Definition same_beside st : Prop :=
  m_chain st = m_chain st0 ∧ coins_tip st = coins_tip st0 ∧ block_files st = block_files st0 ∧
  m_best_invalid st = m_best_invalid st0 ∧ m_best_header st = m_best_header st0 ∧
  m_failed_blocks (chainman st) = m_failed_blocks (chainman st0).

(** The state while blocks are linked. *)
Record linking st (queue : list uint256) : Prop := {
  lk_up : linked_up (index st) (m_blocks_unlinked st) queue;
  lk_new : grows (index st0) (index st);
  lk_entry : ∀ p b, index st !! p = Some b → ∃ b0, index st0 !! p = Some b0 ∧ shape b = shape b0 ∧
    nStatus b = nStatus b0 ∧ nTx b = nTx b0 ∧ (nChainTx b0 ≠ 0 → b = b0);
  lk_cands : ∀ p, p ∈ setBlockIndexCandidates st → ∃ b, index st !! p = Some b ∧ nChainTx b ≠ 0;
  lk_complete : ∀ p, eligible (index st) p → ¬ lt addr (index st) p tip → p ∈ setBlockIndexCandidates st;
  lk_beside : same_beside st;
}.

Lemma linking_old st queue : linking st queue → grows (index st) (index st0).
Proof. intros H p b Hb. destruct (lk_entry _ _ H p b Hb) as (b0 & ? & ? & _). by exists b0. Qed.

Lemma linking_wf st queue : linking st queue → wf_tree (index st).
Proof. intros H. by eapply wf_tree_shape; [apply (lk_new _ _ H)|eapply linking_old|]. Qed.

(** Counting one block makes at most that block eligible. *)
Lemma counted_eligible m x b before id p :
  wf_tree m → m !! x = Some b → p ≠ x → eligible (<[x := counted b before id]> m) p → eligible m p.
Proof.
  intros Hwf Hb Hn [(d & Hd & Htx) He]. rewrite lookup_insert_ne in Hd by done.
  assert (grows m (<[x := counted b before id]> m) ∧ grows (<[x := counted b before id]> m) m) as [G1 G2].
  { split; intros q c.
    - intros Hc. destruct (decide (q = x)) as [->|Hq]; [rewrite lookup_insert_eq|rewrite lookup_insert_ne by done; eauto].
      assert (c = b) as -> by congruence. by eexists.
    - intros [[<- <-]|[_ Hc]]%lookup_insert_Some; [by exists b|by exists c]. }
  split; [by exists d|]. intros q c Ha Hc. apply (anc_new m _ G1) in Ha.
  destruct (decide (q = x)) as [->|Hq]; [|by apply (He q c Ha); rewrite lookup_insert_ne].
  assert (c = b) as -> by congruence. specialize (He x (counted b before id) Ha). rewrite lookup_insert_eq in He. by apply He.
Qed.

Lemma comparator_beside m x b p q : p ≠ x → q ≠ x →
  CBlockIndexWorkComparator addr (<[x := b]> m) p q = CBlockIndexWorkComparator addr m p q.
Proof. intros Hp Hq. unfold CBlockIndexWorkComparator, entry. by rewrite !lookup_insert_ne. Qed.

(** One round of the loop. *)
Lemma linking_step st x b before id queue st3 range rest :
  linking st (x :: queue) → index st !! x = Some b →
  match pprev b with None => before = 0 | Some q => ∃ c, index st !! q = Some c ∧ before = nChainTx c end →
  List.partition (fun e => bool_decide (e.1 = x)) (m_blocks_unlinked st) = (range, rest) →
  index st3 = <[x := counted b before id]> (index st) → same_beside st3 →
  setBlockIndexCandidates st3 =
    (if CBlockIndexWorkComparator addr (index st3) x tip then setBlockIndexCandidates st
     else {[ x ]} ∪ setBlockIndexCandidates st) →
  m_blocks_unlinked st3 = rest → linking st3 (queue ++ range.*2).
Proof.
  intros Hl Hb Hbef Hpart Ei Hbes Eca Eun. pose proof Hl as [Hup Hnew Hent Hca Hcom _]. pose proof (linking_wf st _ Hl) as Hwf.
  destruct (linked_step (index st) (m_blocks_unlinked st) x b queue before id range rest Hwf Hup Hb Hbef Hpart) as [Hup' Hnz].
  destruct (lu_queue _ _ _ Hup x ltac:(set_solver)) as (b1 & Hb1 & Htx & Hctx & _). assert (b1 = b) as -> by congruence.
  destruct (Hent x b Hb) as (b0 & Hb0 & Es & Est & Etx & Hkeep).
  assert (nChainTx b0 = 0) as Hb0z by (destruct (decide (nChainTx b0 = 0)) as [|Hz]; [done|specialize (Hkeep Hz); congruence]).
  assert (tip ≠ x) as Htx' by congruence.
  split; rewrite ?Ei, ?Eun; try done.
  - eapply grows_trans; [exact Hnew|]. intros q c Hc. destruct (decide (q = x)) as [->|Hq].
    + rewrite lookup_insert_eq. assert (c = b) as -> by congruence. by eexists.
    + rewrite lookup_insert_ne by done. eauto.
  - intros p d [[<- <-]|[_ Hd]]%lookup_insert_Some; [|by apply Hent]. exists b0. split_and!; try done.
  - intros p Hp. rewrite Eca in Hp. destruct (decide (p = x)) as [->|Hpx].
    + rewrite lookup_insert_eq. by eexists.
    + rewrite lookup_insert_ne by done. apply Hca. revert Hp. case_match; [done|]. intros Hp.
      by apply elem_of_union in Hp as [->%elem_of_singleton|?].
  - intros p He Hlt. rewrite Eca, Ei. unfold lt in Hlt. destruct (decide (p = x)) as [->|Hpx].
    + apply not_true_is_false in Hlt. rewrite Hlt. apply elem_of_union_l, elem_of_singleton_2; done.
    + assert (∀ c : bool, p ∈ setBlockIndexCandidates st → p ∈ (if c then setBlockIndexCandidates st else {[ x ]} ∪ setBlockIndexCandidates st)) as Hif.
      { intros []; [done|apply elem_of_union_r]. }
      apply Hif.
      apply Hcom; [by eapply counted_eligible|]. unfold lt. by rewrite <- (comparator_beside (index st) x (counted b before id)).
Qed.

Lemma link_queue_spec fuel st queue :
  linking st queue → (length queue + length (m_blocks_unlinked st) <= fuel)%nat →
  ∃ st', link_queue addr fuel st queue = Ok st' ∧ linking st' [].
Proof.
  revert st queue. induction fuel as [|fuel IH]; intros st [|x queue] Hl Hf; cbn [link_queue length] in *;
    [by exists st|lia|by exists st|].
  destruct (lu_queue _ _ _ (lk_up _ _ Hl) x ltac:(set_solver)) as (b & Hb & _ & _ & _).
  unfold deref at 1. rewrite Hb. cbn [rbind]. destruct (linking_wf st _ Hl x b Hb) as [_ Hpp].
  assert (∃ before, match pprev b with None => Ok 0 | Some q => let! c := deref (index st) q in Ok (nChainTx c) end = Ok before ∧
    match pprev b with None => before = 0 | Some q => ∃ c, index st !! q = Some c ∧ before = nChainTx c end) as (before & -> & Hbef).
  { destruct (pprev b) as [q|]; [|by eexists]. destruct Hpp as [(c & Hc & _) _]. unfold deref. rewrite Hc. cbn. eauto. }
  cbn [rbind]. fold (counted b before (nBlockSequenceId st)).
  set (st2 := set_sequence_id _ _). assert (Tip (m_chain st2) = Some tip) as Ht2.
  { destruct (lk_beside _ _ Hl) as (E & _). change (m_chain st2) with (m_chain st). by rewrite E. }
  unfold TryAddBlockIndexCandidate. rewrite Ht2. change (index st2) with (<[x := counted b before (nBlockSequenceId st)]> (index st)).
  set (cmp := CBlockIndexWorkComparator addr _ x tip). set (st3 := if cmp then st2 else insert_candidate st2 x).
  assert (m_blocks_unlinked st3 = m_blocks_unlinked st) as Eun by (unfold st3; by destruct cmp). rewrite Eun.
  destruct (List.partition _ (m_blocks_unlinked st)) as [range rest] eqn:Ep.
  destruct (partition_perm _ _ _ _ Ep) as (Hperm & _). apply Permutation_length in Hperm. rewrite length_app in Hperm.
  apply IH.
  - apply (linking_step st x b before (nBlockSequenceId st) queue _ range rest); try done; unfold st3.
    + by destruct cmp.
    + destruct (lk_beside _ _ Hl) as (? & ? & ? & ? & ? & ?). by destruct cmp.
    + change (CBlockIndexWorkComparator addr _ x tip) with (CBlockIndexWorkComparator addr (index (if cmp then st2 else insert_candidate st2 x)) x tip).
      assert (index (if cmp then st2 else insert_candidate st2 x) = <[x := counted b before (nBlockSequenceId st)]> (index st)) as -> by by destruct cmp.
      fold cmp. by destruct cmp.
  - cbn. rewrite length_app, length_fmap. lia.
Qed.

End Queue.
End Counters.

(** ** The data of one block *)

(** The status of an entry when its data has arrived. *)
Definition received_status (segwit : bool) (s : Z) : Z :=
  let s := Z.lor s BLOCK_HAVE_DATA in
  let s := if segwit then Z.lor s BLOCK_OPT_WITNESS else s in
  match RaiseValidity s BLOCK_VALID_TRANSACTIONS with Ok (s, _) => s | Err _ => s end.

Lemma raise_transactions s : ∃ s' r, RaiseValidity s BLOCK_VALID_TRANSACTIONS = Ok (s', r) ∧
  (∀ k, Z.land BLOCK_VALID_MASK k = 0 → Z.land s' k = Z.land s k) ∧
  Z.land s BLOCK_VALID_MASK <= Z.land s' BLOCK_VALID_MASK.
Proof.
  unfold RaiseValidity. change (negb (Z.land BLOCK_VALID_TRANSACTIONS (Z.lnot BLOCK_VALID_MASK) =? 0)) with false.
  cbn iota. destruct (negb (Z.land s BLOCK_FAILED_MASK =? 0)); [by exists s, false|].
  change (BLOCK_VALID_TRANSACTIONS >=? BLOCK_VALID_SCRIPTS) with false. rewrite andb_false_r.
  destruct (Z.ltb_spec (Z.land s BLOCK_VALID_MASK) BLOCK_VALID_TRANSACTIONS) as [Hlt|Hle]; [|by exists s, false].
  eexists _, true. split; [done|]. split.
  - intros k Hk. rewrite Z.land_lor_distr_l, <- Z.land_assoc.
    assert (Z.land BLOCK_VALID_TRANSACTIONS k = 0) as ->.
    { change BLOCK_VALID_TRANSACTIONS with (Z.land BLOCK_VALID_TRANSACTIONS BLOCK_VALID_MASK). by rewrite <- Z.land_assoc, Hk, Z.land_0_r. }
    rewrite Z.lor_0_r. f_equal. apply Z.bits_inj'. intros n Hn. rewrite Z.land_spec, Z.lnot_spec by done.
    apply (f_equal (fun x => Z.testbit x n)) in Hk. rewrite Z.land_spec, Z.bits_0 in Hk.
    destruct (Z.testbit BLOCK_VALID_MASK n), (Z.testbit k n); done.
  - rewrite Z.land_lor_distr_l, <- Z.land_assoc. change (Z.land (Z.lnot BLOCK_VALID_MASK) BLOCK_VALID_MASK) with 0.
    rewrite Z.land_0_r. change (Z.land s BLOCK_VALID_MASK <= BLOCK_VALID_TRANSACTIONS). lia.
Qed.

Lemma received_status_spec (segwit : bool) s : ∃ r : bool,
  RaiseValidity (if segwit then Z.lor (Z.lor s BLOCK_HAVE_DATA) BLOCK_OPT_WITNESS else Z.lor s BLOCK_HAVE_DATA)
    BLOCK_VALID_TRANSACTIONS = Ok (received_status segwit s, r).
Proof.
  unfold received_status. set (s1 := if segwit then _ else _).
  destruct (raise_transactions s1) as (s' & r & E & _). exists r. by rewrite E.
Qed.

Lemma received_status_bits segwit s :
  Z.land (received_status segwit s) BLOCK_FAILED_MASK = Z.land s BLOCK_FAILED_MASK ∧
  Z.land (received_status segwit s) BLOCK_FAILED_VALID = Z.land s BLOCK_FAILED_VALID ∧
  Z.land (received_status segwit s) BLOCK_HAVE_DATA ≠ 0 ∧
  Z.land s BLOCK_VALID_MASK <= Z.land (received_status segwit s) BLOCK_VALID_MASK.
Proof.
  unfold received_status. set (s1 := Z.lor s BLOCK_HAVE_DATA).
  assert (∀ k, Z.land BLOCK_OPT_WITNESS k = 0 → Z.land (if segwit then Z.lor s1 BLOCK_OPT_WITNESS else s1) k = Z.land s1 k) as H1.
  { intros k Hk. destruct segwit; [|done]. by rewrite Z.land_lor_distr_l, Hk, Z.lor_0_r. }
  destruct (raise_transactions (if segwit then Z.lor s1 BLOCK_OPT_WITNESS else s1)) as (s' & r & -> & H2 & H3).
  rewrite (H1 BLOCK_VALID_MASK) in H3 by done.
  assert (∀ k, Z.land BLOCK_HAVE_DATA k = 0 → Z.land s1 k = Z.land s k) as H4.
  { intros k Hk. unfold s1. by rewrite Z.land_lor_distr_l, Hk, Z.lor_0_r. }
  split_and!; [rewrite H2, H1, H4 by done; done..| |by rewrite H4 in H3].
  rewrite H2, H1 by done. unfold s1. intros E. rewrite Z.land_lor_distr_l in E. by apply Z.lor_eq_0_iff in E as [_ ?].
Qed.

End Linking.

(** ** The state of a node between two events *)
Module Node.
Export Growth Linking.

(** What an engine promises for all trees at once: it keeps its laws on every
    tree it accepts ([lawful]), and neither the coins of a chain nor the validity
    of a block depend on the rest of the tree. *)
Class EngineFamily (C : Type) `{!BlockEngine C} (genesis : uint256) (lawful : BlockMap → Prop)
    (block_of : uint256 → CBlock → Prop) (holds : BlockMap → CChain → C → Prop)
    (connectable : BlockMap → uint256 → Prop) : Prop := {
  fam_laws m : wf_tree m → lawful m → EngineLaws C m block_of (holds m) (connectable m);
  fam_holds m m' tip ch c : wf_tree m → wf_tree m' → grows m m' → chain_of m tip ch → holds m ch c → holds m' ch c;
  fam_connectable m m' p b : wf_tree m → wf_tree m' → grows m m' → m !! p = Some b → connectable m' p → connectable m p;
  fam_lawful m m' : grows m m' → grows m' m → lawful m → lawful m';
}.

Section Node.
Context {C : Type} `{!BlockEngine C} (addr : uint256 → Z) (genesis : uint256) (lawful : BlockMap → Prop).
Context (block_of : uint256 → CBlock → Prop) (holds : BlockMap → CChain → C → Prop) (connectable : BlockMap → uint256 → Prop).
Context `{HF : !EngineFamily C genesis lawful block_of holds connectable} (N : Z).
Implicit Types (st : Chainstate C).

Record tidy st (tip : uint256) : Prop := {
  td_kept : well_kept addr block_of (holds (index st)) genesis st tip;
  td_books : books (chainman st);
  td_linked : linked_up N (index st) (m_blocks_unlinked st) [];
  td_lawful : lawful (index st);
  td_bits : ∀ p b, index st !! p = Some b → in_u 32 (nBits b);
}.

Lemma linked_anc m p b q c : tree_ok m genesis → m !! p = Some b → nChainTx b ≠ 0 → anc m p q → m !! q = Some c →
  nChainTx c ≠ 0.
Proof.
  intros Ht Hb Htx Ha Hc. apply (linked_txs m genesis Ht m [] p b (same_core_refl m) Hb Htx q c Ha); [set_solver|done].
Qed.

Lemma tree_ok_shape m m' : grows m m' → grows m' m →
  (∀ p b q c, m' !! p = Some b → nChainTx b ≠ 0 → pprev b = Some q → m' !! q = Some c → nChainTx c ≠ 0) →
  tree_ok m genesis → tree_ok m' genesis.
Proof.
  intros G1 G2 Htx [Hw Hwk Hr _].
  assert (∀ p b', m' !! p = Some b' → ∃ b, m !! p = Some b ∧ pprev b = pprev b' ∧ nChainWork b = nChainWork b') as Hold.
  { intros p b' Hp. destruct (G2 p b' Hp) as (b & Hb & Es). exists b. by destruct (shape_fields _ _ Es) as (-> & _ & _ & -> & _). }
  split; [by eapply wf_tree_shape| | |done].
  - intros p b' (b & Hb & <- & <-)%Hold. destruct (Hwk p b Hb) as [? Hlt]. split; [done|].
    intros q c' Hq (c & Hc & _ & <-)%Hold. by eapply Hlt.
  - intros p b' (b & Hb & <- & _)%Hold. by apply Hr.
Qed.

Lemma rewritten_lookup (m : BlockMap) x b1 p d : <[x := b1]> m !! p = Some d → (p = x ∧ d = b1) ∨ (p ≠ x ∧ m !! p = Some d).
Proof. intros [[-> ->]|[? ?]]%lookup_insert_Some; auto. Qed.

(** An entry whose block had not arrived is rewritten. *)
Section Rewritten.
Context (m : BlockMap) (x : uint256) (b b1 : CBlockIndex) (Ht : tree_ok m genesis).
Context (Hb : m !! x = Some b) (Es : shape b1 = shape b) (Hz : nChainTx b = 0) (Hz1 : nChainTx b1 = 0).

Lemma rewritten_grows : grows m (<[x := b1]> m) ∧ grows (<[x := b1]> m) m.
Proof.
  split; intros p d.
  - intros Hd. destruct (decide (p = x)) as [->|Hp]; [|rewrite lookup_insert_ne by done; eauto].
    rewrite lookup_insert_eq. assert (d = b) as -> by congruence. eauto.
  - intros [[-> ->]|[_ Hd]]%rewritten_lookup; [exists b|exists d]; done.
Qed.

Lemma rewritten_txs p d q c : <[x := b1]> m !! p = Some d → nChainTx d ≠ 0 → pprev d = Some q →
  <[x := b1]> m !! q = Some c → nChainTx c ≠ 0.
Proof.
  intros [[-> ->]|[_ Hd]]%rewritten_lookup Htx Hq; [done|]. intros [[-> ->]|[_ Hc]]%rewritten_lookup.
  - destruct (to_txs _ _ Ht p d x b Hd Htx Hq Hb Hz).
  - by apply (to_txs _ _ Ht p d q c).
Qed.

Lemma rewritten_tree : tree_ok (<[x := b1]> m) genesis.
Proof. destruct rewritten_grows. eapply tree_ok_shape; [done|done|exact rewritten_txs|done]. Qed.

Lemma rewritten_eligible p : eligible (<[x := b1]> m) p ↔ eligible m p.
Proof.
  destruct rewritten_grows as [G1 G2]. pose proof (to_wf _ _ Ht) as Hwf. pose proof (to_wf _ _ rewritten_tree) as Hwf1. split.
  - intros [(d & [[-> ->]|[Hn Hd]]%rewritten_lookup & Htx) He]; [done|]. split; [by exists d|].
    intros q c Ha Hc. apply (He q c); [by apply (anc_new m)|]. rewrite lookup_insert_ne; [done|].
    intros <-. apply (linked_anc m p d x b Ht Hd Htx Ha Hb Hz).
  - intros [(d & Hd & Htx) He]. assert (p ≠ x) as Hn by congruence. split; [exists d; by rewrite lookup_insert_ne|].
    intros q c Ha Hc. apply (anc_old m _ Hwf Hwf1 G1 p d q Hd) in Ha. apply rewritten_lookup in Hc as [[-> ->]|[_ Hc]]; [|by apply (He q)].
    destruct (linked_anc m p d x b Ht Hd Htx Ha Hb Hz).
Qed.

(** The block waits for its parent, or is next to be linked. *)
Lemma received_linked unlinked q c queue extra :
  linked_up N m unlinked [] → nTx b = 0 → nTx b1 ≠ 0 → 0 <= nTx b1 <= N → failed b1 = failed b →
  pprev b = Some q → m !! q = Some c →
  (nChainTx c ≠ 0 ∧ queue = [x] ∧ extra = []) ∨ (nChainTx c = 0 ∧ queue = [] ∧ extra = [(q, x)]) ∨
    (nChainTx c = 0 ∧ failed c = true ∧ queue = [] ∧ extra = []) →
  linked_up N (<[x := b1]> m) (unlinked ++ extra) queue.
Proof.
  intros [Lt _ Lu Ln Lc Lp Lco] Hn0 Hn1 Hr Hf Hq Hc Hcase. cbn in Ln.
  assert (x ∉ unlinked.*2) as Hxu.
  { intros ([q' p] & -> & Hp)%list_elem_of_fmap. destruct (Lu q' p Hp) as (d & _ & Hd & _ & _ & Hd0 & _). cbn in Hb. congruence. }
  assert (q ≠ x) as Hqx.
  { intros ->. destruct (parent_height m (to_wf _ _ Ht) x b x Hb Hq) as (d & Hd & Hh). assert (d = b) as -> by congruence. lia. }
  destruct (shape_fields _ _ Es) as (Epp & _ & Eh & _).
  assert (∀ p d, p ≠ x → m !! p = Some d → <[x := b1]> m !! p = Some d) as Hne by (intros; by rewrite lookup_insert_ne).
  assert (∀ p d, m !! p = Some d → ∃ d', <[x := b1]> m !! p = Some d' ∧ nChainTx d' = nChainTx d ∧ failed d' = failed d) as Hst.
  { intros p d Hd. destruct (decide (p = x)) as [->|Hp]; [|exists d; by rewrite lookup_insert_ne].
    exists b1. rewrite lookup_insert_eq. assert (d = b) as -> by congruence. by rewrite Hz. }
  split.
  - exact rewritten_txs.
  - intros p Hp. destruct Hcase as [(Hcz & -> & _)|[(_ & -> & _)|(_ & _ & -> & _)]]; [|by apply elem_of_nil in Hp..].
    apply list_elem_of_singleton in Hp as ->. exists b1. rewrite lookup_insert_eq. split_and!; try done.
    rewrite Epp, Hq. intros ? c' [= <-]. rewrite lookup_insert_ne, Hc by done. by intros [= <-].
  - intros q' p [Hp|Hp]%elem_of_app.
    + destruct (Lu q' p Hp) as (d & e & Hd & He & H1 & H2 & H3 & H4). destruct (Hst q' e He) as (e' & He' & E & _).
      exists d, e'. rewrite E. split_and!; try done. apply Hne; [congruence|done].
    + destruct Hcase as [(_ & _ & ->)|[(Hcz & _ & ->)|(_ & _ & _ & ->)]]; [by apply elem_of_nil in Hp| |by apply elem_of_nil in Hp].
      apply list_elem_of_singleton in Hp as [= -> ->]. exists b1, c. rewrite lookup_insert_eq, lookup_insert_ne by done. by rewrite Epp.
  - rewrite fmap_app. destruct Hcase as [(_ & -> & ->)|[(_ & -> & ->)|(_ & _ & -> & ->)]]; cbn; rewrite ?app_nil_r; [|apply list.NoDup_app|done].
    + by apply list.NoDup_cons.
    + split_and!; [done|by intros y Hy ->%list_elem_of_singleton|apply list.NoDup_singleton].
  - intros p d [[-> ->]|[Hp Hd]]%rewritten_lookup H1 H2.
    + destruct Hcase as [(_ & -> & _)|[(_ & _ & ->)|(_ & Hfc & _)]]; [left; set_solver|right; left; rewrite fmap_app; set_solver|].
      right; right. exists q, c. rewrite Epp. by rewrite lookup_insert_ne.
    + destruct (Lc p d Hd H1 H2) as [H|[H|(q' & e & H & He & Hfe)]]; [by apply elem_of_nil in H|right; left; rewrite fmap_app; set_solver|].
      destruct (Hst q' e He) as (e' & He' & _ & E). right; right. exists q', e'. by rewrite E.
  - intros p d [[-> ->]|[Hp Hd]]%rewritten_lookup; [done|by apply (Lp p)].
  - intros p d [[-> ->]|[Hp Hd]]%rewritten_lookup; [|by apply (Lco p)]. destruct (Lco x b Hb) as (? & ? & ?).
    rewrite Hz1, Eh. lia.
Qed.

End Rewritten.

Lemma usable_status d d' : nStatus d' = nStatus d → usable d' = usable d ∧ failed d' = failed d.
Proof. intros E. unfold usable, failed. by rewrite E. Qed.

Lemma pointer_grows m m' p : grows m m' → pointer_ok m p → pointer_ok m' p.
Proof. intros Hg Hp q Hq. destruct (Hp q Hq) as [d Hd]. destruct (Hg q d Hd) as (d' & Hd' & _). eauto. Qed.

(** Linking ends in a tidy state. *)
Lemma linking_tidy st st' tip :
  well_kept addr block_of (holds (index st)) genesis st tip → books (chainman st) → lawful (index st) →
  (∀ p b, index st !! p = Some b → in_u 32 (nBits b)) → linking N addr st tip st' [] → tidy st' tip.
Proof.
  intros [Kt Kc Ke _ _ Kco Kf Ki Kh] [Bd _ Bv Bf] Hlaw Hbits Hl. pose proof Hl as [Hup Hnew Hent Hca Hcom (E1 & E2 & E3 & E4 & E5 & E6)].
  pose proof (linking_old _ _ _ _ _ _ Hl) as Hold. pose proof (to_wf _ _ Kt) as Hwf.
  assert (tree_ok (index st') genesis) as Kt' by (by eapply tree_ok_shape; [..|apply (lu_txs _ _ _ _ Hup)|]).
  pose proof (to_wf _ _ Kt') as Hwf'. split; [split|split| | |].
  - done.
  - rewrite E1. by eapply chain_of_new; [..|exact Kc].
  - destruct Ke as [(bt & Hbt & Htx) Hu]. destruct (Hnew tip bt Hbt) as (bt' & Hbt' & _).
    destruct (Hent tip bt' Hbt') as (b0 & Hb0 & _ & _ & _ & Heq). assert (b0 = bt) as -> by congruence. split; [exists bt'; split; [done|by rewrite (Heq Htx)]|].
    intros q d Ha Hd. apply (anc_old _ _ Hwf Hwf' Hnew tip bt q Hbt) in Ha. destruct (Hent q d Hd) as (d0 & Hd0 & _ & Est & _).
    destruct (usable_status d0 d Est) as [-> _]. by apply (Hu q).
  - exact Hca.
  - exact Hcom.
  - rewrite E1, E2. by eapply fam_holds; [..|exact Kc|].
  - intros p d Hd Hu. rewrite E3. destruct (Hent p d Hd) as (d0 & Hd0 & _ & Est & _). apply (Kf p d0 Hd0).
    by destruct (usable_status d0 d Est) as [<- _].
  - rewrite E4. by eapply pointer_grows.
  - rewrite E5. by eapply pointer_grows.
  - intros p d Hd. destruct (Hent p d Hd) as (d0 & Hd0 & _ & -> & -> & _). by apply (Bd p).
  - intros p d Hd. by apply (lu_pos _ _ _ _ Hup p).
  - intros p d Hd. destruct (Hent p d Hd) as (d0 & Hd0 & _ & -> & _). by apply (Bv p).
  - intros p Hp. rewrite E6 in Hp. destruct (Bf p Hp) as (d0 & Hd0 & Hv). destruct (Hnew p d0 Hd0) as (d & Hd & _). exists d.
    split; [done|]. destruct (Hent p d Hd) as (d1 & Hd1 & _ & -> & _). unfold index in Hd1. congruence.
  - exact Hup.
  - by eapply fam_lawful.
  - intros p d Hd. destruct (Hold p d Hd) as (d0 & Hd0 & Es). destruct (shape_fields _ _ Es) as (_ & _ & _ & _ & _ & _ & _ & <- & _).
    by apply (Hbits p).
Qed.

(** The state after the entry of the block was rewritten. *)
Definition received st (x : uint256) (b1 : CBlockIndex) : Chainstate C :=
  mark_dirty (set_index st (<[x := b1]> (index st))) x.

Definition received_entry (b : CBlockIndex) (n : Z) (segwit : bool) : CBlockIndex :=
  with_status (with_txs b n 0) (received_status segwit (nStatus b)).

Lemma received_books st x b n segwit : books (chainman st) → index st !! x = Some b → n ≠ 0 →
  books (chainman (received st x (received_entry b n segwit))).
Proof.
  intros [Bd Bl Bv Bf] Hb Hn. destruct (received_status_bits segwit (nStatus b)) as (S1 & S2 & S3 & S4).
  split; cbn [chainman received mark_dirty set_chainman m_blockman m_block_index m_failed_blocks index set_index];
    change (m_block_index (m_blockman (chainman st))) with (index st) in *.
  - intros p d [[-> ->]|[_ Hd]]%rewritten_lookup; [by split|by apply (Bd p)].
  - intros p d [[-> ->]|[_ Hd]]%rewritten_lookup; [done|by apply (Bl p)].
  - intros p d [[-> ->]|[_ Hd]]%rewritten_lookup; [|by apply (Bv p)]. specialize (Bv x b Hb). cbn [nStatus with_status received_entry]. lia.
  - intros p Hp. destruct (Bf p Hp) as (d & Hd & Hv). destruct (decide (p = x)) as [->|Hpx]; [|exists d; by rewrite lookup_insert_ne].
    eexists. rewrite lookup_insert_eq. split; [done|]. cbn [nStatus with_status received_entry]. rewrite S2.
    change (index st !! x = Some d) in Hd. congruence.
Qed.

Lemma received_kept st tip x b b1 blk :
  tidy st tip → index st !! x = Some b → shape b1 = shape b → nChainTx b = 0 → nChainTx b1 = 0 →
  block_files st !! x = Some blk → block_of x blk →
  well_kept addr block_of (holds (index (received st x b1))) genesis (received st x b1) tip ∧ lawful (index (received st x b1)).
Proof.
  intros [[Kt Kc Ke Kca Kcm Kco Kf Ki Kh] _ _ Hlaw _] Hb Es Hz Hz1 Hfile Hof.
  destruct (rewritten_grows (index st) x b b1 Hb Es) as [G1 G2]. pose proof (rewritten_tree (index st) x b b1 Kt Hb Es Hz Hz1) as Kt'.
  pose proof (rewritten_eligible (index st) x b b1 Kt Hb Es Hz Hz1) as Hel.
  pose proof (to_wf _ _ Kt) as Hwf. pose proof (to_wf _ _ Kt') as Hwf'. split; [|by eapply fam_lawful].
  assert (∀ p, eligible (index st) p → p ≠ x) as Hex by (intros p [(d & Hd & ?) _] ->; congruence).
  change (index (received st x b1)) with (<[x := b1]> (index st)).
  split; change (index (received st x b1)) with (<[x := b1]> (index st)); try done.
  - by eapply chain_of_new; [..|exact Kc].
  - by apply Hel.
  - intros p Hp. destruct (Kca p Hp) as (d & Hd & Htx). exists d. rewrite lookup_insert_ne by congruence. done.
  - intros p He%Hel Hlt. apply Kcm; [done|]. unfold lt in *. rewrite comparator_beside in Hlt; [done|by apply Hex..].
  - by eapply fam_holds; [..|exact Kc|exact Kco].
  - intros p d [[-> ->]|[_ Hd]]%rewritten_lookup Hu; [by exists blk|by apply (Kf p d)].
  - by eapply pointer_grows.
  - by eapply pointer_grows.
Qed.

Lemma ReceivedBlockTransactions_tidy params st tip x b block blk :
  tidy st tip → index st !! x = Some b → nTx b = 0 → block_files st !! x = Some blk → block_of x blk →
  vtx block ≠ [] → Z.of_nat (length (vtx block)) <= N →
  ∃ st', ReceivedBlockTransactions addr params st block x = Ok st' ∧ tidy st' tip ∧ grows (index st) (index st') ∧
    grows (index st') (index st) ∧
    ∀ p d', index st' !! p = Some d' → ∃ d, index st !! p = Some d ∧ failed d' = failed d ∧ (p ≠ x → nTx d' = nTx d).
Proof.
  intros Htd Hb Hn0 Hfile Hof Hne HN. pose proof Htd as [Kk Bk Hlu _ Hbits]. pose proof Kk as [Kt Kc Ke _ _ _ _ _ _].
  pose proof (lu_count _ _ _ _ Hlu x b Hb) as (_ & _ & Hroom). destruct (to_wf _ _ Kt x b Hb) as [H0 _].
  assert (nChainTx b = 0) as Hz by (destruct (decide (nChainTx b = 0)) as [|Hz]; [done|by destruct (bk_linked _ Bk x b Hb Hz)]).
  assert (0 < Z.of_nat (length (vtx block)) < 2 ^ 32) as Hlen by (destruct (vtx block); cbn [length] in *; [done|nia]).
  destruct (pprev b) as [q|] eqn:Hq.
  2:{ pose proof (to_root _ _ Kt x b Hb Hq) as ->. destruct Ke as [(bt & Hbt & Htx) _].
      destruct (linked_anc (index st) tip bt genesis b Kt Hbt Htx (root_anc _ _ Kt tip bt Hbt) Hb Hz). }
  destruct (parent_height _ (to_wf _ _ Kt) x b q Hb Hq) as (c & Hc & Hh).
  unfold ReceivedBlockTransactions, deref. rewrite Hb. cbn [rbind].
  set (seg := Consensus.DeploymentActiveAt _ _ _). destruct (received_status_spec seg (nStatus b)) as (r & ->). cbn [rbind].
  rewrite wrap_small by (unfold in_u; lia). set (n := Z.of_nat (length (vtx block))) in *.
  change (with_status _ _) with (received_entry b n seg). set (b1 := received_entry b n seg).
  change (mark_dirty _ x) with (received st x b1).
  change (pprev b1) with (pprev b). rewrite Hq.
  assert (shape b1 = shape b) as Es by done. assert (q ≠ x) as Hqx by (intros ->; assert (c = b) as -> by congruence; lia).
  change (index (received st x b1)) with (<[x := b1]> (index st)). rewrite lookup_insert_ne, Hc by done. cbn [rbind].
  destruct (rewritten_grows (index st) x b b1 Hb Es) as [G1 G2].
  pose proof (received_books st x b n seg Bk Hb ltac:(lia)) as Bk1.
  destruct (received_kept st tip x b b1 blk Htd Hb Es Hz eq_refl Hfile Hof) as [Kk1 Hlaw1].
  assert (∀ queue extra, (nChainTx c ≠ 0 ∧ queue = [x] ∧ extra = []) ∨ (nChainTx c = 0 ∧ queue = [] ∧ extra = [(q, x)]) ∨
    (nChainTx c = 0 ∧ failed c = true ∧ queue = [] ∧ extra = []) →
    linked_up N (<[x := b1]> (index st)) (m_blocks_unlinked st ++ extra) queue) as Hlu1.
  { intros queue extra. apply (received_linked (index st) x b b1 Kt Hb Es Hz eq_refl (m_blocks_unlinked st) q c); try done;
      [cbn; lia..|]. unfold failed. cbn [nStatus b1 received_entry with_status]. by destruct (received_status_bits seg (nStatus b)) as (-> & _). }
  assert (∀ p d, <[x := b1]> (index st) !! p = Some d → in_u 32 (nBits d)) as Hbits1.
  { intros p d [[-> ->]|[_ Hd]]%rewritten_lookup; [by apply (Hbits x b)|by apply (Hbits p)]. }
  assert (∀ p d', <[x := b1]> (index st) !! p = Some d' → ∃ d, index st !! p = Some d ∧ failed d' = failed d ∧ (p ≠ x → nTx d' = nTx d)) as Hmarks.
  { intros p d' [[-> ->]|[_ Hd]]%rewritten_lookup; [|by exists d']. exists b. split_and!; [done| |done]. unfold failed.
    cbn [nStatus b1 received_entry with_status]. by destruct (received_status_bits seg (nStatus b)) as (-> & _). }
  unfold HaveNumChainTxs. destruct (Z.eqb_spec (nChainTx c) 0) as [Hcz|Hcz]; cbn [negb].
  - assert (∃ v, IsValid (nStatus c) BLOCK_VALID_TREE = Ok v ∧ (v = false → failed c = true)) as (v & -> & Hv).
    { unfold IsValid. change (negb (Z.land BLOCK_VALID_TREE (Z.lnot BLOCK_VALID_MASK) =? 0)) with false. cbn iota.
      fold (failed c). destruct (failed c); [by eexists|]. eexists. split; [done|]. pose proof (bk_valid _ Bk q c Hc). lia. }
    cbn [rbind]. eexists. split; [done|]. split; [|split_and!; by destruct v].
    pose proof Kk1 as []. destruct v; (split; [by split|done| |done|done]).
    + apply (Hlu1 [] [(q, x)]). auto.
    + rewrite <- (app_nil_r (m_blocks_unlinked _)). apply (Hlu1 [] []). auto 6.
  - destruct (wk_tip _ _ _ _ _ _ Kk1) as [(bt & Hbt & Htx) _].
    destruct (link_queue_spec N addr (received st x b1) tip bt (to_wf _ _ (wk_tree _ _ _ _ _ _ Kk1))
      (chain_of_Tip _ (to_wf _ _ (wk_tree _ _ _ _ _ _ Kk1)) _ _ (wk_chain _ _ _ _ _ _ Kk1)) Hbt Htx
      (S (length (m_blocks_unlinked (received st x b1)))) (received st x b1) [x]) as (st' & -> & Hl).
    + split; try done; [|apply grows_refl|eauto 10|apply Kk1|apply Kk1].
      rewrite <- (app_nil_r (m_blocks_unlinked _)). apply (Hlu1 [x] []). auto.
    + done.
    + exists st'. split; [done|]. split; [by eapply linking_tidy|]. split_and!.
      * eapply grows_trans; [exact G1|apply (lk_new _ _ _ _ _ _ Hl)].
      * eapply grows_trans; [eapply linking_old, Hl|exact G2].
      * intros p d' Hd'. destruct (lk_entry _ _ _ _ _ _ Hl p d' Hd') as (d1 & Hd1 & _ & E1 & E2 & _).
        destruct (Hmarks p d1 Hd1) as (d & Hd & Ef & Hn). exists d. split_and!; [done|by rewrite <- Ef; unfold failed; rewrite E1|].
        rewrite E2. done.
Qed.

End Node.
End Node.
