(* ===== verification/Processing.v ===== *)
(** A node that processes blocks: [AcceptBlockHeader], [AcceptBlock] and
    [ProcessNewBlock] keep its state tidy, so that after every block it follows
    the best valid chain it has the blocks of. *)
From Stdlib Require Import ZArith Lia.
From stdpp Require Import gmap.
From S2P Require Import Prelude Arith256 Chain Params Pow Headers Transaction TxVerify Merkle Block BlockChecks ChainSelection ChainSelectionFacts ChainActivation ConnectFacts Acceptance Arrival.
Import Transaction.Transaction Transaction.TransactionFacts TxVerify.TxVerify Arith256.BaseUint Arith256.BaseUintFacts Consensus Chain ChainFacts Pow PowFacts Headers HeadersFacts Block BlockChecks BlockChecksFacts ChainSelection MostWork Activation Acceptance Node.
Local Open Scope bb_scope.

Module Processing.

(** ** The checks on a block *)

Section Checks.
Context (Hash : list Z → uint256) (GetBlockHash : CBlockHeader → uint256) (params : Params) (signet : CBlockHeader * list CTransaction → bool).
Abbreviation check := (CheckBlock Hash GetBlockHash params signet).

Lemma CheckBlock_checked block block' : check block true true = (Ok tt, block') → fChecked block' = true.
Proof.
  unfold CheckBlock. destruct (fChecked block) eqn:Ef; [by intros [= <-]|]. destruct (lift_header _); [|done]. destruct (_ && _ && _); [done|].
  destruct (CheckMerkleRoot Hash block) as [[u|] b1]; [|done]. destruct (check_contents b1); [|done]. by intros [= <-].
Qed.

Lemma CheckBlock_witness_flag block r block' : check block true true = (r, block') →
  m_checked_witness_commitment block' = m_checked_witness_commitment block.
Proof.
  unfold CheckBlock. destruct (fChecked block); [by intros [= _ <-]|]. destruct (lift_header _); [|by intros [= _ <-]].
  destruct (_ && _ && _); [by intros [= _ <-]|]. unfold CheckMerkleRoot. destruct (m_checked_merkle_root block).
  - destruct (check_contents block); by intros [= _ <-].
  - destruct (Merkle.BlockMerkleRoot _ _ _) as [root mut]. destruct (negb _); [by intros [= _ <-]|]. destruct mut; [by intros [= _ <-]|].
    destruct (check_contents _); by intros [= _ <-].
Qed.

(** The witness check only sets its flag. *)
Definition same_but_witness (b b' : CBlock) : Prop :=
  header b' = header b ∧ vtx b' = vtx b ∧ fChecked b' = fChecked b ∧ m_checked_merkle_root b' = m_checked_merkle_root b.

Lemma CheckWitnessMalleation_result block segwit : contents_valid block →
  ∃ r block', CheckWitnessMalleation Hash block segwit = (r, block') ∧ (∀ e, r ≠ Err (BlockChecks.Fault e)) ∧ same_but_witness block block'.
Proof.
  intros ((cb & rest & Ev & Hcb & _) & _).
  assert (∀ e, no_witness block ≠ Err (BlockChecks.Fault e)) as Hn by (intros e; unfold no_witness, require; by destruct (negb _)).
  unfold CheckWitnessMalleation. destruct segwit; [|by eexists _, _]. destruct (m_checked_witness_commitment block); [by eexists _, _|].
  destruct (negb _); [|by eexists _, _]. rewrite Ev. unfold IsCoinBase in Hcb. destruct (vin cb) as [|i l]; [done|].
  destruct (scriptWitness i) as [|nonce [|]]; [by eexists _, _| |by eexists _, _].
  destruct (negb _); [by eexists _, _|]. destruct (negb _); by eexists _, _.
Qed.

Lemma ContextualCheckBlock_result m block prev bp : wf_tree m → m !! prev = Some bp → contents_valid block →
  ∃ r block', ContextualCheckBlock Hash params m block (Some prev) = (r, block') ∧ (∀ e, r ≠ Err (BlockChecks.Fault e)) ∧
    same_but_witness block block'.
Proof.
  intros Hwf Hp Hc. destruct (GetMedianTimePast_total m prev bp Hwf Hp) as [t Et].
  pose proof Hc as ((cb & rest & Ev & Hcb & _) & _). unfold IsCoinBase in Hcb.
  unfold ContextualCheckBlock, deref. rewrite Hp. cbn [lift_chain rbind]. rewrite Et. cbn [lift_chain].
  assert (∃ c, (if DeploymentActiveAfter (Some (nHeight bp)) params DEPLOYMENT_CSV then Ok t
    else Ok (h_nTime (header block)) : result block_error Z) = Ok c) as [c ->] by (destruct (DeploymentActiveAfter _ _ _); by eexists).
  cbn [rbind]. unfold require at 1. destruct (forallb _ _); cbn [rbind]; [|by eexists _, _].
  assert (∀ e, (if DeploymentActiveAfter (Some (nHeight bp)) params DEPLOYMENT_HEIGHTINCB then height_in_coinbase block (nHeight bp + 1)
    else Ok tt) ≠ Err (BlockChecks.Fault e)) as Hh.
  { intros e. destruct (DeploymentActiveAfter _ _ _); [|done]. unfold height_in_coinbase, require. rewrite Ev.
    destruct (vin cb) as [|i l]; [done|]. by destruct (starts_with _ _). }
  destruct (if DeploymentActiveAfter _ _ DEPLOYMENT_HEIGHTINCB then _ else _) as [u|e]; cbn [rbind].
  2:{ eexists _, _. split; [done|]. split; [|done]. intros e' [= ->]. by apply (Hh e'). }
  destruct (CheckWitnessMalleation_result block (DeploymentActiveAfter (Some (nHeight bp)) params DEPLOYMENT_SEGWIT) Hc) as (r & b' & -> & Hr & Hs).
  destruct r as [v|e].
  - eexists _, _. split; [done|]. split; [|done]. intros e. unfold require. by destruct (negb _).
  - eexists _, _. split; [done|]. split; [|done]. intros e' [= ->]. by apply (Hr e').
Qed.

(** *** Blocks that differ in their witnesses *)

(** A transaction without its witness: what its id, and the header, commit to. *)
Definition strip_tx (tx : CTransaction) : CTransaction :=
  mkTx (map strip (vin tx)) (vout tx) (Transaction.nVersion tx) (nLockTime tx).
Definition same_base (b b' : CBlock) : Prop := header b = header b' ∧ map strip_tx (vtx b) = map strip_tx (vtx b').

Lemma IsFinalTx_strip tx h t : IsFinalTx (strip_tx tx) h t = IsFinalTx tx h t.
Proof.
  unfold IsFinalTx. cbn [nLockTime vin strip_tx]. do 2 (case_match; [done|]). by induction (vin tx) as [|i l IH]; cbn; [|rewrite IH].
Qed.

Lemma finality_base b b' h t : same_base b b' →
  forallb (fun tx => IsFinalTx tx h t) (vtx b) = forallb (fun tx => IsFinalTx tx h t) (vtx b').
Proof.
  intros [_ E]. assert (∀ l, forallb (fun tx => IsFinalTx tx h t) l = forallb (fun tx => IsFinalTx tx h t) (map strip_tx l)) as Hs.
  { induction l as [|tx l IH]; cbn; [done|]. by rewrite IH, IsFinalTx_strip. }
  by rewrite (Hs (vtx b)), E, <- Hs.
Qed.

Lemma height_base b b' h : same_base b b' → height_in_coinbase b h = height_in_coinbase b' h.
Proof.
  intros [_ E]. unfold height_in_coinbase. destruct (vtx b) as [|tx l], (vtx b') as [|tx' l']; try done. injection E as Ei _ _ _ _.
  destruct (vin tx) as [|i li], (vin tx') as [|i' li']; try done. by injection Ei as _ -> _ _.
Qed.

(** The part of [ContextualCheckBlock] before the witnesses. *)
Definition context_prefix (m : BlockMap) (block : CBlock) (prev : uint256) : result block_error bool :=
  let! b := lift_chain (deref m prev) in
  let after dep := DeploymentActiveAfter (Some (nHeight b)) params dep in
  let! cutoff := if after DEPLOYMENT_CSV then lift_chain (GetMedianTimePast m prev) else Ok (h_nTime (header block)) in
  let! _ := require (forallb (fun tx => IsFinalTx tx (nHeight b + 1) cutoff) (vtx block)) (BlockChecks.Invalid BadTxnsNonfinal) in
  let! _ := if after DEPLOYMENT_HEIGHTINCB then height_in_coinbase block (nHeight b + 1) else Ok tt in
  Ok (after DEPLOYMENT_SEGWIT).

Lemma context_split m block prev : ContextualCheckBlock Hash params m block (Some prev) =
  match context_prefix m block prev with
  | Err e => (Err e, block)
  | Ok segwit =>
      match CheckWitnessMalleation Hash block segwit with
      | (Err e, block) => (Err e, block)
      | (Ok _, block) => (require (negb (GetBlockWeight block >? Transaction.MAX_BLOCK_WEIGHT)) (BlockChecks.Invalid BadBlkWeight), block)
      end
  end.
Proof. unfold ContextualCheckBlock, context_prefix, deref. by destruct (m !! prev). Qed.

Lemma context_prefix_base m b b' prev : same_base b b' → context_prefix m b prev = context_prefix m b' prev.
Proof.
  intros Hb. unfold context_prefix. destruct (lift_chain (deref m prev)) as [bp|]; [|done]. cbn [rbind]. rewrite (proj1 Hb).
  destruct (if DeploymentActiveAfter _ _ DEPLOYMENT_CSV then _ else _) as [t|]; [|done]. cbn [rbind].
  by rewrite (finality_base b b'), (height_base b b').
Qed.

Lemma context_prefix_segwit m b prev bp segwit : m !! prev = Some bp → context_prefix m b prev = Ok segwit →
  segwit = DeploymentActiveAfter (Some (nHeight bp)) params DEPLOYMENT_SEGWIT.
Proof.
  intros Hp. unfold context_prefix, deref. rewrite Hp. cbn [lift_chain rbind].
  intros (t & _ & H)%rbind_ok. apply rbind_ok in H as (_ & _ & H). by apply rbind_ok in H as (_ & _ & [= <-]).
Qed.

Lemma context_grows m m' b prev bp : wf_tree m → grows m m' → m !! prev = Some bp →
  ContextualCheckBlock Hash params m' b (Some prev) = ContextualCheckBlock Hash params m b (Some prev).
Proof.
  intros Hwf Hg Hp. rewrite !context_split. destruct (Hg prev bp Hp) as (bp' & Hp' & Es). destruct (GetMedianTimePast_total m prev bp Hwf Hp) as [t Et].
  unfold context_prefix, deref. rewrite Hp, Hp', Et, (GetMedianTimePast_grows m m' Hg prev t Et).
  destruct (shape_fields _ _ Es) as (_ & _ & E & _). cbn [lift_chain rbind]. by rewrite E.
Qed.

(** The witness check refuses blocks as mutated, and only sets its flag. *)
Lemma witness_errors block segwit e block' : CheckWitnessMalleation Hash block segwit = (Err e, block') →
  (∃ r, e = BlockChecks.Invalid r ∧ IsMutated r = true) ∨ ∃ f, e = BlockChecks.Fault f.
Proof.
  assert (∀ e, no_witness block = Err e → ∃ r, e = BlockChecks.Invalid r ∧ IsMutated r = true) as Hn.
  { intros e0. unfold no_witness, require. destruct (negb _); [done|]. intros [= <-]. by eexists. }
  unfold CheckWitnessMalleation. destruct segwit; [|intros [= E _]; left; by apply Hn].
  destruct (m_checked_witness_commitment block); [done|]. destruct (negb _); [|intros [= E _]; left; by apply Hn].
  repeat case_match; intros [= <- _]; eauto.
Qed.

Lemma witness_same b b' segwit : vtx b = vtx b' → m_checked_witness_commitment b = m_checked_witness_commitment b' →
  (CheckWitnessMalleation Hash b segwit).1 = (CheckWitnessMalleation Hash b' segwit).1.
Proof.
  intros Ev Ew. unfold CheckWitnessMalleation, no_witness, GetWitnessCommitmentIndex. rewrite Ev, Ew.
  destruct segwit; [|done]. destruct (m_checked_witness_commitment b'); [done|]. destruct (negb _); [|done].
  destruct (vtx b') as [|tx l]; [done|]. destruct (vin tx) as [|i li]; [done|].
  destruct (scriptWitness i) as [|nonce [|]]; [done| |done]. by do 2 (destruct (negb _); [done|]).
Qed.

(** The flag that says the witnesses were checked is earned. *)
Definition witness_flag_sound (b : CBlock) : Prop :=
  m_checked_witness_commitment b = true → (CheckWitnessMalleation Hash (stored b) true).1 = Ok tt.

Lemma witness_stored b segwit b' : witness_flag_sound b → CheckWitnessMalleation Hash b segwit = (Ok tt, b') →
  (CheckWitnessMalleation Hash (stored b) segwit).1 = Ok tt ∧ GetBlockWeight b' = GetBlockWeight b.
Proof.
  intros Hf. destruct segwit; [|intros [= E <-]; by rewrite <- E].
  destruct (m_checked_witness_commitment b) eqn:E; [unfold CheckWitnessMalleation at 1; rewrite E; intros [= <-]; auto|].
  unfold CheckWitnessMalleation. rewrite E. cbn [m_checked_witness_commitment stored vtx].
  change (GetWitnessCommitmentIndex (stored b)) with (GetWitnessCommitmentIndex b). change (no_witness (stored b)) with (no_witness b).
  destruct (negb _); [|intros [= E' <-]; by rewrite E']. destruct (vtx b) as [|tx l] eqn:Ev; [done|]. destruct (vin tx) as [|i li]; [done|].
  destruct (scriptWitness i) as [|nonce [|]]; [done| |done]. do 2 (destruct (negb _); [done|]). intros [= <-]. split; [done|].
  unfold GetBlockWeight, block_GetSerializeSize, ser_block. cbn [header vtx]. by rewrite Ev.
Qed.

(** A block that passes has passed the witness check of its height. *)
Lemma context_witness m block prev bp b' : m !! prev = Some bp → ContextualCheckBlock Hash params m block (Some prev) = (Ok tt, b') →
  (CheckWitnessMalleation Hash block (DeploymentActiveAfter (Some (nHeight bp)) params DEPLOYMENT_SEGWIT)).1 = Ok tt.
Proof.
  intros Hp. rewrite context_split. destruct (context_prefix m block prev) as [segwit|] eqn:Ep; [|done].
  rewrite <- (context_prefix_segwit m block prev bp segwit Hp Ep). by destruct (CheckWitnessMalleation Hash block segwit) as [[[]|] ?].
Qed.

Lemma context_accepted m block prev b' : witness_flag_sound block →
  ContextualCheckBlock Hash params m block (Some prev) = (Ok tt, b') →
  (ContextualCheckBlock Hash params m (stored block) (Some prev)).1 = Ok tt.
Proof.
  intros Hf. rewrite !context_split, (context_prefix_base m (stored block) block prev) by done.
  destruct (context_prefix m block prev) as [segwit|]; [|done].
  destruct (CheckWitnessMalleation Hash block segwit) as [[[]|] b1] eqn:E; [|done]. intros [= Hw _].
  destruct (witness_stored block segwit b1 Hf E) as [E1 Ew]. destruct (CheckWitnessMalleation Hash (stored block) segwit) as [[[]|] b2] eqn:E2; [|done].
  destruct (witness_stored (stored block) segwit b2 ltac:(done) E2) as [_ Ew2]. cbn [fst]. rewrite Ew2.
  change (GetBlockWeight (stored block)) with (GetBlockWeight block). by rewrite <- Ew.
Qed.

(** A block that is refused, and not as a mutation, is not valid with other
    witnesses either. *)
Lemma context_rejected m b0 block prev bp r b' : m !! prev = Some bp → same_base block b0 → witness_flag_sound block →
  ((CheckWitnessMalleation Hash block (DeploymentActiveAfter (Some (nHeight bp)) params DEPLOYMENT_SEGWIT)).1 = Ok tt → vtx block = vtx b0) →
  ContextualCheckBlock Hash params m block (Some prev) = (Err (BlockChecks.Invalid r), b') → IsMutated r = false →
  (ContextualCheckBlock Hash params m (stored b0) (Some prev)).1 ≠ Ok tt.
Proof.
  intros Hp Hb Hf Hv. rewrite !context_split, (context_prefix_base m (stored b0) block prev) by (by split; symmetry; apply Hb).
  destruct (context_prefix m block prev) as [segwit|] eqn:Ep; [|done]. rewrite <- (context_prefix_segwit m block prev bp segwit Hp Ep) in Hv.
  destruct (CheckWitnessMalleation Hash block segwit) as [[[]|e] b1] eqn:E.
  - intros [= Hw _] _. assert (stored b0 = stored block) as -> by (unfold stored; by rewrite (proj1 Hb), (Hv eq_refl)).
    destruct (CheckWitnessMalleation Hash (stored block) segwit) as [[[]|] b2] eqn:E2; [|done].
    destruct (witness_stored block segwit b1 Hf E) as [_ Ew]. destruct (witness_stored (stored block) segwit b2 ltac:(done) E2) as [_ Ew2].
    cbn [fst]. rewrite Ew2. change (GetBlockWeight (stored block)) with (GetBlockWeight block). by rewrite <- Ew, Hw.
  - intros [= -> _] Hm. destruct (witness_errors _ _ _ _ E) as [(r' & [= <-] & ?)|[f ?]]; congruence.
Qed.

(** The block of [p] meets the rules that depend on the blocks below it, as far
    as [ContextualCheckBlock] checks them. *)
Definition contextual (content : uint256 → CBlock) (m : BlockMap) (p : uint256) : Prop :=
  ∀ b q, m !! p = Some b → pprev b = Some q → (ContextualCheckBlock Hash params m (stored (content p)) (Some q)).1 = Ok tt.

Lemma contextual_grows content m m' p b : wf_tree m → grows m m' → m !! p = Some b → contextual content m' p ↔ contextual content m p.
Proof.
  intros Hwf Hg Hb. destruct (Hg p b Hb) as (b' & Hb' & Es). destruct (shape_fields _ _ Es) as (Epp & _). split; intros H d q Hd Hq.
  - assert (d = b) as -> by congruence. destruct (parent_height m Hwf p b q Hb Hq) as (bq & Hbq & _).
    rewrite <- (context_grows m m' _ q bq) by done. apply (H b' q); [done|congruence].
  - assert (d = b') as -> by congruence. rewrite Epp in Hq. destruct (parent_height m Hwf p b q Hb Hq) as (bq & Hbq & _).
    rewrite (context_grows m m' _ q bq) by done. by apply (H b q).
Qed.

(** A block that passed, and the copy of it on disk. *)
Lemma checked_copies block blk : fChecked block = true → flags_sound Hash GetBlockHash params signet block →
  blk = block ∨ blk = stored block →
  header blk = header block ∧ vtx blk = vtx block ∧ flags_sound Hash GetBlockHash params signet blk ∧ (check blk true true).1 = Ok tt.
Proof.
  intros Hf Hs [-> | ->]; split_and!; try done.
  - unfold CheckBlock. by rewrite Hf.
  - apply CheckBlock_spec; [done..|]. by apply Hs.
Qed.

End Checks.

Section Tidy.
Context {C : Type} `{!BlockEngine C} (addr : uint256 → Z) `{Hinj : !Inj (=) (=) addr} (genesis : uint256) (lawful : BlockMap → Prop).
Context (block_of : uint256 → CBlock → Prop) (holds : BlockMap → CChain → C → Prop) (connectable : BlockMap → uint256 → Prop).
Context `{HF : !EngineFamily C genesis lawful block_of holds connectable} (N : Z).
Context (Hash : list Z → uint256) (params : Params) (content : uint256 → CBlock).
Context (Hcontent : ∀ p blk, block_of p blk → header blk = header (content p) ∧ vtx blk = vtx (content p)).
Implicit Types (st : Chainstate C).
Abbreviation is_tidy := (tidy addr genesis lawful block_of holds N).

Lemma tidy_laws st tip : is_tidy st tip → EngineLaws C (index st) block_of (holds (index st)) (connectable (index st)).
Proof. intros Ht. apply fam_laws; [apply (to_wf _ _ (wk_tree _ _ _ _ _ _ (td_kept _ _ _ _ _ _ _ _ Ht)))|apply Ht]. Qed.

Lemma well_kept_holds (h h' : CChain → C → Prop) st tip :
  (h (m_chain st) (coins_tip st) → h' (m_chain st) (coins_tip st)) →
  well_kept addr block_of h genesis st tip → well_kept addr block_of h' genesis st tip.
Proof. intros Hh []. split; auto. Qed.

(** ** Changes of statuses *)

Lemma linked_moves m m' u : same_core m m' → failures_grow m m' → linked_up N m u [] → linked_up N m' u [].
Proof.
  intros Hs Hf [Lt _ Lu Ln Lc Lp Lco].
  assert (∀ p b', m' !! p = Some b' → ∃ b, m !! p = Some b ∧ pprev b = pprev b' ∧ nHeight b = nHeight b' ∧ nTx b = nTx b' ∧
    nChainTx b = nChainTx b') as Ho.
  { intros p b' Hb'. destruct (proj2 Hs p b' Hb') as (b & Hb & Ec). exists b. destruct (core_fields _ _ Ec) as (-> & _ & -> & _).
    by destruct (core_counters _ _ Ec) as (-> & -> & _). }
  assert (∀ p b, m !! p = Some b → ∃ b', m' !! p = Some b' ∧ pprev b' = pprev b ∧ nTx b' = nTx b ∧ nChainTx b' = nChainTx b) as Hn.
  { intros p b Hb. destruct (proj1 Hs p b Hb) as (b' & Hb' & Ec). exists b'. destruct (core_fields _ _ Ec) as (-> & _).
    by destruct (core_counters _ _ Ec) as (-> & -> & _). }
  split; [| | |done|..].
  - intros p b' q c' (b & Hb & <- & _ & _ & <-)%Ho Htx Hq (c & Hc & _ & _ & _ & <-)%Ho. by apply (Lt p b q c).
  - by intros p ?%elem_of_nil.
  - intros q p Hp. destruct (Lu q p Hp) as (b & c & Hb & Hc & H). destruct (Hn p b Hb) as (b' & Hb' & E1 & E2 & E3).
    destruct (Hn q c Hc) as (c' & Hc' & _ & _ & E4). exists b', c'. by rewrite E1, E2, E3, E4.
  - intros p b' (b & Hb & <- & _ & <- & <-)%Ho H1 H2. destruct (Lc p b Hb H1 H2) as [?|[?|(q & c & Hq & Hc & Hfc)]]; [auto..|].
    destruct (Hn q c Hc) as (c' & Hc' & _). right; right. exists q, c'. split_and!; [done|done|]. by eapply Hf.
  - intros p b' (b & Hb & _ & _ & <- & <-)%Ho. by apply (Lp p).
  - intros p b' (b & Hb & _ & <- & <- & <-)%Ho. by apply (Lco p).
Qed.

Lemma moves_tidy bad st st' tip tip' :
  is_tidy st tip → moves bad st st' → well_kept addr block_of (holds (index st)) genesis st' tip' → is_tidy st' tip'.
Proof.
  intros [Kk Bk Hlu Hlaw Hbits] [Mc Mf _ Mb _] Kk'. destruct (Mb Bk) as [Bk' Eu]. destruct Mc as [Mc1 Mc2].
  pose proof (to_wf _ _ (wk_tree _ _ _ _ _ _ Kk)) as Hwf. pose proof (to_wf _ _ (wk_tree _ _ _ _ _ _ Kk')) as Hwf'.
  split; [|done| | |].
  - eapply well_kept_holds; [|exact Kk']. eapply fam_holds; [done|done|by apply ext_grows|].
    eapply chain_of_same; [by split|apply Kk'].
  - rewrite Eu. apply (linked_moves (index st)); [by split|done|done].
  - by eapply fam_lawful; [apply ext_grows..|].
  - intros p b Hb. destruct (Mc2 p b Hb) as (b0 & Hb0 & Ec). destruct (core_fields _ _ Ec) as (_ & _ & _ & _ & _ & _ & _ & <- & _).
    by apply (Hbits p).
Qed.

Lemma settles_tidy bad st st' tip : is_tidy st tip → settles bad st st' → is_tidy st' tip.
Proof.
  intros Ht Hs. pose proof (tidy_laws st tip Ht) as Hlaws. pose proof (td_kept _ _ _ _ _ _ _ _ Ht) as Kk.
  pose proof (wk_tree _ _ _ _ _ _ Kk) as Kt. apply (moves_tidy bad st st' tip tip Ht); [by apply settles_moves|].
  eapply (run_kept addr block_of (holds (index st)) (connectable (index st))); [exact Kt| |].
  - rewrite (se_chain _ _ Hs). apply Kk.
  - eapply run_settles; [exact Kt|exact Hs|]. by apply (run_start addr block_of (holds (index st)) (connectable (index st)) genesis).
Qed.

(** ** The tip is best *)

(** No block the node could connect is better than its tip. *)
Definition settled st (tip : uint256) : Prop := ∀ p, eligible (index st) p → ¬ lt addr (index st) tip p.

Definition same_rank (m m' : BlockMap) (p : uint256) : Prop :=
  nChainWork (entry m' p) = nChainWork (entry m p) ∧ nSequenceId (entry m' p) = nSequenceId (entry m p).

Lemma lt_rank_same m m' p q : same_rank m m' p → same_rank m m' q → lt addr m' p q ↔ lt addr m p q.
Proof. intros [E1 E2] [E3 E4]. unfold lt, CBlockIndexWorkComparator. by rewrite E1, E2, E3, E4. Qed.

(** Nothing that became known in between is better. *)
Lemma settled_later st st' tip :
  same_rank (index st) (index st') tip →
  (∀ p, eligible (index st') p → eligible (index st) p ∧ same_rank (index st) (index st') p) →
  settled st tip → settled st' tip.
Proof.
  intros Hrt Hel Hst p He. destruct (Hel p He) as [He0 Hrp]. rewrite (lt_rank_same (index st) (index st')) by done. by apply Hst.
Qed.

Lemma same_core_rank m m' p : same_core m m' → same_rank m m' p.
Proof. apply entry_same. Qed.

Lemma settles_settled bad st st' tip : settles bad st st' → settled st tip → settled st' tip.
Proof.
  intros Hs. pose proof (se_core _ _ Hs) as Hc. apply settled_later; [by apply same_core_rank|].
  intros p He. split; [by eapply settles_eligible|by apply same_core_rank].
Qed.

(** ** Only invalid blocks are marked *)

(** A block is valid: it meets all rules, and those below it do. *)
Definition valid (m : BlockMap) (p : uint256) : Prop :=
  valid_chain m (fun q => connectable m q ∧ contextual Hash params content m q) p.
Definition breaks (m : BlockMap) (p : uint256) : Prop := ¬ connectable m p ∨ ¬ contextual Hash params content m p.

(** What is recorded of blocks is true: those marked as failed are not valid,
    those whose data was stored met the rules, and entries are linked by the
    parents that the headers name. *)
Record honest st : Prop := {
  ho_failed : ∀ p b, index st !! p = Some b → failed b = true → ¬ valid (index st) p;
  ho_data : ∀ p b, index st !! p = Some b → nTx b ≠ 0 → contextual Hash params content (index st) p;
  ho_prev : ∀ p b q, index st !! p = Some b → pprev b = Some q → q = h_hashPrevBlock (header (content p));
}.

Lemma valid_below m p q : valid m p → anc m p q → valid m q.
Proof. intros Hv Ha r b s Hr. apply Hv. by eapply anc_trans. Qed.

Lemma valid_back m m' p b : wf_tree m → wf_tree m' → grows m m' → m !! p = Some b → valid m' p → valid m p.
Proof.
  intros Hwf Hwf' Hg Hb Hv q d r Ha Hd Hq. destruct (Hg q d Hd) as (d' & Hd' & Es). destruct (shape_fields _ _ Es) as (Epp & _).
  destruct (Hv q d' r) as [H1 H2]; [by apply (anc_new m)|done|congruence|].
  split; [by eapply fam_connectable|by apply (contextual_grows Hash params content m m' q d)].
Qed.

Lemma guilty_invalid m p : (∀ q b, m !! q = Some b → failed b = true → ¬ valid m q) → guilty (breaks m) m p → ¬ valid m p.
Proof.
  intros Hf (q & b & Ha & Hb & [Hq|[[r Hr] Hq]]) Hv; [by apply (Hf q b Hb Hq), (valid_below m p)|].
  destruct (Hv q b r Ha Hb Hr) as [H1 H2]. by destruct Hq.
Qed.

(** Changes that keep the tree and excuse their marks. *)
Lemma honest_blamed st st' : wf_tree (index st) → same_core (index st) (index st') → blamed (breaks (index st)) (index st) (index st') →
  honest st → honest st'.
Proof.
  intros Hwf Hs Hbl [Hf Hd Hp]. pose proof (ext_grows _ _ (proj1 Hs)) as Hg.
  assert (wf_tree (index st')) as Hwf' by (by eapply wf_tree_same). split.
  - intros p b' Hb' Hfb. destruct (proj2 Hs p b' Hb') as (b & Hb & _). intros Hv.
    apply (guilty_invalid (index st) p Hf (Hbl p b' Hb' Hfb)). by apply (valid_back (index st) (index st') p b).
  - intros p b' Hb' Hn. destruct (proj2 Hs p b' Hb') as (b & Hb & Ec). destruct (core_counters _ _ Ec) as (E & _).
    apply (contextual_grows Hash params content (index st) (index st') p b); [done..|]. apply (Hd p b); congruence.
  - intros p b' q Hb' Hq. destruct (proj2 Hs p b' Hb') as (b & Hb & Ec). destruct (core_fields _ _ Ec) as (E & _). apply (Hp p b); congruence.
Qed.

(** ** Marking the descendants of failed blocks *)

Lemma mark_walk_settles bad fuel st w f bw bf :
  wf_tree (index st) → index st !! w = Some bw → index st !! f = Some bf → failed bf = true → anc (index st) w f →
  (Z.to_nat (nHeight bw - nHeight bf) < fuel)%nat →
  ∃ bm, mark_walk fuel (m_blockman (chainman st)) w f = Ok bm ∧ settles bad st (set_chainman st (set_blockman (chainman st) bm)).
Proof.
  revert st w bw. induction fuel as [|fuel IH]; intros st w bw Hwf Hw Hf Hff Ha Hfu; [lia|]. cbn [mark_walk].
  case_bool_decide as E.
  { exists (m_blockman (chainman st)). split; [done|]. replace (set_chainman st _) with st; [apply settles_refl|].
    by destruct st as [[] ? ? ? ? ? ? ? ? ?]. }
  change (m_block_index (m_blockman (chainman st))) with (index st). rewrite Hw.
  destruct (anc_cases _ Hwf w bw f Hw Ha) as [?|(q & Hq & Hqf)]; [done|]. rewrite Hq.
  destruct (parent_height _ Hwf w bw q Hw Hq) as (bq & Hbq & Hh).
  destruct (anc_lookup _ Hwf q f Hqf) as (bq' & bf' & Hbq' & Hbf' & Hle).
  assert (bq' = bq) as -> by congruence. assert (bf' = bf) as -> by congruence.
  assert (tainted (index st) w) as Htw by (exists f, bf; split_and!; [done|done|by apply failed_unusable]).
  assert (guilty bad (index st) w) as Hgw by (exists f, bf; by split_and!; [..|left]).
  destruct (settles_mark (bad := bad) st w bw _ (or_intror eq_refl) Hw Htw Hgw) as (st1 & E1 & Hs1 & _ & Hk1).
  unfold set_status, deref in E1. rewrite Hw in E1. cbn [rbind] in E1. injection E1 as <-.
  match type of Hs1 with settles _ st ?s => set (st1 := s) in * end.
  assert (q ≠ w) as Hqw by (intros ->; assert (bq = bw) as -> by congruence; lia).
  destruct (IH st1 q bq) as (bm & Em & Hs2).
  - by eapply wf_tree_same; [apply (se_core _ _ Hs1)|].
  - by rewrite Hk1.
  - by rewrite Hk1 by congruence.
  - done.
  - by apply (anc_same (index st)); [apply (se_core _ _ Hs1)|].
  - lia.
  - exists bm. split; [exact Em|]. by eapply settles_trans; [exact Hs1|].
Qed.

Lemma failed_loop_settles bad st prev bp :
  books (chainman st) → wf_tree (index st) → index st !! prev = Some bp →
  ∀ l, (∀ p, p ∈ l → p ∈ m_failed_blocks (chainman st)) →
  ∃ r, failed_loop (m_blockman (chainman st)) prev l = Ok r ∧
    ∀ bm, r = Some bm → settles bad st (set_chainman st (set_blockman (chainman st) bm)).
Proof.
  intros Hbk Hwf Hp. induction l as [|f l IH]; intros Hl; cbn [failed_loop]; [by exists None|].
  change (m_block_index (m_blockman (chainman st))) with (index st).
  destruct (bk_failed _ Hbk f) as (bf & Hf & Hv); [apply Hl; set_solver|]. change (index st !! f = Some bf) in Hf.
  unfold deref at 1. rewrite Hf. cbn [rbind].
  assert (∃ a, GetAncestor (index st) prev (nHeight bf) = Ok a ∧ (a = Some f → anc (index st) prev f)) as (a & -> & Ha).
  { destruct (GetAncestor_spec _ Hwf prev bp (nHeight bf) Hp) as [Hin Hout]. destruct (decide (0 <= nHeight bf <= nHeight bp)) as [Hd|Hd].
    - destruct (Hin Hd) as (q & -> & Hq). exists (Some q). split; [done|]. intros [= ->]. by exists (nHeight bf).
    - exists None. by rewrite (Hout Hd). }
  cbn [rbind]. case_bool_decide as E; [|apply IH; set_solver].
  rewrite (proj2 (Z.eqb_neq _ _) Hv). cbn [negb require rbind]. unfold deref. rewrite Hp. cbn [rbind].
  assert (failed bf = true) as Hff.
  { unfold failed. rewrite negb_true_iff, Z.eqb_neq. intros E0. apply Hv.
    change BLOCK_FAILED_VALID with (Z.land BLOCK_FAILED_MASK BLOCK_FAILED_VALID). by rewrite Z.land_assoc, E0. }
  destruct (Hwf f bf Hf) as [Hh0 _].
  destruct (mark_walk_settles bad (S (Z.to_nat (nHeight bp))) st prev f bp bf) as (bm & -> & Hs); [done..|by apply Ha|lia|].
  cbn [rbind]. eexists. split; [done|]. by intros ? [= <-].
Qed.

(** ** A new entry *)

Section Added.
Context (st : Chainstate C) (tip h prev : uint256) (b c : CBlockIndex) (bh : option uint256) (d : gset uint256).
Context (Htd : is_tidy st tip) (Hnew : index st !! h = None) (Hent : wf_entry (index st) b).
Context (Hprev : pprev b = Some prev) (Hc : index st !! prev = Some c).
Context (Hwork : wf (nChainWork b)) (Hlt : val (nChainWork c) < val (nChainWork b)).
Context (Hzero : nTx b = 0 ∧ nChainTx b = 0 ∧ nStatus b = BLOCK_VALID_TREE) (Hbits : in_u 32 (nBits b)).
Context (Hroom : (nHeight b + 1) * N < 2 ^ 32) (Hlaw : lawful (<[h := b]> (index st))).
Context (Hbh : pointer_ok (<[h := b]> (index st)) bh).

Definition added : Chainstate C :=
  set_chainman st (set_blockman (chainman st)
    {| m_block_index := <[h := b]> (index st); best_header := bh; m_dirty_blockindex := d |}).

Lemma added_old p e : index st !! p = Some e → <[h := b]> (index st) !! p = Some e.
Proof. intros He. rewrite lookup_insert_ne; [done|congruence]. Qed.

Lemma added_grows : grows (index st) (<[h := b]> (index st)).
Proof. intros p e He. exists e. split; [by apply added_old|done]. Qed.

Lemma added_tree : tree_ok (<[h := b]> (index st)) genesis.
Proof.
  destruct (td_kept _ _ _ _ _ _ _ _ Htd) as [[Kw Kwk Kr Kx] _ _ _ _ _ _ _ _].
  assert (∀ p e q f, index st !! p = Some e → pprev e = Some q → <[h := b]> (index st) !! q = Some f → index st !! q = Some f) as Hpar.
  { intros p e q f He Hq [[-> ->]|[_ ?]]%rewritten_lookup; [|done]. destruct (parent_height _ Kw p e h He Hq) as (g & ? & _). congruence. }
  split.
  - by apply wf_tree_insert.
  - intros p e [[-> ->]|[_ He]]%rewritten_lookup.
    + split; [done|]. intros q f Hq Hf. assert (q = prev) as -> by congruence.
      rewrite (added_old prev c Hc) in Hf. by injection Hf as <-.
    + destruct (Kwk p e He) as [? Hl]. split; [done|]. intros q f Hq Hf. apply (Hl q f Hq). by eapply Hpar.
  - intros p e [[-> ->]|[_ He]]%rewritten_lookup; [congruence|by apply (Kr p)].
  - intros p e q f [[-> ->]|[_ He]]%rewritten_lookup Htx Hq Hf; [by destruct Hzero as (_ & ? & _)|].
    apply (Kx p e q f); try done. by eapply Hpar.
Qed.

Lemma added_eligible p : eligible (<[h := b]> (index st)) p ↔ eligible (index st) p.
Proof.
  destruct (td_kept _ _ _ _ _ _ _ _ Htd) as [[Kw _ _ _] _ _ _ _ _ _ _ _]. pose proof (to_wf _ _ added_tree) as Hwf'. split.
  - intros [(e & [[-> ->]|[_ He]]%rewritten_lookup & Htx) Hu]; [by destruct Hzero as (_ & ? & _)|]. split; [by exists e|].
    intros q f Ha Hf. apply (Hu q f); [by apply (anc_new _ _ added_grows)|by apply added_old].
  - intros [(e & He & Htx) Hu]. split; [exists e; by rewrite (added_old p e)|].
    intros q f Ha Hf. apply (anc_old _ _ Kw Hwf' added_grows p e q He) in Ha.
    destruct (anc_lookup _ Kw p q Ha) as (_ & g & _ & Hg & _). rewrite (added_old q g Hg) in Hf. injection Hf as <-. by apply (Hu q).
Qed.

Lemma added_linked : linked_up N (<[h := b]> (index st)) (m_blocks_unlinked st) [].
Proof.
  destruct (td_linked _ _ _ _ _ _ _ _ Htd) as [_ _ Lu Ln Lc Lp Lco]. destruct Hzero as (Z1 & Z2 & Z3).
  destruct (Lco prev c Hc) as (HN & HN1 & HN2). destruct Hent as [H0 _]. split.
  - apply (to_txs _ _ added_tree).
  - by intros p ?%elem_of_nil.
  - intros q p Hp. destruct (Lu q p Hp) as (e & f & He & Hf & ?). exists e, f. by rewrite (added_old p e), (added_old q f).
  - done.
  - intros p e [[-> ->]|[_ He]]%rewritten_lookup H1 H2; [done|]. destruct (Lc p e He H1 H2) as [?|[?|(q & f & Hq & Hf & ?)]]; [auto..|].
    right; right. exists q, f. by rewrite (added_old q f).
  - intros p e [[-> ->]|[_ He]]%rewritten_lookup; [done|by apply (Lp p)].
  - intros p e [[-> ->]|[_ He]]%rewritten_lookup; [|by apply (Lco p)]. rewrite Z1, Z2. nia.
Qed.

Lemma added_tidy : is_tidy added tip.
Proof.
  pose proof Htd as [[Kt Kc Ke Kca Kcm Kco Kf Ki Kh] [Bd Bl Bv Bf] _ _ Hb0]. destruct Hzero as (Z1 & Z2 & Z3).
  pose proof (to_wf _ _ Kt) as Hwf. pose proof (to_wf _ _ added_tree) as Hwf'.
  assert (∀ p, eligible (index st) p → h ≠ p) as Hne by (intros p [(e & He & _) _] <-; congruence).
  split; [split|split|exact added_linked|exact Hlaw|]; change (index added) with (<[h := b]> (index st)).
  - apply added_tree.
  - by eapply chain_of_new; [..|apply added_grows|exact Kc].
  - by apply added_eligible.
  - intros p Hp. destruct (Kca p Hp) as (e & He & Htx). exists e. by rewrite (added_old p e).
  - intros p He%added_eligible Hl. apply Kcm; [done|]. unfold lt in *.
    by rewrite (comparator_beside addr (index st) h b p tip) in Hl by (apply not_eq_sym; by apply Hne).
  - by eapply fam_holds; [exact Hwf|exact Hwf'|apply added_grows|exact Kc|exact Kco].
  - intros p e [[-> ->]|[_ He]]%rewritten_lookup Hu; [|by apply (Kf p e)]. unfold usable, failed in Hu. rewrite Z3 in Hu. done.
  - by eapply pointer_grows; [apply added_grows|].
  - exact Hbh.
  - intros p e [[-> ->]|[_ He]]%rewritten_lookup; [by rewrite Z1, Z3|by apply (Bd p)].
  - intros p e [[-> ->]|[_ He]]%rewritten_lookup; [done|by apply (Bl p)].
  - intros p e [[-> ->]|[_ He]]%rewritten_lookup; [by rewrite Z3|by apply (Bv p)].
  - intros p Hp. destruct (Bf p Hp) as (e & He & ?). exists e. split; [by apply added_old|done].
  - intros p e [[-> ->]|[_ He]]%rewritten_lookup; [done|by apply (Hb0 p)].
Qed.

Lemma added_settled : settled st tip → settled added tip.
Proof.
  pose proof Htd as [[Kt _ Ke _ _ _ _ _ _] _ _ _ _].
  assert (∀ p, eligible (index st) p → same_rank (index st) (<[h := b]> (index st)) p) as Hr.
  { intros p [(e & He & _) _]. unfold same_rank, entry. by rewrite (added_old p e), He. }
  apply settled_later; [by apply Hr|]. intros p He%added_eligible. auto.
Qed.

Lemma added_honest : prev = h_hashPrevBlock (header (content h)) → honest st → honest added.
Proof.
  intros Hpr [Hf Hd Hp]. pose proof (to_wf _ _ (wk_tree _ _ _ _ _ _ (td_kept _ _ _ _ _ _ _ _ Htd))) as Hwf.
  pose proof (to_wf _ _ added_tree) as Hwf'. destruct Hzero as (Z1 & _ & Z3).
  split; change (index added) with (<[h := b]> (index st)).
  - intros p e [[-> ->]|[_ He]]%rewritten_lookup Hfe; [unfold failed in Hfe; by rewrite Z3 in Hfe|]. intros Hv.
    apply (Hf p e He Hfe). by apply (valid_back (index st) (<[h := b]> (index st)) p e); [| |apply added_grows| |].
  - intros p e [[-> ->]|[_ He]]%rewritten_lookup Hn; [done|].
    apply (contextual_grows Hash params content (index st) _ p e); [done|apply added_grows|done|by apply (Hd p e)].
  - intros p e q [[-> ->]|[_ He]]%rewritten_lookup Hq; [congruence|by apply (Hp p e)].
Qed.

End Added.

(** Between two calls: the node's records are in order and true, and nothing it
    could connect is better than its tip. *)
Record in_order st (tip : uint256) : Prop := {
  io_tidy : is_tidy st tip;
  io_settled : settled st tip;
  io_honest : honest st;
}.

Lemma settles_order st st' tip : in_order st tip → settles (breaks (index st)) st st' → in_order st' tip.
Proof.
  intros [Ht Hst Hho] Hs. split; [by eapply settles_tidy|by eapply settles_settled|].
  apply (honest_blamed st); [apply (wk_tree _ _ _ _ _ _ (td_kept _ _ _ _ _ _ _ _ Ht))|apply (se_core _ _ Hs)|apply (se_blame _ _ Hs)|done].
Qed.

(** ** Headers *)

Context (GetHash : CBlockHeader → uint256) (checkpoints_enabled : bool) (checkpoints : list (Z * uint256)).
Abbreviation accept_header := (AcceptBlockHeader GetHash params checkpoints_enabled checkpoints).

(** Parameters within the widths of the difficulty arithmetic. *)
Definition params_ok : Prop := limit_ok params ∧ ∀ h, 0 <= h → timespan_ok params h ∧ interval_ok params h.

Lemma ContextualCheckBlockHeader_no_fault m block prev b now e :
  params_ok → wf_tree m → m !! prev = Some b → in_u 32 (nBits b) →
  ContextualCheckBlockHeader params checkpoints_enabled checkpoints m block prev now ≠ Err (Headers.Fault e).
Proof.
  intros [Hl Hp] Hwf Hb Hbits. destruct (Hwf prev b Hb) as [H0 _]. destruct (Hp (nHeight b + 1) ltac:(lia)) as [HT HI].
  destruct (proj1 (PowProps.GetNextWorkRequired_total m prev b params (h_nTime block) Hwf Hb Hl HT HI Hbits)) as [req Er].
  destruct (GetMedianTimePast_total m prev b Hwf Hb) as [t Et].
  unfold ContextualCheckBlockHeader, deref. rewrite Hb. cbn [lift rbind]. rewrite Er. cbn [lift rbind].
  destruct (h_nBits block =? req); cbn [require rbind]; [|done].
  destruct (if checkpoints_enabled then _ else _) as [[]|e'] eqn:Ec; cbn [rbind].
  - rewrite Et. cbn [lift rbind]. repeat (destruct (negb _); cbn [require rbind]; [|done]). done.
  - intros [= ->]. destruct checkpoints_enabled; [|done]. destruct (GetLastCheckpoint m checkpoints); [|done]. by destruct (negb _).
Qed.

Lemma pow_work hash nBits : in_u 32 nBits → hash ≠ hashGenesisBlock params → CheckProofOfWork hash nBits params = true →
  1 <= block_work nBits.
Proof.
  intros Hb Hg. unfold CheckProofOfWork, block_work. rewrite bool_decide_eq_false_2 by done.
  destruct (SetCompact_val nBits Hb) as [Hw Hv]. pose proof (val_range _ Hw) as Hr. destruct (SetCompact nBits) as [[t neg] ovf].
  cbn [fst] in *. rewrite EqualTo_spec by (done || split; lia).
  destruct neg; [done|]. destruct (val t =? 0) eqn:E0; [done|]. destruct ovf; [done|]. intros _. cbn [orb].
  unfold in_u in Hr. apply Z.div_le_lower_bound; lia.
Qed.

(** A header from the network: its hash is not that of another one, the work of
    its chain and the number of transactions in it are within their widths, and
    the block it names is lawful. *)
Record arrives (st : Chainstate C) (hdr : CBlockHeader) : Prop := {
  ar_bits : in_u 32 (h_nBits hdr);
  ar_named : header (content (GetHash hdr)) = hdr;
  ar_work : ∀ c, index st !! h_hashPrevBlock hdr = Some c → val (nChainWork c) + block_work (h_nBits hdr) < 2 ^ 256;
  ar_room : ∀ c, index st !! h_hashPrevBlock hdr = Some c → (nHeight c + 2) * N < 2 ^ 32;
  ar_lawful : ∀ b c, index st !! GetHash hdr = None → index st !! h_hashPrevBlock hdr = Some c → wf_entry (index st) b →
    pprev b = Some (h_hashPrevBlock hdr) → nHeight b = nHeight c + 1 → lawful (<[GetHash hdr := b]> (index st));
}.

(** A header that passed its checks enters the tree. *)
Lemma add_header_tidy st tip hdr c :
  in_order st tip → arrives st hdr → index st !! GetHash hdr = None → index st !! h_hashPrevBlock hdr = Some c →
  1 <= block_work (h_nBits hdr) →
  ∃ bm, AddToBlockIndex GetHash (m_blockman (chainman st)) hdr = Ok (bm, GetHash hdr) ∧
    let st' := set_chainman st (set_blockman (chainman st) bm) in
    in_order st' tip ∧ grows (index st) (index st') ∧ is_Some (index st' !! GetHash hdr) ∧
    ∀ q, is_Some (index st' !! q) → q = GetHash hdr ∨ is_Some (index st !! q).
Proof.
  intros [Htd Hst Hho] [Hbits Hnamed Hwork Hroom Hlaw] Hnew Hc Hw. pose proof (td_kept _ _ _ _ _ _ _ _ Htd) as [Kt _ _ _ _ _ _ _ Kh].
  assert (∀ p e, index st !! p = Some e → wf (nChainWork e)) as Hwk by (intros p e He; apply (to_work _ _ Kt p e He)).
  assert (GetHash hdr ≠ h_hashPrevBlock hdr) as Hne by congruence.
  destruct (AddToBlockIndex_entry GetHash (m_blockman (chainman st)) hdr (to_wf _ _ Kt) Hwk Hbits Hne Hnew)
    as (b & Hent & (_ & Hwb & Hvb & _) & Hpp & (_ & _ & _ & Eb & _) & Hz & _ & Hadd).
  change (m_block_index (m_blockman (chainman st))) with (index st) in *.
  assert (pprev b = Some (h_hashPrevBlock hdr)) as Hprev by (rewrite Hpp; unfold parent_ptr; by rewrite Hc).
  unfold parent in Hvb. rewrite Hprev, Hc, Eb in Hvb. cbn [from_option compose] in Hvb.
  pose proof (val_range _ (Hwk _ _ Hc)) as Hr. unfold in_u in Hr. rewrite Z.mod_small in Hvb by (specialize (Hwork c Hc); cbn; lia). cbn in Hvb.
  assert (nHeight b = nHeight c + 1) as Hh.
  { destruct Hent as [_ Hp]. rewrite Hprev in Hp. destruct Hp as [(c' & Hc' & ?) _]. congruence. }
  assert (∃ better, match best_header (m_blockman (chainman st)) with None => Ok true
    | Some bh => match deref (<[GetHash hdr := b]> (index st)) bh with Ok bb => Ok (op_lt (nChainWork bb) (nChainWork b)) | Err e => Err e end
    end = Ok better) as [better Ebet].
  { destruct (best_header _) as [q|] eqn:Eq; [|by eexists]. destruct (Kh q Eq) as [e He]. unfold deref.
    rewrite lookup_insert_ne by congruence. rewrite He. by eexists. }
  rewrite (Hadd better Ebet). eexists. split; [done|]. cbn zeta.
  assert (pointer_ok (<[GetHash hdr := b]> (index st)) (if better then Some (GetHash hdr) else best_header (m_blockman (chainman st)))) as Hbh.
  { intros q. destruct better; [intros [= <-]; rewrite lookup_insert_eq; by eexists|]. intros Eq. destruct (Kh q Eq) as [e He].
    rewrite lookup_insert_ne by congruence. by exists e. }
  pose proof (Hroom c Hc) as Hrm. rewrite <- Eb in Hbits.
  split_and!; [split| | |].
  - apply (added_tidy st tip (GetHash hdr) (h_hashPrevBlock hdr) b c); try done; [lia|rewrite Hh; lia|by apply (Hlaw b c)].
  - apply (added_settled st tip (GetHash hdr) (h_hashPrevBlock hdr) b c); try done; lia.
  - apply (added_honest st tip (GetHash hdr) (h_hashPrevBlock hdr) b c); try done; [lia|by rewrite Hnamed].
  - by apply added_grows.
  - exists b. apply lookup_insert_eq.
  - intros q [e [[-> _]|[_ He]]%rewritten_lookup]; [by left|right; eauto].
Qed.

Context (Hparams : params_ok) (Hgenesis : genesis = hashGenesisBlock params).

Lemma chainman_same st : set_chainman st (chainman st) = st.
Proof. by destruct st. Qed.

Lemma tidy_genesis st tip : is_tidy st tip → is_Some (index st !! genesis).
Proof.
  intros Htd. destruct (td_kept _ _ _ _ _ _ _ _ Htd) as [Kt _ [(bt & Hbt & _) _] _ _ _ _ _ _].
  destruct (anc_lookup _ (to_wf _ _ Kt) tip genesis (root_anc _ _ Kt tip bt Hbt)) as (_ & g & _ & Hg & _). eauto.
Qed.

(** The checks on a new header end in a verdict. *)
Lemma check_new_header_tidy st tip hdr now : in_order st tip →
  ∃ r cm, check_new_header GetHash params checkpoints_enabled checkpoints (chainman st) hdr now = (r, cm) ∧
    in_order (set_chainman st cm) tip ∧ grows (index st) (index (set_chainman st cm)) ∧
    (∀ e, r ≠ Err (Headers.Fault e)) ∧
    (r = Ok tt → cm = chainman st ∧ CheckProofOfWork (GetHash hdr) (h_nBits hdr) params = true ∧
       is_Some (index st !! h_hashPrevBlock hdr)).
Proof.
  intros Hio. pose proof (io_tidy _ _ Hio) as Htd. pose proof (to_wf _ _ (wk_tree _ _ _ _ _ _ (td_kept _ _ _ _ _ _ _ _ Htd))) as Hwf.
  assert (∀ r : result header_error unit, (∀ e, r ≠ Err (Headers.Fault e)) →
    (r = Ok tt → CheckProofOfWork (GetHash hdr) (h_nBits hdr) params = true ∧ is_Some (index st !! h_hashPrevBlock hdr)) →
    ∃ r' cm, (r, chainman st) = (r', cm) ∧
    in_order (set_chainman st cm) tip ∧ grows (index st) (index (set_chainman st cm)) ∧
    (∀ e, r' ≠ Err (Headers.Fault e)) ∧
    (r' = Ok tt → cm = chainman st ∧ CheckProofOfWork (GetHash hdr) (h_nBits hdr) params = true ∧
       is_Some (index st !! h_hashPrevBlock hdr))) as Hsame.
  { intros r H1 H2. exists r, (chainman st). rewrite chainman_same. split_and!; try done; [apply grows_refl|]. intros E. by destruct (H2 E). }
  unfold check_new_header, CheckBlockHeader. change (m_block_index (m_blockman (chainman st))) with (index st).
  destruct (CheckProofOfWork _ _ _) eqn:Epow; cbn [andb negb require]; [|by apply Hsame].
  destruct (index st !! h_hashPrevBlock hdr) as [bp|] eqn:Ep; [|by apply Hsame].
  destruct (negb (Z.land (nStatus bp) BLOCK_FAILED_MASK =? 0)) eqn:Ef; [by apply Hsame|].
  pose proof (ContextualCheckBlockHeader_no_fault (index st) hdr (h_hashPrevBlock hdr) bp now) as Hnf.
  destruct (ContextualCheckBlockHeader _ _ _ _ _ _ _) as [u|e].
  2:{ apply Hsame; [|done]. intros e' [= ->]. apply (Hnf e'); [done..|by apply (td_bits _ _ _ _ _ _ _ _ Htd _ _ Ep)|done]. }
  assert (∃ v, IsValid (nStatus bp) BLOCK_VALID_SCRIPTS = Ok v) as [v ->].
  { unfold IsValid. change (negb (Z.land BLOCK_VALID_SCRIPTS (Z.lnot BLOCK_VALID_MASK) =? 0)) with false. rewrite Ef. by eexists. }
  destruct v; [by apply Hsame; [|eauto]|].
  destruct (failed_loop_settles (breaks (index st)) st (h_hashPrevBlock hdr) bp (td_books _ _ _ _ _ _ _ _ Htd) Hwf Ep (m_failed_blocks (chainman st)) ltac:(done))
    as (r & -> & Hr). destruct r as [bm|]; [|by apply Hsame; [|eauto]].
  specialize (Hr bm eq_refl). eexists _, _. split; [done|]. split_and!; try done.
  - by apply (settles_order st).
  - apply ext_grows, (se_core _ _ Hr).
Qed.

Lemma AcceptBlockHeader_tidy st tip hdr min_pow now : in_order st tip → arrives st hdr →
  ∃ r cm, accept_header (chainman st) hdr min_pow now = (r, cm) ∧
    in_order (set_chainman st cm) tip ∧ grows (index st) (index (set_chainman st cm)) ∧
    (∀ e, r ≠ Err (Headers.Fault e)) ∧
    (∀ p, r = Ok p → p = GetHash hdr ∧ is_Some (index (set_chainman st cm) !! p) ∧
       ∀ q, is_Some (index (set_chainman st cm) !! q) → q = p ∨ is_Some (index st !! q)).
Proof.
  intros Hio Har. pose proof (io_tidy _ _ Hio) as Htd. unfold AcceptBlockHeader. case_bool_decide as Hg; cbn [negb].
  - assert (is_Some (index st !! GetHash hdr)) as [g Eg] by (rewrite Hg, <- Hgenesis; by eapply tidy_genesis).
    exists (if min_pow then Ok (GetHash hdr) else Err (Headers.Invalid TooLittleChainwork)), (chainman st). rewrite chainman_same.
    split_and!; try done; [|apply grows_refl|by destruct min_pow|].
    + destruct min_pow; [|done]. cbn [negb]. unfold AddToBlockIndex. change (m_block_index (m_blockman (chainman st))) with (index st). rewrite Eg.
      by destruct (chainman st).
    + intros p. destruct min_pow; [|done]. intros [= <-]. rewrite Eg. eauto.
  - change (m_block_index (m_blockman (chainman st))) with (index st).
    destruct (index st !! GetHash hdr) as [b|] eqn:Ek.
    { exists (if negb (Z.land (nStatus b) BLOCK_FAILED_MASK =? 0) then Err (Headers.Invalid Duplicate) else Ok (GetHash hdr)), (chainman st).
      rewrite chainman_same. split_and!; try done; [by destruct (negb _)|apply grows_refl|by destruct (negb _)|].
      intros p. destruct (negb _); [done|]. intros [= <-]. rewrite Ek. eauto. }
    destruct (check_new_header_tidy st tip hdr now Hio) as (v & cm & -> & Ht1 & Hg1 & Hf1 & Hok).
    destruct v as [[]|e].
    2:{ exists (Err e), cm. split_and!; try done. intros e' [= ->]. by apply (Hf1 e'). }
    destruct (Hok eq_refl) as (-> & Hpow & [c Hc]). rewrite chainman_same in *. destruct min_pow; cbn [negb].
    + destruct (add_header_tidy st tip hdr c Hio Har Ek Hc) as (bm & -> & H1 & H3 & H4 & H5); [by apply (pow_work (GetHash hdr)); [apply Har|..]|].
      eexists _, _. split; [done|]. split_and!; try done. by intros p [= <-].
    + eexists _, _. split; [done|]. rewrite chainman_same. by split_and!.
Qed.

(** ** A block *)

Context (CheckSignetBlockSolution : CBlockHeader * list CTransaction → bool) (minimum_chain_work : base_uint) (writable : CBlock → bool).
Abbreviation accept_block := (AcceptBlock addr Hash GetHash params CheckSignetBlockSolution checkpoints_enabled checkpoints minimum_chain_work writable).
Abbreviation process_block := (ProcessNewBlock addr Hash GetHash params CheckSignetBlockSolution checkpoints_enabled checkpoints minimum_chain_work writable).
Abbreviation check := (CheckBlock Hash GetHash params CheckSignetBlockSolution).

(** A block from the network.  The verdicts cached in it are earned.  If its Merkle
    root is that of its header, its transactions are those its hash names, up to
    their witnesses; and if its witness commitment fits too, it is that block. *)
Record block_arrives st (block : CBlock) : Prop := {
  ba_header : arrives st (header block);
  ba_flags : flags_sound Hash GetHash params CheckSignetBlockSolution block;
  ba_witness : witness_flag_sound Hash block;
  ba_size : Z.of_nat (length (vtx block)) <= N;
  ba_base : (check block true true).1 = Ok tt → map strip_tx (vtx block) = map strip_tx (vtx (content (GetHash (header block))));
  ba_content : ∀ blk c, header blk = header block → vtx blk = vtx block → flags_sound Hash GetHash params CheckSignetBlockSolution blk →
    (check blk true true).1 = Ok tt → index st !! h_hashPrevBlock (header block) = Some c →
    (CheckWitnessMalleation Hash block (DeploymentActiveAfter (Some (nHeight c)) params DEPLOYMENT_SEGWIT)).1 = Ok tt →
    block_of (GetHash (header block)) blk;
}.

(** The statuses an entry without its block can get. *)
Lemma mark_rejected_order st tip p b e : in_order st tip → index st !! p = Some b → Z.land (nStatus b) BLOCK_HAVE_DATA = 0 →
  (∀ r, e = BlockChecks.Invalid r → IsMutated r = false → is_Some (pprev b) ∧ ¬ contextual Hash params content (index st) p) →
  ∃ st', mark_rejected st p e = Ok st' ∧ in_order st' tip ∧ grows (index st) (index st').
Proof.
  intros Hio Hb Hd Hbad. assert (∃ st', mark_rejected st p e = Ok st' ∧ settles (breaks (index st)) st st') as (st' & E & Hs).
  { destruct e as [r|e]; cbn [mark_rejected]; [|by exists st; split; [|apply settles_refl]].
    destruct (IsMutated r) eqn:Em; [by exists st; split; [|apply settles_refl]|]. destruct (Hbad r eq_refl Em) as [Hpp Hn].
    destruct (settles_mark (bad := breaks (index st)) st p b _ (or_introl eq_refl) Hb) as (st' & -> & Hs & _); [..|by exists st'].
    - exists p, b. split_and!; [by eapply anc_refl|done|]. unfold usable. rewrite Hd. apply andb_false_r.
    - exists p, b. split_and!; [by eapply anc_refl|done|right; split; [done|by right]]. }
  exists st'. split_and!; [done|by apply (settles_order st)|]. apply ext_grows, (se_core _ _ Hs).
Qed.

Lemma stored_tidy st tip p blk : is_tidy st tip → block_of p blk → is_tidy (set_files st (<[p := blk]> (block_files st))) tip.
Proof.
  intros [[? ? ? ? ? ? Kf ? ?] ? ? ? ?] Hof. split; [|done..]. split; try done. intros q b Hq Hu. cbn [block_files set_files].
  destruct (decide (q = p)) as [->|Hn]; [exists blk; by rewrite lookup_insert_eq|]. rewrite lookup_insert_ne by done. by apply (Kf q b).
Qed.

(** The entry of a block that passed its header checks, and the tip. *)
Lemma accepted_work st tip p b : is_tidy st tip → index st !! p = Some b →
  ∃ more, (let! b := deref (index st) p in
           let! more := match Tip (m_chain st) with
                        | None => Ok true
                        | Some tip => let! t := deref (index st) tip in Ok (op_ge (nChainWork b) (nChainWork t))
                        end in
           Ok (b, more)) = Ok (b, more).
Proof.
  intros Htd Hb. destruct (td_kept _ _ _ _ _ _ _ _ Htd) as [Kt Kc [(bt & Hbt & _) _] _ _ _ _ _ _].
  unfold deref. rewrite Hb. cbn [rbind]. rewrite (chain_of_Tip _ (to_wf _ _ Kt) _ _ Kc), Hbt. cbn [rbind]. by eexists.
Qed.

(** What [AcceptBlock] leaves behind. *)
Definition accepted st (tip : uint256) (block : CBlock) (res : result accept_error bool * Chainstate C * CBlock) : Prop :=
  let '(r, st', block') := res in
  is_tidy st' tip ∧ honest st' ∧ grows (index st) (index st') ∧
  match r with
  | Ok true => header block' = header block ∧ block_of (GetHash (header block)) block'
  | Ok false => settled st' tip
  | Err e => fault_of e = None ∧ settled st' tip
  end.

(** Every entry but the genesis has a parent, and the genesis has its block. *)
Lemma missing_parent st tip p b : is_tidy st tip → index st !! p = Some b → Z.land (nStatus b) BLOCK_HAVE_DATA = 0 →
  ∃ q c, pprev b = Some q ∧ index st !! q = Some c.
Proof.
  intros Htd Hb Hd. destruct (td_kept _ _ _ _ _ _ _ _ Htd) as [Kt _ [(bt & Hbt & _) Hu] _ _ _ _ _ _].
  destruct (pprev b) as [q|] eqn:Hq.
  - destruct (parent_height _ (to_wf _ _ Kt) p b q Hb Hq) as (c & Hc & _). eauto.
  - pose proof (to_root _ _ Kt p b Hb Hq) as ->. specialize (Hu genesis b (root_anc _ _ Kt tip bt Hbt) Hb).
    unfold usable in Hu. rewrite Hd in Hu. by rewrite andb_false_r in Hu.
Qed.

(** The new data of a block, and nothing else, is recorded. *)
Lemma received_honest st st' p : wf_tree (index st) → wf_tree (index st') → grows (index st) (index st') → contextual Hash params content (index st) p →
  (∀ q d', index st' !! q = Some d' → ∃ d, index st !! q = Some d ∧ failed d' = failed d ∧ (q ≠ p → nTx d' = nTx d)) →
  honest st → honest st'.
Proof.
  intros Hwf Hwf' Hg Hctx Hold [Hf Hd Hp]. split.
  - intros q d' Hq Hfd Hv. destruct (Hold q d' Hq) as (d & Hd0 & E & _). apply (Hf q d Hd0); [congruence|].
    by apply (valid_back (index st) (index st') q d).
  - intros q d' Hq Hn. destruct (Hold q d' Hq) as (d & Hd0 & _ & E). apply (contextual_grows Hash params content (index st) (index st') q d); [done..|].
    destruct (decide (q = p)) as [->|Hne]; [done|]. apply (Hd q d Hd0). by rewrite <- E.
  - intros q d' r Hq Hr. destruct (Hold q d' Hq) as (d & Hd0 & _). destruct (Hg q d Hd0) as (d1 & Hd1 & Es).
    destruct (shape_fields _ _ Es) as (Epp & _). apply (Hp q d); [done|]. congruence.
Qed.

(** What the checks of a block say about the block its hash names. *)
Lemma check_says st st1 tip block q c : block_arrives st block → fChecked block = true → in_order st1 tip → grows (index st) (index st1) →
  index st1 !! q = Some c → q = h_hashPrevBlock (header block) → is_Some (index st !! q) →
  ∃ r blk, ContextualCheckBlock Hash params (index st1) block (Some q) = (r, blk) ∧ (∀ e, r ≠ Err (BlockChecks.Fault e)) ∧ same_but_witness block blk ∧
    match r with
    | Ok _ => (∀ cp, header cp = header block → vtx cp = vtx block → flags_sound Hash GetHash params CheckSignetBlockSolution cp →
                 (check cp true true).1 = Ok tt → block_of (GetHash (header block)) cp) ∧
        (ContextualCheckBlock Hash params (index st1) (stored (content (GetHash (header block)))) (Some q)).1 = Ok tt
    | Err (BlockChecks.Invalid x) => IsMutated x = false →
        (ContextualCheckBlock Hash params (index st1) (stored (content (GetHash (header block)))) (Some q)).1 ≠ Ok tt
    | Err _ => True
    end.
Proof.
  intros [Bh Bf Bw Bs Bb Bc] Hck Hio Hg Hc -> [c0 Hc0]. pose proof (to_wf _ _ (wk_tree _ _ _ _ _ _ (td_kept _ _ _ _ _ _ _ _ (io_tidy _ _ Hio)))) as Hwf.
  destruct (ContextualCheckBlock_result Hash params (index st1) block _ c Hwf Hc (proj2 (proj2 (proj2 (proj2 Bf Hck))))) as (r & blk & E & Hr & Hsame).
  exists r, blk. split_and!; [done|done|done|]. set (p := GetHash (header block)) in *.
  assert (nHeight c = nHeight c0) as Eh.
  { destruct (Hg _ c0 Hc0) as (c' & Hc' & Es). destruct (shape_fields _ _ Es) as (_ & _ & ? & _). congruence. }
  assert ((check block true true).1 = Ok tt) as Hok by (unfold CheckBlock; by rewrite Hck).
  assert (∀ cp, (CheckWitnessMalleation Hash block (DeploymentActiveAfter (Some (nHeight c)) params DEPLOYMENT_SEGWIT)).1 = Ok tt →
    header cp = header block → vtx cp = vtx block → flags_sound Hash GetHash params CheckSignetBlockSolution cp → (check cp true true).1 = Ok tt →
    block_of p cp) as Hof by (rewrite Eh; intros cp H1 ? ? ? ?; by apply (Bc cp c0)).
  pose proof (ar_named _ _ Bh) as Hnm. fold p in Hnm.
  destruct r as [[]|[x|e]]; [|intros Hm|done].
  - pose proof (context_witness Hash params (index st1) block _ c blk Hc E) as Hw. split; [by intros cp; apply Hof|].
    destruct (Hcontent p block) as [E1 E2]; [by apply Hof|].
    replace (stored (content p)) with (stored block) by (unfold stored; by rewrite E1, E2).
    by apply (context_accepted Hash params (index st1) block _ blk).
  - apply (context_rejected Hash params (index st1) (content p) block _ c x blk); try done.
    + split; [by rewrite Hnm|by apply Bb].
    + intros Hw. destruct (Hcontent p block) as [_ E2]; [by apply Hof|done].
Qed.

Lemma AcceptBlock_tidy st tip block req min_pow now :
  in_order st tip → block_arrives st block → fChecked block = true →
  accepted st tip block (accept_block st block req min_pow now).
Proof.
  intros Hio Hba Hck. pose proof Hba as [Bh Bf Bw Bs Bb Bc]. unfold AcceptBlock.
  destruct (AcceptBlockHeader_tidy st tip (header block) min_pow now Hio Bh) as (r & cm & -> & Hio1 & Hg1 & Hnf & Hok).
  pose proof Hio1 as [Ht1 Hs1 Hh1]. destruct r as [p|e].
  2:{ split_and!; try done. destruct e as [|e]; [done|]. by destruct (Hnf e). }
  destruct (Hok p eq_refl) as (-> & [b Hb] & Hnew). set (st1 := set_chainman st cm) in *. set (p := GetHash (header block)) in *.
  destruct (accepted_work st1 tip p b Ht1 Hb) as [more ->].
  destruct (negb (Z.land (nStatus b) BLOCK_HAVE_DATA =? 0)) eqn:Ed; [by split_and!|]. destruct (negb req && _); [by split_and!|].
  apply negb_false_iff, Z.eqb_eq in Ed. destruct (missing_parent st1 tip _ b Ht1 Hb Ed) as (q & c & Hq & Hc).
  pose proof (to_wf _ _ (wk_tree _ _ _ _ _ _ (td_kept _ _ _ _ _ _ _ _ Ht1))) as Hwf1.
  pose proof (ho_prev _ Hh1 p b q Hb Hq) as Eq. unfold p in Eq. rewrite (ar_named _ _ Bh) in Eq.
  assert (is_Some (index st !! q)) as Hqs.
  { destruct (Hnew q) as [->|?]; [by eexists| |done]. destruct (parent_height _ Hwf1 p b p Hb Hq) as (c' & Hc' & Hh). simplify_eq. lia. }
  unfold check_block. unfold CheckBlock at 1. rewrite Hck, Hq.
  destruct (check_says st st1 tip block q c Hba Hck Hio1 Hg1 Hc Eq Hqs) as (r & blk & -> & Hr & (Ew1 & Ew2 & Ew3 & Ew4) & Hsays). fold p in Hsays.
  destruct r as [u|e].
  2:{ destruct (mark_rejected_order st1 tip p b e Hio1 Hb Ed) as (st2 & -> & [Ht2 Hs2 Hh2] & Hg2).
      { intros x -> Hm. split; [by eexists|]. intros Hctx. apply (Hsays Hm). by apply (Hctx b q). }
      split_and!; [done|done|by eapply grows_trans| |done]. destruct e as [|e]; [done|]. by destruct (Hr e). }
  destruct Hsays as [Hof Hctx]. destruct (negb (writable blk)); [by split_and!|].
  assert (stored blk = stored block) as Est by (unfold stored; by rewrite Ew1, Ew2). rewrite Est.
  assert (nTx b = 0) as Hn0.
  { destruct (decide (nTx b = 0)) as [|Hn]; [done|]. by destruct (proj1 (bk_data _ (td_books _ _ _ _ _ _ _ _ Ht1) _ b Hb) Hn). }
  assert (∀ cp, cp = block ∨ cp = stored block → block_of p cp) as Hcp.
  { intros cp Hcp. destruct (checked_copies Hash GetHash params CheckSignetBlockSolution block cp Hck Bf Hcp) as (E1 & E2 & E3 & E4). by apply Hof. }
  destruct (ReceivedBlockTransactions_tidy addr genesis lawful block_of holds connectable N params
    (set_files st1 (<[p := stored block]> (block_files st1))) tip p b blk (stored block)) as (st2 & -> & Ht2 & Hg2 & _ & Hold).
  - apply stored_tidy; auto.
  - done.
  - done.
  - apply lookup_insert_eq.
  - auto.
  - rewrite Ew2. destruct (proj2 (proj2 (proj2 (proj2 Bf Hck)))) as ((cb & rest & -> & _) & _). done.
  - by rewrite Ew2.
  - split_and!; [done| |by eapply grows_trans|done|].
    + apply (received_honest st1 st2 p); try done; [apply (wk_tree _ _ _ _ _ _ (td_kept _ _ _ _ _ _ _ _ Ht2))|].
      intros d r Hd Hr0. assert (d = b) as -> by congruence. by assert (r = q) as -> by congruence.
    + apply Hof; [done|done| |].
      * destruct Bf as [F1 F2]. split; rewrite ?Ew1, ?Ew2, ?Ew3, ?Ew4; [done|]. intros H. apply (block_valid_eq Hash GetHash params _ block); auto.
      * unfold CheckBlock. by rewrite Ew3, Hck.
Qed.

Lemma moves_eligible bad st st' p : books (chainman st) → moves bad st st' → eligible (index st') p → eligible (index st) p.
Proof.
  intros Bk [Mc Mf _ Mb _] [(b' & Hb' & Htx) Hu]. destruct (Mb Bk) as [Bk' _]. split.
  - destruct (proj2 Mc p b' Hb') as (b & Hb & Ec). exists b. split; [done|]. destruct (core_counters _ _ Ec) as (_ & E & _). congruence.
  - intros q b Ha Hb. destruct (proj1 Mc q b Hb) as (b1 & Hb1 & Ec). destruct (core_counters _ _ Ec) as (En & _).
    specialize (Hu q b1 (proj1 (anc_same _ _ p q Mc) Ha) Hb1). unfold usable in *. apply andb_true_iff in Hu as [Hu1 Hu2].
    apply negb_true_iff in Hu1, Hu2. apply andb_true_iff. split; apply negb_true_iff.
    + destruct (failed b) eqn:Ef; [|done]. by rewrite (Mf q b b1 Hb Hb1 Ef) in Hu1.
    + apply Z.eqb_neq. apply (bk_data _ Bk q b Hb). replace (nTx b) with (nTx b1) by congruence. apply (bk_data _ Bk' q b1 Hb1). by apply Z.eqb_neq.
Qed.

(** ** The best chain *)

(** The node has the block and all blocks below it, and none of them failed. *)
Definition available (m : BlockMap) (p : uint256) : Prop :=
  is_Some (m !! p) ∧ ∀ q b, anc m p q → m !! q = Some b → usable b = true.

(** The node has the block and all blocks below it, whatever it thinks of them. *)
Definition has_blocks (m : BlockMap) (p : uint256) : Prop :=
  is_Some (m !! p) ∧ ∀ q b, anc m p q → m !! q = Some b → Z.land (nStatus b) BLOCK_HAVE_DATA ≠ 0.

(** The node's chain and coins are those of [tip], a chain of valid blocks; no
    chain of blocks it has that could be connected is better, and it has not
    given up a valid one. *)
Record on_best_chain st (tip : uint256) : Prop := {
  bc_chain : chain_of (index st) tip (m_chain st);
  bc_coins : holds (index st) (m_chain st) (coins_tip st);
  bc_tip : available (index st) tip;
  bc_valid : valid (index st) tip;
  bc_best : ∀ p, has_blocks (index st) p → valid_chain (index st) (connectable (index st)) p → ¬ lt addr (index st) tip p;
  bc_failed : ∀ p b, index st !! p = Some b → failed b = true → ¬ valid (index st) p;
}.

(** Blocks are linked as soon as all blocks below them are there. *)
Lemma available_linked st tip n p b : is_tidy st tip → available (index st) p → index st !! p = Some b → nHeight b < Z.of_nat n → nChainTx b ≠ 0.
Proof.
  intros Htd. pose proof Htd as [Kk Bk [_ _ Lu _ Lc _ _] _ _]. pose proof (to_wf _ _ (wk_tree _ _ _ _ _ _ Kk)) as Hwf.
  revert p b. induction n as [|n IH]; intros p b [_ Hu] Hb Hn Hz; [destruct (Hwf p b Hb); lia|].
  assert (nTx b ≠ 0) as Htx.
  { apply (bk_data _ Bk p b Hb). specialize (Hu p b (anc_refl _ p b Hb) Hb). apply andb_true_iff in Hu as [_ Hu].
    by apply negb_true_iff, Z.eqb_neq in Hu. }
  assert (∃ q c, pprev b = Some q ∧ index st !! q = Some c ∧ (nChainTx c = 0 ∨ failed c = true)) as (q & c & Hq & Hc & Hbad).
  { destruct (Lc p b Hb Htx Hz) as [?%elem_of_nil|[([q p'] & -> & Hin)%list_elem_of_fmap|(q & c & Hq & Hc & Hf)]]; [done| |eauto 6].
    destruct (Lu q p' Hin) as (b1 & c & Hb1 & Hc & Hq & _ & _ & Hcz). cbn in Hb. simplify_eq. eauto 6. }
  pose proof (anc_step _ Hwf p b q Hb Hq) as Hs. destruct Hbad as [Hcz|Hf].
  - destruct (parent_height _ Hwf p b q Hb Hq) as (c' & Hc' & Hh). simplify_eq. apply (IH q c); [|done|lia|done].
    split; [done|]. intros r d Ha. apply Hu. by eapply anc_trans.
  - specialize (Hu q c Hs Hc). unfold usable in Hu. by rewrite Hf in Hu.
Qed.

(** What was stored met the rules that depend on the blocks below. *)
Lemma stored_valid st tip p : is_tidy st tip → honest st → (∀ q b, anc (index st) p q → index st !! q = Some b → Z.land (nStatus b) BLOCK_HAVE_DATA ≠ 0) →
  valid_chain (index st) (connectable (index st)) p → valid (index st) p.
Proof.
  intros Htd Hho Hd Hv q b r Ha Hb Hr. split; [by apply (Hv q b r)|]. apply (ho_data _ Hho q b Hb).
  apply (bk_data _ (td_books _ _ _ _ _ _ _ _ Htd) q b Hb). by apply (Hd q b).
Qed.

Lemma in_order_best st tip : in_order st tip → on_best_chain st tip.
Proof.
  intros [Htd Hst Hho]. pose proof (tidy_laws st tip Htd) as Hlaws. pose proof (td_kept _ _ _ _ _ _ _ _ Htd) as Kk.
  pose proof (run_start addr block_of (holds (index st)) (connectable (index st)) genesis st tip Kk) as Hr.
  destruct (wk_tip _ _ _ _ _ _ Kk) as [(b & Hb & _) Hu].
  split; [apply Kk|apply Kk|by split; [eauto|]| | |apply Hho].
  - apply (stored_valid st tip); [done|done| |apply (rn_mark _ _ _ _ _ _ _ Hr)]. intros q d Ha Hd. specialize (Hu q d Ha Hd).
    apply andb_true_iff in Hu as [_ Hu]. by apply negb_true_iff, Z.eqb_neq in Hu.
  - intros p [[bp Hp] Hd] Hv. apply Hst. pose proof (stored_valid st tip p Htd Hho Hd Hv) as Hgood.
    assert (available (index st) p) as Ha.
    { split; [eauto|]. intros q d Ha Hq. apply andb_true_iff. split; [|by apply negb_true_iff, Z.eqb_neq, (Hd q d)].
      destruct (failed d) eqn:Ef; [|done]. destruct (ho_failed _ Hho q d Hq Ef). by apply (valid_below _ p). }
    split; [|apply Ha]. exists bp. split; [done|]. destruct (to_wf _ _ (wk_tree _ _ _ _ _ _ Kk) p bp Hp) as [H0 _].
    by apply (available_linked st tip (S (Z.to_nat (nHeight bp))) p bp); [..|lia].
Qed.

(** Activation ends on the best chain. *)
Lemma activate_order st tip block : is_tidy st tip → honest st → block_of (GetHash (header block)) block →
  ∃ st' tip', ActivateBestChain addr (fun b => GetHash (header b)) st (Some block) = Ok (true, st') ∧
    in_order st' tip' ∧ grows (index st) (index st') ∧ ¬ lt addr (index st') tip' tip.
Proof.
  intros Htd Hho Hof. pose proof (td_kept _ _ _ _ _ _ _ _ Htd) as Kk. pose proof (to_wf _ _ (wk_tree _ _ _ _ _ _ Kk)) as Hwf.
  destruct (activate_spec addr block_of (holds (index st)) (connectable (index st)) Hinj (breaks (index st)) genesis st tip (fun b => GetHash (header b))
    (Some block) (fun _ Hn => or_introl Hn) (tidy_laws st tip Htd) Kk) as (st' & tip' & E & Kk' & Hm & Hle & _ & _ & Hbest); [by intros blk [= <-]|].
  pose proof (mv_core _ _ Hm) as Hc.
  assert (∀ p q, lt addr (index st') p q ↔ lt addr (index st) p q) as Hlt by (intros; apply lt_rank_same; by apply same_core_rank).
  exists st', tip'. split_and!; [done| |apply ext_grows, Hc|by rewrite Hlt]. split.
  - by apply (moves_tidy (breaks (index st)) st st' tip tip').
  - intros p He. rewrite Hlt. by apply Hbest.
  - by apply (honest_blamed st); [..|apply (mv_blame _ _ Hm)|].
Qed.

(** With nothing to do, the block at hand does not matter. *)
Lemma quiet_order st tip block : in_order st tip →
  ∃ st', ActivateBestChain addr (fun b => GetHash (header b)) st (Some block) = Ok (true, st') ∧ in_order st' tip ∧ grows (index st) (index st').
Proof.
  intros Hio. pose proof (io_tidy _ _ Hio) as Htd.
  destruct (activate_quiet addr block_of (holds (index st)) (connectable (index st)) Hinj (breaks (index st)) genesis st tip (fun b => GetHash (header b))
    (Some block) (fun _ Hn => or_introl Hn) (tidy_laws st tip Htd) (td_kept _ _ _ _ _ _ _ _ Htd) (io_settled _ _ Hio)) as (st' & E & Hs).
  exists st'. split_and!; [done|by apply (settles_order st)|]. apply ext_grows, (se_core _ _ Hs).
Qed.

Lemma ProcessNewBlock_order st tip block req min_pow now : in_order st tip → block_arrives st block →
  ∃ ok st' tip', process_block st block req min_pow now = Ok (ok, st') ∧
    in_order st' tip' ∧ grows (index st) (index st') ∧ ¬ lt addr (index st') tip' tip.
Proof.
  intros Hio Hba. assert (∀ st', is_tidy st' tip → ¬ lt addr (index st') tip tip) as Hirr.
  { intros st' [[Kt _ [(b & Hb & _) _] _ _ _ _ _ _] _ _ _ _]. apply lt_irrefl. by apply (known_m0 (index st') genesis Kt tip b). }
  unfold ProcessNewBlock. pose proof (CheckBlock_no_fault Hash GetHash params CheckSignetBlockSolution block) as Hnf.
  destruct (check block true true) as [[u|e] block1] eqn:Eck.
  2:{ destruct e as [r|e]; [|by destruct (Hnf e)]. exists false, st, tip. split_and!; auto using grows_refl. by apply Hirr, Hio. }
  destruct u. pose proof (CheckBlock_checked _ _ _ _ _ _ Eck) as Hck. destruct (OnView.CheckBlock_same _ _ _ _ _ _ _ _ _ Eck) as [Eh Ev].
  pose proof (CheckBlock_witness_flag _ _ _ _ _ _ _ Eck) as Ew.
  assert (block_arrives st block1) as Hba1.
  { destruct Hba as [B1 B2 B3 B4 B5 B6]. assert (witness_flag_sound Hash block1) as Hws.
    { unfold witness_flag_sound, stored. rewrite Ew, Eh, Ev. exact B3. }
    split; rewrite ?Eh, ?Ev; try done; [|intros _; rewrite Eck in B5; by apply B5|].
    - pose proof (CheckBlock_flags Hash GetHash params CheckSignetBlockSolution block true true B2) as H. by rewrite Eck in H.
    - intros blk c E1 E2 Hf Hok Hc. rewrite (witness_same Hash block1 block) by done. by apply B6. }
  pose proof (AcceptBlock_tidy st tip block1 req min_pow now Hio Hba1 Hck) as Hacc.
  destruct (accept_block st block1 req min_pow now) as [[[[]|e] st1] block2]; destruct Hacc as (Ht1 & Hh1 & Hg1 & Hr).
  - destruct Hr as [Eh2 Hof]. rewrite <- Eh2 in Hof. destruct (activate_order st1 tip block2 Ht1 Hh1 Hof) as (st' & tip' & -> & Ht' & Hg' & Hle).
    exists true, st', tip'. split_and!; [done..| |done]. by eapply grows_trans.
  - destruct (quiet_order st1 tip block2) as (st' & -> & Hio' & Hg'); [by split|]. exists true, st', tip.
    split_and!; [done..|by eapply grows_trans|by apply Hirr, Hio'].
  - destruct Hr as [-> Hs1]. exists false, st1, tip. split_and!; auto. by split.
Qed.

(** ** Everything a node is sent *)

(** The states headers and blocks lead to, in whatever order they arrive. *)
Inductive reachable (st0 : Chainstate C) : Chainstate C → Prop :=
| reach_start : reachable st0 st0
| reach_header st hdr min_pow now r cm :
    reachable st0 st → arrives st hdr → accept_header (chainman st) hdr min_pow now = (r, cm) → reachable st0 (set_chainman st cm)
| reach_block st block req min_pow now ok st' :
    reachable st0 st → block_arrives st block → process_block st block req min_pow now = Ok (ok, st') → reachable st0 st'.

(** The work of the chain that ends at [p]. *)
Definition chain_work st (p : uint256) : Z := val (nChainWork (entry (index st) p)).

Lemma chain_work_grows st st' p b : grows (index st) (index st') → index st !! p = Some b → chain_work st' p = chain_work st p.
Proof.
  intros Hg Hb. destruct (Hg p b Hb) as (b' & Hb' & Es). unfold chain_work, entry. rewrite Hb, Hb'.
  destruct (shape_fields _ _ Es) as (_ & _ & _ & E & _). cbn. congruence.
Qed.

Lemma chain_work_better st p q : known (index st) p → known (index st) q → ¬ lt addr (index st) q p → chain_work st p <= chain_work st q.
Proof. intros Hp Hq. rewrite lt_rank by done. unfold rank_lt, chain_work, rank. cbn. lia. Qed.

Lemma reachable_order st0 tip0 st : in_order st0 tip0 → reachable st0 st →
  ∃ tip, in_order st tip ∧ grows (index st0) (index st) ∧ chain_work st0 tip0 <= chain_work st tip.
Proof.
  intros H0. induction 1 as [|st hdr min_pow now r cm _ IH Ha E|st block req min_pow now ok st' _ IH Ha E].
  - exists tip0. split_and!; [done|apply grows_refl|done].
  - destruct IH as (tip & Hio & Hg & Hw). exists tip.
    destruct (AcceptBlockHeader_tidy st tip hdr min_pow now Hio Ha) as (r' & cm' & E' & Hio' & Hg' & _). assert (cm' = cm) as -> by congruence.
    destruct (wk_tip _ _ _ _ _ _ (td_kept _ _ _ _ _ _ _ _ (io_tidy _ _ Hio))) as [(b & Hb & _) _].
    split_and!; [done|by eapply grows_trans|]. by rewrite (chain_work_grows st _ tip b Hg' Hb).
  - destruct IH as (tip & Hio & Hg & Hw).
    destruct (ProcessNewBlock_order st tip block req min_pow now Hio Ha) as (ok' & st1 & tip' & E' & Hio' & Hg' & Hle).
    assert (st1 = st') as -> by congruence. exists tip'. split_and!; [done|by eapply grows_trans|].
    destruct (wk_tip _ _ _ _ _ _ (td_kept _ _ _ _ _ _ _ _ (io_tidy _ _ Hio))) as [(b & Hb & _) _].
    rewrite <- (chain_work_grows st st' tip b Hg' Hb) in Hw. etrans; [exact Hw|].
    pose proof (td_kept _ _ _ _ _ _ _ _ (io_tidy _ _ Hio')) as [Kt _ [(b' & Hb' & _) _] _ _ _ _ _ _]. destruct (Hg' tip b Hb) as (b1 & Hb1 & _).
    apply chain_work_better; [by eapply known_m0|by eapply known_m0|done].
Qed.

End Tidy.
End Processing.
