(* ===== verification/FullNode.v ===== *)
(** The whole node: blocks that arrive are checked, stored, linked and
    connected by the engine of [Engine], over a tree that grows.  Every state a
    sequence of [ProcessNewBlock] calls reaches is on the best valid chain. *)
From Stdlib Require Import ZArith Lia.
From stdpp Require Import gmap.
From S2P Require Import Prelude Arith256 Chain Params Pow Headers Serialize Script Transaction Interpreter SigHash VerifyScript InterpreterFacts VerifyFacts Block Coins TxVerify Merkle Subsidy BlockChecks Connect ConnectFacts ConnectExact ChainSelection ChainSelectionFacts ChainActivation Engine Acceptance Arrival Processing.
Import Arith256.BaseUint Arith256.BaseUintFacts Interpreter SigHash VerifyScript SafetyFacts VerifySafety Consensus Script Amount Transaction Chain ChainFacts Headers HeadersFacts Block Coins TxVerify Subsidy SubsidyFacts BlockChecks Connect.
Import TransactionFacts CoinsSpec CoinsFacts TxVerifyFacts BlockChecksFacts Effect OnView Rules Exact ChainSelection MostWork EngineInterface Activation Engine EngineFacts Acceptance Growth Node Processing.
Local Open Scope bb_scope.

(** * A tree that grows *)

Module Family.

(** ** The rules of a block depend on what is below it *)

Section Back.
Context (m m' : BlockMap) (Hg : grows m m') (Hwf : wf_tree m).

Lemma GetMedianTimePast_back p b t : m !! p = Some b → GetMedianTimePast m' p = Ok t → GetMedianTimePast m p = Ok t.
Proof.
  intros Hb E. destruct (GetMedianTimePast_total m p b Hwf Hb) as [t' Et]. rewrite (GetMedianTimePast_grows m m' Hg p t' Et) in E. congruence.
Qed.

Lemma GetAncestor_back p b h a : m !! p = Some b → GetAncestor m' p h = Ok a →
  GetAncestor m p h = Ok a ∧ ∀ q, a = Some q → is_Some (m !! q).
Proof.
  intros Hb E. assert (∃ a', GetAncestor m p h = Ok a' ∧ ∀ q, a' = Some q → is_Some (m !! q)) as (a' & Ea & Hk).
  { destruct (GetAncestor_spec _ Hwf p b h Hb) as [Hin Hout]. destruct (decide (0 <= h <= nHeight b)) as [Hd|Hd].
    - destruct (Hin Hd) as (q & -> & Hq). exists (Some q). split; [done|]. intros ? [= <-].
      destruct (is_anc_lookup m Hwf _ _ _ Hq) as (_ & c & _ & Hc & _). eauto.
    - rewrite (Hout Hd). by exists None. }
  rewrite (GetAncestor_grows m m' Hg p h a' Ea) in E. by simplify_eq.
Qed.

Lemma sequence_locks_loop_back block b l hs mh mt r : m !! block = Some b →
  sequence_locks_loop m' block l hs mh mt = Ok r → sequence_locks_loop m block l hs mh mt = Ok r.
Proof.
  intros Hb. revert hs mh mt r. induction l as [|i l IH]; intros hs mh mt r; [done|]. destruct hs as [|hc hs]; [done|].
  cbn [sequence_locks_loop]. destruct (negb _).
  - intros ([[h t] hs'] & H & H')%rbind_ok. by rewrite (IH _ _ _ _ H).
  - intros ([mh1 mt1] & H1 & H2)%rbind_ok. apply rbind_ok. exists (mh1, mt1). split.
    + destruct (negb _); [|done]. apply rbind_ok in H1 as (a & Ha & H1). apply rbind_ok. exists a.
      destruct (GetAncestor m' block _) as [a'|] eqn:E; [|done]. cbn in Ha. injection Ha as ->.
      destruct (GetAncestor_back _ _ _ _ Hb E) as [-> Hk]. split; [done|]. destruct a as [a|]; [|done].
      apply rbind_ok in H1 as (t & Ht & H1). apply rbind_ok. exists t. split; [|done]. destruct (Hk a eq_refl) as [ba Hba].
      destruct (GetMedianTimePast m' a) as [t'|] eqn:Et; [|done]. by rewrite (GetMedianTimePast_back _ _ _ Hba Et).
    + apply rbind_ok in H2 as ([[h t] hs'] & H & H'). by rewrite (IH _ _ _ _ H).
Qed.

Lemma SequenceLocks_back tx fl hs block b r : m !! block = Some b → SequenceLocks m' tx fl hs block = Ok r → SequenceLocks m tx fl hs block = Ok r.
Proof.
  intros Hb. unfold SequenceLocks. intros ([[h t] hs'] & H1 & H2)%rbind_ok. apply rbind_ok. exists (h, t, hs'). split.
  - revert H1. unfold CalculateSequenceLocks. destruct (require _ _); [|done]. cbn [rbind].
    destruct (negb _); [done|]. by eapply sequence_locks_loop_back.
  - revert H2. unfold EvaluateSequenceLocks, deref. destruct (Hg block b Hb) as (b' & -> & Es). rewrite Hb. cbn [TxVerify.lift_chain rbind].
    destruct (shape_fields _ _ Es) as (-> & _ & -> & _). destruct (pprev b) as [q|] eqn:Hq; [|done].
    destruct (parent_height m Hwf block b q Hb Hq) as (c & Hc & _). destruct (GetMedianTimePast m' q) as [t'|] eqn:Et; [|done].
    by rewrite (GetMedianTimePast_back _ _ _ Hc Et).
Qed.

Lemma txs_ok_back Hash hashes lib cached p b h fl sf u l f c f' us u' : m !! p = Some b →
  txs_ok Hash hashes lib cached m' p h fl sf u l f c f' us u' → txs_ok Hash hashes lib cached m p h fl sf u l f c f' us u'.
Proof.
  intros Hb. induction 1 as [|u tx l f c k f' us u' Hok _ IH]; constructor; [|done]. destruct Hok as [Hc Hok]. split; [done|].
  destruct (IsCoinBase tx); [done|]. destruct Hok as (? & ? & ? & ?). split_and!; try done. by eapply SequenceLocks_back.
Qed.

End Back.

(** ** The engine over every tree *)

Section Engine.
Context {B : Type} `{!CCoinsView B} {utxo : B → COutPoint → option Coin} {best : B → uint256}
  {inv : B → Prop} `{HL : !CCoinsViewLaws B utxo best inv}.
Context (Hash : list Z → uint256) (GetBlockHash : CBlockHeader → uint256) (params : Params).
Context (signet : CBlockHeader * list CTransaction → bool).
Context (hashes : script_hashes) (lib : sig_lib) (script_cached : CTransaction → Z → bool).
Context (minimum_chain_work : base_uint) (parallel : bool) (founder : option CScript).
Context (undo_writable : CBlockUndo → bool) (fDoFullFlush : CCoinsViewCache B → bool) (content : uint256 → CBlock).
Abbreviation the_engine := (engine Hash GetBlockHash params signet hashes lib script_cached None minimum_chain_work parallel founder
  undo_writable fDoFullFlush).
Abbreviation is_ok := (block_ok Hash GetBlockHash params signet hashes lib script_cached founder).
Abbreviation is_block_of := (block_of Hash GetBlockHash params signet content).
Abbreviation coins_of m := (chain_holds (utxo := utxo) (best := best) (inv := inv) Hash GetBlockHash params signet hashes lib
  script_cached founder m content).
Abbreviation is_connectable m := (connectable Hash GetBlockHash params signet hashes lib script_cached founder m content).
Abbreviation unspent_of m := (chain_utxo Hash GetBlockHash params signet hashes lib script_cached founder m content).

(** Every entry above the root is acceptable content. *)
Definition lawful (m : BlockMap) : Prop :=
  ∀ p idx q, m !! p = Some idx → pprev idx = Some q → content_ok Hash GetBlockHash params signet content p idx q.

Lemma content_ok_height p idx idx' q : nHeight idx' = nHeight idx →
  content_ok Hash GetBlockHash params signet content p idx q → content_ok Hash GetBlockHash params signet content p idx' q.
Proof. intros E []. split; rewrite ?E; done. Qed.

Lemma block_ok_back m m' blk p b b' u u' us : grows m m' → wf_tree m → m !! p = Some b → nHeight b = nHeight b' →
  is_ok m' blk p b' u u' us → is_ok m blk p b u u' us.
Proof.
  intros Hg Hwf Hb Eh (Hc & Hf & cb & rest & fees & Ev & Htx & Hle & Hfo). unfold block_ok. rewrite Eh. split_and!; [done|done|].
  exists cb, rest, fees. split_and!; try done. by eapply txs_ok_back.
Qed.

Lemma chain_utxo_grows m m' ch u : grows m m' → unspent_of m ch u → unspent_of m' ch u.
Proof.
  intros Hg. induction 1 as [|ch u p idx u' us _ IH Hp Hok Hk Hin]; [constructor|].
  destruct (Hg p idx Hp) as (idx' & Hp' & Es). destruct (shape_fields _ _ Es) as (_ & _ & Eh & _).
  apply (cu_block _ _ _ _ _ _ _ _ _ _ ch u p idx' u' us); [done|done| | |by rewrite Eh].
  - by eapply (block_ok_transfer); [..|exact Hok]; [| |done|apply Hok].
  - by eapply (connects_transfer); [..|exact Hk].
Qed.

Lemma chain_utxo_back m m' ch u : grows m m' → wf_tree m → (∀ p, Some p ∈ ch → is_Some (m !! p)) → unspent_of m' ch u → unspent_of m ch u.
Proof.
  intros Hg Hwf Hk H. induction H as [|ch u p idx' u' us _ IH Hp' Hok Hc Hin]; [constructor|].
  destruct (Hk p) as [idx Hp]; [set_solver|]. destruct (Hg p idx Hp) as (i & Hi & Es). assert (i = idx') as -> by congruence.
  destruct (shape_fields _ _ Es) as (_ & _ & Eh & _).
  apply (cu_block _ _ _ _ _ _ _ _ _ _ ch u p idx u' us); [by apply IH; set_solver|done| | |by rewrite <- Eh].
  - by eapply (block_ok_back m m'); [..|exact Hok].
  - by eapply connects_transfer; [..|exact Hc].
Qed.

Lemma chain_known m tip ch p : wf_tree m → chain_of m tip ch → Some p ∈ ch → is_Some (m !! p).
Proof.
  intros Hwf Hch Hp. apply (chain_of_elem _ Hwf tip ch p Hch) in Hp. destruct (anc_lookup _ Hwf _ _ Hp) as (_ & c & _ & Hc & _). eauto.
Qed.

(** The chain below a known block is the same in both trees. *)
Lemma chain_of_back m m' q b ch : grows m m' → wf_tree m → wf_tree m' → m !! q = Some b → chain_of m' q ch → chain_of m q ch.
Proof.
  intros Hg Hwf Hwf' Hb Hch. destruct (chain_of_exists m Hwf q b Hb) as [c Hc].
  assert (chain_of m' q c) as Hc' by (by eapply (chain_of_new m m')). by rewrite (chain_of_fun m' Hwf' q ch c Hch Hc').
Qed.

Lemma connectable_back m m' p b : wf_tree m → wf_tree m' → grows m m' → m !! p = Some b → is_connectable m' p → is_connectable m p.
Proof.
  intros Hwf Hwf' Hg Hb (q & idx' & ch & u & Hp' & Hq' & Hch & Hcu). destruct (Hg p b Hb) as (i & Hi & Es).
  assert (i = idx') as -> by congruence. destruct (shape_fields _ _ Es) as (Epp & _). rewrite Hq' in Epp.
  destruct (parent_height m Hwf p b q Hb (eq_sym Epp)) as (c & Hc & _).
  assert (chain_of m q ch) as Hch' by (by eapply (chain_of_back m m')). exists q, b, ch, u. split_and!; [done|done|done|].
  apply (chain_utxo_back m m'); [done|done| |done]. intros r [Hr|[= ->]%list_elem_of_singleton]%elem_of_app; [by eapply chain_known|by eexists].
Qed.

Lemma chain_holds_grows m m' tip ch c : wf_tree m → wf_tree m' → grows m m' → chain_of m tip ch → coins_of m ch c → coins_of m' ch c.
Proof.
  intros Hwf Hwf' Hg Hch (tip2 & u & Hch2 & Hn & Hcu & Hv & Hur & Huk & Hut). exists tip2, u. split_and!; try done.
  - by eapply (chain_of_new m m').
  - by eapply chain_utxo_grows.
  - intros p us Hp idx' q ch1 u1 u1' us1 Hp' Hq' Hch1 Hcu1 Hok1. destruct (Huk p) as [idx Hidx]; [by eexists|].
    destruct (Hg p idx Hidx) as (i & Hi & Es). assert (i = idx') as -> by congruence. destruct (shape_fields _ _ Es) as (Epp & _ & Eh & _).
    rewrite Hq' in Epp. destruct (parent_height m Hwf p idx q Hidx (eq_sym Epp)) as (d & Hd & _).
    assert (chain_of m q ch1) as Hch1' by (by eapply (chain_of_back m m')).
    apply (Hur p us Hp idx q ch1 u1 u1' us1); [done|done|done| |by eapply (block_ok_back m m'); [..|exact Hok1]].
    apply (chain_utxo_back m m'); [done|done| |done]. intros r Hr. by eapply chain_known.
  - intros p Hp. destruct (Huk p Hp) as [b Hb]. destruct (Hg p b Hb) as (b' & Hb' & _). eauto.
  - intros p idx' q Hp Hp' Hq'. destruct (chain_known m tip ch p Hwf Hch Hp) as [idx Hidx]. destruct (Hg p idx Hidx) as (i & Hi & Es).
    assert (i = idx') as -> by congruence. destruct (shape_fields _ _ Es) as (Epp & _). apply (Hut p idx q); [done|done|congruence].
Qed.

#[export] Instance engine_family : rules_ok params → hashes_ok hashes → (∀ u, undo_writable u = true) →
  EngineFamily (coins_state B) (BlockEngine0 := the_engine) (hashGenesisBlock params) lawful is_block_of (fun m => coins_of m) (fun m => is_connectable m).
Proof.
  intros Hr Hh Hw. split.
  - intros m Hwf Hl. by apply (engine_laws (HL := HL)).
  - apply chain_holds_grows.
  - apply connectable_back.
  - intros m m' Hg Hg' Hl p idx' q Hp' Hq'. destruct (Hg' p idx' Hp') as (idx & Hp & Es).
    destruct (shape_fields _ _ Es) as (Epp & _ & Eh & _). apply (content_ok_height p idx); [done|]. apply Hl; [done|congruence].
Qed.

End Engine.
End Family.

(** * Properties *)

Module FullNodeProps.
Import Family.

Section Props.
Context {B : Type} `{!CCoinsView B} (utxo : B → COutPoint → option Coin) (best : B → uint256) (inv : B → Prop).
Context (addr : uint256 → Z) (Hash : list Z → uint256) (GetBlockHash : CBlockHeader → uint256) (params : Params).
Context (signet : CBlockHeader * list CTransaction → bool) (checkpoints_enabled : bool) (checkpoints : list (Z * uint256)) (writable : CBlock → bool).
Context (hashes : script_hashes) (lib : sig_lib) (script_cached : CTransaction → Z → bool).
Context (minimum_chain_work : base_uint) (parallel : bool) (founder : option CScript).
Context (undo_writable : CBlockUndo → bool) (fDoFullFlush : CCoinsViewCache B → bool) (content : uint256 → CBlock) (N : Z).
Abbreviation the_engine := (engine Hash GetBlockHash params signet hashes lib script_cached None minimum_chain_work parallel founder
  undo_writable fDoFullFlush).
Abbreviation is_lawful := (lawful Hash GetBlockHash params signet content).
Abbreviation is_block_of := (block_of Hash GetBlockHash params signet content).
Abbreviation coins_of := (fun m => chain_holds (utxo := utxo) (best := best) (inv := inv) Hash GetBlockHash params signet hashes lib
  script_cached founder m content).
Abbreviation is_connectable := (fun m => connectable Hash GetBlockHash params signet hashes lib script_cached founder m content).
Abbreviation unspent_of m := (chain_utxo Hash GetBlockHash params signet hashes lib script_cached founder m content).
Abbreviation is_tidy := (tidy addr (hashGenesisBlock params) is_lawful is_block_of coins_of N).
Abbreviation node_in_order := (in_order addr (hashGenesisBlock params) is_lawful is_block_of coins_of is_connectable N Hash params content).
Abbreviation is_valid := (valid is_connectable Hash params content).
Abbreviation arriving := (block_arrives is_lawful is_block_of N Hash params content GetBlockHash signet).
Abbreviation process := (ProcessNewBlock (BlockEngine0 := the_engine) addr Hash GetBlockHash params signet checkpoints_enabled checkpoints
  minimum_chain_work writable).
Abbreviation reaches := (reachable (BlockEngine0 := the_engine) addr is_lawful is_block_of N Hash params content GetBlockHash checkpoints_enabled
  checkpoints signet minimum_chain_work writable).

(** C1: The node stays on the best valid chain.  From a node in order, let
    headers and blocks arrive in any sequence, orphaned, duplicate or invalid
    ones and tampered copies of valid ones among them.  Of what arrives it is
    assumed that hashes name it: a header hash one header, and a Merkle root and
    a witness commitment that fit it one list of transactions; that blocks which
    pass [CheckBlock] have transactions with distinct ids and scripts of bytes;
    and that heights, chain work and transaction counts stay within their widths.
    The disk can be written and no block is assumed valid.  In every state that is
    reached the active chain consists of blocks the node has and that are valid;
    [CoinsTip()] is exactly the unspent set these blocks produce from the
    genesis, worth at most their subsidies; no chain of blocks the node has that
    can be connected is better; a block marked as failed is not valid, or one
    below it is not; the work of the tip has not decreased; and the next block is
    processed without a failed assertion. *)
Theorem node_stays_on_best_chain (st0 st : Chainstate (coins_state B)) tip0 :
  CCoinsViewLaws B utxo best inv → Inj (=) (=) addr → rules_ok params → params_ok params →
  hashes_ok hashes → (∀ u, undo_writable u = true) →
  node_in_order st0 tip0 → reaches st0 st →
  ∃ tip m, chain_of (index st) tip (m_chain st) ∧ available (index st) tip ∧ is_valid (index st) tip ∧
    unspent_of (index st) (m_chain st) m ∧
    OnView.holds (utxo := utxo) (best := best) (inv := inv) (tip_view (coins_tip st)) m tip ∧
    value m <= emission params 1 (length (m_chain st) - 1) ∧
    (∀ p, has_blocks (index st) p → valid_chain (index st) (is_connectable (index st)) p → ¬ lt addr (index st) tip p) ∧
    (∀ p b, index st !! p = Some b → Paths.failed b = true → ¬ is_valid (index st) p) ∧
    chain_work st0 tip0 <= chain_work st tip ∧
    ∀ block req min_pow now, arriving st block → ∃ ok st', process st block req min_pow now = Ok (ok, st').
Proof.
  intros HL Hinj Hr Hp Hh Hw H0 Hreach.
  pose proof (engine_family (HL := HL) Hash GetBlockHash params signet hashes lib script_cached minimum_chain_work parallel founder
    undo_writable fDoFullFlush content Hr Hh Hw) as HF.
  assert (∀ p blk, is_block_of p blk → header blk = header (content p) ∧ vtx blk = vtx (content p)) as Hof by (by intros p blk (? & ? & _)).
  destruct (reachable_order (HF := HF) addr (hashGenesisBlock params) is_lawful is_block_of coins_of is_connectable N Hash params content Hof GetBlockHash
    checkpoints_enabled checkpoints Hp eq_refl signet minimum_chain_work writable st0 tip0 st H0 Hreach) as (tip & Hio & _ & Hwk).
  destruct (in_order_best (HF := HF) addr (hashGenesisBlock params) is_lawful is_block_of coins_of is_connectable N Hash params content eq_refl st tip Hio)
    as [Hch (tip2 & m & Hch2 & _ & Hcu & Hv & _) Hav Hval Hbest Hfail].
  pose proof (to_wf _ _ (wk_tree _ _ _ _ _ _ (td_kept _ _ _ _ _ _ _ _ (io_tidy _ _ _ _ _ _ _ _ _ _ _ _ Hio)))) as Hwf.
  assert (tip2 = tip) as -> by (pose proof (chain_of_Tip _ Hwf _ _ Hch); pose proof (chain_of_Tip _ Hwf _ _ Hch2); congruence).
  exists tip, m. split_and!; try done; [by eapply chain_utxo_value|].
  intros block req min_pow now Ha.
  destruct (ProcessNewBlock_order (HF := HF) addr (hashGenesisBlock params) is_lawful is_block_of coins_of is_connectable N Hash params content Hof GetBlockHash
    checkpoints_enabled checkpoints Hp eq_refl signet minimum_chain_work writable st tip block req min_pow now Hio Ha)
    as (ok & st' & _ & E & _). eauto.
Qed.

End Props.

(** ** A node that starts with the genesis *)

Import EngineProps Pow.Pow Pow.PowFacts.

Lemma main_params_ok genesis : params_ok (CMainParams genesis).
Proof.
  split.
  - split; [reflexivity|]. apply ConnectExactProps.demo_bytes. reflexivity.
  - intros h Hh. unfold timespan_ok, interval_ok, BBGetTargetTimespan, BBGetRetargetInterval. destruct (_ && _); by vm_compute.
Qed.

(** One second before the blocks of [EngineProps]. *)
Definition genesis_entry : CBlockIndex :=
  {| pprev := None; pskip := None; nHeight := 0; nChainWork := of_u64 1; nTx := 1; nChainTx := 1;
     nStatus := 11; Chain.nVersion := 4; hashMerkleRoot := null256; nTime := 1778351315; nBits := 0x1f00ffff; nNonce := 0;
     nSequenceId := 0; nTimeMax := 1778351315 |}.
Definition fresh_state : Chainstate (coins_state CCoinsViewDB) :=
  mkChainstate (mkManager (mkBlockManager {[ genesis_hash := genesis_entry ]} (Some genesis_hash) ∅) []) [] None 1 (-1) (of_u64 0) [Some genesis_hash]
    {[ genesis_hash ]} {[ genesis_hash := demo_block 7 ]} demo_coins.
(** Block 9 with a witness nobody committed to: its hash is that of block 9. *)
Definition tampered_9 : CBlock :=
  mkBlock (header (demo_block 9)) (map (fun tx => set_nonce tx [1]) (vtx (demo_block 9))) false false false.
Definition demo_process (st : Chainstate (coins_state CCoinsViewDB)) (block : CBlock) : result chain_error (bool * Chainstate (coins_state CCoinsViewDB)) :=
  ProcessNewBlock (BlockEngine0 := demo_engine) demo_addr demo_Hash demo_GetHash demo_params (fun _ => true) false [] (replicate 8 0) (fun _ => true)
    st block true true 1778351316.
Definition outcome (st : Chainstate (coins_state CCoinsViewDB)) (r : result chain_error (bool * Chainstate (coins_state CCoinsViewDB))) :
    Chainstate (coins_state CCoinsViewDB) := match r with Ok (_, st) => st | Err _ => st end.
(** First the tampered block, whose header stays; then block 8, which pays itself
    too much; then block 9, which is valid. *)
Definition state_t : Chainstate (coins_state CCoinsViewDB) := outcome fresh_state (demo_process fresh_state tampered_9).
Definition state_8 : Chainstate (coins_state CCoinsViewDB) := outcome state_t (demo_process state_t (demo_block 8)).
Definition state_9 : Chainstate (coins_state CCoinsViewDB) := outcome state_8 (demo_process state_8 (demo_block 9)).

Abbreviation demo_lawful := (lawful demo_Hash demo_GetHash demo_params (fun _ => true) demo_content).
Abbreviation demo_block_of := (block_of demo_Hash demo_GetHash demo_params (fun _ => true) demo_content).
Abbreviation demo_coins_of := (fun m => chain_holds (utxo := CoinsFacts.db_utxo) (best := db_GetBestBlock) (inv := CoinsFacts.db_inv)
  demo_Hash demo_GetHash demo_params (fun _ => true) demo_hashes ConnectProps.demo_lib (fun _ _ => false) None m demo_content).
Abbreviation demo_connectable := (fun m => connectable demo_Hash demo_GetHash demo_params (fun _ => true) demo_hashes ConnectProps.demo_lib
  (fun _ _ => false) None m demo_content).

Lemma demo_content_new n (b : CBlockIndex) : n = 8 ∨ n = 9 → nHeight b = 1 →
  content_ok demo_Hash demo_GetHash demo_params (fun _ => true) demo_content (digits_of 8 32 n) b genesis_hash.
Proof.
  intros [-> | ->] Hh; (split; [done|by rewrite Hh|vm_compute; congruence|by rewrite Hh|];
    intros _; split_and!; [reflexivity|apply NoDup_singleton|apply demo_block_bytes]).
Qed.

Lemma demo_arrives (st : Chainstate (coins_state CCoinsViewDB)) n block : n = 8 ∨ n = 9 → block = demo_block n ∨ n = 9 ∧ block = tampered_9 →
  index st !! genesis_hash = Some genesis_entry → demo_lawful (index st) →
  block_arrives demo_lawful demo_block_of 1 demo_Hash demo_params demo_content demo_GetHash (fun _ => true) st block.
Proof.
  intros Hn Hblk Hg Hl. assert (header block = header (demo_block n)) as Ehd by (by destruct Hblk as [-> | [-> ->]]).
  assert (demo_GetHash (header block) = digits_of 8 32 n) as Eh by (rewrite Ehd; by destruct Hn as [-> | ->]).
  split; [rewrite Ehd, ?Eh; split| | | | |].
  - unfold in_u. cbn. lia.
  - by destruct Hn as [-> | ->].
  - intros c. cbn [header demo_block h_hashPrevBlock]. rewrite Hg. intros [= <-]. vm_compute. reflexivity.
  - intros c. cbn [header demo_block h_hashPrevBlock]. rewrite Hg. by intros [= <-].
  - rewrite <- Ehd, Eh. intros b c _ Hc _ Hpp Hh p idx q. rewrite Ehd in Hc, Hpp. change (h_hashPrevBlock (header (demo_block n))) with genesis_hash in Hc, Hpp.
    rewrite Hg in Hc. injection Hc as <-. intros [[<- <-]|[_ Hp]]%lookup_insert_Some Hq; [|by apply Hl].
    rewrite Hpp in Hq. injection Hq as <-. by apply demo_content_new.
  - destruct Hblk as [-> | [-> ->]]; by split.
  - destruct Hblk as [-> | [-> ->]]; intros [=].
  - destruct Hblk as [-> | [-> ->]]; cbn; lia.
  - intros _. rewrite Eh. destruct Hblk as [-> | [-> ->]]; [destruct Hn as [-> | ->]|]; vm_compute; reflexivity.
  - intros blk c E1 E2 Hf Hc Hc0. rewrite Ehd in Hc0. cbn [header demo_block h_hashPrevBlock] in Hc0. rewrite Hg in Hc0. injection Hc0 as <-.
    rewrite Eh. destruct Hblk as [-> | [-> ->]]; [intros _|intros Hw; exfalso; revert Hw; vm_compute; discriminate].
    split_and!; [rewrite E1|rewrite E2|done|done|]; destruct Hn as [-> | ->]; vm_compute; reflexivity.
Qed.

Lemma fresh_cases p b : index fresh_state !! p = Some b → p = genesis_hash ∧ b = genesis_entry.
Proof. change (index fresh_state) with ({[ genesis_hash := genesis_entry ]} : BlockMap). by intros [<- <-]%lookup_singleton_Some. Qed.

Lemma fresh_tree : tree_ok (index fresh_state) genesis_hash.
Proof.
  split.
  - intros p b [-> ->]%fresh_cases. done.
  - intros p b [-> ->]%fresh_cases. split; [apply of_u64_wf|done].
  - by intros p b [-> ->]%fresh_cases.
  - by intros p b q c _ _ _ [-> ->]%fresh_cases.
Qed.

Lemma fresh_kept : well_kept demo_addr demo_block_of (demo_coins_of (index fresh_state)) genesis_hash fresh_state genesis_hash.
Proof.
  pose proof (to_wf _ _ fresh_tree) as Hwf.
  assert (chain_of (index fresh_state) genesis_hash [Some genesis_hash]) as Hch.
  { exists genesis_entry. split; [reflexivity|]. split; [reflexivity|]. intros i p Hp.
    destruct (is_anc_inv _ Hwf genesis_hash genesis_entry _ _ eq_refl Hp) as [[Hi ->]|(_ & q & Hq & _)]; [|done].
    cbn in Hi. by replace i with 0%nat by lia. }
  split; try done.
  - exact fresh_tree.
  - split; [by eexists|]. by intros q b _ [-> ->]%fresh_cases.
  - intros p Hp. change (p ∈ ({[ genesis_hash ]} : gset uint256)) in Hp. apply elem_of_singleton in Hp as ->. eexists. split; [reflexivity|done].
  - intros p [(b & [-> ->]%fresh_cases & _) _] _. by apply (elem_of_singleton (C := gset uint256)).
  - exists genesis_hash, ∅. split_and!; [exact Hch|reflexivity|apply cu_genesis|..].
    + split_and!; [|done|done]. split; [|apply map_fits_empty]. split; [|done]. intros o k Ho.
      change ((∅ : utxo_set) !! o = Some k) in Ho. by rewrite lookup_empty in Ho.
    + intros p u Hu. change ((∅ : gmap uint256 CBlockUndo) !! p = Some u) in Hu. by rewrite lookup_empty in Hu.
    + intros p [u Hu]. change ((∅ : gmap uint256 CBlockUndo) !! p = Some u) in Hu. by rewrite lookup_empty in Hu.
    + intros p idx q _ [-> ->]%fresh_cases. done.
  - intros p b [-> ->]%fresh_cases _. exists (demo_block 7). split; [reflexivity|].
    split_and!; [reflexivity|reflexivity|by split|vm_compute; reflexivity..].
  - intros q [= <-]. by eexists.
Qed.

Lemma fresh_tidy : tidy demo_addr genesis_hash demo_lawful demo_block_of demo_coins_of 1 fresh_state genesis_hash.
Proof.
  split; [exact fresh_kept| | | |].
  - split; try (by intros p b [-> ->]%fresh_cases). by intros p ?%elem_of_nil.
  - split.
    + intros p b q c [-> ->]%fresh_cases _. done.
    + by intros p ?%elem_of_nil.
    + by intros q p ?%elem_of_nil.
    + constructor.
    + by intros p b [-> ->]%fresh_cases.
    + by intros p b [-> ->]%fresh_cases.
    + intros p b [-> ->]%fresh_cases. cbn. lia.
  - by intros p idx q [-> ->]%fresh_cases.
  - intros p b [-> ->]%fresh_cases. unfold in_u. cbn. lia.
Qed.

Lemma fresh_in_order : in_order demo_addr genesis_hash demo_lawful demo_block_of demo_coins_of demo_connectable 1 demo_Hash demo_params demo_content
  fresh_state genesis_hash.
Proof.
  split; [exact fresh_tidy| |].
  - intros p [(b & [-> _]%fresh_cases & _) _]. apply lt_irrefl. exists genesis_entry. split; [reflexivity|apply of_u64_wf].
  - split; [by intros p b [-> ->]%fresh_cases|by intros p b [-> ->]%fresh_cases _ d q [_ ->]%fresh_cases|by intros p b q [-> ->]%fresh_cases].
Qed.

(** The entries of a later state: those of blocks 8 and 9 on top of the genesis. *)
Definition entries_ok (m : BlockMap) : bool :=
  forallb (fun e => bool_decide (e.1 = genesis_hash ∧ pprev e.2 = None) ||
    bool_decide ((e.1 = digits_of 8 32 8 ∨ e.1 = digits_of 8 32 9) ∧ pprev e.2 = Some genesis_hash ∧ nHeight e.2 = 1)) (map_to_list m).

Lemma entries_lawful m : entries_ok m = true → demo_lawful m.
Proof.
  intros H p idx q Hp Hq. unfold entries_ok in H. rewrite forallb_forall in H. specialize (H (p, idx)). cbn [fst snd] in H.
  apply orb_true_iff in H as [[-> E]%bool_decide_eq_true|[Hn [E Hh]]%bool_decide_eq_true]; [congruence| |by apply list_elem_of_In, elem_of_map_to_list].
  rewrite E in Hq. injection Hq as <-. destruct Hn as [-> | ->]; apply demo_content_new; auto.
Qed.

Abbreviation demo_reaches := (reachable (BlockEngine0 := demo_engine) demo_addr demo_lawful demo_block_of 1 demo_Hash demo_params demo_content demo_GetHash
  false [] (fun _ => true) (replicate 8 0) (fun _ => true) fresh_state).

Lemma demo_step st st' n block ok : demo_reaches st → n = 8 ∨ n = 9 → block = demo_block n ∨ n = 9 ∧ block = tampered_9 →
  index st !! genesis_hash = Some genesis_entry → entries_ok (index st) = true → demo_process st block = Ok (ok, st') → demo_reaches st'.
Proof.
  intros Hr Hn Hblk Hg He%entries_lawful E. by eapply reach_block; [exact Hr|by apply (demo_arrives st n)|exact E].
Qed.

Lemma state_9_reached : demo_reaches state_9.
Proof.
  apply (demo_step state_8 state_9 9 (demo_block 9) true); [|by right|by left|vm_compute; reflexivity..].
  apply (demo_step state_t state_8 8 (demo_block 8) true); [|by left|by left|vm_compute; reflexivity..].
  apply (demo_step fresh_state state_t 9 tampered_9 false); [apply reach_start|by right|by right|vm_compute; reflexivity..].
Qed.

Lemma demo_hashes_ok : hashes_ok demo_hashes.
Proof. intros v. split_and!; (apply ConnectExactProps.demo_bytes; reflexivity) || reflexivity. Qed.

Lemma demo_addr_inj : Inj (=) (=) demo_addr.
Proof. intros p q [= H]. by apply (inj encode). Qed.

Lemma state_9_tidy : ∃ tip, tidy demo_addr genesis_hash demo_lawful demo_block_of demo_coins_of 1 state_9 tip.
Proof.
  pose proof demo_addr_inj as Hinj.
  pose proof (engine_family (CCoinsView0 := ConnectProps.demo_view_ops) (HL := CCoinsViewDB_laws (fun _ => false)) demo_Hash demo_GetHash demo_params
    (fun _ => true) demo_hashes ConnectProps.demo_lib (fun _ _ => false) (replicate 8 0) true None (fun _ => true) (fun _ => true) demo_content
    (main_rules _) demo_hashes_ok (fun _ => eq_refl)) as HF.
  assert (∀ p blk, demo_block_of p blk → header blk = header (demo_content p) ∧ vtx blk = vtx (demo_content p)) as Hof by (by intros p blk (? & ? & _)).
  destruct (reachable_order (BlockEngine0 := demo_engine) (HF := HF) demo_addr genesis_hash demo_lawful demo_block_of demo_coins_of demo_connectable 1
    demo_Hash demo_params demo_content Hof demo_GetHash false [] (main_params_ok _) eq_refl (fun _ => true) (replicate 8 0) (fun _ => true) fresh_state
    genesis_hash state_9 fresh_in_order state_9_reached) as (tip & [Ht _ _] & _). by exists tip.
Qed.

Lemma node_stays_on_best_chain_witness :
  m_chain state_t = [Some genesis_hash] ∧ m_chain state_9 = [Some genesis_hash; Some (digits_of 8 32 9)] ∧
  ∃ tip m, chain_of (index state_9) tip (m_chain state_9) ∧
    OnView.holds (utxo := CoinsFacts.db_utxo) (best := db_GetBestBlock) (inv := CoinsFacts.db_inv) (tip_view (coins_tip state_9)) m tip ∧
    value m <= emission demo_params 1 1.
Proof.
  split; [vm_compute; reflexivity|]. split; [vm_compute; reflexivity|].
  destruct (node_stays_on_best_chain (CCoinsView0 := ConnectProps.demo_view_ops) CoinsFacts.db_utxo db_GetBestBlock CoinsFacts.db_inv
    demo_addr demo_Hash demo_GetHash demo_params (fun _ => true) false [] (fun _ => true) demo_hashes ConnectProps.demo_lib (fun _ _ => false)
    (replicate 8 0) true None (fun _ => true) (fun _ => true) demo_content 1 fresh_state state_9 genesis_hash)
    as (tip & m & Hch & _ & _ & _ & Hv & Hle & _).
  - exact (CCoinsViewDB_laws (fun _ => false)).
  - exact demo_addr_inj.
  - apply main_rules.
  - apply main_params_ok.
  - exact demo_hashes_ok.
  - done.
  - exact fresh_in_order.
  - exact state_9_reached.
  - exists tip, m. split_and!; [exact Hch|exact Hv|]. replace 1%nat with (length (m_chain state_9) - 1)%nat by (vm_compute; reflexivity). exact Hle.
Defined.

End FullNodeProps.
