(* ===== verification/Replay.v ===== *)
(** Recovery from a crash while the coin database was written:
    [RollforwardBlock] and [ReplayBlocks] of [src/validation.cpp].

    A database that was left between two tips is brought to the new one by
    undoing the blocks of the old branch and applying those of the new branch,
    whether or not their changes had been written. *)
From Stdlib Require Import ZArith Lia.
From stdpp Require Import gmap.
From S2P Require Import Prelude Arith256 Chain Params Pow Headers Serialize Script Transaction Interpreter SigHash VerifyScript InterpreterFacts VerifyFacts Block Coins TxVerify Merkle Subsidy BlockChecks Connect ConnectFacts ConnectExact ChainSelection ChainSelectionFacts ChainActivation Engine Acceptance Arrival Processing FullNode.
Import Arith256.BaseUint Arith256.BaseUintFacts Interpreter SigHash VerifyScript SafetyFacts VerifySafety Consensus Script Amount Transaction Chain ChainFacts Headers HeadersFacts Block Coins TxVerify Subsidy SubsidyFacts BlockChecks Connect.
Import TransactionFacts CoinsSpec CoinsFacts TxVerifyFacts BlockChecksFacts Effect OnView Rules Exact ChainSelection MostWork EngineInterface Activation Engine EngineFacts.
Local Open Scope bb_scope.

Module Replay.

Section Replay.
Context {B : Type} `{!CCoinsView B} (Hash : list Z → uint256) (m : BlockMap).
(** The block files and the undo files. *)
Context (block_files : gmap uint256 CBlock) (undo_files : gmap uint256 CBlockUndo).

(** [inputs.SpendCoin(txin.prevout)] for each input; the results are dropped. *)
Fixpoint spend_all (inputs : CCoinsViewCache B) (l : list CTxIn) : CCoinsViewCache B :=
  match l with
  | [] => inputs
  | txin :: l => spend_all (SpendCoin inputs (prevout txin)).2 l
  end.

Fixpoint rollforward_txs (inputs : CCoinsViewCache B) (l : list CTransaction) (nHeight : Z)
    : result coins_error (CCoinsViewCache B) :=
  match l with
  | [] => Ok inputs
  | tx :: l =>
      let inputs := if negb (IsCoinBase tx) then spend_all inputs (vin tx) else inputs in
      let! inputs := AddCoins Hash inputs tx nHeight true in
      rollforward_txs inputs l nHeight
  end.

(** [None]: the block cannot be read. *)
Definition RollforwardBlock (pindex : uint256) (inputs : CCoinsViewCache B) : result connect_error (option (CCoinsViewCache B)) :=
  match block_files !! pindex with
  | None => Ok None
  | Some block =>
      let! b := lift_index (deref m pindex) in
      let! inputs := lift_coins (rollforward_txs inputs (vtx block) (nHeight b)) in
      Ok (Some inputs)
  end.

(** [while (pindexOld != pindexFork)] *)
Fixpoint rollback (fuel : nat) (pindexOld pindexFork : option uint256) (cache : CCoinsViewCache B)
    : result connect_error (option (CCoinsViewCache B)) :=
  if bool_decide (pindexOld = pindexFork) then Ok (Some cache)
  else
    match fuel, pindexOld with
    | O, _ => Err (ChainFault OutOfFuel)
    | _, None => Err (ChainFault NullDeref)
    | S fuel, Some p =>
        let! b := lift_index (deref m p) in
        let! cache :=
          if nHeight b >? 0 then
            match block_files !! p with
            | None => Ok None
            | Some block =>
                let! (res, cache) := DisconnectBlock Hash m block p (undo_files !! p) cache in
                Ok (match res with DISCONNECT_FAILED => None | _ => Some cache end)
            end
          else Ok (Some cache) in
        match cache with
        | None => Ok None
        | Some cache => rollback fuel (pprev b) pindexFork cache
        end
    end.

(** The [n] heights from [nHeight] on. *)
Fixpoint rollforward (n : nat) (nHeight : Z) (pindexNew : uint256) (cache : CCoinsViewCache B)
    : result connect_error (option (CCoinsViewCache B)) :=
  match n with
  | O => Ok (Some cache)
  | S n =>
      let! pindex := lift_index (GetAncestor m pindexNew nHeight) in
      match pindex with
      | None => Err AssertFailed
      | Some pindex =>
          let! cache := RollforwardBlock pindex cache in
          match cache with
          | None => Ok None
          | Some cache => rollforward n (nHeight + 1) pindexNew cache
          end
      end
  end.

End Replay.

Section Blocks.
Context (batch_full : list db_op → bool) (Hash : list Z → uint256) (m : BlockMap).
Context (block_files : gmap uint256 CBlock) (undo_files : gmap uint256 CBlockUndo).
Abbreviation db_view := (CCoinsViewDB_view batch_full).

(** The old tip and the fork point; [None]: an error is returned. *)
Definition replay_heads (new old : uint256) : result connect_error (option (option uint256 * option uint256)) :=
  if bool_decide (is_Some (m !! new)) then
    if negb (IsNull256 old) then
      if bool_decide (is_Some (m !! old)) then
        let! fork := lift_index (LastCommonAncestor m old new) in
        let! _ := require (bool_decide (is_Some fork)) AssertFailed in
        Ok (Some (Some old, fork))
      else Ok None
    else Ok (Some (None, None))
  else Ok None.

(** The cache [ReplayBlocks] fills before it is flushed. *)
Definition replay_cache (db : CCoinsViewDB) (new old : uint256) : result connect_error (option (CCoinsViewCache CCoinsViewDB)) :=
  let! heads := replay_heads new old in
  match heads with
  | None => Ok None
  | Some (pindexOld, pindexFork) =>
      let height p := match p with None => Ok 0 | Some p => let! b := lift_index (deref m p) in Ok (nHeight b) end in
      let! old_height := height pindexOld in
      let! cache := rollback (CCoinsView0 := db_view) Hash m block_files undo_files (S (Z.to_nat old_height)) pindexOld pindexFork (mkCache db null256 ∅ 0) in
      match cache with
      | None => Ok None
      | Some cache =>
          let! nForkHeight := height pindexFork in
          let! b := lift_index (deref m new) in
          let! cache := rollforward (CCoinsView0 := db_view) Hash m block_files (Z.to_nat (nHeight b - nForkHeight)) (nForkHeight + 1) new cache in
          match cache with
          | None => Ok None
          | Some cache => Ok (Some (SetBestBlock cache new))
          end
      end
  end.

Definition ReplayBlocks (db : CCoinsViewDB) : result connect_error (bool * CCoinsViewDB) :=
  match db_GetHeadBlocks db with
  | [] => Ok (true, db)
  | [new; old] =>
      let! cache := replay_cache db new old in
      match cache with
      | None => Ok (false, db)
      | Some cache => let! (_, cache) := lift_coins (Flush (CCoinsView0 := db_view) cache) in Ok (true, base cache)
      end
  | _ => Ok (false, db)
  end.

End Blocks.
End Replay.

Module ReplayFacts.
Import Replay.

(** ** Writes that ignore what was there *)

(** What takes [m] to [m'] takes [d] to [d']: an outpoint is written in both or
    left alone in both. *)
Definition parallel (m m' d d' : utxo_set) : Prop :=
  ∀ o, d' !! o = m' !! o ∨ (d' !! o = d !! o ∧ m' !! o = m !! o).

Lemma parallel_refl m d : parallel m m d d.
Proof. intros o. by right. Qed.
Lemma parallel_trans m1 m2 m3 d1 d2 d3 : parallel m1 m2 d1 d2 → parallel m2 m3 d2 d3 → parallel m1 m3 d1 d3.
Proof. intros H1 H2 o. destruct (H1 o) as [?|[? ?]], (H2 o) as [?|[? ?]]; [left|left|left|right]; try split; congruence. Qed.
Lemma parallel_insert m d o k : parallel m (<[o := k]> m) d (<[o := k]> d).
Proof. intros o'. destruct (decide (o = o')) as [->|Hn]; [left; by rewrite !lookup_insert_eq|right; by rewrite !lookup_insert_ne]. Qed.
Lemma parallel_delete m d o : parallel m (delete o m) d (delete o d).
Proof. intros o'. destruct (decide (o = o')) as [->|Hn]; [left; by rewrite !lookup_delete_eq|right; by rewrite !lookup_delete_ne]. Qed.

Lemma parallel_del_ins m d l : parallel m (del_ins m l) d (del_ins d l).
Proof.
  revert m d. induction l as [|i l IH]; intros m d; [apply parallel_refl|].
  eapply parallel_trans; [apply parallel_delete|apply (IH (delete (prevout i) m) (delete (prevout i) d))].
Qed.

Lemma parallel_ins_outs m d txid i l h cb : parallel m (ins_outs m txid i l h cb) d (ins_outs d txid i l h cb).
Proof.
  revert m d i. induction l as [|o l IH]; intros m d i; cbn [ins_outs]; [apply parallel_refl|].
  eapply parallel_trans; [|apply IH]. destruct (IsUnspendable _); [apply parallel_refl|apply parallel_insert].
Qed.

Lemma parallel_apply Hash h l m d : parallel m (foldl (apply_tx Hash h) m l) d (foldl (apply_tx Hash h) d l).
Proof.
  revert m d. induction l as [|tx l IH]; intros m d; [apply parallel_refl|]. cbn [foldl]. eapply parallel_trans; [|apply IH].
  unfold apply_tx. eapply parallel_trans; [|apply parallel_ins_outs]. destruct (IsCoinBase tx); [apply parallel_refl|apply parallel_del_ins].
Qed.

(** Undoing a transaction: its outputs are removed, its inputs put back. *)
Fixpoint del_outs (m : utxo_set) (txid : uint256) (i : Z) (l : list CTxOut) : utxo_set :=
  match l with
  | [] => m
  | o :: l => del_outs (if IsUnspendable (scriptPubKey o) then m else delete (mkOutPoint txid i) m) txid (i + 1) l
  end.
Definition ins_coins (m : utxo_set) (l : list (CTxIn * Coin)) : utxo_set := foldr (fun e m => <[prevout e.1 := e.2]> m) m l.
Definition un_tx (Hash : list Z → uint256) (e : CTransaction * CTxUndo) (m : utxo_set) : utxo_set :=
  ins_coins (del_outs m (GetHash Hash e.1) 0 (vout e.1)) (zip (vin e.1) e.2).
Definition un_txs (Hash : list Z → uint256) (m : utxo_set) (l : list (CTransaction * CTxUndo)) : utxo_set := foldr (un_tx Hash) m l.

Lemma parallel_un_txs Hash l m d : parallel m (un_txs Hash m l) d (un_txs Hash d l).
Proof.
  assert (∀ txid l i m d, parallel m (del_outs m txid i l) d (del_outs d txid i l)) as Hout.
  { clear. intros txid l. induction l as [|o l IH]; intros i m d; cbn [del_outs]; [apply parallel_refl|].
    eapply parallel_trans; [|apply IH]. destruct (IsUnspendable _); [apply parallel_refl|apply parallel_delete]. }
  assert (∀ l m d, parallel m (ins_coins m l) d (ins_coins d l)) as Hin.
  { clear. induction l as [|e l IH]; intros m d; [apply parallel_refl|]. eapply parallel_trans; [apply IH|apply parallel_insert]. }
  induction l as [|e l IH]; [apply parallel_refl|]. eapply parallel_trans; [exact IH|]. eapply parallel_trans; [apply Hout|apply Hin].
Qed.

(** Each coin of [d] is one of [m] or of [x]. *)
Definition between (m x d : utxo_set) : Prop := ∀ o, d !! o = m !! o ∨ d !! o = x !! o.

Lemma between_parallel m m' x d d' : parallel m m' d d' → between m x d → between m' x d'.
Proof. intros Hp Hb o. destruct (Hp o) as [?|[? ?]], (Hb o) as [?|?]; [left|left|left|right]; congruence. Qed.

(** ** The code on a view that holds any set *)

Section View.
Context {B : Type} `{!CCoinsView B} {utxo : B → COutPoint → option Coin} {best : B → uint256}
  {inv : B → Prop} `{HR : !CCoinsViewReads B utxo best inv}.
Implicit Types (c : CCoinsViewCache B) (d : utxo_set).
Abbreviation holds := (OnView.holds (utxo := utxo) (best := best) (inv := inv)).

Lemma SpendCoin_any c d b o : holds c d b → ∃ r c', SpendCoin c o = (r, c') ∧ holds c' (delete o d) b.
Proof.
  intros (H1 & H2 & H3). destruct (SpendCoin_spec (best := best) c o H1) as (E1 & E2 & E3 & E4).
  destruct (SpendCoin c o) as [r c']. exists r, c'. split; [done|]. split_and!; [done| |etrans; [exact E3|done]].
  intros o'. rewrite E4, lookup_delete. destruct (decide (o' = o)) as [->|]; [by rewrite decide_True|by rewrite decide_False].
Qed.

Lemma spend_all_holds c d b l : holds c d b → holds (spend_all c l) (del_ins d l) b.
Proof.
  revert c d. induction l as [|i l IH]; intros c d Hc; [done|]. cbn [spend_all].
  destruct (SpendCoin_any c d b (prevout i) Hc) as (r & c' & -> & Hc'). by apply IH.
Qed.

Lemma add_coins_any c d b txid i l h cb : holds c d b → Forall in_range l →
  ∃ c', add_coins_loop c txid i l h cb true = Ok c' ∧ holds c' (ins_outs d txid i l h cb) b.
Proof.
  revert c d i. induction l as [|o l IH]; intros c d i Hc Hl; cbn [add_coins_loop ins_outs]; [by exists c|].
  apply list.Forall_cons in Hl as [Ho Hl]. pose proof (in_range_unspent o h cb Ho) as Hs.
  destruct (holds_HaveCoin c d b (mkOutPoint txid i) Hc) as [E Hc1]. destruct (HaveCoin c _) as [have c1]. cbn [fst snd] in E, Hc1.
  destruct (IsUnspendable (scriptPubKey o)) eqn:Eu.
  - unfold AddCoin. rewrite Hs. cbn [negb require rbind]. cbn [Coins.out Coin_of]. rewrite Eu. cbn [rbind]. by apply IH.
  - destruct (holds_AddCoin c1 d b (mkOutPoint txid i) (Coin_of o h cb) have Hc1 Hs Eu) as (c2 & -> & Hc2).
    { intros ->. symmetry in E. apply bool_decide_eq_false in E. by apply eq_None_not_Some. }
    cbn [rbind]. by apply IH.
Qed.

Lemma rollforward_txs_holds Hash c d b l h : holds c d b → Forall (fun tx => Forall in_range (vout tx)) l →
  ∃ c', rollforward_txs Hash c l h = Ok c' ∧ holds c' (foldl (apply_tx Hash h) d l) b.
Proof.
  revert c d. induction l as [|tx l IH]; intros c d Hc Hl; cbn [rollforward_txs foldl]; [by exists c|].
  apply list.Forall_cons in Hl as [Htx Hl].
  assert (holds (if negb (IsCoinBase tx) then spend_all c (vin tx) else c) (if IsCoinBase tx then d else del_ins d (vin tx)) b) as Hc1
    by (destruct (IsCoinBase tx); [done|by apply spend_all_holds]).
  destruct (add_coins_any _ _ b (GetHash Hash tx) 0 (vout tx) h (IsCoinBase tx) Hc1 Htx) as (c2 & E & Hc2).
  unfold AddCoins. rewrite E. cbn [rbind]. by apply IH.
Qed.

Lemma unspend_outputs_any c d b txid i l h cb exc fClean : holds c d b →
  ∃ f c', unspend_outputs c txid i l h cb exc fClean = (f, c') ∧ holds c' (del_outs d txid i l) b.
Proof.
  revert c d i fClean. induction l as [|o l IH]; intros c d i fClean Hc; cbn [unspend_outputs del_outs]; [by exists fClean, c|].
  destruct (IsUnspendable (scriptPubKey o)); cbn [negb]; [by apply IH|].
  destruct (SpendCoin_any c d b (mkOutPoint txid i) Hc) as (r & c1 & -> & Hc1). by apply IH.
Qed.

Lemma restore_inputs_any c d b l fClean : holds c d b → Forall (fun e => coin_ok e.2) l →
  ∃ f c', restore_inputs c l fClean = Ok (Some f, c') ∧ holds c' (ins_coins d l) b.
Proof.
  intros Hc. induction l as [|[i k] l IH]; intros Hl; cbn [restore_inputs ins_coins foldr]; [by exists fClean, c|].
  apply list.Forall_cons in Hl as [(Hh & Hu & Hr) Hl]. destruct (IH Hl) as (f & c1 & -> & Hc1). cbn [rbind].
  unfold ApplyTxInUndo. destruct (holds_HaveCoin c1 _ b (prevout i) Hc1) as [E Hc2].
  destruct (HaveCoin c1 (prevout i)) as [have c2]. cbn [fst snd] in *. replace (coin_nHeight k =? 0) with false by lia.
  rewrite negb_involutive. destruct (holds_AddCoin c2 _ b (prevout i) k have Hc2) as (c3 & -> & Hc3); [|done| |].
  { unfold IsSpent, txout_IsNull, in_range in *. lia. }
  { intros ->. symmetry in E. apply bool_decide_eq_false in E. by apply eq_None_not_Some. }
  cbn [rbind]. destruct have; by eexists _, c3.
Qed.

(** Undo data that fits its transaction. *)
Definition undo_fits (e : CTransaction * CTxUndo) : Prop := length e.2 = length (vin e.1) ∧ Forall coin_ok e.2.

Lemma disconnect_loop_any Hash c d b l h enforce : holds c d b → Forall undo_fits l →
  ∃ f c', disconnect_loop Hash c l h enforce = Ok (Some f, c') ∧ holds c' (un_txs Hash d l) b.
Proof.
  intros Hc. induction l as [|[tx undo] l IH]; intros Hl; cbn [disconnect_loop]; [by exists true, c|].
  apply list.Forall_cons in Hl as [[El Hk] Hl]. destruct (IH Hl) as (f & c1 & -> & Hc1). cbn [rbind]. unfold disconnect_tx.
  destruct (unspend_outputs_any c1 _ b (GetHash Hash tx) 0 (vout tx) h (IsCoinBase tx) (IsCoinBase tx && negb enforce) f Hc1) as (f2 & c2 & -> & Hc2).
  cbn [fst snd] in El, Hk. rewrite El, Nat.eqb_refl. cbn [negb]. apply restore_inputs_any; [done|].
  apply List.Forall_forall. intros [i k] Hin%list_elem_of_In. apply (proj1 (List.Forall_forall _ _) Hk), list_elem_of_In. by eapply elem_of_zip_r.
Qed.

(** [DisconnectBlock] undoes a block whose changes are there in part. *)
Lemma DisconnectBlock_any Hash bm block pindex index prev coinbase rest undos c d b :
  bm !! pindex = Some index → pprev index = Some prev → IsNull256 prev = false →
  vtx block = coinbase :: rest → length undos = length rest → Forall undo_fits (zip rest undos) → holds c d b →
  ∃ r c', DisconnectBlock Hash bm block pindex (Some undos) c = Ok (r, c') ∧ r ≠ DISCONNECT_FAILED ∧
    holds c' (un_txs Hash d (zip (vtx block) ([] :: undos))) prev.
Proof.
  intros Hb Hpp Hn Ev El Hfit Hc. unfold DisconnectBlock, deref. rewrite Hb, Ev. cbn [lift_index rbind drop]. rewrite drop_0.
  replace (length undos + 1 =? length (coinbase :: rest))%nat with true by (symmetry; apply Nat.eqb_eq; cbn; lia). cbn [negb].
  destruct (disconnect_loop_any Hash c d b (zip rest undos) (nHeight index) (negb (IsBIP30Unspendable (nHeight index) pindex)) Hc Hfit)
    as (f & c1 & -> & Hc1). cbn [lift_coins rbind]. unfold disconnect_tx.
  destruct (unspend_outputs_any c1 _ b (GetHash Hash coinbase) 0 (vout coinbase) (nHeight index) (IsCoinBase coinbase)
    (IsCoinBase coinbase && negb (negb (IsBIP30Unspendable (nHeight index) pindex))) f Hc1) as (f2 & c2 & -> & Hc2).
  cbn [lift_coins rbind]. rewrite Hpp. eexists _, _. split; [done|]. split; [by destruct f2|].
  apply (holds_SetBestBlock c2 _ b prev Hn). cbn [zip_with un_txs foldr]. unfold un_tx at 1. cbn [fst snd]. by destruct (vin coinbase).
Qed.

End View.

(** ** The effect of a block, forwards and backwards *)

Lemma applied_fold Hash h m l undos m' : applied Hash h m l undos m' → m' = foldl (apply_tx Hash h) m l.
Proof. induction 1; [done|]. by cbn [foldl]. Qed.

Lemma applied_fits Hash h m l undos m' :
  0 < h < 2 ^ 31 → applied Hash h m l undos m' → utxo_ok m → Forall tx_valid l → Forall (fun tx => IsCoinBase tx = false) l →
  length undos = length l ∧ Forall undo_fits (zip l undos).
Proof.
  intros Hh. induction 1 as [|m tx l undo undos m' Hu _ IH]; intros Hok Hv Hcb; [by split; [|constructor]|].
  apply list.Forall_cons in Hv as [Htx Hv]. apply list.Forall_cons in Hcb as [Hc Hcb]. destruct Htx as (_ & _ & _ & Hr & _).
  destruct IH as [El Hfit]; [by apply apply_tx_ok|done|done|]. split; [cbn; congruence|]. cbn [zip_with]. constructor; [|done].
  unfold tx_undo in Hu. rewrite Hc in Hu. split; cbn [fst snd]; [symmetry; by eapply Forall2_length|].
  clear -Hu Hok. induction Hu as [|i k l coins Hi _ IH]; constructor; [by apply (Hok (prevout i))|done].
Qed.

(** A database as a view one reads from. *)
Definition db_unspent (db : CCoinsViewDB) : Prop := ∀ o k, db_coins db !! o = Some k → IsSpent k = false.

Lemma CCoinsViewDB_reads batch_full (inv : CCoinsViewDB → Prop) : (∀ db, inv db → db_unspent db) →
  CCoinsViewReads CCoinsViewDB (CCoinsView0 := CCoinsViewDB_view batch_full) db_utxo db_GetBestBlock inv.
Proof. intros Hi. split; [intros db o k Hu; by apply (Hi db)|intros db o Hu; by split; [|split]|intros db o Hu; by split; [|split]|intros db Hu; by split; [|split]]. Qed.

Lemma db_cache_holds (inv : CCoinsViewDB → Prop) db : inv db →
  OnView.holds (utxo := db_utxo) (best := db_GetBestBlock) (inv := inv) (mkCache db null256 ∅ 0) (db_coins db) (db_GetBestBlock db).
Proof. intros Hu. split_and!; [split; [done|apply map_fits_empty]|done|done]. Qed.

Lemma utxo_ok_unspent m : utxo_ok m → ∀ o k, m !! o = Some k → IsSpent k = false.
Proof. intros Hm o k Hk. destruct (Hm o k Hk) as (_ & _ & Hr). unfold IsSpent, txout_IsNull, in_range in *. lia. Qed.

Section Block.
Context (Hash : list Z → uint256) (params : Params) (founder : option CScript).
Abbreviation connects := (connects Hash params founder).

Lemma connects_forward block p idx m m' undos : connects block p idx m m' undos →
  m' = foldl (apply_tx Hash (nHeight idx)) m (vtx block) ∧ Forall (fun tx => Forall in_range (vout tx)) (vtx block).
Proof.
  intros [(_ & Hv & _) (coinbase & rest & Ev & Ha & _) _ _]. split; [rewrite Ev; by eapply applied_fold|].
  apply List.Forall_forall. intros tx Hin. rewrite List.Forall_forall in Hv. by destruct (Hv tx Hin) as (_ & _ & _ & Hr & _).
Qed.

Lemma connects_fits block p idx m m' undos : 0 < nHeight idx < 2 ^ 31 → utxo_ok m → connects block p idx m m' undos →
  ∃ coinbase rest, vtx block = coinbase :: rest ∧ length undos = length rest ∧ Forall undo_fits (zip rest undos).
Proof.
  intros Hh Hok [(_ & Hv & _) (coinbase & rest & Ev & Ha & Hrest & Hcb & _) _ _]. exists coinbase, rest. split; [done|].
  inversion Ha as [|? ? ? ? ? ? _ Ha']; subst. rewrite Ev in Hv. apply list.Forall_cons in Hv as [(_ & _ & _ & Hr & _) Hv].
  eapply applied_fits; [done|exact Ha'|by apply apply_tx_ok|done|done].
Qed.

(** Undoing the writes of a block from the set it leaves gives the set before it. *)
Lemma connects_backward (bm : BlockMap) block p idx prev m m' undos :
  bm !! p = Some idx → 0 < nHeight idx < 2 ^ 31 → pprev idx = Some prev → IsNull256 prev = false →
  base.NoDup (map (GetHash Hash) (vtx block)) → utxo_ok m → connects block p idx m m' undos →
  un_txs Hash m' (zip (vtx block) ([] :: undos)) = m.
Proof.
  intros Hb Hh Hpp Hn Hids Hok Hk. set (c := mkCache (mkDB m' None None) null256 ∅ 0 : CCoinsViewCache CCoinsViewDB).
  pose proof (CCoinsViewDB_reads (fun _ => false) db_unspent (fun _ H => H)) as HR.
  pose proof (db_cache_holds db_unspent (mkDB m' None None) (utxo_ok_unspent m' (k_utxo _ _ _ _ _ _ _ _ _ Hk))) as Hc.
  destruct (DisconnectBlock_spec (CCoinsView0 := CCoinsViewDB_view (fun _ => false)) Hash params founder bm block p idx prev m m' undos c null256
    Hb Hh Hpp Hn Hids Hok Hk Hc) as (c1 & E1 & Hc1).
  destruct (connects_fits block p idx m m' undos Hh Hok Hk) as (coinbase & rest & Ev & El & Hfit).
  destruct (DisconnectBlock_any (CCoinsView0 := CCoinsViewDB_view (fun _ => false)) Hash bm block p idx prev coinbase rest undos c m' null256
    Hb Hpp Hn Ev El Hfit Hc) as (r & c2 & E2 & _ & Hc2).
  assert (c2 = c1) as -> by congruence. apply map_eq. intros o. destruct Hc1 as (_ & H1 & _), Hc2 as (_ & H2 & _). by rewrite <- H2, H1.
Qed.

End Block.

(** ** The branches *)

Section Chain.
Context {B : Type} `{!CCoinsView B} {utxo : B → COutPoint → option Coin} {best : B → uint256}
  {inv : B → Prop} `{HR : !CCoinsViewReads B utxo best inv}.
Context (Hash : list Z → uint256) (GetBlockHash : CBlockHeader → uint256) (params : Params).
Context (signet : CBlockHeader * list CTransaction → bool).
Context (hashes : script_hashes) (lib : sig_lib) (script_cached : CTransaction → Z → bool) (founder : option CScript).
Context (m0 : BlockMap) (content : uint256 → CBlock) (block_files : gmap uint256 CBlock) (undo_files : gmap uint256 CBlockUndo).
Context (Hwf : wf_tree m0).
Context (Hcontent : ∀ p idx q, m0 !! p = Some idx → pprev idx = Some q → content_ok Hash GetBlockHash params signet content p idx q).
Abbreviation holds := (OnView.holds (utxo := utxo) (best := best) (inv := inv)).
Abbreviation unspent_of := (chain_utxo Hash GetBlockHash params signet hashes lib script_cached founder m0 content).
Abbreviation undo_right := (undo_right Hash GetBlockHash params signet hashes lib script_cached founder m0 content).
Implicit Types (c : CCoinsViewCache B).

(** The files have the blocks of a chain, and the undo data of those that may be undone. *)
Definition has_blocks (ch : CChain) : Prop :=
  ∀ p idx q, Some p ∈ ch → m0 !! p = Some idx → pprev idx = Some q → ∃ blk, block_files !! p = Some blk ∧ vtx blk = vtx (content p).
Definition has_undo (ch : CChain) : Prop :=
  ∀ p idx q, Some p ∈ ch → m0 !! p = Some idx → pprev idx = Some q → is_Some (undo_files !! p).

(** A block of a chain of valid blocks, with what was below it. *)
Lemma unspent_last p idx q ch m' : m0 !! p = Some idx → pprev idx = Some q → chain_of m0 p ch → unspent_of ch m' →
  ∃ chq m undos, ch = chq ++ [Some p] ∧ chain_of m0 q chq ∧ unspent_of chq m ∧ utxo_ok m ∧ 0 < nHeight idx < 2 ^ 31 ∧ IsNull256 q = false ∧
    base.NoDup (map (GetHash Hash) (vtx (content p))) ∧ connects Hash params founder (content p) p idx m m' undos ∧
    (undo_right undo_files → ∀ u, undo_files !! p = Some u → u = undos).
Proof.
  intros Hp Hq Hch Hcu. destruct (chain_of_inv m0 Hwf p idx q ch Hp Hq Hch) as (chq & -> & Hchq).
  assert (chq ≠ []) as Hne by (intros ->; pose proof (chain_of_Tip m0 Hwf _ _ Hchq); done).
  destruct (chain_utxo_last _ _ _ _ _ _ _ _ _ _ chq p m' Hcu Hne) as (m & idx2 & undos & Hcuq & Hp2 & Hok & Hk & _).
  assert (idx2 = idx) as -> by congruence. destruct (Hcontent p idx q Hp Hq) as [[_ Hn] Hht _ _ Hblk]. destruct (Hblk (proj1 Hok)) as (_ & Hids & _).
  destruct (parent_height m0 Hwf p idx q Hp Hq) as (b & Hb & Hh). destruct (Hwf q b Hb) as [H0 _].
  exists chq, m, undos. split_and!; try done; [by eapply chain_utxo_ok|lia|].
  intros Hur u Hu. by apply (Hur p u Hu idx q chq m m' undos).
Qed.

Lemma unspent_anc tip ch m p chp : chain_of m0 tip ch → unspent_of ch m → anc m0 tip p → chain_of m0 p chp → ∃ mp, unspent_of chp mp.
Proof.
  intros Hch Hcu. revert tip Hch. induction Hcu as [|ch m p' idx m' undos Hcu IH Hp' Hok Hk Hin]; intros tip Hch Ha Hchp.
  - exists ∅. assert (chp = [Some (hashGenesisBlock params)]) as ->; [|constructor].
    pose proof (chain_of_Tip m0 Hwf _ _ Hch) as [= <-]. pose proof Hch as (b & Hb & Hl & _). cbn in Hl.
    destruct (anc_cases m0 Hwf _ b p Hb Ha) as [<-|(r & Hr & _)]; [by eapply (chain_of_fun m0 Hwf)|].
    destruct (parent_height m0 Hwf _ b r Hb Hr) as (c & Hc & Hh). destruct (Hwf r c Hc). lia.
  - assert (tip = p') as ->.
    { pose proof (chain_of_Tip m0 Hwf _ _ Hch) as Ht. unfold Tip in Ht. rewrite length_app, Nat.add_comm in Ht. cbn in Ht.
      rewrite Nat.sub_0_r, lookup_app_r, Nat.sub_diag in Ht by lia. by injection Ht as ->. }
    destruct (anc_cases m0 Hwf p' idx p Hp' Ha) as [<-|(r & Hr & Ha')].
    + exists m'. rewrite (chain_of_fun m0 Hwf _ _ _ Hchp Hch). by econstructor.
    + destruct (chain_of_inv m0 Hwf p' idx r _ Hp' Hr Hch) as (c' & E & Hc'). apply app_inj_tail in E as [<- _]. by apply (IH r).
Qed.

(** Rolling back leaves the set of the fork, up to coins of [x]. *)
Lemma rollback_spec fuel p b f bf ch m chf mf x c d h :
  m0 !! p = Some b → m0 !! f = Some bf → anc m0 p f → chain_of m0 p ch → unspent_of ch m → chain_of m0 f chf → unspent_of chf mf →
  has_blocks ch → has_undo ch → undo_right undo_files → (Z.to_nat (nHeight b - nHeight bf) < fuel)%nat →
  holds c d h → between m x d →
  ∃ c' d' h', rollback Hash m0 block_files undo_files fuel (Some p) (Some f) c = Ok (Some c') ∧ holds c' d' h' ∧ between mf x d'.
Proof.
  revert p b ch m c d h. induction fuel as [|fuel IH]; intros p b ch m c d h Hp Hf Ha Hch Hcu Hchf Hcuf Hbl Hun Hur Hfu Hc Hbt; [lia|].
  cbn [rollback]. case_bool_decide as E.
  { injection E as ->. assert (ch = chf) as -> by (by eapply (chain_of_fun m0 Hwf)). assert (mf = m) as -> by (by eapply chain_utxo_det). by exists c, d, h. }
  unfold deref. rewrite Hp. cbn [lift_index rbind]. destruct (anc_cases m0 Hwf p b f Hp Ha) as [->|(q & Hq & Haq)]; [done|].
  destruct (unspent_last p b q ch m Hp Hq Hch Hcu) as (chq & mq & undos & -> & Hchq & Hcuq & Hokq & Hht & Hnq & Hids & Hk & Hu).
  replace (nHeight b >? 0) with true by lia. destruct (Hbl p b q ltac:(set_solver) Hp Hq) as (blk & -> & Ev).
  destruct (Hun p b q ltac:(set_solver) Hp Hq) as [u Eu]. rewrite Eu. pose proof (Hu Hur u Eu) as ->.
  destruct (connects_fits Hash params founder _ p b mq m undos Hht Hokq Hk) as (coinbase & rest & Evc & El & Hfit). rewrite <- Ev in Evc.
  destruct (DisconnectBlock_any Hash m0 blk p b q coinbase rest undos c d h Hp Hq Hnq Evc El Hfit Hc) as (r & c1 & -> & Hr & Hc1).
  cbn [rbind]. pose proof (connects_backward Hash params founder m0 _ p b q mq m undos Hp Hht Hq Hnq Hids Hokq Hk) as Eb. rewrite <- Ev in Eb.
  destruct (parent_height m0 Hwf p b q Hp Hq) as (bq & Hbq & Hhq).
  destruct (IH q bq chq mq c1 (un_txs Hash d (zip (vtx blk) ([] :: undos))) q) as (c' & d' & h' & E2 & Hc' & Hbt');
    [done|done|done|done|done|done|done| | |done| |done| |].
  - intros p' i' q' Hin. apply Hbl. set_solver.
  - intros p' i' q' Hin. apply Hun. set_solver.
  - destruct (anc_lookup m0 Hwf q f Haq) as (? & ? & ? & ? & ?). simplify_eq. lia.
  - apply (between_parallel m mq x d); [|done]. rewrite <- Eb at 1. apply parallel_un_txs.
  - exists c', d', h'. split; [|done]. rewrite Hq. by destruct r.
Qed.

(** Rolling forward from a block of the new branch ends with the set of its tip. *)
Lemma rollforward_spec n tip bt ch x q bq chq mq c d h :
  m0 !! tip = Some bt → chain_of m0 tip ch → unspent_of ch x → has_blocks ch →
  anc m0 tip q → m0 !! q = Some bq → chain_of m0 q chq → unspent_of chq mq → nHeight bt = nHeight bq + Z.of_nat n →
  holds c d h → between mq x d →
  ∃ c' h', rollforward Hash m0 block_files n (nHeight bq + 1) tip c = Ok (Some c') ∧ holds c' x h'.
Proof.
  revert q bq chq mq c d. induction n as [|n IH]; intros q bq chq mq c d Ht Hch Hcu Hbl Ha Hbq Hchq Hcuq Hh Hc Hbt; cbn [rollforward].
  { assert (q = tip) as ->.
    { eapply (is_anc_fun m0 Hwf tip (nHeight bt)); [|by apply anc_self]. replace (nHeight bt) with (nHeight bq) by lia. by eapply anc_height. }
    assert (chq = ch) as -> by (by eapply (chain_of_fun m0 Hwf)). assert (mq = x) as -> by (by eapply chain_utxo_det).
    exists c, h. split; [done|]. assert (d = x) as <-; [|done]. apply map_eq. intros o. by destruct (Hbt o). }
  destruct (Hwf q bq Hbq) as [H0 _].
  destruct (proj1 (GetAncestor_spec m0 Hwf tip bt (nHeight bq + 1) Ht)) as (p & -> & Hp); [lia|]. cbn [lift_index rbind].
  destruct (is_anc_lookup m0 Hwf _ _ _ Hp) as (_ & bp & _ & Hbp & Ehp & _).
  assert (pprev bp = Some q) as Hq.
  { pose proof (anc_height m0 Hwf tip q bt bq Ht Hbq Ha) as Hq. pose proof (is_anc_split m0 Hwf _ _ _ _ _ Hp Hq ltac:(lia)) as Hpq.
    destruct (is_anc_inv m0 Hwf p bp _ q Hbp Hpq) as [[? _]|(_ & r & Hr & Hrq)]; [lia|].
    destruct (parent_height m0 Hwf p bp r Hbp Hr) as (br & Hbr & Hhr).
    destruct (is_anc_inv m0 Hwf r br _ q Hbr Hrq) as [[_ ->]|[? _]]; [done|lia]. }
  pose proof (chain_of_snoc m0 Hwf p bp q chq Hbp Hq Hchq) as Hchp. assert (anc m0 tip p) as Hap by (by eexists).
  destruct (unspent_anc tip ch x p _ Hch Hcu Hap Hchp) as [mp Hcup].
  destruct (unspent_last p bp q _ mp Hbp Hq Hchp Hcup) as (chq' & mq' & undos & E & _ & Hcuq' & _ & _ & _ & _ & Hk & _).
  apply app_inj_tail in E as [<- _]. assert (mq' = mq) as -> by (by eapply chain_utxo_det).
  destruct (connects_forward Hash params founder _ p bp mq mp undos Hk) as [Em Hr].
  destruct (Hbl p bp q) as (blk & Hblk & Ev); [by apply (chain_of_elem m0 Hwf tip ch p Hch)|done|done|].
  unfold RollforwardBlock, deref. rewrite Hblk, Hbp, Ev. cbn [lift_index rbind].
  destruct (rollforward_txs_holds Hash c d h (vtx (content p)) (nHeight bp) Hc Hr) as (c1 & -> & Hc1). cbn [lift_coins rbind].
  rewrite <- Ehp. apply (IH p bp (chq ++ [Some p]) mp c1 _ Ht Hch Hcu Hbl Hap Hbp Hchp Hcup ltac:(lia) Hc1).
  apply (between_parallel mq mp x d); [|done]. rewrite Em. apply parallel_apply.
Qed.

Lemma unspent_root tip ch m g : chain_of m0 tip ch → unspent_of ch m → is_anc m0 tip 0 g → g = hashGenesisBlock params.
Proof.
  intros (b & _ & _ & Hc) Hcu Hg. specialize (Hc 0%nat g Hg).
  assert (ch !! 0%nat = Some (Some (hashGenesisBlock params))) as E; [|congruence].
  clear -Hcu. induction Hcu as [|ch m p idx m' undos Hcu IH]; [done|]. rewrite lookup_app_l; [done|]. by eapply lookup_lt_Some.
Qed.

End Chain.

(** ** The database *)

Section Recovery.
Context (batch_full : list db_op → bool).
Context (Hash : list Z → uint256) (GetBlockHash : CBlockHeader → uint256) (params : Params).
Context (signet : CBlockHeader * list CTransaction → bool).
Context (hashes : script_hashes) (lib : sig_lib) (script_cached : CTransaction → Z → bool) (founder : option CScript).
Context (m0 : BlockMap) (content : uint256 → CBlock) (block_files : gmap uint256 CBlock) (undo_files : gmap uint256 CBlockUndo).
Context (Hwf : wf_tree m0).
Context (Hcontent : ∀ p idx q, m0 !! p = Some idx → pprev idx = Some q → content_ok Hash GetBlockHash params signet content p idx q).
Abbreviation unspent_of := (chain_utxo Hash GetBlockHash params signet hashes lib script_cached founder m0 content).
Abbreviation undo_right := (undo_right Hash GetBlockHash params signet hashes lib script_cached founder m0 content).
Abbreviation cache_of := (replay_cache batch_full Hash m0 block_files undo_files).
Abbreviation replay := (ReplayBlocks batch_full Hash m0 block_files undo_files).

(** The unspent set of the new tip, whose blocks are on disk. *)
Definition new_tip (t : uint256) (m : utxo_set) : Prop :=
  IsNull256 t = false ∧ ∃ ch, chain_of m0 t ch ∧ unspent_of ch m ∧ has_blocks m0 content block_files ch.
(** The unspent set of the old tip, which can be undone; it is null before the first write. *)
Definition old_tip (t : uint256) (m : utxo_set) : Prop :=
  if IsNull256 t then m = ∅ else new_tip t m ∧ ∃ ch, chain_of m0 t ch ∧ has_undo m0 undo_files ch.

(** A database left between two tips. *)
Definition torn (new old : uint256) (mo mn : utxo_set) (d : CCoinsViewDB) : Prop :=
  db_best_block d = None ∧ db_head_blocks d = Some [new; old] ∧ between mo mn (db_coins d).

Lemma new_tip_ok t m : new_tip t m → utxo_ok m.
Proof. intros (_ & ch & _ & Hcu & _). by eapply chain_utxo_ok. Qed.
Lemma old_tip_ok t m : old_tip t m → utxo_ok m.
Proof. unfold old_tip. destruct (IsNull256 t); [intros ->; by intros o k Hk; rewrite lookup_empty in Hk|]. intros [H _]. by eapply new_tip_ok. Qed.

Lemma between_unspent mo mn d : utxo_ok mo → utxo_ok mn → between mo mn (db_coins d) → db_unspent d.
Proof.
  intros Ho Hn Hb o k Hk. destruct (Hb o) as [E|E]; rewrite Hk in E; [by eapply (utxo_ok_unspent mo)|by eapply (utxo_ok_unspent mn)].
Qed.

(** The fork of the two tips, and its set. *)
Lemma replay_heads_spec new old mo mn bn : m0 !! new = Some bn → new_tip new mn → IsNull256 old = false → new_tip old mo →
  ∃ bo f bf chf mf, m0 !! old = Some bo ∧ replay_heads m0 new old = Ok (Some (Some old, Some f)) ∧ m0 !! f = Some bf ∧
    anc m0 old f ∧ anc m0 new f ∧ chain_of m0 f chf ∧ unspent_of chf mf.
Proof.
  intros Hn (_ & chn & Hchn & Hcun & _) Ho0 (_ & cho & Hcho & Hcuo & _). pose proof Hcho as (bo & Ho & _).
  destruct (Hwf new bn Hn) as [Hn0 _]. destruct (Hwf old bo Ho) as [Hoh _].
  destruct (is_anc_exists m0 Hwf old bo 0 Ho ltac:(lia)) as [g Hg]. destruct (is_anc_exists m0 Hwf new bn 0 Hn ltac:(lia)) as [g' Hg'].
  assert (g = g') as <- by (transitivity (hashGenesisBlock params); [eapply unspent_root; [exact Hcho|exact Hcuo|exact Hg]|symmetry; eapply unspent_root; [exact Hchn|exact Hcun|exact Hg']]).
  destruct (LastCommonAncestor_spec m0 Hwf old new bo bn g Ho Hn Hg Hg') as (f & h & E & Hof & Hnf & _).
  destruct (is_anc_lookup m0 Hwf _ _ _ Hof) as (_ & bf & _ & Hf & _). destruct (chain_of_exists m0 Hwf f bf Hf) as [chf Hchf].
  assert (anc m0 old f) as Ha by (by exists h).
  destruct (unspent_anc Hash GetBlockHash params signet hashes lib script_cached founder m0 content Hwf old cho mo f chf Hcho Hcuo Ha Hchf) as [mf Hcuf].
  exists bo, f, bf, chf, mf. split_and!; try done; [|by exists h]. unfold replay_heads. rewrite Hn, Ho, Ho0, E. done.
Qed.

Section Torn.
Context (d : CCoinsViewDB) (Hd : db_unspent d) (new : uint256) (bn : CBlockIndex) (chn : CChain) (mn : utxo_set).
Context (Hn : m0 !! new = Some bn) (Hchn : chain_of m0 new chn) (Hcun : unspent_of chn mn) (Hbl : has_blocks m0 content block_files chn).
Abbreviation holds := (OnView.holds (utxo := db_utxo) (best := db_GetBestBlock) (inv := eq d)).

#[local] Instance torn_reads : CCoinsViewReads CCoinsViewDB (CCoinsView0 := CCoinsViewDB_view batch_full) db_utxo db_GetBestBlock (eq d).
Proof. apply CCoinsViewDB_reads. by intros ? <-. Qed.

(** From a block of the new branch. *)
Lemma replay_forward q bq chq mq c d1 h : anc m0 new q → m0 !! q = Some bq → chain_of m0 q chq → unspent_of chq mq →
  holds c d1 h → between mq mn d1 →
  ∃ c' h', rollforward (CCoinsView0 := CCoinsViewDB_view batch_full) Hash m0 block_files (Z.to_nat (nHeight bn - nHeight bq)) (nHeight bq + 1) new c =
    Ok (Some c') ∧ holds c' mn h'.
Proof.
  intros Ha Hq Hchq Hcuq Hc Hbt. destruct (anc_lookup m0 Hwf _ _ Ha) as (? & ? & ? & ? & ?). simplify_eq.
  apply (rollforward_spec Hash GetBlockHash params signet hashes lib script_cached founder m0 content block_files undo_files Hwf Hcontent
    (Z.to_nat (nHeight bn - nHeight bq)) new bn chn mn q bq chq mq c d1 h); try done. lia.
Qed.

(** The first write: there is no old tip. *)
Lemma replay_first old : IsNull256 old = true → between ∅ mn (db_coins d) →
  ∃ c h, cache_of d new old = Ok (Some (SetBestBlock c new)) ∧ holds c mn h.
Proof.
  intros Eo Hbt. destruct (Hwf new bn Hn) as [Hn0 _]. destruct (is_anc_exists m0 Hwf new bn 0 Hn ltac:(lia)) as [g Hg].
  destruct (is_anc_lookup m0 Hwf _ _ _ Hg) as (_ & bg & _ & Hbg & Eh & _).
  assert (anc m0 new g) as Ha by (by exists 0). destruct (chain_of_exists m0 Hwf g bg Hbg) as [chg Hchg].
  destruct (unspent_anc Hash GetBlockHash params signet hashes lib script_cached founder m0 content Hwf new chn mn g chg Hchn Hcun Ha Hchg) as [mg Hcug].
  assert (mg = ∅) as ->.
  { destruct Hchg as (bg' & Hbg' & Hl & Hlk). assert (bg' = bg) as -> by congruence. rewrite Eh in Hl.
    destruct Hcug as [|ch m p idx m' u Hcu]; [done|]. apply chain_utxo_nonempty in Hcu. rewrite length_app in Hl. destruct ch; [done|]. cbn in Hl. lia. }
  destruct (replay_forward g bg chg ∅ _ _ _ Ha Hbg Hchg Hcug (db_cache_holds (eq d) d eq_refl) Hbt) as (c & h & E & Hc).
  assert (replay_heads m0 new old = Ok (Some (None, None))) as Ehd by (unfold replay_heads; by rewrite Hn, Eo).
  exists c, h. split; [|done]. unfold replay_cache. rewrite Ehd. cbn [rbind rollback]. rewrite bool_decide_true by done. cbn [rbind].
  unfold deref. rewrite Hn. cbn [lift_index rbind]. rewrite Eh in E. by rewrite E.
Qed.

Lemma replay_between old cho mo : IsNull256 old = false → chain_of m0 old cho → unspent_of cho mo → has_blocks m0 content block_files cho →
  has_undo m0 undo_files cho → undo_right undo_files → IsNull256 new = false → between mo mn (db_coins d) →
  ∃ c h, cache_of d new old = Ok (Some (SetBestBlock c new)) ∧ holds c mn h.
Proof.
  intros Eo Hcho Hcuo Hblo Hun Hur Hnn Hbt.
  destruct (replay_heads_spec new old mo mn bn Hn) as (bo & f & bf & chf & mf & Ho & Ehd & Hf & Hof & Hnf & Hchf & Hcuf);
    [by split; [|eauto]|done|by split; [|eauto]|].
  destruct (rollback_spec (HR := torn_reads) Hash GetBlockHash params signet hashes lib script_cached founder m0 content block_files undo_files Hwf Hcontent
    (S (Z.to_nat (nHeight bo))) old bo f bf cho mo chf mf mn (mkCache d null256 ∅ 0) (db_coins d) (db_GetBestBlock d)) as (c1 & d1 & h1 & E1 & Hc1 & Hbt1);
    [done..| |by apply db_cache_holds|done|]. { destruct (Hwf f bf Hf) as [? _]. lia. }
  destruct (replay_forward f bf chf mf c1 d1 h1 Hnf Hf Hchf Hcuf Hc1 Hbt1) as (c & h & E & Hc).
  exists c, h. split; [|done]. unfold replay_cache. rewrite Ehd. cbn [rbind]. unfold deref. rewrite Ho. cbn [lift_index rbind]. rewrite E1. cbn [rbind].
  rewrite Hf. cbn [lift_index rbind]. rewrite Hn. cbn [lift_index rbind]. by rewrite E.
Qed.

End Torn.

Lemma replay_cache_spec new old mo mn d :
  undo_right undo_files → new_tip new mn → old_tip old mo → torn new old mo mn d →
  ∃ c h, cache_of d new old = Ok (Some (SetBestBlock c new)) ∧
    OnView.holds (utxo := db_utxo) (best := db_GetBestBlock) (inv := eq d) c mn h.
Proof.
  intros Hur Hnew Hold (_ & _ & Hbt).
  assert (db_unspent d) as Hd by (eapply between_unspent; [by eapply old_tip_ok|by eapply new_tip_ok|done]).
  pose proof Hnew as (Hnn & chn & Hchn & Hcun & Hbl). pose proof Hchn as (bn & Hn & _). unfold old_tip in Hold. destruct (IsNull256 old) eqn:Eo.
  - subst mo. by eapply replay_first.
  - destruct Hold as [(_ & cho & Hcho & Hcuo & Hblo) (cho' & Hcho' & Hun)]. assert (cho' = cho) as -> by (by eapply (chain_of_fun m0 Hwf)).
    by apply (replay_between d Hd new bn chn mn Hn Hchn Hcun Hbl old cho mo).
Qed.

(** Writing a cache that shows the new set over a database between the tips:
    the result, and what a further crash leaves. *)
Lemma torn_write new old mo mn d c h : IsNull256 new = false → db_old_tip d new = Ok old → between mo mn (db_coins d) →
  OnView.holds (utxo := db_utxo) (best := db_GetBestBlock) (inv := eq d) c mn h →
  ∃ d' mid, db_BatchWrite_trace batch_full d (cacheCoins c) new true = Ok (true, ∅, d', mid) ∧
    db_best_block d' = Some new ∧ db_head_blocks d' = None ∧ db_coins d' = mn ∧ ∀ e, e ∈ mid → torn new old mo mn e.
Proof.
  intros Hnn Ht Hbt ([Eb Hfit] & Hu & _). rewrite <- Eb in *. pose proof (fun o => look_overlay (cacheCoins c) (db_utxo d) o Hfit) as Hov.
  destruct (db_BatchWrite_trace_spec batch_full d (cacheCoins c) new old true Hnn Ht) as (d' & mid & E & H1 & H2 & H3 & H4).
  assert (∀ o, overlay (cacheCoins c) (db_utxo d) o = mn !! o) as Ho.
  { intros o. rewrite Hov, <- Hu. unfold cache_utxo. by rewrite <- Eb. }
  exists d', mid. split_and!; try done.
  - apply map_eq. intros o. rewrite <- Ho, <- H3. done.
  - intros e He. destruct (H4 e He) as (B1 & B2 & B3). split_and!; [done|done|]. intros o. destruct (B3 o) as [E1|E1].
    + change (db_utxo e o) with (db_coins e !! o) in E1. rewrite E1. apply Hbt.
    + right. by rewrite <- Ho, <- E1.
Qed.

Lemma torn_old_tip new old mo mn d : torn new old mo mn d → db_old_tip d new = Ok old.
Proof. intros (H1 & H2 & _). unfold db_old_tip, db_GetBestBlock, db_GetHeadBlocks. rewrite H1, H2. cbn. by rewrite bool_decide_true. Qed.

Lemma replay_recovers new old mo mn d :
  undo_right undo_files → new_tip new mn → old_tip old mo → torn new old mo mn d →
  ∃ d' c mid, replay d = Ok (true, d') ∧ db_best_block d' = Some new ∧ db_head_blocks d' = None ∧ db_coins d' = mn ∧
    cache_of d new old = Ok (Some c) ∧ db_BatchWrite_trace batch_full d (cacheCoins c) (hashBlock c) true = Ok (true, ∅, d', mid) ∧
    ∀ e, e ∈ mid → torn new old mo mn e.
Proof.
  intros Hur Hnew Hold Htorn. destruct (replay_cache_spec new old mo mn d Hur Hnew Hold Htorn) as (c & h & E & Hc).
  destruct (torn_write new old mo mn d c h (proj1 Hnew) (torn_old_tip _ _ _ _ _ Htorn) (proj2 (proj2 Htorn)) Hc) as (d' & mid & Ew & H1 & H2 & H3 & H4).
  exists d', (SetBestBlock c new), mid. split_and!; try done. unfold ReplayBlocks, db_GetHeadBlocks. rewrite (proj1 (proj2 Htorn)). cbn [default from_option id].
  rewrite E. cbn [rbind]. unfold Flush. cbn [view_BatchWrite CCoinsViewDB_view]. unfold db_BatchWrite.
  destruct Hc as ([Eb _] & _). cbn [base SetBestBlock hashBlock cacheCoins]. rewrite <- Eb, Ew. done.
Qed.

End Recovery.
End ReplayFacts.

(** * Properties *)

Module ReplayProps.
Import Replay ReplayFacts.

Section Props.
Context (batch_full : list db_op → bool).
Context (Hash : list Z → uint256) (GetBlockHash : CBlockHeader → uint256) (params : Params).
Context (signet : CBlockHeader * list CTransaction → bool).
Context (hashes : script_hashes) (lib : sig_lib) (script_cached : CTransaction → Z → bool) (founder : option CScript).
Context (m0 : BlockMap) (content : uint256 → CBlock) (block_files : gmap uint256 CBlock) (undo_files : gmap uint256 CBlockUndo).
Abbreviation cache_of := (replay_cache batch_full Hash m0 block_files undo_files).
Abbreviation new_tip := (new_tip Hash GetBlockHash params signet hashes lib script_cached founder m0 content block_files).
Abbreviation old_tip := (old_tip Hash GetBlockHash params signet hashes lib script_cached founder m0 content block_files undo_files).
Abbreviation undo_right := (undo_right Hash GetBlockHash params signet hashes lib script_cached founder m0 content).

(** The databases a crash can leave: while the cache [c] is written, or while a
    replay of such a database is written. *)
Inductive interrupted (c : CCoinsViewCache CCoinsViewDB) : CCoinsViewDB → Prop :=
| crash_in_flush r db' mid d :
    db_BatchWrite_trace batch_full (base c) (cacheCoins c) (hashBlock c) true = Ok (r, db', mid) → d ∈ mid → interrupted c d
| crash_in_replay d new old c' r db' mid d' :
    interrupted c d → db_GetHeadBlocks d = [new; old] → cache_of d new old = Ok (Some c') →
    db_BatchWrite_trace batch_full d (cacheCoins c') (hashBlock c') true = Ok (r, db', mid) → d' ∈ mid → interrupted c d'.

(** C7: A crash never corrupts the coins.  The coin cache of tip [new] is being
    written over the database of tip [old], the node stops after any number of
    the batches, and perhaps again while it recovers.  Then [ReplayBlocks]
    succeeds and leaves the database with exactly the unspent set of [new],
    whether the two tips are on one branch or a reorganisation lies between
    them. *)
Theorem crash_recovery (c : CCoinsViewCache CCoinsViewDB) (new old : uint256) (mo mn : utxo_set) d :
  wf_tree m0 → (∀ p idx q, m0 !! p = Some idx → pprev idx = Some q → content_ok Hash GetBlockHash params signet content p idx q) →
  undo_right undo_files → new_tip new mn → old_tip old mo →
  db_GetBestBlock (base c) = old → db_head_blocks (base c) = None → db_coins (base c) = mo →
  hashBlock c = new → map_fits (db_utxo (base c)) (cacheCoins c) → (∀ o, cache_utxo (utxo := db_utxo) c o = mn !! o) →
  interrupted c d →
  ∃ d', ReplayBlocks batch_full Hash m0 block_files undo_files d = Ok (true, d') ∧
    db_best_block d' = Some new ∧ db_head_blocks d' = None ∧ db_coins d' = mn.
Proof.
  intros Hwf Hcontent Hur Hnew Hold Hb Hh Hm Hc Hfit Hu Hint. pose proof (proj1 Hnew) as Hnn.
  assert (torn new old mo mn d) as Ht.
  { induction Hint as [r db' mid d E Hd|d new' old' c' r db' mid d' _ IH Eh Ec Ew Hd'].
    - destruct (torn_write batch_full new old mo mn (base c) c new Hnn) as (d1 & mid1 & E1 & _ & _ & _ & Hmid).
      + unfold db_old_tip, db_GetHeadBlocks. rewrite Hb, Hh. by destruct (IsNull256 old).
      + rewrite Hm. intros o. by left.
      + split_and!; [by split|done|]. unfold cache_best. by rewrite Hc, Hnn.
      + rewrite Hc, E1 in E. injection E as _ _ <-. by apply Hmid.
    - destruct (replay_recovers batch_full Hash GetBlockHash params signet hashes lib script_cached founder m0 content block_files undo_files
        Hwf Hcontent new old mo mn d Hur Hnew Hold IH) as (d1 & c1 & mid1 & _ & _ & _ & _ & Ec1 & Ew1 & Hmid).
      unfold db_GetHeadBlocks in Eh. rewrite (proj1 (proj2 IH)) in Eh. cbn in Eh. injection Eh as <- <-.
      rewrite Ec1 in Ec. injection Ec as <-. rewrite Ew1 in Ew. injection Ew as _ _ <-. by apply Hmid. }
  destruct (replay_recovers batch_full Hash GetBlockHash params signet hashes lib script_cached founder m0 content block_files undo_files
    Hwf Hcontent new old mo mn d Hur Hnew Hold Ht) as (d' & _ & _ & E & H1 & H2 & H3 & _). by exists d'.
Qed.

End Props.

(** ** A node stopped between the genesis and block 9 *)

Import EngineProps FullNodeProps Family Node.

Definition hash_9 : uint256 := digits_of 8 32 9.
Definition coins_9 : utxo_set := db_coins (base (tip_view (coins_tip state_9))).
(** The cache of block 9 over the database of the genesis. *)
Definition cache_9 : CCoinsViewCache CCoinsViewDB :=
  mkCache (mkDB ∅ (Some genesis_hash) None) hash_9 ((fun k => mkEntry k 1) <$> coins_9)
    (recomputed_usage (map_to_list ((fun k => mkEntry k 1) <$> coins_9))).
(** Every entry is a batch of its own, and the write of the last is lost. *)
Definition db_torn : CCoinsViewDB :=
  match db_BatchWrite_trace (fun _ => true) (base cache_9) (cacheCoins cache_9) hash_9 true with
  | Ok (_, _, d :: _) => d
  | _ => base cache_9
  end.

Abbreviation demo_new_tip := (new_tip demo_Hash demo_GetHash demo_params (fun _ => true) demo_hashes ConnectProps.demo_lib (fun _ _ => false) None
  (index state_9) demo_content (block_files state_9)).
Abbreviation demo_old_tip := (old_tip demo_Hash demo_GetHash demo_params (fun _ => true) demo_hashes ConnectProps.demo_lib (fun _ _ => false) None
  (index state_9) demo_content (block_files state_9) (undo_files (coins_tip state_9))).
Abbreviation demo_undo_right := (undo_right demo_Hash demo_GetHash demo_params (fun _ => true) demo_hashes ConnectProps.demo_lib (fun _ _ => false) None
  (index state_9) demo_content).

(** What the state after block 9 has on disk. *)
Lemma state_9_disk : wf_tree (index state_9) ∧ demo_lawful (index state_9) ∧ demo_undo_right (undo_files (coins_tip state_9)) ∧
  demo_new_tip hash_9 coins_9 ∧ demo_old_tip genesis_hash ∅.
Proof.
  destruct state_9_tidy as (tip & [[Kt Kc _ _ _ Kco Kf _ _] _ _ Hl _]). pose proof (to_wf _ _ Kt) as Hwf.
  destruct Kco as (tip2 & m & Hch & _ & Hcu & Hv & Hur & _).
  assert (tip2 = hash_9) as ->.
  { pose proof (chain_of_Tip _ Hwf _ _ Hch) as Ht. vm_compute in Ht. by injection Ht as <-. }
  assert (m = coins_9) as ->.
  { apply map_eq. intros o. destruct Hv as (_ & Hu & _). rewrite <- Hu. unfold cache_utxo, look.
    replace (cacheCoins (tip_view (coins_tip state_9))) with (∅ : CCoinsMap) by (vm_compute; reflexivity). by rewrite lookup_empty. }
  split_and!; [done|done|done| |].
  - split; [reflexivity|]. exists (m_chain state_9). split_and!; [done|done|]. intros p idx q Hp Hidx Hq.
    assert (p = hash_9 ∨ p = genesis_hash) as [-> | ->].
    { assert (m_chain state_9 = [Some genesis_hash; Some hash_9]) as E by (vm_compute; reflexivity). rewrite E in Hp.
      apply elem_of_cons in Hp as [[= ->]|[= ->]%list_elem_of_singleton]; auto. }
    + exists (demo_block 9). split; vm_compute; reflexivity.
    + vm_compute in Hidx. injection Hidx as <-. discriminate Hq.
  - assert (index state_9 !! genesis_hash = Some genesis_entry) as Hg by (vm_compute; reflexivity).
    assert (chain_of (index state_9) genesis_hash [Some genesis_hash]) as Hchg.
    { exists genesis_entry. split; [done|]. split; [reflexivity|]. intros i p Hp.
      destruct (is_anc_inv _ Hwf genesis_hash genesis_entry _ _ Hg Hp) as [[Hi ->]|(_ & q & Hq & _)]; [|done]. cbn in Hi. by replace i with 0%nat by lia. }
    assert (∀ p idx q, Some p ∈ [Some genesis_hash] → index state_9 !! p = Some idx → pprev idx = Some q → False) as Hno.
    { intros p idx q [= ->]%list_elem_of_singleton Hidx Hq. rewrite Hg in Hidx. injection Hidx as <-. discriminate Hq. }
    split; [split; [reflexivity|]|]; exists [Some genesis_hash].
    + split_and!; [done|constructor|]. intros p idx q Hp Hidx Hq. by destruct (Hno p idx q).
    + split; [done|]. intros p idx q Hp Hidx Hq. by destruct (Hno p idx q).
Qed.

Lemma crash_recovery_witness :
  db_head_blocks db_torn = Some [hash_9; genesis_hash] ∧
  ∃ d', ReplayBlocks (fun _ => true) demo_Hash (index state_9) (block_files state_9) (undo_files (coins_tip state_9)) db_torn = Ok (true, d') ∧
    db_best_block d' = Some hash_9 ∧ db_head_blocks d' = None ∧ db_coins d' = coins_9.
Proof.
  split; [vm_compute; reflexivity|]. destruct state_9_disk as (Hwf & Hl & Hur & Hnew & Hold).
  apply (crash_recovery (fun _ => true) demo_Hash demo_GetHash demo_params (fun _ => true) demo_hashes ConnectProps.demo_lib (fun _ _ => false) None
    (index state_9) demo_content (block_files state_9) (undo_files (coins_tip state_9)) cache_9 hash_9 genesis_hash ∅ coins_9 db_torn
    Hwf Hl Hur Hnew Hold); [reflexivity..| | |].
  - intros o e. cbn [cacheCoins cache_9]. rewrite lookup_fmap. destruct (coins_9 !! o); [|done]. intros [= <-]. apply entry_ok_dirty.
  - intros o. unfold cache_utxo, look. cbn [cacheCoins cache_9 base]. rewrite lookup_fmap.
    destruct (coins_9 !! o) as [k|] eqn:E; [|done]. cbn [fmap option_fmap option_map coin]. apply live_unspent.
    apply (utxo_ok_unspent coins_9) with o; [by eapply new_tip_ok|done].
  - eapply crash_in_flush; [vm_compute; reflexivity|]. vm_compute. apply list_elem_of_here.
Defined.

End ReplayProps.
