(* ===== verification/VersionBits.v ===== *)
(** Deployment of soft forks by miners' signals: [src/versionbits.h],
    [src/versionbits.cpp] and the deployments of [src/deploymentstatus.h] that
    are not buried.

    A [CBlockIndex*] is an optional key of the block tree, [nullptr] being the
    parent of the genesis block.  The checker's virtual functions are the fields
    of a record.  The caches are shared by all calls, so every operation takes
    them and returns them. *)
From Stdlib Require Import ZArith Lia.
From stdpp Require Import gmap.
From S2P Require Import Prelude Arith256 Chain Params Headers.
Import Consensus Chain ChainFacts.
Local Open Scope bb_scope.

Module VersionBits.

Definition VERSIONBITS_TOP_BITS : Z := 0x20000000.
Definition VERSIONBITS_TOP_MASK : Z := 0xE0000000.

Inductive ThresholdState := DEFINED | STARTED | LOCKED_IN | ACTIVE | FAILED.

#[export] Instance ThresholdState_eq_dec : EqDecision ThresholdState.
Proof. solve_decision. Defined.

Abbreviation ThresholdConditionCache := (gmap (option uint256) ThresholdState).

Record BIP9Stats := mkStats {
  period : Z;
  threshold : Z;
  elapsed : Z;
  count : Z;
  possible : bool;
}.

(** [AbstractThresholdConditionChecker] *)
Record ThresholdConditionChecker := mkChecker {
  Condition : CBlockIndex → bool;
  BeginTime : Z;
  EndTime : Z;
  MinActivationHeight : Z;
  Period : Z;
  Threshold : Z;
}.

Section Checker.
Context (m : BlockMap) (c : ThresholdConditionChecker).

(** ** [GetStateFor] *)

(** The last block before the period of the block after [p]. *)
Definition period_parent (p : uint256) : result chain_error (option uint256) :=
  let! b := deref m p in
  GetAncestor m p (nHeight b - Z.rem (nHeight b + 1) (Period c)).

(** The walk back to a block whose state is known; the stack of blocks to
    compute has its back first. *)
Fixpoint walk_back (fuel : nat) (pindexPrev : option uint256) (vToCompute : list uint256) (cache : ThresholdConditionCache)
    : result chain_error (option uint256 * list uint256 * ThresholdConditionCache) :=
  match fuel with
  | O => Err OutOfFuel
  | S fuel =>
      match cache !! pindexPrev with
      | Some _ => Ok (pindexPrev, vToCompute, cache)
      | None =>
          match pindexPrev with
          | None => Ok (None, vToCompute, <[None := DEFINED]> cache)
          | Some p =>
              let! t := GetMedianTimePast m p in
              if t <? BeginTime c then Ok (Some p, vToCompute, <[Some p := DEFINED]> cache)
              else
                let! b := deref m p in
                let! prev := GetAncestor m p (nHeight b - Period c) in
                walk_back fuel prev (p :: vToCompute) cache
          end
      end
  end.

(** The blocks among the last [n] up to [pindexCount] that meet the condition. *)
Fixpoint count_loop (n : nat) (pindexCount : option uint256) : result chain_error Z :=
  match n with
  | O => Ok 0
  | S n =>
      match pindexCount with
      | None => Err NullDeref
      | Some p =>
          let! b := deref m p in
          let! k := count_loop n (pprev b) in
          Ok ((if Condition c b then 1 else 0) + k)
      end
  end.

(** The [switch] on the state before the period that ends with [p]. *)
Definition next_state (p : uint256) (state : ThresholdState) : result chain_error ThresholdState :=
  match state with
  | DEFINED =>
      let! t := GetMedianTimePast m p in
      Ok (if t >=? BeginTime c then STARTED else DEFINED)
  | STARTED =>
      let! count := count_loop (Z.to_nat (Period c)) (Some p) in
      if count >=? Threshold c then Ok LOCKED_IN
      else
        let! t := GetMedianTimePast m p in
        Ok (if t >=? EndTime c then FAILED else STARTED)
  | LOCKED_IN =>
      let! b := deref m p in
      Ok (if nHeight b + 1 >=? MinActivationHeight c then ACTIVE else LOCKED_IN)
  | FAILED => Ok FAILED
  | ACTIVE => Ok ACTIVE
  end.

Fixpoint walk_forward (vToCompute : list uint256) (state : ThresholdState) (cache : ThresholdConditionCache)
    : result chain_error (ThresholdState * ThresholdConditionCache) :=
  match vToCompute with
  | [] => Ok (state, cache)
  | p :: vToCompute =>
      let! stateNext := next_state p state in
      walk_forward vToCompute stateNext (<[Some p := stateNext]> cache)
  end.

(** Each turn of the walk goes down at least one height. *)
Definition walk_fuel (p : option uint256) : nat :=
  match p with
  | Some p => match m !! p with Some b => Z.to_nat (nHeight b) + 2 | None => 1 end
  | None => 1
  end.

Definition GetStateFor (pindexPrev : option uint256) (cache : ThresholdConditionCache)
    : result chain_error (ThresholdState * ThresholdConditionCache) :=
  if BeginTime c =? ALWAYS_ACTIVE then Ok (ACTIVE, cache)
  else if BeginTime c =? NEVER_ACTIVE then Ok (FAILED, cache)
  else
    let! pindexPrev := match pindexPrev with Some p => period_parent p | None => Ok None end in
    let! r := walk_back (walk_fuel pindexPrev) pindexPrev [] cache in
    let '(pindexPrev, vToCompute, cache) := r in
    match cache !! pindexPrev with
    | None => Err AssertFailed
    | Some state => walk_forward vToCompute state cache
    end.

(** ** [GetStateStatisticsFor] *)

(** The [do] loop: the number of blocks met that signal and the vector of
    signals. *)
Fixpoint stats_loop (blocks_in_period : nat) (currentIndex : option uint256) (count : Z) (signalling_blocks : list bool)
    : result chain_error (Z * list bool) :=
  match blocks_in_period with
  | O => Ok (count, signalling_blocks)
  | S blocks_in_period =>
      match currentIndex with
      | None => Err NullDeref
      | Some p =>
          let! b := deref m p in
          if Condition c b
          then stats_loop blocks_in_period (pprev b) (count + 1) (<[blocks_in_period := true]> signalling_blocks)
          else stats_loop blocks_in_period (pprev b) count signalling_blocks
      end
  end.

Definition GetStateStatisticsFor (pindex : option uint256) : result chain_error (BIP9Stats * list bool) :=
  match pindex with
  | None => Ok (mkStats (Period c) (Threshold c) 0 0 false, [])
  | Some p =>
      let! b := deref m p in
      let blocks_in_period := 1 + Z.rem (nHeight b) (Period c) in
      let! r := stats_loop (Z.to_nat blocks_in_period) (Some p) 0 (replicate (Z.to_nat blocks_in_period) false) in
      let '(count, signalling_blocks) := r in
      Ok (mkStats (Period c) (Threshold c) blocks_in_period count (Period c - Threshold c >=? blocks_in_period - count), signalling_blocks)
  end.

(** ** [GetStateSinceHeightFor] *)

Fixpoint since_loop (fuel : nat) (initialState : ThresholdState) (pindexPrev : uint256) (cache : ThresholdConditionCache)
    : result chain_error (Z * ThresholdConditionCache) :=
  match fuel with
  | O => Err OutOfFuel
  | S fuel =>
      let! b := deref m pindexPrev in
      let! previousPeriodParent := GetAncestor m pindexPrev (nHeight b - Period c) in
      match previousPeriodParent with
      | None => Ok (nHeight b + 1, cache)
      | Some q =>
          let! r := GetStateFor (Some q) cache in
          let '(state, cache) := r in
          if decide (state = initialState) then since_loop fuel initialState q cache
          else Ok (nHeight b + 1, cache)
      end
  end.

Definition GetStateSinceHeightFor (pindexPrev : option uint256) (cache : ThresholdConditionCache)
    : result chain_error (Z * ThresholdConditionCache) :=
  if (BeginTime c =? ALWAYS_ACTIVE) || (BeginTime c =? NEVER_ACTIVE) then Ok (0, cache)
  else
    let! r := GetStateFor pindexPrev cache in
    let '(initialState, cache) := r in
    if decide (initialState = DEFINED) then Ok (0, cache)
    else
      match pindexPrev with
      | None => Err NullDeref
      | Some p =>
          let! q := period_parent p in
          match q with
          | None => Err AssertFailed
          | Some q => since_loop (walk_fuel (Some q)) initialState q cache
          end
      end.

End Checker.

(** ** [VersionBitsConditionChecker] and [VersionBitsCache] *)

Section Cache.
Context (m : BlockMap) (params : Params).

Definition Mask (pos : DeploymentPos) : Z := u32 (Z.shiftl 1 (bit (vDeployments params pos))).

(** [nVersion] is an [int32_t]; the masks make the operands unsigned. *)
Definition VersionBitsCondition (pos : DeploymentPos) (b : CBlockIndex) : bool :=
  (Z.land (u32 (nVersion b)) VERSIONBITS_TOP_MASK =? VERSIONBITS_TOP_BITS) &&
  negb (Z.land (u32 (nVersion b)) (Mask pos) =? 0).

Definition VersionBitsConditionChecker (pos : DeploymentPos) : ThresholdConditionChecker :=
  mkChecker (VersionBitsCondition pos) (nStartTime (vDeployments params pos)) (nTimeout (vDeployments params pos))
    (min_activation_height (vDeployments params pos)) (nMinerConfirmationWindow params) (nRuleChangeActivationThreshold params).

(** [m_caches] *)
Record VersionBitsCache := mkCaches {
  cache_testdummy : ThresholdConditionCache;
  cache_taproot : ThresholdConditionCache;
}.
Definition m_caches (s : VersionBitsCache) (pos : DeploymentPos) : ThresholdConditionCache :=
  match pos with DEPLOYMENT_TESTDUMMY => cache_testdummy s | DEPLOYMENT_TAPROOT => cache_taproot s end.
Definition set_cache (s : VersionBitsCache) (pos : DeploymentPos) (cache : ThresholdConditionCache) : VersionBitsCache :=
  match pos with
  | DEPLOYMENT_TESTDUMMY => mkCaches cache (cache_taproot s)
  | DEPLOYMENT_TAPROOT => mkCaches (cache_testdummy s) cache
  end.

Definition State (s : VersionBitsCache) (pindexPrev : option uint256) (pos : DeploymentPos)
    : result chain_error (ThresholdState * VersionBitsCache) :=
  let! r := GetStateFor m (VersionBitsConditionChecker pos) pindexPrev (m_caches s pos) in
  let '(state, cache) := r in
  Ok (state, set_cache s pos cache).

Definition Statistics (pindex : option uint256) (pos : DeploymentPos) : result chain_error (BIP9Stats * list bool) :=
  GetStateStatisticsFor m (VersionBitsConditionChecker pos) pindex.

Definition StateSinceHeight (s : VersionBitsCache) (pindexPrev : option uint256) (pos : DeploymentPos)
    : result chain_error (Z * VersionBitsCache) :=
  let! r := GetStateSinceHeightFor m (VersionBitsConditionChecker pos) pindexPrev (m_caches s pos) in
  let '(height, cache) := r in
  Ok (height, set_cache s pos cache).

Fixpoint version_loop (l : list DeploymentPos) (s : VersionBitsCache) (pindexPrev : option uint256) (nVersion : Z)
    : result chain_error (Z * VersionBitsCache) :=
  match l with
  | [] => Ok (nVersion, s)
  | pos :: l =>
      let! r := State s pindexPrev pos in
      let '(state, s) := r in
      let nVersion := if decide (state = LOCKED_IN ∨ state = STARTED) then Z.lor nVersion (Mask pos) else nVersion in
      version_loop l s pindexPrev nVersion
  end.

Definition ComputeBlockVersion (s : VersionBitsCache) (pindexPrev : option uint256) : result chain_error (Z * VersionBitsCache) :=
  let! r := version_loop [DEPLOYMENT_TESTDUMMY; DEPLOYMENT_TAPROOT] s pindexPrev VERSIONBITS_TOP_BITS in
  let '(v, s) := r in
  Ok (i32 v, s).

Definition Clear (s : VersionBitsCache) : VersionBitsCache := mkCaches ∅ ∅.

(** [DeploymentActiveAfter] and [DeploymentActiveAt] for these deployments *)
Definition BIP9ActiveAfter (s : VersionBitsCache) (pindexPrev : option uint256) (dep : DeploymentPos)
    : result chain_error (bool * VersionBitsCache) :=
  let! r := State s pindexPrev dep in
  let '(state, s) := r in
  Ok (bool_decide (state = ACTIVE), s).
Definition BIP9ActiveAt (s : VersionBitsCache) (index : CBlockIndex) (dep : DeploymentPos)
    : result chain_error (bool * VersionBitsCache) := BIP9ActiveAfter s (pprev index) dep.
Definition DeploymentEnabled (dep : DeploymentPos) : bool := negb (nStartTime (vDeployments params dep) =? NEVER_ACTIVE).

End Cache.
End VersionBits.

(** * The state machine of BIP 9 *)
Module VersionBitsSpec.
Import VersionBits.

Section Spec.
Context (m : BlockMap) (c : ThresholdConditionChecker).

(** The entries of the last [n] blocks up to [p]. *)
Inductive last_blocks : nat → option uint256 → list CBlockIndex → Prop :=
| last_none p : last_blocks 0 p []
| last_more n p b l : m !! p = Some b → last_blocks n (pprev b) l → last_blocks (S n) (Some p) (b :: l).

Definition signals (l : list CBlockIndex) : Z := Z.of_nat (length (List.filter (Condition c) l)).

(** How the period whose last block is [p] changes the state. *)
Inductive bip9_step (p : uint256) : ThresholdState → ThresholdState → Prop :=
| defined_waits t : GetMedianTimePast m p = Ok t → t < BeginTime c → bip9_step p DEFINED DEFINED
| defined_starts t : GetMedianTimePast m p = Ok t → BeginTime c <= t → bip9_step p DEFINED STARTED
| started_locks l : last_blocks (Z.to_nat (Period c)) (Some p) l → Threshold c <= signals l → bip9_step p STARTED LOCKED_IN
| started_fails l t : last_blocks (Z.to_nat (Period c)) (Some p) l → signals l < Threshold c →
    GetMedianTimePast m p = Ok t → EndTime c <= t → bip9_step p STARTED FAILED
| started_waits l t : last_blocks (Z.to_nat (Period c)) (Some p) l → signals l < Threshold c →
    GetMedianTimePast m p = Ok t → t < EndTime c → bip9_step p STARTED STARTED
| locked_activates b : m !! p = Some b → MinActivationHeight c <= nHeight b + 1 → bip9_step p LOCKED_IN ACTIVE
| locked_waits b : m !! p = Some b → nHeight b + 1 < MinActivationHeight c → bip9_step p LOCKED_IN LOCKED_IN
| active_stays : bip9_step p ACTIVE ACTIVE
| failed_stays : bip9_step p FAILED FAILED.

(** The last block of the period before the one that ends with [p]. *)
Definition period_before (p : uint256) (q : option uint256) : Prop :=
  ∃ b, m !! p = Some b ∧ (nHeight b + 1) mod Period c = 0 ∧
    match q with
    | Some q => is_anc m p (nHeight b - Period c) q
    | None => nHeight b + 1 = Period c
    end.

(** The state of the period after the one that ends with [p]. *)
Inductive bip9_state : option uint256 → ThresholdState → Prop :=
| bip9_genesis : bip9_state None DEFINED
| bip9_period p q s s' : period_before p q → bip9_state q s → bip9_step p s s' → bip9_state (Some p) s'.

(** The last block before the period that the child of [p] belongs to. *)
Definition last_period (p q : option uint256) : Prop :=
  match p with
  | None => q = None
  | Some p =>
      ∃ b, m !! p = Some b ∧
        match q with
        | Some q => is_anc m p (nHeight b - (nHeight b + 1) mod Period c) q
        | None => nHeight b + 1 < Period c
        end
  end.

(** The state of the child of [p]. *)
Definition state_after (p : option uint256) (s : ThresholdState) : Prop := ∃ q, last_period p q ∧ bip9_state q s.

(** What a cache may hold. *)
Definition cache_ok (cache : ThresholdConditionCache) : Prop := ∀ p s, cache !! p = Some s → bip9_state p s.

End Spec.

(** Blocks are later than the median of their ancestors. *)
Definition times_ok (m : BlockMap) : Prop :=
  ∀ p b q t, m !! p = Some b → pprev b = Some q → GetMedianTimePast m q = Ok t → t < nTime b.

End VersionBitsSpec.

Module VersionBitsFacts.
Import VersionBits VersionBitsSpec.

Create HintDb bip9.
#[local] Hint Constructors bip9_step bip9_state last_blocks : bip9.
#[local] Hint Extern 2 (_ <= _) => lia : bip9.
#[local] Hint Extern 2 (_ < _) => lia : bip9.

Section Facts.
Context (m : BlockMap) (c : ThresholdConditionChecker).
Context (Hwf : wf_tree m) (Htimes : times_ok m) (Hperiod : 0 < Period c).

(** ** The specification is a function *)

Lemma last_blocks_fun n p l l' : last_blocks m n p l → last_blocks m n p l' → l = l'.
Proof.
  intros H. revert l'. induction H as [p|n p b l Hb H IH]; intros l' H'; inversion H'; simplify_eq/=; [done|].
  f_equal. by apply IH.
Qed.

Lemma bip9_step_fun p s s1 s2 : bip9_step m c p s s1 → bip9_step m c p s s2 → s1 = s2.
Proof.
  intros H1 H2. destruct H1; inversion H2; simplify_eq/=; try done;
    repeat match goal with
    | A : GetMedianTimePast _ _ = Ok _, B : GetMedianTimePast _ _ = Ok _ |- _ => rewrite A in B; injection B as ->
    | A : last_blocks _ _ _ _, B : last_blocks _ _ _ _ |- _ => pose proof (last_blocks_fun _ _ _ _ A B); clear A; simplify_eq
    end; lia.
Qed.

Lemma period_before_fun p q q' : period_before m c p q → period_before m c p q' → q = q'.
Proof.
  intros (b & Hb & Hm & Hq) (b' & Hb' & _ & Hq'). simplify_eq. destruct q as [q|], q' as [q'|]; [|..|done].
  - f_equal. by apply (is_anc_fun m Hwf p (nHeight b - Period c)).
  - destruct (is_anc_lookup m Hwf _ _ _ Hq) as (? & b' & ? & Hb'' & H & ?). lia.
  - destruct (is_anc_lookup m Hwf _ _ _ Hq') as (? & b' & ? & Hb'' & H & ?). lia.
Qed.

Lemma bip9_state_fun p s s' : bip9_state m c p s → bip9_state m c p s' → s = s'.
Proof.
  intros H. revert s'. induction H as [|p q s s' Hb H IH Hs]; intros s'' H'; inversion H' as [|? q' s0 ? Hb' H0 Hs']; subst; [done|].
  assert (q = q') as -> by (by eapply period_before_fun). rewrite <- (IH s0 H0) in Hs'. by eapply bip9_step_fun.
Qed.

(** ** Counting *)

Lemma count_loop_spec n p b :
  m !! p = Some b → Z.of_nat n <= nHeight b + 1 →
  ∃ l, last_blocks m n (Some p) l ∧ count_loop m c n (Some p) = Ok (signals c l).
Proof.
  revert p b. induction n as [|n IH]; intros p b Hb Hn; [exists []; split; [constructor|done]|].
  cbn [count_loop]. unfold deref. rewrite Hb. cbn [rbind].
  assert (∃ l, last_blocks m n (pprev b) l ∧ count_loop m c n (pprev b) = Ok (signals c l)) as (l & Hl & ->).
  { destruct n as [|n]; [exists []; split; [constructor|done]|]. destruct (Hwf p b Hb) as [_ Hp].
    destruct (pprev b) as [q|]; [|lia]. destruct Hp as [(b' & Hb' & Hh) _]. apply (IH q b'); [done|lia]. }
  exists (b :: l). split; [by constructor|]. cbn [rbind]. unfold signals. cbn [List.filter].
  destruct (Condition c b); cbn [length]; f_equal; lia.
Qed.

(** ** Periods *)

Definition boundary (p : option uint256) : Prop :=
  match p with Some p => ∃ b, m !! p = Some b ∧ (nHeight b + 1) mod Period c = 0 | None => True end.

Lemma period_before_exists p b :
  m !! p = Some b → (nHeight b + 1) mod Period c = 0 →
  ∃ q, period_before m c p q ∧ GetAncestor m p (nHeight b - Period c) = Ok q ∧ boundary q.
Proof.
  intros Hb Hm. destruct (Hwf p b Hb) as [H0 _]. apply Z.mod_divide in Hm as [k Hk]; [|lia].
  destruct (GetAncestor_spec m Hwf p b (nHeight b - Period c) Hb) as [Hin Hout].
  destruct (decide (nHeight b + 1 = Period c)) as [E|E].
  - exists None. split_and!; [|apply Hout; lia|done]. exists b. rewrite E, Z_mod_same_full. done.
  - assert (k ≠ 1) by (intros ->; lia). assert (0 < k) by nia. assert (2 <= k) by lia. destruct Hin as (q & Eq & Hq); [nia|]. exists (Some q). split_and!; [|done|].
    + exists b. rewrite Hk, Z_mod_mult. done.
    + destruct (is_anc_lookup m Hwf _ _ _ Hq) as (? & b' & ? & Hb' & Hh & ?). exists b'. split; [done|].
      replace (nHeight b' + 1) with ((k - 1) * Period c) by lia. apply Z_mod_mult.
Qed.

Lemma period_parent_spec p b :
  m !! p = Some b → ∃ q, period_parent m c p = Ok q ∧ last_period m c (Some p) q ∧ boundary q.
Proof.
  intros Hb. destruct (Hwf p b Hb) as [H0 _]. unfold period_parent, deref. rewrite Hb. cbn [rbind].
  rewrite Z.rem_mod_nonneg by lia. pose proof (Z.mod_pos_bound (nHeight b + 1) (Period c) Hperiod).
  destruct (GetAncestor_spec m Hwf p b (nHeight b - (nHeight b + 1) mod Period c) Hb) as [Hin Hout].
  pose proof (Z.div_mod (nHeight b + 1) (Period c) ltac:(lia)) as Hd.
  pose proof (Z.mod_le (nHeight b + 1) (Period c) ltac:(lia) Hperiod).
  destruct (decide (nHeight b + 1 < Period c)) as [E|E].
  - exists None. split_and!; [|by exists b|done]. rewrite Z.mod_small in Hout |- * by lia. apply Hout. lia.
  - assert (0 < (nHeight b + 1) / Period c) by (apply Z.div_str_pos; lia). destruct Hin as (q & Eq & Hq); [nia|].
    exists (Some q). split_and!; [done|by exists b|].
    destruct (is_anc_lookup m Hwf _ _ _ Hq) as (? & b' & ? & Hb' & Hh & ?). exists b'. split; [done|].
    replace (nHeight b' + 1) with ((nHeight b + 1) / Period c * Period c) by lia. apply Z_mod_mult.
Qed.

Lemma boundary_height p b : m !! p = Some b → (nHeight b + 1) mod Period c = 0 → Period c <= nHeight b + 1.
Proof.
  intros Hb Hm. destruct (Hwf p b Hb) as [H0 _]. apply Z.mod_divide in Hm as [k Hk]; [|lia]. assert (0 < k) by nia. nia.
Qed.

Lemma next_state_spec p s : boundary (Some p) → ∃ s', next_state m c p s = Ok s' ∧ bip9_step m c p s s'.
Proof.
  intros (b & Hb & Hm). pose proof (boundary_height p b Hb Hm).
  destruct (GetMedianTimePast_total m p b Hwf Hb) as [t Ht].
  destruct (count_loop_spec (Z.to_nat (Period c)) p b Hb ltac:(lia)) as (l & Hl & Hc).
  destruct s; cbn [next_state]; unfold deref; rewrite ?Ht, ?Hc, ?Hb; cbn [rbind]; repeat split_if; eexists; (split; [reflexivity|]).
  all: eauto with bip9.
Qed.

(** ** Before the start time *)

Lemma median_anc p h q tp tq :
  is_anc m p h q → GetMedianTimePast m p = Ok tp → GetMedianTimePast m q = Ok tq → tq <= tp.
Proof.
  intros Ha. revert tp. induction Ha as [p b Hb|p b q h r Hb Hq Ha IH]; intros tp Hp Hr; [rewrite Hp in Hr; injection Hr as ->; lia|].
  destruct (Hwf p b Hb) as [_ Hpp]. rewrite Hq in Hpp. destruct Hpp as [(b' & Hb' & _) _].
  destruct (GetMedianTimePast_total m q b' Hwf Hb') as [t Ht]. specialize (IH t Ht Hr).
  destruct (GetMedianTimePast_monotone m p b q t Hb Hq Ht (Htimes p b q t Hb Hq Ht)) as (tp' & Hp' & Hle).
  rewrite Hp in Hp'. injection Hp' as ->. lia.
Qed.

Lemma early_defined n p b t :
  nHeight b < Z.of_nat n → m !! p = Some b → (nHeight b + 1) mod Period c = 0 →
  GetMedianTimePast m p = Ok t → t < BeginTime c → bip9_state m c (Some p) DEFINED.
Proof.
  revert p b t. induction n as [|n IH]; intros p b t Hn Hb Hm Ht Hlt; [destruct (Hwf p b Hb); lia|].
  destruct (period_before_exists p b Hb Hm) as (q & Hq & _ & Hbq). apply (bip9_period m c p q DEFINED); [done| |by apply (defined_waits m c p t)].
  destruct q as [q|]; [|constructor]. destruct Hbq as (b' & Hb' & Hm'). destruct Hq as (? & Hb2 & _ & Ha). simplify_eq.
  destruct (is_anc_lookup m Hwf _ _ _ Ha) as (? & b'' & ? & Hb'' & Hh & ?). simplify_eq.
  destruct (GetMedianTimePast_total m q b' Hwf Hb') as [t' Ht']. pose proof (median_anc p _ q t t' Ha Ht Ht').
  apply (IH q b' t'); done || lia.
Qed.

(** ** The walks *)

(** Consecutive periods, from the one after [p] to the one that ends with [top]. *)
Inductive path : option uint256 → list uint256 → option uint256 → Prop :=
| path_nil p : path p [] p
| path_cons p q v top : period_before m c q p → path (Some q) v top → path p (q :: v) top.

Lemma cache_ok_insert cache p s : cache_ok m c cache → bip9_state m c p s → cache_ok m c (<[p := s]> cache).
Proof. intros Hc Hs q s' [[-> ->]|[_ H]]%lookup_insert_Some; [done|by apply Hc]. Qed.

Lemma walk_back_spec fuel p v cache top :
  cache_ok m c cache → boundary p → path p v top → (walk_fuel m p <= fuel)%nat →
  ∃ k v' cache' s, walk_back m c fuel p v cache = Ok (k, v', cache') ∧ path k v' top ∧
    cache_ok m c cache' ∧ cache' !! k = Some s.
Proof.
  revert p v. induction fuel as [|fuel IH]; intros p v Hc Hb Hp Hf.
  { destruct p as [p|]; cbn in Hf; [|lia]. destruct (m !! p); lia. }
  cbn [walk_back]. destruct (cache !! p) as [s|] eqn:Es; [by exists p, v, cache, s|].
  destruct p as [p|].
  2:{ exists None, v, (<[None := DEFINED]> cache), DEFINED. split_and!; [done|done| |apply lookup_insert_eq].
      apply cache_ok_insert; [done|constructor]. }
  destruct Hb as (b & Hb & Hm). destruct (GetMedianTimePast_total m p b Hwf Hb) as [t Ht]. rewrite Ht. cbn [rbind].
  destruct (Z.ltb_spec t (BeginTime c)).
  { exists (Some p), v, (<[Some p := DEFINED]> cache), DEFINED. split_and!; [done|done| |apply lookup_insert_eq].
    apply cache_ok_insert; [done|]. destruct (Hwf p b Hb) as [H0 _]. apply (early_defined (S (Z.to_nat (nHeight b))) p b t); done || lia. }
  unfold deref. rewrite Hb. cbn [rbind]. destruct (period_before_exists p b Hb Hm) as (q & Hq & -> & Hbq). cbn [rbind].
  apply IH; [done|done|by constructor|]. cbn in Hf. rewrite Hb in Hf. destruct (Hwf p b Hb) as [H0 _].
  destruct q as [q|]; cbn; [|lia]. destruct Hq as (? & Hb2 & _ & Ha). simplify_eq.
  destruct (is_anc_lookup m Hwf _ _ _ Ha) as (? & b'' & ? & Hb'' & Hh & ?). simplify_eq. rewrite Hb''. lia.
Qed.

Lemma path_boundary k v top q : path k (q :: v) top → boundary (Some q).
Proof. inversion 1 as [|? ? ? ? (b & Hb & Hm & _)]; subst. by exists b. Qed.

Lemma walk_forward_spec v k s cache top :
  path k v top → bip9_state m c k s → cache_ok m c cache →
  ∃ s' cache', walk_forward m c v s cache = Ok (s', cache') ∧ bip9_state m c top s' ∧ cache_ok m c cache'.
Proof.
  revert k s cache. induction v as [|q v IH]; intros k s cache Hp Hs Hc.
  - inversion Hp; subst. by exists s, cache.
  - cbn [walk_forward]. destruct (next_state_spec q s (path_boundary _ _ _ _ Hp)) as (s' & -> & Hstep). cbn [rbind].
    inversion Hp as [|? ? ? ? Hb Hp']; subst. pose proof (bip9_period m c q k s s' Hb Hs Hstep) as Hs'.
    apply (IH (Some q)); [done|done|by apply cache_ok_insert].
Qed.

Definition known (p : option uint256) : Prop := match p with Some p => is_Some (m !! p) | None => True end.

Lemma GetStateFor_spec p cache :
  BeginTime c ≠ ALWAYS_ACTIVE → BeginTime c ≠ NEVER_ACTIVE → known p → cache_ok m c cache →
  ∃ s cache', GetStateFor m c p cache = Ok (s, cache') ∧ state_after m c p s ∧ cache_ok m c cache'.
Proof.
  intros HA HN Hp Hc. unfold GetStateFor. destruct (Z.eqb_spec (BeginTime c) ALWAYS_ACTIVE); [done|].
  destruct (Z.eqb_spec (BeginTime c) NEVER_ACTIVE); [done|].
  assert (∃ q, match p with Some p => period_parent m c p | None => Ok None end = Ok q ∧ last_period m c p q ∧ boundary q) as (q & -> & Hl & Hb).
  { destruct p as [p|]; [destruct Hp as [b Hb]; by apply (period_parent_spec p b)|by exists None]. }
  cbn [rbind]. destruct (walk_back_spec (walk_fuel m q) q [] cache q Hc Hb (path_nil q) ltac:(lia)) as (k & v & cache' & s & -> & Hpath & Hc' & Es).
  cbn [rbind]. rewrite Es. destruct (walk_forward_spec v k s cache' q Hpath (Hc' _ _ Es) Hc') as (s' & cache'' & -> & Hs' & Hc'').
  exists s', cache''. split_and!; [done|by exists q|done].
Qed.

(** ** Along a chain *)

Lemma last_period_fun p q q' : last_period m c p q → last_period m c p q' → q = q'.
Proof.
  destruct p as [p|]; [|intros -> ->; done]. intros (b & Hb & Hq) (b' & Hb' & Hq'). simplify_eq.
  pose proof (Z.mod_pos_bound (nHeight b + 1) (Period c) Hperiod). destruct (Hwf p b Hb) as [H0 _].
  destruct q as [q|], q' as [q'|]; [|..|done].
  - f_equal. by eapply is_anc_fun.
  - destruct (is_anc_lookup m Hwf _ _ _ Hq) as (? & ? & ? & ? & ? & ?). rewrite Z.mod_small in * by lia. lia.
  - destruct (is_anc_lookup m Hwf _ _ _ Hq') as (? & ? & ? & ? & ? & ?). rewrite Z.mod_small in * by lia. lia.
Qed.

Lemma state_after_fun p s s' : state_after m c p s → state_after m c p s' → s = s'.
Proof.
  intros (q & Hq & Hs) (q' & Hq' & Hs'). assert (q = q') as -> by (by eapply last_period_fun). by eapply bip9_state_fun.
Qed.

Lemma state_after_boundary p s : boundary (Some p) → state_after m c (Some p) s ↔ bip9_state m c (Some p) s.
Proof.
  intros (b & Hb & Hm). assert (last_period m c (Some p) (Some p)) as Hl.
  { exists b. split; [done|]. rewrite Hm, Z.sub_0_r. by constructor. }
  split; [|by exists (Some p)]. intros (q & Hq & Hs). by rewrite (last_period_fun _ _ _ Hl Hq).
Qed.

Lemma path_snoc k v mid q : path k v mid → period_before m c q mid → path k (v ++ [q]) (Some q).
Proof. induction 1 as [p|p q' v top Hb Hp IH]; intros Hq; cbn; (constructor; [done|]); [constructor|by apply IH]. Qed.

Lemma path_final k v top s : path k v top → bip9_state m c k s → s = ACTIVE ∨ s = FAILED → bip9_state m c top s.
Proof.
  induction 1 as [p|p q v top Hb Hp IH]; intros Hs Hf; [done|]. apply IH; [|done].
  apply (bip9_period m c q p s); [done|done|]. destruct Hf as [-> | ->]; constructor.
Qed.

(** The ancestor of [p] at height [z], which may be the parent of the genesis. *)
Definition anc_at (p : uint256) (z : Z) (k : option uint256) : Prop :=
  match k with Some q => is_anc m p z q | None => z = -1 end.

Lemma anc_path n p z k k' :
  is_Some (m !! p) → (z + 1) mod Period c = 0 → anc_at p z k → anc_at p (z + Z.of_nat n * Period c) k' → ∃ v, path k v k'.
Proof.
  intros [bp Hbp] Hm Hk. assert (-1 <= z) as Hz.
  { destruct k as [q|]; [|cbn in Hk; lia]. destruct (is_anc_lookup m Hwf _ _ _ Hk) as (? & ? & ? & ? & ? & ?). lia. }
  revert k'. induction n as [|n IH]; intros k' Hk'.
  - rewrite Z.mul_0_l, Z.add_0_r in Hk'. exists []. assert (k = k') as ->; [|constructor].
    destruct k as [q|], k' as [q'|]; cbn in *; [f_equal; by eapply is_anc_fun|..|done].
    + subst. destruct (is_anc_lookup m Hwf _ _ _ Hk) as (? & ? & ? & ? & ? & ?). lia.
    + subst. destruct (is_anc_lookup m Hwf _ _ _ Hk') as (? & ? & ? & ? & ? & ?). lia.
  - destruct k' as [q'|]; [|cbn in Hk'; nia]. cbn in Hk'.
    destruct (is_anc_lookup m Hwf _ _ _ Hk') as (? & b' & ? & Hb' & Hh & Hle). simplify_eq.
    assert (∃ mid, anc_at p (z + Z.of_nat n * Period c) mid) as [mid Hmid].
    { destruct (decide (z + Z.of_nat n * Period c = -1)) as [E|E]; [by exists None|].
      destruct (is_anc_exists m Hwf p bp (z + Z.of_nat n * Period c)) as [r Hr]; [done|nia|by exists (Some r)]. }
    destruct (IH mid Hmid) as [v Hv]. exists (v ++ [q']). apply (path_snoc _ _ mid); [done|]. exists b'.
    assert ((nHeight b' + 1) mod Period c = 0) as Hmod.
    { replace (nHeight b' + 1) with (z + 1 + Z.of_nat (S n) * Period c) by lia. by rewrite Z_mod_plus_full. }
    split_and!; [done|done|]. destruct mid as [r|]; cbn in Hmid.
    + replace (nHeight b' - Period c) with (z + Z.of_nat n * Period c) by lia.
      apply (is_anc_split m Hwf p (z + Z.of_nat (S n) * Period c)); [done|done|nia].
    + lia.
Qed.

Lemma last_period_anc q b k :
  last_period m c (Some q) k → m !! q = Some b → anc_at q (Period c * ((nHeight b + 1) / Period c) - 1) k.
Proof.
  intros (? & Hb' & Hk) Hb. rewrite Hb in Hb'. injection Hb' as <-. pose proof (Z.div_mod (nHeight b + 1) (Period c) ltac:(lia)) as Hd.
  destruct (Hwf q b Hb) as [H0 _]. destruct k as [k|]; cbn.
  - by replace (Period c * ((nHeight b + 1) / Period c) - 1) with (nHeight b - (nHeight b + 1) mod Period c) by lia.
  - rewrite Z.div_small by lia. lia.
Qed.

(** The periods between a block and a descendant. *)
Lemma descendant_path p h q k k' :
  is_anc m p h q → last_period m c (Some q) k → last_period m c (Some p) k' → ∃ v, path k v k'.
Proof.
  intros Ha Hk Hk'. destruct (is_anc_lookup m Hwf _ _ _ Ha) as (bp & bq & Hbp & Hbq & Hh & Hle).
  apply (last_period_anc q bq) in Hk; [|done]. apply (last_period_anc p bp) in Hk'; [|done].
  pose proof (Z.div_le_mono (nHeight bq + 1) (nHeight bp + 1) (Period c) Hperiod ltac:(lia)).
  apply (anc_path (Z.to_nat ((nHeight bp + 1) / Period c - (nHeight bq + 1) / Period c)) p
    (Period c * ((nHeight bq + 1) / Period c) - 1)); [by exists bp| | |].
  - rewrite Z.sub_add, Z.mul_comm. apply Z_mod_mult.
  - destruct k as [k|]; [|done]. by apply (is_anc_trans m p h q).
  - rewrite Z2Nat.id by lia. by replace (Period c * ((nHeight bq + 1) / Period c) - 1 + _) with (Period c * ((nHeight bp + 1) / Period c) - 1) by lia.
Qed.

Lemma final_descendant p h q s :
  is_anc m p h q → s = ACTIVE ∨ s = FAILED → state_after m c (Some q) s → state_after m c (Some p) s.
Proof.
  intros Ha Hf (k & Hk & Hs). destruct (is_anc_lookup m Hwf _ _ _ Ha) as (bp & _ & Hbp & _).
  destruct (period_parent_spec p bp Hbp) as (k' & _ & Hk' & _). exists k'. split; [done|].
  destruct (descendant_path p h q k k' Ha Hk Hk') as [v Hv]. by apply (path_final k v).
Qed.

(** ** Since which height *)

(** The state [s] holds in the periods after [r], one of [v], ..., up to that
    after [top], and not in the one before. *)
Definition holds_since (top : option uint256) (s : ThresholdState) (r : uint256) : Prop :=
  ∃ v k s0, path (Some r) v top ∧ (∀ x, x ∈ r :: v → bip9_state m c (Some x) s) ∧
    period_before m c r k ∧ bip9_state m c k s0 ∧ s0 ≠ s.

Lemma since_loop_spec fuel s r b v top cache :
  BeginTime c ≠ ALWAYS_ACTIVE → BeginTime c ≠ NEVER_ACTIVE → s ≠ DEFINED → cache_ok m c cache →
  m !! r = Some b → (nHeight b + 1) mod Period c = 0 → nHeight b < Z.of_nat fuel →
  path (Some r) v top → (∀ x, x ∈ r :: v → bip9_state m c (Some x) s) →
  ∃ r' b' cache', since_loop m c fuel s r cache = Ok (nHeight b' + 1, cache') ∧ m !! r' = Some b' ∧
    holds_since top s r' ∧ cache_ok m c cache'.
Proof.
  intros HA HN Hs. revert r b v cache. induction fuel as [|fuel IH]; intros r b v cache Hc Hb Hm Hf Hp Hall; [destruct (Hwf r b Hb); lia|].
  cbn [since_loop]. unfold deref. rewrite Hb. cbn [rbind].
  destruct (period_before_exists r b Hb Hm) as (q & Hq & -> & Hbq). cbn [rbind]. destruct q as [q|].
  2:{ exists r, b, cache. split_and!; [done|done| |done]. exists v, None, DEFINED. split_and!; [done|done|done|constructor|done]. }
  destruct Hbq as (bq & Hbq' & Hmq).
  destruct (GetStateFor_spec (Some q) cache HA HN ltac:(by exists bq) Hc) as (s' & cache' & -> & Hs' & Hc'). cbn [rbind].
  apply state_after_boundary in Hs'; [|by exists bq]. destruct (decide (s' = s)) as [->|Hne].
  - apply (IH q bq (r :: v)); [done|done|done| |by constructor|].
    + destruct Hq as (? & Hb2 & _ & Ha). simplify_eq. destruct (is_anc_lookup m Hwf _ _ _ Ha) as (? & ? & ? & ? & ? & ?). simplify_eq. lia.
    + intros x [->|Hx]%elem_of_cons; [done|by apply Hall].
  - exists r, b, cache'. split_and!; [done|done| |done]. by exists v, (Some q), s'.
Qed.

Lemma GetStateSinceHeightFor_spec p cache :
  BeginTime c ≠ ALWAYS_ACTIVE → BeginTime c ≠ NEVER_ACTIVE → known p → cache_ok m c cache →
  ∃ h s cache', GetStateSinceHeightFor m c p cache = Ok (h, cache') ∧ state_after m c p s ∧ cache_ok m c cache' ∧
    (s = DEFINED → h = 0) ∧
    (s ≠ DEFINED → ∃ q r b, last_period m c p q ∧ holds_since q s r ∧ m !! r = Some b ∧ h = nHeight b + 1).
Proof.
  intros HA HN Hp Hc. unfold GetStateSinceHeightFor.
  destruct (Z.eqb_spec (BeginTime c) ALWAYS_ACTIVE); [done|]. destruct (Z.eqb_spec (BeginTime c) NEVER_ACTIVE); [done|]. cbn [orb].
  destruct (GetStateFor_spec p cache HA HN Hp Hc) as (s & cache' & -> & Hs & Hc'). cbn [rbind].
  destruct (decide (s = DEFINED)) as [->|Hd]; [by exists 0, DEFINED, cache'|].
  pose proof Hs as (q & Hq & Hsq). destruct q as [q|]; [|inversion Hsq; congruence].
  destruct p as [p|]; [|discriminate Hq]. destruct Hp as [bp Hbp].
  destruct (period_parent_spec p bp Hbp) as (q' & -> & Hq' & Hbq). cbn [rbind].
  rewrite (last_period_fun _ _ _ Hq' Hq) in *. destruct Hbq as (b & Hb & Hm).
  destruct (since_loop_spec (walk_fuel m (Some q)) s q b [] (Some q) cache') as (r & b' & cache'' & -> & Hb' & Hr & Hc''); try done.
  - cbn. rewrite Hb. destruct (Hwf q b Hb). lia.
  - constructor.
  - intros x ->%list_elem_of_singleton. done.
  - exists (nHeight b' + 1), s, cache''. split_and!; try done. intros _. by exists (Some q), r, b'.
Qed.

(** ** Statistics *)

Lemma last_blocks_exists n p b : m !! p = Some b → Z.of_nat n <= nHeight b + 1 → ∃ l, last_blocks m n (Some p) l.
Proof. intros Hb Hn. destruct (count_loop_spec n p b Hb Hn) as (l & Hl & _). by exists l. Qed.

Lemma last_blocks_length n p l : last_blocks m n p l → length l = n.
Proof. induction 1; cbn; congruence. Qed.

Lemma stats_loop_spec n p l count sig :
  last_blocks m n p l → (n <= length sig)%nat → take n sig = replicate n false →
  stats_loop m c n p count sig = Ok (count + signals c l, map (Condition c) (rev l) ++ drop n sig).
Proof.
  intros H. revert count sig. induction H as [p|n p b l Hb H IH]; intros count sig Hl Hf; cbn [stats_loop].
  - by rewrite Z.add_0_r, drop_0.
  - unfold deref. rewrite Hb. cbn [rbind]. destruct (lookup_lt_is_Some_2 sig n ltac:(lia)) as [x Hx].
    assert (x = false ∧ take n sig = replicate n false) as [-> Hf'].
    { rewrite (take_S_r _ _ _ Hx), replicate_S_end in Hf. apply app_inj_tail in Hf as [? ?]. done. }
    unfold signals. cbn [List.filter rev]. rewrite map_app. cbn [map]. destruct (Condition c b) eqn:Ec; rewrite IH.
    + rewrite drop_insert_ge by lia. rewrite Nat.sub_diag, (drop_S _ _ _ Hx). cbn [insert list_insert length app]. rewrite <- app_assoc. cbn [app].
      unfold signals. do 2 f_equal. lia.
    + rewrite length_insert. lia.
    + by rewrite take_insert_ge.
    + by rewrite (drop_S _ _ _ Hx), <- app_assoc.
    + lia.
    + done.
Qed.

Lemma last_blocks_split a n p l :
  last_blocks m (a + n) p l → ∃ l1 l2 q, l = l1 ++ l2 ∧ length l1 = a ∧ last_blocks m n q l2 ∧
    (∀ pp b, p = Some pp → m !! pp = Some b → (0 < n)%nat → ∃ qq, q = Some qq ∧ is_anc m pp (nHeight b - Z.of_nat a) qq).
Proof.
  revert p l. induction a as [|a IH]; intros p l H; cbn in H.
  - exists [], l, p. split_and!; [done|done|done|]. intros pp b -> Hb _. exists pp. rewrite Z.sub_0_r. split; [done|by constructor].
  - inversion H as [|? pp b l' Hb H']; subst. destruct (IH (pprev b) l' H') as (l1 & l2 & q & -> & Hl1 & Hq & Ha).
    exists (b :: l1), l2, q. split_and!; [done|cbn; lia|done|]. intros ? ? [= <-] Hb2 Hn. simplify_eq.
    destruct (Hwf pp b Hb) as [_ Hpp]. destruct (pprev b) as [q'|] eqn:Eq.
    + destruct Hpp as [(b' & Hb' & Hh) _]. destruct (Ha q' b' eq_refl Hb' Hn) as (qq & -> & Haq). exists qq. split; [done|].
      apply (anc_prev m pp b q'); [done|done|]. by replace (nHeight b - Z.of_nat (S (length l1))) with (nHeight b' - Z.of_nat (length l1)) by lia.
    + destruct (length l1 + n)%nat eqn:E; [lia|]. inversion H'.
Qed.

Lemma GetStateStatisticsFor_spec p b :
  m !! p = Some b →
  let n := 1 + nHeight b mod Period c in
  ∃ l, last_blocks m (Z.to_nat n) (Some p) l ∧
    GetStateStatisticsFor m c (Some p) =
      Ok (mkStats (Period c) (Threshold c) n (signals c l) (Period c - Threshold c >=? n - signals c l), map (Condition c) (rev l)).
Proof.
  intros Hb n. destruct (Hwf p b Hb) as [H0 _]. pose proof (Z.mod_pos_bound (nHeight b) (Period c) Hperiod).
  pose proof (Z.mod_le (nHeight b) (Period c) H0 Hperiod). unfold n in *. clear n.
  destruct (last_blocks_exists (Z.to_nat (1 + nHeight b mod Period c)) p b Hb ltac:(lia)) as (l & Hl). exists l. split; [done|].
  unfold GetStateStatisticsFor, deref. rewrite Hb. cbn [rbind]. rewrite Z.rem_mod_nonneg by lia.
  rewrite (stats_loop_spec _ _ l) by (rewrite ?length_replicate, ?take_replicate, ?Nat.min_id; done). cbn [rbind].
  rewrite drop_ge, app_nil_r by (by rewrite length_replicate). done.
Qed.

Lemma signals_app l1 l2 : signals c (l1 ++ l2) <= Z.of_nat (length l1) + signals c l2.
Proof. unfold signals. rewrite List.filter_app, length_app. pose proof (List.filter_length_le (Condition c) l1). lia. Qed.

(** When the statistics say the threshold is out of reach, it is not reached. *)
Lemma impossible_fails p b l e be le :
  m !! p = Some b → last_blocks m (Z.to_nat (1 + nHeight b mod Period c)) (Some p) l →
  Period c - Threshold c < 1 + nHeight b mod Period c - signals c l →
  is_anc m e (nHeight b) p → m !! e = Some be → nHeight be = Period c * (nHeight b / Period c) + Period c - 1 →
  last_blocks m (Z.to_nat (Period c)) (Some e) le → signals c le < Threshold c.
Proof.
  intros Hb Hl Hlt Ha He Hhe Hle. destruct (Hwf p b Hb) as [H0 _]. pose proof (Z.mod_pos_bound (nHeight b) (Period c) Hperiod).
  pose proof (Z.div_mod (nHeight b) (Period c) ltac:(lia)) as Hd. set (n := Z.to_nat (1 + nHeight b mod Period c)) in *.
  replace (Z.to_nat (Period c)) with (Z.to_nat (nHeight be - nHeight b) + n)%nat in Hle by lia.
  destruct (last_blocks_split _ _ _ _ Hle) as (l1 & l2 & q & -> & Hl1 & Hl2 & Hq).
  destruct (Hq e be eq_refl He ltac:(lia)) as (qq & -> & Haq).
  replace (nHeight be - Z.of_nat (Z.to_nat (nHeight be - nHeight b))) with (nHeight b) in Haq by lia.
  assert (qq = p) as -> by (by eapply is_anc_fun). assert (l2 = l) as -> by (by eapply last_blocks_fun).
  pose proof (signals_app l1 l). lia.
Qed.

End Facts.

(** ** Deployments *)

Section Deployments.
Context (m : BlockMap) (params : Params).
Context (Hwf : wf_tree m) (Htimes : times_ok m) (Hperiod : 0 < nMinerConfirmationWindow params).

(** The state of the child of [p] for a deployment. *)
Definition deployment_state (pos : DeploymentPos) (p : option uint256) (s : ThresholdState) : Prop :=
  if nStartTime (vDeployments params pos) =? ALWAYS_ACTIVE then s = ACTIVE
  else if nStartTime (vDeployments params pos) =? NEVER_ACTIVE then s = FAILED
  else state_after m (VersionBitsConditionChecker params pos) p s.

Definition caches_ok (s : VersionBitsCache) : Prop := ∀ pos, cache_ok m (VersionBitsConditionChecker params pos) (m_caches s pos).

Lemma caches_ok_set s pos cache :
  caches_ok s → cache_ok m (VersionBitsConditionChecker params pos) cache → caches_ok (set_cache s pos cache).
Proof. intros Hs Hc pos'. pose proof (Hs pos'). by destruct pos, pos'. Qed.

Lemma deployment_state_fun pos p s s' : deployment_state pos p s → deployment_state pos p s' → s = s'.
Proof.
  unfold deployment_state. destruct (_ =? ALWAYS_ACTIVE); [congruence|]. destruct (_ =? NEVER_ACTIVE); [congruence|].
  by apply state_after_fun.
Qed.

Lemma State_spec s pos p :
  caches_ok s → known m p → ∃ st s', State m params s p pos = Ok (st, s') ∧ deployment_state pos p st ∧ caches_ok s'.
Proof.
  intros Hs Hp. unfold State, deployment_state. pose (c := VersionBitsConditionChecker params pos). fold c.
  change (nStartTime (vDeployments params pos)) with (BeginTime c).
  destruct (Z.eqb_spec (BeginTime c) ALWAYS_ACTIVE) as [E|E].
  { unfold GetStateFor. rewrite E. cbn. eexists _, _. split_and!; [reflexivity|done|]. apply caches_ok_set; [done|apply Hs]. }
  destruct (Z.eqb_spec (BeginTime c) NEVER_ACTIVE) as [E'|E'].
  { unfold GetStateFor. rewrite E'. cbn. eexists _, _. split_and!; [reflexivity|done|]. apply caches_ok_set; [done|apply Hs]. }
  destruct (GetStateFor_spec m c Hwf Htimes Hperiod p (m_caches s pos) E E' Hp (Hs pos)) as (st & cache & -> & Hst & Hc). cbn [rbind].
  eexists _, _. split_and!; [reflexivity|done|by apply caches_ok_set].
Qed.

Lemma deployment_final pos p h q s :
  is_anc m p h q → s = ACTIVE ∨ s = FAILED → deployment_state pos (Some q) s → deployment_state pos (Some p) s.
Proof.
  unfold deployment_state. intros Ha Hf. destruct (_ =? ALWAYS_ACTIVE); [done|]. destruct (_ =? NEVER_ACTIVE); [done|].
  by apply final_descendant with h.
Qed.

Definition in_progress (s : ThresholdState) : bool := bool_decide (s = LOCKED_IN ∨ s = STARTED).

Lemma ComputeBlockVersion_spec s p :
  caches_ok s → known m p →
  ∃ st1 st2 s', ComputeBlockVersion m params s p =
      Ok (i32 (Z.lor (Z.lor VERSIONBITS_TOP_BITS (if in_progress st1 then Mask params DEPLOYMENT_TESTDUMMY else 0))
                     (if in_progress st2 then Mask params DEPLOYMENT_TAPROOT else 0)), s') ∧
    deployment_state DEPLOYMENT_TESTDUMMY p st1 ∧ deployment_state DEPLOYMENT_TAPROOT p st2 ∧ caches_ok s'.
Proof.
  intros Hs Hp. unfold ComputeBlockVersion. cbn [version_loop].
  destruct (State_spec s DEPLOYMENT_TESTDUMMY p Hs Hp) as (st1 & s1 & -> & H1 & Hs1). cbn [rbind].
  destruct (State_spec s1 DEPLOYMENT_TAPROOT p Hs1 Hp) as (st2 & s2 & -> & H2 & Hs2). cbn [rbind].
  exists st1, st2, s2. split_and!; [|done|done|done]. do 2 f_equal. unfold in_progress. rewrite <- !decide_bool_decide.
  by destruct (decide (st1 = LOCKED_IN ∨ st1 = STARTED)), (decide (st2 = LOCKED_IN ∨ st2 = STARTED)); rewrite ?Z.lor_0_r.
Qed.

End Deployments.

(** A block whose version is that of [ComputeBlockVersion] signals for exactly
    the deployments in progress. *)
Definition version_of (b1 b2 : Z) (x1 x2 : bool) : Z :=
  i32 (Z.lor (Z.lor VERSIONBITS_TOP_BITS (if x1 then u32 (Z.shiftl 1 b1) else 0)) (if x2 then u32 (Z.shiftl 1 b2) else 0)).

Definition version_signals (v b : Z) : bool :=
  (Z.land (u32 v) VERSIONBITS_TOP_MASK =? VERSIONBITS_TOP_BITS) && negb (Z.land (u32 v) (u32 (Z.shiftl 1 b)) =? 0).

Lemma version_of_signals b1 b2 x1 x2 :
  0 <= b1 < 29 → 0 <= b2 < 29 → b1 ≠ b2 →
  version_signals (version_of b1 b2 x1 x2) b1 = x1 ∧ version_signals (version_of b1 b2 x1 x2) b2 = x2.
Proof.
  intros H1 H2 Hne.
  assert (forallb (fun i => forallb (fun j => forallb (fun y1 => forallb (fun y2 =>
      (i =? j)%nat || (eqb (version_signals (version_of (Z.of_nat i) (Z.of_nat j) y1 y2) (Z.of_nat i)) y1 &&
                       eqb (version_signals (version_of (Z.of_nat i) (Z.of_nat j) y1 y2) (Z.of_nat j)) y2))
      [true; false]) [true; false]) (seq 0 29)) (seq 0 29) = true) as E by (vm_compute; reflexivity).
  rewrite forallb_forall in E. specialize (E (Z.to_nat b1) ltac:(apply in_seq; lia)).
  rewrite forallb_forall in E. specialize (E (Z.to_nat b2) ltac:(apply in_seq; lia)).
  rewrite forallb_forall in E. specialize (E x1 ltac:(destruct x1; cbn; auto)).
  rewrite forallb_forall in E. specialize (E x2 ltac:(destruct x2; cbn; auto)).
  rewrite !Z2Nat.id in E by lia. apply orb_true_iff in E as [E|E]; [apply Nat.eqb_eq in E; lia|].
  apply andb_true_iff in E as [?%eqb_prop ?%eqb_prop]. done.
Qed.

Lemma ComputeBlockVersion_signals m params s p b st1 st2 s' v :
  wf_tree m → times_ok m → 0 < nMinerConfirmationWindow params → caches_ok m params s → known m p →
  0 <= bit (vDeployments params DEPLOYMENT_TESTDUMMY) < 29 → 0 <= bit (vDeployments params DEPLOYMENT_TAPROOT) < 29 →
  bit (vDeployments params DEPLOYMENT_TESTDUMMY) ≠ bit (vDeployments params DEPLOYMENT_TAPROOT) →
  ComputeBlockVersion m params s p = Ok (v, s') → nVersion b = v →
  deployment_state m params DEPLOYMENT_TESTDUMMY p st1 → deployment_state m params DEPLOYMENT_TAPROOT p st2 →
  VersionBitsCondition params DEPLOYMENT_TESTDUMMY b = in_progress st1 ∧ VersionBitsCondition params DEPLOYMENT_TAPROOT b = in_progress st2.
Proof.
  intros Hwf Ht Hw Hs Hp H1 H2 Hne E Hv Hst1 Hst2.
  destruct (ComputeBlockVersion_spec m params Hwf Ht Hw s p Hs Hp) as (t1 & t2 & s2 & E' & Ht1 & Ht2 & _).
  rewrite E in E'. injection E' as Ev _.
  rewrite (deployment_state_fun m params Hwf Hw _ _ _ _ Hst1 Ht1), (deployment_state_fun m params Hwf Hw _ _ _ _ Hst2 Ht2).
  unfold VersionBitsCondition. rewrite Hv, Ev. by apply version_of_signals.
Qed.

End VersionBitsFacts.

(** * Properties *)
Module VersionBitsProps.
Import VersionBits VersionBitsSpec VersionBitsFacts.

(** The header rules give the hypothesis on times. *)
Lemma headers_times_ok (GetHash : CBlockHeader → uint256) (params : Params) (st : Headers.ChainstateManager) :
  HeadersFacts.headers_inv GetHash params st →
  (∀ g, m_block_index (Headers.m_blockman st) !! hashGenesisBlock params = Some g → pprev g = None) →
  times_ok (m_block_index (Headers.m_blockman st)).
Proof.
  intros [_ _ Hv] Hg p b q t Hb Hq Ht. destruct (Hv p b Hb) as [->|(q' & c & t' & Hq' & _ & _ & _ & _ & Ht' & Hlt & _)].
  - rewrite (Hg b Hb) in Hq. discriminate Hq.
  - rewrite Hq in Hq'. injection Hq' as <-. rewrite Ht in Ht'. injection Ht' as ->. done.
Qed.

(** C23: The cached computation of a deployment's state is the state machine of
    BIP 9.  In a tree whose blocks are later than the median of their ancestors,
    and with caches that hold right states, [State] returns (no assertion fails
    and the walks end) the one state the machine reaches through the periods up
    to the block, and the caches stay right: neither what they hold nor the
    shortcut for blocks before the start time changes the answer.  A deployment
    that is active, or has failed, stays so for every descendant. *)
Theorem deployment_state_machine (m : BlockMap) (params : Params) (s : VersionBitsCache) (pos : DeploymentPos) (p : option uint256) :
  wf_tree m → times_ok m → 0 < nMinerConfirmationWindow params → caches_ok m params s → known m p →
  ∃ st s', State m params s p pos = Ok (st, s') ∧ caches_ok m params s' ∧
    (∀ st', deployment_state m params pos p st' ↔ st' = st) ∧
    (st = ACTIVE ∨ st = FAILED → ∀ q h d s1, p = Some q → is_anc m d h q → caches_ok m params s1 →
      ∃ s2, State m params s1 (Some d) pos = Ok (st, s2)).
Proof.
  intros Hwf Ht Hp Hs Hk. destruct (State_spec m params Hwf Ht Hp s pos p Hs Hk) as (st & s' & E & Hst & Hs'). exists st, s'.
  split_and!; [done|done| |].
  - intros st'. split; [|intros ->; done]. intros H. by apply (deployment_state_fun m params Hwf Hp pos p).
  - intros Hf q h d s1 -> Ha Hs1. destruct (is_anc_lookup m Hwf _ _ _ Ha) as (bd & _ & Hbd & _).
    destruct (State_spec m params Hwf Ht Hp s1 pos (Some d) Hs1 ltac:(by exists bd)) as (st2 & s2 & E2 & Hst2 & _).
    exists s2. rewrite E2. do 2 f_equal. apply (deployment_state_fun m params Hwf Hp pos (Some d)); [done|].
    by apply (deployment_final m params Hwf Hp pos d h q).
Qed.

(** A chain of four blocks that signal for [DEPLOYMENT_TESTDUMMY], periods of
    one block and a start between the first two. *)
Definition demo_block (pp : option uint256) (h t : Z) : CBlockIndex :=
  {| pprev := pp; pskip := None; nHeight := h; nChainWork := Arith256.BaseUint.of_u64 (h + 1); nTx := 0; nChainTx := 0; nStatus := 2;
     nVersion := 0x30000000; hashMerkleRoot := []; nTime := t; nBits := 0x207fffff; nNonce := 0;
     nSequenceId := 0; nTimeMax := t |}.
Definition demo_chain : BlockMap :=
  <[ [3] := demo_block (Some [2]) 3 40 ]> (<[ [2] := demo_block (Some [1]) 2 30 ]>
  (<[ [1] := demo_block (Some [0]) 1 20 ]> (<[ [0] := demo_block None 0 10 ]> ∅))).
Definition demo_params : Params :=
  let p := CMainParams [] in
  {| hashGenesisBlock := []; nSubsidyHalvingInterval := nSubsidyHalvingInterval p; script_flag_exceptions := ∅;
     BIP34Height := 17; BIP34Hash := []; BIP65Height := 1; BIP66Height := 1; CSVHeight := 1; SegwitHeight := 0;
     MinBIP9WarningHeight := 0; nRuleChangeActivationThreshold := 1; nMinerConfirmationWindow := 1;
     vDeployments _ := mkBIP9 28 15 NO_TIMEOUT 0;
     powLimit := powLimit p; fPowAllowMinDifficultyBlocks := false; fPowNoRetargeting := false;
     nPowTargetSpacing := 600; nPowTargetTimespan := 1209600; nFastRetargetPeriod := 144; nFastRetargetUntilHeight := 2016;
     signet_blocks := false |}.

Lemma demo_chain_wf : wf_tree demo_chain.
Proof.
  intros p b Hb. unfold demo_chain in Hb.
  do 3 (apply lookup_insert_Some in Hb as [[_ <-]|[_ Hb]]; [split; [done|]; split; [eexists; split; [reflexivity|done]|done]|]).
  apply lookup_insert_Some in Hb as [[_ <-]|[_ Hb]]; [by split|]. by rewrite lookup_empty in Hb.
Qed.

Lemma demo_chain_times : times_ok demo_chain.
Proof.
  intros p b q t Hb Hq Ht. unfold demo_chain in Hb.
  do 3 (apply lookup_insert_Some in Hb as [[_ <-]|[_ Hb]];
    [cbn in Hq; injection Hq as <-; vm_compute in Ht; injection Ht as <-; vm_compute; reflexivity|]).
  apply lookup_insert_Some in Hb as [[_ <-]|[_ Hb]]; [done|]. by rewrite lookup_empty in Hb.
Qed.

Lemma empty_caches_ok m params : caches_ok m params (mkCaches ∅ ∅).
Proof. intros pos p s H. destruct pos; cbn in H; by rewrite lookup_empty in H. Qed.

Lemma deployment_state_machine_witness :
  (State demo_chain demo_params (mkCaches ∅ ∅) (Some [2]) DEPLOYMENT_TESTDUMMY = Ok (LOCKED_IN, mkCaches
    (<[Some [2] := LOCKED_IN]> (<[Some [1] := STARTED]> (<[Some [0] := DEFINED]> ∅))) ∅)) ∧
  (∀ st, deployment_state demo_chain demo_params DEPLOYMENT_TESTDUMMY (Some [3]) st ↔ st = ACTIVE).
Proof.
  split; [vm_compute; reflexivity|].
  destruct (deployment_state_machine demo_chain demo_params (mkCaches ∅ ∅) DEPLOYMENT_TESTDUMMY (Some [3]) demo_chain_wf demo_chain_times
    ltac:(reflexivity) (empty_caches_ok _ _) ltac:(eexists; reflexivity)) as (st & s' & E & _ & H & _).
  assert (st = ACTIVE) as ->; [|exact H].
  vm_compute in E. congruence.
Defined.

End VersionBitsProps.
