(* ===== verification/Compressor.v ===== *)
(** Stored formats: [src/compressor.h], [src/compressor.cpp], the serialization of
    [Coin] in [src/coins.h], the undo data of [src/undo.h] and the keys of
    [src/txdb.cpp].

    The curve operations [CPubKey::IsFullyValid] and [CPubKey::Decompress] are
    arguments; what is used of them is that decompressing gives a valid key back. *)
From Stdlib Require Import ZArith Lia.
From stdpp Require Import list.
From S2P Require Import Prelude Serialize Script Transaction Coins.
Import Serialize SerializeFacts Script Amount Transaction Coins.
Local Open Scope bb_scope.

Module Compressor.

(** ** Amounts *)

(** [while (((n % 10) == 0) && e < 9)]: at most nine turns. *)
Fixpoint strip_zeros (fuel : nat) (n e : Z) : Z * Z :=
  match fuel with
  | O => (n, e)
  | S fuel => if (n mod 10 =? 0) && (e <? 9) then strip_zeros fuel (n / 10) (e + 1) else (n, e)
  end.

(** The assertion on the digit [d] is left out: [strip_zeros_spec] shows that it
    holds for every amount. *)
Definition CompressAmount (n : Z) : Z :=
  if n =? 0 then 0
  else
    let '(n, e) := strip_zeros 9 n 0 in
    if e <? 9 then
      let d := n mod 10 in
      let n := n / 10 in
      u64 (1 + (n * 9 + d - 1) * 10 + e)
    else u64 (1 + (n - 1) * 10 + 9).

(** [while (e)] *)
Fixpoint add_zeros (e : nat) (n : Z) : Z :=
  match e with
  | O => n
  | S e => add_zeros e (u64 (n * 10))
  end.

Definition DecompressAmount (x : Z) : Z :=
  if x =? 0 then 0
  else
    let x := x - 1 in
    let e := x mod 10 in
    let x := x / 10 in
    let n :=
      if e <? 9 then
        let d := x mod 9 + 1 in
        let x := x / 9 in
        u64 (x * 10 + d)
      else u64 (x + 1) in
    add_zeros (Z.to_nat e) n.

(** ** Scripts *)

Definition IsToKeyID (script : CScript) : option (list Z) :=
  if (length script =? 25)%nat && (script !!! 0%nat =? OP_DUP) && (script !!! 1%nat =? OP_HASH160) &&
     (script !!! 2%nat =? 20) && (script !!! 23%nat =? OP_EQUALVERIFY) && (script !!! 24%nat =? OP_CHECKSIG)
  then Some (take 20 (drop 3 script)) else None.

Definition IsToScriptID (script : CScript) : option (list Z) :=
  if (length script =? 23)%nat && (script !!! 0%nat =? OP_HASH160) && (script !!! 1%nat =? 20) && (script !!! 22%nat =? OP_EQUAL)
  then Some (take 20 (drop 2 script)) else None.

Section Keys.
Context (IsFullyValid : list Z → bool) (Decompress : list Z → option (list Z)).

Definition IsToPubKey (script : CScript) : option (list Z) :=
  if (length script =? 35)%nat && (script !!! 0%nat =? 33) && (script !!! 34%nat =? OP_CHECKSIG) &&
     ((script !!! 1%nat =? 0x02) || (script !!! 1%nat =? 0x03))
  then Some (take 33 (drop 1 script))
  else if (length script =? 67)%nat && (script !!! 0%nat =? 65) && (script !!! 66%nat =? OP_CHECKSIG) && (script !!! 1%nat =? 0x04)
  then
    let pubkey := take 65 (drop 1 script) in
    if IsFullyValid pubkey then Some pubkey else None
  else None.

Definition CompressScript (script : CScript) : option (list Z) :=
  match IsToKeyID script with
  | Some keyID => Some (0x00 :: keyID)
  | None =>
      match IsToScriptID script with
      | Some scriptID => Some (0x01 :: scriptID)
      | None =>
          match IsToPubKey script with
          | Some pubkey =>
              let key := take 32 (drop 1 pubkey) in
              if (pubkey !!! 0%nat =? 0x02) || (pubkey !!! 0%nat =? 0x03) then Some (pubkey !!! 0%nat :: key)
              else if pubkey !!! 0%nat =? 0x04 then Some (Z.lor 0x04 (Z.land (pubkey !!! 64%nat) 0x01) :: key)
              else None
          | None => None
          end
      end
  end.

Definition GetSpecialScriptSize (nSize : Z) : nat :=
  if (nSize =? 0) || (nSize =? 1) then 20
  else if (nSize =? 2) || (nSize =? 3) || (nSize =? 4) || (nSize =? 5) then 32
  else 0.

(** The script, or [None] where the function returns false; [data] has the size
    the source gives it. *)
Definition DecompressScript (nSize : Z) (data : list Z) : option CScript :=
  if nSize =? 0x00 then Some ([OP_DUP; OP_HASH160; 20] ++ data ++ [OP_EQUALVERIFY; OP_CHECKSIG])
  else if nSize =? 0x01 then Some ([OP_HASH160; 20] ++ data ++ [OP_EQUAL])
  else if (nSize =? 0x02) || (nSize =? 0x03) then Some ([33; nSize] ++ data ++ [OP_CHECKSIG])
  else if (nSize =? 0x04) || (nSize =? 0x05) then
    match Decompress ((nSize - 2) :: data) with
    | Some pubkey => Some ([65] ++ pubkey ++ [OP_CHECKSIG])
    | None => None
    end
  else None.

(** ** Formatters *)

Definition nSpecialScripts : Z := 6.

Definition ser_varint (w n : Z) : list Z := default [] (WriteVarInt w n).

Definition ScriptCompression_Ser (script : CScript) : list Z :=
  match CompressScript script with
  | Some compr => compr
  | None => ser_varint 32 (u32 (Z.of_nat (length script) + nSpecialScripts)) ++ script
  end.

Definition ScriptCompression_Unser : parser CScript := fun s =>
  let! (nSize, s) := ReadVarInt 32 s in
  if nSize <? nSpecialScripts then
    let! (vch, s) := read (GetSpecialScriptSize nSize) s in
    Ok (default [] (DecompressScript nSize vch), s)
  else
    let nSize := nSize - nSpecialScripts in
    if nSize >? MAX_SCRIPT_SIZE then
      let! (_, s) := read (Z.to_nat nSize) s in
      Ok ([OP_RETURN], s)
    else read (Z.to_nat nSize) s.

Definition AmountCompression_Ser (val : Z) : list Z := ser_varint 64 (CompressAmount (u64 val)).
Definition AmountCompression_Unser : parser Z := fun s =>
  let! (v, s) := ReadVarInt 64 s in Ok (i64 (DecompressAmount v), s).

Definition TxOutCompression_Ser (obj : CTxOut) : list Z :=
  AmountCompression_Ser (nValue obj) ++ ScriptCompression_Ser (scriptPubKey obj).
Definition TxOutCompression_Unser : parser CTxOut := fun s =>
  let! (v, s) := AmountCompression_Unser s in
  let! (script, s) := ScriptCompression_Unser s in
  Ok (mkTxOut v script, s).

(** ** Coins *)

Definition coin_code (coin : Coin) : Z := u32 (coin_nHeight coin * 2 + (if fCoinBase coin then 1 else 0)).

(** [None] is the failed assertion. *)
Definition Coin_Serialize (coin : Coin) : option (list Z) :=
  if IsSpent coin then None else Some (ser_varint 32 (coin_code coin) ++ TxOutCompression_Ser (out coin)).

Definition Coin_Unserialize : parser Coin := fun s =>
  let! (code, s) := ReadVarInt 32 s in
  let! (o, s) := TxOutCompression_Unser s in
  Ok (mkCoin o (negb (Z.land code 1 =? 0)) (Z.shiftr code 1), s).

(** ** Undo data *)

Definition TxInUndo_Ser (txout : Coin) : list Z :=
  ser_varint 32 (coin_code txout) ++ (if coin_nHeight txout >? 0 then [0] else []) ++ TxOutCompression_Ser (out txout).
Definition TxInUndo_Unser : parser Coin := fun s =>
  let! (nCode, s) := ReadVarInt 32 s in
  let nHeight := Z.shiftr nCode 1 in
  let! (_, s) := (if nHeight >? 0 then ReadVarInt 32 s else Ok (0, s)) in
  let! (o, s) := TxOutCompression_Unser s in
  Ok (mkCoin o (negb (Z.land nCode 1 =? 0)) nHeight, s).

Definition CTxUndo_Ser : list Coin → list Z := ser_vector TxInUndo_Ser.
Definition CTxUndo_Unser : parser (list Coin) := unser_vector TxInUndo_Unser.
Definition CBlockUndo_Ser : list (list Coin) → list Z := ser_vector CTxUndo_Ser.
Definition CBlockUndo_Unser : parser (list (list Coin)) := unser_vector CTxUndo_Unser.

End Keys.

(** ** Database keys *)

Definition DB_COIN : Z := 67.

Definition CoinEntry_Ser (outpoint : COutPoint) : list Z :=
  ser_writedata8 DB_COIN ++ op_hash outpoint ++ ser_varint 32 (op_n outpoint).

End Compressor.

Module CompressorFacts.
Import Compressor.

(** ** Amounts *)

Lemma strip_zeros_spec fuel n e n' e' :
  e + Z.of_nat fuel = 9 → 0 < n → strip_zeros fuel n e = (n', e') →
  0 < n' ∧ e <= e' <= 9 ∧ n = n' * 10 ^ (e' - e) ∧ (e' < 9 → n' mod 10 ≠ 0).
Proof.
  revert n e. induction fuel as [|fuel IH]; intros n e He Hn E; cbn [strip_zeros] in E.
  - injection E as <- <-. rewrite Z.sub_diag. lia.
  - destruct ((n mod 10 =? 0) && (e <? 9)) eqn:Ec; to_prop.
    + apply IH in E; [|lia|zdm]. destruct E as (? & ? & E & ?). split_and!; [done|lia|lia| |done].
      replace (e' - e) with (Z.succ (e' - (e + 1))) by lia. rewrite Z.pow_succ_r by lia. zdm.
    + injection E as <- <-. rewrite Z.sub_diag. destruct Ec; lia.
Qed.

Lemma add_zeros_spec e n : 0 <= n → n * 10 ^ Z.of_nat e < 2 ^ 64 → add_zeros e n = n * 10 ^ Z.of_nat e.
Proof.
  revert n. induction e as [|e IH]; intros n Hn Hlt; cbn [add_zeros]; [lia|].
  rewrite Nat2Z.inj_succ, Z.pow_succ_r in * by lia. pose proof (Z.pow_pos_nonneg 10 (Z.of_nat e) ltac:(lia) ltac:(lia)).
  rewrite wrap_small by (unfold in_u; nia). rewrite IH by nia. lia.
Qed.

Lemma amount_roundtrip n : 0 <= n < 2 ^ 60 → in_u 64 (CompressAmount n) ∧ DecompressAmount (CompressAmount n) = n.
Proof.
  intros Hn. unfold CompressAmount. destruct (Z.eqb_spec n 0) as [->|H0]; [done|].
  destruct (strip_zeros 9 n 0) as [n' e] eqn:E. apply strip_zeros_spec in E; [|done|lia].
  destruct E as (Hn' & He & E & Hd). rewrite Z.sub_0_r in E.
  pose proof (Z.pow_pos_nonneg 10 e ltac:(lia) ltac:(lia)). assert (n' <= n) by nia.
  destruct (Z.ltb_spec e 9) as [H9|H9].
  - specialize (Hd H9). rewrite wrap_small by (unfold in_u; zdm). split; [unfold in_u; zdm|]. unfold DecompressAmount.
    destruct (Z.eqb_spec (1 + (n' / 10 * 9 + n' mod 10 - 1) * 10 + e) 0); [zdm|].
    replace ((1 + (n' / 10 * 9 + n' mod 10 - 1) * 10 + e - 1) mod 10) with e by zdm.
    replace ((1 + (n' / 10 * 9 + n' mod 10 - 1) * 10 + e - 1) / 10) with (n' / 10 * 9 + n' mod 10 - 1) by zdm.
    destruct (Z.ltb_spec e 9); [|lia].
    replace ((n' / 10 * 9 + n' mod 10 - 1) mod 9 + 1) with (n' mod 10) by zdm.
    replace ((n' / 10 * 9 + n' mod 10 - 1) / 9) with (n' / 10) by zdm.
    rewrite wrap_small by (unfold in_u; zdm). rewrite add_zeros_spec; rewrite ?Z2Nat.id by lia; [|zdm|].
    + replace (n' / 10 * 10 + n' mod 10) with n' by zdm. lia.
    + replace (n' / 10 * 10 + n' mod 10) with n' by zdm. lia.
  - assert (e = 9) as -> by lia. rewrite wrap_small by (unfold in_u; lia). split; [unfold in_u; lia|]. unfold DecompressAmount.
    destruct (Z.eqb_spec (1 + (n' - 1) * 10 + 9) 0); [lia|].
    replace ((1 + (n' - 1) * 10 + 9 - 1) mod 10) with 9 by zdm. replace ((1 + (n' - 1) * 10 + 9 - 1) / 10) with (n' - 1) by zdm.
    destruct (Z.ltb_spec 9 9); [lia|]. rewrite wrap_small by (unfold in_u; lia).
    rewrite add_zeros_spec; change (Z.of_nat (Z.to_nat 9)) with 9; lia.
Qed.

(** ** Scripts *)

Lemma segment (s : list Z) k j : (k + j <= length s)%nat → take j (drop k s) = map (fun i => s !!! (k + i)%nat) (seq 0 j).
Proof.
  revert k. induction j as [|j IH]; intros k H; [done|].
  destruct (lookup_lt_is_Some_2 s k ltac:(lia)) as [x Hx]. rewrite (drop_S _ _ _ Hx). cbn [take seq map].
  rewrite Nat.add_0_r, (list_lookup_total_correct _ _ _ Hx). f_equal. rewrite IH by lia. rewrite <- seq_shift, map_map.
  apply map_ext. intros i. f_equal. lia.
Qed.

Lemma land_1 x : Z.land x 1 = x mod 2.
Proof. exact (Z.land_ones x 1 ltac:(lia)). Qed.

(** A script is its first [a] bytes, the [n] after them, and the rest. *)
Lemma three_parts (s : list Z) a n b :
  length s = (a + n + b)%nat →
  s = map (fun i => s !!! i) (seq 0 a) ++ take n (drop a s) ++ map (fun i => s !!! (a + n + i)%nat) (seq 0 b).
Proof.
  intros Hl. rewrite <- (segment s (a + n) b) by lia.
  change (map (fun i => s !!! i) (seq 0 a)) with (map (fun i => s !!! (0 + i)%nat) (seq 0 a)).
  rewrite <- (segment s 0 a) by lia. rewrite drop_0.
  rewrite (take_ge (drop (a + n) s)) by (rewrite length_drop; lia). rewrite <- drop_drop, !take_drop. done.
Qed.

Section Keys.
Context (IsFullyValid : list Z → bool) (Decompress : list Z → option (list Z)).
(** What secp256k1 promises: a valid key is found again from its [x] coordinate
    and the parity of [y]. *)
Hypothesis Decompress_valid : ∀ key, IsFullyValid key = true → length key = 65%nat → key !!! 0%nat = 4 →
  Decompress (2 + Z.land (key !!! 64%nat) 1 :: take 32 (drop 1 key)) = Some key.

Abbreviation compress_script := (CompressScript IsFullyValid).
Abbreviation decompress_script := (DecompressScript Decompress).

Lemma IsToKeyID_spec script id :
  IsToKeyID script = Some id → length id = 20%nat ∧ script = [OP_DUP; OP_HASH160; 20] ++ id ++ [OP_EQUALVERIFY; OP_CHECKSIG].
Proof.
  unfold IsToKeyID. destruct (_ && _) eqn:E; [|done]. intros [= <-]. rewrite !andb_true_iff, !Z.eqb_eq, Nat.eqb_eq in E.
  destruct E as (((((Hl & E0) & E1) & E2) & E3) & E4). split; [rewrite length_take, length_drop; lia|].
  rewrite (three_parts script 3 20 2) at 1 by done. cbn [seq map Nat.add]. by rewrite E0, E1, E2, E3, E4.
Qed.

Lemma IsToScriptID_spec script id :
  IsToScriptID script = Some id → length id = 20%nat ∧ script = [OP_HASH160; 20] ++ id ++ [OP_EQUAL].
Proof.
  unfold IsToScriptID. destruct (_ && _) eqn:E; [|done]. intros [= <-]. rewrite !andb_true_iff, !Z.eqb_eq, Nat.eqb_eq in E.
  destruct E as (((Hl & E0) & E1) & E2). split; [rewrite length_take, length_drop; lia|].
  rewrite (three_parts script 2 20 1) at 1 by done. cbn [seq map Nat.add]. by rewrite E0, E1, E2.
Qed.

Lemma IsToPubKey_spec script key :
  IsToPubKey IsFullyValid script = Some key →
  (length key = 33%nat ∧ (key !!! 0%nat = 2 ∨ key !!! 0%nat = 3) ∧ script = [33] ++ key ++ [OP_CHECKSIG]) ∨
  (length key = 65%nat ∧ key !!! 0%nat = 4 ∧ IsFullyValid key = true ∧ script = [65] ++ key ++ [OP_CHECKSIG]).
Proof.
  unfold IsToPubKey. destruct (_ && _) eqn:E.
  - intros [= <-]. rewrite !andb_true_iff, orb_true_iff, !Z.eqb_eq, Nat.eqb_eq in E. destruct E as (((Hl & E0) & E2) & E1). left.
    split_and!; [rewrite length_take, length_drop; lia| |].
    + rewrite lookup_total_take_lt, lookup_total_drop by lia. done.
    + rewrite (three_parts script 1 33 1) at 1 by done. cbn [seq map Nat.add]. by rewrite E0, E2.
  - clear E. destruct (_ && _) eqn:E; [|done]. destruct (IsFullyValid _) eqn:Ev; [|done]. intros [= <-].
    rewrite !andb_true_iff, !Z.eqb_eq, Nat.eqb_eq in E. destruct E as (((Hl & E0) & E2) & E1). right.
    split_and!; [rewrite length_take, length_drop; lia| |done|].
    + rewrite lookup_total_take_lt, lookup_total_drop by lia. done.
    + rewrite (three_parts script 1 65 1) at 1 by done. cbn [seq map Nat.add]. by rewrite E0, E2.
Qed.

(** Compressed scripts begin with their kind and decompress to the script. *)
Lemma CompressScript_spec script compr :
  compress_script script = Some compr →
  ∃ k data, compr = k :: data ∧ 0 <= k < 6 ∧ length data = GetSpecialScriptSize k ∧ decompress_script k data = Some script.
Proof.
  unfold CompressScript. destruct (IsToKeyID script) as [id|] eqn:E1.
  { intros [= <-]. destruct (IsToKeyID_spec _ _ E1) as [Hl ->]. by exists 0, id. }
  destruct (IsToScriptID script) as [id|] eqn:E2.
  { intros [= <-]. destruct (IsToScriptID_spec _ _ E2) as [Hl ->]. by exists 1, id. }
  destruct (IsToPubKey IsFullyValid script) as [key|] eqn:E3; [|done]. clear E1 E2.
  destruct (IsToPubKey_spec _ _ E3) as [(Hl & Hk & ->)|(Hl & Hk & Hv & ->)].
  - assert (key = key !!! 0%nat :: take 32 (drop 1 key)) as Ek.
    { rewrite (three_parts key 1 32 0) at 1 by done. cbn [seq map app]. by rewrite app_nil_r. }
    destruct Hk as [Hk|Hk]; rewrite Hk in *; cbn [Z.eqb Pos.eqb orb]; intros [= <-];
      (eexists _, _; split_and!; [reflexivity|lia|lia|rewrite length_take, length_drop, Hl; reflexivity|]);
      unfold DecompressScript; cbn; by rewrite Ek at 2.
  - rewrite Hk. cbn [Z.eqb Pos.eqb orb]. intros [= <-]. pose proof (Decompress_valid key Hv Hl Hk) as Hdec.
    assert (Z.land (key !!! 64%nat) 1 = 0 ∨ Z.land (key !!! 64%nat) 1 = 1) as Hp.
    { rewrite land_1. zdm. }
    assert (length (take 32 (drop 1 key)) = 32%nat) by (rewrite length_take, length_drop, Hl; reflexivity).
    destruct Hp as [Hp|Hp]; rewrite Hp in *.
    + exists 4, (take 32 (drop 1 key)). split_and!; [done|lia|lia|done|]. unfold DecompressScript. cbn [Z.eqb Pos.eqb orb].
      change (4 - 2) with (2 + 0). by rewrite Hdec.
    + exists 5, (take 32 (drop 1 key)). split_and!; [done|lia|lia|done|]. unfold DecompressScript. cbn [Z.eqb Pos.eqb orb].
      change (5 - 2) with (2 + 1). by rewrite Hdec.
Qed.

(** ** Formatters *)

Lemma ReadVarInt_write w n s : 7 < w → in_u w n → ReadVarInt w (ser_varint w n ++ s) = Ok (n, s).
Proof. intros Hw Hn. unfold ser_varint. by apply (codec_read (codec_varint w Hw)). Qed.

Lemma ReadVarInt_small k s : 0 <= k < 6 → ReadVarInt 32 (k :: s) = Ok (k, s).
Proof.
  intros Hk. assert (k = 0 ∨ k = 1 ∨ k = 2 ∨ k = 3 ∨ k = 4 ∨ k = 5) as Hc by lia.
  destruct Hc as [->|[->|[->|[->|[->| ->]]]]]; reflexivity.
Qed.

Lemma script_roundtrip script s :
  size script <= MAX_SCRIPT_SIZE → ScriptCompression_Unser Decompress (ScriptCompression_Ser IsFullyValid script ++ s) = Ok (script, s).
Proof.
  unfold size, MAX_SCRIPT_SIZE. intros Hl. unfold ScriptCompression_Ser, ScriptCompression_Unser. destruct (compress_script script) as [compr|] eqn:E.
  - destruct (CompressScript_spec _ _ E) as (k & data & -> & Hk & Hd & Hs). cbn [app]. rewrite ReadVarInt_small by done. cbn [rbind].
    destruct (Z.ltb_spec k nSpecialScripts); [|unfold nSpecialScripts in *; lia]. rewrite read_app by done. cbn [rbind]. by rewrite Hs.
  - unfold nSpecialScripts. rewrite wrap_small by (unfold in_u; lia). rewrite <- app_assoc, ReadVarInt_write by (unfold in_u; lia). cbn [rbind].
    destruct (Z.ltb_spec (Z.of_nat (length script) + 6) 6); [lia|]. rewrite Z.add_simpl_r.
    destruct (Z.gtb_spec (Z.of_nat (length script)) MAX_SCRIPT_SIZE); [unfold MAX_SCRIPT_SIZE in *; lia|]. by apply read_app; lia.
Qed.

(** A script too long to be spent reads back as an unspendable one. *)
Lemma long_script_replaced script s :
  MAX_SCRIPT_SIZE < size script < 2 ^ 32 - 6 →
  ScriptCompression_Unser Decompress (ScriptCompression_Ser IsFullyValid script ++ s) = Ok ([OP_RETURN], s).
Proof.
  unfold size, MAX_SCRIPT_SIZE. intros Hl. unfold ScriptCompression_Ser, ScriptCompression_Unser. destruct (compress_script script) as [compr|] eqn:E.
  - exfalso. unfold CompressScript in E. destruct (IsToKeyID script) as [id|] eqn:E1.
    { destruct (IsToKeyID_spec _ _ E1) as [Hi ->]. rewrite !length_app, Hi in Hl. cbn in Hl. lia. }
    destruct (IsToScriptID script) as [id|] eqn:E2.
    { destruct (IsToScriptID_spec _ _ E2) as [Hi ->]. rewrite !length_app, Hi in Hl. cbn in Hl. lia. }
    destruct (IsToPubKey IsFullyValid script) as [key|] eqn:E3; [|done].
    destruct (IsToPubKey_spec _ _ E3) as [(Hi & _ & ->)|(Hi & _ & _ & ->)]; rewrite !length_app, Hi in Hl; cbn in Hl; lia.
  - unfold nSpecialScripts. rewrite wrap_small by (unfold in_u; lia). rewrite <- app_assoc, ReadVarInt_write by (unfold in_u; lia). cbn [rbind].
    destruct (Z.ltb_spec (Z.of_nat (length script) + 6) 6); [lia|]. rewrite Z.add_simpl_r.
    destruct (Z.gtb_spec (Z.of_nat (length script)) MAX_SCRIPT_SIZE); [|unfold MAX_SCRIPT_SIZE in *; lia]. by rewrite read_app by lia.
Qed.

Lemma amount_format v s : MoneyRange v = true → AmountCompression_Unser (AmountCompression_Ser v ++ s) = Ok (v, s).
Proof.
  unfold MoneyRange, MAX_MONEY, COIN. intros Hv. to_prop. unfold AmountCompression_Unser, AmountCompression_Ser.
  rewrite (wrap_small 64 v) by (unfold in_u; lia). destruct (amount_roundtrip v ltac:(lia)) as [Hu E].
  rewrite ReadVarInt_write by done. cbn [rbind]. rewrite E, swrap_small by (unfold in_s; lia). done.
Qed.

(** Outputs and coins as the chain has them. *)
Definition out_ok (o : CTxOut) : Prop := MoneyRange (nValue o) = true ∧ size (scriptPubKey o) <= MAX_SCRIPT_SIZE.
Definition coin_ok (coin : Coin) : Prop := out_ok (out coin) ∧ 0 <= coin_nHeight coin < 2 ^ 31.

Lemma txout_roundtrip o s :
  out_ok o → TxOutCompression_Unser Decompress (TxOutCompression_Ser IsFullyValid o ++ s) = Ok (o, s).
Proof.
  intros [Hv Hs]. unfold TxOutCompression_Unser, TxOutCompression_Ser. rewrite <- app_assoc, amount_format by done. cbn [rbind].
  rewrite script_roundtrip by done. cbn [rbind]. by destruct o.
Qed.

Lemma coin_code_spec coin :
  0 <= coin_nHeight coin < 2 ^ 31 →
  in_u 32 (coin_code coin) ∧ Z.shiftr (coin_code coin) 1 = coin_nHeight coin ∧ negb (Z.land (coin_code coin) 1 =? 0) = fCoinBase coin.
Proof.
  intros Hh. unfold coin_code. rewrite wrap_small by (unfold in_u; destruct (fCoinBase coin); lia).
  rewrite Z.shiftr_div_pow2 by lia. change (2 ^ 1) with 2. rewrite land_1. unfold in_u.
  destruct (fCoinBase coin); split_and!; zdm.
Qed.

Lemma coin_roundtrip coin s b :
  coin_ok coin → Coin_Serialize IsFullyValid coin = Some b → Coin_Unserialize Decompress (b ++ s) = Ok (coin, s).
Proof.
  intros [Ho Hh]. unfold Coin_Serialize, Coin_Unserialize. destruct (IsSpent coin); [done|]. intros [= <-].
  destruct (coin_code_spec coin Hh) as (Hc & E1 & E2). rewrite <- app_assoc, ReadVarInt_write by done. cbn [rbind].
  rewrite txout_roundtrip by done. cbn [rbind]. rewrite E1, E2. by destruct coin.
Qed.

Lemma undo_roundtrip coin s : coin_ok coin → TxInUndo_Unser Decompress (TxInUndo_Ser IsFullyValid coin ++ s) = Ok (coin, s).
Proof.
  intros [Ho Hh]. unfold TxInUndo_Ser, TxInUndo_Unser. destruct (coin_code_spec coin Hh) as (Hc & E1 & E2).
  rewrite <- !app_assoc, ReadVarInt_write by done. cbn [rbind]. rewrite E1, E2. destruct (coin_nHeight coin >? 0); cbn [app].
  - rewrite ReadVarInt_small by lia. cbn [rbind]. rewrite txout_roundtrip by done. by destruct coin.
  - cbn [rbind]. rewrite txout_roundtrip by done. by destruct coin.
Qed.

Lemma vector_roundtrip {A} (ser : A → list Z) (unser : parser A) (v : list A) s :
  (∀ a s, a ∈ v → unser (ser a ++ s) = Ok (a, s)) → size v <= MAX_SIZE → unser_vector unser (ser_vector ser v ++ s) = Ok (v, s).
Proof.
  unfold size. intros H Hl. unfold unser_vector, ser_vector. rewrite <- app_assoc, (codec_read (codec_compact true)) by (by apply vec_size_ok).
  cbn [rbind]. rewrite Nat2Z.id. clear Hl. induction v as [|a v IH]; [done|].
  cbn [length read_elems map concat]. rewrite <- app_assoc, H by left. cbn [rbind]. rewrite IH; [done|].
  intros b s' Hb. apply H. by right.
Qed.

Definition undo_ok (u : list (list Coin)) : Prop :=
  size u <= MAX_SIZE ∧ ∀ l, l ∈ u → size l <= MAX_SIZE ∧ ∀ coin, coin ∈ l → coin_ok coin.

Lemma block_undo_roundtrip u s : undo_ok u → CBlockUndo_Unser Decompress (CBlockUndo_Ser IsFullyValid u ++ s) = Ok (u, s).
Proof.
  intros [Hl Hu]. apply vector_roundtrip; [|done]. intros l s' Hin. destruct (Hu l Hin) as [Hll Hc].
  apply vector_roundtrip; [|done]. intros coin s'' Hcoin. by apply undo_roundtrip, Hc.
Qed.

End Keys.

(** ** Keys of the database *)

Lemma CoinEntry_inj o o' :
  length (op_hash o) = 32%nat → length (op_hash o') = 32%nat → in_u 32 (op_n o) → in_u 32 (op_n o') →
  CoinEntry_Ser o = CoinEntry_Ser o' → o = o'.
Proof.
  intros Hh Hh' Hn Hn' E. unfold CoinEntry_Ser in E. apply app_inv_head in E.
  apply app_inj_1 in E as [E1 E2]; [|by rewrite Hh, Hh'].
  assert (op_n o = op_n o') as E3.
  { pose proof (ReadVarInt_write 32 (op_n o) [] ltac:(lia) Hn) as R. pose proof (ReadVarInt_write 32 (op_n o') [] ltac:(lia) Hn') as R'.
    rewrite E2, R' in R. congruence. }
  destruct o, o'; cbn in *; congruence.
Qed.

End CompressorFacts.

(** * Properties *)
Module CompressorProps.
Import Compressor CompressorFacts.

(** C26: What the node stores it reads back.  A coin that is not spent, with an
    amount in range, a script that may be spent and a height of 31 bits, is the
    coin read from its compressed form; so are the coins of a block's undo data,
    whatever follows in the file; different outpoints have different keys in the
    database. *)
Theorem stored_coins_roundtrip (IsFullyValid : list Z → bool) (Decompress : list Z → option (list Z))
    (coin : Coin) (undo : list (list Coin)) (o o' : COutPoint) (rest : list Z) :
  (∀ key, IsFullyValid key = true → length key = 65%nat → key !!! 0%nat = 4 →
    Decompress (2 + Z.land (key !!! 64%nat) 1 :: take 32 (drop 1 key)) = Some key) →
  coin_ok coin → IsSpent coin = false → undo_ok undo →
  length (op_hash o) = 32%nat → length (op_hash o') = 32%nat → in_u 32 (op_n o) → in_u 32 (op_n o') →
  (∃ b, Coin_Serialize IsFullyValid coin = Some b ∧ Coin_Unserialize Decompress (b ++ rest) = Ok (coin, rest)) ∧
  CBlockUndo_Unser Decompress (CBlockUndo_Ser IsFullyValid undo ++ rest) = Ok (undo, rest) ∧
  (CoinEntry_Ser o = CoinEntry_Ser o' ↔ o = o').
Proof.
  intros Hd Hc Hs Hu Ho Ho' Hn Hn'. split_and!.
  - unfold Coin_Serialize. rewrite Hs. eexists. split; [reflexivity|]. apply (coin_roundtrip IsFullyValid Decompress Hd); [done|].
    unfold Coin_Serialize. by rewrite Hs.
  - by apply block_undo_roundtrip.
  - split; [by apply CoinEntry_inj|by intros ->].
Qed.

(** A coinbase output to an uncompressed key, under a curve with one valid key. *)
Definition demo_key : list Z := 4 :: replicate 63 17 ++ [5].
Definition demo_valid (key : list Z) : bool := bool_decide (key = demo_key).
Definition demo_decompress (key : list Z) : option (list Z) := if bool_decide (key = 3 :: replicate 32 17) then Some demo_key else None.
Definition demo_coin : Coin := mkCoin (mkTxOut 5000000000 ([65] ++ demo_key ++ [OP_CHECKSIG])) true 170.

Lemma stored_coins_roundtrip_witness :
  Coin_Serialize demo_valid demo_coin = Some ([129; 85; 50; 5] ++ replicate 32 17) ∧
  Coin_Unserialize demo_decompress ([129; 85; 50; 5] ++ replicate 32 17) = Ok (demo_coin, []).
Proof.
  assert (∀ key, demo_valid key = true → length key = 65%nat → key !!! 0%nat = 4 →
    demo_decompress (2 + Z.land (key !!! 64%nat) 1 :: take 32 (drop 1 key)) = Some key) as Hd.
  { intros key Hv _ _. apply bool_decide_eq_true in Hv as ->. vm_compute. reflexivity. }
  assert (coin_ok demo_coin) as Hc by (split; [split; vm_compute; congruence|cbn; lia]).
  destruct (stored_coins_roundtrip demo_valid demo_decompress demo_coin [[demo_coin]] (mkOutPoint null256 0) (mkOutPoint null256 1) [] Hd Hc)
    as [(b & Eb & E) _]; [reflexivity| |reflexivity|reflexivity|split; vm_compute; congruence|split; vm_compute; congruence|].
  - split; [vm_compute; congruence|]. intros l ->%list_elem_of_singleton. split; [vm_compute; congruence|]. by intros c ->%list_elem_of_singleton.
  - assert (b = [129; 85; 50; 5] ++ replicate 32 17) as Ebb by (vm_compute in Eb; injection Eb as <-; reflexivity).
    split; [by rewrite <- Ebb|]. rewrite Ebb, app_nil_r in E. exact E.
Defined.

End CompressorProps.
