(* ===== verification/HashWriter.v ===== *)
(** The writers of [src/crypto]: what [CSHA1], [CSHA256] and [CRIPEMD160] share,
    a stream of bytes cut into blocks of 64, and the theorem that however the
    message is cut into calls of [Write] the result is that of the padded message. *)
From Stdlib Require Import ZArith Lia.
From stdpp Require Import list.
From S2P Require Import Prelude.
Local Open Scope Z_scope.

(** * Streams of blocks *)

(** What the hash classes of [src/crypto] share: a state [s], a buffer for an
    incomplete block of 64 bytes and the number of bytes written.  [Transform]
    processes a number of blocks: in [CSHA256] one call, in [CSHA1] and
    [CRIPEMD160] the [while] loop of [Write]. *)
Module Writer.

Record writer (S : Type) := mkWriter {
  w_s : S;
  w_buf : list Z;
  w_bytes : Z;   (* [uint64_t] *)
}.
Arguments mkWriter {S}.
Arguments w_s {S}.
Arguments w_buf {S}.
Arguments w_bytes {S}.

(** [memcpy(buf + off, data, data.size())] *)
Definition copy_at (buf : list Z) (off : nat) (data : list Z) : list Z :=
  take off buf ++ data ++ drop (off + length data) buf.

Section Write.
Context {S : Type} (Transform : S → list Z → nat → S).

Definition Write (w : writer S) (data : list Z) : writer S :=
  let bufsize := Z.to_nat (w_bytes w mod 64) in
  let '(w, data, bufsize) :=
    if negb (bufsize =? 0)%nat && (64 <=? bufsize + length data)%nat then
      let buf := copy_at (w_buf w) bufsize (take (64 - bufsize) data) in
      (mkWriter (Transform (w_s w) buf 1) buf (u64 (w_bytes w + Z.of_nat (64 - bufsize))), drop (64 - bufsize) data, 0%nat)
    else (w, data, bufsize) in
  let '(w, data) :=
    if (64 <=? length data)%nat then
      let blocks := (length data / 64)%nat in
      (mkWriter (Transform (w_s w) data blocks) (w_buf w) (u64 (w_bytes w + Z.of_nat (64 * blocks))), drop (64 * blocks) data)
    else (w, data) in
  if (0 <? length data)%nat
  then mkWriter (w_s w) (copy_at (w_buf w) bufsize data) (u64 (w_bytes w + Z.of_nat (length data)))
  else w.

(** The state after the padding of [Finalize]; [WriteSize] is [WriteBE64] or
    [WriteLE64]. *)
Definition Pad (WriteSize : Z → list Z) (w : writer S) : writer S :=
  let sizedesc := WriteSize (u64 (Z.shiftl (w_bytes w) 3)) in
  let pad := 0x80 :: replicate 63 0 in
  let w' := Write w (take (1 + Z.to_nat ((119 - w_bytes w mod 64) mod 64)) pad) in
  Write w' sizedesc.

End Write.

(** [src/crypto/common.h] *)
Definition ReadBE32 (ptr : list Z) (off : nat) : Z := le_decode (rev (take 4 (drop off ptr))).
Definition ReadLE32 (ptr : list Z) (off : nat) : Z := le_decode (take 4 (drop off ptr)).
Definition WriteBE32 (x : Z) : list Z := rev (le_encode 4 x).
Definition WriteLE32 (x : Z) : list Z := le_encode 4 x.
Definition WriteBE64 (x : Z) : list Z := rev (le_encode 8 x).
Definition WriteLE64 (x : Z) : list Z := le_encode 8 x.

End Writer.

(** * The padded message *)
Module WriterSpec.
Import Writer.

(** The first [n] blocks of a message. *)
Fixpoint blocks (n : nat) (l : list Z) : list (list Z) :=
  match n with
  | O => []
  | S n => take 64 l :: blocks n (drop 64 l)
  end.

(** A one bit, zeros up to the last eight bytes of a block, the number of bits. *)
Definition padding (msg : list Z) : list Z :=
  0x80 :: replicate (Z.to_nat ((55 - Z.of_nat (length msg)) mod 64)) 0.
Definition padded (WriteSize : Z → list Z) (msg : list Z) : list Z :=
  msg ++ padding msg ++ WriteSize (u64 (8 * Z.of_nat (length msg))).

(** The compression function iterated over the blocks. *)
Definition iterate {S : Type} (compress : S → list Z → S) (init : S) (l : list Z) : S :=
  foldl compress init (blocks (length l / 64) l).

(** The sixteen words of a block, and the bytes of the words of the state. *)
Definition words (Read : list Z → nat → Z) (block : list Z) : list Z := map (fun i => Read block (4 * i)%nat) (seq 0 16).
Definition output (Write : Z → list Z) (s : list Z) : list Z := mjoin (map Write s).

(** [n] more words of a message schedule; [next] finds a word from the word [j]
    places before it. *)
Fixpoint schedule (next : (nat → Z) → Z) (n : nat) (W : list Z) : list Z :=
  match n with
  | O => W
  | S n => schedule next n (W ++ [next (fun j => W !!! (length W - j)%nat)])
  end.

End WriterSpec.

Module WriterFacts.
Import Writer WriterSpec.

Lemma blocks_app_l n l l' : (64 * n <= length l)%nat → blocks n (l ++ l') = blocks n l.
Proof.
  revert l. induction n as [|n IH]; intros l Hl; cbn [blocks]; [done|].
  rewrite take_app_le, drop_app_le by lia. rewrite IH; [done|]. rewrite length_drop. lia.
Qed.

Lemma blocks_add m n l : blocks (m + n) l = blocks m l ++ blocks n (drop (64 * m) l).
Proof.
  revert l. induction m as [|m IH]; intros l; cbn [blocks Nat.add app]; [by rewrite drop_0|].
  rewrite IH, drop_drop. by replace (64 * S m)%nat with (64 + 64 * m)%nat by lia.
Qed.

Lemma words_take (decode : list Z → Z) l :
  words (fun l off => decode (take 4 (drop off l))) (take 64 l) = words (fun l off => decode (take 4 (drop off l))) l.
Proof.
  unfold words. apply map_ext_in. intros i Hi%in_seq. f_equal. rewrite (skipn_firstn_comm _ 64), take_take. by rewrite Nat.min_l by lia.
Qed.

Lemma words_BE l : words ReadBE32 (take 64 l) = words ReadBE32 l.
Proof. exact (words_take (fun l => le_decode (rev l)) l). Qed.

Lemma words_LE l : words ReadLE32 (take 64 l) = words ReadLE32 l.
Proof. exact (words_take le_decode l). Qed.

Lemma output_cons Write x w : output Write (x :: w) = Write x ++ output Write w.
Proof. reflexivity. Qed.

Lemma output_size Write w :
  (∀ x, length (Write x) = 4%nat ∧ bytes_ok (Write x)) → length (output Write w) = (4 * length w)%nat ∧ bytes_ok (output Write w).
Proof.
  intros H. induction w as [|x w [IH1 IH2]]; [split; [done|constructor]|]. rewrite output_cons. destruct (H x) as [Hl Hb]. cbn [length]. split.
  - rewrite length_app, IH1, Hl. lia.
  - by apply Forall_app.
Qed.

Lemma WriteBE32_size x : length (WriteBE32 x) = 4%nat ∧ bytes_ok (WriteBE32 x).
Proof. unfold WriteBE32. rewrite length_rev, le_encode_length. split; [done|]. apply Forall_rev, le_encode_bytes. Qed.

Lemma WriteLE32_size x : length (WriteLE32 x) = 4%nat ∧ bytes_ok (WriteLE32 x).
Proof. unfold WriteLE32. rewrite le_encode_length. split; [done|]. apply le_encode_bytes. Qed.

(** ** The schedule as a window of sixteen words *)

Fixpoint extend (next : (nat → Z) → Z) (n : nat) (win : list Z) : list Z :=
  match n with
  | O => []
  | S n => let w := next (fun j => win !!! (16 - j)%nat) in w :: extend next n (drop 1 win ++ [w])
  end.

Lemma schedule_extend next n pre win :
  (∀ g g', (∀ j, (0 < j <= 16)%nat → g j = g' j) → next g = next g') → length win = 16%nat →
  schedule next n (pre ++ win) = pre ++ win ++ extend next n win.
Proof.
  intros Hnext. revert pre win. induction n as [|n IH]; intros pre win Hl; cbn [schedule extend]; [by rewrite app_nil_r|].
  rewrite (Hnext _ (fun j => win !!! (16 - j)%nat))
    by (intros j Hj; rewrite length_app, Hl, lookup_total_app_r by lia; f_equal; lia).
  set (w := next _). destruct win as [|x win]; [done|]. cbn [drop]. rewrite drop_0.
  replace ((pre ++ x :: win) ++ [w]) with ((pre ++ [x]) ++ (win ++ [w])) by (by rewrite <- !app_assoc).
  rewrite IH by (rewrite length_app; cbn in *; lia). by rewrite <- !app_assoc.
Qed.

(** ** Unrolled code *)

(** A variable gets its value. *)
Ltac peel :=
  match goal with
  | |- (let x := ?e in @?b x) = ?r => change (b e = r); cbv beta
  end.
(** The same new word on both sides. *)
Ltac same_word :=
  match goal with
  | |- (let x := ?e in @?b x) = ?F (let y := ?e in @?c y) =>
      refine ((fun H : ∀ w, b w = F (c w) => H e) _); let w := fresh "w" in intros w; cbv beta
  end.
(** The same round on both sides. *)
Ltac same_round :=
  match goal with
  | |- (match ?t with _ => _ end) = _ => let x := fresh "r" in let y := fresh "r" in destruct t as [x y]
  end.

Section Stream.
Context {S : Type} (compress : S → list Z → S) (init : S).
Context (Transform : S → list Z → nat → S).
Hypothesis Transform_blocks : ∀ s data n, Transform s data n = foldl compress s (blocks n data).

(** What the writer holds after [msg]: the state of the whole blocks and the
    bytes of the last, incomplete one. *)
Definition absorbed (w : writer S) (msg : list Z) : Prop :=
  ∃ full part, msg = full ++ part ∧ (length full mod 64 = 0)%nat ∧ (length part < 64)%nat ∧
    length (w_buf w) = 64%nat ∧ take (length part) (w_buf w) = part ∧
    w_s w = iterate compress init full ∧ w_bytes w = u64 (Z.of_nat (length msg)).

Lemma iterate_app full l :
  (length full mod 64 = 0)%nat →
  iterate compress init (full ++ l) = foldl compress (iterate compress init full) (blocks (length l / 64) l).
Proof.
  intros Hm. unfold iterate. apply Nat.Div0.div_exact in Hm. rewrite length_app.
  replace ((length full + length l) / 64)%nat with (length full / 64 + length l / 64)%nat
    by (rewrite Hm at 2; rewrite (Nat.mul_comm 64), Nat.div_add_l by lia; done).
  rewrite blocks_add, foldl_app, blocks_app_l, <- Hm, drop_app_length by lia. done.
Qed.

Lemma absorbed_bytes w msg : absorbed w msg → w_bytes w mod 64 = Z.of_nat (length msg) mod 64.
Proof.
  intros (full & part & -> & _ & _ & _ & _ & _ & ->). unfold wrap.
  rewrite <- Znumtheory.Zmod_div_mod; [done|lia|lia|]. by exists (2 ^ 58).
Qed.

Lemma bytes_add (x y : nat) : u64 (u64 (Z.of_nat x) + Z.of_nat y) = u64 (Z.of_nat (x + y)).
Proof. unfold wrap. rewrite Zplus_mod_idemp_l. f_equal. lia. Qed.

(** The buffer is filled and processed. *)
Lemma absorbed_fill w full part data :
  (length full mod 64 = 0)%nat → (0 < length part < 64)%nat → length (w_buf w) = 64%nat →
  take (length part) (w_buf w) = part → w_s w = iterate compress init full →
  w_bytes w = u64 (Z.of_nat (length (full ++ part))) → (64 <= length part + length data)%nat →
  let buf := copy_at (w_buf w) (length part) (take (64 - length part) data) in
  absorbed (mkWriter (Transform (w_s w) buf 1) buf (u64 (w_bytes w + Z.of_nat (64 - length part))))
    (full ++ part ++ take (64 - length part) data).
Proof.
  intros Hf Hp Hb Ht Hs Hn Hd buf.
  assert (buf = part ++ take (64 - length part) data) as E.
  { unfold buf, copy_at. rewrite Ht, (drop_ge (w_buf w)), app_nil_r; [done|]. rewrite length_take. lia. }
  assert (length buf = 64%nat) as Hl by (rewrite E, length_app, length_take; lia).
  rewrite <- E. exists (full ++ buf), []. rewrite app_nil_r, length_app, Hl. cbn [length w_buf w_s w_bytes]. rewrite take_0.
  repeat split; [|lia|done| |].
  - rewrite Nat.Div0.add_mod, Hf. done.
  - rewrite iterate_app, Hl, Transform_blocks, Hs by done. done.
  - rewrite Hn, bytes_add, length_app. f_equal. lia.
Qed.

(** Whole blocks are processed from the data. *)
Lemma absorbed_blocks w full data :
  (length full mod 64 = 0)%nat → length (w_buf w) = 64%nat → w_s w = iterate compress init full →
  w_bytes w = u64 (Z.of_nat (length full)) →
  let n := (length data / 64)%nat in
  absorbed (mkWriter (Transform (w_s w) data n) (w_buf w) (u64 (w_bytes w + Z.of_nat (64 * n)))) (full ++ take (64 * n) data).
Proof.
  intros Hf Hb Hs Hn n. assert (64 * n <= length data)%nat as Hle by (pose proof (Nat.Div0.mul_div_le (length data) 64); unfold n; lia).
  assert (length (take (64 * n) data) = 64 * n)%nat as Hl by (rewrite length_take; lia).
  exists (full ++ take (64 * n) data), []. rewrite app_nil_r, length_app, Hl. cbn [length w_buf w_s w_bytes]. rewrite take_0.
  repeat split; [|lia|done| |].
  - rewrite Nat.Div0.add_mod, Hf, Nat.mul_comm, Nat.Div0.mod_mul. done.
  - rewrite iterate_app, Hl, (Nat.mul_comm 64 n), Nat.div_mul, (Nat.mul_comm n 64), Transform_blocks, Hs by done.
    rewrite <- (take_drop (64 * n) data) at 1. rewrite blocks_app_l by lia. done.
  - rewrite Hn, bytes_add. done.
Qed.

(** The rest goes to the buffer. *)
Lemma absorbed_rest w full part data :
  (length full mod 64 = 0)%nat → length (w_buf w) = 64%nat →
  take (length part) (w_buf w) = part → w_s w = iterate compress init full →
  w_bytes w = u64 (Z.of_nat (length (full ++ part))) → (length part + length data < 64)%nat →
  absorbed (mkWriter (w_s w) (copy_at (w_buf w) (length part) data) (u64 (w_bytes w + Z.of_nat (length data)))) (full ++ part ++ data).
Proof.
  intros Hf Hb Ht Hs Hn Hd. exists full, (part ++ data). cbn [w_buf w_s w_bytes]. unfold copy_at. rewrite Ht, length_app.
  repeat split; [done|done|..|done|].
  - rewrite !length_app, length_drop. lia.
  - rewrite app_assoc, take_app_le by (rewrite length_app; lia). rewrite take_ge by (rewrite length_app; lia). done.
  - rewrite Hn, bytes_add, !length_app. f_equal. lia.
Qed.

Lemma absorbed_mod w msg full part :
  absorbed w msg → msg = full ++ part → (length full mod 64 = 0)%nat → (length part < 64)%nat →
  Z.to_nat (w_bytes w mod 64) = length part.
Proof.
  intros H -> Hf Hp. rewrite (absorbed_bytes _ _ H), <- (Nat2Z.inj_mod _ 64), Nat2Z.id, length_app.
  rewrite Nat.Div0.add_mod, Hf, Nat.add_0_l, Nat.Div0.mod_mod. by apply Nat.mod_small.
Qed.

Lemma absorbed_aligned w msg :
  absorbed w msg → (length msg mod 64 = 0)%nat →
  length (w_buf w) = 64%nat ∧ w_s w = iterate compress init msg ∧ w_bytes w = u64 (Z.of_nat (length msg)).
Proof.
  intros (full & part & -> & Hf & Hp & Hb & Ht & Hs & Hn) Hm. assert (part = []) as ->.
  { apply length_zero_iff_nil. rewrite length_app, Nat.Div0.add_mod, Hf, Nat.add_0_l, Nat.Div0.mod_mod, Nat.mod_small in Hm by done. done. }
  by rewrite app_nil_r in *.
Qed.

(** Whole blocks and then the rest, with nothing in the buffer. *)
Definition Write_whole (w : writer S) (data : list Z) : writer S :=
  let '(w, data) :=
    if (64 <=? length data)%nat then
      let blocks := (length data / 64)%nat in
      (mkWriter (Transform (w_s w) data blocks) (w_buf w) (u64 (w_bytes w + Z.of_nat (64 * blocks))), drop (64 * blocks) data)
    else (w, data) in
  if (0 <? length data)%nat
  then mkWriter (w_s w) (copy_at (w_buf w) 0 data) (u64 (w_bytes w + Z.of_nat (length data)))
  else w.

Lemma absorbed_whole_rest w msg data :
  absorbed w msg → (length msg mod 64 = 0)%nat → (length data < 64)%nat →
  absorbed (if (0 <? length data)%nat then mkWriter (w_s w) (copy_at (w_buf w) 0 data) (u64 (w_bytes w + Z.of_nat (length data))) else w) (msg ++ data).
Proof.
  intros Hw Hm Hd. destruct (absorbed_aligned w msg Hw Hm) as (Hb & Hs & Hn). destruct (Nat.ltb_spec 0 (length data)) as [H|H].
  - apply (absorbed_rest w msg [] data); rewrite ?app_nil_r; done.
  - assert (data = []) as -> by (apply length_zero_iff_nil; lia). by rewrite app_nil_r.
Qed.

Lemma absorbed_whole w msg data : absorbed w msg → (length msg mod 64 = 0)%nat → absorbed (Write_whole w data) (msg ++ data).
Proof.
  intros Hw Hm. unfold Write_whole. destruct (Nat.leb_spec 64 (length data)) as [H|H]; [|by apply absorbed_whole_rest].
  assert (64 * (length data / 64) <= length data)%nat by (apply Nat.Div0.mul_div_le).
  replace (msg ++ data) with ((msg ++ take (64 * (length data / 64)) data) ++ drop (64 * (length data / 64)) data) by (by rewrite <- app_assoc, take_drop).
  apply absorbed_whole_rest.
  - destruct (absorbed_aligned w msg Hw Hm) as (Hb & Hs & Hn). by apply absorbed_blocks.
  - rewrite length_app, length_take_le, Nat.Div0.add_mod, Hm, (Nat.mul_comm 64), Nat.Div0.mod_mul by done. done.
  - rewrite length_drop. pose proof (Nat.div_mod_eq (length data) 64). pose proof (Nat.mod_upper_bound (length data) 64). lia.
Qed.

Lemma Write_absorbed w msg data : absorbed w msg → absorbed (Write Transform w data) (msg ++ data).
Proof.
  intros Hw. pose proof Hw as (full & part & E & Hf & Hp & Hb & Ht & Hs & Hn). unfold Write.
  rewrite (absorbed_mod w msg full part) by done. destruct (Nat.eqb_spec (length part) 0) as [H0|H0]; cbn [negb andb].
  - apply length_zero_iff_nil in H0 as ->. apply (absorbed_whole w msg data); [done|]. by rewrite E, app_nil_r.
  - destruct (Nat.leb_spec 64 (length part + length data)) as [H1|H1].
    + replace (msg ++ data) with ((full ++ part ++ take (64 - length part) data) ++ drop (64 - length part) data) by (by rewrite E, <- !app_assoc, take_drop).
      refine (absorbed_whole _ _ (drop (64 - length part) data) _ _).
      * apply absorbed_fill; subst; done || lia.
      * rewrite !length_app, length_take_le, Nat.Div0.add_mod, Hf by lia. replace (length part + (64 - length part))%nat with 64%nat by lia. done.
    + destruct (Nat.leb_spec 64 (length data)); [lia|]. rewrite E, <- app_assoc. destruct (Nat.ltb_spec 0 (length data)).
      * apply absorbed_rest; subst; done.
      * assert (data = []) as -> by (apply length_zero_iff_nil; lia). rewrite app_nil_r, <- E. done.
Qed.

Lemma Writes_absorbed w msg pieces : absorbed w msg → absorbed (foldl (Write Transform) w pieces) (msg ++ mjoin pieces).
Proof.
  revert w msg. induction pieces as [|p pieces IH]; intros w msg Hw; cbn; [by rewrite app_nil_r|].
  rewrite app_assoc. by apply IH, Write_absorbed.
Qed.

Lemma absorbed_init buf : length buf = 64%nat → absorbed (mkWriter init buf 0) [].
Proof. intros Hb. exists [], []. repeat split; [cbn; lia|done]. Qed.

Lemma padded_aligned WriteSize msg : (∀ z, length (WriteSize z) = 8%nat) → (length (padded WriteSize msg) mod 64 = 0)%nat.
Proof.
  intros H8. unfold padded, padding. rewrite !length_app, H8. cbn [length]. rewrite length_replicate.
  apply Nat2Z.inj. rewrite Nat2Z.inj_mod. pose proof (Z.mod_pos_bound (55 - Z.of_nat (length msg)) 64 ltac:(lia)). zdm.
Qed.

(** [Finalize] hashes the padded message. *)
Lemma Pad_iterate WriteSize w msg :
  (∀ z, length (WriteSize z) = 8%nat) → absorbed w msg →
  w_s (Pad Transform WriteSize w) = iterate compress init (padded WriteSize msg).
Proof.
  intros H8 Hw. refine (proj1 (proj2 (absorbed_aligned _ _ _ (padded_aligned _ msg H8)))). unfold Pad, padded, padding.
  rewrite (absorbed_bytes w msg Hw).
  assert ((119 - Z.of_nat (length msg) mod 64) mod 64 = (55 - Z.of_nat (length msg)) mod 64) as -> by zdm.
  pose proof (Z.mod_pos_bound (55 - Z.of_nat (length msg)) 64 ltac:(lia)).
  replace (u64 (Z.shiftl (w_bytes w) 3)) with (u64 (8 * Z.of_nat (length msg))).
  - rewrite (app_assoc msg). apply Write_absorbed. cbn [take Nat.add]. rewrite take_replicate, Nat.min_l by lia. by apply Write_absorbed.
  - destruct Hw as (_ & _ & _ & _ & _ & _ & _ & _ & ->). rewrite Z.shiftl_mul_pow2 by lia. unfold wrap.
    change (2 ^ 3) with 8. by rewrite Zmult_mod_idemp_l, (Z.mul_comm 8).
Qed.

(** However the message is cut into pieces. *)
Lemma Pad_pieces WriteSize w msg pieces :
  (∀ z, length (WriteSize z) = 8%nat) → absorbed w msg →
  w_s (Pad Transform WriteSize (foldl (Write Transform) w pieces)) = iterate compress init (padded WriteSize (msg ++ mjoin pieces)).
Proof. intros H8 Hw. apply Pad_iterate; [done|]. by apply Writes_absorbed. Qed.

End Stream.

Lemma WriteBE64_size z : length (WriteBE64 z) = 8%nat.
Proof. unfold WriteBE64. by rewrite length_rev, le_encode_length. Qed.

Lemma WriteLE64_size z : length (WriteLE64 z) = 8%nat.
Proof. apply le_encode_length. Qed.

End WriterFacts.
