(* ===== verification/Sha256.v ===== *)
(** SHA-256: [src/crypto/sha256.cpp] in its portable form, the unrolled
    transformation, the double hash of 64 bytes with the message schedule of the
    padding worked out in advance, and the writer [CSHA256].

    Words are integers below [2^32]; sums are reduced where a word is stored. *)
From Stdlib Require Import ZArith Lia.
From stdpp Require Import list.
From S2P Require Import Prelude HashWriter.
Local Open Scope Z_scope.

Module Sha256.
Export Writer.

(** [x >> n | x << (32 - n)] *)
Definition rotr (x n : Z) : Z := Z.lor (Z.shiftr x n) (u32 (Z.shiftl x (32 - n))).

Definition Ch (x y z : Z) : Z := Z.lxor z (Z.land x (Z.lxor y z)).
Definition Maj (x y z : Z) : Z := Z.lor (Z.land x y) (Z.land z (Z.lor x y)).
Definition Sigma0 (x : Z) : Z := Z.lxor (Z.lxor (rotr x 2) (rotr x 13)) (rotr x 22).
Definition Sigma1 (x : Z) : Z := Z.lxor (Z.lxor (rotr x 6) (rotr x 11)) (rotr x 25).
Definition sigma0 (x : Z) : Z := Z.lxor (Z.lxor (rotr x 7) (rotr x 18)) (Z.shiftr x 3).
Definition sigma1 (x : Z) : Z := Z.lxor (Z.lxor (rotr x 17) (rotr x 19)) (Z.shiftr x 10).

(** The new values of [d] and [h]. *)
Definition Round (a b c d e f g h k : Z) : Z * Z :=
  let t1 := u32 (h + Sigma1 e + Ch e f g + k) in
  let t2 := u32 (Sigma0 a + Maj a b c) in
  (u32 (d + t1), u32 (t1 + t2)).

Definition Initialize : list Z :=
  [0x6a09e667; 0xbb67ae85; 0x3c6ef372; 0xa54ff53a; 0x510e527f; 0x9b05688c; 0x1f83d9ab; 0x5be0cd19].

(** One turn of the loop of [Transform]. *)
Definition Transform_block (s chunk : list Z) : list Z :=
  let a := s !!! 0%nat in let b := s !!! 1%nat in let c := s !!! 2%nat in let d := s !!! 3%nat in
  let e := s !!! 4%nat in let f := s !!! 5%nat in let g := s !!! 6%nat in let h := s !!! 7%nat in
  let w0 := ReadBE32 chunk 0 in let '(d, h) := Round a b c d e f g h (0x428a2f98 + w0) in
  let w1 := ReadBE32 chunk 4 in let '(c, g) := Round h a b c d e f g (0x71374491 + w1) in
  let w2 := ReadBE32 chunk 8 in let '(b, f) := Round g h a b c d e f (0xb5c0fbcf + w2) in
  let w3 := ReadBE32 chunk 12 in let '(a, e) := Round f g h a b c d e (0xe9b5dba5 + w3) in
  let w4 := ReadBE32 chunk 16 in let '(h, d) := Round e f g h a b c d (0x3956c25b + w4) in
  let w5 := ReadBE32 chunk 20 in let '(g, c) := Round d e f g h a b c (0x59f111f1 + w5) in
  let w6 := ReadBE32 chunk 24 in let '(f, b) := Round c d e f g h a b (0x923f82a4 + w6) in
  let w7 := ReadBE32 chunk 28 in let '(e, a) := Round b c d e f g h a (0xab1c5ed5 + w7) in
  let w8 := ReadBE32 chunk 32 in let '(d, h) := Round a b c d e f g h (0xd807aa98 + w8) in
  let w9 := ReadBE32 chunk 36 in let '(c, g) := Round h a b c d e f g (0x12835b01 + w9) in
  let w10 := ReadBE32 chunk 40 in let '(b, f) := Round g h a b c d e f (0x243185be + w10) in
  let w11 := ReadBE32 chunk 44 in let '(a, e) := Round f g h a b c d e (0x550c7dc3 + w11) in
  let w12 := ReadBE32 chunk 48 in let '(h, d) := Round e f g h a b c d (0x72be5d74 + w12) in
  let w13 := ReadBE32 chunk 52 in let '(g, c) := Round d e f g h a b c (0x80deb1fe + w13) in
  let w14 := ReadBE32 chunk 56 in let '(f, b) := Round c d e f g h a b (0x9bdc06a7 + w14) in
  let w15 := ReadBE32 chunk 60 in let '(e, a) := Round b c d e f g h a (0xc19bf174 + w15) in
  let w0 := u32 (w0 + (sigma1 w14 + w9 + sigma0 w1)) in let '(d, h) := Round a b c d e f g h (0xe49b69c1 + w0) in
  let w1 := u32 (w1 + (sigma1 w15 + w10 + sigma0 w2)) in let '(c, g) := Round h a b c d e f g (0xefbe4786 + w1) in
  let w2 := u32 (w2 + (sigma1 w0 + w11 + sigma0 w3)) in let '(b, f) := Round g h a b c d e f (0x0fc19dc6 + w2) in
  let w3 := u32 (w3 + (sigma1 w1 + w12 + sigma0 w4)) in let '(a, e) := Round f g h a b c d e (0x240ca1cc + w3) in
  let w4 := u32 (w4 + (sigma1 w2 + w13 + sigma0 w5)) in let '(h, d) := Round e f g h a b c d (0x2de92c6f + w4) in
  let w5 := u32 (w5 + (sigma1 w3 + w14 + sigma0 w6)) in let '(g, c) := Round d e f g h a b c (0x4a7484aa + w5) in
  let w6 := u32 (w6 + (sigma1 w4 + w15 + sigma0 w7)) in let '(f, b) := Round c d e f g h a b (0x5cb0a9dc + w6) in
  let w7 := u32 (w7 + (sigma1 w5 + w0 + sigma0 w8)) in let '(e, a) := Round b c d e f g h a (0x76f988da + w7) in
  let w8 := u32 (w8 + (sigma1 w6 + w1 + sigma0 w9)) in let '(d, h) := Round a b c d e f g h (0x983e5152 + w8) in
  let w9 := u32 (w9 + (sigma1 w7 + w2 + sigma0 w10)) in let '(c, g) := Round h a b c d e f g (0xa831c66d + w9) in
  let w10 := u32 (w10 + (sigma1 w8 + w3 + sigma0 w11)) in let '(b, f) := Round g h a b c d e f (0xb00327c8 + w10) in
  let w11 := u32 (w11 + (sigma1 w9 + w4 + sigma0 w12)) in let '(a, e) := Round f g h a b c d e (0xbf597fc7 + w11) in
  let w12 := u32 (w12 + (sigma1 w10 + w5 + sigma0 w13)) in let '(h, d) := Round e f g h a b c d (0xc6e00bf3 + w12) in
  let w13 := u32 (w13 + (sigma1 w11 + w6 + sigma0 w14)) in let '(g, c) := Round d e f g h a b c (0xd5a79147 + w13) in
  let w14 := u32 (w14 + (sigma1 w12 + w7 + sigma0 w15)) in let '(f, b) := Round c d e f g h a b (0x06ca6351 + w14) in
  let w15 := u32 (w15 + (sigma1 w13 + w8 + sigma0 w0)) in let '(e, a) := Round b c d e f g h a (0x14292967 + w15) in
  let w0 := u32 (w0 + (sigma1 w14 + w9 + sigma0 w1)) in let '(d, h) := Round a b c d e f g h (0x27b70a85 + w0) in
  let w1 := u32 (w1 + (sigma1 w15 + w10 + sigma0 w2)) in let '(c, g) := Round h a b c d e f g (0x2e1b2138 + w1) in
  let w2 := u32 (w2 + (sigma1 w0 + w11 + sigma0 w3)) in let '(b, f) := Round g h a b c d e f (0x4d2c6dfc + w2) in
  let w3 := u32 (w3 + (sigma1 w1 + w12 + sigma0 w4)) in let '(a, e) := Round f g h a b c d e (0x53380d13 + w3) in
  let w4 := u32 (w4 + (sigma1 w2 + w13 + sigma0 w5)) in let '(h, d) := Round e f g h a b c d (0x650a7354 + w4) in
  let w5 := u32 (w5 + (sigma1 w3 + w14 + sigma0 w6)) in let '(g, c) := Round d e f g h a b c (0x766a0abb + w5) in
  let w6 := u32 (w6 + (sigma1 w4 + w15 + sigma0 w7)) in let '(f, b) := Round c d e f g h a b (0x81c2c92e + w6) in
  let w7 := u32 (w7 + (sigma1 w5 + w0 + sigma0 w8)) in let '(e, a) := Round b c d e f g h a (0x92722c85 + w7) in
  let w8 := u32 (w8 + (sigma1 w6 + w1 + sigma0 w9)) in let '(d, h) := Round a b c d e f g h (0xa2bfe8a1 + w8) in
  let w9 := u32 (w9 + (sigma1 w7 + w2 + sigma0 w10)) in let '(c, g) := Round h a b c d e f g (0xa81a664b + w9) in
  let w10 := u32 (w10 + (sigma1 w8 + w3 + sigma0 w11)) in let '(b, f) := Round g h a b c d e f (0xc24b8b70 + w10) in
  let w11 := u32 (w11 + (sigma1 w9 + w4 + sigma0 w12)) in let '(a, e) := Round f g h a b c d e (0xc76c51a3 + w11) in
  let w12 := u32 (w12 + (sigma1 w10 + w5 + sigma0 w13)) in let '(h, d) := Round e f g h a b c d (0xd192e819 + w12) in
  let w13 := u32 (w13 + (sigma1 w11 + w6 + sigma0 w14)) in let '(g, c) := Round d e f g h a b c (0xd6990624 + w13) in
  let w14 := u32 (w14 + (sigma1 w12 + w7 + sigma0 w15)) in let '(f, b) := Round c d e f g h a b (0xf40e3585 + w14) in
  let w15 := u32 (w15 + (sigma1 w13 + w8 + sigma0 w0)) in let '(e, a) := Round b c d e f g h a (0x106aa070 + w15) in
  let w0 := u32 (w0 + (sigma1 w14 + w9 + sigma0 w1)) in let '(d, h) := Round a b c d e f g h (0x19a4c116 + w0) in
  let w1 := u32 (w1 + (sigma1 w15 + w10 + sigma0 w2)) in let '(c, g) := Round h a b c d e f g (0x1e376c08 + w1) in
  let w2 := u32 (w2 + (sigma1 w0 + w11 + sigma0 w3)) in let '(b, f) := Round g h a b c d e f (0x2748774c + w2) in
  let w3 := u32 (w3 + (sigma1 w1 + w12 + sigma0 w4)) in let '(a, e) := Round f g h a b c d e (0x34b0bcb5 + w3) in
  let w4 := u32 (w4 + (sigma1 w2 + w13 + sigma0 w5)) in let '(h, d) := Round e f g h a b c d (0x391c0cb3 + w4) in
  let w5 := u32 (w5 + (sigma1 w3 + w14 + sigma0 w6)) in let '(g, c) := Round d e f g h a b c (0x4ed8aa4a + w5) in
  let w6 := u32 (w6 + (sigma1 w4 + w15 + sigma0 w7)) in let '(f, b) := Round c d e f g h a b (0x5b9cca4f + w6) in
  let w7 := u32 (w7 + (sigma1 w5 + w0 + sigma0 w8)) in let '(e, a) := Round b c d e f g h a (0x682e6ff3 + w7) in
  let w8 := u32 (w8 + (sigma1 w6 + w1 + sigma0 w9)) in let '(d, h) := Round a b c d e f g h (0x748f82ee + w8) in
  let w9 := u32 (w9 + (sigma1 w7 + w2 + sigma0 w10)) in let '(c, g) := Round h a b c d e f g (0x78a5636f + w9) in
  let w10 := u32 (w10 + (sigma1 w8 + w3 + sigma0 w11)) in let '(b, f) := Round g h a b c d e f (0x84c87814 + w10) in
  let w11 := u32 (w11 + (sigma1 w9 + w4 + sigma0 w12)) in let '(a, e) := Round f g h a b c d e (0x8cc70208 + w11) in
  let w12 := u32 (w12 + (sigma1 w10 + w5 + sigma0 w13)) in let '(h, d) := Round e f g h a b c d (0x90befffa + w12) in
  let w13 := u32 (w13 + (sigma1 w11 + w6 + sigma0 w14)) in let '(g, c) := Round d e f g h a b c (0xa4506ceb + w13) in
  let '(f, b) := Round c d e f g h a b (0xbef9a3f7 + (w14 + sigma1 w12 + w7 + sigma0 w15)) in
  let '(e, a) := Round b c d e f g h a (0xc67178f2 + (w15 + sigma1 w13 + w8 + sigma0 w0)) in
  [u32 (s !!! 0%nat + a); u32 (s !!! 1%nat + b); u32 (s !!! 2%nat + c); u32 (s !!! 3%nat + d); u32 (s !!! 4%nat + e); u32 (s !!! 5%nat + f); u32 (s !!! 6%nat + g); u32 (s !!! 7%nat + h)].

Fixpoint Transform (s chunk : list Z) (blocks : nat) {struct blocks} : list Z :=
  match blocks with
  | O => s
  | S blocks => Transform (Transform_block s chunk) (drop 64 chunk) blocks
  end.

(** ** The double hash of 64 bytes *)

(** "Transform 1", up to [t0 .. t7]. *)
Definition TransformD64_1 (inp : list Z) : list Z :=
  let a := 0x6a09e667 in
  let b := 0xbb67ae85 in
  let c := 0x3c6ef372 in
  let d := 0xa54ff53a in
  let e := 0x510e527f in
  let f := 0x9b05688c in
  let g := 0x1f83d9ab in
  let h := 0x5be0cd19 in
  let w0 := ReadBE32 inp 0 in let '(d, h) := Round a b c d e f g h (0x428a2f98 + w0) in
  let w1 := ReadBE32 inp 4 in let '(c, g) := Round h a b c d e f g (0x71374491 + w1) in
  let w2 := ReadBE32 inp 8 in let '(b, f) := Round g h a b c d e f (0xb5c0fbcf + w2) in
  let w3 := ReadBE32 inp 12 in let '(a, e) := Round f g h a b c d e (0xe9b5dba5 + w3) in
  let w4 := ReadBE32 inp 16 in let '(h, d) := Round e f g h a b c d (0x3956c25b + w4) in
  let w5 := ReadBE32 inp 20 in let '(g, c) := Round d e f g h a b c (0x59f111f1 + w5) in
  let w6 := ReadBE32 inp 24 in let '(f, b) := Round c d e f g h a b (0x923f82a4 + w6) in
  let w7 := ReadBE32 inp 28 in let '(e, a) := Round b c d e f g h a (0xab1c5ed5 + w7) in
  let w8 := ReadBE32 inp 32 in let '(d, h) := Round a b c d e f g h (0xd807aa98 + w8) in
  let w9 := ReadBE32 inp 36 in let '(c, g) := Round h a b c d e f g (0x12835b01 + w9) in
  let w10 := ReadBE32 inp 40 in let '(b, f) := Round g h a b c d e f (0x243185be + w10) in
  let w11 := ReadBE32 inp 44 in let '(a, e) := Round f g h a b c d e (0x550c7dc3 + w11) in
  let w12 := ReadBE32 inp 48 in let '(h, d) := Round e f g h a b c d (0x72be5d74 + w12) in
  let w13 := ReadBE32 inp 52 in let '(g, c) := Round d e f g h a b c (0x80deb1fe + w13) in
  let w14 := ReadBE32 inp 56 in let '(f, b) := Round c d e f g h a b (0x9bdc06a7 + w14) in
  let w15 := ReadBE32 inp 60 in let '(e, a) := Round b c d e f g h a (0xc19bf174 + w15) in
  let w0 := u32 (w0 + (sigma1 w14 + w9 + sigma0 w1)) in let '(d, h) := Round a b c d e f g h (0xe49b69c1 + w0) in
  let w1 := u32 (w1 + (sigma1 w15 + w10 + sigma0 w2)) in let '(c, g) := Round h a b c d e f g (0xefbe4786 + w1) in
  let w2 := u32 (w2 + (sigma1 w0 + w11 + sigma0 w3)) in let '(b, f) := Round g h a b c d e f (0x0fc19dc6 + w2) in
  let w3 := u32 (w3 + (sigma1 w1 + w12 + sigma0 w4)) in let '(a, e) := Round f g h a b c d e (0x240ca1cc + w3) in
  let w4 := u32 (w4 + (sigma1 w2 + w13 + sigma0 w5)) in let '(h, d) := Round e f g h a b c d (0x2de92c6f + w4) in
  let w5 := u32 (w5 + (sigma1 w3 + w14 + sigma0 w6)) in let '(g, c) := Round d e f g h a b c (0x4a7484aa + w5) in
  let w6 := u32 (w6 + (sigma1 w4 + w15 + sigma0 w7)) in let '(f, b) := Round c d e f g h a b (0x5cb0a9dc + w6) in
  let w7 := u32 (w7 + (sigma1 w5 + w0 + sigma0 w8)) in let '(e, a) := Round b c d e f g h a (0x76f988da + w7) in
  let w8 := u32 (w8 + (sigma1 w6 + w1 + sigma0 w9)) in let '(d, h) := Round a b c d e f g h (0x983e5152 + w8) in
  let w9 := u32 (w9 + (sigma1 w7 + w2 + sigma0 w10)) in let '(c, g) := Round h a b c d e f g (0xa831c66d + w9) in
  let w10 := u32 (w10 + (sigma1 w8 + w3 + sigma0 w11)) in let '(b, f) := Round g h a b c d e f (0xb00327c8 + w10) in
  let w11 := u32 (w11 + (sigma1 w9 + w4 + sigma0 w12)) in let '(a, e) := Round f g h a b c d e (0xbf597fc7 + w11) in
  let w12 := u32 (w12 + (sigma1 w10 + w5 + sigma0 w13)) in let '(h, d) := Round e f g h a b c d (0xc6e00bf3 + w12) in
  let w13 := u32 (w13 + (sigma1 w11 + w6 + sigma0 w14)) in let '(g, c) := Round d e f g h a b c (0xd5a79147 + w13) in
  let w14 := u32 (w14 + (sigma1 w12 + w7 + sigma0 w15)) in let '(f, b) := Round c d e f g h a b (0x06ca6351 + w14) in
  let w15 := u32 (w15 + (sigma1 w13 + w8 + sigma0 w0)) in let '(e, a) := Round b c d e f g h a (0x14292967 + w15) in
  let w0 := u32 (w0 + (sigma1 w14 + w9 + sigma0 w1)) in let '(d, h) := Round a b c d e f g h (0x27b70a85 + w0) in
  let w1 := u32 (w1 + (sigma1 w15 + w10 + sigma0 w2)) in let '(c, g) := Round h a b c d e f g (0x2e1b2138 + w1) in
  let w2 := u32 (w2 + (sigma1 w0 + w11 + sigma0 w3)) in let '(b, f) := Round g h a b c d e f (0x4d2c6dfc + w2) in
  let w3 := u32 (w3 + (sigma1 w1 + w12 + sigma0 w4)) in let '(a, e) := Round f g h a b c d e (0x53380d13 + w3) in
  let w4 := u32 (w4 + (sigma1 w2 + w13 + sigma0 w5)) in let '(h, d) := Round e f g h a b c d (0x650a7354 + w4) in
  let w5 := u32 (w5 + (sigma1 w3 + w14 + sigma0 w6)) in let '(g, c) := Round d e f g h a b c (0x766a0abb + w5) in
  let w6 := u32 (w6 + (sigma1 w4 + w15 + sigma0 w7)) in let '(f, b) := Round c d e f g h a b (0x81c2c92e + w6) in
  let w7 := u32 (w7 + (sigma1 w5 + w0 + sigma0 w8)) in let '(e, a) := Round b c d e f g h a (0x92722c85 + w7) in
  let w8 := u32 (w8 + (sigma1 w6 + w1 + sigma0 w9)) in let '(d, h) := Round a b c d e f g h (0xa2bfe8a1 + w8) in
  let w9 := u32 (w9 + (sigma1 w7 + w2 + sigma0 w10)) in let '(c, g) := Round h a b c d e f g (0xa81a664b + w9) in
  let w10 := u32 (w10 + (sigma1 w8 + w3 + sigma0 w11)) in let '(b, f) := Round g h a b c d e f (0xc24b8b70 + w10) in
  let w11 := u32 (w11 + (sigma1 w9 + w4 + sigma0 w12)) in let '(a, e) := Round f g h a b c d e (0xc76c51a3 + w11) in
  let w12 := u32 (w12 + (sigma1 w10 + w5 + sigma0 w13)) in let '(h, d) := Round e f g h a b c d (0xd192e819 + w12) in
  let w13 := u32 (w13 + (sigma1 w11 + w6 + sigma0 w14)) in let '(g, c) := Round d e f g h a b c (0xd6990624 + w13) in
  let w14 := u32 (w14 + (sigma1 w12 + w7 + sigma0 w15)) in let '(f, b) := Round c d e f g h a b (0xf40e3585 + w14) in
  let w15 := u32 (w15 + (sigma1 w13 + w8 + sigma0 w0)) in let '(e, a) := Round b c d e f g h a (0x106aa070 + w15) in
  let w0 := u32 (w0 + (sigma1 w14 + w9 + sigma0 w1)) in let '(d, h) := Round a b c d e f g h (0x19a4c116 + w0) in
  let w1 := u32 (w1 + (sigma1 w15 + w10 + sigma0 w2)) in let '(c, g) := Round h a b c d e f g (0x1e376c08 + w1) in
  let w2 := u32 (w2 + (sigma1 w0 + w11 + sigma0 w3)) in let '(b, f) := Round g h a b c d e f (0x2748774c + w2) in
  let w3 := u32 (w3 + (sigma1 w1 + w12 + sigma0 w4)) in let '(a, e) := Round f g h a b c d e (0x34b0bcb5 + w3) in
  let w4 := u32 (w4 + (sigma1 w2 + w13 + sigma0 w5)) in let '(h, d) := Round e f g h a b c d (0x391c0cb3 + w4) in
  let w5 := u32 (w5 + (sigma1 w3 + w14 + sigma0 w6)) in let '(g, c) := Round d e f g h a b c (0x4ed8aa4a + w5) in
  let w6 := u32 (w6 + (sigma1 w4 + w15 + sigma0 w7)) in let '(f, b) := Round c d e f g h a b (0x5b9cca4f + w6) in
  let w7 := u32 (w7 + (sigma1 w5 + w0 + sigma0 w8)) in let '(e, a) := Round b c d e f g h a (0x682e6ff3 + w7) in
  let w8 := u32 (w8 + (sigma1 w6 + w1 + sigma0 w9)) in let '(d, h) := Round a b c d e f g h (0x748f82ee + w8) in
  let w9 := u32 (w9 + (sigma1 w7 + w2 + sigma0 w10)) in let '(c, g) := Round h a b c d e f g (0x78a5636f + w9) in
  let w10 := u32 (w10 + (sigma1 w8 + w3 + sigma0 w11)) in let '(b, f) := Round g h a b c d e f (0x84c87814 + w10) in
  let w11 := u32 (w11 + (sigma1 w9 + w4 + sigma0 w12)) in let '(a, e) := Round f g h a b c d e (0x8cc70208 + w11) in
  let w12 := u32 (w12 + (sigma1 w10 + w5 + sigma0 w13)) in let '(h, d) := Round e f g h a b c d (0x90befffa + w12) in
  let w13 := u32 (w13 + (sigma1 w11 + w6 + sigma0 w14)) in let '(g, c) := Round d e f g h a b c (0xa4506ceb + w13) in
  let '(f, b) := Round c d e f g h a b (0xbef9a3f7 + (w14 + sigma1 w12 + w7 + sigma0 w15)) in
  let '(e, a) := Round b c d e f g h a (0xc67178f2 + (w15 + sigma1 w13 + w8 + sigma0 w0)) in
  [u32 (a + 0x6a09e667); u32 (b + 0xbb67ae85); u32 (c + 0x3c6ef372); u32 (d + 0xa54ff53a); u32 (e + 0x510e527f); u32 (f + 0x9b05688c); u32 (g + 0x1f83d9ab); u32 (h + 0x5be0cd19)].

(** "Transform 2", which leaves [w0 .. w7]. *)
Definition TransformD64_2 (t : list Z) : list Z :=
  let a := t !!! 0%nat in let b := t !!! 1%nat in let c := t !!! 2%nat in let d := t !!! 3%nat in
  let e := t !!! 4%nat in let f := t !!! 5%nat in let g := t !!! 6%nat in let h := t !!! 7%nat in
  let '(d, h) := Round a b c d e f g h 0xc28a2f98 in
  let '(c, g) := Round h a b c d e f g 0x71374491 in
  let '(b, f) := Round g h a b c d e f 0xb5c0fbcf in
  let '(a, e) := Round f g h a b c d e 0xe9b5dba5 in
  let '(h, d) := Round e f g h a b c d 0x3956c25b in
  let '(g, c) := Round d e f g h a b c 0x59f111f1 in
  let '(f, b) := Round c d e f g h a b 0x923f82a4 in
  let '(e, a) := Round b c d e f g h a 0xab1c5ed5 in
  let '(d, h) := Round a b c d e f g h 0xd807aa98 in
  let '(c, g) := Round h a b c d e f g 0x12835b01 in
  let '(b, f) := Round g h a b c d e f 0x243185be in
  let '(a, e) := Round f g h a b c d e 0x550c7dc3 in
  let '(h, d) := Round e f g h a b c d 0x72be5d74 in
  let '(g, c) := Round d e f g h a b c 0x80deb1fe in
  let '(f, b) := Round c d e f g h a b 0x9bdc06a7 in
  let '(e, a) := Round b c d e f g h a 0xc19bf374 in
  let '(d, h) := Round a b c d e f g h 0x649b69c1 in
  let '(c, g) := Round h a b c d e f g 0xf0fe4786 in
  let '(b, f) := Round g h a b c d e f 0x0fe1edc6 in
  let '(a, e) := Round f g h a b c d e 0x240cf254 in
  let '(h, d) := Round e f g h a b c d 0x4fe9346f in
  let '(g, c) := Round d e f g h a b c 0x6cc984be in
  let '(f, b) := Round c d e f g h a b 0x61b9411e in
  let '(e, a) := Round b c d e f g h a 0x16f988fa in
  let '(d, h) := Round a b c d e f g h 0xf2c65152 in
  let '(c, g) := Round h a b c d e f g 0xa88e5a6d in
  let '(b, f) := Round g h a b c d e f 0xb019fc65 in
  let '(a, e) := Round f g h a b c d e 0xb9d99ec7 in
  let '(h, d) := Round e f g h a b c d 0x9a1231c3 in
  let '(g, c) := Round d e f g h a b c 0xe70eeaa0 in
  let '(f, b) := Round c d e f g h a b 0xfdb1232b in
  let '(e, a) := Round b c d e f g h a 0xc7353eb0 in
  let '(d, h) := Round a b c d e f g h 0x3069bad5 in
  let '(c, g) := Round h a b c d e f g 0xcb976d5f in
  let '(b, f) := Round g h a b c d e f 0x5a0f118f in
  let '(a, e) := Round f g h a b c d e 0xdc1eeefd in
  let '(h, d) := Round e f g h a b c d 0x0a35b689 in
  let '(g, c) := Round d e f g h a b c 0xde0b7a04 in
  let '(f, b) := Round c d e f g h a b 0x58f4ca9d in
  let '(e, a) := Round b c d e f g h a 0xe15d5b16 in
  let '(d, h) := Round a b c d e f g h 0x007f3e86 in
  let '(c, g) := Round h a b c d e f g 0x37088980 in
  let '(b, f) := Round g h a b c d e f 0xa507ea32 in
  let '(a, e) := Round f g h a b c d e 0x6fab9537 in
  let '(h, d) := Round e f g h a b c d 0x17406110 in
  let '(g, c) := Round d e f g h a b c 0x0d8cd6f1 in
  let '(f, b) := Round c d e f g h a b 0xcdaa3b6d in
  let '(e, a) := Round b c d e f g h a 0xc0bbbe37 in
  let '(d, h) := Round a b c d e f g h 0x83613bda in
  let '(c, g) := Round h a b c d e f g 0xdb48a363 in
  let '(b, f) := Round g h a b c d e f 0x0b02e931 in
  let '(a, e) := Round f g h a b c d e 0x6fd15ca7 in
  let '(h, d) := Round e f g h a b c d 0x521afaca in
  let '(g, c) := Round d e f g h a b c 0x31338431 in
  let '(f, b) := Round c d e f g h a b 0x6ed41a95 in
  let '(e, a) := Round b c d e f g h a 0x6d437890 in
  let '(d, h) := Round a b c d e f g h 0xc39c91f2 in
  let '(c, g) := Round h a b c d e f g 0x9eccabbd in
  let '(b, f) := Round g h a b c d e f 0xb5c9a0e6 in
  let '(a, e) := Round f g h a b c d e 0x532fb63c in
  let '(h, d) := Round e f g h a b c d 0xd2c741c6 in
  let '(g, c) := Round d e f g h a b c 0x07237ea3 in
  let '(f, b) := Round c d e f g h a b 0xa4954b68 in
  let '(e, a) := Round b c d e f g h a 0x4c191d76 in
  [u32 (t !!! 0%nat + a); u32 (t !!! 1%nat + b); u32 (t !!! 2%nat + c); u32 (t !!! 3%nat + d); u32 (t !!! 4%nat + e); u32 (t !!! 5%nat + f); u32 (t !!! 6%nat + g); u32 (t !!! 7%nat + h)].

(** "Transform 3" and the words of the output. *)
Definition TransformD64_3 (w : list Z) : list Z :=
  let w0 := w !!! 0%nat in let w1 := w !!! 1%nat in let w2 := w !!! 2%nat in let w3 := w !!! 3%nat in
  let w4 := w !!! 4%nat in let w5 := w !!! 5%nat in let w6 := w !!! 6%nat in let w7 := w !!! 7%nat in
  let a := 0x6a09e667 in
  let b := 0xbb67ae85 in
  let c := 0x3c6ef372 in
  let d := 0xa54ff53a in
  let e := 0x510e527f in
  let f := 0x9b05688c in
  let g := 0x1f83d9ab in
  let h := 0x5be0cd19 in
  let '(d, h) := Round a b c d e f g h (0x428a2f98 + w0) in
  let '(c, g) := Round h a b c d e f g (0x71374491 + w1) in
  let '(b, f) := Round g h a b c d e f (0xb5c0fbcf + w2) in
  let '(a, e) := Round f g h a b c d e (0xe9b5dba5 + w3) in
  let '(h, d) := Round e f g h a b c d (0x3956c25b + w4) in
  let '(g, c) := Round d e f g h a b c (0x59f111f1 + w5) in
  let '(f, b) := Round c d e f g h a b (0x923f82a4 + w6) in
  let '(e, a) := Round b c d e f g h a (0xab1c5ed5 + w7) in
  let '(d, h) := Round a b c d e f g h 0x5807aa98 in
  let '(c, g) := Round h a b c d e f g 0x12835b01 in
  let '(b, f) := Round g h a b c d e f 0x243185be in
  let '(a, e) := Round f g h a b c d e 0x550c7dc3 in
  let '(h, d) := Round e f g h a b c d 0x72be5d74 in
  let '(g, c) := Round d e f g h a b c 0x80deb1fe in
  let '(f, b) := Round c d e f g h a b 0x9bdc06a7 in
  let '(e, a) := Round b c d e f g h a 0xc19bf274 in
  let w0 := u32 (w0 + (sigma0 w1)) in let '(d, h) := Round a b c d e f g h (0xe49b69c1 + w0) in
  let w1 := u32 (w1 + (0xa00000 + sigma0 w2)) in let '(c, g) := Round h a b c d e f g (0xefbe4786 + w1) in
  let w2 := u32 (w2 + (sigma1 w0 + sigma0 w3)) in let '(b, f) := Round g h a b c d e f (0x0fc19dc6 + w2) in
  let w3 := u32 (w3 + (sigma1 w1 + sigma0 w4)) in let '(a, e) := Round f g h a b c d e (0x240ca1cc + w3) in
  let w4 := u32 (w4 + (sigma1 w2 + sigma0 w5)) in let '(h, d) := Round e f g h a b c d (0x2de92c6f + w4) in
  let w5 := u32 (w5 + (sigma1 w3 + sigma0 w6)) in let '(g, c) := Round d e f g h a b c (0x4a7484aa + w5) in
  let w6 := u32 (w6 + (sigma1 w4 + 0x100 + sigma0 w7)) in let '(f, b) := Round c d e f g h a b (0x5cb0a9dc + w6) in
  let w7 := u32 (w7 + (sigma1 w5 + w0 + 0x11002000)) in let '(e, a) := Round b c d e f g h a (0x76f988da + w7) in
  let w8 := u32 (0x80000000 + sigma1 w6 + w1) in let '(d, h) := Round a b c d e f g h (0x983e5152 + w8) in
  let w9 := u32 (sigma1 w7 + w2) in let '(c, g) := Round h a b c d e f g (0xa831c66d + w9) in
  let w10 := u32 (sigma1 w8 + w3) in let '(b, f) := Round g h a b c d e f (0xb00327c8 + w10) in
  let w11 := u32 (sigma1 w9 + w4) in let '(a, e) := Round f g h a b c d e (0xbf597fc7 + w11) in
  let w12 := u32 (sigma1 w10 + w5) in let '(h, d) := Round e f g h a b c d (0xc6e00bf3 + w12) in
  let w13 := u32 (sigma1 w11 + w6) in let '(g, c) := Round d e f g h a b c (0xd5a79147 + w13) in
  let w14 := u32 (sigma1 w12 + w7 + 0x400022) in let '(f, b) := Round c d e f g h a b (0x06ca6351 + w14) in
  let w15 := u32 (0x100 + sigma1 w13 + w8 + sigma0 w0) in let '(e, a) := Round b c d e f g h a (0x14292967 + w15) in
  let w0 := u32 (w0 + (sigma1 w14 + w9 + sigma0 w1)) in let '(d, h) := Round a b c d e f g h (0x27b70a85 + w0) in
  let w1 := u32 (w1 + (sigma1 w15 + w10 + sigma0 w2)) in let '(c, g) := Round h a b c d e f g (0x2e1b2138 + w1) in
  let w2 := u32 (w2 + (sigma1 w0 + w11 + sigma0 w3)) in let '(b, f) := Round g h a b c d e f (0x4d2c6dfc + w2) in
  let w3 := u32 (w3 + (sigma1 w1 + w12 + sigma0 w4)) in let '(a, e) := Round f g h a b c d e (0x53380d13 + w3) in
  let w4 := u32 (w4 + (sigma1 w2 + w13 + sigma0 w5)) in let '(h, d) := Round e f g h a b c d (0x650a7354 + w4) in
  let w5 := u32 (w5 + (sigma1 w3 + w14 + sigma0 w6)) in let '(g, c) := Round d e f g h a b c (0x766a0abb + w5) in
  let w6 := u32 (w6 + (sigma1 w4 + w15 + sigma0 w7)) in let '(f, b) := Round c d e f g h a b (0x81c2c92e + w6) in
  let w7 := u32 (w7 + (sigma1 w5 + w0 + sigma0 w8)) in let '(e, a) := Round b c d e f g h a (0x92722c85 + w7) in
  let w8 := u32 (w8 + (sigma1 w6 + w1 + sigma0 w9)) in let '(d, h) := Round a b c d e f g h (0xa2bfe8a1 + w8) in
  let w9 := u32 (w9 + (sigma1 w7 + w2 + sigma0 w10)) in let '(c, g) := Round h a b c d e f g (0xa81a664b + w9) in
  let w10 := u32 (w10 + (sigma1 w8 + w3 + sigma0 w11)) in let '(b, f) := Round g h a b c d e f (0xc24b8b70 + w10) in
  let w11 := u32 (w11 + (sigma1 w9 + w4 + sigma0 w12)) in let '(a, e) := Round f g h a b c d e (0xc76c51a3 + w11) in
  let w12 := u32 (w12 + (sigma1 w10 + w5 + sigma0 w13)) in let '(h, d) := Round e f g h a b c d (0xd192e819 + w12) in
  let w13 := u32 (w13 + (sigma1 w11 + w6 + sigma0 w14)) in let '(g, c) := Round d e f g h a b c (0xd6990624 + w13) in
  let w14 := u32 (w14 + (sigma1 w12 + w7 + sigma0 w15)) in let '(f, b) := Round c d e f g h a b (0xf40e3585 + w14) in
  let w15 := u32 (w15 + (sigma1 w13 + w8 + sigma0 w0)) in let '(e, a) := Round b c d e f g h a (0x106aa070 + w15) in
  let w0 := u32 (w0 + (sigma1 w14 + w9 + sigma0 w1)) in let '(d, h) := Round a b c d e f g h (0x19a4c116 + w0) in
  let w1 := u32 (w1 + (sigma1 w15 + w10 + sigma0 w2)) in let '(c, g) := Round h a b c d e f g (0x1e376c08 + w1) in
  let w2 := u32 (w2 + (sigma1 w0 + w11 + sigma0 w3)) in let '(b, f) := Round g h a b c d e f (0x2748774c + w2) in
  let w3 := u32 (w3 + (sigma1 w1 + w12 + sigma0 w4)) in let '(a, e) := Round f g h a b c d e (0x34b0bcb5 + w3) in
  let w4 := u32 (w4 + (sigma1 w2 + w13 + sigma0 w5)) in let '(h, d) := Round e f g h a b c d (0x391c0cb3 + w4) in
  let w5 := u32 (w5 + (sigma1 w3 + w14 + sigma0 w6)) in let '(g, c) := Round d e f g h a b c (0x4ed8aa4a + w5) in
  let w6 := u32 (w6 + (sigma1 w4 + w15 + sigma0 w7)) in let '(f, b) := Round c d e f g h a b (0x5b9cca4f + w6) in
  let w7 := u32 (w7 + (sigma1 w5 + w0 + sigma0 w8)) in let '(e, a) := Round b c d e f g h a (0x682e6ff3 + w7) in
  let w8 := u32 (w8 + (sigma1 w6 + w1 + sigma0 w9)) in let '(d, h) := Round a b c d e f g h (0x748f82ee + w8) in
  let w9 := u32 (w9 + (sigma1 w7 + w2 + sigma0 w10)) in let '(c, g) := Round h a b c d e f g (0x78a5636f + w9) in
  let w10 := u32 (w10 + (sigma1 w8 + w3 + sigma0 w11)) in let '(b, f) := Round g h a b c d e f (0x84c87814 + w10) in
  let w11 := u32 (w11 + (sigma1 w9 + w4 + sigma0 w12)) in let '(a, e) := Round f g h a b c d e (0x8cc70208 + w11) in
  let w12 := u32 (w12 + (sigma1 w10 + w5 + sigma0 w13)) in let '(h, d) := Round e f g h a b c d (0x90befffa + w12) in
  let w13 := u32 (w13 + (sigma1 w11 + w6 + sigma0 w14)) in let '(g, c) := Round d e f g h a b c (0xa4506ceb + w13) in
  let '(f, b) := Round c d e f g h a b (0xbef9a3f7 + (w14 + sigma1 w12 + w7 + sigma0 w15)) in
  let '(e, a) := Round b c d e f g h a (0xc67178f2 + (w15 + sigma1 w13 + w8 + sigma0 w0)) in
  [u32 (a + 0x6a09e667); u32 (b + 0xbb67ae85); u32 (c + 0x3c6ef372); u32 (d + 0xa54ff53a); u32 (e + 0x510e527f); u32 (f + 0x9b05688c); u32 (g + 0x1f83d9ab); u32 (h + 0x5be0cd19)].

Definition TransformD64 (inp : list Z) : list Z :=
  mjoin (map WriteBE32 (TransformD64_3 (TransformD64_2 (TransformD64_1 inp)))).

(** [SHA256D64] without the vectorised variants; [out] and [inp] are positions
    in one memory, since callers hash a buffer onto itself. *)
Fixpoint SHA256D64 (mem : list Z) (out inp : nat) (blocks : nat) {struct blocks} : list Z :=
  match blocks with
  | O => mem
  | S blocks =>
      let mem := copy_at mem out (TransformD64 (take 64 (drop inp mem))) in
      SHA256D64 mem (out + 32) (inp + 64) blocks
  end.

(** ** [CSHA256] *)

(** A new writer; [buf] is the memory of its buffer, which is not initialised. *)
Definition CSHA256 (buf : list Z) : writer (list Z) := mkWriter Initialize buf 0.
Definition CSHA256_Write : writer (list Z) → list Z → writer (list Z) := Write Transform.
Definition CSHA256_Finalize (w : writer (list Z)) : list Z := mjoin (map WriteBE32 (w_s (Pad Transform WriteBE64 w))).
Definition CSHA256_Reset (w : writer (list Z)) : writer (list Z) := mkWriter Initialize (w_buf w) 0.

End Sha256.
