(* ===== verification/Sha256Facts.v ===== *)
(** The function of FIPS 180-4, and the transformations of SHA-256 compute its
    compression function: the unrolled one, and the three of the double hash. *)
From Stdlib Require Import ZArith Lia.
From stdpp Require Import list.
From S2P Require Import Prelude HashWriter Sha256.
Local Open Scope Z_scope.

(** * The standard *)
Module Sha256Spec.
Import Writer WriterSpec.

(** ** Functions and constants (FIPS 180-4, 4.1.2 and 4.2.2) *)

Definition ROTR (n x : Z) : Z := Z.lor (Z.shiftr x n) (u32 (Z.shiftl x (32 - n))).
Definition Ch (x y z : Z) : Z := Z.lxor (Z.land x y) (Z.land (Z.lnot x) z).
Definition Maj (x y z : Z) : Z := Z.lxor (Z.lxor (Z.land x y) (Z.land x z)) (Z.land y z).
Definition Sum0 (x : Z) : Z := Z.lxor (Z.lxor (ROTR 2 x) (ROTR 13 x)) (ROTR 22 x).
Definition Sum1 (x : Z) : Z := Z.lxor (Z.lxor (ROTR 6 x) (ROTR 11 x)) (ROTR 25 x).
Definition sig0 (x : Z) : Z := Z.lxor (Z.lxor (ROTR 7 x) (ROTR 18 x)) (Z.shiftr x 3).
Definition sig1 (x : Z) : Z := Z.lxor (Z.lxor (ROTR 17 x) (ROTR 19 x)) (Z.shiftr x 10).

(** The first 64 primes. *)
Definition is_prime (n : nat) : bool := forallb (fun d => negb (n mod d =? 0)%nat) (seq 2 (n - 2)).
Definition primes : list Z := map Z.of_nat (List.filter is_prime (seq 2 310)).

(** The integer part of the cube root, from its bits below [k]. *)
Fixpoint cbrt (k : nat) (n r : Z) : Z :=
  match k with
  | O => r
  | S k => let r' := r + 2 ^ Z.of_nat k in cbrt k n (if r' * r' * r' <=? n then r' else r)
  end.

(** The first 32 bits of the fractional parts of the cube roots of the primes,
    and of the square roots of the first eight. *)
Definition K256 : list Z := map (fun p => u32 (cbrt 36 (p * 2 ^ 96) 0)) primes.
Definition H0 : list Z := map (fun p => u32 (Z.sqrt (p * 2 ^ 64))) (take 8 primes).

(** ** The compression function (6.2.2) *)

Definition next_word (W : nat → Z) : Z := u32 (sig1 (W 2%nat) + W 7%nat + sig0 (W 15%nat) + W 16%nat).

Abbreviation vars := (Z * Z * Z * Z * Z * Z * Z * Z)%type.

(** One step, with the sum of the round constant and the schedule word. *)
Definition step (v : vars) (kw : Z) : vars :=
  let '(a, b, c, d, e, f, g, h) := v in
  let T1 := u32 (h + Sum1 e + Ch e f g + kw) in
  let T2 := u32 (Sum0 a + Maj a b c) in
  (u32 (T1 + T2), a, b, c, u32 (d + T1), e, f, g).

Definition to_vars (s : list Z) : vars :=
  (s !!! 0%nat, s !!! 1%nat, s !!! 2%nat, s !!! 3%nat, s !!! 4%nat, s !!! 5%nat, s !!! 6%nat, s !!! 7%nat).
Definition add_vars (s : list Z) (v : vars) : list Z :=
  let '(a, b, c, d, e, f, g, h) := v in
  [u32 (s !!! 0%nat + a); u32 (s !!! 1%nat + b); u32 (s !!! 2%nat + c); u32 (s !!! 3%nat + d);
   u32 (s !!! 4%nat + e); u32 (s !!! 5%nat + f); u32 (s !!! 6%nat + g); u32 (s !!! 7%nat + h)].

Definition compress_words (s W : list Z) : list Z := add_vars s (foldl step (to_vars s) (zip_with Z.add K256 (schedule next_word 48 W))).
Definition compress (s block : list Z) : list Z := compress_words s (words ReadBE32 block).

(** ** The hash (5.1.1 and 6.2) *)

Definition sha256 (msg : list Z) : list Z := output WriteBE32 (iterate compress H0 (padded WriteBE64 msg)).

End Sha256Spec.

Module Sha256Facts.
Import Writer WriterSpec WriterFacts Sha256Spec.

(** ** The functions and constants *)

Lemma K256_value : K256 = ltac:(let l := eval vm_compute in K256 in exact l).
Proof. vm_compute. reflexivity. Qed.

Lemma H0_value : H0 = Sha256.Initialize.
Proof. vm_compute. reflexivity. Qed.

Lemma Ch_eq x y z : Sha256.Ch x y z = Ch x y z.
Proof.
  apply Z.bits_inj'. intros n Hn. unfold Sha256.Ch, Ch. rewrite !Z.lxor_spec, !Z.land_spec, Z.lxor_spec, Z.lnot_spec by lia.
  by destruct (Z.testbit x n), (Z.testbit y n), (Z.testbit z n).
Qed.

Lemma Maj_eq x y z : Sha256.Maj x y z = Maj x y z.
Proof.
  apply Z.bits_inj'. intros n Hn. unfold Sha256.Maj, Maj. rewrite !Z.lor_spec, !Z.lxor_spec, !Z.land_spec, Z.lor_spec.
  by destruct (Z.testbit x n), (Z.testbit y n), (Z.testbit z n).
Qed.

Abbreviation Round := Sha256.Round.

Lemma step_Round a b c d e f g h k :
  step (a, b, c, d, e, f, g, h) k = let '(d', h') := Round a b c d e f g h k in (h', a, b, c, d', e, f, g).
Proof. unfold step, Round, Sha256.Round. by rewrite Ch_eq, Maj_eq. Qed.

(** The last argument matters up to [2^32]. *)
Lemma Round_wrap a b c d e f g h k x : Round a b c d e f g h (k + u32 x) = Round a b c d e f g h (k + x).
Proof.
  unfold Round, Sha256.Round. replace (u32 (h + Sha256.Sigma1 e + Sha256.Ch e f g + (k + u32 x))) with (u32 (h + Sha256.Sigma1 e + Sha256.Ch e f g + (k + x))); [done|].
  unfold wrap. rewrite (Z.add_assoc _ k), (Z.add_assoc _ k), Zplus_mod_idemp_r. done.
Qed.

Lemma next_word_ext g g' : (∀ j, (0 < j <= 16)%nat → g j = g' j) → next_word g = next_word g'.
Proof. intros H. unfold next_word. by rewrite !H by lia. Qed.

(** ** Rounds as the code runs them *)

Definition run (v : vars) (Ks W : list Z) : vars := foldl step v (zip_with Z.add Ks W).

Lemma run_Round a b c d e f g h k Ks w W :
  run (a, b, c, d, e, f, g, h) (k :: Ks) (w :: W) =
  let '(d', h') := Round a b c d e f g h (k + w) in run (h', a, b, c, d', e, f, g) Ks W.
Proof. unfold run. cbn [zip_with foldl]. rewrite step_Round. by destruct (Round _ _ _ _ _ _ _ _ _). Qed.

Lemma run_extend a b c d e f g h k Ks n v0 v1 v2 v3 v4 v5 v6 v7 v8 v9 v10 v11 v12 v13 v14 v15 :
  run (a, b, c, d, e, f, g, h) (k :: Ks) (extend next_word (S n) [v0; v1; v2; v3; v4; v5; v6; v7; v8; v9; v10; v11; v12; v13; v14; v15]) =
  let w := u32 (v0 + (Sha256.sigma1 v14 + v9 + Sha256.sigma0 v1)) in
  let '(d', h') := Round a b c d e f g h (k + w) in
  run (h', a, b, c, d', e, f, g) Ks (extend next_word n [v1; v2; v3; v4; v5; v6; v7; v8; v9; v10; v11; v12; v13; v14; v15; w]).
Proof.
  cbv zeta. replace (u32 (v0 + (Sha256.sigma1 v14 + v9 + Sha256.sigma0 v1))) with (u32 (sig1 v14 + v9 + sig0 v1 + v0)); [apply run_Round|].
  f_equal. unfold sig0, sig1, ROTR, Sha256.sigma0, Sha256.sigma1, Sha256.rotr. lia.
Qed.

(** ** The unrolled code *)

(** A round whose word is not stored. *)
Ltac last_round :=
  rewrite run_extend; cbv zeta; rewrite Round_wrap;
  match goal with
  | |- (match Round _ _ _ _ _ _ _ _ ?k with _ => _ end) = add_vars _ (match Round _ _ _ _ _ _ _ _ ?k' with _ => _ end) =>
      replace k' with k by lia; same_round
  end.

Lemma compress_run s w0 w1 w2 w3 w4 w5 w6 w7 w8 w9 w10 w11 w12 w13 w14 w15 :
  compress_words s [w0; w1; w2; w3; w4; w5; w6; w7; w8; w9; w10; w11; w12; w13; w14; w15] =
  add_vars s (run (to_vars s) K256 (w0 :: w1 :: w2 :: w3 :: w4 :: w5 :: w6 :: w7 :: w8 :: w9 :: w10 :: w11 :: w12 :: w13 :: w14 :: w15 :: extend next_word 48 [w0; w1; w2; w3; w4; w5; w6; w7; w8; w9; w10; w11; w12; w13; w14; w15])).
Proof.
  pose proof (schedule_extend next_word 48 [] [w0; w1; w2; w3; w4; w5; w6; w7; w8; w9; w10; w11; w12; w13; w14; w15] next_word_ext eq_refl) as E. cbn [app] in E.
  unfold compress_words. rewrite E. exact eq_refl.
Qed.

Lemma words_eq chunk : words ReadBE32 chunk =
  [ReadBE32 chunk 0; ReadBE32 chunk 4; ReadBE32 chunk 8; ReadBE32 chunk 12; ReadBE32 chunk 16; ReadBE32 chunk 20; ReadBE32 chunk 24; ReadBE32 chunk 28; ReadBE32 chunk 32; ReadBE32 chunk 36; ReadBE32 chunk 40; ReadBE32 chunk 44; ReadBE32 chunk 48; ReadBE32 chunk 52; ReadBE32 chunk 56; ReadBE32 chunk 60].
Proof. reflexivity. Qed.

Opaque Sha256.Transform_block Sha256.TransformD64_1 Sha256.TransformD64_2 Sha256.TransformD64_3.

Lemma Transform_block_eq s chunk : Sha256.Transform_block s chunk = compress s chunk.
Proof.
  unfold compress. rewrite words_eq, compress_run. unfold to_vars. rewrite K256_value.
  Transparent Sha256.Transform_block. cbv beta delta [Sha256.Transform_block].
  do 8 peel.
  generalize (ReadBE32 chunk 0); intros x0. generalize (ReadBE32 chunk 4); intros x1. generalize (ReadBE32 chunk 8); intros x2. generalize (ReadBE32 chunk 12); intros x3. generalize (ReadBE32 chunk 16); intros x4. generalize (ReadBE32 chunk 20); intros x5. generalize (ReadBE32 chunk 24); intros x6. generalize (ReadBE32 chunk 28); intros x7. generalize (ReadBE32 chunk 32); intros x8. generalize (ReadBE32 chunk 36); intros x9. generalize (ReadBE32 chunk 40); intros x10. generalize (ReadBE32 chunk 44); intros x11. generalize (ReadBE32 chunk 48); intros x12. generalize (ReadBE32 chunk 52); intros x13. generalize (ReadBE32 chunk 56); intros x14. generalize (ReadBE32 chunk 60); intros x15.
  do 16 (peel; rewrite run_Round; same_round).
  do 46 (rewrite run_extend; same_word; same_round).
  do 2 last_round. reflexivity.
Qed.

Opaque Sha256.Transform_block.

(** ** The double hash *)

Lemma Round_mod a b c d e f g h k k' : u32 k = u32 k' → Round a b c d e f g h k = Round a b c d e f g h k'.
Proof.
  intros E. rewrite <- (Z.add_0_l k), <- (Z.add_0_l k'), <- (Round_wrap _ _ _ _ _ _ _ _ 0 k), <- (Round_wrap _ _ _ _ _ _ _ _ 0 k'). by rewrite E.
Qed.

Lemma add_initial a b c d e f g h :
  [u32 (a + 0x6a09e667); u32 (b + 0xbb67ae85); u32 (c + 0x3c6ef372); u32 (d + 0xa54ff53a);
   u32 (e + 0x510e527f); u32 (f + 0x9b05688c); u32 (g + 0x1f83d9ab); u32 (h + 0x5be0cd19)] = add_vars Sha256.Initialize (a, b, c, d, e, f, g, h).
Proof.
  rewrite (Z.add_comm a), (Z.add_comm b), (Z.add_comm c), (Z.add_comm d), (Z.add_comm e), (Z.add_comm f), (Z.add_comm g), (Z.add_comm h). reflexivity.
Qed.

Lemma TransformD64_1_eq inp : Sha256.TransformD64_1 inp = compress H0 inp.
Proof.
  unfold compress. rewrite words_eq, compress_run. rewrite K256_value, H0_value. change (to_vars Sha256.Initialize) with
    (0x6a09e667, 0xbb67ae85, 0x3c6ef372, 0xa54ff53a, 0x510e527f, 0x9b05688c, 0x1f83d9ab, 0x5be0cd19).
  Transparent Sha256.TransformD64_1. cbv beta delta [Sha256.TransformD64_1].
  do 8 peel.
  generalize (ReadBE32 inp 0); intros x0. generalize (ReadBE32 inp 4); intros x1. generalize (ReadBE32 inp 8); intros x2. generalize (ReadBE32 inp 12); intros x3. generalize (ReadBE32 inp 16); intros x4. generalize (ReadBE32 inp 20); intros x5. generalize (ReadBE32 inp 24); intros x6. generalize (ReadBE32 inp 28); intros x7. generalize (ReadBE32 inp 32); intros x8. generalize (ReadBE32 inp 36); intros x9. generalize (ReadBE32 inp 40); intros x10. generalize (ReadBE32 inp 44); intros x11. generalize (ReadBE32 inp 48); intros x12. generalize (ReadBE32 inp 52); intros x13. generalize (ReadBE32 inp 56); intros x14. generalize (ReadBE32 inp 60); intros x15.
  do 16 (peel; rewrite run_Round; same_round).
  do 46 (rewrite run_extend; same_word; same_round).
  do 2 last_round. apply add_initial.
Qed.

(** *** The block of padding after 64 bytes *)

Definition pad_words (n : Z) (k : nat) : list Z := 0x80000000 :: replicate k 0 ++ [n].

Definition fold_rounds (v : vars) (kws : list Z) : vars := foldl step v kws.

Lemma fold_Round a b c d e f g h k kws :
  fold_rounds (a, b, c, d, e, f, g, h) (k :: kws) =
  let '(d', h') := Round a b c d e f g h k in fold_rounds (h', a, b, c, d', e, f, g) kws.
Proof. unfold fold_rounds. cbn [foldl]. rewrite step_Round. by destruct (Round _ _ _ _ _ _ _ _ _). Qed.

Lemma run_wrap v Ks W : run v Ks W = fold_rounds v (map (wrap 32) (zip_with Z.add Ks W)).
Proof.
  unfold run, fold_rounds. generalize (zip_with Z.add Ks W) as l. intros l. revert v. induction l as [|k l IH]; intros v; [done|].
  cbn [map foldl]. rewrite <- IH. f_equal. destruct v as [[[[[[[a b] c] d] e] f] g] h].
  rewrite !step_Round, (Round_mod _ _ _ _ _ _ _ _ (u32 k) k); [done|]. unfold wrap. by rewrite Z.mod_mod.
Qed.

Definition pad_sums (n : Z) (k : nat) : list Z := map (wrap 32) (zip_with Z.add K256 (schedule next_word 48 (pad_words n k))).

Lemma compress_pad s n k : compress_words s (pad_words n k) = add_vars s (fold_rounds (to_vars s) (pad_sums n k)).
Proof. unfold compress_words, pad_sums. rewrite <- run_wrap. unfold run. reflexivity. Qed.

Lemma TransformD64_2_eq t : Sha256.TransformD64_2 t = compress_words t (pad_words 512 14).
Proof.
  rewrite compress_pad. let l := eval vm_compute in (pad_sums 512 14) in
  assert (pad_sums 512 14 = l) as -> by (vm_compute; reflexivity).
  unfold to_vars. Transparent Sha256.TransformD64_2. cbv beta delta [Sha256.TransformD64_2]. do 8 peel.
  do 64 (rewrite fold_Round; same_round). reflexivity.
Qed.

(** *** The hash of the first hash *)

Lemma odd_word (e e' : Z) (b : Z → list Z) s (c : Z → vars) :
  e = e' → (∀ w, b w = add_vars s (c w)) → b e = add_vars s (c e').
Proof. intros -> H. apply H. Qed.

(** A word whose terms known in advance are left out or summed. *)
Ltac short_word :=
  rewrite run_extend;
  match goal with
  | |- (let x := ?e in @?b x) = add_vars ?s (let y := ?e' in @?c y) => refine (odd_word e e' b s c _ _)
  end;
  [ f_equal; try change (Sha256.sigma1 0) with 0; try change (Sha256.sigma0 0) with 0;
    try change (Sha256.sigma1 256) with 0xa00000; try change (Sha256.sigma0 256) with 0x400022;
    try change (Sha256.sigma0 0x80000000) with 0x11002000; lia
  | let w := fresh "w" in intros w; cbv beta; same_round ].
(** A round whose word is known in advance. *)
Ltac known_round :=
  rewrite run_Round;
  match goal with
  | |- (match Round _ _ _ _ _ _ _ _ ?k with _ => _ end) = add_vars _ (match Round ?a ?b ?c ?d ?e ?f ?g ?h ?k' with _ => _ end) =>
      rewrite (Round_mod a b c d e f g h k' k) by (vm_compute; reflexivity); same_round
  end.

Lemma TransformD64_3_first w :
  Sha256.TransformD64_3 w = compress_words H0 ([w !!! 0%nat; w !!! 1%nat; w !!! 2%nat; w !!! 3%nat; w !!! 4%nat; w !!! 5%nat; w !!! 6%nat; w !!! 7%nat] ++ pad_words 256 6).
Proof.
  change ([w !!! 0%nat; w !!! 1%nat; w !!! 2%nat; w !!! 3%nat; w !!! 4%nat; w !!! 5%nat; w !!! 6%nat; w !!! 7%nat] ++ pad_words 256 6) with
    [w !!! 0%nat; w !!! 1%nat; w !!! 2%nat; w !!! 3%nat; w !!! 4%nat; w !!! 5%nat; w !!! 6%nat; w !!! 7%nat; 0x80000000; 0; 0; 0; 0; 0; 0; 256].
  rewrite compress_run. rewrite K256_value, H0_value. change (to_vars Sha256.Initialize) with
    (0x6a09e667, 0xbb67ae85, 0x3c6ef372, 0xa54ff53a, 0x510e527f, 0x9b05688c, 0x1f83d9ab, 0x5be0cd19).
  Transparent Sha256.TransformD64_3. cbv beta delta [Sha256.TransformD64_3]. do 16 peel.
  generalize (w !!! 0%nat); intros w0. generalize (w !!! 1%nat); intros w1. generalize (w !!! 2%nat); intros w2. generalize (w !!! 3%nat); intros w3. generalize (w !!! 4%nat); intros w4. generalize (w !!! 5%nat); intros w5. generalize (w !!! 6%nat); intros w6. generalize (w !!! 7%nat); intros w7.
  do 8 (rewrite run_Round; same_round). do 8 known_round. do 16 short_word.
  do 30 (rewrite run_extend; same_word; same_round).
  do 2 last_round. apply add_initial.
Qed.

Opaque Sha256.TransformD64_1 Sha256.TransformD64_2 Sha256.TransformD64_3.

Lemma eight_words (w : list Z) : length w = 8%nat → [w !!! 0%nat; w !!! 1%nat; w !!! 2%nat; w !!! 3%nat; w !!! 4%nat; w !!! 5%nat; w !!! 6%nat; w !!! 7%nat] = w.
Proof. intros Hl. do 8 (destruct w as [|? w]; [discriminate Hl|]). by destruct w. Qed.

Lemma TransformD64_3_eq w : length w = 8%nat → Sha256.TransformD64_3 w = compress_words H0 (w ++ pad_words 256 6).
Proof. intros Hl. by rewrite TransformD64_3_first, eight_words. Qed.

End Sha256Facts.
