(* ===== verification/Sha256Hash.v ===== *)
(** SHA-256 is correct: the writer, and the double hash of 64 bytes that the
    Merkle tree uses, compute the function of FIPS 180-4. *)
From Stdlib Require Import ZArith Lia.
From stdpp Require Import list.
From S2P Require Import Prelude HashWriter Sha256 Sha256Facts.
Local Open Scope Z_scope.

Module Sha256Hash.
Import Writer WriterSpec WriterFacts Sha256Spec Sha256Facts.
Opaque Sha256.Transform_block Sha256.TransformD64_1 Sha256.TransformD64_2 Sha256.TransformD64_3 compress_words H0 K256.

(** ** Blocks and words *)

Lemma ReadBE32_Write x l : in_u 32 x → ReadBE32 (WriteBE32 x ++ l) 0 = x.
Proof.
  intros Hx. unfold ReadBE32, WriteBE32. rewrite drop_0, take_app_length' by (by rewrite length_rev, le_encode_length).
  rewrite rev_involutive. by apply le_decode_encode.
Qed.

Lemma ReadBE32_next x l off : ReadBE32 (WriteBE32 x ++ l) (4 + off) = ReadBE32 l off.
Proof.
  unfold ReadBE32, WriteBE32. rewrite drop_app_add'; [done|]. by rewrite length_rev, le_encode_length.
Qed.

Definition reads (n : nat) (l : list Z) : list Z := map (fun i => ReadBE32 l (4 * i)) (seq 0 n).

Lemma reads_Write n x l : in_u 32 x → reads (S n) (WriteBE32 x ++ l) = x :: reads n l.
Proof.
  intros Hx. unfold reads. cbn [seq map]. rewrite ReadBE32_Write by done. f_equal. rewrite <- seq_shift, map_map.
  apply map_ext. intros i. replace (4 * S i)%nat with (4 + 4 * i)%nat by lia. apply ReadBE32_next.
Qed.

Lemma reads_output n w l : Forall (in_u 32) w → reads (length w + n) (output WriteBE32 w ++ l) = w ++ reads n l.
Proof.
  intros Hw. induction Hw as [|x w Hx Hw IH]; [done|]. cbn [length Nat.add].
  rewrite output_cons, <- app_assoc, reads_Write by done. cbn [app]. f_equal. apply IH.
Qed.

Lemma Transform_blocks s data n : Sha256.Transform s data n = foldl compress s (blocks n data).
Proof.
  revert s data. induction n as [|n IH]; intros s data; cbn [Sha256.Transform blocks foldl]; [done|].
  rewrite IH, Transform_block_eq. unfold compress. by rewrite words_BE.
Qed.

(** ** Sizes *)

Lemma compress_words_size s W : length (compress_words s W) = 8%nat ∧ Forall (in_u 32) (compress_words s W).
Proof.
  Transparent compress_words. unfold compress_words, add_vars. destruct (foldl _ _ _) as [[[[[[[a b] c] d] e] f] g] h].
  split; [done|]. repeat constructor; by apply wrap_range.
Qed.

Opaque compress_words.

Lemma iterate_size l : length (iterate compress H0 l) = 8%nat ∧ Forall (in_u 32) (iterate compress H0 l).
Proof.
  unfold iterate. generalize (blocks (length l / 64) l). intros bs. induction bs as [|b bs IH] using rev_ind.
  - rewrite H0_value. split; [done|]. repeat constructor; cbn; lia.
  - rewrite foldl_app. apply compress_words_size.
Qed.

Lemma sha256_size msg : length (sha256 msg) = 32%nat ∧ bytes_ok (sha256 msg).
Proof.
  unfold sha256. destruct (iterate_size (padded WriteBE64 msg)) as [Hl _]. destruct (output_size WriteBE32 (iterate compress H0 (padded WriteBE64 msg)) WriteBE32_size) as [E Hb].
  rewrite E, Hl. done.
Qed.

(** ** The double hash of 64 bytes *)

Lemma sha256_64 inp : length inp = 64%nat → sha256 inp = output WriteBE32 (compress_words (compress H0 inp) (pad_words 512 14)).
Proof.
  intros Hl. unfold sha256, padded, padding. rewrite Hl, iterate_app by (by rewrite Hl).
  set (tail := (0x80 :: _) ++ _). assert (length tail = 64%nat) as Ht by done. rewrite Ht.
  unfold iterate. rewrite Hl. change (64 / 64)%nat with 1%nat. cbn [blocks foldl]. rewrite !take_ge by (rewrite ?Ht; lia).
  unfold compress at 1. f_equal.
Qed.

Lemma sha256_32 w : length w = 8%nat → Forall (in_u 32) w → sha256 (output WriteBE32 w) = output WriteBE32 (compress_words H0 (w ++ pad_words 256 6)).
Proof.
  intros Hl Hw. destruct (output_size WriteBE32 w WriteBE32_size) as [E _]. rewrite Hl in E. unfold sha256, padded, padding. rewrite E.
  set (tail := (0x80 :: _) ++ _). assert (length tail = 32%nat) as Ht by done.
  unfold iterate. rewrite length_app, E, Ht. change ((4 * 8 + 32) / 64)%nat with 1%nat. cbn [blocks foldl].
  rewrite take_ge by (rewrite length_app, E, Ht; done). unfold compress. do 2 f_equal.
  change (words ReadBE32 (output WriteBE32 w ++ tail)) with (reads (8 + 8) (output WriteBE32 w ++ tail)). rewrite <- Hl at 1. rewrite reads_output by done. f_equal.
Qed.

Lemma TransformD64_double inp : length inp = 64%nat → Sha256.TransformD64 inp = sha256 (sha256 inp).
Proof.
  intros Hl. rewrite (sha256_64 inp Hl).
  destruct (compress_words_size (compress H0 inp) (pad_words 512 14)) as [H8 Hu]. rewrite sha256_32 by done.
  unfold Sha256.TransformD64. rewrite TransformD64_1_eq, TransformD64_2_eq, TransformD64_3_eq by done. done.
Qed.

(** Writing before the input that is left does not change it. *)
Lemma copy_at_drop mem out l n : (out + length l <= n)%nat → (out <= length mem)%nat → drop n (copy_at mem out l) = drop n mem.
Proof.
  intros H1 H2. unfold copy_at. rewrite app_assoc, drop_app_ge by (rewrite length_app, length_take; lia).
  rewrite drop_drop, length_app, length_take. f_equal. lia.
Qed.

Lemma copy_at_take mem out l : (out <= length mem)%nat → take (out + length l) (copy_at mem out l) = take out mem ++ l.
Proof.
  intros H. unfold copy_at. rewrite app_assoc, take_app_length'; [done|]. rewrite length_app, length_take. lia.
Qed.

Lemma SHA256D64_blocks mem out inp n :
  (out <= inp)%nat → (inp + 64 * n <= length mem)%nat →
  take (out + 32 * n) (Sha256.SHA256D64 mem out inp n) = take out mem ++ mjoin (map (fun b => sha256 (sha256 b)) (blocks n (drop inp mem))).
Proof.
  revert mem out inp. induction n as [|n IH]; intros mem out inp Hle Hlen; cbn [Sha256.SHA256D64 blocks map].
  - by rewrite app_nil_r, Nat.mul_0_r, Nat.add_0_r.
  - rewrite TransformD64_double by (rewrite length_take, length_drop; lia). set (h := sha256 _).
    assert (length h = 32%nat) as Hh by apply sha256_size.
    assert (length (copy_at mem out h) = length mem) as Hl by (unfold copy_at; rewrite !length_app, length_take, length_drop; lia).
    replace (out + 32 * S n)%nat with ((out + 32) + 32 * n)%nat by lia. rewrite IH by lia.
    rewrite copy_at_drop, drop_drop by lia. rewrite <- Hh at 1. rewrite copy_at_take, <- app_assoc by lia. done.
Qed.

(** ** The writer *)

Lemma CSHA256_pieces w msg pieces :
  absorbed compress H0 w msg → Sha256.CSHA256_Finalize (foldl Sha256.CSHA256_Write w pieces) = sha256 (msg ++ mjoin pieces).
Proof.
  intros Hw. unfold Sha256.CSHA256_Finalize, sha256, output. do 2 f_equal.
  by apply (Pad_pieces compress H0 _ Transform_blocks); [apply WriteBE64_size|].
Qed.

Lemma CSHA256_new buf : length buf = 64%nat → absorbed compress H0 (Sha256.CSHA256 buf) [].
Proof. rewrite H0_value. apply absorbed_init. Qed.

Lemma CSHA256_Reset_new w : length (w_buf w) = 64%nat → absorbed compress H0 (Sha256.CSHA256_Reset w) [].
Proof. rewrite H0_value. apply absorbed_init. Qed.

End Sha256Hash.
