(* ===== verification/Sha1.v ===== *)
(** SHA-1: [src/crypto/sha1.cpp], the unrolled transformation and the writer
    [CSHA1], the function of FIPS 180-4, and that the code computes it. *)
From Stdlib Require Import ZArith Lia.
From stdpp Require Import list.
From S2P Require Import Prelude HashWriter.
Local Open Scope Z_scope.

Module Sha1.
Export Writer.

Definition f1 (b c d : Z) : Z := Z.lxor d (Z.land b (Z.lxor c d)).
Definition f2 (b c d : Z) : Z := Z.lxor (Z.lxor b c) d.
Definition f3 (b c d : Z) : Z := Z.lor (Z.land b c) (Z.land d (Z.lor b c)).

Definition left (x : Z) : Z := Z.lor (u32 (Z.shiftl x 1)) (Z.shiftr x 31).

(** The new values of [b] and [e]. *)
Definition Round (a b c d e f k w : Z) : Z * Z :=
  (Z.lor (u32 (Z.shiftl b 30)) (Z.shiftr b 2),
   u32 (e + (Z.lor (u32 (Z.shiftl a 5)) (Z.shiftr a 27) + f + k + w))).

Definition Initialize : list Z := [0x67452301; 0xEFCDAB89; 0x98BADCFE; 0x10325476; 0xC3D2E1F0].

Definition k1 : Z := 0x5A827999.
Definition k2 : Z := 0x6ED9EBA1.
Definition k3 : Z := 0x8F1BBCDC.
Definition k4 : Z := 0xCA62C1D6.

Definition Transform_block (s chunk : list Z) : list Z :=
  let a := s !!! 0%nat in let b := s !!! 1%nat in let c := s !!! 2%nat in let d := s !!! 3%nat in let e := s !!! 4%nat in
  let w0 := ReadBE32 chunk 0 in let '(b, e) := Round a b c d e (f1 b c d) k1 w0 in
  let w1 := ReadBE32 chunk 4 in let '(a, d) := Round e a b c d (f1 a b c) k1 w1 in
  let w2 := ReadBE32 chunk 8 in let '(e, c) := Round d e a b c (f1 e a b) k1 w2 in
  let w3 := ReadBE32 chunk 12 in let '(d, b) := Round c d e a b (f1 d e a) k1 w3 in
  let w4 := ReadBE32 chunk 16 in let '(c, a) := Round b c d e a (f1 c d e) k1 w4 in
  let w5 := ReadBE32 chunk 20 in let '(b, e) := Round a b c d e (f1 b c d) k1 w5 in
  let w6 := ReadBE32 chunk 24 in let '(a, d) := Round e a b c d (f1 a b c) k1 w6 in
  let w7 := ReadBE32 chunk 28 in let '(e, c) := Round d e a b c (f1 e a b) k1 w7 in
  let w8 := ReadBE32 chunk 32 in let '(d, b) := Round c d e a b (f1 d e a) k1 w8 in
  let w9 := ReadBE32 chunk 36 in let '(c, a) := Round b c d e a (f1 c d e) k1 w9 in
  let w10 := ReadBE32 chunk 40 in let '(b, e) := Round a b c d e (f1 b c d) k1 w10 in
  let w11 := ReadBE32 chunk 44 in let '(a, d) := Round e a b c d (f1 a b c) k1 w11 in
  let w12 := ReadBE32 chunk 48 in let '(e, c) := Round d e a b c (f1 e a b) k1 w12 in
  let w13 := ReadBE32 chunk 52 in let '(d, b) := Round c d e a b (f1 d e a) k1 w13 in
  let w14 := ReadBE32 chunk 56 in let '(c, a) := Round b c d e a (f1 c d e) k1 w14 in
  let w15 := ReadBE32 chunk 60 in let '(b, e) := Round a b c d e (f1 b c d) k1 w15 in
  let w0 := left (Z.lxor (Z.lxor (Z.lxor w0 w13) w8) w2) in let '(a, d) := Round e a b c d (f1 a b c) k1 w0 in
  let w1 := left (Z.lxor (Z.lxor (Z.lxor w1 w14) w9) w3) in let '(e, c) := Round d e a b c (f1 e a b) k1 w1 in
  let w2 := left (Z.lxor (Z.lxor (Z.lxor w2 w15) w10) w4) in let '(d, b) := Round c d e a b (f1 d e a) k1 w2 in
  let w3 := left (Z.lxor (Z.lxor (Z.lxor w3 w0) w11) w5) in let '(c, a) := Round b c d e a (f1 c d e) k1 w3 in
  let w4 := left (Z.lxor (Z.lxor (Z.lxor w4 w1) w12) w6) in let '(b, e) := Round a b c d e (f2 b c d) k2 w4 in
  let w5 := left (Z.lxor (Z.lxor (Z.lxor w5 w2) w13) w7) in let '(a, d) := Round e a b c d (f2 a b c) k2 w5 in
  let w6 := left (Z.lxor (Z.lxor (Z.lxor w6 w3) w14) w8) in let '(e, c) := Round d e a b c (f2 e a b) k2 w6 in
  let w7 := left (Z.lxor (Z.lxor (Z.lxor w7 w4) w15) w9) in let '(d, b) := Round c d e a b (f2 d e a) k2 w7 in
  let w8 := left (Z.lxor (Z.lxor (Z.lxor w8 w5) w0) w10) in let '(c, a) := Round b c d e a (f2 c d e) k2 w8 in
  let w9 := left (Z.lxor (Z.lxor (Z.lxor w9 w6) w1) w11) in let '(b, e) := Round a b c d e (f2 b c d) k2 w9 in
  let w10 := left (Z.lxor (Z.lxor (Z.lxor w10 w7) w2) w12) in let '(a, d) := Round e a b c d (f2 a b c) k2 w10 in
  let w11 := left (Z.lxor (Z.lxor (Z.lxor w11 w8) w3) w13) in let '(e, c) := Round d e a b c (f2 e a b) k2 w11 in
  let w12 := left (Z.lxor (Z.lxor (Z.lxor w12 w9) w4) w14) in let '(d, b) := Round c d e a b (f2 d e a) k2 w12 in
  let w13 := left (Z.lxor (Z.lxor (Z.lxor w13 w10) w5) w15) in let '(c, a) := Round b c d e a (f2 c d e) k2 w13 in
  let w14 := left (Z.lxor (Z.lxor (Z.lxor w14 w11) w6) w0) in let '(b, e) := Round a b c d e (f2 b c d) k2 w14 in
  let w15 := left (Z.lxor (Z.lxor (Z.lxor w15 w12) w7) w1) in let '(a, d) := Round e a b c d (f2 a b c) k2 w15 in
  let w0 := left (Z.lxor (Z.lxor (Z.lxor w0 w13) w8) w2) in let '(e, c) := Round d e a b c (f2 e a b) k2 w0 in
  let w1 := left (Z.lxor (Z.lxor (Z.lxor w1 w14) w9) w3) in let '(d, b) := Round c d e a b (f2 d e a) k2 w1 in
  let w2 := left (Z.lxor (Z.lxor (Z.lxor w2 w15) w10) w4) in let '(c, a) := Round b c d e a (f2 c d e) k2 w2 in
  let w3 := left (Z.lxor (Z.lxor (Z.lxor w3 w0) w11) w5) in let '(b, e) := Round a b c d e (f2 b c d) k2 w3 in
  let w4 := left (Z.lxor (Z.lxor (Z.lxor w4 w1) w12) w6) in let '(a, d) := Round e a b c d (f2 a b c) k2 w4 in
  let w5 := left (Z.lxor (Z.lxor (Z.lxor w5 w2) w13) w7) in let '(e, c) := Round d e a b c (f2 e a b) k2 w5 in
  let w6 := left (Z.lxor (Z.lxor (Z.lxor w6 w3) w14) w8) in let '(d, b) := Round c d e a b (f2 d e a) k2 w6 in
  let w7 := left (Z.lxor (Z.lxor (Z.lxor w7 w4) w15) w9) in let '(c, a) := Round b c d e a (f2 c d e) k2 w7 in
  let w8 := left (Z.lxor (Z.lxor (Z.lxor w8 w5) w0) w10) in let '(b, e) := Round a b c d e (f3 b c d) k3 w8 in
  let w9 := left (Z.lxor (Z.lxor (Z.lxor w9 w6) w1) w11) in let '(a, d) := Round e a b c d (f3 a b c) k3 w9 in
  let w10 := left (Z.lxor (Z.lxor (Z.lxor w10 w7) w2) w12) in let '(e, c) := Round d e a b c (f3 e a b) k3 w10 in
  let w11 := left (Z.lxor (Z.lxor (Z.lxor w11 w8) w3) w13) in let '(d, b) := Round c d e a b (f3 d e a) k3 w11 in
  let w12 := left (Z.lxor (Z.lxor (Z.lxor w12 w9) w4) w14) in let '(c, a) := Round b c d e a (f3 c d e) k3 w12 in
  let w13 := left (Z.lxor (Z.lxor (Z.lxor w13 w10) w5) w15) in let '(b, e) := Round a b c d e (f3 b c d) k3 w13 in
  let w14 := left (Z.lxor (Z.lxor (Z.lxor w14 w11) w6) w0) in let '(a, d) := Round e a b c d (f3 a b c) k3 w14 in
  let w15 := left (Z.lxor (Z.lxor (Z.lxor w15 w12) w7) w1) in let '(e, c) := Round d e a b c (f3 e a b) k3 w15 in
  let w0 := left (Z.lxor (Z.lxor (Z.lxor w0 w13) w8) w2) in let '(d, b) := Round c d e a b (f3 d e a) k3 w0 in
  let w1 := left (Z.lxor (Z.lxor (Z.lxor w1 w14) w9) w3) in let '(c, a) := Round b c d e a (f3 c d e) k3 w1 in
  let w2 := left (Z.lxor (Z.lxor (Z.lxor w2 w15) w10) w4) in let '(b, e) := Round a b c d e (f3 b c d) k3 w2 in
  let w3 := left (Z.lxor (Z.lxor (Z.lxor w3 w0) w11) w5) in let '(a, d) := Round e a b c d (f3 a b c) k3 w3 in
  let w4 := left (Z.lxor (Z.lxor (Z.lxor w4 w1) w12) w6) in let '(e, c) := Round d e a b c (f3 e a b) k3 w4 in
  let w5 := left (Z.lxor (Z.lxor (Z.lxor w5 w2) w13) w7) in let '(d, b) := Round c d e a b (f3 d e a) k3 w5 in
  let w6 := left (Z.lxor (Z.lxor (Z.lxor w6 w3) w14) w8) in let '(c, a) := Round b c d e a (f3 c d e) k3 w6 in
  let w7 := left (Z.lxor (Z.lxor (Z.lxor w7 w4) w15) w9) in let '(b, e) := Round a b c d e (f3 b c d) k3 w7 in
  let w8 := left (Z.lxor (Z.lxor (Z.lxor w8 w5) w0) w10) in let '(a, d) := Round e a b c d (f3 a b c) k3 w8 in
  let w9 := left (Z.lxor (Z.lxor (Z.lxor w9 w6) w1) w11) in let '(e, c) := Round d e a b c (f3 e a b) k3 w9 in
  let w10 := left (Z.lxor (Z.lxor (Z.lxor w10 w7) w2) w12) in let '(d, b) := Round c d e a b (f3 d e a) k3 w10 in
  let w11 := left (Z.lxor (Z.lxor (Z.lxor w11 w8) w3) w13) in let '(c, a) := Round b c d e a (f3 c d e) k3 w11 in
  let w12 := left (Z.lxor (Z.lxor (Z.lxor w12 w9) w4) w14) in let '(b, e) := Round a b c d e (f2 b c d) k4 w12 in
  let w13 := left (Z.lxor (Z.lxor (Z.lxor w13 w10) w5) w15) in let '(a, d) := Round e a b c d (f2 a b c) k4 w13 in
  let w14 := left (Z.lxor (Z.lxor (Z.lxor w14 w11) w6) w0) in let '(e, c) := Round d e a b c (f2 e a b) k4 w14 in
  let w15 := left (Z.lxor (Z.lxor (Z.lxor w15 w12) w7) w1) in let '(d, b) := Round c d e a b (f2 d e a) k4 w15 in
  let w0 := left (Z.lxor (Z.lxor (Z.lxor w0 w13) w8) w2) in let '(c, a) := Round b c d e a (f2 c d e) k4 w0 in
  let w1 := left (Z.lxor (Z.lxor (Z.lxor w1 w14) w9) w3) in let '(b, e) := Round a b c d e (f2 b c d) k4 w1 in
  let w2 := left (Z.lxor (Z.lxor (Z.lxor w2 w15) w10) w4) in let '(a, d) := Round e a b c d (f2 a b c) k4 w2 in
  let w3 := left (Z.lxor (Z.lxor (Z.lxor w3 w0) w11) w5) in let '(e, c) := Round d e a b c (f2 e a b) k4 w3 in
  let w4 := left (Z.lxor (Z.lxor (Z.lxor w4 w1) w12) w6) in let '(d, b) := Round c d e a b (f2 d e a) k4 w4 in
  let w5 := left (Z.lxor (Z.lxor (Z.lxor w5 w2) w13) w7) in let '(c, a) := Round b c d e a (f2 c d e) k4 w5 in
  let w6 := left (Z.lxor (Z.lxor (Z.lxor w6 w3) w14) w8) in let '(b, e) := Round a b c d e (f2 b c d) k4 w6 in
  let w7 := left (Z.lxor (Z.lxor (Z.lxor w7 w4) w15) w9) in let '(a, d) := Round e a b c d (f2 a b c) k4 w7 in
  let w8 := left (Z.lxor (Z.lxor (Z.lxor w8 w5) w0) w10) in let '(e, c) := Round d e a b c (f2 e a b) k4 w8 in
  let w9 := left (Z.lxor (Z.lxor (Z.lxor w9 w6) w1) w11) in let '(d, b) := Round c d e a b (f2 d e a) k4 w9 in
  let w10 := left (Z.lxor (Z.lxor (Z.lxor w10 w7) w2) w12) in let '(c, a) := Round b c d e a (f2 c d e) k4 w10 in
  let w11 := left (Z.lxor (Z.lxor (Z.lxor w11 w8) w3) w13) in let '(b, e) := Round a b c d e (f2 b c d) k4 w11 in
  let w12 := left (Z.lxor (Z.lxor (Z.lxor w12 w9) w4) w14) in let '(a, d) := Round e a b c d (f2 a b c) k4 w12 in
  let '(e, c) := Round d e a b c (f2 e a b) k4 (left (Z.lxor (Z.lxor (Z.lxor w13 w10) w5) w15)) in
  let '(d, b) := Round c d e a b (f2 d e a) k4 (left (Z.lxor (Z.lxor (Z.lxor w14 w11) w6) w0)) in
  let '(c, a) := Round b c d e a (f2 c d e) k4 (left (Z.lxor (Z.lxor (Z.lxor w15 w12) w7) w1)) in
  [u32 (s !!! 0%nat + a); u32 (s !!! 1%nat + b); u32 (s !!! 2%nat + c); u32 (s !!! 3%nat + d); u32 (s !!! 4%nat + e)].

(** The loop over the blocks of the data. *)
Fixpoint Transform (s data : list Z) (blocks : nat) {struct blocks} : list Z :=
  match blocks with
  | O => s
  | S blocks => Transform (Transform_block s data) (drop 64 data) blocks
  end.

(** A new writer; [buf] is the memory of its buffer, which is not initialised. *)
Definition CSHA1 (buf : list Z) : writer (list Z) := mkWriter Initialize buf 0.
Definition CSHA1_Write : writer (list Z) → list Z → writer (list Z) := Write Transform.
Definition CSHA1_Finalize (w : writer (list Z)) : list Z := mjoin (map WriteBE32 (w_s (Pad Transform WriteBE64 w))).
Definition CSHA1_Reset (w : writer (list Z)) : writer (list Z) := mkWriter Initialize (w_buf w) 0.

End Sha1.

(** * The standard *)
Module Sha1Spec.
Import Writer WriterSpec.

(** FIPS 180-4, 4.1.1 and 4.2.1 *)
Definition ROTL (n x : Z) : Z := Z.lor (u32 (Z.shiftl x n)) (Z.shiftr x (32 - n)).
Definition Ch (x y z : Z) : Z := Z.lxor (Z.land x y) (Z.land (Z.lnot x) z).
Definition Parity (x y z : Z) : Z := Z.lxor (Z.lxor x y) z.
Definition Maj (x y z : Z) : Z := Z.lxor (Z.lxor (Z.land x y) (Z.land x z)) (Z.land y z).

(** The function and the constant of each of the eighty steps. *)
Definition fK : list ((Z → Z → Z → Z) * Z) :=
  replicate 20 (Ch, 0x5a827999) ++ replicate 20 (Parity, 0x6ed9eba1) ++ replicate 20 (Maj, 0x8f1bbcdc) ++ replicate 20 (Parity, 0xca62c1d6).
Definition H0 : list Z := [0x67452301; 0xefcdab89; 0x98badcfe; 0x10325476; 0xc3d2e1f0].

(** 6.1.2 *)
Definition next_word (W : nat → Z) : Z := ROTL 1 (Z.lxor (Z.lxor (Z.lxor (W 3%nat) (W 8%nat)) (W 14%nat)) (W 16%nat)).

Abbreviation vars := (Z * Z * Z * Z * Z)%type.

Definition step (v : vars) (x : (Z → Z → Z → Z) * Z * Z) : vars :=
  let '(a, b, c, d, e) := v in
  let '(f, k, w) := x in
  (u32 (ROTL 5 a + f b c d + e + k + w), a, ROTL 30 b, c, d).

Definition to_vars (s : list Z) : vars := (s !!! 0%nat, s !!! 1%nat, s !!! 2%nat, s !!! 3%nat, s !!! 4%nat).
Definition add_vars (s : list Z) (v : vars) : list Z :=
  let '(a, b, c, d, e) := v in
  [u32 (s !!! 0%nat + a); u32 (s !!! 1%nat + b); u32 (s !!! 2%nat + c); u32 (s !!! 3%nat + d); u32 (s !!! 4%nat + e)].

Definition compress (s block : list Z) : list Z :=
  add_vars s (foldl step (to_vars s) (zip_with pair fK (schedule next_word 64 (words ReadBE32 block)))).
Definition sha1 (msg : list Z) : list Z := output WriteBE32 (iterate compress H0 (padded WriteBE64 msg)).

End Sha1Spec.

Module Sha1Facts.
Import Writer WriterSpec WriterFacts Sha1Spec.

(** ** The functions *)

Lemma f1_eq x y z : Sha1.f1 x y z = Ch x y z.
Proof.
  apply Z.bits_inj'. intros n Hn. unfold Sha1.f1, Ch. rewrite !Z.lxor_spec, !Z.land_spec, Z.lxor_spec, Z.lnot_spec by lia.
  by destruct (Z.testbit x n), (Z.testbit y n), (Z.testbit z n).
Qed.

Lemma f3_eq x y z : Sha1.f3 x y z = Maj x y z.
Proof.
  apply Z.bits_inj'. intros n Hn. unfold Sha1.f3, Maj. rewrite !Z.lor_spec, !Z.lxor_spec, !Z.land_spec, Z.lor_spec.
  by destruct (Z.testbit x n), (Z.testbit y n), (Z.testbit z n).
Qed.

Lemma sha1_next_word_ext g g' : (∀ j, (0 < j <= 16)%nat → g j = g' j) → next_word g = next_word g'.
Proof. intros H. unfold next_word. by rewrite !H by lia. Qed.

Lemma left_eq v0 v2 v8 v13 :
  ROTL 1 (Z.lxor (Z.lxor (Z.lxor v13 v8) v2) v0) = Sha1.left (Z.lxor (Z.lxor (Z.lxor v0 v13) v8) v2).
Proof. unfold Sha1.left, ROTL. by rewrite (Z.lxor_comm _ v0), !Z.lxor_assoc. Qed.

(** ** Rounds as the code runs them *)

Definition run (v : vars) (fks : list ((Z → Z → Z → Z) * Z)) (W : list Z) : vars := foldl step v (zip_with pair fks W).

Lemma run_f1 a b c d e k fks w W :
  run (a, b, c, d, e) ((Ch, k) :: fks) (w :: W) =
  let '(b', e') := Sha1.Round a b c d e (Sha1.f1 b c d) k w in run (e', a, b', c, d) fks W.
Proof. unfold run, Sha1.Round, step. cbn [zip_with foldl]. rewrite f1_eq. by replace (ROTL 5 a + Ch b c d + e + k + w) with (e + (ROTL 5 a + Ch b c d + k + w)) by lia. Qed.

Lemma run_f2 a b c d e k fks w W :
  run (a, b, c, d, e) ((Parity, k) :: fks) (w :: W) =
  let '(b', e') := Sha1.Round a b c d e (Sha1.f2 b c d) k w in run (e', a, b', c, d) fks W.
Proof. unfold run, Sha1.Round, step. cbn [zip_with foldl]. change Sha1.f2 with Parity. by replace (ROTL 5 a + Parity b c d + e + k + w) with (e + (ROTL 5 a + Parity b c d + k + w)) by lia. Qed.

Lemma run_f3 a b c d e k fks w W :
  run (a, b, c, d, e) ((Maj, k) :: fks) (w :: W) =
  let '(b', e') := Sha1.Round a b c d e (Sha1.f3 b c d) k w in run (e', a, b', c, d) fks W.
Proof. unfold run, Sha1.Round, step. cbn [zip_with foldl]. rewrite f3_eq. by replace (ROTL 5 a + Maj b c d + e + k + w) with (e + (ROTL 5 a + Maj b c d + k + w)) by lia. Qed.

Lemma sha1_run_extend v fks n v0 v1 v2 v3 v4 v5 v6 v7 v8 v9 v10 v11 v12 v13 v14 v15 :
  run v fks (extend next_word (S n) [v0; v1; v2; v3; v4; v5; v6; v7; v8; v9; v10; v11; v12; v13; v14; v15]) =
  let w := Sha1.left (Z.lxor (Z.lxor (Z.lxor v0 v13) v8) v2) in run v fks (w :: extend next_word n [v1; v2; v3; v4; v5; v6; v7; v8; v9; v10; v11; v12; v13; v14; v15; w]).
Proof. cbv zeta. rewrite <- left_eq. reflexivity. Qed.

(** A word that is stored, one that is not, and a round of either kind. *)
Ltac stored run_f := rewrite sha1_run_extend; same_word; rewrite run_f; same_round.
Ltac last run_f := rewrite sha1_run_extend; cbv zeta; rewrite run_f; same_round.

Lemma sha1_words_eq chunk : words ReadBE32 chunk = [ReadBE32 chunk 0; ReadBE32 chunk 4; ReadBE32 chunk 8; ReadBE32 chunk 12; ReadBE32 chunk 16; ReadBE32 chunk 20; ReadBE32 chunk 24; ReadBE32 chunk 28; ReadBE32 chunk 32; ReadBE32 chunk 36; ReadBE32 chunk 40; ReadBE32 chunk 44; ReadBE32 chunk 48; ReadBE32 chunk 52; ReadBE32 chunk 56; ReadBE32 chunk 60].
Proof. reflexivity. Qed.

Lemma sha1_compress_run s chunk w0 w1 w2 w3 w4 w5 w6 w7 w8 w9 w10 w11 w12 w13 w14 w15 :
  words ReadBE32 chunk = [w0; w1; w2; w3; w4; w5; w6; w7; w8; w9; w10; w11; w12; w13; w14; w15] →
  compress s chunk = add_vars s (run (to_vars s) fK (w0 :: w1 :: w2 :: w3 :: w4 :: w5 :: w6 :: w7 :: w8 :: w9 :: w10 :: w11 :: w12 :: w13 :: w14 :: w15 :: extend next_word 64 [w0; w1; w2; w3; w4; w5; w6; w7; w8; w9; w10; w11; w12; w13; w14; w15])).
Proof.
  intros E. unfold compress. rewrite E.
  pose proof (schedule_extend next_word 64 [] [w0; w1; w2; w3; w4; w5; w6; w7; w8; w9; w10; w11; w12; w13; w14; w15] sha1_next_word_ext eq_refl) as E'. cbn [app] in E'. rewrite E'. unfold run. reflexivity.
Qed.

Opaque Sha1.Transform_block.

Lemma sha1_Transform_block_eq s chunk : Sha1.Transform_block s chunk = compress s chunk.
Proof.
  rewrite (sha1_compress_run s chunk _ _ _ _ _ _ _ _ _ _ _ _ _ _ _ _ (sha1_words_eq chunk)). unfold to_vars, fK. cbn [replicate app].
  Transparent Sha1.Transform_block. cbv beta delta [Sha1.Transform_block Sha1.k1 Sha1.k2 Sha1.k3 Sha1.k4]. do 5 peel.
  generalize (ReadBE32 chunk 0); intros x0. generalize (ReadBE32 chunk 4); intros x1. generalize (ReadBE32 chunk 8); intros x2. generalize (ReadBE32 chunk 12); intros x3. generalize (ReadBE32 chunk 16); intros x4. generalize (ReadBE32 chunk 20); intros x5. generalize (ReadBE32 chunk 24); intros x6. generalize (ReadBE32 chunk 28); intros x7. generalize (ReadBE32 chunk 32); intros x8. generalize (ReadBE32 chunk 36); intros x9. generalize (ReadBE32 chunk 40); intros x10. generalize (ReadBE32 chunk 44); intros x11. generalize (ReadBE32 chunk 48); intros x12. generalize (ReadBE32 chunk 52); intros x13. generalize (ReadBE32 chunk 56); intros x14. generalize (ReadBE32 chunk 60); intros x15.
  do 16 (peel; rewrite run_f1; same_round).
  do 4 stored run_f1. do 20 stored run_f2. do 20 stored run_f3. do 17 stored run_f2. do 3 last run_f2. reflexivity.
Qed.

Opaque Sha1.Transform_block.

(** ** The hash *)

Lemma sha1_Transform_blocks s data n : Sha1.Transform s data n = foldl compress s (blocks n data).
Proof.
  revert s data. induction n as [|n IH]; intros s data; cbn [Sha1.Transform blocks foldl]; [done|].
  rewrite IH, sha1_Transform_block_eq. unfold compress. by rewrite words_BE.
Qed.

Lemma CSHA1_pieces w msg pieces :
  absorbed compress H0 w msg → Sha1.CSHA1_Finalize (foldl Sha1.CSHA1_Write w pieces) = sha1 (msg ++ mjoin pieces).
Proof.
  intros Hw. unfold Sha1.CSHA1_Finalize, sha1, output. do 2 f_equal.
  by apply (Pad_pieces compress H0 _ sha1_Transform_blocks); [apply WriteBE64_size|].
Qed.

Lemma CSHA1_new buf : length buf = 64%nat → absorbed compress H0 (Sha1.CSHA1 buf) [].
Proof. apply absorbed_init. Qed.

Lemma sha1_add_vars_size s v : length (add_vars s v) = 5%nat.
Proof. by destruct v as [[[[a b] c] d] e]. Qed.

Lemma sha1_iterate_size l : length (iterate compress H0 l) = 5%nat.
Proof.
  unfold iterate. generalize (blocks (length l / 64) l). intros bs. induction bs as [|b bs IH] using rev_ind; [done|].
  rewrite foldl_app. apply sha1_add_vars_size.
Qed.

Lemma sha1_size msg : length (sha1 msg) = 20%nat ∧ bytes_ok (sha1 msg).
Proof.
  unfold sha1. destruct (output_size WriteBE32 (iterate compress H0 (padded WriteBE64 msg)) WriteBE32_size) as [E Hb].
  by rewrite E, sha1_iterate_size.
Qed.

End Sha1Facts.
