(* ===== verification/Ripemd160.v ===== *)
(** RIPEMD-160: [src/crypto/ripemd160.cpp], the unrolled transformation and the
    writer [CRIPEMD160], the function of Dobbertin, Bosselaers and Preneel, and
    that the code computes it. *)
From Stdlib Require Import ZArith Lia.
From stdpp Require Import list.
From S2P Require Import Prelude HashWriter.
Local Open Scope Z_scope.

Module Ripemd160.
Export Writer.

(** [~x] of a [uint32_t]. *)
Definition not32 (x : Z) : Z := u32 (Z.lnot x).

Definition f1 (x y z : Z) : Z := Z.lxor (Z.lxor x y) z.
Definition f2 (x y z : Z) : Z := Z.lor (Z.land x y) (Z.land (not32 x) z).
Definition f3 (x y z : Z) : Z := Z.lxor (Z.lor x (not32 y)) z.
Definition f4 (x y z : Z) : Z := Z.lor (Z.land x z) (Z.land y (not32 z)).
Definition f5 (x y z : Z) : Z := Z.lxor x (Z.lor y (not32 z)).

Definition Initialize : list Z := [0x67452301; 0xEFCDAB89; 0x98BADCFE; 0x10325476; 0xC3D2E1F0].

Definition rol (x i : Z) : Z := Z.lor (u32 (Z.shiftl x i)) (Z.shiftr x (32 - i)).

(** The new values of [a] and [c]. *)
Definition Round (a b c d e f x k r : Z) : Z * Z := (u32 (rol (u32 (a + f + x + k)) r + e), rol c 10).

Definition R11 (a b c d e x r : Z) : Z * Z := Round a b c d e (f1 b c d) x 0 r.
Definition R21 (a b c d e x r : Z) : Z * Z := Round a b c d e (f2 b c d) x 0x5A827999 r.
Definition R31 (a b c d e x r : Z) : Z * Z := Round a b c d e (f3 b c d) x 0x6ED9EBA1 r.
Definition R41 (a b c d e x r : Z) : Z * Z := Round a b c d e (f4 b c d) x 0x8F1BBCDC r.
Definition R51 (a b c d e x r : Z) : Z * Z := Round a b c d e (f5 b c d) x 0xA953FD4E r.
Definition R12 (a b c d e x r : Z) : Z * Z := Round a b c d e (f5 b c d) x 0x50A28BE6 r.
Definition R22 (a b c d e x r : Z) : Z * Z := Round a b c d e (f4 b c d) x 0x5C4DD124 r.
Definition R32 (a b c d e x r : Z) : Z * Z := Round a b c d e (f3 b c d) x 0x6D703EF3 r.
Definition R42 (a b c d e x r : Z) : Z * Z := Round a b c d e (f2 b c d) x 0x7A6D76E9 r.
Definition R52 (a b c d e x r : Z) : Z * Z := Round a b c d e (f1 b c d) x 0 r.

Definition Transform_block (s chunk : list Z) : list Z :=
  let a1 := s !!! 0%nat in let b1 := s !!! 1%nat in let c1 := s !!! 2%nat in let d1 := s !!! 3%nat in let e1 := s !!! 4%nat in
  let a2 := a1 in let b2 := b1 in let c2 := c1 in let d2 := d1 in let e2 := e1 in
  let w0 := ReadLE32 chunk 0 in let w1 := ReadLE32 chunk 4 in let w2 := ReadLE32 chunk 8 in let w3 := ReadLE32 chunk 12 in
  let w4 := ReadLE32 chunk 16 in let w5 := ReadLE32 chunk 20 in let w6 := ReadLE32 chunk 24 in let w7 := ReadLE32 chunk 28 in
  let w8 := ReadLE32 chunk 32 in let w9 := ReadLE32 chunk 36 in let w10 := ReadLE32 chunk 40 in let w11 := ReadLE32 chunk 44 in
  let w12 := ReadLE32 chunk 48 in let w13 := ReadLE32 chunk 52 in let w14 := ReadLE32 chunk 56 in let w15 := ReadLE32 chunk 60 in
  let '(a1, c1) := R11 a1 b1 c1 d1 e1 w0 11 in
  let '(a2, c2) := R12 a2 b2 c2 d2 e2 w5 8 in
  let '(e1, b1) := R11 e1 a1 b1 c1 d1 w1 14 in
  let '(e2, b2) := R12 e2 a2 b2 c2 d2 w14 9 in
  let '(d1, a1) := R11 d1 e1 a1 b1 c1 w2 15 in
  let '(d2, a2) := R12 d2 e2 a2 b2 c2 w7 9 in
  let '(c1, e1) := R11 c1 d1 e1 a1 b1 w3 12 in
  let '(c2, e2) := R12 c2 d2 e2 a2 b2 w0 11 in
  let '(b1, d1) := R11 b1 c1 d1 e1 a1 w4 5 in
  let '(b2, d2) := R12 b2 c2 d2 e2 a2 w9 13 in
  let '(a1, c1) := R11 a1 b1 c1 d1 e1 w5 8 in
  let '(a2, c2) := R12 a2 b2 c2 d2 e2 w2 15 in
  let '(e1, b1) := R11 e1 a1 b1 c1 d1 w6 7 in
  let '(e2, b2) := R12 e2 a2 b2 c2 d2 w11 15 in
  let '(d1, a1) := R11 d1 e1 a1 b1 c1 w7 9 in
  let '(d2, a2) := R12 d2 e2 a2 b2 c2 w4 5 in
  let '(c1, e1) := R11 c1 d1 e1 a1 b1 w8 11 in
  let '(c2, e2) := R12 c2 d2 e2 a2 b2 w13 7 in
  let '(b1, d1) := R11 b1 c1 d1 e1 a1 w9 13 in
  let '(b2, d2) := R12 b2 c2 d2 e2 a2 w6 7 in
  let '(a1, c1) := R11 a1 b1 c1 d1 e1 w10 14 in
  let '(a2, c2) := R12 a2 b2 c2 d2 e2 w15 8 in
  let '(e1, b1) := R11 e1 a1 b1 c1 d1 w11 15 in
  let '(e2, b2) := R12 e2 a2 b2 c2 d2 w8 11 in
  let '(d1, a1) := R11 d1 e1 a1 b1 c1 w12 6 in
  let '(d2, a2) := R12 d2 e2 a2 b2 c2 w1 14 in
  let '(c1, e1) := R11 c1 d1 e1 a1 b1 w13 7 in
  let '(c2, e2) := R12 c2 d2 e2 a2 b2 w10 14 in
  let '(b1, d1) := R11 b1 c1 d1 e1 a1 w14 9 in
  let '(b2, d2) := R12 b2 c2 d2 e2 a2 w3 12 in
  let '(a1, c1) := R11 a1 b1 c1 d1 e1 w15 8 in
  let '(a2, c2) := R12 a2 b2 c2 d2 e2 w12 6 in
  let '(e1, b1) := R21 e1 a1 b1 c1 d1 w7 7 in
  let '(e2, b2) := R22 e2 a2 b2 c2 d2 w6 9 in
  let '(d1, a1) := R21 d1 e1 a1 b1 c1 w4 6 in
  let '(d2, a2) := R22 d2 e2 a2 b2 c2 w11 13 in
  let '(c1, e1) := R21 c1 d1 e1 a1 b1 w13 8 in
  let '(c2, e2) := R22 c2 d2 e2 a2 b2 w3 15 in
  let '(b1, d1) := R21 b1 c1 d1 e1 a1 w1 13 in
  let '(b2, d2) := R22 b2 c2 d2 e2 a2 w7 7 in
  let '(a1, c1) := R21 a1 b1 c1 d1 e1 w10 11 in
  let '(a2, c2) := R22 a2 b2 c2 d2 e2 w0 12 in
  let '(e1, b1) := R21 e1 a1 b1 c1 d1 w6 9 in
  let '(e2, b2) := R22 e2 a2 b2 c2 d2 w13 8 in
  let '(d1, a1) := R21 d1 e1 a1 b1 c1 w15 7 in
  let '(d2, a2) := R22 d2 e2 a2 b2 c2 w5 9 in
  let '(c1, e1) := R21 c1 d1 e1 a1 b1 w3 15 in
  let '(c2, e2) := R22 c2 d2 e2 a2 b2 w10 11 in
  let '(b1, d1) := R21 b1 c1 d1 e1 a1 w12 7 in
  let '(b2, d2) := R22 b2 c2 d2 e2 a2 w14 7 in
  let '(a1, c1) := R21 a1 b1 c1 d1 e1 w0 12 in
  let '(a2, c2) := R22 a2 b2 c2 d2 e2 w15 7 in
  let '(e1, b1) := R21 e1 a1 b1 c1 d1 w9 15 in
  let '(e2, b2) := R22 e2 a2 b2 c2 d2 w8 12 in
  let '(d1, a1) := R21 d1 e1 a1 b1 c1 w5 9 in
  let '(d2, a2) := R22 d2 e2 a2 b2 c2 w12 7 in
  let '(c1, e1) := R21 c1 d1 e1 a1 b1 w2 11 in
  let '(c2, e2) := R22 c2 d2 e2 a2 b2 w4 6 in
  let '(b1, d1) := R21 b1 c1 d1 e1 a1 w14 7 in
  let '(b2, d2) := R22 b2 c2 d2 e2 a2 w9 15 in
  let '(a1, c1) := R21 a1 b1 c1 d1 e1 w11 13 in
  let '(a2, c2) := R22 a2 b2 c2 d2 e2 w1 13 in
  let '(e1, b1) := R21 e1 a1 b1 c1 d1 w8 12 in
  let '(e2, b2) := R22 e2 a2 b2 c2 d2 w2 11 in
  let '(d1, a1) := R31 d1 e1 a1 b1 c1 w3 11 in
  let '(d2, a2) := R32 d2 e2 a2 b2 c2 w15 9 in
  let '(c1, e1) := R31 c1 d1 e1 a1 b1 w10 13 in
  let '(c2, e2) := R32 c2 d2 e2 a2 b2 w5 7 in
  let '(b1, d1) := R31 b1 c1 d1 e1 a1 w14 6 in
  let '(b2, d2) := R32 b2 c2 d2 e2 a2 w1 15 in
  let '(a1, c1) := R31 a1 b1 c1 d1 e1 w4 7 in
  let '(a2, c2) := R32 a2 b2 c2 d2 e2 w3 11 in
  let '(e1, b1) := R31 e1 a1 b1 c1 d1 w9 14 in
  let '(e2, b2) := R32 e2 a2 b2 c2 d2 w7 8 in
  let '(d1, a1) := R31 d1 e1 a1 b1 c1 w15 9 in
  let '(d2, a2) := R32 d2 e2 a2 b2 c2 w14 6 in
  let '(c1, e1) := R31 c1 d1 e1 a1 b1 w8 13 in
  let '(c2, e2) := R32 c2 d2 e2 a2 b2 w6 6 in
  let '(b1, d1) := R31 b1 c1 d1 e1 a1 w1 15 in
  let '(b2, d2) := R32 b2 c2 d2 e2 a2 w9 14 in
  let '(a1, c1) := R31 a1 b1 c1 d1 e1 w2 14 in
  let '(a2, c2) := R32 a2 b2 c2 d2 e2 w11 12 in
  let '(e1, b1) := R31 e1 a1 b1 c1 d1 w7 8 in
  let '(e2, b2) := R32 e2 a2 b2 c2 d2 w8 13 in
  let '(d1, a1) := R31 d1 e1 a1 b1 c1 w0 13 in
  let '(d2, a2) := R32 d2 e2 a2 b2 c2 w12 5 in
  let '(c1, e1) := R31 c1 d1 e1 a1 b1 w6 6 in
  let '(c2, e2) := R32 c2 d2 e2 a2 b2 w2 14 in
  let '(b1, d1) := R31 b1 c1 d1 e1 a1 w13 5 in
  let '(b2, d2) := R32 b2 c2 d2 e2 a2 w10 13 in
  let '(a1, c1) := R31 a1 b1 c1 d1 e1 w11 12 in
  let '(a2, c2) := R32 a2 b2 c2 d2 e2 w0 13 in
  let '(e1, b1) := R31 e1 a1 b1 c1 d1 w5 7 in
  let '(e2, b2) := R32 e2 a2 b2 c2 d2 w4 7 in
  let '(d1, a1) := R31 d1 e1 a1 b1 c1 w12 5 in
  let '(d2, a2) := R32 d2 e2 a2 b2 c2 w13 5 in
  let '(c1, e1) := R41 c1 d1 e1 a1 b1 w1 11 in
  let '(c2, e2) := R42 c2 d2 e2 a2 b2 w8 15 in
  let '(b1, d1) := R41 b1 c1 d1 e1 a1 w9 12 in
  let '(b2, d2) := R42 b2 c2 d2 e2 a2 w6 5 in
  let '(a1, c1) := R41 a1 b1 c1 d1 e1 w11 14 in
  let '(a2, c2) := R42 a2 b2 c2 d2 e2 w4 8 in
  let '(e1, b1) := R41 e1 a1 b1 c1 d1 w10 15 in
  let '(e2, b2) := R42 e2 a2 b2 c2 d2 w1 11 in
  let '(d1, a1) := R41 d1 e1 a1 b1 c1 w0 14 in
  let '(d2, a2) := R42 d2 e2 a2 b2 c2 w3 14 in
  let '(c1, e1) := R41 c1 d1 e1 a1 b1 w8 15 in
  let '(c2, e2) := R42 c2 d2 e2 a2 b2 w11 14 in
  let '(b1, d1) := R41 b1 c1 d1 e1 a1 w12 9 in
  let '(b2, d2) := R42 b2 c2 d2 e2 a2 w15 6 in
  let '(a1, c1) := R41 a1 b1 c1 d1 e1 w4 8 in
  let '(a2, c2) := R42 a2 b2 c2 d2 e2 w0 14 in
  let '(e1, b1) := R41 e1 a1 b1 c1 d1 w13 9 in
  let '(e2, b2) := R42 e2 a2 b2 c2 d2 w5 6 in
  let '(d1, a1) := R41 d1 e1 a1 b1 c1 w3 14 in
  let '(d2, a2) := R42 d2 e2 a2 b2 c2 w12 9 in
  let '(c1, e1) := R41 c1 d1 e1 a1 b1 w7 5 in
  let '(c2, e2) := R42 c2 d2 e2 a2 b2 w2 12 in
  let '(b1, d1) := R41 b1 c1 d1 e1 a1 w15 6 in
  let '(b2, d2) := R42 b2 c2 d2 e2 a2 w13 9 in
  let '(a1, c1) := R41 a1 b1 c1 d1 e1 w14 8 in
  let '(a2, c2) := R42 a2 b2 c2 d2 e2 w9 12 in
  let '(e1, b1) := R41 e1 a1 b1 c1 d1 w5 6 in
  let '(e2, b2) := R42 e2 a2 b2 c2 d2 w7 5 in
  let '(d1, a1) := R41 d1 e1 a1 b1 c1 w6 5 in
  let '(d2, a2) := R42 d2 e2 a2 b2 c2 w10 15 in
  let '(c1, e1) := R41 c1 d1 e1 a1 b1 w2 12 in
  let '(c2, e2) := R42 c2 d2 e2 a2 b2 w14 8 in
  let '(b1, d1) := R51 b1 c1 d1 e1 a1 w4 9 in
  let '(b2, d2) := R52 b2 c2 d2 e2 a2 w12 8 in
  let '(a1, c1) := R51 a1 b1 c1 d1 e1 w0 15 in
  let '(a2, c2) := R52 a2 b2 c2 d2 e2 w15 5 in
  let '(e1, b1) := R51 e1 a1 b1 c1 d1 w5 5 in
  let '(e2, b2) := R52 e2 a2 b2 c2 d2 w10 12 in
  let '(d1, a1) := R51 d1 e1 a1 b1 c1 w9 11 in
  let '(d2, a2) := R52 d2 e2 a2 b2 c2 w4 9 in
  let '(c1, e1) := R51 c1 d1 e1 a1 b1 w7 6 in
  let '(c2, e2) := R52 c2 d2 e2 a2 b2 w1 12 in
  let '(b1, d1) := R51 b1 c1 d1 e1 a1 w12 8 in
  let '(b2, d2) := R52 b2 c2 d2 e2 a2 w5 5 in
  let '(a1, c1) := R51 a1 b1 c1 d1 e1 w2 13 in
  let '(a2, c2) := R52 a2 b2 c2 d2 e2 w8 14 in
  let '(e1, b1) := R51 e1 a1 b1 c1 d1 w10 12 in
  let '(e2, b2) := R52 e2 a2 b2 c2 d2 w7 6 in
  let '(d1, a1) := R51 d1 e1 a1 b1 c1 w14 5 in
  let '(d2, a2) := R52 d2 e2 a2 b2 c2 w6 8 in
  let '(c1, e1) := R51 c1 d1 e1 a1 b1 w1 12 in
  let '(c2, e2) := R52 c2 d2 e2 a2 b2 w2 13 in
  let '(b1, d1) := R51 b1 c1 d1 e1 a1 w3 13 in
  let '(b2, d2) := R52 b2 c2 d2 e2 a2 w13 6 in
  let '(a1, c1) := R51 a1 b1 c1 d1 e1 w8 14 in
  let '(a2, c2) := R52 a2 b2 c2 d2 e2 w14 5 in
  let '(e1, b1) := R51 e1 a1 b1 c1 d1 w11 11 in
  let '(e2, b2) := R52 e2 a2 b2 c2 d2 w0 15 in
  let '(d1, a1) := R51 d1 e1 a1 b1 c1 w6 8 in
  let '(d2, a2) := R52 d2 e2 a2 b2 c2 w3 13 in
  let '(c1, e1) := R51 c1 d1 e1 a1 b1 w15 5 in
  let '(c2, e2) := R52 c2 d2 e2 a2 b2 w9 11 in
  let '(b1, d1) := R51 b1 c1 d1 e1 a1 w13 6 in
  let '(b2, d2) := R52 b2 c2 d2 e2 a2 w11 11 in
  let t := s !!! 0%nat in
  [u32 (s !!! 1%nat + c1 + d2); u32 (s !!! 2%nat + d1 + e2); u32 (s !!! 3%nat + e1 + a2); u32 (s !!! 4%nat + a1 + b2); u32 (t + b1 + c2)].

(** The loop over the blocks of the data. *)
Fixpoint Transform (s data : list Z) (blocks : nat) {struct blocks} : list Z :=
  match blocks with
  | O => s
  | S blocks => Transform (Transform_block s data) (drop 64 data) blocks
  end.

(** A new writer; [buf] is the memory of its buffer, which is not initialised. *)
Definition CRIPEMD160 (buf : list Z) : writer (list Z) := mkWriter Initialize buf 0.
Definition CRIPEMD160_Write : writer (list Z) → list Z → writer (list Z) := Write Transform.
Definition CRIPEMD160_Finalize (w : writer (list Z)) : list Z := mjoin (map WriteLE32 (w_s (Pad Transform WriteLE64 w))).
Definition CRIPEMD160_Reset (w : writer (list Z)) : writer (list Z) := mkWriter Initialize (w_buf w) 0.

End Ripemd160.

(** * The function *)

(** H. Dobbertin, A. Bosselaers, B. Preneel, RIPEMD-160: a strengthened version
    of RIPEMD, appendix A. *)
Module Ripemd160Spec.
Import Writer WriterSpec.

Definition Not (x : Z) : Z := u32 (Z.lnot x).
Definition RotL (s x : Z) : Z := Z.lor (u32 (Z.shiftl x s)) (Z.shiftr x (32 - s)).

Definition F1 (x y z : Z) : Z := Z.lxor (Z.lxor x y) z.
Definition F2 (x y z : Z) : Z := Z.lor (Z.land x y) (Z.land (Not x) z).
Definition F3 (x y z : Z) : Z := Z.lxor (Z.lor x (Not y)) z.
Definition F4 (x y z : Z) : Z := Z.lor (Z.land x z) (Z.land y (Not z)).
Definition F5 (x y z : Z) : Z := Z.lxor x (Z.lor y (Not z)).

(** The function and the constant of each step, on the left and on the right. *)
Definition fK : list ((Z → Z → Z → Z) * Z) :=
  replicate 16 (F1, 0) ++ replicate 16 (F2, 0x5a827999) ++ replicate 16 (F3, 0x6ed9eba1) ++ replicate 16 (F4, 0x8f1bbcdc) ++ replicate 16 (F5, 0xa953fd4e).
Definition fK' : list ((Z → Z → Z → Z) * Z) :=
  replicate 16 (F5, 0x50a28be6) ++ replicate 16 (F4, 0x5c4dd124) ++ replicate 16 (F3, 0x6d703ef3) ++ replicate 16 (F2, 0x7a6d76e9) ++ replicate 16 (F1, 0).
(** The selection of words. *)
Definition r : list nat :=
  [0; 1; 2; 3; 4; 5; 6; 7; 8; 9; 10; 11; 12; 13; 14; 15;
   7; 4; 13; 1; 10; 6; 15; 3; 12; 0; 9; 5; 2; 14; 11; 8;
   3; 10; 14; 4; 9; 15; 8; 1; 2; 7; 0; 6; 13; 11; 5; 12;
   1; 9; 11; 10; 0; 8; 12; 4; 13; 3; 7; 15; 14; 5; 6; 2;
   4; 0; 5; 9; 7; 12; 2; 10; 14; 1; 3; 8; 11; 6; 15; 13]%nat.
Definition r' : list nat :=
  [5; 14; 7; 0; 9; 2; 11; 4; 13; 6; 15; 8; 1; 10; 3; 12;
   6; 11; 3; 7; 0; 13; 5; 10; 14; 15; 8; 12; 4; 9; 1; 2;
   15; 5; 1; 3; 7; 14; 6; 9; 11; 8; 12; 2; 10; 0; 4; 13;
   8; 6; 4; 1; 3; 11; 15; 0; 5; 12; 2; 13; 9; 7; 10; 14;
   12; 15; 10; 4; 1; 5; 8; 7; 6; 2; 13; 14; 0; 3; 9; 11]%nat.
(** The amounts of rotation. *)
Definition s : list Z :=
  [11; 14; 15; 12; 5; 8; 7; 9; 11; 13; 14; 15; 6; 7; 9; 8;
   7; 6; 8; 13; 11; 9; 7; 15; 7; 12; 15; 9; 11; 7; 13; 12;
   11; 13; 6; 7; 14; 9; 13; 15; 14; 8; 13; 6; 5; 12; 7; 5;
   11; 12; 14; 15; 14; 15; 9; 8; 9; 14; 5; 6; 8; 6; 5; 12;
   9; 15; 5; 11; 6; 8; 13; 12; 5; 12; 13; 14; 11; 8; 5; 6].
Definition s' : list Z :=
  [8; 9; 9; 11; 13; 15; 15; 5; 7; 7; 8; 11; 14; 14; 12; 6;
   9; 13; 15; 7; 12; 8; 9; 11; 7; 7; 12; 7; 6; 15; 13; 11;
   9; 7; 15; 11; 8; 6; 6; 14; 12; 13; 5; 14; 13; 13; 7; 5;
   15; 5; 8; 11; 14; 14; 6; 14; 6; 9; 12; 9; 12; 5; 15; 8;
   8; 5; 12; 9; 12; 5; 14; 6; 8; 13; 6; 5; 15; 13; 11; 11].
Definition H0 : list Z := [0x67452301; 0xefcdab89; 0x98badcfe; 0x10325476; 0xc3d2e1f0].

Abbreviation vars := (Z * Z * Z * Z * Z)%type.
Abbreviation op := ((Z → Z → Z → Z) * Z * Z * Z)%type.

Definition step (v : vars) (x : op) : vars :=
  let '(A, B, C, D, E) := v in
  let '(f, K, X, s) := x in
  (E, u32 (RotL s (u32 (A + f B C D + X + K)) + E), B, RotL 10 C, D).

(** The steps of a line for the words [X] of a block. *)
Fixpoint ops (fK : list ((Z → Z → Z → Z) * Z)) (r : list nat) (s X : list Z) : list op :=
  match fK, r, s with
  | (f, K) :: fK, i :: r, n :: s => (f, K, X !!! i, n) :: ops fK r s X
  | _, _, _ => []
  end.

Definition to_vars (h : list Z) : vars := (h !!! 0%nat, h !!! 1%nat, h !!! 2%nat, h !!! 3%nat, h !!! 4%nat).
Definition combine (h : list Z) (v v' : vars) : list Z :=
  let '(A, B, C, D, E) := v in
  let '(A', B', C', D', E') := v' in
  [u32 (h !!! 1%nat + C + D'); u32 (h !!! 2%nat + D + E'); u32 (h !!! 3%nat + E + A'); u32 (h !!! 4%nat + A + B'); u32 (h !!! 0%nat + B + C')].

Definition compress_words (h X : list Z) : list Z :=
  combine h (foldl step (to_vars h) (ops fK r s X)) (foldl step (to_vars h) (ops fK' r' s' X)).
Definition compress (h block : list Z) : list Z := compress_words h (words ReadLE32 block).
Definition ripemd160 (msg : list Z) : list Z := output WriteLE32 (iterate compress H0 (padded WriteLE64 msg)).

End Ripemd160Spec.

Module Ripemd160Facts.
Import Writer WriterSpec WriterFacts Ripemd160Spec.

(** ** Rounds as the code runs them *)

Definition run (v : vars) (l : list op) : vars := foldl step v l.

Lemma rmd_run_Round a b c d e f k x n l :
  run (a, b, c, d, e) ((f, k, x, n) :: l) =
  let '(a', c') := Ripemd160.Round a b c d e (f b c d) x k n in run (e, a', b, c', d) l.
Proof. reflexivity. Qed.

Lemma rmd_compress_run h X : compress_words h X = combine h (run (to_vars h) (ops fK r s X)) (run (to_vars h) (ops fK' r' s' X)).
Proof. unfold run, compress_words. reflexivity. Qed.

Lemma rmd_words_eq chunk : words ReadLE32 chunk = [ReadLE32 chunk 0; ReadLE32 chunk 4; ReadLE32 chunk 8; ReadLE32 chunk 12; ReadLE32 chunk 16; ReadLE32 chunk 20; ReadLE32 chunk 24; ReadLE32 chunk 28; ReadLE32 chunk 32; ReadLE32 chunk 36; ReadLE32 chunk 40; ReadLE32 chunk 44; ReadLE32 chunk 48; ReadLE32 chunk 52; ReadLE32 chunk 56; ReadLE32 chunk 60].
Proof. reflexivity. Qed.

(** The steps as a list of constants and words. *)
Ltac expand_ops fK r s :=
  match goal with
  | |- context [ops fK r s ?X] => let l := eval lazy -[F1 F2 F3 F4 F5] in (ops fK r s X) in change (ops fK r s X) with l
  end.

Opaque Ripemd160.Transform_block.

Lemma rmd_Transform_block_eq h chunk : Ripemd160.Transform_block h chunk = compress h chunk.
Proof.
  unfold compress. rewrite rmd_words_eq. Transparent Ripemd160.Transform_block.
  cbv beta delta [Ripemd160.Transform_block Ripemd160.R11 Ripemd160.R21 Ripemd160.R31 Ripemd160.R41 Ripemd160.R51
    Ripemd160.R12 Ripemd160.R22 Ripemd160.R32 Ripemd160.R42 Ripemd160.R52]. do 26 peel.
  generalize (ReadLE32 chunk 0); intros x0. generalize (ReadLE32 chunk 4); intros x1. generalize (ReadLE32 chunk 8); intros x2. generalize (ReadLE32 chunk 12); intros x3. generalize (ReadLE32 chunk 16); intros x4. generalize (ReadLE32 chunk 20); intros x5. generalize (ReadLE32 chunk 24); intros x6. generalize (ReadLE32 chunk 28); intros x7. generalize (ReadLE32 chunk 32); intros x8. generalize (ReadLE32 chunk 36); intros x9. generalize (ReadLE32 chunk 40); intros x10. generalize (ReadLE32 chunk 44); intros x11. generalize (ReadLE32 chunk 48); intros x12. generalize (ReadLE32 chunk 52); intros x13. generalize (ReadLE32 chunk 56); intros x14. generalize (ReadLE32 chunk 60); intros x15.
  rewrite rmd_compress_run. expand_ops fK r s. expand_ops fK' r' s'. unfold to_vars.
  change Ripemd160.f1 with F1. change Ripemd160.f2 with F2. change Ripemd160.f3 with F3. change Ripemd160.f4 with F4. change Ripemd160.f5 with F5.
  do 80 (rewrite rmd_run_Round; rewrite rmd_run_Round; same_round; same_round). reflexivity.
Qed.

Opaque Ripemd160.Transform_block.

(** ** The hash *)

Lemma rmd_Transform_blocks h data n : Ripemd160.Transform h data n = foldl compress h (blocks n data).
Proof.
  revert h data. induction n as [|n IH]; intros h data; cbn [Ripemd160.Transform blocks foldl]; [done|].
  rewrite IH, rmd_Transform_block_eq. unfold compress. by rewrite words_LE.
Qed.

Lemma CRIPEMD160_pieces w msg pieces :
  absorbed compress H0 w msg → Ripemd160.CRIPEMD160_Finalize (foldl Ripemd160.CRIPEMD160_Write w pieces) = ripemd160 (msg ++ mjoin pieces).
Proof.
  intros Hw. unfold Ripemd160.CRIPEMD160_Finalize, ripemd160, output. do 2 f_equal.
  by apply (Pad_pieces compress H0 _ rmd_Transform_blocks); [apply WriteLE64_size|].
Qed.

Lemma CRIPEMD160_new buf : length buf = 64%nat → absorbed compress H0 (Ripemd160.CRIPEMD160 buf) [].
Proof. apply absorbed_init. Qed.

Lemma rmd_combine_size h v v' : length (combine h v v') = 5%nat.
Proof. by destruct v as [[[[a b] c] d] e], v' as [[[[a' b'] c'] d'] e']. Qed.

Lemma rmd_iterate_size l : length (iterate compress H0 l) = 5%nat.
Proof.
  unfold iterate. generalize (blocks (length l / 64) l). intros bs. induction bs as [|b bs IH] using rev_ind; [done|].
  rewrite foldl_app. cbn [foldl]. unfold compress at 1, compress_words. apply rmd_combine_size.
Qed.

Lemma ripemd160_size msg : length (ripemd160 msg) = 20%nat ∧ bytes_ok (ripemd160 msg).
Proof.
  unfold ripemd160. destruct (output_size WriteLE32 (iterate compress H0 (padded WriteLE64 msg)) WriteLE32_size) as [E Hb].
  by rewrite E, rmd_iterate_size.
Qed.

End Ripemd160Facts.
