(* ===== verification/Hashing.v ===== *)
(** The hash functions of the node: [src/hash.h], [src/hash.cpp] and the hash
    opcodes on top of the writers of [src/crypto], and the Merkle root computed
    in place by [SHA256D64]. *)
From Stdlib Require Import ZArith Lia.
From stdpp Require Import list.
From S2P Require Import Prelude Serialize Script Transaction Merkle BlockChecks Interpreter InterpreterFacts HashWriter Sha256 Sha256Facts Sha256Hash Sha1 Ripemd160.
Import Script Transaction Merkle Interpreter SafetyFacts.
Local Open Scope Z_scope.

Module Hashing.
Import Writer Sha256 Sha1 Ripemd160.

(** Objects of a hash class start with an uninitialised buffer: each function
    takes the memory of the buffers it creates. *)

(** ** [src/hash.h] *)

(** [CHash256]; its state is that of a [CSHA256]. *)
Definition CHash256_Write (sha : writer (list Z)) (input : list Z) : writer (list Z) := CSHA256_Write sha input.
Definition CHash256_Finalize (sha : writer (list Z)) : uint256 :=
  let buf := CSHA256_Finalize sha in
  let sha := Pad Sha256.Transform WriteBE64 sha in
  CSHA256_Finalize (CSHA256_Write (CSHA256_Reset sha) buf).

(** [CHash160] *)
Definition CHash160_Finalize (mem : list Z) (sha : writer (list Z)) : list Z :=
  let buf := CSHA256_Finalize sha in
  CRIPEMD160_Finalize (CRIPEMD160_Write (CRIPEMD160 mem) buf).

(** [Hash(in1)] and [Hash(in1, in2)] *)
Definition Hash (mem in1 : list Z) : uint256 := CHash256_Finalize (CHash256_Write (CSHA256 mem) in1).
Definition Hash_two (mem in1 in2 : list Z) : uint256 :=
  CHash256_Finalize (CHash256_Write (CHash256_Write (CSHA256 mem) in1) in2).
Definition Hash160 (mem mem' in1 : list Z) : list Z := CHash160_Finalize mem' (CSHA256_Write (CSHA256 mem) in1).

(** ** [src/hash.cpp] *)

(** [TaggedHash], the writer that has the tag's hash twice. *)
Definition TaggedHash_writer (mem mem' tag : list Z) : writer (list Z) :=
  let taghash := CSHA256_Finalize (CSHA256_Write (CSHA256 mem') tag) in
  CSHA256_Write (CSHA256_Write (CSHA256 mem) taghash) taghash.

(** ** The hash opcodes *)

(** What the [OP_RIPEMD160 ... OP_HASH256] cases of [EvalScript] call. *)
Definition node_hashes (mem : list Z) (low_s : list Z → bool) : script_hashes :=
  mkHashes (fun vch => CSHA1_Finalize (CSHA1_Write (CSHA1 mem) vch))
           (fun vch => CSHA256_Finalize (CSHA256_Write (CSHA256 mem) vch))
           (fun vch => CRIPEMD160_Finalize (CRIPEMD160_Write (CRIPEMD160 mem) vch)) low_s.

(** ** [ComputeMerkleRoot] on its vector of hashes *)

(** The first [n] entries of the vector. *)
Fixpoint entries (n : nat) (mem : list Z) : list uint256 :=
  match n with
  | O => []
  | S n => take 32 mem :: entries n (drop 32 mem)
  end.

Fixpoint merkle_loop_mem (fuel : nat) (hashes : list uint256) (mutation : bool) : list uint256 * bool :=
  match fuel with
  | O => (hashes, mutation)
  | S fuel =>
      if (1 <? length hashes)%nat then
        let mutation := mutation || level_mutated hashes in
        let hashes := if Nat.odd (length hashes) then hashes ++ [List.last hashes null256] else hashes in
        let mem := SHA256D64 (mjoin hashes) 0 0 (length hashes / 2) in
        merkle_loop_mem fuel (entries (length hashes / 2) mem) mutation
      else (hashes, mutation)
  end.

Definition ComputeMerkleRoot_mem (hashes : list uint256) : uint256 * bool :=
  match merkle_loop_mem (length hashes) hashes false with
  | ([], mutation) => (null256, mutation)
  | (h :: _, mutation) => (h, mutation)
  end.

End Hashing.

Module HashingFacts.
Import Writer WriterSpec WriterFacts Hashing.
Abbreviation sha256 := Sha256Spec.sha256.
Abbreviation sha1 := Sha1Spec.sha1.
Abbreviation ripemd160 := Ripemd160Spec.ripemd160.

Opaque Sha256.Transform_block Sha1.Transform_block Ripemd160.Transform_block.
Opaque Sha256Spec.compress Sha1Spec.compress Ripemd160Spec.compress Sha256.Transform Sha1.Transform Ripemd160.Transform.

(** ** The writers *)

Section Buffers.
Context (mem : list Z) (Hmem : length mem = 64%nat).

Lemma CSHA256_message pieces : Sha256.CSHA256_Finalize (foldl Sha256.CSHA256_Write (Sha256.CSHA256 mem) pieces) = sha256 (mjoin pieces).
Proof. apply (Sha256Hash.CSHA256_pieces _ []), Sha256Hash.CSHA256_new, Hmem. Qed.

Lemma CSHA1_message pieces : Sha1.CSHA1_Finalize (foldl Sha1.CSHA1_Write (Sha1.CSHA1 mem) pieces) = sha1 (mjoin pieces).
Proof. apply (Sha1Facts.CSHA1_pieces _ []), Sha1Facts.CSHA1_new, Hmem. Qed.

Lemma CRIPEMD160_message pieces :
  Ripemd160.CRIPEMD160_Finalize (foldl Ripemd160.CRIPEMD160_Write (Ripemd160.CRIPEMD160 mem) pieces) = ripemd160 (mjoin pieces).
Proof. apply (Ripemd160Facts.CRIPEMD160_pieces _ []), Ripemd160Facts.CRIPEMD160_new, Hmem. Qed.

End Buffers.

Lemma finalized_buf w msg : absorbed Sha256Spec.compress Sha256Spec.H0 w msg → length (w_buf (Pad Sha256.Transform WriteBE64 w)) = 64%nat.
Proof.
  intros Hw. unfold Pad.
  destruct (Write_absorbed _ _ _ Sha256Hash.Transform_blocks _ _ (WriteBE64 (u64 (Z.shiftl (w_bytes w) 3)))
    (Write_absorbed _ _ _ Sha256Hash.Transform_blocks w msg (take (1 + Z.to_nat ((119 - w_bytes w mod 64) mod 64)) (0x80 :: replicate 63 0)) Hw))
    as (? & ? & ? & ? & ? & Hb & _). done.
Qed.

Lemma CHash256_message mem pieces :
  length mem = 64%nat → CHash256_Finalize (foldl CHash256_Write (Sha256.CSHA256 mem) pieces) = sha256 (sha256 (mjoin pieces)).
Proof.
  intros Hmem. unfold CHash256_Finalize. change CHash256_Write with Sha256.CSHA256_Write. rewrite CSHA256_message by done.
  refine (eq_trans (Sha256Hash.CSHA256_pieces _ [] [sha256 (mjoin pieces)] _) _).
  - apply Sha256Hash.CSHA256_Reset_new, (finalized_buf _ (mjoin pieces)).
    apply (Writes_absorbed _ _ _ Sha256Hash.Transform_blocks _ []), Sha256Hash.CSHA256_new, Hmem.
  - cbn. by rewrite app_nil_r.
Qed.

(** ** [src/hash.h] and [src/hash.cpp] *)

Section Functions.
Context (mem mem' : list Z) (Hmem : length mem = 64%nat) (Hmem' : length mem' = 64%nat).

Lemma SHA256_one v : Sha256.CSHA256_Finalize (Sha256.CSHA256_Write (Sha256.CSHA256 mem) v) = sha256 v.
Proof. etransitivity; [apply (CSHA256_message mem Hmem [v])|]. cbn. by rewrite app_nil_r. Qed.

Lemma SHA1_one v : Sha1.CSHA1_Finalize (Sha1.CSHA1_Write (Sha1.CSHA1 mem) v) = sha1 v.
Proof. etransitivity; [apply (CSHA1_message mem Hmem [v])|]. cbn. by rewrite app_nil_r. Qed.

Lemma RIPEMD160_one v : Ripemd160.CRIPEMD160_Finalize (Ripemd160.CRIPEMD160_Write (Ripemd160.CRIPEMD160 mem) v) = ripemd160 v.
Proof. etransitivity; [apply (CRIPEMD160_message mem Hmem [v])|]. cbn. by rewrite app_nil_r. Qed.

Lemma Hash_double in1 : Hash mem in1 = sha256 (sha256 in1).
Proof. etransitivity; [apply (CHash256_message mem [in1] Hmem)|]. cbn. by rewrite app_nil_r. Qed.

Lemma Hash_two_double in1 in2 : Hash_two mem in1 in2 = sha256 (sha256 (in1 ++ in2)).
Proof. etransitivity; [apply (CHash256_message mem [in1; in2] Hmem)|]. cbn. by rewrite app_nil_r. Qed.

End Functions.

Lemma Hash160_message mem mem' in1 :
  length mem = 64%nat → length mem' = 64%nat → Hash160 mem mem' in1 = ripemd160 (sha256 in1).
Proof. intros Hm Hm'. unfold Hash160, CHash160_Finalize. by rewrite SHA256_one, RIPEMD160_one. Qed.

Lemma TaggedHash_message mem mem' tag pieces :
  length mem = 64%nat → length mem' = 64%nat →
  Sha256.CSHA256_Finalize (foldl Sha256.CSHA256_Write (TaggedHash_writer mem mem' tag) pieces) = sha256 (sha256 tag ++ sha256 tag ++ mjoin pieces).
Proof.
  intros Hm Hm'. unfold TaggedHash_writer. rewrite (SHA256_one mem' Hm'). apply (CSHA256_message mem Hm (sha256 tag :: sha256 tag :: pieces)).
Qed.

Lemma node_hashes_ok mem low_s : length mem = 64%nat → hashes_ok (node_hashes mem low_s).
Proof.
  intros Hm v. cbn [SHA1 SHA256 RIPEMD160 node_hashes]. rewrite SHA256_one, SHA1_one, RIPEMD160_one by done.
  destruct (Sha256Hash.sha256_size v), (Sha1Facts.sha1_size v), (Ripemd160Facts.ripemd160_size v). done.
Qed.

(** ** The Merkle root in place *)

Abbreviation double a := (sha256 (sha256 a)).

Lemma blocks_pairs hashes n :
  Forall (fun h => length h = 32%nat) hashes → length hashes = (2 * n)%nat →
  map (fun b => double b) (blocks n (mjoin hashes)) = hash_pairs (BlockChecks.Hash2 (fun x => double x)) hashes.
Proof.
  revert hashes. induction n as [|n IH]; intros hashes Hf Hl; [by destruct hashes|].
  destruct hashes as [|a [|b hashes]]; [cbn in Hl; lia..|]. inversion Hf as [|? ? Ha Hf']; subst. inversion Hf' as [|? ? Hb Hf'']; subst.
  change (mjoin (a :: b :: hashes)) with (a ++ b ++ mjoin hashes). cbn [blocks map hash_pairs]. rewrite app_assoc.
  rewrite take_app_length' by (rewrite length_app; lia). rewrite drop_app_length' by (rewrite length_app; lia).
  f_equal. apply IH; [done|]. cbn in Hl. lia.
Qed.

Lemma entries_join n hashes rest :
  Forall (fun h => length h = 32%nat) hashes → length hashes = n → entries n (mjoin hashes ++ rest) = hashes.
Proof.
  intros Hf <-. induction Hf as [|h hashes Hh Hf IH]; [done|]. cbn [length entries].
  change (mjoin (h :: hashes)) with (h ++ mjoin hashes). rewrite <- app_assoc.
  rewrite take_app_length' by done. rewrite drop_app_length' by done. by rewrite IH.
Qed.

Lemma hash_pairs_size hashes : Forall (fun h => length h = 32%nat) (hash_pairs (BlockChecks.Hash2 (fun x => double x)) hashes).
Proof.
  induction hashes as [hashes IH] using (induction_ltof1 _ (@length _)). unfold ltof in IH.
  destruct hashes as [|a [|b hashes]]; [constructor..|]. cbn [hash_pairs]. constructor; [apply Sha256Hash.sha256_size|]. apply IH. cbn. lia.
Qed.

Lemma level_in_place hashes n :
  Forall (fun h => length h = 32%nat) hashes → length hashes = (2 * n)%nat →
  entries n (Sha256.SHA256D64 (mjoin hashes) 0 0 n) = hash_pairs (BlockChecks.Hash2 (fun x => double x)) hashes.
Proof.
  intros Hf Hl. assert (length (mjoin hashes) = 64 * n)%nat as Hm.
  { transitivity (32 * length hashes)%nat; [|lia]. clear Hl. induction Hf as [|h hashes Hh Hf IH]; [done|].
    change (mjoin (h :: hashes)) with (h ++ mjoin hashes). rewrite length_app, IH, Hh. cbn [length]. lia. }
  pose proof (Sha256Hash.SHA256D64_blocks (mjoin hashes) 0 0 n ltac:(lia) ltac:(lia)) as E.
  rewrite drop_0, take_0, (blocks_pairs hashes n Hf Hl) in E. cbn [app Nat.add] in E.
  rewrite <- (take_drop (32 * n) (Sha256.SHA256D64 _ _ _ _)), E. apply entries_join; [apply hash_pairs_size|].
  rewrite <- (blocks_pairs hashes n Hf Hl), length_map. clear. generalize (mjoin hashes). induction n as [|n IH]; intros l; [done|]. cbn. by rewrite IH.
Qed.

Lemma pad_level_even hashes :
  (1 < length hashes)%nat → Forall (fun h => length h = 32%nat) hashes →
  Forall (fun h => length h = 32%nat) (pad_level hashes) ∧ length (pad_level hashes) = (2 * (length (pad_level hashes) / 2))%nat.
Proof.
  intros Hl Hf. unfold pad_level. destruct (Nat.odd (length hashes)) eqn:E.
  - split.
    + apply Forall_app. split; [done|]. constructor; [|constructor]. rewrite List.Forall_forall in Hf. apply Hf.
      destruct (exists_last (l := hashes)) as (l & x & ->); [by intros ->; cbn in Hl; lia|]. rewrite last_last. apply in_or_app. right. by left.
    + rewrite length_app. cbn [length]. apply Nat.Div0.div_exact.
      apply Nat.odd_spec in E as [m E]. rewrite E. replace (2 * m + 1 + 1)%nat with ((m + 1) * 2)%nat by lia. apply Nat.Div0.mod_mul.
  - split; [done|]. apply Nat.Div0.div_exact. rewrite <- Nat.negb_even in E. apply negb_false_iff, Nat.even_spec in E as [m E].
    rewrite E, Nat.mul_comm. apply Nat.Div0.mod_mul.
Qed.

Lemma merkle_loop_in_place fuel hashes m :
  Forall (fun h => length h = 32%nat) hashes →
  merkle_loop_mem fuel hashes m = merkle_loop (BlockChecks.Hash2 (fun x => double x)) fuel hashes m.
Proof.
  revert hashes m. induction fuel as [|fuel IH]; intros hashes m Hf; cbn [merkle_loop_mem merkle_loop]; [done|].
  destruct (Nat.ltb_spec 1 (length hashes)) as [Hl|Hl]; [|done]. fold (pad_level hashes). cbv zeta.
  destruct (pad_level_even hashes Hl Hf) as [Hp He]. rewrite level_in_place by done. apply IH, hash_pairs_size.
Qed.

Lemma ComputeMerkleRoot_in_place hashes :
  Forall (fun h => length h = 32%nat) hashes → ComputeMerkleRoot_mem hashes = ComputeMerkleRoot (BlockChecks.Hash2 (fun x => double x)) hashes.
Proof. intros Hf. unfold ComputeMerkleRoot_mem, ComputeMerkleRoot. by rewrite merkle_loop_in_place. Qed.

Lemma merkle_loop_ext f g fuel hashes m :
  (∀ a b, f a b = g a b) → merkle_loop f fuel hashes m = merkle_loop g fuel hashes m.
Proof.
  intros E. assert (∀ l, hash_pairs f l = hash_pairs g l) as Hp.
  { intros l. induction l as [l IH] using (induction_ltof1 _ (@length _)). unfold ltof in IH.
    destruct l as [|a [|b l]]; [done..|]. cbn [hash_pairs]. rewrite E, IH; [done|]. cbn. lia. }
  revert hashes m. induction fuel as [|fuel IH]; intros hashes m; cbn [merkle_loop]; [done|].
  unfold next_level. rewrite Hp, IH. done.
Qed.

(** ** The hash opcodes *)

(** What an opcode is documented to push. *)
Definition standard_hash (opcode : Z) (v : list Z) : list Z :=
  if opcode =? OP_RIPEMD160 then ripemd160 v
  else if opcode =? OP_SHA1 then sha1 v
  else if opcode =? OP_SHA256 then sha256 v
  else if opcode =? OP_HASH160 then ripemd160 (sha256 v)
  else sha256 (sha256 v).

Lemma hash_of_standard mem low_s opcode v : length mem = 64%nat → hash_of (node_hashes mem low_s) opcode v = standard_hash opcode v.
Proof.
  intros Hm. unfold hash_of, standard_hash, CHash160, CHash256. cbn [SHA1 SHA256 RIPEMD160 node_hashes].
  by rewrite !SHA256_one, SHA1_one, !RIPEMD160_one by done.
Qed.

End HashingFacts.

(** * Properties *)
Module HashingProps.
Import Writer Hashing HashingFacts.

(** C19: The hash functions of the node are the standard ones.  However a message
    is cut into calls of [Write], and whatever the buffers held before, [CSHA256]
    and [CSHA1] finish with the hash of FIPS 180-4 and [CRIPEMD160] with that of
    the RIPEMD-160 paper; [CHash256] is SHA-256 twice, [Hash160] RIPEMD-160 of
    SHA-256, a tagged hash has the tag's hash twice in front, the hash opcodes of
    scripts push these, and the sizes are the ones the interpreter relies on. *)
Theorem hash_functions_standard (mem mem' : list Z) (pieces : list (list Z)) (tag : list Z) (low_s : list Z → bool) (opcode : Z) :
  length mem = 64%nat → length mem' = 64%nat →
  let msg := mjoin pieces in
  Sha256.CSHA256_Finalize (foldl Sha256.CSHA256_Write (Sha256.CSHA256 mem) pieces) = sha256 msg ∧
  Sha1.CSHA1_Finalize (foldl Sha1.CSHA1_Write (Sha1.CSHA1 mem) pieces) = sha1 msg ∧
  Ripemd160.CRIPEMD160_Finalize (foldl Ripemd160.CRIPEMD160_Write (Ripemd160.CRIPEMD160 mem) pieces) = ripemd160 msg ∧
  CHash256_Finalize (foldl CHash256_Write (Sha256.CSHA256 mem) pieces) = sha256 (sha256 msg) ∧
  Hash160 mem mem' msg = ripemd160 (sha256 msg) ∧
  Sha256.CSHA256_Finalize (foldl Sha256.CSHA256_Write (TaggedHash_writer mem mem' tag) pieces) = sha256 (sha256 tag ++ sha256 tag ++ msg) ∧
  hash_of (node_hashes mem low_s) opcode msg = standard_hash opcode msg ∧
  hashes_ok (node_hashes mem low_s).
Proof.
  intros Hm Hm' msg. split_and!; [by apply CSHA256_message|by apply CSHA1_message|by apply CRIPEMD160_message|by apply CHash256_message| |
    by apply TaggedHash_message|by apply hash_of_standard|by apply node_hashes_ok].
  by apply Hash160_message.
Qed.

(** The digest of "abc" in two pieces, from a buffer that is not zero. *)
Lemma hash_functions_standard_witness :
  Sha256.CSHA256_Finalize (foldl Sha256.CSHA256_Write (Sha256.CSHA256 (replicate 64 7)) [[97]; [98; 99]]) = sha256 [97; 98; 99] ∧
  le_decode (rev (sha256 [97; 98; 99])) = 0xba7816bf8f01cfea414140de5dae2223b00361a396177a9cb410ff61f20015ad.
Proof.
  split; [|vm_compute; reflexivity].
  refine (proj1 (hash_functions_standard (replicate 64 7) (replicate 64 0) [[97]; [98; 99]] [] (fun _ => true) OP_SHA1 _ _)); reflexivity.
Defined.

(** C20: [ComputeMerkleRoot] works in place: each round [SHA256D64] hashes the
    vector onto its own first half, with message schedules of the padding worked
    out in advance.  The result, root and mutation flag, is that of the tree whose
    inner nodes are [Hash(left, right)], the double SHA-256 of the two. *)
Theorem merkle_root_in_place (mem : list Z) (hashes : list uint256) :
  length mem = 64%nat → Forall (fun h => length h = 32%nat) hashes →
  ComputeMerkleRoot_mem hashes = ComputeMerkleRoot (Hash_two mem) hashes.
Proof.
  intros Hm Hf. rewrite (ComputeMerkleRoot_in_place hashes Hf). unfold ComputeMerkleRoot.
  rewrite (merkle_loop_ext _ (Hash_two mem)); [done|]. intros a b. by rewrite Hash_two_double.
Qed.

Lemma merkle_root_in_place_witness :
  let hashes := [replicate 32 1; replicate 32 2; replicate 32 3] in
  ComputeMerkleRoot_mem hashes = ComputeMerkleRoot (Hash_two (replicate 64 7)) hashes.
Proof.
  intros hashes. apply (merkle_root_in_place (replicate 64 7) hashes); [reflexivity|]. repeat constructor.
Defined.

End HashingProps.
