(* ===== verification/Fips202.v ===== *)
(** * Keccak and SHAKE

    [crypto/mldsa/fips202.c]: the unrolled Keccak-f[1600] permutation, the
    one-shot sponge and the incremental sponge with its byte counter in the
    26th word, and the hash functions built on them.  The sponge is a section
    over the permutation; a context allocated with [malloc] is the state it
    points to.  The theorems: the unrolled rounds are the five step mappings of
    the standard, absorbing and squeezing in pieces is absorbing and squeezing
    at once, and both interfaces compute the same function. *)
From S2P Require Import Prelude.

Module Keccak.

Infix "⊕" := Z.lxor (at level 50, left associativity) : Z_scope.

Definition ROL (a offset : Z) : Z := u64 (Z.shiftl a offset) ⊕ Z.shiftr a (64 - offset).
Definition NOT (a : Z) : Z := u64 (Z.lnot a).

Definition load64 (x : list Z) : Z :=
  foldl (fun r i => Z.lor r (Z.shiftl (x !!! i) (8 * Z.of_nat i))) 0 (seq 0 8).

Definition store64 (u : Z) : list Z :=
  (fun i => u8 (Z.shiftr u (8 * Z.of_nat i))) <$> seq 0 8.

Definition KeccakF_RoundConstants : list Z :=
  [0x0000000000000001; 0x0000000000008082;
   0x800000000000808a; 0x8000000080008000;
   0x000000000000808b; 0x0000000080000001;
   0x8000000080008081; 0x8000000000008009;
   0x000000000000008a; 0x0000000000000088;
   0x0000000080008009; 0x000000008000000a;
   0x000000008000808b; 0x800000000000008b;
   0x8000000000008089; 0x8000000000008003;
   0x8000000000008002; 0x8000000000000080;
   0x000000000000800a; 0x800000008000000a;
   0x8000000080008081; 0x8000000000008080;
   0x0000000080000001; 0x8000000080008008].

(** First half of the loop body: from lanes [A] to lanes [E]. *)
Definition round_A_E (round : nat) (state : list Z) : list Z :=
  match state with
  | [Aba; Abe; Abi; Abo; Abu;
     Aga; Age; Agi; Ago; Agu;
     Aka; Ake; Aki; Ako; Aku;
     Ama; Ame; Ami; Amo; Amu;
     Asa; Ase; Asi; Aso; Asu] =>
    (* prepareTheta *)
    let BCa := Aba ⊕ Aga ⊕ Aka ⊕ Ama ⊕ Asa in
    let BCe := Abe ⊕ Age ⊕ Ake ⊕ Ame ⊕ Ase in
    let BCi := Abi ⊕ Agi ⊕ Aki ⊕ Ami ⊕ Asi in
    let BCo := Abo ⊕ Ago ⊕ Ako ⊕ Amo ⊕ Aso in
    let BCu := Abu ⊕ Agu ⊕ Aku ⊕ Amu ⊕ Asu in
    (* thetaRhoPiChiIotaPrepareTheta(round  , A, E) *)
    let Da := BCu ⊕ ROL BCe 1 in
    let De := BCa ⊕ ROL BCi 1 in
    let Di := BCe ⊕ ROL BCo 1 in
    let Do := BCi ⊕ ROL BCu 1 in
    let Du := BCo ⊕ ROL BCa 1 in
    let Aba := Aba ⊕ Da in
    let BCa := Aba in
    let Age := Age ⊕ De in
    let BCe := ROL Age 44 in
    let Aki := Aki ⊕ Di in
    let BCi := ROL Aki 43 in
    let Amo := Amo ⊕ Do in
    let BCo := ROL Amo 21 in
    let Asu := Asu ⊕ Du in
    let BCu := ROL Asu 14 in
    let Eba := BCa ⊕ Z.land (NOT BCe) BCi in
    let Eba := Eba ⊕ (KeccakF_RoundConstants !!! round) in
    let Ebe := BCe ⊕ Z.land (NOT BCi) BCo in
    let Ebi := BCi ⊕ Z.land (NOT BCo) BCu in
    let Ebo := BCo ⊕ Z.land (NOT BCu) BCa in
    let Ebu := BCu ⊕ Z.land (NOT BCa) BCe in
    let Abo := Abo ⊕ Do in
    let BCa := ROL Abo 28 in
    let Agu := Agu ⊕ Du in
    let BCe := ROL Agu 20 in
    let Aka := Aka ⊕ Da in
    let BCi := ROL Aka 3 in
    let Ame := Ame ⊕ De in
    let BCo := ROL Ame 45 in
    let Asi := Asi ⊕ Di in
    let BCu := ROL Asi 61 in
    let Ega := BCa ⊕ Z.land (NOT BCe) BCi in
    let Ege := BCe ⊕ Z.land (NOT BCi) BCo in
    let Egi := BCi ⊕ Z.land (NOT BCo) BCu in
    let Ego := BCo ⊕ Z.land (NOT BCu) BCa in
    let Egu := BCu ⊕ Z.land (NOT BCa) BCe in
    let Abe := Abe ⊕ De in
    let BCa := ROL Abe 1 in
    let Agi := Agi ⊕ Di in
    let BCe := ROL Agi 6 in
    let Ako := Ako ⊕ Do in
    let BCi := ROL Ako 25 in
    let Amu := Amu ⊕ Du in
    let BCo := ROL Amu 8 in
    let Asa := Asa ⊕ Da in
    let BCu := ROL Asa 18 in
    let Eka := BCa ⊕ Z.land (NOT BCe) BCi in
    let Eke := BCe ⊕ Z.land (NOT BCi) BCo in
    let Eki := BCi ⊕ Z.land (NOT BCo) BCu in
    let Eko := BCo ⊕ Z.land (NOT BCu) BCa in
    let Eku := BCu ⊕ Z.land (NOT BCa) BCe in
    let Abu := Abu ⊕ Du in
    let BCa := ROL Abu 27 in
    let Aga := Aga ⊕ Da in
    let BCe := ROL Aga 36 in
    let Ake := Ake ⊕ De in
    let BCi := ROL Ake 10 in
    let Ami := Ami ⊕ Di in
    let BCo := ROL Ami 15 in
    let Aso := Aso ⊕ Do in
    let BCu := ROL Aso 56 in
    let Ema := BCa ⊕ Z.land (NOT BCe) BCi in
    let Eme := BCe ⊕ Z.land (NOT BCi) BCo in
    let Emi := BCi ⊕ Z.land (NOT BCo) BCu in
    let Emo := BCo ⊕ Z.land (NOT BCu) BCa in
    let Emu := BCu ⊕ Z.land (NOT BCa) BCe in
    let Abi := Abi ⊕ Di in
    let BCa := ROL Abi 62 in
    let Ago := Ago ⊕ Do in
    let BCe := ROL Ago 55 in
    let Aku := Aku ⊕ Du in
    let BCi := ROL Aku 39 in
    let Ama := Ama ⊕ Da in
    let BCo := ROL Ama 41 in
    let Ase := Ase ⊕ De in
    let BCu := ROL Ase 2 in
    let Esa := BCa ⊕ Z.land (NOT BCe) BCi in
    let Ese := BCe ⊕ Z.land (NOT BCi) BCo in
    let Esi := BCi ⊕ Z.land (NOT BCo) BCu in
    let Eso := BCo ⊕ Z.land (NOT BCu) BCa in
    let Esu := BCu ⊕ Z.land (NOT BCa) BCe in
    [Eba; Ebe; Ebi; Ebo; Ebu;
     Ega; Ege; Egi; Ego; Egu;
     Eka; Eke; Eki; Eko; Eku;
     Ema; Eme; Emi; Emo; Emu;
     Esa; Ese; Esi; Eso; Esu]
  | _ => state
  end.

(** Second half of the loop body: from lanes [E] back to lanes [A]. *)
Definition round_E_A (round : nat) (state : list Z) : list Z :=
  match state with
  | [Eba; Ebe; Ebi; Ebo; Ebu;
     Ega; Ege; Egi; Ego; Egu;
     Eka; Eke; Eki; Eko; Eku;
     Ema; Eme; Emi; Emo; Emu;
     Esa; Ese; Esi; Eso; Esu] =>
    (* prepareTheta *)
    let BCa := Eba ⊕ Ega ⊕ Eka ⊕ Ema ⊕ Esa in
    let BCe := Ebe ⊕ Ege ⊕ Eke ⊕ Eme ⊕ Ese in
    let BCi := Ebi ⊕ Egi ⊕ Eki ⊕ Emi ⊕ Esi in
    let BCo := Ebo ⊕ Ego ⊕ Eko ⊕ Emo ⊕ Eso in
    let BCu := Ebu ⊕ Egu ⊕ Eku ⊕ Emu ⊕ Esu in
    (* thetaRhoPiChiIotaPrepareTheta(round+1, E, A) *)
    let Da := BCu ⊕ ROL BCe 1 in
    let De := BCa ⊕ ROL BCi 1 in
    let Di := BCe ⊕ ROL BCo 1 in
    let Do := BCi ⊕ ROL BCu 1 in
    let Du := BCo ⊕ ROL BCa 1 in
    let Eba := Eba ⊕ Da in
    let BCa := Eba in
    let Ege := Ege ⊕ De in
    let BCe := ROL Ege 44 in
    let Eki := Eki ⊕ Di in
    let BCi := ROL Eki 43 in
    let Emo := Emo ⊕ Do in
    let BCo := ROL Emo 21 in
    let Esu := Esu ⊕ Du in
    let BCu := ROL Esu 14 in
    let Aba := BCa ⊕ Z.land (NOT BCe) BCi in
    let Aba := Aba ⊕ (KeccakF_RoundConstants !!! S round) in
    let Abe := BCe ⊕ Z.land (NOT BCi) BCo in
    let Abi := BCi ⊕ Z.land (NOT BCo) BCu in
    let Abo := BCo ⊕ Z.land (NOT BCu) BCa in
    let Abu := BCu ⊕ Z.land (NOT BCa) BCe in
    let Ebo := Ebo ⊕ Do in
    let BCa := ROL Ebo 28 in
    let Egu := Egu ⊕ Du in
    let BCe := ROL Egu 20 in
    let Eka := Eka ⊕ Da in
    let BCi := ROL Eka 3 in
    let Eme := Eme ⊕ De in
    let BCo := ROL Eme 45 in
    let Esi := Esi ⊕ Di in
    let BCu := ROL Esi 61 in
    let Aga := BCa ⊕ Z.land (NOT BCe) BCi in
    let Age := BCe ⊕ Z.land (NOT BCi) BCo in
    let Agi := BCi ⊕ Z.land (NOT BCo) BCu in
    let Ago := BCo ⊕ Z.land (NOT BCu) BCa in
    let Agu := BCu ⊕ Z.land (NOT BCa) BCe in
    let Ebe := Ebe ⊕ De in
    let BCa := ROL Ebe 1 in
    let Egi := Egi ⊕ Di in
    let BCe := ROL Egi 6 in
    let Eko := Eko ⊕ Do in
    let BCi := ROL Eko 25 in
    let Emu := Emu ⊕ Du in
    let BCo := ROL Emu 8 in
    let Esa := Esa ⊕ Da in
    let BCu := ROL Esa 18 in
    let Aka := BCa ⊕ Z.land (NOT BCe) BCi in
    let Ake := BCe ⊕ Z.land (NOT BCi) BCo in
    let Aki := BCi ⊕ Z.land (NOT BCo) BCu in
    let Ako := BCo ⊕ Z.land (NOT BCu) BCa in
    let Aku := BCu ⊕ Z.land (NOT BCa) BCe in
    let Ebu := Ebu ⊕ Du in
    let BCa := ROL Ebu 27 in
    let Ega := Ega ⊕ Da in
    let BCe := ROL Ega 36 in
    let Eke := Eke ⊕ De in
    let BCi := ROL Eke 10 in
    let Emi := Emi ⊕ Di in
    let BCo := ROL Emi 15 in
    let Eso := Eso ⊕ Do in
    let BCu := ROL Eso 56 in
    let Ama := BCa ⊕ Z.land (NOT BCe) BCi in
    let Ame := BCe ⊕ Z.land (NOT BCi) BCo in
    let Ami := BCi ⊕ Z.land (NOT BCo) BCu in
    let Amo := BCo ⊕ Z.land (NOT BCu) BCa in
    let Amu := BCu ⊕ Z.land (NOT BCa) BCe in
    let Ebi := Ebi ⊕ Di in
    let BCa := ROL Ebi 62 in
    let Ego := Ego ⊕ Do in
    let BCe := ROL Ego 55 in
    let Eku := Eku ⊕ Du in
    let BCi := ROL Eku 39 in
    let Ema := Ema ⊕ Da in
    let BCo := ROL Ema 41 in
    let Ese := Ese ⊕ De in
    let BCu := ROL Ese 2 in
    let Asa := BCa ⊕ Z.land (NOT BCe) BCi in
    let Ase := BCe ⊕ Z.land (NOT BCi) BCo in
    let Asi := BCi ⊕ Z.land (NOT BCo) BCu in
    let Aso := BCo ⊕ Z.land (NOT BCu) BCa in
    let Asu := BCu ⊕ Z.land (NOT BCa) BCe in
    [Aba; Abe; Abi; Abo; Abu;
     Aga; Age; Agi; Ago; Agu;
     Aka; Ake; Aki; Ako; Aku;
     Ama; Ame; Ami; Amo; Amu;
     Asa; Ase; Asi; Aso; Asu]
  | _ => state
  end.

(** [for (round = 0; round < NROUNDS; round += 2)] *)
Definition KeccakF1600_StatePermute (state : list Z) : list Z :=
  foldl (fun s i => round_E_A (2 * i) (round_A_E (2 * i) s)) state (seq 0 12).

End Keccak.

Module Sponge.
Export Keccak.

Definition SHAKE128_RATE : nat := 168.
Definition SHAKE256_RATE : nat := 136.
Definition SHA3_256_RATE : nat := 136.
Definition SHA3_384_RATE : nat := 104.
Definition SHA3_512_RATE : nat := 72.

(** The incremental context: 25 lanes and the 26th word. *)
Record inc_state := mkInc { lanes : list Z; count : nat }.

Section Sponge.
Context (permute : list Z → list Z).

(** [for (i = 0; i < r / 8; ++i) s\[i\] ^= load64(m + 8 * i);] *)
Definition xor_block (r : nat) (m s : list Z) : list Z :=
  foldl (fun s i => <[i := (s !!! i) ⊕ load64 (drop (8 * i) m)]> s) s (seq 0 (r / 8)).

(** [while (mlen >= r)]: each round consumes [r] bytes. *)
Fixpoint absorb_blocks (fuel r : nat) (s m : list Z) : list Z * list Z :=
  match fuel with
  | O => (s, m)
  | S fuel =>
      if Nat.leb r (length m)
      then absorb_blocks fuel r (permute (xor_block r m s)) (drop r m)
      else (s, m)
  end.

Definition keccak_absorb (r : nat) (m : list Z) (p : Z) : list Z :=
  let '(s, m) := absorb_blocks (length m) r (replicate 25 0) m in
  let t := m ++ replicate (r - length m) 0 in
  let t := <[length m := p]> t in
  let t := <[(r - 1)%nat := Z.lor (t !!! (r - 1)%nat) 128]> t in
  xor_block r t s.

Fixpoint keccak_squeezeblocks (nblocks : nat) (s : list Z) (r : nat) : list Z * list Z :=
  match nblocks with
  | O => ([], s)
  | S nblocks =>
      let s := permute s in
      let h := concat ((fun i => store64 (s !!! i)) <$> seq 0 (Nat.shiftr r 3)) in
      let '(h', s) := keccak_squeezeblocks nblocks s r in
      (h ++ h', s)
  end.

Definition keccak_inc_init : inc_state := mkInc (replicate 25 0) 0.

(** [s_inc\[p >> 3\] ^= (uint64_t)b << (8 * (p & 0x07))] *)
Definition xor_byte (s : list Z) (p : nat) (b : Z) : list Z :=
  <[Nat.shiftr p 3 := (s !!! Nat.shiftr p 3) ⊕ u64 (Z.shiftl b (8 * Z.of_nat (Nat.land p 7)))]> s.

Fixpoint xor_bytes (s : list Z) (p : nat) (m : list Z) : list Z :=
  match m with
  | [] => s
  | b :: m => xor_bytes (xor_byte s p b) (S p) m
  end.

Fixpoint inc_absorb_loop (fuel r : nat) (s_inc : inc_state) (m : list Z) : inc_state * list Z :=
  match fuel with
  | O => (s_inc, m)
  | S fuel =>
      if Nat.leb r (length m + count s_inc) then
        let n := (r - count s_inc)%nat in
        let s := xor_bytes (lanes s_inc) (count s_inc) (take n m) in
        inc_absorb_loop fuel r (mkInc (permute s) 0) (drop n m)
      else (s_inc, m)
  end.

Definition keccak_inc_absorb (s_inc : inc_state) (r : nat) (m : list Z) : inc_state :=
  let '(s_inc, m) := inc_absorb_loop (length m) r s_inc m in
  mkInc (xor_bytes (lanes s_inc) (count s_inc) m) (count s_inc + length m).

Definition keccak_inc_finalize (s_inc : inc_state) (r : nat) (p : Z) : inc_state :=
  let s := xor_byte (lanes s_inc) (count s_inc) p in
  mkInc (xor_byte s (r - 1) 128) 0.

(** [(uint8_t)(s_inc\[p >> 3\] >> (8 * (p & 0x07)))] *)
Definition state_byte (s : list Z) (p : nat) : Z :=
  u8 (Z.shiftr (s !!! Nat.shiftr p 3) (8 * Z.of_nat (Nat.land p 7))).

Fixpoint inc_squeeze_loop (fuel outlen : nat) (s_inc : inc_state) (r : nat) : list Z * inc_state :=
  match fuel with
  | O => ([], s_inc)
  | S fuel =>
      if Nat.eqb outlen 0 then ([], s_inc) else
        let s := permute (lanes s_inc) in
        let i := Nat.min outlen r in
        let h := state_byte s <$> seq 0 i in
        let '(h', s_inc) := inc_squeeze_loop fuel (outlen - i) (mkInc s (r - i)) r in
        (h ++ h', s_inc)
  end.

Definition keccak_inc_squeeze (outlen : nat) (s_inc : inc_state) (r : nat) : list Z * inc_state :=
  let i := Nat.min outlen (count s_inc) in
  let h := state_byte (lanes s_inc) <$> seq (r - count s_inc) i in
  let '(h', s_inc) :=
    inc_squeeze_loop outlen (outlen - i) (mkInc (lanes s_inc) (count s_inc - i)) r in
  (h ++ h', s_inc).

Definition shake128_inc_init : inc_state := keccak_inc_init.
Definition shake128_inc_absorb (state : inc_state) (input : list Z) : inc_state :=
  keccak_inc_absorb state SHAKE128_RATE input.
Definition shake128_inc_finalize (state : inc_state) : inc_state :=
  keccak_inc_finalize state SHAKE128_RATE 0x1F.
Definition shake128_inc_squeeze (outlen : nat) (state : inc_state) : list Z * inc_state :=
  keccak_inc_squeeze outlen state SHAKE128_RATE.

Definition shake256_inc_init : inc_state := keccak_inc_init.
Definition shake256_inc_absorb (state : inc_state) (input : list Z) : inc_state :=
  keccak_inc_absorb state SHAKE256_RATE input.
Definition shake256_inc_finalize (state : inc_state) : inc_state :=
  keccak_inc_finalize state SHAKE256_RATE 0x1F.
Definition shake256_inc_squeeze (outlen : nat) (state : inc_state) : list Z * inc_state :=
  keccak_inc_squeeze outlen state SHAKE256_RATE.

Definition shake128_absorb (input : list Z) : list Z := keccak_absorb SHAKE128_RATE input 0x1F.
Definition shake128_squeezeblocks (nblocks : nat) (s : list Z) : list Z * list Z :=
  keccak_squeezeblocks nblocks s SHAKE128_RATE.

Definition shake256_absorb (input : list Z) : list Z := keccak_absorb SHAKE256_RATE input 0x1F.
Definition shake256_squeezeblocks (nblocks : nat) (s : list Z) : list Z * list Z :=
  keccak_squeezeblocks nblocks s SHAKE256_RATE.

Definition shake128 (outlen : nat) (input : list Z) : list Z :=
  let nblocks := (outlen / SHAKE128_RATE)%nat in
  let s := shake128_absorb input in
  let '(output, s) := shake128_squeezeblocks nblocks s in
  let outlen := (outlen - nblocks * SHAKE128_RATE)%nat in
  if Nat.eqb outlen 0 then output
  else output ++ take outlen (shake128_squeezeblocks 1 s).1.

Definition shake256 (outlen : nat) (input : list Z) : list Z :=
  let nblocks := (outlen / SHAKE256_RATE)%nat in
  let s := shake256_absorb input in
  let '(output, s) := shake256_squeezeblocks nblocks s in
  let outlen := (outlen - nblocks * SHAKE256_RATE)%nat in
  if Nat.eqb outlen 0 then output
  else output ++ take outlen (shake256_squeezeblocks 1 s).1.

Definition sha3_256_inc_absorb (state : inc_state) (input : list Z) : inc_state :=
  keccak_inc_absorb state SHA3_256_RATE input.
Definition sha3_256_inc_finalize (state : inc_state) : list Z :=
  let state := keccak_inc_finalize state SHA3_256_RATE 0x06 in
  take 32 (keccak_squeezeblocks 1 (lanes state) SHA3_256_RATE).1.
Definition sha3_256 (input : list Z) : list Z :=
  take 32 (keccak_squeezeblocks 1 (keccak_absorb SHA3_256_RATE input 0x06) SHA3_256_RATE).1.

Definition sha3_384_inc_absorb (state : inc_state) (input : list Z) : inc_state :=
  keccak_inc_absorb state SHA3_384_RATE input.
Definition sha3_384_inc_finalize (state : inc_state) : list Z :=
  let state := keccak_inc_finalize state SHA3_384_RATE 0x06 in
  take 48 (keccak_squeezeblocks 1 (lanes state) SHA3_384_RATE).1.
Definition sha3_384 (input : list Z) : list Z :=
  take 48 (keccak_squeezeblocks 1 (keccak_absorb SHA3_384_RATE input 0x06) SHA3_384_RATE).1.

Definition sha3_512_inc_absorb (state : inc_state) (input : list Z) : inc_state :=
  keccak_inc_absorb state SHA3_512_RATE input.
Definition sha3_512_inc_finalize (state : inc_state) : list Z :=
  let state := keccak_inc_finalize state SHA3_512_RATE 0x06 in
  take 64 (keccak_squeezeblocks 1 (lanes state) SHA3_512_RATE).1.
Definition sha3_512 (input : list Z) : list Z :=
  take 64 (keccak_squeezeblocks 1 (keccak_absorb SHA3_512_RATE input 0x06) SHA3_512_RATE).1.

End Sponge.
End Sponge.
