(* ===== verification/Fips202Facts.v ===== *)
(** * Keccak and SHAKE: correctness

    The unrolled permutation is 24 rounds of the step mappings of the standard.
    The incremental sponge absorbs and squeezes byte by byte, so cutting the
    input or the output into pieces makes no difference, and the one-shot
    functions compute the same as the incremental ones. *)
From S2P Require Import Prelude Fips202.

Module SpongeFacts.
Export Sponge.

(** ** Lanes and bytes *)

Lemma lane_index i k : (k < 8)%nat → Nat.shiftr (8 * i + k) 3 = i ∧ Nat.land (8 * i + k) 7 = k.
Proof.
  intros Hk. rewrite Nat.shiftr_div_pow2. change 7%nat with (Nat.ones 3). rewrite Nat.land_ones.
  change (2 ^ 3)%nat with 8%nat. split.
  - symmetry. by apply (Nat.div_unique _ _ _ k).
  - symmetry. by apply (Nat.mod_unique _ _ i).
Qed.

Lemma xor_byte_lane s i k b :
  (k < 8)%nat → in_u 8 b →
  xor_byte s (8 * i + k) b = <[i := (s !!! i) ⊕ Z.shiftl b (8 * Z.of_nat k)]> s.
Proof.
  intros Hk Hb. unfold xor_byte. destruct (lane_index i k Hk) as [-> ->].
  rewrite wrap_small; [done|]. unfold in_u in *. rewrite Z.shiftl_mul_pow2 by lia.
  assert (0 < 2 ^ (8 * Z.of_nat k) <= 2 ^ 56) by (split; [lia|apply Z.pow_le_mono_r; lia]).
  change (2 ^ 64) with (2 ^ 8 * 2 ^ 56). nia.
Qed.

Lemma xor_bytes_app s p a b : xor_bytes s p (a ++ b) = xor_bytes (xor_bytes s p a) (p + length a) b.
Proof.
  revert s p. induction a as [|x a IH]; intros s p; cbn [app xor_bytes length]; [by rewrite Nat.add_0_r|].
  rewrite IH. f_equal. lia.
Qed.

Lemma lor_lxor_shiftl k a b : 0 <= k → in_u k a → Z.lor a (Z.shiftl b k) = a ⊕ Z.shiftl b k.
Proof.
  intros Hk Ha. symmetry. apply Z.lxor_lor, Z.bits_inj'. intros n Hn.
  rewrite Z.land_spec, Z.shiftl_spec, Z.bits_0 by lia. destruct (Z.lt_ge_cases n k).
  - by rewrite (Z.testbit_neg_r b), andb_false_r by lia.
  - by rewrite (testbit_high k a).
Qed.

Lemma load64_lxor x :
  Forall (in_u 8) (take 8 x) → (8 <= length x)%nat →
  load64 x = foldl (fun r i => r ⊕ Z.shiftl (x !!! i) (8 * Z.of_nat i)) 0 (seq 0 8).
Proof.
  intros HF Hl. unfold load64.
  assert (∀ n, (n <= 8)%nat →
    foldl (fun r i => Z.lor r (Z.shiftl (x !!! i) (8 * Z.of_nat i))) 0 (seq 0 n) =
    foldl (fun r i => r ⊕ Z.shiftl (x !!! i) (8 * Z.of_nat i)) 0 (seq 0 n) ∧
    in_u (8 * Z.of_nat n) (foldl (fun r i => Z.lor r (Z.shiftl (x !!! i) (8 * Z.of_nat i))) 0 (seq 0 n)))
    as H; [|by apply H].
  induction n as [|n IH]; intros Hn; [by split|]. destruct IH as [E Hr]; [lia|].
  rewrite seq_S, !foldl_app. cbn [foldl Nat.add]. rewrite <- E. split; [by apply lor_lxor_shiftl; [lia|]|].
  rewrite list.Forall_forall in HF. assert (in_u 8 (x !!! n)) as Hx.
  { apply HF, list_elem_of_lookup. exists n. rewrite lookup_take_lt by lia.
    apply list_lookup_lookup_total_lt. lia. }
  apply in_u_lor; [lia| |].
  - unfold in_u in *. assert (2 ^ (8 * Z.of_nat n) <= 2 ^ (8 * Z.of_nat (S n))) by (apply Z.pow_le_mono_r; lia). lia.
  - unfold in_u in *. rewrite Z.shiftl_mul_pow2 by lia.
    replace (8 * Z.of_nat (S n)) with (8 + 8 * Z.of_nat n) by lia. rewrite Z.pow_add_r by lia. nia.
Qed.

Lemma load64_ext x y : (∀ j, (j < 8)%nat → x !!! j = y !!! j) → load64 x = load64 y.
Proof. intros H. unfold load64. cbn [seq foldl]. by rewrite !H by lia. Qed.

(** Eight bytes make a lane. *)
Lemma xor_lane s i b :
  length b = 8%nat → bytes_ok b → xor_bytes s (8 * i) b = <[i := (s !!! i) ⊕ load64 b]> s.
Proof.
  intros Hl HF. rewrite load64_lxor by (rewrite ?take_ge by lia; done || lia).
  do 8 (destruct b as [|? b]; [done|]). destruct b; [|done].
  unfold bytes_ok in HF. repeat (apply list.Forall_cons in HF as [? HF]).
  cbn [xor_bytes]. rewrite <- (Nat.add_0_r (8 * i)), <- !Nat.add_succ_r.
  rewrite !xor_byte_lane by (done || lia).
  destruct (decide (i < length s)%nat) as [Hi|Hi].
  - repeat (rewrite list_lookup_total_insert_eq by (rewrite ?length_insert; lia)).
    rewrite !list_insert_insert_eq. f_equal. cbn -[Z.lxor Z.shiftl Z.mul Z.of_nat].
    rewrite !Z.lxor_assoc. by rewrite Z.lxor_0_l.
  - by rewrite !list_insert_ge by (rewrite ?length_insert; lia).
Qed.

Lemma xor_block_bytes q m s :
  (8 * q <= length m)%nat → bytes_ok m → xor_block (8 * q) m s = xor_bytes s 0 (take (8 * q) m).
Proof.
  intros Hl HF. unfold xor_block. rewrite (Nat.mul_comm 8 q) at 1. rewrite Nat.div_mul by lia.
  induction q as [|q IH]; [done|].
  rewrite seq_S, foldl_app. cbn [foldl Nat.add]. rewrite IH by lia.
  replace (8 * S q)%nat with (8 * q + 8)%nat by lia.
  rewrite <- take_take_drop, xor_bytes_app, length_take, Nat.min_l, Nat.add_0_l by lia.
  rewrite xor_lane; [|rewrite length_take, length_drop; lia|by apply Forall_take, Forall_drop].
  do 2 f_equal. apply load64_ext. intros j Hj. by rewrite lookup_total_take_lt.
Qed.

Section Sponge.
Context (permute : list Z → list Z) (r : nat) (r_pos : (0 < r)%nat).

(** ** Absorbing a byte at a time *)
Definition absorb1 (st : inc_state) (b : Z) : inc_state :=
  let s := xor_byte (lanes st) (count st) b in
  if Nat.eqb (S (count st)) r then mkInc (permute s) 0 else mkInc s (S (count st)).

Lemma absorb1_partial st m :
  (count st + length m < r)%nat →
  foldl absorb1 st m = mkInc (xor_bytes (lanes st) (count st) m) (count st + length m).
Proof.
  revert st. induction m as [|b m IH]; intros [s c] Hl; cbn [foldl xor_bytes length lanes count] in *.
  { by rewrite Nat.add_0_r. }
  unfold absorb1 at 2. cbn [lanes count]. rewrite (proj2 (Nat.eqb_neq _ _)) by lia.
  rewrite IH by (cbn [count]; lia). cbn [lanes count]. f_equal. lia.
Qed.

Lemma absorb1_full st m :
  (0 < length m)%nat → (count st + length m = r)%nat →
  foldl absorb1 st m = mkInc (permute (xor_bytes (lanes st) (count st) m)) 0.
Proof.
  revert st. induction m as [|b m IH]; intros [s c] H0 Hl; cbn [foldl xor_bytes length lanes count] in *; [lia|].
  unfold absorb1 at 2. cbn [lanes count]. destruct m as [|b' m].
  - cbn [length] in Hl. rewrite (proj2 (Nat.eqb_eq _ _)) by lia. done.
  - cbn [length] in Hl. rewrite (proj2 (Nat.eqb_neq _ _)) by lia.
    rewrite IH by (cbn [count length]; lia). done.
Qed.

Lemma absorb1_count st m : (count st < r)%nat → (count (foldl absorb1 st m) < r)%nat.
Proof.
  revert st. induction m as [|b m IH]; intros st Hc; cbn [foldl]; [done|]. apply IH.
  unfold absorb1. destruct (Nat.eqb_spec (S (count st)) r); cbn [count]; lia.
Qed.

Lemma inc_absorb_loop_fold fuel st m :
  (count st < r)%nat → (length m <= fuel)%nat →
  (let '(st', m') := inc_absorb_loop permute fuel r st m in
   mkInc (xor_bytes (lanes st') (count st') m') (count st' + length m')) = foldl absorb1 st m.
Proof.
  revert st m. induction fuel as [|fuel IH]; intros st m Hc Hf; cbn [inc_absorb_loop].
  { rewrite absorb1_partial by lia. done. }
  destruct (Nat.leb_spec r (length m + count st)); [|by rewrite absorb1_partial by lia].
  rewrite IH by (cbn [count]; rewrite ?length_drop; lia).
  rewrite <- (take_drop (r - count st) m) at 3. rewrite foldl_app. f_equal.
  symmetry. apply absorb1_full; rewrite length_take; lia.
Qed.

Lemma keccak_inc_absorb_fold st m :
  (count st < r)%nat → keccak_inc_absorb permute st r m = foldl absorb1 st m.
Proof.
  intros Hc. unfold keccak_inc_absorb. rewrite <- (inc_absorb_loop_fold (length m) st m) by lia.
  by destruct (inc_absorb_loop _ _ _ _ _).
Qed.

Lemma keccak_inc_absorb_app st m1 m2 :
  (count st < r)%nat →
  keccak_inc_absorb permute (keccak_inc_absorb permute st r m1) r m2 =
  keccak_inc_absorb permute st r (m1 ++ m2).
Proof.
  intros Hc. rewrite !keccak_inc_absorb_fold; [by rewrite foldl_app|done|done|].
  rewrite keccak_inc_absorb_fold by done. by apply absorb1_count.
Qed.

(** ** Squeezing a byte at a time *)
Definition squeeze1 (st : inc_state) : Z * inc_state :=
  let st := if Nat.eqb (count st) 0 then mkInc (permute (lanes st)) r else st in
  (state_byte (lanes st) (r - count st), mkInc (lanes st) (count st - 1)).

Fixpoint squeezes (n : nat) (st : inc_state) : list Z * inc_state :=
  match n with
  | O => ([], st)
  | S n => let '(b, st) := squeeze1 st in let '(h, st) := squeezes n st in (b :: h, st)
  end.

Lemma squeezes_add n m st :
  squeezes (n + m) st =
  ((squeezes n st).1 ++ (squeezes m (squeezes n st).2).1, (squeezes m (squeezes n st).2).2).
Proof.
  revert st. induction n as [|n IH]; intros st; cbn [Nat.add squeezes fst snd app]; [by destruct (squeezes m st)|].
  destruct (squeeze1 st) as [b st']. rewrite IH. destruct (squeezes n st') as [h st2].
  cbn [fst snd]. by destruct (squeezes m st2).
Qed.

Lemma squeezes_length n st : length (squeezes n st).1 = n.
Proof.
  revert st. induction n as [|n IH]; intros st; cbn [squeezes]; [done|].
  destruct (squeeze1 st) as [b st']. specialize (IH st').
  destruct (squeezes n st') as [h st2]. cbn in *. lia.
Qed.

Lemma squeezes_count n st : (count st <= r)%nat → (count (squeezes n st).2 <= r)%nat.
Proof.
  revert st. induction n as [|n IH]; intros st Hc; cbn [squeezes]; [done|].
  destruct (squeeze1 st) as [b st'] eqn:E. specialize (IH st').
  destruct (squeezes n st') as [h st2]. cbn [snd] in *. apply IH.
  unfold squeeze1 in E. injection E as _ <-. cbn [count]. destruct (Nat.eqb (count st) 0); cbn [count]; lia.
Qed.

(** Bytes that are left in the state. *)
Lemma squeezes_left s c n :
  (n <= c <= r)%nat →
  squeezes n (mkInc s c) = (state_byte s <$> seq (r - c) n, mkInc s (c - n)).
Proof.
  revert c. induction n as [|n IH]; intros c Hc; cbn [squeezes]; [by rewrite Nat.sub_0_r|].
  unfold squeeze1. cbn [count lanes]. rewrite (proj2 (Nat.eqb_neq c 0)) by lia. cbn [count lanes].
  rewrite IH by lia. cbn [seq fmap list_fmap]. f_equal; [|f_equal; lia]. do 3 f_equal. lia.
Qed.

Lemma squeezes_block s n :
  (n <= r)%nat → (0 < n)%nat →
  squeezes n (mkInc s 0) = (state_byte (permute s) <$> seq 0 n, mkInc (permute s) (r - n)).
Proof.
  intros Hn H0. destruct n as [|n]; [lia|]. cbn [squeezes]. unfold squeeze1. cbn [count lanes Nat.eqb].
  rewrite squeezes_left by lia. rewrite Nat.sub_diag. cbn [seq fmap list_fmap].
  f_equal; [|f_equal; lia]. do 3 f_equal. lia.
Qed.

Lemma inc_squeeze_loop_spec fuel n s c :
  (n <= fuel)%nat → (n = 0 ∨ c = 0)%nat →
  inc_squeeze_loop permute fuel n (mkInc s c) r = squeezes n (mkInc s c).
Proof.
  revert n s c. induction fuel as [|fuel IH]; intros n s c Hf Hc.
  { by assert (n = 0)%nat as -> by lia. }
  cbn [inc_squeeze_loop]. destruct (Nat.eqb_spec n 0) as [->|Hn]; [done|].
  assert (c = 0)%nat as -> by lia. cbn [lanes].
  rewrite IH; [|lia|destruct (Nat.min_spec n r) as [[? ->]|[? ->]]; lia].
  assert (∀ st, squeezes n st = squeezes (Nat.min n r + (n - Nat.min n r)) st) as -> by (intros; f_equal; lia).
  rewrite squeezes_add, squeezes_block by lia. cbn [fst snd]. by destruct (squeezes _ _).
Qed.

Lemma keccak_inc_squeeze_spec n st :
  (count st <= r)%nat → keccak_inc_squeeze permute n st r = squeezes n st.
Proof.
  intros Hc. destruct st as [s c]. unfold keccak_inc_squeeze. cbn [lanes count] in *.
  rewrite inc_squeeze_loop_spec; [|lia|destruct (Nat.min_spec n c) as [[? ->]|[? ->]]; lia].
  assert (∀ st, squeezes n st = squeezes (Nat.min n c + (n - Nat.min n c)) st) as -> by (intros; f_equal; lia).
  rewrite squeezes_add, (squeezes_left s c (Nat.min n c)) by lia. cbn [fst snd]. by destruct (squeezes _ _).
Qed.

(** ** The one-shot sponge *)
Context (q : nat) (r_lanes : r = (8 * q)%nat).

Lemma xor_block_r m s :
  (r <= length m)%nat → bytes_ok m → xor_block r m s = xor_bytes s 0 (take r m).
Proof. intros Hl HF. rewrite r_lanes in *. by apply xor_block_bytes. Qed.

Lemma xor_byte_0 s p : xor_byte s p 0 = s.
Proof.
  unfold xor_byte. rewrite Z.shiftl_0_l. change (u64 0) with 0. rewrite Z.lxor_0_r.
  destruct (decide (Nat.shiftr p 3 < length s)%nat) as [Hi|Hi]; [|by apply list_insert_ge; lia].
  apply list_insert_id. by apply list_lookup_lookup_total_lt.
Qed.

Lemma xor_bytes_zeros s p n : xor_bytes s p (replicate n 0) = s.
Proof. revert p. induction n as [|n IH]; intros p; cbn [replicate xor_bytes]; [done|]. by rewrite xor_byte_0. Qed.

Lemma xor_byte_twice s p a b :
  in_u 8 a → in_u 8 b → xor_byte (xor_byte s p a) p b = xor_byte s p (a ⊕ b).
Proof.
  intros Ha Hb. rewrite (Nat.div_mod_eq p 8).
  assert (p mod 8 < 8)%nat by (apply Nat.mod_upper_bound; lia).
  rewrite !xor_byte_lane by (done || by apply in_u_lxor).
  destruct (decide (p / 8 < length s)%nat) as [Hi|Hi].
  - rewrite list_lookup_total_insert_eq, list_insert_insert_eq by done.
    by rewrite Z.shiftl_lxor, Z.lxor_assoc.
  - by rewrite !list_insert_ge by (rewrite ?length_insert; lia).
Qed.

Lemma absorb_blocks_fold fuel s m :
  bytes_ok m → (length m <= fuel)%nat →
  let '(s', m') := absorb_blocks permute fuel r s m in
  foldl absorb1 (mkInc s 0) m = mkInc (xor_bytes s' 0 m') (length m') ∧
  (length m' < r)%nat ∧ bytes_ok m'.
Proof.
  revert s m. induction fuel as [|fuel IH]; intros s m HF Hl; cbn [absorb_blocks].
  { rewrite absorb1_partial by (cbn [count]; lia). split_and!; [done|lia|done]. }
  destruct (Nat.leb_spec r (length m)).
  - specialize (IH (permute (xor_block r m s)) (drop r m)).
    destruct (absorb_blocks _ _ _ _ _) as [s' m']. rewrite <- (take_drop r m) at 1. rewrite foldl_app.
    rewrite (absorb1_full (mkInc s 0) (take r m)) by (cbn [count]; rewrite length_take; lia).
    cbn [lanes count]. rewrite xor_block_r in IH by (done || lia).
    apply IH; [by apply Forall_drop|rewrite length_drop; lia].
  - rewrite absorb1_partial by (cbn [count]; lia). split_and!; [done|lia|done].
Qed.

(** The padded last block. *)
Lemma padding_bytes s m p :
  (length m < r)%nat → bytes_ok m → 0 <= p < 128 →
  let t := <[length m := p]> (m ++ replicate (r - length m) 0) in
  let t := <[(r - 1)%nat := Z.lor (t !!! (r - 1)%nat) 128]> t in
  xor_block r t s = xor_byte (xor_byte (xor_bytes s 0 m) (length m) p) (r - 1) 128.
Proof.
  intros Hl HF Hp. cbv zeta.
  assert (in_u 8 p ∧ in_u 8 128) as [Hp8 H128] by (unfold in_u; lia).
  assert (replicate (r - length m) 0 = 0 :: replicate (r - length m - 1) 0) as ->
    by (by replace (r - length m)%nat with (S (r - length m - 1)) at 1 by lia).
  rewrite insert_app_r_alt, Nat.sub_diag by lia. cbn [insert list_insert].
  destruct (decide (length m = r - 1)%nat) as [E|E].
  - replace (r - length m - 1)%nat with 0%nat by lia. cbn [replicate].
    rewrite lookup_total_app_r, insert_app_r_alt, E, Nat.sub_diag by lia.
    change ([p] !!! 0%nat) with p. cbn [insert list_insert].
    assert (Z.lor p 128 = p ⊕ 128) as -> by (apply (lor_lxor_shiftl 7 p 1); unfold in_u; lia).
    rewrite xor_block_r.
    + rewrite take_ge by (rewrite length_app; cbn [length]; lia).
      rewrite xor_bytes_app. cbn [xor_bytes]. rewrite Nat.add_0_l, E. by rewrite xor_byte_twice.
    + rewrite length_app. cbn [length]. lia.
    + apply Forall_app. split; [done|]. apply list.Forall_singleton. by apply in_u_lxor.
  - replace (r - length m - 1)%nat with ((r - length m - 2) + 1)%nat by lia.
    rewrite replicate_add. cbn [replicate].
    replace (m ++ p :: replicate (r - length m - 2) 0 ++ [0]) with ((m ++ p :: replicate (r - length m - 2) 0) ++ [0])
      by (by rewrite <- app_assoc).
    assert (length (m ++ p :: replicate (r - length m - 2) 0%Z) = r - 1)%nat as El
      by (rewrite length_app; cbn [length]; rewrite length_replicate; lia).
    rewrite lookup_total_app_r, insert_app_r_alt, El, Nat.sub_diag by lia.
    change ([0] !!! 0%nat) with 0. cbn [insert list_insert]. change (Z.lor 0 128) with 128.
    rewrite xor_block_r.
    + rewrite take_ge by (rewrite length_app, El; cbn [length]; lia).
      rewrite xor_bytes_app, El, xor_bytes_app. cbn [xor_bytes]. rewrite xor_bytes_zeros. done.
    + rewrite length_app, El. cbn [length]. lia.
    + apply Forall_app. split; [|by apply list.Forall_singleton].
      apply Forall_app. split; [done|]. constructor; [done|]. by apply Forall_replicate.
Qed.

Lemma keccak_absorb_inc m p :
  bytes_ok m → 0 <= p < 128 →
  keccak_inc_finalize (keccak_inc_absorb permute keccak_inc_init r m) r p = mkInc (keccak_absorb permute r m p) 0.
Proof.
  intros HF Hp. rewrite keccak_inc_absorb_fold by done. unfold keccak_absorb, keccak_inc_init.
  pose proof (absorb_blocks_fold (length m) (replicate 25 0) m HF) as H.
  destruct (absorb_blocks _ _ _ _ _) as [s' m']. destruct H as (-> & Hl & HF'); [lia|].
  unfold keccak_inc_finalize. cbn [lanes count]. f_equal. symmetry. by apply padding_bytes.
Qed.

Lemma squeezeblocks_spec n s :
  (keccak_squeezeblocks permute n s r).1 = (squeezes (n * r) (mkInc s 0)).1 ∧
  (squeezes (n * r) (mkInc s 0)).2 = mkInc (keccak_squeezeblocks permute n s r).2 0.
Proof.
  revert s. induction n as [|n IH]; intros s; [done|]. cbn [keccak_squeezeblocks Nat.mul].
  rewrite squeezes_add, squeezes_block, Nat.sub_diag by lia. cbn [fst snd].
  destruct (IH (permute s)) as [E1 E2]. rewrite <- E1, E2.
  destruct (keccak_squeezeblocks _ _ _ _) as [h' s']. cbn [fst snd]. split; [|done]. f_equal.
  rewrite r_lanes. rewrite Nat.shiftr_div_pow2. change (2 ^ 3)%nat with 8%nat.
  rewrite (Nat.mul_comm 8 q), Nat.div_mul, Nat.mul_comm by lia. clear.
  induction q as [|k IH]; [done|]. rewrite seq_S, fmap_app, concat_app, IH. cbn [Nat.add].
  replace (8 * S k)%nat with (8 * k + 8)%nat by lia. rewrite seq_app, fmap_app. f_equal.
  unfold store64, state_byte. cbn [seq fmap list_fmap concat app].
  rewrite Nat.add_0_l, <- (Nat.add_0_r (8 * k)), <- !Nat.add_succ_r.
  repeat match goal with |- context [Nat.shiftr (8 * k + ?j) 3] =>
    destruct (lane_index k j ltac:(lia)) as [-> ->] end. done.
Qed.

End Sponge.
End SpongeFacts.

(** ** Keccak-f[1600] as FIPS 202 defines it

    Lane [A\[x, y\]] is element [x + 5 * y] of the state. *)
Module KeccakSpec.
Export Keccak.

Definition lane (s : list Z) (x y : nat) : Z := s !!! ((x mod 5) + 5 * (y mod 5))%nat.
Definition map_lanes (f : nat → nat → Z) : list Z :=
  (fun i => f (i mod 5) (i / 5))%nat <$> seq 0 25.

Definition column (s : list Z) (x : nat) : Z :=
  lane s x 0 ⊕ lane s x 1 ⊕ lane s x 2 ⊕ lane s x 3 ⊕ lane s x 4.
Definition theta (s : list Z) : list Z :=
  map_lanes (fun x y => lane s x y ⊕ (column s (x + 4) ⊕ ROL (column s (x + 1)) 1)).

(** Offsets: [(t + 1)(t + 2) / 2] along the walk [(x, y) := (y, 2x + 3y)] from
    [(1, 0)]; lane [(0, 0)] is not rotated. *)
Fixpoint offset_walk (fuel t x y : nat) : list (nat * nat * Z) :=
  match fuel with
  | O => []
  | S fuel =>
      (x, y, Z.of_nat ((t + 1) * (t + 2) / 2 mod 64)%nat)
      :: offset_walk fuel (S t) y ((2 * x + 3 * y) mod 5)
  end.
Definition offset (x y : nat) : option Z :=
  (fun p => p.2) <$> find (fun '(x', y', _) => Nat.eqb x x' && Nat.eqb y y') (offset_walk 24 0 1 0).
Definition rho (s : list Z) : list Z :=
  map_lanes (fun x y =>
    match offset x y with Some n => ROL (lane s x y) n | None => lane s x y end).

Definition pi (s : list Z) : list Z := map_lanes (fun x y => lane s (x + 3 * y) x).
Definition chi (s : list Z) : list Z :=
  map_lanes (fun x y => lane s x y ⊕ Z.land (NOT (lane s (x + 1) y)) (lane s (x + 2) y)).
Definition iota (rc : Z) (s : list Z) : list Z :=
  map_lanes (fun x y => if Nat.eqb x 0 && Nat.eqb y 0 then lane s x y ⊕ rc else lane s x y).
Definition keccak_round (rc : Z) (s : list Z) : list Z := iota rc (chi (pi (rho (theta s)))).

(** Round constants from the linear feedback shift register. *)
Definition lfsr_step (R : Z) : Z :=
  let R := Z.shiftl R 1 in if Z.testbit R 8 then R ⊕ 0x171 else R.
Definition rc_bit (t : nat) : bool := Z.testbit (Nat.iter (t mod 255) lfsr_step 1) 0.
Definition round_constant (i : nat) : Z :=
  foldl (fun rc j => if rc_bit (j + 7 * i) then Z.setbit rc (2 ^ Z.of_nat j - 1) else rc) 0 (seq 0 7).

Definition keccak_f (s : list Z) : list Z :=
  foldl (fun s i => keccak_round (round_constant i) s) s (seq 0 24).

Ltac lanes25 s Hs := do 25 (destruct s as [|? s]; [discriminate Hs|]); destruct s; [|discriminate Hs].

Lemma round_A_E_spec k s :
  length s = 25%nat → round_A_E k s = keccak_round (KeccakF_RoundConstants !!! k) s.
Proof.
  intros Hs. lanes25 s Hs. unfold round_A_E. generalize (KeccakF_RoundConstants !!! k). intros rc.
  cbv -[Z.lxor Z.land ROL NOT]. reflexivity.
Qed.

Lemma round_E_A_spec k s :
  length s = 25%nat → round_E_A k s = keccak_round (KeccakF_RoundConstants !!! S k) s.
Proof.
  intros Hs. lanes25 s Hs. unfold round_E_A. generalize (KeccakF_RoundConstants !!! S k). intros rc.
  cbv -[Z.lxor Z.land ROL NOT]. reflexivity.
Qed.

Lemma keccak_round_length rc s : length (keccak_round rc s) = 25%nat.
Proof. done. Qed.

End KeccakSpec.

(** ** The hash functions *)
Module HashFacts.
Export SpongeFacts.

Section Rate.
Context (permute : list Z → list Z) (r q : nat) (r_pos : (0 < r)%nat) (r_lanes : r = (8 * q)%nat).

(** Absorbing a list of pieces. *)
Lemma absorb_pieces ms st :
  (count st < r)%nat →
  foldl (fun st m => keccak_inc_absorb permute st r m) st ms = keccak_inc_absorb permute st r (concat ms).
Proof.
  revert st. induction ms as [|m ms IH]; intros st Hc; cbn [foldl concat].
  { by rewrite keccak_inc_absorb_fold. }
  rewrite IH; [by apply keccak_inc_absorb_app|].
  rewrite keccak_inc_absorb_fold by done. by apply absorb1_count.
Qed.

(** [n] bytes from the one-shot state. *)
Definition one_shot (n : nat) (s : list Z) : list Z :=
  let nblocks := (n / r)%nat in
  let '(output, s) := keccak_squeezeblocks permute nblocks s r in
  let n := (n - nblocks * r)%nat in
  if Nat.eqb n 0 then output else output ++ take n (keccak_squeezeblocks permute 1 s r).1.

Lemma one_shot_squeezes n s : one_shot n s = (squeezes permute r n (mkInc s 0)).1.
Proof.
  unfold one_shot. pose proof (squeezeblocks_spec permute r r_pos q r_lanes (n / r) s) as [E1 E2].
  destruct (keccak_squeezeblocks permute (n / r) s r) as [output s']. cbn [fst snd] in *.
  assert (n = n / r * r + (n - n / r * r))%nat as En by (pose proof (Nat.Div0.mul_div_le n r); lia).
  assert (∀ st, squeezes permute r n st = squeezes permute r (n / r * r + (n - n / r * r)) st) as ->
    by (intros; f_equal; lia).
  rewrite squeezes_add, E2. cbn [fst snd].
  destruct (Nat.eqb_spec (n - n / r * r) 0) as [->|Hn]; [by cbn; rewrite app_nil_r|].
  rewrite <- E1. f_equal. pose proof (squeezeblocks_spec permute r r_pos q r_lanes 1 s') as [-> _].
  rewrite Nat.mul_1_l. assert (n - n / r * r < r)%nat as Hm.
  { pose proof (Nat.mod_upper_bound n r). rewrite Nat.Div0.mod_eq in *. lia. }
  assert (∀ st, squeezes permute r r st = squeezes permute r ((n - n / r * r) + (r - (n - n / r * r))) st) as ->
    by (intros; f_equal; lia).
  rewrite squeezes_add. cbn [fst]. by rewrite take_app_length' by (by rewrite squeezes_length).
Qed.

Lemma one_shot_length n s : length (one_shot n s) = n.
Proof. rewrite one_shot_squeezes. by apply squeezes_length. Qed.

(** Pieces in, pieces out: the incremental interface is the one-shot one. *)
Lemma incremental_one_shot ms p n1 n2 :
  Forall bytes_ok ms → 0 <= p < 128 →
  let st := keccak_inc_finalize
    (foldl (fun st m => keccak_inc_absorb permute st r m) keccak_inc_init ms) r p in
  let '(h1, st1) := keccak_inc_squeeze permute n1 st r in
  h1 ++ (keccak_inc_squeeze permute n2 st1 r).1 = one_shot (n1 + n2) (keccak_absorb permute r (concat ms) p).
Proof.
  intros HF Hp. cbv zeta. rewrite absorb_pieces by done.
  rewrite (keccak_absorb_inc permute r r_pos q r_lanes) by (done || by apply Forall_concat).
  rewrite keccak_inc_squeeze_spec by (done || cbn; lia).
  rewrite one_shot_squeezes, squeezes_add.
  destruct (squeezes permute r n1 _) as [h1 st1] eqn:E. cbn [fst snd].
  rewrite keccak_inc_squeeze_spec; [done|done|].
  replace st1 with (squeezes permute r n1 (mkInc (keccak_absorb permute r (concat ms) p) 0)).2 by (by rewrite E).
  apply squeezes_count; cbn; lia.
Qed.

End Rate.
End HashFacts.

Module Fips202Props.
Import HashFacts KeccakSpec.

(** C21: The unrolled permutation is Keccak-f[1600]: on every state of 25 lanes
    [KeccakF1600_StatePermute] computes 24 rounds of theta, rho, pi, chi and
    iota, with the rotation offsets of the standard's walk and the round
    constants its shift register generates. *)
Theorem keccak_permutation_spec (s : list Z) :
  length s = 25%nat → KeccakF1600_StatePermute s = keccak_f s.
Proof.
  intros Hs. unfold KeccakF1600_StatePermute, keccak_f. change 24%nat with (2 * 12)%nat.
  assert (∀ k, (k < 24)%nat → KeccakF_RoundConstants !!! k = round_constant k) as Hrc.
  { intros k Hk. assert (forallb (fun k => (KeccakF_RoundConstants !!! k) =? round_constant k) (seq 0 24) = true)
      as E by (by vm_compute). rewrite forallb_forall in E.
    apply Z.eqb_eq, E, list_elem_of_In, elem_of_seq. lia. }
  assert (∀ n, (n <= 12)%nat →
    let t := foldl (fun s i => round_E_A (2 * i) (round_A_E (2 * i) s)) s (seq 0 n) in
    t = foldl (fun s i => keccak_round (round_constant i) s) s (seq 0 (2 * n)) ∧ length t = 25%nat)
    as H; [|by apply H].
  induction n as [|n IH]; intros Hn; [done|]. destruct IH as [E Hl]; [lia|]. cbv zeta in *.
  replace (2 * S n)%nat with (S (S (2 * n))) by lia. rewrite !seq_S, !foldl_app.
  cbn [foldl Nat.add]. rewrite <- E. rewrite round_A_E_spec by done.
  rewrite round_E_A_spec by apply keccak_round_length.
  rewrite !Hrc by lia. split; [done|apply keccak_round_length].
Qed.

Lemma keccak_permutation_spec_witness :
  KeccakF1600_StatePermute (replicate 25 0) = keccak_f (replicate 25 0) ∧
  keccak_f (replicate 25 0) !!! 0%nat = 0xF1258F7940E1DDE7.
Proof. split; [by apply (keccak_permutation_spec (replicate 25 0))|by vm_compute]. Defined.

(** C22: Cutting the data into pieces makes no difference.  Whatever the
    permutation, absorbing byte strings [ms] one after the other with the
    incremental interface, finalising and squeezing [n1] and then [n2] bytes
    gives the [n1 + n2] bytes that the one-shot function computes from their
    concatenation, for SHAKE128 and SHAKE256; and the incremental SHA3
    functions give the one-shot digests. *)
Theorem hash_interfaces_agree (permute : list Z → list Z) (ms : list (list Z)) (n1 n2 : nat) :
  Forall bytes_ok ms →
  (let st := shake128_inc_finalize (foldl (shake128_inc_absorb permute) shake128_inc_init ms) in
   let '(h1, st1) := shake128_inc_squeeze permute n1 st in
   h1 ++ (shake128_inc_squeeze permute n2 st1).1 = shake128 permute (n1 + n2) (concat ms)) ∧
  (let st := shake256_inc_finalize (foldl (shake256_inc_absorb permute) shake256_inc_init ms) in
   let '(h1, st1) := shake256_inc_squeeze permute n1 st in
   h1 ++ (shake256_inc_squeeze permute n2 st1).1 = shake256 permute (n1 + n2) (concat ms)) ∧
  sha3_256_inc_finalize permute (foldl (sha3_256_inc_absorb permute) keccak_inc_init ms)
    = sha3_256 permute (concat ms) ∧
  sha3_384_inc_finalize permute (foldl (sha3_384_inc_absorb permute) keccak_inc_init ms)
    = sha3_384 permute (concat ms) ∧
  sha3_512_inc_finalize permute (foldl (sha3_512_inc_absorb permute) keccak_inc_init ms)
    = sha3_512 permute (concat ms).
Proof.
  intros HF.
  assert (∀ r q p, (0 < r)%nat → r = (8 * q)%nat → 0 <= p < 128 →
    keccak_inc_finalize (foldl (fun st m => keccak_inc_absorb permute st r m) keccak_inc_init ms) r p
    = mkInc (keccak_absorb permute r (concat ms) p) 0) as Hfin.
  { intros r q p Hr Hq Hp. rewrite absorb_pieces by done.
    apply (keccak_absorb_inc permute r Hr q Hq); [by apply Forall_concat|done]. }
  split_and!.
  - apply (incremental_one_shot permute 168 21); done || lia.
  - apply (incremental_one_shot permute 136 17); done || lia.
  - unfold sha3_256_inc_finalize, sha3_256_inc_absorb, sha3_256, SHA3_256_RATE. by rewrite (Hfin 136%nat 17%nat 0x06) by (done || lia).
  - unfold sha3_384_inc_finalize, sha3_384_inc_absorb, sha3_384, SHA3_384_RATE. by rewrite (Hfin 104%nat 13%nat 0x06) by (done || lia).
  - unfold sha3_512_inc_finalize, sha3_512_inc_absorb, sha3_512, SHA3_512_RATE. by rewrite (Hfin 72%nat 9%nat 0x06) by (done || lia).
Qed.

Lemma hash_interfaces_agree_witness :
  sha3_256_inc_finalize KeccakF1600_StatePermute
    (foldl (sha3_256_inc_absorb KeccakF1600_StatePermute) keccak_inc_init [[97]; [98; 99]])
  = sha3_256 KeccakF1600_StatePermute [97; 98; 99].
Proof.
  destruct (hash_interfaces_agree KeccakF1600_StatePermute [[97]; [98; 99]] 0 0) as (_ & _ & H & _).
  - repeat constructor; lia.
  - exact H.
Defined.

(** Published digests: SHAKE256 of the empty string (first 8 bytes) and
    SHA3-256 of "abc" (first 4 bytes). *)
Example shake256_empty :
  shake256 KeccakF1600_StatePermute 8 [] = [0x46; 0xb9; 0xdd; 0x2b; 0x0b; 0xa8; 0x8d; 0x13].
Proof. by vm_compute. Qed.
Example sha3_256_abc :
  take 4 (sha3_256 KeccakF1600_StatePermute [97; 98; 99]) = [0x3a; 0x98; 0x5d; 0xa7].
Proof. by vm_compute. Qed.

End Fips202Props.
