(* ===== verification/MldsaPoly.v ===== *)
(** * ML-DSA-44: polynomials

    [crypto/mldsa/params.h], [reduce.c], [rounding.c], [ntt.c], [poly.c] and
    [symmetric-shake.c].  A polynomial is the list of its [N] coefficients, 32-bit
    integers as [Z]; an output parameter is a result.  Every 32- and 64-bit
    operation is written with its wrap-around, so that the absence of overflow
    is a statement about the model.  The sampling loops read a SHAKE stream until
    enough candidates are accepted; [fuel] bounds the number of further blocks
    or bytes, and running out of it is [None]. *)
From S2P Require Import Prelude Fips202.

Module MldsaParams.

Definition SEEDBYTES : nat := 32.
Definition CRHBYTES : nat := 64.
Definition TRBYTES : nat := 64.
Definition RNDBYTES : nat := 32.
Definition N : nat := 256.
Definition Q : Z := 8380417.
Definition D : Z := 13.
Definition K : nat := 4.
Definition L : nat := 4.
Definition ETA : Z := 2.
Definition TAU : nat := 39.
Definition BETA : Z := 78.
Definition GAMMA1 : Z := Z.shiftl 1 17.
Definition GAMMA2 : Z := (Q - 1) / 88.
Definition OMEGA : nat := 80.
Definition CTILDEBYTES : nat := 32.
Definition POLYT1_PACKEDBYTES : nat := 320.
Definition POLYT0_PACKEDBYTES : nat := 416.
Definition POLYZ_PACKEDBYTES : nat := 576.
Definition POLYW1_PACKEDBYTES : nat := 192.
Definition POLYETA_PACKEDBYTES : nat := 96.
Definition CRYPTO_PUBLICKEYBYTES : nat := SEEDBYTES + K * POLYT1_PACKEDBYTES.
Definition CRYPTO_SECRETKEYBYTES : nat :=
  2 * SEEDBYTES + TRBYTES + L * POLYETA_PACKEDBYTES + K * POLYETA_PACKEDBYTES
  + K * POLYT0_PACKEDBYTES.
Definition CRYPTO_BYTES : nat := CTILDEBYTES + L * POLYZ_PACKEDBYTES + (OMEGA + K).

End MldsaParams.

Module Reduce.
Export MldsaParams.

Definition QINV : Z := 58728449.

Definition montgomery_reduce (a : Z) : Z :=
  let t := i32 (u64 (u64 a * QINV)) in
  i32 (Z.shiftr (i64 (a - i64 (t * Q))) 32).

Definition reduce32 (a : Z) : Z :=
  let t := Z.shiftr (i32 (a + Z.shiftl 1 22)) 23 in
  i32 (a - i32 (t * Q)).

Definition caddq (a : Z) : Z := i32 (a + Z.land (Z.shiftr a 31) Q).

Definition freeze (a : Z) : Z := caddq (reduce32 a).

End Reduce.

Module Rounding.
Export Reduce.

(** Each returns the high part and the low part written through [a0]. *)
Definition power2round (a : Z) : Z * Z :=
  let a1 := Z.shiftr (i32 (a + Z.shiftl 1 (D - 1) - 1)) D in
  (a1, i32 (a - i32 (Z.shiftl a1 D))).

Definition decompose (a : Z) : Z * Z :=
  let a1 := Z.shiftr (i32 (a + 127)) 7 in
  let a1 := Z.shiftr (i32 (i32 (a1 * 11275) + Z.shiftl 1 23)) 24 in
  let a1 := Z.lxor a1 (Z.land (Z.shiftr (i32 (43 - a1)) 31) a1) in
  let a0 := i32 (a - i32 (i32 (a1 * 2) * GAMMA2)) in
  let a0 := i32 (a0 - Z.land (Z.shiftr (i32 ((Q - 1) / 2 - a0)) 31) Q) in
  (a1, a0).

Definition make_hint (a0 a1 : Z) : Z :=
  if (a0 >? GAMMA2) || (a0 <? - GAMMA2) || ((a0 =? - GAMMA2) && negb (a1 =? 0)) then 1 else 0.

Definition use_hint (a hint : Z) : Z :=
  let '(a1, a0) := decompose a in
  if hint =? 0 then a1
  else if a0 >? 0 then (if a1 =? 43 then 0 else i32 (a1 + 1))
  else if a1 =? 0 then 43 else i32 (a1 - 1).

End Rounding.

Module Ntt.
Export Rounding.

Abbreviation poly := (list Z).

Definition zetas : list Z :=
  [0; 25847; -2608894; -518909; 237124; -777960; -876248; 466468;
   1826347; 2353451; -359251; -2091905; 3119733; -2884855; 3111497; 2680103;
   2725464; 1024112; -1079900; 3585928; -549488; -1119584; 2619752; -2108549;
   -2118186; -3859737; -1399561; -3277672; 1757237; -19422; 4010497; 280005;
   2706023; 95776; 3077325; 3530437; -1661693; -3592148; -2537516; 3915439;
   -3861115; -3043716; 3574422; -2867647; 3539968; -300467; 2348700; -539299;
   -1699267; -1643818; 3505694; -3821735; 3507263; -2140649; -1600420; 3699596;
   811944; 531354; 954230; 3881043; 3900724; -2556880; 2071892; -2797779;
   -3930395; -1528703; -3677745; -3041255; -1452451; 3475950; 2176455; -1585221;
   -1257611; 1939314; -4083598; -1000202; -3190144; -3157330; -3632928; 126922;
   3412210; -983419; 2147896; 2715295; -2967645; -3693493; -411027; -2477047;
   -671102; -1228525; -22981; -1308169; -381987; 1349076; 1852771; -1430430;
   -3343383; 264944; 508951; 3097992; 44288; -1100098; 904516; 3958618;
   -3724342; -8578; 1653064; -3249728; 2389356; -210977; 759969; -1316856;
   189548; -3553272; 3159746; -1851402; -2409325; -177440; 1315589; 1341330;
   1285669; -1584928; -812732; -1439742; -3019102; -3881060; -3628969; 3839961;
   2091667; 3407706; 2316500; 3817976; -3342478; 2244091; -2446433; -3562462;
   266997; 2434439; -1235728; 3513181; -3520352; -3759364; -1197226; -3193378;
   900702; 1859098; 909542; 819034; 495491; -1613174; -43260; -522500;
   -655327; -3122442; 2031748; 3207046; -3556995; -525098; -768622; -3595838;
   342297; 286988; -2437823; 4108315; 3437287; -3342277; 1735879; 203044;
   2842341; 2691481; -2590150; 1265009; 4055324; 1247620; 2486353; 1595974;
   -3767016; 1250494; 2635921; -3548272; -2994039; 1869119; 1903435; -1050970;
   -1333058; 1237275; -3318210; -1430225; -451100; 1312455; 3306115; -1962642;
   -1279661; 1917081; -2546312; -1374803; 1500165; 777191; 2235880; 3406031;
   -542412; -2831860; -1671176; -1846953; -2584293; -3724270; 594136; -3776993;
   -2013608; 2432395; 2454455; -164721; 1957272; 3369112; 185531; -1207385;
   -3183426; 162844; 1616392; 3014001; 810149; 1652634; -3694233; -1799107;
   -3038916; 3523897; 3866901; 269760; 2213111; -975884; 1717735; 472078;
   -426683; 1723600; -1803090; 1910376; -1667432; -1104333; -260646; -3833893;
   -2939036; -2235985; -420899; -2286327; 183443; -976891; 1612842; -3545687;
   -554416; 3919660; -48306; -1362209; 3937738; 1400424; -846154; 1976782].

(** The body of the innermost loop at index [j]. *)
Definition ntt_butterfly (zeta : Z) (len : nat) (a : poly) (j : nat) : poly :=
  let t := montgomery_reduce (i64 (zeta * (a !!! (j + len)%nat))) in
  let a := <[(j + len)%nat := i32 ((a !!! j) - t)]> a in
  <[j := i32 ((a !!! j) + t)]> a.

(** [for (start = 0; start < N; start = j + len)], where [j] leaves the inner
    loop at [start + len]. *)
Definition starts (len : nat) : list nat :=
  (fun b => b * (2 * len))%nat <$> seq 0 (N / (2 * len)).

Definition ntt_layer (s : nat * poly) (len : nat) : nat * poly :=
  foldl (fun '(k, a) start =>
           let k := S k in
           (k, foldl (ntt_butterfly (zetas !!! k) len) a (seq start len)))
        s (starts len).

(** [for (len = 128; len > 0; len >>= 1)] *)
Definition ntt_lens : list nat := [128; 64; 32; 16; 8; 4; 2; 1]%nat.

Definition ntt (a : poly) : poly := (foldl ntt_layer (0%nat, a) ntt_lens).2.

Definition invntt_butterfly (zeta : Z) (len : nat) (a : poly) (j : nat) : poly :=
  let t := a !!! j in
  let a := <[j := i32 (t + (a !!! (j + len)%nat))]> a in
  let a := <[(j + len)%nat := i32 (t - (a !!! (j + len)%nat))]> a in
  <[(j + len)%nat := montgomery_reduce (i64 (zeta * (a !!! (j + len)%nat)))]> a.

Definition invntt_layer (s : nat * poly) (len : nat) : nat * poly :=
  foldl (fun '(k, a) start =>
           let k := (k - 1)%nat in
           let zeta := i32 (- (zetas !!! k)) in
           (k, foldl (invntt_butterfly zeta len) a (seq start len)))
        s (starts len).

(** [for (len = 1; len < N; len <<= 1)] *)
Definition invntt_lens : list nat := [1; 2; 4; 8; 16; 32; 64; 128]%nat.

Definition invntt_tomont (a : poly) : poly :=
  let f := 41978 in
  (fun x => montgomery_reduce (i64 (f * x))) <$> (foldl invntt_layer (256%nat, a) invntt_lens).2.

End Ntt.

Module Poly.
Export Ntt.
Import Sponge.

Definition poly_reduce (a : poly) : poly := reduce32 <$> a.
Definition poly_caddq (a : poly) : poly := caddq <$> a.
Definition poly_add (a b : poly) : poly := zip_with (fun x y => i32 (x + y)) a b.
Definition poly_sub (a b : poly) : poly := zip_with (fun x y => i32 (x - y)) a b.
Definition poly_shiftl (a : poly) : poly := (fun x => i32 (Z.shiftl x D)) <$> a.
Definition poly_ntt (a : poly) : poly := ntt a.
Definition poly_invntt_tomont (a : poly) : poly := invntt_tomont a.
Definition poly_pointwise_montgomery (a b : poly) : poly :=
  zip_with (fun x y => montgomery_reduce (i64 (x * y))) a b.

Definition poly_power2round (a : poly) : poly * poly :=
  ((fun x => (power2round x).1) <$> a, (fun x => (power2round x).2) <$> a).
Definition poly_decompose (a : poly) : poly * poly :=
  ((fun x => (decompose x).1) <$> a, (fun x => (decompose x).2) <$> a).

(** The hint polynomial and the number of its ones. *)
Definition poly_make_hint (a0 a1 : poly) : poly * Z :=
  let h := zip_with make_hint a0 a1 in
  (h, foldl (fun s x => u32 (s + x)) 0 h).
Definition poly_use_hint (a h : poly) : poly := zip_with use_hint a h.

(** [true] is the return value 1. *)
Definition coeff_exceeds (B x : Z) : bool :=
  let t := Z.shiftr x 31 in
  let t := i32 (x - Z.land t (i32 (2 * x))) in
  t >=? B.
Definition poly_chknorm (a : poly) (B : Z) : bool :=
  if B >? (Q - 1) / 8 then true else existsb (coeff_exceeds B) a.

(** ** Sampling

    [rej_uniform] and [rej_eta] return the accepted coefficients, at most
    [len] of them. *)
Fixpoint rej_uniform (len : nat) (buf : list Z) : list Z :=
  match len, buf with
  | S len', b0 :: b1 :: b2 :: buf' =>
      let t := Z.lor (Z.lor b0 (Z.shiftl b1 8)) (Z.shiftl b2 16) in
      let t := Z.land t 0x7FFFFF in
      if t <? Q then t :: rej_uniform len' buf' else rej_uniform len buf'
  | _, _ => []
  end.

Definition eta_coeff (t : Z) : Z :=
  let t := u32 (t - Z.shiftr (205 * t) 10 * 5) in
  i32 (u32 (2 - t)).

Fixpoint rej_eta (len : nat) (buf : list Z) : list Z :=
  match len, buf with
  | S len', b :: buf' =>
      let t0 := Z.land b 0x0F in
      let t1 := Z.shiftr b 4 in
      let '(first, len) := if t0 <? 15 then ([eta_coeff t0], len') else ([], len) in
      match len with
      | S len' =>
          if t1 <? 15 then first ++ eta_coeff t1 :: rej_eta len' buf'
          else first ++ rej_eta len buf'
      | O => first
      end
  | _, _ => []
  end.

(** ** Bit packing: one step of each loop per group of coefficients. *)

Fixpoint polyeta_pack (a : poly) : list Z :=
  match a with
  | a0 :: a1 :: a2 :: a3 :: a4 :: a5 :: a6 :: a7 :: a =>
      let t0 := u8 (ETA - a0) in
      let t1 := u8 (ETA - a1) in
      let t2 := u8 (ETA - a2) in
      let t3 := u8 (ETA - a3) in
      let t4 := u8 (ETA - a4) in
      let t5 := u8 (ETA - a5) in
      let t6 := u8 (ETA - a6) in
      let t7 := u8 (ETA - a7) in
      u8 (Z.lor (Z.lor (Z.shiftr t0 0) (Z.shiftl t1 3)) (Z.shiftl t2 6)) ::
      u8 (Z.lor (Z.lor (Z.lor (Z.shiftr t2 2) (Z.shiftl t3 1)) (Z.shiftl t4 4)) (Z.shiftl t5 7)) ::
      u8 (Z.lor (Z.lor (Z.shiftr t5 1) (Z.shiftl t6 2)) (Z.shiftl t7 5)) :: polyeta_pack a
  | _ => []
  end.

Fixpoint polyeta_unpack (a : list Z) : poly :=
  match a with
  | b0 :: b1 :: b2 :: a =>
      (ETA - Z.land (Z.shiftr b0 0) 7) ::
      (ETA - Z.land (Z.shiftr b0 3) 7) ::
      (ETA - Z.land (Z.lor (Z.shiftr b0 6) (Z.shiftl b1 2)) 7) ::
      (ETA - Z.land (Z.shiftr b1 1) 7) ::
      (ETA - Z.land (Z.shiftr b1 4) 7) ::
      (ETA - Z.land (Z.lor (Z.shiftr b1 7) (Z.shiftl b2 1)) 7) ::
      (ETA - Z.land (Z.shiftr b2 2) 7) ::
      (ETA - Z.land (Z.shiftr b2 5) 7) :: polyeta_unpack a
  | _ => []
  end.

Fixpoint polyt1_pack (a : poly) : list Z :=
  match a with
  | a0 :: a1 :: a2 :: a3 :: a =>
      u8 (Z.shiftr a0 0) ::
      u8 (Z.lor (Z.shiftr a0 8) (i32 (Z.shiftl a1 2))) ::
      u8 (Z.lor (Z.shiftr a1 6) (i32 (Z.shiftl a2 4))) ::
      u8 (Z.lor (Z.shiftr a2 4) (i32 (Z.shiftl a3 6))) ::
      u8 (Z.shiftr a3 2) :: polyt1_pack a
  | _ => []
  end.

Fixpoint polyt1_unpack (a : list Z) : poly :=
  match a with
  | b0 :: b1 :: b2 :: b3 :: b4 :: a =>
      Z.land (Z.lor (Z.shiftr b0 0) (Z.shiftl b1 8)) 0x3FF ::
      Z.land (Z.lor (Z.shiftr b1 2) (Z.shiftl b2 6)) 0x3FF ::
      Z.land (Z.lor (Z.shiftr b2 4) (Z.shiftl b3 4)) 0x3FF ::
      Z.land (Z.lor (Z.shiftr b3 6) (Z.shiftl b4 2)) 0x3FF :: polyt1_unpack a
  | _ => []
  end.

Fixpoint polyt0_pack (a : poly) : list Z :=
  match a with
  | a0 :: a1 :: a2 :: a3 :: a4 :: a5 :: a6 :: a7 :: a =>
      let t0 := u32 (i32 (Z.shiftl 1 (D - 1) - a0)) in
      let t1 := u32 (i32 (Z.shiftl 1 (D - 1) - a1)) in
      let t2 := u32 (i32 (Z.shiftl 1 (D - 1) - a2)) in
      let t3 := u32 (i32 (Z.shiftl 1 (D - 1) - a3)) in
      let t4 := u32 (i32 (Z.shiftl 1 (D - 1) - a4)) in
      let t5 := u32 (i32 (Z.shiftl 1 (D - 1) - a5)) in
      let t6 := u32 (i32 (Z.shiftl 1 (D - 1) - a6)) in
      let t7 := u32 (i32 (Z.shiftl 1 (D - 1) - a7)) in
      u8 t0 ::
      Z.lor (u8 (Z.shiftr t0 8)) (u8 (u32 (Z.shiftl t1 5))) ::
      u8 (Z.shiftr t1 3) ::
      Z.lor (u8 (Z.shiftr t1 11)) (u8 (u32 (Z.shiftl t2 2))) ::
      Z.lor (u8 (Z.shiftr t2 6)) (u8 (u32 (Z.shiftl t3 7))) ::
      u8 (Z.shiftr t3 1) ::
      Z.lor (u8 (Z.shiftr t3 9)) (u8 (u32 (Z.shiftl t4 4))) ::
      u8 (Z.shiftr t4 4) ::
      Z.lor (u8 (Z.shiftr t4 12)) (u8 (u32 (Z.shiftl t5 1))) ::
      Z.lor (u8 (Z.shiftr t5 7)) (u8 (u32 (Z.shiftl t6 6))) ::
      u8 (Z.shiftr t6 2) ::
      Z.lor (u8 (Z.shiftr t6 10)) (u8 (u32 (Z.shiftl t7 3))) ::
      u8 (Z.shiftr t7 5) :: polyt0_pack a
  | _ => []
  end.

Fixpoint polyt0_unpack (a : list Z) : poly :=
  match a with
  | b0 :: b1 :: b2 :: b3 :: b4 :: b5 :: b6 :: b7 :: b8 :: b9 :: b10 :: b11 :: b12 :: a =>
      let r0 := Z.land (Z.lor b0 (Z.shiftl b1 8)) 0x1FFF in
      let r1 := Z.land (Z.lor (Z.lor (Z.shiftr b1 5) (Z.shiftl b2 3)) (Z.shiftl b3 11)) 0x1FFF in
      let r2 := Z.land (Z.lor (Z.shiftr b3 2) (Z.shiftl b4 6)) 0x1FFF in
      let r3 := Z.land (Z.lor (Z.lor (Z.shiftr b4 7) (Z.shiftl b5 1)) (Z.shiftl b6 9)) 0x1FFF in
      let r4 := Z.land (Z.lor (Z.lor (Z.shiftr b6 4) (Z.shiftl b7 4)) (Z.shiftl b8 12)) 0x1FFF in
      let r5 := Z.land (Z.lor (Z.shiftr b8 1) (Z.shiftl b9 7)) 0x1FFF in
      let r6 := Z.land (Z.lor (Z.lor (Z.shiftr b9 6) (Z.shiftl b10 2)) (Z.shiftl b11 10)) 0x1FFF in
      let r7 := Z.land (Z.lor (Z.shiftr b11 3) (Z.shiftl b12 5)) 0x1FFF in
      (Z.shiftl 1 (D - 1) - r0) :: (Z.shiftl 1 (D - 1) - r1) ::
      (Z.shiftl 1 (D - 1) - r2) :: (Z.shiftl 1 (D - 1) - r3) ::
      (Z.shiftl 1 (D - 1) - r4) :: (Z.shiftl 1 (D - 1) - r5) ::
      (Z.shiftl 1 (D - 1) - r6) :: (Z.shiftl 1 (D - 1) - r7) :: polyt0_unpack a
  | _ => []
  end.

Fixpoint polyz_pack (a : poly) : list Z :=
  match a with
  | a0 :: a1 :: a2 :: a3 :: a =>
      let t0 := u32 (i32 (GAMMA1 - a0)) in
      let t1 := u32 (i32 (GAMMA1 - a1)) in
      let t2 := u32 (i32 (GAMMA1 - a2)) in
      let t3 := u32 (i32 (GAMMA1 - a3)) in
      u8 t0 ::
      u8 (Z.shiftr t0 8) ::
      Z.lor (u8 (Z.shiftr t0 16)) (u8 (u32 (Z.shiftl t1 2))) ::
      u8 (Z.shiftr t1 6) ::
      Z.lor (u8 (Z.shiftr t1 14)) (u8 (u32 (Z.shiftl t2 4))) ::
      u8 (Z.shiftr t2 4) ::
      Z.lor (u8 (Z.shiftr t2 12)) (u8 (u32 (Z.shiftl t3 6))) ::
      u8 (Z.shiftr t3 2) ::
      u8 (Z.shiftr t3 10) :: polyz_pack a
  | _ => []
  end.

Fixpoint polyz_unpack (a : list Z) : poly :=
  match a with
  | b0 :: b1 :: b2 :: b3 :: b4 :: b5 :: b6 :: b7 :: b8 :: a =>
      let r0 := Z.land (Z.lor (Z.lor b0 (Z.shiftl b1 8)) (Z.shiftl b2 16)) 0x3FFFF in
      let r1 := Z.land (Z.lor (Z.lor (Z.shiftr b2 2) (Z.shiftl b3 6)) (Z.shiftl b4 14)) 0x3FFFF in
      let r2 := Z.land (Z.lor (Z.lor (Z.shiftr b4 4) (Z.shiftl b5 4)) (Z.shiftl b6 12)) 0x3FFFF in
      let r3 := Z.land (Z.lor (Z.lor (Z.shiftr b6 6) (Z.shiftl b7 2)) (Z.shiftl b8 10)) 0x3FFFF in
      (GAMMA1 - r0) :: (GAMMA1 - r1) :: (GAMMA1 - r2) :: (GAMMA1 - r3) :: polyz_unpack a
  | _ => []
  end.

Fixpoint polyw1_pack (a : poly) : list Z :=
  match a with
  | a0 :: a1 :: a2 :: a3 :: a =>
      Z.lor (u8 a0) (u8 (i32 (Z.shiftl a1 6))) ::
      Z.lor (u8 (Z.shiftr a1 2)) (u8 (i32 (Z.shiftl a2 4))) ::
      Z.lor (u8 (Z.shiftr a2 4)) (u8 (i32 (Z.shiftl a3 2))) :: polyw1_pack a
  | _ => []
  end.

(** ** Streams *)

Section Streams.
Context (permute : list Z → list Z) (fuel : nat).

Definition nonce_bytes (nonce : Z) : list Z := [u8 nonce; u8 (Z.shiftr nonce 8)].

Definition dilithium_shake128_stream_init (seed : list Z) (nonce : Z) : inc_state :=
  let state := shake128_inc_init in
  let state := shake128_inc_absorb permute state seed in
  let state := shake128_inc_absorb permute state (nonce_bytes nonce) in
  shake128_inc_finalize state.

Definition dilithium_shake256_stream_init (seed : list Z) (nonce : Z) : inc_state :=
  let state := shake256_inc_init in
  let state := shake256_inc_absorb permute state seed in
  let state := shake256_inc_absorb permute state (nonce_bytes nonce) in
  shake256_inc_finalize state.

Definition stream128_squeezeblocks (nblocks : nat) (state : inc_state) : list Z * inc_state :=
  shake128_inc_squeeze permute (nblocks * SHAKE128_RATE) state.
Definition stream256_squeezeblocks (nblocks : nat) (state : inc_state) : list Z * inc_state :=
  shake256_inc_squeeze permute (nblocks * SHAKE256_RATE) state.

(** [while (ctr < N)]; [a] holds the coefficients accepted so far. *)
Fixpoint poly_uniform_loop (fuel : nat) (a : poly) (buf : list Z) (state : inc_state)
    : option poly :=
  if Nat.ltb (length a) N then
    match fuel with
    | O => None
    | S fuel =>
        let buflen := length buf in
        let off := (buflen mod 3)%nat in
        let '(block, state) := stream128_squeezeblocks 1 state in
        let buf := drop (buflen - off) buf ++ block in
        poly_uniform_loop fuel (a ++ rej_uniform (N - length a) buf) buf state
    end
  else Some a.

Definition POLY_UNIFORM_NBLOCKS : nat := (768 + SHAKE128_RATE - 1) / SHAKE128_RATE.

Definition poly_uniform (seed : list Z) (nonce : Z) : option poly :=
  let state := dilithium_shake128_stream_init seed nonce in
  let '(buf, state) := stream128_squeezeblocks POLY_UNIFORM_NBLOCKS state in
  poly_uniform_loop fuel (rej_uniform N buf) buf state.

Fixpoint poly_uniform_eta_loop (fuel : nat) (a : poly) (state : inc_state) : option poly :=
  if Nat.ltb (length a) N then
    match fuel with
    | O => None
    | S fuel =>
        let '(buf, state) := stream256_squeezeblocks 1 state in
        poly_uniform_eta_loop fuel (a ++ rej_eta (N - length a) buf) state
    end
  else Some a.

Definition POLY_UNIFORM_ETA_NBLOCKS : nat := (136 + SHAKE256_RATE - 1) / SHAKE256_RATE.

Definition poly_uniform_eta (seed : list Z) (nonce : Z) : option poly :=
  let state := dilithium_shake256_stream_init seed nonce in
  let '(buf, state) := stream256_squeezeblocks POLY_UNIFORM_ETA_NBLOCKS state in
  poly_uniform_eta_loop fuel (rej_eta N buf) state.

Definition POLY_UNIFORM_GAMMA1_NBLOCKS : nat :=
  (POLYZ_PACKEDBYTES + SHAKE256_RATE - 1) / SHAKE256_RATE.

Definition poly_uniform_gamma1 (seed : list Z) (nonce : Z) : poly :=
  let state := dilithium_shake256_stream_init seed nonce in
  let buf := (stream256_squeezeblocks POLY_UNIFORM_GAMMA1_NBLOCKS state).1 in
  polyz_unpack (take POLYZ_PACKEDBYTES buf).

(** [do b = buf\[pos++\] while (b > i)]: [buf] is the unread part of the buffer,
    refilled when it is empty. *)
Fixpoint challenge_index (fuel : nat) (i : nat) (buf : list Z) (state : inc_state)
    : option (nat * list Z * inc_state) :=
  match fuel with
  | O => None
  | S fuel =>
      let '(buf, state) :=
        match buf with
        | [] => shake256_inc_squeeze permute SHAKE256_RATE state
        | _ => (buf, state)
        end in
      match buf with
      | [] => None
      | b :: buf =>
          if b >? Z.of_nat i then challenge_index fuel i buf state
          else Some (Z.to_nat b, buf, state)
      end
  end.

Fixpoint challenge_loop (idx : list nat) (c : poly) (signs : Z) (buf : list Z) (state : inc_state)
    : option poly :=
  match idx with
  | [] => Some c
  | i :: idx =>
      match challenge_index fuel i buf state with
      | None => None
      | Some (b, buf, state) =>
          let c := <[i := c !!! b]> c in
          let c := <[b := i32 (u64 (1 - 2 * Z.land signs 1))]> c in
          challenge_loop idx c (Z.shiftr signs 1) buf state
      end
  end.

Definition poly_challenge (seed : list Z) : option poly :=
  let state := shake256_inc_init in
  let state := shake256_inc_absorb permute state seed in
  let state := shake256_inc_finalize state in
  let '(buf, state) := shake256_inc_squeeze permute SHAKE256_RATE state in
  let signs := foldl (fun s i => Z.lor s (Z.shiftl (buf !!! i) (8 * Z.of_nat i))) 0 (seq 0 8) in
  challenge_loop (seq (N - TAU) TAU) (replicate N 0) signs (drop 8 buf) state.

End Streams.
End Poly.
