(* ===== verification/Mldsa.v ===== *)
(** * ML-DSA-44: vectors, encodings and signatures

    [crypto/mldsa/polyvec.c], [packing.c] and [sign.c].  A vector of [K] or [L]
    polynomials is the list of them.  The functions are a section over the
    Keccak permutation and the fuel of the sampling loops; bytes from
    [randombytes] are arguments.  [None] stands for a loop that has not ended
    within the fuel; a negative return code is a value. *)
From S2P Require Import Prelude Fips202 MldsaPoly.

Module Polyvec.
Export Poly.

Abbreviation polyvec := (list (list Z)).

Definition polyvecl_reduce (v : polyvec) : polyvec := poly_reduce <$> v.
Definition polyvecl_add (u v : polyvec) : polyvec := zip_with poly_add u v.
Definition polyvecl_ntt (v : polyvec) : polyvec := poly_ntt <$> v.
Definition polyvecl_invntt_tomont (v : polyvec) : polyvec := poly_invntt_tomont <$> v.
Definition polyvecl_pointwise_poly_montgomery (a : poly) (v : polyvec) : polyvec :=
  poly_pointwise_montgomery a <$> v.

(** [w] starts as the first product and accumulates the others. *)
Definition polyvecl_pointwise_acc_montgomery (u v : polyvec) : poly :=
  foldl (fun w i => poly_add w (poly_pointwise_montgomery (u !!! i) (v !!! i)))
    (poly_pointwise_montgomery (u !!! 0%nat) (v !!! 0%nat)) (seq 1 (L - 1)).

Definition polyvecl_chknorm (v : polyvec) (bound : Z) : bool :=
  existsb (fun a => poly_chknorm a bound) v.

Definition polyveck_reduce (v : polyvec) : polyvec := poly_reduce <$> v.
Definition polyveck_caddq (v : polyvec) : polyvec := poly_caddq <$> v.
Definition polyveck_add (u v : polyvec) : polyvec := zip_with poly_add u v.
Definition polyveck_sub (u v : polyvec) : polyvec := zip_with poly_sub u v.
Definition polyveck_shiftl (v : polyvec) : polyvec := poly_shiftl <$> v.
Definition polyveck_ntt (v : polyvec) : polyvec := poly_ntt <$> v.
Definition polyveck_invntt_tomont (v : polyvec) : polyvec := poly_invntt_tomont <$> v.
Definition polyveck_pointwise_poly_montgomery (a : poly) (v : polyvec) : polyvec :=
  poly_pointwise_montgomery a <$> v.
Definition polyveck_chknorm (v : polyvec) (bound : Z) : bool :=
  existsb (fun a => poly_chknorm a bound) v.

Definition polyveck_power2round (v : polyvec) : polyvec * polyvec :=
  ((fun a => (poly_power2round a).1) <$> v, (fun a => (poly_power2round a).2) <$> v).
Definition polyveck_decompose (v : polyvec) : polyvec * polyvec :=
  ((fun a => (poly_decompose a).1) <$> v, (fun a => (poly_decompose a).2) <$> v).

Definition polyveck_make_hint (v0 v1 : polyvec) : polyvec * Z :=
  let hs := zip_with poly_make_hint v0 v1 in
  (hs.*1, foldl (fun s n => u32 (s + n)) 0 hs.*2).
Definition polyveck_use_hint (v h : polyvec) : polyvec := zip_with poly_use_hint v h.
Definition polyveck_pack_w1 (w1 : polyvec) : list Z := concat (polyw1_pack <$> w1).

Definition polyvec_matrix_pointwise_montgomery (mat : list polyvec) (v : polyvec) : polyvec :=
  (fun row => polyvecl_pointwise_acc_montgomery row v) <$> mat.

Section Sampling.
Context (permute : list Z → list Z) (fuel : nat).

Definition polyvec_matrix_expand (rho : list Z) : option (list polyvec) :=
  mapM (fun i =>
    mapM (fun j => poly_uniform permute fuel rho (u16 (Z.shiftl (Z.of_nat i) 8 + Z.of_nat j)))
      (seq 0 L)) (seq 0 K).

Definition polyvecl_uniform_eta (seed : list Z) (nonce : Z) : option polyvec :=
  mapM (fun i => poly_uniform_eta permute fuel seed (u16 (nonce + Z.of_nat i))) (seq 0 L).
Definition polyveck_uniform_eta (seed : list Z) (nonce : Z) : option polyvec :=
  mapM (fun i => poly_uniform_eta permute fuel seed (u16 (nonce + Z.of_nat i))) (seq 0 K).
Definition polyvecl_uniform_gamma1 (seed : list Z) (nonce : Z) : polyvec :=
  (fun i => poly_uniform_gamma1 permute seed (u16 (Z.of_nat L * nonce + Z.of_nat i))) <$> seq 0 L.

End Sampling.
End Polyvec.

Module Packing.
Export Polyvec.

(** [n] polynomials of [size] bytes each from [buf]. *)
Definition unpack_vec (unpack : list Z → poly) (n size : nat) (buf : list Z) : polyvec :=
  (fun i => unpack (take size (drop (i * size) buf))) <$> seq 0 n.

Definition pack_pk (rho : list Z) (t1 : polyvec) : list Z := rho ++ concat (polyt1_pack <$> t1).

Definition unpack_pk (pk : list Z) : list Z * polyvec :=
  (take SEEDBYTES pk,
   unpack_vec polyt1_unpack K POLYT1_PACKEDBYTES (drop SEEDBYTES pk)).

Definition pack_sk (rho tr key : list Z) (t0 s1 s2 : polyvec) : list Z :=
  rho ++ key ++ tr ++ concat (polyeta_pack <$> s1) ++ concat (polyeta_pack <$> s2)
  ++ concat (polyt0_pack <$> t0).

(** [rho], [tr], [key], [t0], [s1], [s2]. *)
Definition unpack_sk (sk : list Z)
    : list Z * list Z * list Z * polyvec * polyvec * polyvec :=
  let rho := take SEEDBYTES sk in
  let sk := drop SEEDBYTES sk in
  let key := take SEEDBYTES sk in
  let sk := drop SEEDBYTES sk in
  let tr := take TRBYTES sk in
  let sk := drop TRBYTES sk in
  let s1 := unpack_vec polyeta_unpack L POLYETA_PACKEDBYTES sk in
  let sk := drop (L * POLYETA_PACKEDBYTES) sk in
  let s2 := unpack_vec polyeta_unpack K POLYETA_PACKEDBYTES sk in
  let sk := drop (K * POLYETA_PACKEDBYTES) sk in
  let t0 := unpack_vec polyt0_unpack K POLYT0_PACKEDBYTES sk in
  (rho, tr, key, t0, s1, s2).

(** The hint part of a signature: the positions of the ones, polynomial by
    polynomial, and in the last [K] bytes the running number of them. *)
Definition encode_hint_poly (h : poly) (s : nat * list Z) : nat * list Z :=
  foldl (fun '(k, sig) j =>
           if (h !!! j) =? 0 then (k, sig) else (S k, <[k := u8 (Z.of_nat j)]> sig))
        s (seq 0 N).

Definition encode_hints (h : polyvec) : list Z :=
  (foldl (fun s i =>
            let '(k, sig) := encode_hint_poly (h !!! i) s in
            (k, <[(OMEGA + i)%nat := u8 (Z.of_nat k)]> sig))
         (0%nat, replicate (OMEGA + K) 0) (seq 0 K)).2.

Definition pack_sig (c : list Z) (z h : polyvec) : list Z :=
  c ++ concat (polyz_pack <$> z) ++ encode_hints h.

(** One polynomial: positions [k] to [limit] have to increase. *)
Definition decode_hint_poly (sig : list Z) (k limit : nat) : option poly :=
  foldl (fun acc j =>
           match acc with
           | None => None
           | Some h =>
               if Nat.ltb k j && ((sig !!! j) <=? (sig !!! (j - 1)%nat)) then None
               else Some (<[Z.to_nat (sig !!! j) := 1]> h)
           end)
        (Some (replicate N 0)) (seq k (limit - k)).

Fixpoint decode_hints_loop (sig : list Z) (i n k : nat) : option (polyvec * nat) :=
  match n with
  | O => Some ([], k)
  | S n =>
      let limit := Z.to_nat (sig !!! (OMEGA + i)%nat) in
      if Nat.ltb limit k || Nat.ltb OMEGA limit then None else
        match decode_hint_poly sig k limit with
        | None => None
        | Some h =>
            match decode_hints_loop sig (S i) n limit with
            | None => None
            | Some (hs, k) => Some (h :: hs, k)
            end
        end
  end.

Definition decode_hints (sig : list Z) : option polyvec :=
  match decode_hints_loop sig 0 K 0 with
  | None => None
  | Some (h, k) =>
      if existsb (fun j => negb ((sig !!! j) =? 0)) (seq k (OMEGA - k)) then None else Some h
  end.

(** [None] is the return value 1. *)
Definition unpack_sig (sig : list Z) : option (list Z * polyvec * polyvec) :=
  let c := take CTILDEBYTES sig in
  let sig := drop CTILDEBYTES sig in
  let z := unpack_vec polyz_unpack L POLYZ_PACKEDBYTES sig in
  let sig := drop (L * POLYZ_PACKEDBYTES) sig in
  match decode_hints sig with
  | None => None
  | Some h => Some (c, z, h)
  end.

End Packing.

Module Sign.
Export Packing.
Import Sponge.

Section Sign.
Context (permute : list Z → list Z) (fuel : nat).

(** [randombytes(seedbuf, SEEDBYTES)] delivers [seed]. *)
Definition crypto_sign_keypair (seed : list Z) : option (list Z * list Z) :=
  let seedbuf := shake256 permute (2 * SEEDBYTES + CRHBYTES) (seed ++ [Z.of_nat K; Z.of_nat L]) in
  let rho := take SEEDBYTES seedbuf in
  let rhoprime := take CRHBYTES (drop SEEDBYTES seedbuf) in
  let key := drop (SEEDBYTES + CRHBYTES) seedbuf in
  match polyvec_matrix_expand permute fuel rho,
        polyvecl_uniform_eta permute fuel rhoprime 0,
        polyveck_uniform_eta permute fuel rhoprime (Z.of_nat L) with
  | Some mat, Some s1, Some s2 =>
      let s1hat := polyvecl_ntt s1 in
      let t1 := polyvec_matrix_pointwise_montgomery mat s1hat in
      let t1 := polyveck_reduce t1 in
      let t1 := polyveck_invntt_tomont t1 in
      let t1 := polyveck_add t1 s2 in
      let t1 := polyveck_caddq t1 in
      let '(t1, t0) := polyveck_power2round t1 in
      let pk := pack_pk rho t1 in
      let tr := shake256 permute TRBYTES pk in
      Some (pk, pack_sk rho tr key t0 s1 s2)
  | _, _, _ => None
  end.

(** [mu = CRH(tr, 0, ctxlen, ctx, msg)] *)
Definition message_hash (tr ctx m : list Z) : list Z :=
  let state := shake256_inc_init in
  let state := shake256_inc_absorb permute state tr in
  let state := shake256_inc_absorb permute state [0; u8 (Z.of_nat (length ctx))] in
  let state := shake256_inc_absorb permute state ctx in
  let state := shake256_inc_absorb permute state m in
  let state := shake256_inc_finalize state in
  (shake256_inc_squeeze permute CRHBYTES state).1.

(** The random oracle on [mu] and the packed high bits. *)
Definition challenge_hash (mu w1 : list Z) : list Z :=
  let state := shake256_inc_init in
  let state := shake256_inc_absorb permute state mu in
  let state := shake256_inc_absorb permute state w1 in
  let state := shake256_inc_finalize state in
  (shake256_inc_squeeze permute CTILDEBYTES state).1.

Inductive attempt := Rejected | Signed (sig : list Z).

(** One pass from the label [rej]: [s1], [s2], [t0] are in NTT form. *)
Definition sign_attempt (mat : list polyvec) (s1 s2 t0 : polyvec) (mu rhoprime : list Z)
    (nonce : Z) : option attempt :=
  let y := polyvecl_uniform_gamma1 permute rhoprime nonce in
  let z := polyvecl_ntt y in
  let w1 := polyvec_matrix_pointwise_montgomery mat z in
  let w1 := polyveck_reduce w1 in
  let w1 := polyveck_invntt_tomont w1 in
  let w1 := polyveck_caddq w1 in
  let '(w1, w0) := polyveck_decompose w1 in
  let c := challenge_hash mu (polyveck_pack_w1 w1) in
  match poly_challenge permute fuel c with
  | None => None
  | Some cp =>
      let cp := poly_ntt cp in
      let z := polyvecl_pointwise_poly_montgomery cp s1 in
      let z := polyvecl_invntt_tomont z in
      let z := polyvecl_add z y in
      let z := polyvecl_reduce z in
      if polyvecl_chknorm z (GAMMA1 - BETA) then Some Rejected else
      let h := polyveck_pointwise_poly_montgomery cp s2 in
      let h := polyveck_invntt_tomont h in
      let w0 := polyveck_sub w0 h in
      let w0 := polyveck_reduce w0 in
      if polyveck_chknorm w0 (GAMMA2 - BETA) then Some Rejected else
      let h := polyveck_pointwise_poly_montgomery cp t0 in
      let h := polyveck_invntt_tomont h in
      let h := polyveck_reduce h in
      if polyveck_chknorm h GAMMA2 then Some Rejected else
      let w0 := polyveck_add w0 h in
      let '(h, n) := polyveck_make_hint w0 w1 in
      if n >? Z.of_nat OMEGA then Some Rejected else Some (Signed (pack_sig c z h))
  end.

(** [goto rej], at most [attempts] times. *)
Fixpoint sign_loop (attempts : nat) (mat : list polyvec) (s1 s2 t0 : polyvec)
    (mu rhoprime : list Z) (nonce : Z) : option (list Z) :=
  match attempts with
  | O => None
  | S attempts =>
      match sign_attempt mat s1 s2 t0 mu rhoprime nonce with
      | None => None
      | Some Rejected => sign_loop attempts mat s1 s2 t0 mu rhoprime (u16 (nonce + 1))
      | Some (Signed sig) => Some sig
      end
  end.

(** [inl ret] is an error code, [inr sig] a signature and the return value 0;
    [randombytes(rnd, RNDBYTES)] delivers [rnd]. *)
Definition crypto_sign_signature_ctx (attempts : nat) (m ctx sk rnd : list Z)
    : option (Z + list Z) :=
  if Z.of_nat (length ctx) >? 255 then Some (inl (-1)) else
  let '(rho, tr, key, t0, s1, s2) := unpack_sk sk in
  let mu := message_hash tr ctx m in
  let rhoprime := shake256 permute CRHBYTES (key ++ rnd ++ mu) in
  match polyvec_matrix_expand permute fuel rho with
  | None => None
  | Some mat =>
      match sign_loop attempts mat (polyvecl_ntt s1) (polyveck_ntt s2) (polyveck_ntt t0)
              mu rhoprime 0 with
      | None => None
      | Some sig => Some (inr sig)
      end
  end.

(** The signed message [sm] is the signature followed by the message. *)
Definition crypto_sign_ctx (attempts : nat) (m ctx sk rnd : list Z) : option (Z + list Z) :=
  match crypto_sign_signature_ctx attempts m ctx sk rnd with
  | Some (inr sig) => Some (inr (sig ++ m))
  | r => r
  end.

Definition crypto_sign_verify_ctx (sig m ctx pk : list Z) : option Z :=
  if (Z.of_nat (length ctx) >? 255) || negb (Nat.eqb (length sig) CRYPTO_BYTES)
  then Some (-1) else
  let '(rho, t1) := unpack_pk pk in
  match unpack_sig sig with
  | None => Some (-1)
  | Some (c, z, h) =>
      if polyvecl_chknorm z (GAMMA1 - BETA) then Some (-1) else
      let mu := shake256 permute TRBYTES pk in
      let mu := message_hash mu ctx m in
      match poly_challenge permute fuel c, polyvec_matrix_expand permute fuel rho with
      | Some cp, Some mat =>
          let z := polyvecl_ntt z in
          let w1 := polyvec_matrix_pointwise_montgomery mat z in
          let cp := poly_ntt cp in
          let t1 := polyveck_shiftl t1 in
          let t1 := polyveck_ntt t1 in
          let t1 := polyveck_pointwise_poly_montgomery cp t1 in
          let w1 := polyveck_sub w1 t1 in
          let w1 := polyveck_reduce w1 in
          let w1 := polyveck_invntt_tomont w1 in
          let w1 := polyveck_caddq w1 in
          let w1 := polyveck_use_hint w1 h in
          let buf := polyveck_pack_w1 w1 in
          let c2 := challenge_hash mu buf in
          if bool_decide (c = c2) then Some 0 else Some (-1)
      | _, _ => None
      end
  end.

(** The message, or the error code -1. *)
Definition crypto_sign_open_ctx (sm ctx pk : list Z) : option (Z + list Z) :=
  if Nat.ltb (length sm) CRYPTO_BYTES then Some (inl (-1)) else
  let m := drop CRYPTO_BYTES sm in
  match crypto_sign_verify_ctx (take CRYPTO_BYTES sm) m ctx pk with
  | None => None
  | Some ret => if negb (ret =? 0) then Some (inl (-1)) else Some (inr m)
  end.

Definition crypto_sign_signature (attempts : nat) (m sk rnd : list Z) : option (Z + list Z) :=
  crypto_sign_signature_ctx attempts m [] sk rnd.
Definition crypto_sign (attempts : nat) (m sk rnd : list Z) : option (Z + list Z) :=
  crypto_sign_ctx attempts m [] sk rnd.
Definition crypto_sign_verify (sig m pk : list Z) : option Z := crypto_sign_verify_ctx sig m [] pk.
Definition crypto_sign_open (sm pk : list Z) : option (Z + list Z) := crypto_sign_open_ctx sm [] pk.

End Sign.
End Sign.
