(* ===== verification/MldsaArith.v ===== *)
(** * ML-DSA-44: modular reduction and rounding

    Facts about [reduce.c] and [rounding.c]: the reductions compute the residue
    they document within their ranges and without overflow, the rounding
    functions split a residue as specified, and a hint recovers the high bits. *)
From S2P Require Import Prelude Fips202 MldsaPoly.
From Stdlib Require Import Setoid Morphisms.

(** ** Congruence modulo [Q] *)
Module Residues.
Export Rounding.

Definition eqq (a b : Z) : Prop := a mod Q = b mod Q.
Infix "≡q" := eqq (at level 70).

#[export] Instance eqq_equivalence : Equivalence eqq.
Proof. split; unfold eqq; repeat intro; congruence. Qed.
#[export] Instance eqq_add : Proper (eqq ==> eqq ==> eqq) Z.add.
Proof. intros a a' Ha b b' Hb. unfold eqq in *. by rewrite Zplus_mod, Ha, Hb, <- Zplus_mod. Qed.
#[export] Instance eqq_sub : Proper (eqq ==> eqq ==> eqq) Z.sub.
Proof. intros a a' Ha b b' Hb. unfold eqq in *. by rewrite Zminus_mod, Ha, Hb, <- Zminus_mod. Qed.
#[export] Instance eqq_mul : Proper (eqq ==> eqq ==> eqq) Z.mul.
Proof. intros a a' Ha b b' Hb. unfold eqq in *. by rewrite Zmult_mod, Ha, Hb, <- Zmult_mod. Qed.
#[export] Instance eqq_opp : Proper (eqq ==> eqq) Z.opp.
Proof. intros a a' Ha. rewrite <- (Z.sub_0_l a), <- (Z.sub_0_l a'). by rewrite Ha. Qed.

Lemma eqq_iff a b : a ≡q b ↔ ∃ k, a = b + k * Q.
Proof.
  unfold eqq. split.
  - intros H. exists (a / Q - b / Q). pose proof (Z.div_mod a Q). pose proof (Z.div_mod b Q).
    unfold Q in *. lia.
  - intros [k ->]. apply Z.mod_add. done.
Qed.

Lemma mod_eqq a : a mod Q ≡q a.
Proof. unfold eqq. by rewrite Z.mod_mod. Qed.
Lemma eqq_multiple a k : a + k * Q ≡q a.
Proof. apply eqq_iff. by exists k. Qed.

(** Ring identities as congruences. *)
Lemma eq_eqq a b : a = b → a ≡q b.
Proof. by intros ->. Qed.
Ltac eqq_ring := apply eq_eqq; ring.

(** [Q] is odd: factors of [2^32] cancel. *)
Lemma eqq_cancel a b : 2 ^ 32 * a ≡q 2 ^ 32 * b → a ≡q b.
Proof.
  intros H. assert (8265825 * (2 ^ 32 * a) ≡q 8265825 * (2 ^ 32 * b)) as E by (by rewrite H).
  rewrite !Z.mul_assoc in E. by change (8265825 * 2 ^ 32) with (1 + 4236238847 * Q) in E; revert E;
    rewrite (eqq_multiple 1 4236238847), !Z.mul_1_l.
Qed.

Lemma eqq_small a b : a ≡q b → 0 <= a < Q → 0 <= b < Q → a = b.
Proof. unfold eqq. intros H Ha Hb. by rewrite !Z.mod_small in H by lia. Qed.

(** Residues below [Q] on either side of zero. *)
Definition small (B a : Z) : Prop := - B <= a <= B.

End Residues.

Module ReduceFacts.
Export Residues.

Lemma i32_small a : - 2 ^ 31 <= a < 2 ^ 31 → i32 a = a.
Proof. intros H. by apply swrap_small. Qed.
Lemma i64_small a : - 2 ^ 63 <= a < 2 ^ 63 → i64 a = a.
Proof. intros H. by apply swrap_small. Qed.

(** The quotient estimate makes the low 32 bits vanish: the shift is exact. *)
Lemma montgomery_reduce_exact a :
  - 2 ^ 31 * Q <= a < 2 ^ 31 * Q →
  ∃ t, 2 ^ 32 * montgomery_reduce a = a - t * Q ∧ - 2 ^ 31 <= t < 2 ^ 31 ∧
       - Q < montgomery_reduce a < Q.
Proof.
  intros Ha. unfold montgomery_reduce. set (t := i32 (u64 (u64 a * QINV))).
  assert (- 2 ^ 31 <= t < 2 ^ 31) as Ht by (apply (swrap_range 32); lia).
  assert (t mod 2 ^ 32 = (a * QINV) mod 2 ^ 32) as Hm.
  { unfold t. rewrite swrap_mod by lia. unfold wrap. rewrite Zmult_mod_idemp_l.
    apply Z.mod_mod_divide. by exists (2 ^ 32). }
  rewrite (i64_small (t * Q)), (i64_small (a - t * Q)) by (unfold Q in *; lia).
  assert ((a - t * Q) mod 2 ^ 32 = 0) as Hd.
  { rewrite Zminus_mod, Zmult_mod, Hm, <- Zmult_mod, <- Zminus_mod.
    replace (a - a * QINV * Q) with (- (a * 114592) * 2 ^ 32)
      by (unfold QINV, Q; lia). apply Z_mod_mult. }
  rewrite Z.shiftr_div_pow2 by lia.
  pose proof (Z.div_exact (a - t * Q) (2 ^ 32)). exists t.
  rewrite i32_small by (unfold Q in *; lia). unfold Q in *. lia.
Qed.

Lemma montgomery_reduce_eqq a :
  - 2 ^ 31 * Q <= a < 2 ^ 31 * Q → 2 ^ 32 * montgomery_reduce a ≡q a.
Proof.
  intros Ha. destruct (montgomery_reduce_exact a Ha) as (t & -> & _ & _).
  apply eqq_iff. exists (- t). ring.
Qed.

Lemma montgomery_reduce_bound a :
  - 2 ^ 31 * Q <= a < 2 ^ 31 * Q → - Q < montgomery_reduce a < Q.
Proof. intros Ha. by destruct (montgomery_reduce_exact a Ha) as (t & _ & _ & ?). Qed.

(** The result is near [Q / 2] when the input is small. *)
Lemma montgomery_reduce_tight a :
  - 2 ^ 31 * Q <= a < 2 ^ 31 * Q → 2 ^ 32 * Z.abs (montgomery_reduce a) <= Z.abs a + 2 ^ 31 * Q.
Proof.
  intros Ha. destruct (montgomery_reduce_exact a Ha) as (t & E & Ht & _). unfold Q in *. lia.
Qed.

Lemma reduce32_spec a :
  - 2 ^ 31 <= a < 2 ^ 31 - 2 ^ 22 →
  reduce32 a ≡q a ∧ - 6283009 <= reduce32 a <= 6283008.
Proof.
  intros Ha. unfold reduce32. rewrite Z.shiftl_1_l, Z.shiftr_div_pow2 by lia.
  rewrite (i32_small (a + 2 ^ 22)) by lia. set (t := (a + 2 ^ 22) / 2 ^ 23).
  assert (2 ^ 23 * t <= a + 2 ^ 22 < 2 ^ 23 * t + 2 ^ 23) by (unfold t; zdm).
  unfold Q in *. rewrite (i32_small (t * _)), i32_small by lia.
  split; [|lia]. apply eqq_iff. exists (- t). unfold Q. lia.
Qed.

Lemma shiftr31 a : - 2 ^ 31 <= a < 2 ^ 31 → Z.shiftr a 31 = if a <? 0 then -1 else 0.
Proof. intros Ha. rewrite Z.shiftr_div_pow2 by lia. split_if; zdm. Qed.

Lemma caddq_eq a : - Q <= a < Q → caddq a = if a <? 0 then a + Q else a.
Proof.
  intros Ha. unfold caddq. rewrite shiftr31 by (unfold Q in *; lia).
  split_if; rewrite ?Z.land_m1_l, ?Z.land_0_l, ?Z.add_0_r, i32_small; unfold Q in *; lia.
Qed.

Lemma caddq_spec a : - Q < a < Q → caddq a = a mod Q.
Proof. intros Ha. rewrite caddq_eq by lia. unfold Q in *. split_if; zdm. Qed.

Lemma freeze_spec a : - 2 ^ 31 <= a < 2 ^ 31 - 2 ^ 22 → freeze a = a mod Q.
Proof.
  intros Ha. destruct (reduce32_spec a Ha) as [E B]. unfold freeze.
  rewrite caddq_spec; [exact E|unfold Q; lia].
Qed.

End ReduceFacts.

Module RoundingFacts.
Export ReduceFacts.

Lemma power2round_spec a :
  0 <= a < Q →
  let '(a1, a0) := power2round a in
  a = a1 * 2 ^ D + a0 ∧ 0 <= a1 < 2 ^ 10 ∧ - 2 ^ (D - 1) < a0 <= 2 ^ (D - 1).
Proof.
  intros Ha. unfold power2round, D. cbn zeta.
  rewrite Z.shiftl_1_l, Z.shiftr_div_pow2, Z.shiftl_mul_pow2 by lia.
  unfold Q in *. rewrite (i32_small (a + _ - _)) by lia.
  set (a1 := (a + 2 ^ (13 - 1) - 1) / 2 ^ 13).
  assert (2 ^ 13 * a1 <= a + 4095 < 2 ^ 13 * a1 + 2 ^ 13) by (unfold a1; zdm).
  rewrite !i32_small by (rewrite ?i32_small; lia). lia.
Qed.

(** [HighBits]: the multiple of [2 * GAMMA2] nearest to [a], ties down. *)
Definition high_mult (a : Z) : Z := (a + GAMMA2 - 1) / (2 * GAMMA2).

(** The multiply-and-shift estimate of [decompose], before the wrap at 44. *)
Definition high_estimate (a : Z) : Z := ((a + 127) / 128 * 11275 + 2 ^ 23) / 2 ^ 24.

Lemma high_estimate_mono a b : a <= b → high_estimate a <= high_estimate b.
Proof.
  intros H. unfold high_estimate. apply Z.div_le_mono; [lia|].
  assert ((a + 127) / 128 <= (b + 127) / 128) by (apply Z.div_le_mono; lia). lia.
Qed.

(** Both ends of each interval of constant [high_mult]. *)
Lemma high_estimate_ends e :
  0 <= e < 45 →
  high_estimate (Z.max 0 (e * (2 * GAMMA2) - GAMMA2 + 1)) = e ∧
  high_estimate (Z.min (Q - 1) (e * (2 * GAMMA2) + GAMMA2)) = e.
Proof.
  intros He.
  enough (((high_estimate (Z.max 0 (e * (2 * GAMMA2) - GAMMA2 + 1)) =? e) &&
           (high_estimate (Z.min (Q - 1) (e * (2 * GAMMA2) + GAMMA2)) =? e))%bool = true)
    by (to_prop; done).
  revert e He. apply (seqZ_forallb (fun e => _)). by vm_compute.
Qed.

Lemma high_estimate_spec a : 0 <= a < Q → high_estimate a = high_mult a.
Proof.
  intros Ha. set (e := high_mult a).
  assert (0 <= e < 45 ∧ e * (2 * GAMMA2) - GAMMA2 + 1 <= a <= e * (2 * GAMMA2) + GAMMA2)
    as [He Hr].
  { unfold e, high_mult. change GAMMA2 with 95232. unfold Q in *. zdm. }
  destruct (high_estimate_ends e He) as [H1 H2].
  pose proof (high_estimate_mono (Z.max 0 (e * (2 * GAMMA2) - GAMMA2 + 1)) a).
  pose proof (high_estimate_mono a (Z.min (Q - 1) (e * (2 * GAMMA2) + GAMMA2))). lia.
Qed.

Lemma decompose_eq a :
  0 <= a < Q →
  decompose a =
  (if high_mult a =? 44 then 0 else high_mult a,
   if high_mult a =? 44 then a - Q else a - high_mult a * (2 * GAMMA2)).
Proof.
  intros Ha.
  assert (0 <= high_mult a <= 44 ∧
          high_mult a * (2 * GAMMA2) - GAMMA2 + 1 <= a <= high_mult a * (2 * GAMMA2) + GAMMA2)
    as [He Hr].
  { unfold high_mult. change GAMMA2 with 95232. unfold Q in *. zdm. }
  unfold decompose. rewrite !Z.shiftl_1_l, (Z.shiftr_div_pow2 _ 7), (Z.shiftr_div_pow2 _ 24) by lia.
  assert (i32 (a + 127) = a + 127) as -> by (apply i32_small; unfold Q in *; lia).
  assert (0 <= (a + 127) / 2 ^ 7 < 65474) as Hc by (unfold Q in *; zdm).
  rewrite (i32_small (_ * 11275)), (i32_small (_ + 2 ^ 23)) by lia.
  change ((((a + 127) / 2 ^ 7) * 11275 + 2 ^ 23) / 2 ^ 24) with (high_estimate a).
  rewrite high_estimate_spec by done. set (e := high_mult a) in *.
  change ((Q - 1) / 2) with 4190208. change GAMMA2 with 95232 in *.
  rewrite (i32_small (43 - e)), (shiftr31 (43 - e)) by lia. unfold Q in *.
  destruct (Z.eqb_spec e 44) as [E|E].
  - rewrite E in *. split_if; [|lia].
    rewrite Z.land_m1_l, Z.lxor_nilpotent. change (i32 (i32 (0 * 2) * 95232)) with 0. rewrite (i32_small (a - 0)) by lia.
    rewrite (i32_small (4190208 - _)), shiftr31 by lia. split_if; [|lia].
    rewrite Z.land_m1_l, i32_small by lia. f_equal. lia.
  - split_if; [lia|]. rewrite Z.land_0_l, Z.lxor_0_r.
    rewrite (i32_small (e * 2)), (i32_small (e * 2 * _)), (i32_small (a - _)) by lia.
    rewrite (i32_small (4190208 - _)), shiftr31 by lia. split_if; [lia|].
    rewrite Z.land_0_l, i32_small by lia. f_equal; lia.
Qed.

Lemma decompose_spec a :
  0 <= a < Q →
  let '(a1, a0) := decompose a in
  0 <= a1 < 44 ∧ a ≡q a1 * (2 * GAMMA2) + a0 ∧ - GAMMA2 <= a0 <= GAMMA2 ∧
  (a0 = - GAMMA2 → a1 = 0).
Proof.
  intros Ha. rewrite decompose_eq by done. unfold high_mult.
  change GAMMA2 with 95232. destruct (Z.eqb_spec ((a + 95232 - 1) / (2 * 95232)) 44) as [E|E].
  - split; [lia|]. split; [apply eqq_iff; exists 1; unfold Q; lia|]. unfold Q in *. zdm.
  - split; [unfold Q in *; zdm|]. split; [apply eqq_iff; exists 0; lia|]. unfold Q in *. zdm.
Qed.

(** [v] is [w1 * 2 * GAMMA2 + v0] up to a multiple of [Q], with a low part that
    may have left its range by less than one interval: the hint brings back
    [w1]. *)
Lemma use_hint_make_hint w1 v0 v :
  0 <= w1 < 44 → - 2 * GAMMA2 < v0 < 2 * GAMMA2 → 0 <= v < Q →
  v ≡q w1 * (2 * GAMMA2) + v0 →
  use_hint v (make_hint v0 w1) = w1.
Proof.
  intros Hw Hv0 Hv E. apply eqq_iff in E as [k E].
  unfold use_hint. rewrite decompose_eq by done. unfold high_mult, make_hint.
  change GAMMA2 with 95232 in *. unfold Q in *.
  assert (k = 0 ∨ k = 1 ∨ k = -1) as Hk by lia.
  set (e := (v + 95232 - 1) / (2 * 95232)).
  assert (e * (2 * 95232) - 95232 + 1 <= v <= e * (2 * 95232) + 95232) by (unfold e; zdm).
  assert (0 <= e <= 44) by lia.
  clearbody e.
  destruct ((v0 >? 95232) || (v0 <? -95232) || ((v0 =? -95232) && negb (w1 =? 0))) eqn:Eh;
    cbn -[Z.mul Z.add Z.sub Z.eqb Z.gtb swrap];
    destruct (Z.eqb_spec e 44); repeat (split_if; rewrite ?i32_small by lia); lia.
Qed.

End RoundingFacts.

Module MldsaArithProps.
Import RoundingFacts.

(** [montgomery_reduce] divides by [2^32] modulo [Q] without overflow:
    for [-2^31 Q <= a < 2^31 Q] the result [r] lies strictly between [-Q] and
    [Q] and [2^32 r] is congruent to [a]; [reduce32] keeps the residue and
    returns a value of absolute value at most 6283009; [freeze] returns the
    standard representative. *)
Theorem reductions_correct (a b : Z) :
  - 2 ^ 31 * Q <= a < 2 ^ 31 * Q → - 2 ^ 31 <= b < 2 ^ 31 - 2 ^ 22 →
  ((2 ^ 32 * montgomery_reduce a) mod Q = a mod Q ∧ - Q < montgomery_reduce a < Q) ∧
  (reduce32 b mod Q = b mod Q ∧ - 6283009 <= reduce32 b <= 6283008) ∧
  freeze b = b mod Q.
Proof.
  intros Ha Hb. split_and!; [apply montgomery_reduce_eqq|..|apply freeze_spec]; try done;
    try apply montgomery_reduce_bound; try done; by apply reduce32_spec.
Qed.

Lemma reductions_correct_witness :
  - 2 ^ 31 * Q <= - 2 ^ 31 * Q < 2 ^ 31 * Q ∧ reduce32 (- 2143289344) = - 6283009 ∧
  - Q < montgomery_reduce (- 2 ^ 31 * Q) < Q ∧ freeze (-1) = Q - 1.
Proof.
  split; [unfold Q; lia|]. split; [by vm_compute|].
  destruct (reductions_correct (- 2 ^ 31 * Q) (-1)) as ([_ H] & _ & E); [unfold Q; lia|lia|].
  by rewrite E.
Defined.

(** The documented ranges are each off by one at the far end. *)
Lemma montgomery_reduce_end : montgomery_reduce (2 ^ 31 * Q) = Q.
Proof. by vm_compute. Qed.
Lemma reduce32_end : reduce32 (- 2143289344) = - 6283009.
Proof. by vm_compute. Qed.

(** A hint recovers the high bits.  [decompose] splits a residue [w] into
    [w1] and [w0]; if [v] is [w] changed by [e] and the low part [w0 + e] has
    left its interval by less than one interval width, [use_hint] on [v] with
    the hint made from [w0 + e] returns [w1] again. *)
Theorem hint_recovers_high_bits (w v e : Z) :
  0 <= w < Q → 0 <= v < Q → v mod Q = (w + e) mod Q →
  - (2 * GAMMA2) < (decompose w).2 + e < 2 * GAMMA2 →
  use_hint v (make_hint ((decompose w).2 + e) (decompose w).1) = (decompose w).1 ∧
  0 <= (decompose w).1 < 44.
Proof.
  intros Hw Hv E He. pose proof (decompose_spec w Hw) as Hd.
  destruct (decompose w) as [w1 w0]; cbn [fst snd] in *. destruct Hd as (H1 & H2 & _).
  split; [|done]. apply use_hint_make_hint; [done|lia|done|].
  fold (v ≡q w + e) in E. by rewrite E, H2, Z.add_assoc.
Qed.

Lemma hint_recovers_high_bits_witness :
  (decompose 95000).1 = 0 ∧ (decompose 105000).1 = 1 ∧
  use_hint 105000 (make_hint (95000 + 10000) 0) = 0.
Proof.
  split; [done|]. split; [done|].
  by apply (hint_recovers_high_bits 95000 105000 10000).
Defined.

End MldsaArithProps.
