(* ===== verification/MldsaNtt.v ===== *)
(** * ML-DSA-44: the number-theoretic transform

    The loops of [ntt.c] over the array are related layer by layer to maps on
    functions from indices to integers; these are linear, inverse to each other
    up to a factor, and evaluate the polynomial at the 256 roots of [X^256 + 1]
    modulo [Q].  Multiplying in the transformed domain is therefore
    multiplication modulo [X^256 + 1], and no coefficient overflows. *)
From S2P Require Import Prelude Fips202 MldsaPoly MldsaArith.
From Stdlib Require Import Setoid Morphisms ZifyNat.

Module LoopFacts.
Export Ntt RoundingFacts.

Lemma block_index len b i :
  (0 < len)%nat → (b * (2 * len) <= i < S b * (2 * len))%nat →
  (i / (2 * len) = b ∧ i mod (2 * len) = i - b * (2 * len))%nat.
Proof.
  intros Hl Hi. assert (i / (2 * len) = b)%nat as E.
  { symmetry. apply (Nat.div_unique _ _ _ (i - b * (2 * len))); nia. }
  split; [done|]. rewrite Nat.Div0.mod_eq, E. nia.
Qed.

(** ** A layer of butterflies, for either direction *)
Section Layer.
Context (step : Z → nat → poly → nat → poly) (lo hi : Z → Z → Z → Z).
Context (step_length : ∀ z len a j, length (step z len a j) = length a).
Context (step_lookup : ∀ z len a j i, (0 < len)%nat → (j + len < length a)%nat →
  step z len a j !!! i =
  if decide (i = j) then lo z (a !!! j) (a !!! (j + len)%nat)
  else if decide (i = j + len)%nat then hi z (a !!! j) (a !!! (j + len)%nat) else a !!! i).
Context (next : nat → nat) (zeta : nat → Z).

Lemma inner_length z len a l : length (foldl (step z len) a l) = length a.
Proof. revert a. induction l as [|j l IH]; intros a; cbn; [done|]. by rewrite IH. Qed.

Lemma inner_lookup z len a start n i :
  (0 < len)%nat → (n <= len)%nat → (start + 2 * len <= length a)%nat →
  foldl (step z len) a (seq start n) !!! i =
  if decide (start <= i < start + n)%nat then lo z (a !!! i) (a !!! (i + len)%nat)
  else if decide (start + len <= i < start + len + n)%nat then hi z (a !!! (i - len)%nat) (a !!! i)
  else a !!! i.
Proof.
  intros Hl Hn Ha. revert i. induction n as [|n IH]; intros i.
  { cbn. repeat case_decide; (done || lia). }
  rewrite seq_S, foldl_app. cbn [foldl].
  rewrite step_lookup by (rewrite ?inner_length; lia). rewrite !IH by lia.
  repeat case_decide; try lia; try done; subst; (done || (repeat f_equal; lia)).
Qed.

Definition layer (len m : nat) (s : nat * poly) : nat * poly :=
  foldl (fun '(k, a) start =>
           (next k, foldl (step (zeta (next k)) len) a (seq start len)))
        s ((fun b => b * (2 * len))%nat <$> seq 0 m).

(** The value of the layer at [i]; block [b] uses the [b + 1]st root. *)
Definition layer_value (len k : nat) (a : poly) (i : nat) : Z :=
  let z := zeta (Nat.iter (S (i / (2 * len))) next k) in
  if Nat.ltb (i mod (2 * len)) len then lo z (a !!! i) (a !!! (i + len)%nat)
  else hi z (a !!! (i - len)%nat) (a !!! i).

Lemma layer_spec len m k a :
  (0 < len)%nat → (m * (2 * len) <= length a)%nat →
  (layer len m (k, a)).1 = Nat.iter m next k ∧
  length (layer len m (k, a)).2 = length a ∧
  ∀ i, (layer len m (k, a)).2 !!! i =
    if decide (i < m * (2 * len))%nat then layer_value len k a i else a !!! i.
Proof.
  intros Hl. induction m as [|m IH]; intros Hm.
  { cbn. split_and!; [done..|]. intros i. case_decide; [lia|done]. }
  destruct IH as (E1 & E2 & E3); [lia|]. unfold layer in *.
  rewrite seq_S, fmap_app, foldl_app. cbn [fmap list_fmap foldl Nat.add].
  match goal with H : context [foldl ?f (k, a) ?l] |- _ =>
    destruct (foldl f (k, a) l) as [k' a'] end. cbn [fst snd] in *. subst k'.
  split_and!; [done|by rewrite inner_length|]. intros i.
  rewrite inner_lookup by lia. rewrite !E3.
  destruct (decide (i < m * (2 * len))%nat) as [Hi|Hi].
  - repeat case_decide; (lia || done).
  - destruct (decide (i < S m * (2 * len))%nat) as [Hi'|Hi'].
    + destruct (block_index len m i) as [Eb Eo]; [done|lia|]. unfold layer_value.
      rewrite Eb, Eo. destruct (Nat.ltb_spec (i - m * (2 * len)) len);
        repeat case_decide; (lia || done).
    + repeat case_decide; (lia || done).
Qed.
End Layer.

(** ** The two butterflies *)

Definition ntt_lo (z x y : Z) : Z := i32 (x + montgomery_reduce (i64 (z * y))).
Definition ntt_hi (z x y : Z) : Z := i32 (x - montgomery_reduce (i64 (z * y))).
Definition inv_lo (z x y : Z) : Z := i32 (x + y).
Definition inv_hi (z x y : Z) : Z := montgomery_reduce (i64 (z * i32 (x - y))).

Lemma ntt_butterfly_length z len a j : length (ntt_butterfly z len a j) = length a.
Proof. unfold ntt_butterfly. cbn zeta. by rewrite !length_insert. Qed.
Lemma invntt_butterfly_length z len a j : length (invntt_butterfly z len a j) = length a.
Proof. unfold invntt_butterfly. cbn zeta. by rewrite !length_insert. Qed.

Lemma lookup_total_insert_Z (l : list Z) i j x :
  (i < length l)%nat → <[i := x]> l !!! j = if decide (j = i) then x else l !!! j.
Proof.
  intros Hi. case_decide as E; [subst; by apply list_lookup_total_insert_eq|].
  by apply list_lookup_total_insert_ne.
Qed.

Lemma lookup_total_map (g : Z → Z) (l : list Z) i :
  (i < length l)%nat → (g <$> l) !!! i = g (l !!! i).
Proof.
  intros Hi. rewrite !list_lookup_total_alt, list_lookup_fmap.
  by destruct (lookup_lt_is_Some_2 l i Hi) as [x ->].
Qed.

Lemma ntt_butterfly_lookup z len a j i :
  (0 < len)%nat → (j + len < length a)%nat →
  ntt_butterfly z len a j !!! i =
  if decide (i = j) then ntt_lo z (a !!! j) (a !!! (j + len)%nat)
  else if decide (i = j + len)%nat then ntt_hi z (a !!! j) (a !!! (j + len)%nat) else a !!! i.
Proof.
  intros Hl Hj. unfold ntt_butterfly. cbn zeta.
  rewrite !lookup_total_insert_Z by (rewrite ?length_insert; lia).
  repeat case_decide; (lia || done).
Qed.

Lemma invntt_butterfly_lookup z len a j i :
  (0 < len)%nat → (j + len < length a)%nat →
  invntt_butterfly z len a j !!! i =
  if decide (i = j) then inv_lo z (a !!! j) (a !!! (j + len)%nat)
  else if decide (i = j + len)%nat then inv_hi z (a !!! j) (a !!! (j + len)%nat) else a !!! i.
Proof.
  intros Hl Hj. unfold invntt_butterfly. cbn zeta.
  rewrite !lookup_total_insert_Z by (rewrite ?length_insert; lia).
  repeat case_decide; (lia || done).
Qed.

End LoopFacts.

(** ** The transforms as maps on index functions *)
Module Transform.
Export LoopFacts.

(** [2^(-32)] modulo [Q] takes the table out of Montgomery form. *)
Definition Rinv : Z := 8265825.
Definition gamma (k : nat) : Z := (zetas !!! k) * Rinv mod Q.
(** Node of block [b] in the layer of length [len], and its mirror image. *)
Definition node (len i : nat) : nat := 128 / len + i / (2 * len).
Definition mirror (len i : nat) : nat := 256 / len - 1 - i / (2 * len).

Definition fwd (len : nat) (f : nat → Z) (i : nat) : Z :=
  if Nat.ltb (i mod (2 * len)) len then f i + gamma (node len i) * f (i + len)%nat
  else f (i - len)%nat - gamma (node len i) * f i.
Definition inv (len : nat) (f : nat → Z) (i : nat) : Z :=
  if Nat.ltb (i mod (2 * len)) len then f i + f (i + len)%nat
  else - gamma (mirror len i) * (f (i - len)%nat - f i).

Definition NTT (f : nat → Z) : nat → Z := foldl (fun f len => fwd len f) f ntt_lens.
Definition INTT (f : nat → Z) : nat → Z := foldl (fun f len => inv len f) f invntt_lens.

(** Congruence of the 256 coefficients. *)
Definition feq (f g : nat → Z) : Prop := ∀ i, (i < 256)%nat → f i ≡q g i.
Infix "≈" := feq (at level 70).

#[export] Instance feq_equivalence : Equivalence feq.
Proof.
  split.
  - by intros f i _.
  - intros f g H i Hi. by rewrite (H i Hi).
  - intros f g h H1 H2 i Hi. by rewrite (H1 i Hi), (H2 i Hi).
Qed.

(** Lengths that divide the index range into pairs of halves. *)
Definition layer_len (len : nat) : Prop := len ∈ ntt_lens.

Ltac each_len H :=
  unfold layer_len, ntt_lens in H; repeat (apply elem_of_cons in H as [->|H]); [..|by apply elem_of_nil in H].

(** Index facts within a block. *)
Lemma lower_half len i :
  layer_len len → (i < 256)%nat → (i mod (2 * len) < len)%nat →
  (i + len < 256 ∧ (i + len) / (2 * len) = i / (2 * len) ∧
   len <= (i + len) mod (2 * len))%nat.
Proof. intros H Hi Ho. each_len H; zify; Z.div_mod_to_equations; lia. Qed.
Lemma upper_half len i :
  layer_len len → (i < 256)%nat → (len <= i mod (2 * len))%nat →
  (len <= i ∧ (i - len) / (2 * len) = i / (2 * len) ∧
   (i - len) mod (2 * len) < len)%nat.
Proof. intros H Hi Ho. each_len H; zify; Z.div_mod_to_equations; lia. Qed.

Lemma fwd_proper len f g : layer_len len → f ≈ g → fwd len f ≈ fwd len g.
Proof.
  intros Hl H i Hi. unfold fwd. destruct (Nat.ltb_spec (i mod (2 * len)) len).
  - destruct (lower_half len i) as [? _]; try done. by rewrite (H i), (H (i + len)%nat).
  - by rewrite (H i), (H (i - len)%nat) by lia.
Qed.
Lemma inv_proper len f g : layer_len len → f ≈ g → inv len f ≈ inv len g.
Proof.
  intros Hl H i Hi. unfold inv. destruct (Nat.ltb_spec (i mod (2 * len)) len).
  - destruct (lower_half len i) as [? _]; try done. by rewrite (H i), (H (i + len)%nat).
  - by rewrite (H i), (H (i - len)%nat) by lia.
Qed.

(** The mirrored root is minus the inverse: all 255 products. *)
Lemma gamma_mirror len i :
  layer_len len → (i < 256)%nat → - gamma (mirror len i) * gamma (node len i) ≡q 1.
Proof.
  intros Hl Hi.
  assert (forallb (fun len => forallb (fun i =>
    (- gamma (mirror len i) * gamma (node len i)) mod Q =? 1) (seq 0 256)) ntt_lens = true) as E
    by (by vm_compute).
  rewrite forallb_forall in E. specialize (E len). rewrite <- list_elem_of_In in E.
  specialize (E Hl). rewrite forallb_forall in E. specialize (E i). rewrite <- list_elem_of_In in E.
  apply Z.eqb_eq, E, elem_of_seq. lia.
Qed.

Lemma inv_fwd len f : layer_len len → inv len (fwd len f) ≈ (fun i => 2 * f i).
Proof.
  intros Hl i Hi. unfold inv, fwd. destruct (Nat.ltb_spec (i mod (2 * len)) len) as [Ho|Ho].
  - destruct (lower_half len i) as (Hi' & E & Ho'); try done.
    destruct (Nat.ltb_spec ((i + len) mod (2 * len)) len); [lia|].
    unfold node. rewrite E, Nat.add_sub. by replace (_ + _) with (2 * f i) by ring.
  - destruct (upper_half len i) as (Hi' & E & Ho'); try done.
    destruct (Nat.ltb_spec ((i - len) mod (2 * len)) len); [|lia].
    pose proof (gamma_mirror len i Hl Hi) as Hg. unfold node in *. rewrite E.
    replace (i - len + len)%nat with i by lia.
    set (g := gamma (_ + _)%nat) in *. set (m := - gamma _) in *.
    replace (m * _) with (m * g * (2 * f i)) by ring. by rewrite Hg, Z.mul_1_l.
Qed.

Lemma fwd_inv len f : layer_len len → fwd len (inv len f) ≈ (fun i => 2 * f i).
Proof.
  intros Hl i Hi. pose proof (gamma_mirror len i Hl Hi) as Hg. unfold inv, fwd.
  destruct (Nat.ltb_spec (i mod (2 * len)) len) as [Ho|Ho].
  - destruct (lower_half len i) as (Hi' & E & Ho'); try done.
    destruct (Nat.ltb_spec ((i + len) mod (2 * len)) len); [lia|].
    unfold mirror in *. rewrite E, Nat.add_sub.
    set (g := gamma (node _ _)) in *. set (m := - gamma _) in *.
    replace (g * _) with (m * g * (f i - f (i + len)%nat)) by ring.
    rewrite Hg. by replace (_ + _) with (2 * f i) by ring.
  - destruct (upper_half len i) as (Hi' & E & Ho'); try done.
    destruct (Nat.ltb_spec ((i - len) mod (2 * len)) len); [|lia].
    replace (i - len + len)%nat with i by lia.
    set (g := gamma (node _ _)) in *. set (m := - gamma _) in *.
    replace (g * _) with (m * g * (f (i - len)%nat - f i)) by ring.
    rewrite Hg. by replace (_ - _) with (2 * f i) by ring.
Qed.

(** Both are linear. *)
Lemma fwd_linear len f g a b i :
  fwd len (fun i => a * f i + b * g i) i = a * fwd len f i + b * fwd len g i.
Proof. unfold fwd. destruct (Nat.ltb _ _); ring. Qed.
Lemma inv_linear len f g a b i :
  inv len (fun i => a * f i + b * g i) i = a * inv len f i + b * inv len g i.
Proof. unfold inv. destruct (Nat.ltb _ _); ring. Qed.

(** ** Composition of layers *)
Section Layers.
Context (T : nat → (nat → Z) → nat → Z).
Context (T_proper : ∀ len f g, layer_len len → f ≈ g → T len f ≈ T len g).
Context (T_linear : ∀ len f g a b i,
  T len (fun i => a * f i + b * g i) i = a * T len f i + b * T len g i).

Definition layers (f : nat → Z) (l : list nat) : nat → Z := foldl (fun f len => T len f) f l.

Lemma layers_proper l f g : Forall layer_len l → f ≈ g → layers f l ≈ layers g l.
Proof. intros H. revert f g. induction H as [|len l Hl H IH]; intros f g Hf; cbn; auto. Qed.

Lemma layers_linear l f g a b :
  Forall layer_len l →
  layers (fun i => a * f i + b * g i) l ≈ (fun i => a * layers f l i + b * layers g l i).
Proof.
  intros H. revert f g. induction H as [|len l Hl H IH]; intros f g; cbn; [done|].
  rewrite <- IH. apply layers_proper; [done|]. intros i Hi. by rewrite T_linear.
Qed.

Lemma layers_scale l f c : Forall layer_len l → layers (fun i => c * f i) l ≈ (fun i => c * layers f l i).
Proof.
  intros H. transitivity (layers (fun i => c * f i + 0 * f i) l).
  { apply layers_proper; [done|]. intros i Hi. by rewrite Z.mul_0_l, Z.add_0_r. }
  rewrite layers_linear by done. intros i Hi. by rewrite Z.mul_0_l, Z.add_0_r.
Qed.
End Layers.

(** Undoing the layers in the opposite order. *)
Lemma layers_undo T U l f :
  (∀ len f g, layer_len len → f ≈ g → U len f ≈ U len g) →
  (∀ len f g a b i, U len (fun i => a * f i + b * g i) i = a * U len f i + b * U len g i) →
  (∀ len f, layer_len len → U len (T len f) ≈ (fun i => 2 * f i)) →
  Forall layer_len l →
  layers U (layers T f l) (rev l) ≈ (fun i => 2 ^ Z.of_nat (length l) * f i).
Proof.
  intros HU HL HI. induction l as [|len l IH] using rev_ind; intros H.
  { intros i Hi. cbn. by rewrite Z.mul_1_l. }
  apply Forall_app in H as [H Hl]. rewrite list.Forall_singleton in Hl.
  unfold layers at 2. rewrite foldl_app, rev_app_distr. cbn [foldl rev app].
  fold (layers T f l). unfold layers at 1. cbn [foldl]. fold (layers U (U len (T len (layers T f l))) (rev l)).
  assert (Forall layer_len (rev l)) as Hr by (by apply Forall_rev).
  rewrite (layers_proper U HU (rev l) _ _ Hr (HI len _ Hl)), layers_scale by done.
  intros i Hi. rewrite (IH H i Hi). rewrite length_app, Nat2Z.inj_add, Z.pow_add_r by lia.
  cbn [length]. change (2 ^ Z.of_nat 1) with 2. by replace (2 * _) with (2 ^ Z.of_nat (length l) * 2 * f i) by ring.
Qed.

Lemma ntt_lens_ok : Forall layer_len ntt_lens.
Proof. apply list.Forall_forall. done. Qed.
Lemma invntt_lens_ok : Forall layer_len invntt_lens.
Proof. change invntt_lens with (rev ntt_lens). apply Forall_rev, ntt_lens_ok. Qed.

#[export] Instance NTT_proper : Proper (feq ==> feq) NTT.
Proof. intros f g H. apply (layers_proper fwd fwd_proper); [apply ntt_lens_ok|done]. Qed.
#[export] Instance INTT_proper : Proper (feq ==> feq) INTT.
Proof. intros f g H. apply (layers_proper inv inv_proper); [apply invntt_lens_ok|done]. Qed.

Lemma NTT_linear f g a b : NTT (fun i => a * f i + b * g i) ≈ (fun i => a * NTT f i + b * NTT g i).
Proof. apply (layers_linear fwd fwd_proper fwd_linear), ntt_lens_ok. Qed.
Lemma INTT_linear f g a b : INTT (fun i => a * f i + b * g i) ≈ (fun i => a * INTT f i + b * INTT g i).
Proof. apply (layers_linear inv inv_proper inv_linear), invntt_lens_ok. Qed.

Lemma INTT_NTT f : INTT (NTT f) ≈ (fun i => 256 * f i).
Proof. apply (layers_undo fwd inv ntt_lens); eauto using inv_proper, inv_linear, inv_fwd, ntt_lens_ok. Qed.
Lemma NTT_INTT f : NTT (INTT f) ≈ (fun i => 256 * f i).
Proof. apply (layers_undo inv fwd invntt_lens); eauto using fwd_proper, fwd_linear, fwd_inv, invntt_lens_ok. Qed.

(** The transform is injective. *)
Lemma NTT_inj f g : NTT f ≈ NTT g → f ≈ g.
Proof.
  intros H i Hi. assert (256 * f i ≡q 256 * g i) as E.
  { rewrite <- (INTT_NTT f i Hi), <- (INTT_NTT g i Hi). by apply INTT_proper. }
  assert (8347681 * (256 * f i) ≡q 8347681 * (256 * g i)) as E' by (by rewrite E).
  rewrite !Z.mul_assoc in E'. by change (8347681 * 256) with (1 + 255 * Q) in E'; revert E';
    rewrite (eqq_multiple 1 255), !Z.mul_1_l.
Qed.

End Transform.

(** ** The loops compute the maps *)
Module NttFacts.
Export Transform.

Lemma zetas_bound k : - 4190208 <= zetas !!! k <= 4190208.
Proof.
  destruct (decide (k < 256)%nat) as [Hk|Hk].
  - assert (forallb (fun z => (-4190208 <=? z) && (z <=? 4190208)) zetas = true) as E by (by vm_compute).
    rewrite forallb_forall in E. specialize (E (zetas !!! k)). rewrite <- list_elem_of_In in E.
    assert ((-4190208 <=? zetas !!! k) && (zetas !!! k <=? 4190208) = true); [|lia].
    apply E, list_elem_of_lookup_total. eauto.
  - rewrite list_lookup_total_alt, lookup_ge_None_2; [cbn; lia|]. cbn. lia.
Qed.

Lemma gamma_zeta k : 2 ^ 32 * gamma k ≡q zetas !!! k.
Proof.
  unfold gamma. set (z := zetas !!! k). unfold eqq. rewrite Zmult_mod_idemp_r.
  apply eqq_iff. exists (z * 4236238847). unfold Rinv, Q. lia.
Qed.

(** A product with a table entry, reduced. *)
Lemma montgomery_zeta z k y :
  z = zetas !!! k ∨ z = - (zetas !!! k) → - 2 ^ 31 <= y < 2 ^ 31 →
  montgomery_reduce (i64 (z * y)) ≡q (if decide (z = zetas !!! k) then gamma k else - gamma k) * y ∧
  - Q < montgomery_reduce (i64 (z * y)) < Q.
Proof.
  intros Hz Hy. pose proof (zetas_bound k).
  assert (- 2 ^ 31 * Q <= z * y < 2 ^ 31 * Q) as Hb by (unfold Q in *; nia).
  rewrite i64_small by (unfold Q in *; lia).
  split; [|by apply montgomery_reduce_bound]. apply eqq_cancel.
  rewrite montgomery_reduce_eqq, Z.mul_assoc by done.
  case_decide as E; [by rewrite gamma_zeta, E|]. destruct Hz as [?|Hz]; [done|].
  rewrite Z.mul_opp_r, gamma_zeta. by rewrite Hz.
Qed.

Lemma iter_S m k : Nat.iter m S k = (k + m)%nat.
Proof. induction m as [|m IH]; [cbn; lia|]. rewrite Nat.iter_succ, IH. lia. Qed.
Lemma iter_pred m k : Nat.iter m (fun k => k - 1)%nat k = (k - m)%nat.
Proof. induction m as [|m IH]; [cbn; lia|]. rewrite Nat.iter_succ, IH. lia. Qed.

Lemma layer_count len : layer_len len → (0 < len ∧ N / (2 * len) * (2 * len) = 256 ∧
  1 <= 128 / len ∧ N / (2 * len) = 128 / len ∧ 256 / len = 2 * (128 / len))%nat.
Proof. intros H. each_len H; cbn; lia. Qed.

(** Bounds and residues of an array. *)
Definition represents (B : Z) (a : poly) (f : nat → Z) : Prop :=
  length a = 256%nat ∧ (∀ i, - B <= a !!! i <= B) ∧ (fun i => a !!! i) ≈ f.

Lemma ntt_layer_spec len a f B :
  layer_len len → represents B a f → B + Q <= 2 ^ 31 →
  (ntt_layer ((128 / len - 1)%nat, a) len).1 = (256 / len - 1)%nat ∧
  represents (B + Q) (ntt_layer ((128 / len - 1)%nat, a) len).2 (fwd len f).
Proof.
  intros Hlen (Hl & HB & Hf) Hmax. destruct (layer_count len Hlen) as (H0 & H1 & H2 & H3 & H4).
  destruct (layer_spec ntt_butterfly ntt_lo ntt_hi ntt_butterfly_length ntt_butterfly_lookup
    S (fun k => zetas !!! k) len (N / (2 * len)) (128 / len - 1) a) as (E1 & E2 & E3); [done|lia|].
  unfold layer in *. fold (starts len) in *. fold (ntt_layer ((128 / len - 1)%nat, a) len) in *.
  split; [rewrite E1, iter_S; lia|].
  assert (∀ k y, - 2 ^ 31 <= y < 2 ^ 31 →
    montgomery_reduce (i64 ((zetas !!! k) * y)) ≡q gamma k * y ∧
    - Q < montgomery_reduce (i64 ((zetas !!! k) * y)) < Q) as Hmont.
  { intros k y Hy. destruct (montgomery_zeta (zetas !!! k) k y) as [E ?]; [by left|done|].
    by rewrite decide_True in E by done. }
  assert (∀ i, let v := (ntt_layer ((128 / len - 1)%nat, a) len).2 !!! i in
    - (B + Q) <= v <= B + Q ∧ ((i < 256)%nat → v ≡q fwd len (fun i => a !!! i) i)) as Hv.
  { intros i v. unfold v. rewrite E3, H1. case_decide as Hi; [|specialize (HB i); split; [unfold Q; lia|lia]].
    unfold layer_value, fwd, node, ntt_lo, ntt_hi. rewrite iter_S.
    replace (128 / len - 1 + S (i / (2 * len)))%nat with (128 / len + i / (2 * len))%nat by lia.
    destruct (Nat.ltb _ _).
    - destruct (Hmont (128 / len + i / (2 * len))%nat (a !!! (i + len)%nat)) as [E ?];
        [specialize (HB (i + len)%nat); unfold Q in *; lia|].
      specialize (HB i). rewrite i32_small by lia. split; [lia|]. by rewrite E.
    - destruct (Hmont (128 / len + i / (2 * len))%nat (a !!! i)) as [E ?];
        [specialize (HB i); unfold Q in *; lia|].
      specialize (HB (i - len)%nat). rewrite i32_small by lia. split; [lia|]. by rewrite E. }
  split_and!; [by rewrite E2|apply Hv|].
  transitivity (fwd len (fun i => a !!! i)); [|by apply fwd_proper].
  intros i Hi. by apply Hv.
Qed.

Lemma invntt_layer_spec len a f B :
  layer_len len → represents B a f → Q <= B → 2 * B < 2 ^ 31 →
  (invntt_layer ((256 / len)%nat, a) len).1 = (128 / len)%nat ∧
  represents (2 * B) (invntt_layer ((256 / len)%nat, a) len).2 (inv len f).
Proof.
  intros Hlen (Hl & HB & Hf) HQ Hmax. destruct (layer_count len Hlen) as (H0 & H1 & H2 & H3 & H4).
  destruct (layer_spec invntt_butterfly inv_lo inv_hi invntt_butterfly_length invntt_butterfly_lookup
    (fun k => k - 1)%nat (fun k => i32 (- (zetas !!! k))) len (N / (2 * len)) (256 / len) a)
    as (E1 & E2 & E3); [done|lia|].
  unfold layer in *. fold (starts len) in *. fold (invntt_layer ((256 / len)%nat, a) len) in *.
  split; [rewrite E1, iter_pred; lia|].
  assert (∀ k y, - 2 ^ 31 <= y < 2 ^ 31 →
    montgomery_reduce (i64 (i32 (- (zetas !!! k)) * y)) ≡q - gamma k * y ∧
    - Q < montgomery_reduce (i64 (i32 (- (zetas !!! k)) * y)) < Q) as Hmont.
  { intros k y Hy. pose proof (zetas_bound k). rewrite i32_small by lia.
    destruct (montgomery_zeta (- (zetas !!! k)) k y) as [E ?]; [by right|done|].
    split; [|done]. case_decide as Ez; [|done]. assert (zetas !!! k = 0) as E0 by lia.
    assert (gamma k = 0) as Eg by (unfold gamma; by rewrite E0). by rewrite E, Eg. }
  assert (∀ i, let v := (invntt_layer ((256 / len)%nat, a) len).2 !!! i in
    - (2 * B) <= v <= 2 * B ∧ ((i < 256)%nat → v ≡q inv len (fun i => a !!! i) i)) as Hv.
  { intros i v. unfold v. rewrite E3, H1. case_decide as Hi; [|specialize (HB i); split; lia].
    unfold layer_value, inv, mirror, inv_lo, inv_hi. rewrite iter_pred.
    replace (256 / len - S (i / (2 * len)))%nat with (256 / len - 1 - i / (2 * len))%nat by lia.
    destruct (Nat.ltb _ _).
    - pose proof (HB i). pose proof (HB (i + len)%nat). rewrite i32_small by lia. split; [lia|done].
    - pose proof (HB i). pose proof (HB (i - len)%nat). rewrite (i32_small (_ - _)) by lia.
      destruct (Hmont (256 / len - 1 - i / (2 * len))%nat ((a !!! (i - len)%nat) - (a !!! i)))
        as [E ?]; [lia|]. split; [lia|done]. }
  split_and!; [by rewrite E2|apply Hv|].
  transitivity (inv len (fun i => a !!! i)); [|by apply inv_proper].
  intros i Hi. by apply Hv.
Qed.

(** Runs of layers: each length starts where the index [k] has arrived. *)
Fixpoint chained (start after : nat → nat) (lens : list nat) : Prop :=
  match lens with
  | [] => True
  | len :: rest =>
      layer_len len ∧ match rest with [] => True | len' :: _ => start len' = after len end ∧
      chained start after rest
  end.

Definition ntt_chain := chained (fun len => 128 / len - 1)%nat (fun len => 256 / len - 1)%nat.
Definition invntt_chain := chained (fun len => 256 / len)%nat (fun len => 128 / len)%nat.

Lemma ntt_layers_spec lens a f B k :
  ntt_chain lens → (∀ len rest, lens = len :: rest → k = (128 / len - 1)%nat) →
  represents B a f → B + Z.of_nat (length lens) * Q <= 2 ^ 31 →
  represents (B + Z.of_nat (length lens) * Q) (foldl ntt_layer (k, a) lens).2
    (foldl (fun f len => fwd len f) f lens).
Proof.
  revert a f B k. induction lens as [|len lens IH]; intros a f B k Hc Hk H HB.
  { cbn. by rewrite Z.add_0_r. }
  destruct Hc as (Hlen & Hn & Hc). rewrite (Hk len lens eq_refl). cbn [foldl].
  assert (0 < Q) by done.
  destruct (ntt_layer_spec len a f B) as [E H']; [done..|cbn [length] in HB; lia|].
  destruct (ntt_layer _ len) as [k' a']. cbn [fst snd] in *. subst k'.
  replace (B + Z.of_nat (length (len :: lens)) * Q) with (B + Q + Z.of_nat (length lens) * Q)
    in * by (cbn [length]; lia).
  apply IH; [done| |done|done]. intros len' rest ->. by symmetry.
Qed.

Lemma invntt_layers_spec lens a f B k :
  invntt_chain lens → (∀ len rest, lens = len :: rest → k = (256 / len)%nat) →
  represents B a f → Q <= B → 2 ^ Z.of_nat (length lens) * B < 2 ^ 31 →
  represents (2 ^ Z.of_nat (length lens) * B) (foldl invntt_layer (k, a) lens).2
    (foldl (fun f len => inv len f) f lens).
Proof.
  revert a f B k. induction lens as [|len lens IH]; intros a f B k Hc Hk H HQ HB.
  { cbn [length foldl snd]. by rewrite Z.mul_1_l. }
  destruct Hc as (Hlen & Hn & Hc). rewrite (Hk len lens eq_refl). cbn [foldl].
  replace (2 ^ Z.of_nat (length (len :: lens)) * B) with (2 ^ Z.of_nat (length lens) * (2 * B)) in *.
  2:{ cbn [length]. rewrite Nat2Z.inj_succ, Z.pow_succ_r by lia. ring. }
  assert (0 < Q) by done. assert (0 < 2 ^ Z.of_nat (length lens)) by lia.
  destruct (invntt_layer_spec len a f B) as [E H']; [done..|nia|].
  destruct (invntt_layer _ len) as [k' a']. cbn [fst snd] in *. subst k'.
  apply IH; [done| |done|lia|done]. intros len' rest ->. by symmetry.
Qed.

Ltac chain := repeat split; apply list_elem_of_In; vm_compute; tauto.

(** Eight layers add at most [8 Q] to the coefficients. *)
Lemma ntt_spec a f B :
  represents B a f → B + 8 * Q <= 2 ^ 31 → represents (B + 8 * Q) (ntt a) (NTT f).
Proof.
  intros H HB. apply (ntt_layers_spec ntt_lens); [chain| |done|done].
  by intros len rest [= <- _].
Qed.

(** [f = 2^64 / 256]: the result is scaled by [2^32], and little more than
    [Q / 2] in absolute value. *)
Definition inv_bound : Z := 4211177.

Lemma invntt_tomont_spec a f :
  represents (Q - 1) a f → represents inv_bound (invntt_tomont a) (fun i => 2 ^ 32 * (8347681 * INTT f i)).
Proof.
  intros (Hl & HB & Hf).
  assert (represents Q a f) as H by (split_and!; [done| |done]; intros i; specialize (HB i); lia).
  apply (invntt_layers_spec invntt_lens _ _ _ 256) in H as (Hl' & HB' & Hf');
    [|chain|by intros len rest [= <- _]|done|done].
  change (2 ^ Z.of_nat (length invntt_lens) * Q) with (256 * Q) in HB'.
  unfold invntt_tomont. set (r := (foldl invntt_layer _ _).2) in *.
  assert (∀ i, - inv_bound <= montgomery_reduce (i64 (41978 * (r !!! i))) <= inv_bound ∧
    montgomery_reduce (i64 (41978 * (r !!! i))) ≡q 2 ^ 32 * (8347681 * (r !!! i))) as Hm.
  { intros i. specialize (HB' i). unfold Q in HB'. rewrite i64_small by lia.
    split.
    { pose proof (montgomery_reduce_tight (41978 * (r !!! i))) as Ht. unfold inv_bound, Q in *. lia. }
    apply eqq_cancel.
    rewrite montgomery_reduce_eqq by (unfold Q; lia). apply eqq_iff.
    exists (- 18374686488269954054 * (r !!! i)). unfold Q. lia. }
  split_and!; [by rewrite length_fmap| |].
  - intros i. destruct (decide (i < 256)%nat) as [Hi|Hi].
    + rewrite lookup_total_map by lia. specialize (Hm i). lia.
    + rewrite list_lookup_total_alt, lookup_ge_None_2 by (rewrite length_fmap; lia). cbn. unfold inv_bound. lia.
  - intros i Hi. rewrite lookup_total_map by lia. destruct (Hm i) as [_ ->].
    by rewrite (Hf' i Hi).
Qed.

End NttFacts.
