(* ===== verification/MldsaRing.v ===== *)
(** * ML-DSA-44: multiplication in [Z_Q\[X\]/(X^256 + 1)]

    The transform evaluates a polynomial at the 256 roots of [X^256 + 1], so
    the pointwise product of transforms is the transform of the product modulo
    [X^256 + 1]. *)
From S2P Require Import Prelude Fips202 MldsaPoly MldsaArith MldsaNtt.
From Stdlib Require Import Setoid Morphisms ZifyNat.

(** ** Finite sums and evaluation *)
Module Sums.
Export NttFacts.

Fixpoint sumn (n : nat) (f : nat → Z) : Z :=
  match n with
  | O => 0
  | S n => sumn n f + f n
  end.

Lemma sumn_eqq n f g : (∀ i, (i < n)%nat → f i ≡q g i) → sumn n f ≡q sumn n g.
Proof. induction n as [|n IH]; intros H; cbn; [done|]. rewrite IH, (H n) by (auto with lia). done. Qed.
Lemma sumn_ext n f g : (∀ i, (i < n)%nat → f i = g i) → sumn n f = sumn n g.
Proof. induction n as [|n IH]; intros H; cbn; [done|]. by rewrite IH, (H n) by (auto with lia). Qed.
Lemma sumn_add n f g : sumn n (fun i => f i + g i) = sumn n f + sumn n g.
Proof. induction n as [|n IH]; cbn; [done|]. rewrite IH. ring. Qed.
Lemma sumn_scale n c f : sumn n (fun i => c * f i) = c * sumn n f.
Proof. induction n as [|n IH]; cbn; [ring|]. rewrite IH. ring. Qed.
Lemma sumn_split n m f : sumn (n + m) f = sumn n f + sumn m (fun i => f (n + i)%nat).
Proof.
  induction m as [|m IH]; [rewrite Nat.add_0_r; cbn; ring|].
  rewrite Nat.add_succ_r. cbn. rewrite IH. ring.
Qed.
Lemma sumn_swap n m (f : nat → nat → Z) :
  sumn n (fun i => sumn m (fun j => f i j)) = sumn m (fun j => sumn n (fun i => f i j)).
Proof.
  induction n as [|n IH]; cbn.
  - induction m as [|m IH]; cbn; lia.
  - by rewrite IH, <- sumn_add.
Qed.

Definition power (x : Z) (i : nat) : Z := x ^ Z.of_nat i.
Lemma power_add x i j : power x (i + j) = power x i * power x j.
Proof. unfold power. rewrite Nat2Z.inj_add. apply Z.pow_add_r; lia. Qed.

(** The value at [x] of the polynomial with coefficients [f 0 .. f (n - 1)]. *)
Definition eval (n : nat) (f : nat → Z) (x : Z) : Z := sumn n (fun i => f i * power x i).

Lemma eval_eqq f g x : f ≈ g → eval 256 f x ≡q eval 256 g x.
Proof. intros H. apply sumn_eqq. intros i Hi. by rewrite (H i Hi). Qed.

Lemma eval_split n m f x :
  eval (n + m) f x = eval n f x + power x n * eval m (fun i => f (n + i)%nat) x.
Proof.
  unfold eval. rewrite sumn_split, <- sumn_scale. f_equal. apply sumn_ext.
  intros i _. rewrite power_add. ring.
Qed.

(** Product modulo [X^256 + 1]. *)
Definition conv (f g : nat → Z) (i : nat) : Z :=
  sumn 256 (fun j => if Nat.leb j i then f j * g (i - j)%nat
                     else - (f j * g (256 + i - j)%nat)).

Lemma conv_row f g x j :
  power x 256 ≡q -1 → (j < 256)%nat →
  sumn 256 (fun i => (if Nat.leb j i then f j * g (i - j)%nat
                      else - (f j * g (256 + i - j)%nat)) * power x i)
  ≡q f j * power x j * eval 256 g x.
Proof.
  intros Hx Hj. replace 256%nat with (j + (256 - j))%nat at 1 by lia. rewrite sumn_split.
  replace 256%nat with ((256 - j) + j)%nat at 2 by lia. rewrite eval_split.
  rewrite Z.mul_add_distr_l, Z.add_comm. f_equiv.
  - unfold eval. rewrite <- sumn_scale. apply sumn_eqq. intros i Hi.
    destruct (Nat.leb_spec j (j + i)); [|lia]. rewrite power_add.
    replace (j + i - j)%nat with i by lia. eqq_ring.
  - unfold eval. rewrite <- !sumn_scale. apply sumn_eqq. intros i Hi.
    destruct (Nat.leb_spec j i); [lia|].
    replace (256 - j + i)%nat with (256 + i - j)%nat by lia.
    transitivity (f j * (power x j * power x (256 - j)) * (g (256 + i - j)%nat * power x i));
      [|eqq_ring].
    rewrite <- power_add. replace (j + (256 - j))%nat with 256%nat by lia. rewrite Hx.
    eqq_ring.
Qed.

Lemma eval_conv f g x :
  power x 256 ≡q -1 → eval 256 (conv f g) x ≡q eval 256 f x * eval 256 g x.
Proof.
  intros Hx. unfold eval at 1, conv.
  transitivity (sumn 256 (fun j => f j * power x j * eval 256 g x)).
  - rewrite (sumn_ext 256 _ (fun i => sumn 256 (fun j => (if Nat.leb j i then f j * g (i - j)%nat
      else - (f j * g (256 + i - j)%nat)) * power x i))).
    2:{ intros i _. rewrite Z.mul_comm, <- sumn_scale. apply sumn_ext. intros j _. ring. }
    rewrite sumn_swap. apply sumn_eqq. intros j Hj. by apply conv_row.
  - unfold eval at 2. rewrite (Z.mul_comm (sumn _ _)), <- sumn_scale. apply sumn_eqq. intros j Hj.
    by rewrite Z.mul_comm.
Qed.

End Sums.

(** ** The transform as evaluation *)
Module Roots.
Export Sums.

(** Block [b] of size [s] holds the polynomial modulo [X^s - modulus s b]. *)
Definition modulus (s b : nat) : Z :=
  if Nat.eqb s 256 then -1
  else if Nat.even b then gamma (128 / s + b / 2) else - gamma (128 / s + b / 2).

(** Each root squares to the constant of its parent block: 255 checks. *)
Lemma gamma_square len b :
  layer_len len → (b < 128 / len)%nat →
  gamma (128 / len + b) * gamma (128 / len + b) ≡q modulus (2 * len) b.
Proof.
  intros Hl Hb.
  assert (forallb (fun len => forallb (fun b =>
    (gamma (128 / len + b) * gamma (128 / len + b) - modulus (2 * len) b) mod Q =? 0)
      (seq 0 (128 / len))) ntt_lens = true) as E by (by vm_compute).
  rewrite forallb_forall in E. specialize (E len). rewrite <- list_elem_of_In in E.
  specialize (E Hl). rewrite forallb_forall in E. specialize (E b). rewrite <- list_elem_of_In in E.
  assert (b ∈ seq 0 (128 / len)) as Hin by (apply elem_of_seq; lia).
  specialize (E Hin). apply Z.eqb_eq in E. apply eqq_iff.
  exists ((gamma (128 / len + b) * gamma (128 / len + b) - modulus (2 * len) b) / Q).
  pose proof (Z.div_mod (gamma (128 / len + b) * gamma (128 / len + b) - modulus (2 * len) b) Q).
  unfold Q in *. lia.
Qed.

Lemma modulus_parent len b x :
  layer_len len → (b < 256 / len)%nat → power x len ≡q modulus len b →
  power x (2 * len) ≡q modulus (2 * len) (b / 2) ∧
  power x len ≡q (if Nat.even b then 1 else -1) * gamma (128 / len + b / 2).
Proof.
  intros Hl Hb Hx. destruct (layer_count len Hl) as (H0 & _ & _ & _ & H4).
  assert (Nat.eqb len 256 = false) as E by (apply Nat.eqb_neq; each_len Hl; lia).
  assert (b / 2 < 128 / len)%nat as Hb' by (apply Nat.Div0.div_lt_upper_bound; lia).
  pose proof (gamma_square len (b / 2) Hl Hb') as Hg.
  unfold modulus at 1 in Hx. rewrite E in Hx.
  assert (power x len ≡q (if Nat.even b then 1 else -1) * gamma (128 / len + b / 2)) as Hx'.
  { rewrite Hx. destruct (Nat.even b); eqq_ring. }
  split; [|done]. rewrite <- Hg. replace (2 * len)%nat with (len + len)%nat by lia.
  rewrite power_add, Hx'. destruct (Nat.even b); eqq_ring.
Qed.

Lemma half_cases b :
  ∃ c, (b / 2 = c)%nat ∧
  ((b = 2 * c ∧ Nat.even b = true)%nat ∨ (b = 2 * c + 1 ∧ Nat.even b = false)%nat).
Proof.
  exists (b / 2)%nat. split; [done|]. destruct (Nat.Even_or_Odd b) as [[c ->]|[c ->]].
  - left. split; [lia|]. apply Nat.even_spec. by exists c.
  - right. split; [lia|]. rewrite <- Nat.negb_odd, (proj2 (Nat.odd_spec _)); [done|by exists c].
Qed.

(** Reducing a block modulo one of its two factors. *)
Lemma fwd_eval len g b x :
  layer_len len → (b < 256 / len)%nat → power x len ≡q modulus len b →
  eval len (fun o => fwd len g (b * len + o)%nat) x ≡q
  eval (2 * len) (fun o => g (b / 2 * (2 * len) + o)%nat) x.
Proof.
  intros Hl Hb Hx. destruct (modulus_parent len b x Hl Hb Hx) as [_ Hx'].
  destruct (layer_count len Hl) as (H0 & _).
  assert (∀ h, eval (2 * len) h x = eval (len + len) h x) as -> by (intros h; f_equal; lia).
  rewrite eval_split, Hx'.
  unfold eval. rewrite <- sumn_scale, <- sumn_add. apply sumn_eqq. intros o Ho.
  destruct (half_cases b) as (c & Ec & Hc). rewrite Ec. unfold fwd, node.
  destruct Hc as [[-> ->]|[-> ->]].
  - destruct (block_index len c (2 * c * len + o)) as [-> ->]; [done|nia|].
    destruct (Nat.ltb_spec (2 * c * len + o - c * (2 * len)) len); [|nia].
    replace (2 * c * len + o)%nat with (c * (2 * len) + o)%nat by lia.
    replace (c * (2 * len) + (len + o))%nat with (c * (2 * len) + o + len)%nat by lia. eqq_ring.
  - destruct (block_index len c ((2 * c + 1) * len + o)) as [-> ->]; [done|nia|].
    destruct (Nat.ltb_spec ((2 * c + 1) * len + o - c * (2 * len)) len); [nia|].
    replace ((2 * c + 1) * len + o - len)%nat with (c * (2 * len) + o)%nat by nia.
    replace ((2 * c + 1) * len + o)%nat with (c * (2 * len) + (len + o))%nat by lia. eqq_ring.
Qed.

Definition evaluates (s : nat) (f g : nat → Z) : Prop :=
  ∀ b x, (b < 256 / s)%nat → power x s ≡q modulus s b →
  eval s (fun o => g (b * s + o)%nat) x ≡q eval 256 f x.

Lemma fwd_evaluates len f g :
  layer_len len → evaluates (2 * len) f g → evaluates len f (fwd len g).
Proof.
  intros Hl H b x Hb Hx. rewrite fwd_eval by done. apply H; [|by apply modulus_parent].
  destruct (layer_count len Hl) as (H0 & _ & _ & H3 & H4). unfold N in H3. rewrite H3.
  apply Nat.Div0.div_lt_upper_bound. lia.
Qed.

(** Value [b] of the transform is the value of the polynomial at [root b]. *)
Definition root (b : nat) : Z := modulus 1 b.

Lemma NTT_eval f b : (b < 256)%nat → NTT f b ≡q eval 256 f (root b).
Proof.
  intros Hb. assert (evaluates 1 f (NTT f)) as H.
  { unfold NTT, ntt_lens. cbn [foldl].
    do 8 (apply fwd_evaluates; [apply list_elem_of_In; vm_compute; tauto|]).
    intros b' x Hb' _. assert (b' = 0)%nat as -> by (cbn in Hb'; lia). done. }
  specialize (H b (root b)). rewrite <- H; [|done|].
  - unfold eval. cbn [sumn]. rewrite Nat.mul_1_r, Nat.add_0_r.
    change (power (root b) 0) with 1. eqq_ring.
  - unfold power. by rewrite Z.pow_1_r.
Qed.

Lemma root_power b : (b < 256)%nat → power (root b) 256 ≡q -1.
Proof.
  intros Hb. change (-1) with (modulus 256 0).
  assert (power (root b) 1 ≡q modulus 1 b) as H by (unfold power; by rewrite Z.pow_1_r).
  assert (∀ len b x, layer_len len → (b < 256 / len)%nat → power x len ≡q modulus len b →
    (b / 2 < 256 / (2 * len))%nat ∧ power x (2 * len) ≡q modulus (2 * len) (b / 2)) as step.
  { intros len c x Hl Hc Hx. split; [|by apply modulus_parent].
    destruct (layer_count len Hl) as (H0 & _ & _ & H3 & H4). unfold N in H3. rewrite H3.
    apply Nat.Div0.div_lt_upper_bound. lia. }
  assert (b < 256 / 1)%nat as Hb1 by (cbn; lia).
  do 8 (eapply step in H as [Hb1' H]; [|apply list_elem_of_In; vm_compute; tauto|exact Hb1];
        clear Hb1; rename Hb1' into Hb1).
  cbn [Nat.mul Nat.add] in *. assert (b / 2 / 2 / 2 / 2 / 2 / 2 / 2 / 2 = 0)%nat as E.
  { assert (256 / 256 = 1)%nat by done. cbn in Hb1. lia. }
  by rewrite E in H.
Qed.

(** The transform turns products modulo [X^256 + 1] into pointwise ones. *)
Lemma NTT_conv f g : NTT (conv f g) ≈ (fun i => NTT f i * NTT g i).
Proof.
  intros i Hi. rewrite !NTT_eval by done. apply eval_conv, root_power, Hi.
Qed.

End Roots.

(** ** Polynomial operations on represented functions *)
Module PolyFacts.
Export Roots Poly.

Lemma lookup_total_out (l : list Z) i : (length l <= i)%nat → l !!! i = 1.
Proof. intros H. by rewrite list_lookup_total_alt, lookup_ge_None_2. Qed.
Lemma lookup_total_zip (h : Z → Z → Z) (l k : list Z) i :
  (i < length l)%nat → (i < length k)%nat → zip_with h l k !!! i = h (l !!! i) (k !!! i).
Proof.
  intros Hl Hk. rewrite !list_lookup_total_alt, lookup_zip_with.
  destruct (lookup_lt_is_Some_2 l i Hl) as [x ->], (lookup_lt_is_Some_2 k i Hk) as [y ->]. done.
Qed.

(** Pointwise definitions of [represents], one operand and two. *)
Lemma represents_map h a f B B' g :
  represents B a f → 1 <= B' →
  (∀ i, (i < 256)%nat → - B' <= h (a !!! i) <= B' ∧ h (a !!! i) ≡q g i) →
  represents B' (h <$> a) g.
Proof.
  intros (Hl & HB & Hf) HB' H. split_and!; [by rewrite length_fmap| |].
  - intros i. destruct (decide (i < 256)%nat).
    + rewrite lookup_total_map by lia. by apply H.
    + rewrite lookup_total_out by (rewrite length_fmap; lia). lia.
  - intros i Hi. rewrite lookup_total_map by lia. by apply H.
Qed.

Lemma represents_zip h a f B b g C B' k :
  represents B a f → represents C b g → 1 <= B' →
  (∀ i, (i < 256)%nat → - B' <= h (a !!! i) (b !!! i) <= B' ∧ h (a !!! i) (b !!! i) ≡q k i) →
  represents B' (zip_with h a b) k.
Proof.
  intros (Hl & _) (Hm & _) HB' H.
  assert (length (zip_with h a b) = 256%nat) as E by (rewrite length_zip_with; lia).
  split_and!; [done| |].
  - intros i. destruct (decide (i < 256)%nat).
    + rewrite lookup_total_zip by lia. by apply H.
    + rewrite lookup_total_out by lia. lia.
  - intros i Hi. rewrite lookup_total_zip by lia. by apply H.
Qed.

Lemma represents_feq B a f g : represents B a f → f ≈ g → represents B a g.
Proof. intros (Hl & HB & Hf) H. split_and!; [done..|]. by rewrite Hf. Qed.
Lemma represents_weaken B C a f : represents B a f → B <= C → represents C a f.
Proof. intros (Hl & HB & Hf) H. split_and!; [done| |done]. intros i. specialize (HB i). lia. Qed.
Lemma represents_bound B a f : represents B a f → 1 <= B.
Proof.
  intros (Hl & HB & _). specialize (HB 256%nat). rewrite lookup_total_out in HB by lia. lia.
Qed.
Lemma represents_self B a :
  length a = 256%nat → Forall (fun x => - B <= x <= B) a → 1 <= B → represents B a (fun i => a !!! i).
Proof.
  intros Hl HF HB. split_and!; [done| |done]. intros i. destruct (decide (i < 256)%nat) as [Hi|Hi].
  - rewrite list.Forall_forall in HF. apply HF, list_elem_of_lookup_total. exists i. split; [lia|done].
  - rewrite lookup_total_out by lia. lia.
Qed.

Lemma poly_add_spec a f B b g C :
  represents B a f → represents C b g → B + C < 2 ^ 31 →
  represents (B + C) (poly_add a b) (fun i => f i + g i).
Proof.
  intros H1 H2 HB. pose proof (represents_bound _ _ _ H1). pose proof (represents_bound _ _ _ H2).
  eapply represents_zip; [done..|lia|]. destruct H1 as (_ & B1 & F1), H2 as (_ & B2 & F2).
  intros i Hi. specialize (B1 i). specialize (B2 i). rewrite i32_small by lia.
  split; [lia|]. by rewrite (F1 i Hi), (F2 i Hi).
Qed.

Lemma poly_sub_spec a f B b g C :
  represents B a f → represents C b g → B + C < 2 ^ 31 →
  represents (B + C) (poly_sub a b) (fun i => f i - g i).
Proof.
  intros H1 H2 HB. pose proof (represents_bound _ _ _ H1). pose proof (represents_bound _ _ _ H2).
  eapply represents_zip; [done..|lia|]. destruct H1 as (_ & B1 & F1), H2 as (_ & B2 & F2).
  intros i Hi. specialize (B1 i). specialize (B2 i). rewrite i32_small by lia.
  split; [lia|]. by rewrite (F1 i Hi), (F2 i Hi).
Qed.

Lemma poly_reduce_spec a f B :
  represents B a f → B < 2 ^ 31 - 2 ^ 22 → represents 6283009 (poly_reduce a) f.
Proof.
  intros H HB. eapply represents_map; [done|lia|]. destruct H as (_ & B1 & F1).
  intros i Hi. specialize (B1 i). destruct (reduce32_spec (a !!! i)) as [E ?]; [lia|].
  split; [lia|]. by rewrite E, (F1 i Hi).
Qed.

Lemma poly_caddq_spec a f :
  represents (Q - 1) a f → length (poly_caddq a) = 256%nat ∧
  ∀ i, (i < 256)%nat → poly_caddq a !!! i = f i mod Q.
Proof.
  intros (Hl & HB & Hf). split; [by unfold poly_caddq; rewrite length_fmap|].
  intros i Hi. unfold poly_caddq. rewrite lookup_total_map by lia. specialize (HB i).
  rewrite caddq_spec by lia. apply Hf, Hi.
Qed.

(** Multiplication by a power of [2^32] disappears between the transforms. *)
Definition untransform (h : nat → Z) (i : nat) : Z := 8347681 * INTT h i.

Lemma NTT_untransform h : NTT (untransform h) ≈ h.
Proof.
  unfold untransform. transitivity (fun i => 8347681 * NTT (INTT h) i).
  - apply (layers_scale fwd fwd_proper fwd_linear), ntt_lens_ok.
  - intros i Hi. rewrite (NTT_INTT h i Hi). apply eqq_iff. exists (255 * h i). unfold Q. lia.
Qed.

Lemma untransform_iff h f : h ≈ NTT f → untransform h ≈ f.
Proof. intros H. apply NTT_inj. by rewrite NTT_untransform. Qed.

#[export] Instance untransform_proper : Proper (feq ==> feq) untransform.
Proof. intros f g H. apply untransform_iff. by rewrite NTT_untransform. Qed.

Lemma poly_pointwise_spec a f B b g C :
  represents B a f → represents C b g → B * C < 2 ^ 31 * Q →
  represents (Q - 1) (poly_pointwise_montgomery a b) (fun i => Rinv * (f i * g i)).
Proof.
  intros H1 H2 HB. eapply represents_zip; [done..|done|].
  destruct H1 as (_ & B1 & F1), H2 as (_ & B2 & F2).
  intros i Hi. specialize (B1 i). specialize (B2 i).
  assert (- 2 ^ 31 * Q <= (a !!! i) * (b !!! i) < 2 ^ 31 * Q) as Hp by nia.
  rewrite i64_small by (unfold Q in *; lia).
  pose proof (montgomery_reduce_bound _ Hp). split; [lia|]. apply eqq_cancel.
  rewrite montgomery_reduce_eqq, (F1 i Hi), (F2 i Hi) by done. apply eqq_iff.
  exists (- 4236238847 * (f i * g i)). unfold Rinv, Q. ring.
Qed.

Lemma poly_invntt_spec a h :
  represents (Q - 1) a (fun i => Rinv * h i) → represents inv_bound (poly_invntt_tomont a) (untransform h).
Proof.
  intros H. eapply represents_feq; [by apply invntt_tomont_spec|].
  intros i Hi. assert (INTT (fun i => Rinv * h i) i ≡q Rinv * INTT h i) as ->.
  { revert i Hi. apply (layers_scale inv inv_proper inv_linear), invntt_lens_ok. }
  unfold untransform. apply eqq_iff. exists (4236238847 * (8347681 * INTT h i)). unfold Rinv, Q. ring.
Qed.

Lemma poly_ntt_spec a f B :
  represents B a f → B + 8 * Q <= 2 ^ 31 → represents (B + 8 * Q) (poly_ntt a) (NTT f).
Proof. apply ntt_spec. Qed.

End PolyFacts.

Module MldsaRingProps.
Import PolyFacts.

(** C18: Transforming two polynomials, multiplying pointwise and transforming
    back is multiplication modulo [X^256 + 1] and [Q].  For coefficients of
    absolute value at most [Q] nothing overflows, every result coefficient is
    below [Q] in absolute value, and coefficient [i] is congruent to the sum of
    [a_j b_(i-j)] over [j <= i] minus the sum of [a_j b_(256+i-j)] over the
    other [j]. *)
Theorem ntt_multiplication (a b : poly) :
  length a = N → length b = N →
  Forall (fun x => - Q <= x <= Q) a → Forall (fun x => - Q <= x <= Q) b →
  let c := poly_invntt_tomont (poly_pointwise_montgomery (poly_ntt a) (poly_ntt b)) in
  length c = N ∧
  ∀ i, (i < N)%nat →
    - Q < c !!! i < Q ∧
    (c !!! i) mod Q = conv (fun j => a !!! j) (fun j => b !!! j) i mod Q.
Proof.
  intros Ha Hb Fa Fb c.
  assert (represents inv_bound c (conv (fun j => a !!! j) (fun j => b !!! j))) as (Hl & HB & Hf).
  { eapply represents_feq; [|apply untransform_iff; symmetry; apply NTT_conv].
    apply poly_invntt_spec. eapply poly_pointwise_spec;
      [apply poly_ntt_spec; [by apply represents_self|done]..|done]. }
  split; [done|]. intros i Hi. split; [specialize (HB i); unfold inv_bound, Q in *; lia|by apply Hf].
Qed.

Definition x255 : poly := replicate 255 0 ++ [1].

Lemma ntt_multiplication_witness :
  conv (fun j => x255 !!! j) (fun j => x255 !!! j) 254 = -1 ∧
  (poly_invntt_tomont (poly_pointwise_montgomery (poly_ntt x255) (poly_ntt x255)) !!! 254%nat) mod Q
  = -1 mod Q.
Proof.
  assert (conv (fun j => x255 !!! j) (fun j => x255 !!! j) 254 = -1) as E by (by vm_compute).
  split; [done|]. rewrite <- E.
  destruct (ntt_multiplication x255 x255) as [_ H]; [done|done|..];
    [..|destruct (H 254%nat) as [_ E']; [unfold N; lia|exact E']];
    apply Forall_app; (split; [apply Forall_replicate|apply list.Forall_singleton]; cbn beta; unfold Q; lia).
Defined.

(** The forward transform evaluates the polynomial: for coefficients of
    absolute value at most [B], with [B + 8 Q] in the domain of [reduce32], entry
    [b] of the result is congruent to the value of the polynomial at [root b], a
    root of [X^256 + 1] modulo [Q], and grows by at most [8 Q]; reducing and
    transforming back gives [2^32] times the polynomial. *)
Theorem ntt_evaluates (a : poly) (B : Z) :
  length a = N → Forall (fun x => - B <= x <= B) a → 1 <= B → B + 8 * Q < 2 ^ 31 - 2 ^ 22 →
  (∀ b, (b < N)%nat →
     (ntt a !!! b) mod Q = eval N (fun i => a !!! i) (root b) mod Q ∧
     power (root b) N mod Q = -1 mod Q ∧
     - (B + 8 * Q) <= ntt a !!! b <= B + 8 * Q) ∧
  (∀ i, (i < N)%nat →
     (invntt_tomont (poly_reduce (ntt a)) !!! i) mod Q = (2 ^ 32 * (a !!! i)) mod Q).
Proof.
  intros Hl HF HB Hmax.
  assert (represents (B + 8 * Q) (ntt a) (NTT (fun i => a !!! i))) as H
    by (apply ntt_spec; [by apply represents_self|lia]).
  split.
  - destruct H as (Hl' & HB' & Hf). intros b Hb. split_and!; [|by apply root_power|apply HB'..].
    rewrite <- (NTT_eval _ b Hb). by apply Hf.
  - intros i Hi.
    assert (represents (Q - 1) (poly_reduce (ntt a)) (NTT (fun i => a !!! i))) as H'
      by (eapply represents_weaken; [by apply poly_reduce_spec in H|done]).
    destruct (invntt_tomont_spec _ _ H') as (_ & _ & E). apply (E i) in Hi as E'.
    unfold eqq in E'. rewrite E'. fold (untransform (NTT (fun i => a !!! i)) i).
    change (2 ^ 32 * untransform (NTT (fun i => a !!! i)) i ≡q 2 ^ 32 * (a !!! i)).
    by rewrite (untransform_iff _ (fun i => a !!! i) ltac:(reflexivity) i Hi).
Qed.

Lemma ntt_evaluates_witness :
  (ntt x255 !!! 3%nat) mod Q = eval N (fun i => x255 !!! i) (root 3) mod Q.
Proof.
  destruct (ntt_evaluates x255 1) as [H _]; [done| |lia|done|].
  - apply Forall_app; (split; [apply Forall_replicate|apply list.Forall_singleton]; cbn beta; lia).
  - destruct (H 3%nat) as [E _]; [unfold N; lia|exact E].
Defined.

(** With coefficients between [Q] and [2 Q] the sums of [invntt_tomont] wrap: a
    constant transform does not come back as a constant polynomial. *)
Lemma invntt_needs_Q :
  (invntt_tomont (replicate N (2 * Q - 1)) !!! 0%nat) mod Q ≠ (2 ^ 32 * (2 * Q - 1)) mod Q.
Proof. by vm_compute. Qed.

End MldsaRingProps.
