(* ===== verification/MldsaPack.v ===== *)
(** * ML-DSA-44: encodings

    The bit packings of [poly.c] are bijections between coefficients in range
    and byte strings of the packed length; the hint encoding of [packing.c]
    accepts exactly one byte string per hint vector.  Keys and signatures
    therefore decode to what was encoded, and a signature has one encoding. *)
From stdpp Require Import sorting.
From S2P Require Import Prelude Fips202 MldsaPoly Mldsa MldsaArith.
Open Scope Z_scope.

Module BitFacts.
Export Packing RoundingFacts.

Lemma lor_disjoint k a b : 0 <= k → 0 <= a < 2 ^ k → b mod 2 ^ k = 0 → Z.lor a b = a + b.
Proof.
  intros Hk Ha Hb. replace b with (Z.shiftl (b / 2 ^ k) k).
  - rewrite lor_add_shiftl by done. rewrite Z.shiftl_mul_pow2 by lia. lia.
  - rewrite Z.shiftl_mul_pow2 by lia. pose proof (Z.div_exact b (2 ^ k)). lia.
Qed.

Lemma land_mask w a m : 0 <= w → m = 2 ^ w - 1 → Z.land a m = a mod 2 ^ w.
Proof. intros Hw ->. by apply land_ones_mod. Qed.

(** A disjunction whose right operand is shifted past the left one is a sum. *)
Ltac lor_add :=
  repeat match goal with
  | |- context [Z.lor ?a ?b] =>
      lazymatch a with
      | context [Z.lor _ _] => fail
      | _ => lazymatch b with
             | context [Z.lor _ _] => fail
             | _ * 2 ^ ?k => rewrite (lor_disjoint k a b) by zdm
             | (_ * 2 ^ ?k) mod _ => rewrite (lor_disjoint k a b) by zdm
             | (_ * 2 ^ ?k) mod _ mod _ => rewrite (lor_disjoint k a b) by zdm
             end
      end
  end.

(** Shifts, masks and conversions as arithmetic. *)
Ltac arith_bits :=
  rewrite ?(land_mask 3 _ 7), ?(land_mask 10 _ 0x3FF), ?(land_mask 13 _ 0x1FFF),
    ?(land_mask 18 _ 0x3FFFF) by done;
  rewrite ?Z.shiftr_div_pow2, ?Z.shiftl_mul_pow2 by lia; unfold wrap; lor_add.

(** Peel one group of [n] elements off a list whose length is known. *)
Tactic Notation "peel" int_or_var(n) hyp(l) :=
  do n (destruct l as [|? l]; [cbn [length] in *; lia|]).

(** Compare two lists element by element. *)
Ltac elements := repeat (apply (f_equal2 cons); [|]).

Ltac split_Forall :=
  repeat match goal with H : Forall _ (_ :: _) |- _ => apply list.Forall_cons in H as [? H] end.

(** The values written out: [u32 (int)] of a value in range. *)
Lemma u32_i32 t : 0 <= t < 2 ^ 31 → u32 (i32 t) = t.
Proof. intros H. rewrite i32_small by lia. apply wrap_small. unfold in_u. lia. Qed.

End BitFacts.

Module PackFacts.
Export BitFacts.

Definition z_ok (x : Z) : Prop := - GAMMA1 < x <= GAMMA1.
Definition t0_ok (x : Z) : Prop := - 2 ^ (D - 1) < x <= 2 ^ (D - 1).
Definition t1_ok (x : Z) : Prop := 0 <= x < 2 ^ 10.
Definition eta_ok (x : Z) : Prop := - ETA <= x <= ETA.

(** One group decoded and re-encoded, by arithmetic on each element. *)
Ltac numbers :=
  change GAMMA1 with 131072 in *; change ETA with 2 in *;
  change (Z.shiftl 1 (D - 1)) with 4096 in *; change (2 ^ (D - 1)) with 4096 in *.
Ltac lengths := cbn [length] in *; lia.

Lemma polyz_unpack_pack n a :
  length a = (4 * n)%nat → Forall z_ok a → polyz_unpack (polyz_pack a) = a.
Proof.
  revert a. induction n as [|n IH]; intros a Hl HF; [by destruct a|].
  peel 4 a. split_Forall. unfold z_ok in *. cbn [polyz_pack]. cbv zeta. numbers.
  rewrite !u32_i32 by lia. cbn [polyz_unpack]. cbv zeta. numbers.
  rewrite IH by (done || lengths). elements; [..|done]; arith_bits; zdm.
Qed.

Lemma polyt0_unpack_pack n a :
  length a = (8 * n)%nat → Forall t0_ok a → polyt0_unpack (polyt0_pack a) = a.
Proof.
  revert a. induction n as [|n IH]; intros a Hl HF; [by destruct a|].
  peel 8 a. split_Forall. unfold t0_ok in *. cbn [polyt0_pack]. cbv zeta. numbers.
  rewrite !u32_i32 by lia. cbn [polyt0_unpack]. cbv zeta. numbers.
  rewrite IH by (done || lengths). elements; [..|done]; arith_bits; zdm.
Qed.

Lemma polyt1_unpack_pack n a :
  length a = (4 * n)%nat → Forall t1_ok a → polyt1_unpack (polyt1_pack a) = a.
Proof.
  revert a. induction n as [|n IH]; intros a Hl HF; [by destruct a|].
  peel 4 a. split_Forall. unfold t1_ok in *. cbn [polyt1_pack].
  rewrite !Z.shiftl_mul_pow2, !i32_small by lia. cbn [polyt1_unpack].
  rewrite IH by (done || lengths). elements; [..|done]; arith_bits; zdm.
Qed.

Lemma polyeta_unpack_pack n a :
  length a = (8 * n)%nat → Forall eta_ok a → polyeta_unpack (polyeta_pack a) = a.
Proof.
  revert a. induction n as [|n IH]; intros a Hl HF; [by destruct a|].
  peel 8 a. split_Forall. unfold eta_ok in *. cbn [polyeta_pack]. cbv zeta. numbers.
  rewrite !(wrap_small 8 (2 - _)) by (unfold in_u; lia). cbn [polyeta_unpack]. cbv zeta. numbers.
  rewrite IH by (done || lengths). elements; [..|done]; arith_bits; zdm.
Qed.

(** Packed lengths. *)
Lemma polyz_pack_length n a : length a = (4 * n)%nat → length (polyz_pack a) = (9 * n)%nat.
Proof.
  revert a. induction n as [|n IH]; intros a Hl; [by destruct a|].
  peel 4 a. cbn [polyz_pack length]. rewrite IH; lengths.
Qed.
Lemma polyt0_pack_length n a : length a = (8 * n)%nat → length (polyt0_pack a) = (13 * n)%nat.
Proof.
  revert a. induction n as [|n IH]; intros a Hl; [by destruct a|].
  peel 8 a. cbn [polyt0_pack length]. rewrite IH; lengths.
Qed.
Lemma polyt1_pack_length n a : length a = (4 * n)%nat → length (polyt1_pack a) = (5 * n)%nat.
Proof.
  revert a. induction n as [|n IH]; intros a Hl; [by destruct a|].
  peel 4 a. cbn [polyt1_pack length]. rewrite IH; lengths.
Qed.
Lemma polyeta_pack_length n a : length a = (8 * n)%nat → length (polyeta_pack a) = (3 * n)%nat.
Proof.
  revert a. induction n as [|n IH]; intros a Hl; [by destruct a|].
  peel 8 a. cbn [polyeta_pack length]. rewrite IH; lengths.
Qed.

(** ** Decoding, then encoding *)

Lemma polyz_unpack_ok n b :
  length b = (9 * n)%nat → length (polyz_unpack b) = (4 * n)%nat ∧ Forall z_ok (polyz_unpack b).
Proof.
  revert b. induction n as [|n IH]; intros b Hl; [by destruct b|].
  peel 9 b. destruct (IH b) as [E HF]; [lengths|]. cbn [polyz_unpack]. cbv zeta.
  split; [lengths|]. rewrite !(land_mask 18 _ 0x3FFFF) by done. unfold z_ok. numbers.
  repeat (apply list.Forall_cons; split; [zdm|]). done.
Qed.

Lemma polyz_pack_unpack n b :
  length b = (9 * n)%nat → bytes_ok b → polyz_pack (polyz_unpack b) = b.
Proof.
  revert b. induction n as [|n IH]; intros b Hl HF; [by destruct b|]. unfold bytes_ok in *.
  peel 9 b. split_Forall. unfold in_u in *. cbn [polyz_unpack]. cbv zeta. numbers.
  rewrite !(land_mask 18 _ 0x3FFFF) by done.
  cbn [polyz_pack]. cbv zeta. numbers. rewrite !u32_i32 by zdm.
  rewrite IH by (done || lengths). elements; [..|done]; arith_bits; zdm.
Qed.

Lemma polyt1_unpack_ok n b :
  length b = (5 * n)%nat → length (polyt1_unpack b) = (4 * n)%nat ∧ Forall t1_ok (polyt1_unpack b).
Proof.
  revert b. induction n as [|n IH]; intros b Hl; [by destruct b|].
  peel 5 b. destruct (IH b) as [E HF]; [lengths|]. cbn [polyt1_unpack].
  split; [lengths|]. rewrite !(land_mask 10 _ 0x3FF) by done. unfold t1_ok.
  repeat (apply list.Forall_cons; split; [zdm|]). done.
Qed.

Lemma polyt1_pack_unpack n b :
  length b = (5 * n)%nat → bytes_ok b → polyt1_pack (polyt1_unpack b) = b.
Proof.
  revert b. induction n as [|n IH]; intros b Hl HF; [by destruct b|]. unfold bytes_ok in *.
  peel 5 b. split_Forall. unfold in_u in *. cbn [polyt1_unpack].
  rewrite !(land_mask 10 _ 0x3FF) by done.
  cbn [polyt1_pack]. rewrite !(Z.shiftl_mul_pow2 (_ mod _)), !i32_small by zdm.
  rewrite IH by (done || lengths). elements; [..|done]; arith_bits; zdm.
Qed.

End PackFacts.

(** ** Hints *)
Module HintFacts.
Export PackFacts.

(** Positions of the ones of a hint polynomial, and the polynomial with ones
    at given positions. *)
Definition positions (h : poly) : list Z :=
  Z.of_nat <$> filter (fun j => h !!! j ≠ 0) (seq 0 N).
Definition ones (s : list Z) : poly :=
  foldl (fun h x => <[Z.to_nat x := 1]> h) (replicate N 0) s.
Definition increasing (s : list Z) : Prop :=
  ∀ j, (0 < j < length s)%nat → s !!! (j - 1)%nat < s !!! j.
Definition binary (h : poly) : Prop := length h = N ∧ Forall (fun x => x = 0 ∨ x = 1) h.

Lemma ones_length s : length (ones s) = N.
Proof.
  unfold ones. assert (length (replicate N 0) = N) as E by apply length_replicate. revert E.
  generalize (replicate N 0). induction s as [|x s IH]; intros h Hh; cbn; [done|].
  apply IH. by rewrite length_insert.
Qed.

Lemma ones_snoc s x : ones (s ++ [x]) = <[Z.to_nat x := 1]> (ones s).
Proof. unfold ones. by rewrite foldl_app. Qed.

Lemma ones_lookup s i :
  bytes_ok s → (i < N)%nat → ones s !!! i = if decide (Z.of_nat i ∈ s) then 1 else 0.
Proof.
  intros Hs Hi. induction s as [|x s IH] using rev_ind.
  { unfold ones. cbn [foldl]. rewrite decide_False by apply not_elem_of_nil.
    by apply lookup_total_replicate_2. }
  apply Forall_app in Hs as [Hs Hx]. rewrite list.Forall_singleton in Hx. unfold in_u in Hx.
  rewrite ones_snoc. destruct (decide (i = Z.to_nat x)) as [->|Hn].
  - rewrite list_lookup_total_insert_eq by (rewrite ones_length; unfold N; lia).
    rewrite decide_True; [done|]. apply elem_of_app. right. apply list_elem_of_singleton. lia.
  - rewrite list_lookup_total_insert_ne by done. rewrite IH by done.
    apply decide_ext. rewrite elem_of_app, list_elem_of_singleton. split; [by left|].
    intros [H|E]; [done|lia].
Qed.

Lemma increasing_sorted s : increasing s → StronglySorted Z.lt s.
Proof.
  intros H. apply Sorted_StronglySorted; [intros ???; apply Z.lt_trans|].
  induction s as [|x s IH]; constructor.
  - apply IH. intros j Hj. specialize (H (S j)). cbn [length] in H.
    replace (S j - 1)%nat with (S (j - 1)) in H by lia. apply H. lia.
  - destruct s as [|y s]; constructor. apply (H 1%nat). cbn. lia.
Qed.

Lemma sorted_increasing s : StronglySorted Z.lt s → increasing s.
Proof.
  induction 1 as [|x s Hs IH HF]; intros j Hj; [cbn in Hj; lia|].
  destruct j as [ | [ | j]]; [lia| |].
  - cbn [length] in Hj. destruct s as [|y s]; [cbn in Hj; lia|]. by apply list.Forall_cons in HF as [? _].
  - specialize (IH (S j)). cbn [length] in Hj. rewrite Nat.sub_succ, Nat.sub_0_r in *.
    apply IH. lia.
Qed.

Lemma positions_sorted h : StronglySorted Z.lt (positions h).
Proof.
  unfold positions.
  assert (∀ n m, StronglySorted Z.lt (Z.of_nat <$> filter (fun j => h !!! j ≠ 0) (seq m n)) ∧
    Forall (fun x => Z.of_nat m <= x) (Z.of_nat <$> filter (fun j => h !!! j ≠ 0) (seq m n))) as H.
  { induction n as [|n IH]; intros m; [split; constructor|]. cbn [seq].
    destruct (IH (S m)) as [H1 H2]. rewrite filter_cons.
    case_decide; cbn [fmap list_fmap].
    - split; [constructor; [done|]|constructor; [lia|]];
        (eapply list.Forall_impl; [exact H2|]; cbn beta; lia).
    - split; [done|]. eapply list.Forall_impl; [exact H2|]. cbn beta. lia. }
  apply H.
Qed.

Lemma positions_bytes h : bytes_ok (positions h).
Proof.
  apply list.Forall_forall. intros x. unfold positions. rewrite list_elem_of_fmap.
  intros (j & -> & Hj). apply list_elem_of_filter in Hj as [_ Hj]. apply elem_of_seq in Hj.
  unfold in_u, N in *. lia.
Qed.

Lemma elem_of_positions h i : (i < N)%nat → Z.of_nat i ∈ positions h ↔ h !!! i ≠ 0.
Proof.
  intros Hi. unfold positions. rewrite list_elem_of_fmap. split.
  - intros (j & E & Hj). apply Nat2Z.inj in E as <-. by apply list_elem_of_filter in Hj as [? _].
  - intros H. exists i. split; [done|]. apply list_elem_of_filter. split; [done|].
    apply elem_of_seq. lia.
Qed.

Lemma ones_positions h : binary h → ones (positions h) = h.
Proof.
  intros [Hl HF]. apply list_eq_same_length with N; [by rewrite Hl|apply ones_length|].
  intros i x y Hi Hx Hy. apply list_lookup_total_correct in Hx, Hy. subst.
  rewrite ones_lookup by (done || apply positions_bytes).
  rewrite list.Forall_forall in HF.
  assert (h !!! i = 0 ∨ h !!! i = 1) as Hb by (apply HF, list_elem_of_lookup_total; exists i; split; [lia|done]).
  case_decide as E; rewrite elem_of_positions in E by done; lia.
Qed.

Lemma positions_ones s : bytes_ok s → increasing s → positions (ones s) = s.
Proof.
  intros Hs Hi. assert (StronglySorted Z.lt s) as Hsort by (by apply increasing_sorted).
  assert (∀ l, StronglySorted Z.lt l → base.NoDup l) as Hnd.
  { induction 1 as [|x l Hl IH HF]; constructor; [|done]. intros Hx.
    rewrite list.Forall_forall in HF. specialize (HF x Hx). lia. }
  apply (StronglySorted_unique_strong Z.lt); [lia|apply positions_sorted|done|].
  apply NoDup_Permutation; [apply Hnd, positions_sorted|by apply Hnd|].
  intros x. destruct (decide (0 <= x < 256)) as [Hx|Hx].
  - rewrite <- (Z2Nat.id x) by lia. rewrite elem_of_positions by (unfold N; lia).
    rewrite ones_lookup by (done || (unfold N; lia)). case_decide; split; (done || lia).
  - split; intros H; exfalso; apply Hx.
    + pose proof (positions_bytes (ones s)) as HF. unfold bytes_ok in HF.
      rewrite list.Forall_forall in HF. apply (HF x H).
    + unfold bytes_ok in Hs. rewrite list.Forall_forall in Hs. apply (Hs x H).
Qed.

Lemma ones_binary s : bytes_ok s → binary (ones s).
Proof.
  intros Hs. split; [apply ones_length|]. apply list.Forall_forall. intros x Hx.
  apply list_elem_of_lookup_total in Hx as (i & Hi & <-). rewrite ones_length in Hi.
  rewrite ones_lookup by done. case_decide; auto.
Qed.

(** ** Encoding: the positions are appended one after the other. *)

Lemma encode_fold (h : poly) js (p r : list Z) :
  (length (filter (fun j => h !!! j ≠ 0%Z) js) <= length r)%nat → Forall (fun j => (j < N)%nat) js →
  foldl (fun '(k, sig) j =>
           if (h !!! j) =? 0 then (k, sig) else (S k, <[k := u8 (Z.of_nat j)]> sig))
        (length p, p ++ r) js =
  let q := Z.of_nat <$> filter (fun j => h !!! j ≠ 0) js in
  (length (p ++ q), p ++ q ++ drop (length q) r).
Proof.
  revert p r. induction js as [|j js IH]; intros p r Hr HF.
  { cbn. by rewrite app_nil_r, drop_0. }
  apply list.Forall_cons in HF as [Hj HF]. cbn [foldl]. rewrite filter_cons in *.
  destruct (Z.eqb_spec (h !!! j) 0) as [E|E].
  - rewrite decide_False in * by lia. by apply IH.
  - rewrite decide_True in * by lia. cbn [length] in Hr. destruct r as [|x r]; [cbn in Hr; lia|].
    replace (<[length p := u8 (Z.of_nat j)]> (p ++ x :: r)) with ((p ++ [Z.of_nat j]) ++ r).
    2:{ rewrite insert_app_r_alt, Nat.sub_diag by lia. cbn.
        rewrite wrap_small by (unfold in_u, N in *; lia). by rewrite <- app_assoc. }
    replace (S (length p)) with (length (p ++ [Z.of_nat j])) by (rewrite length_app; cbn; lia).
    rewrite IH by (done || (cbn in Hr; lia)). cbn [fmap list_fmap length drop].
    cbv zeta. rewrite <- !app_assoc. by rewrite !length_app.
Qed.

Lemma encode_hint_poly_spec h p r :
  (length (positions h) <= length r)%nat →
  encode_hint_poly h (length p, p ++ r) =
  (length (p ++ positions h), p ++ positions h ++ drop (length (positions h)) r).
Proof.
  intros Hr. unfold encode_hint_poly. unfold positions in *. rewrite length_fmap in Hr.
  rewrite encode_fold; [done|done|]. apply list.Forall_forall. intros j Hj. apply elem_of_seq in Hj. lia.
Qed.

(** The hint part of a signature with positions [p0] to [p3]. *)
Definition layout (p0 p1 p2 p3 : list Z) : list Z :=
  let all := p0 ++ p1 ++ p2 ++ p3 in
  all ++ replicate (OMEGA - length all) 0 ++
  [Z.of_nat (length p0); Z.of_nat (length (p0 ++ p1)); Z.of_nat (length (p0 ++ p1 ++ p2));
   Z.of_nat (length all)].

Lemma encode_step h p c i :
  (length (p ++ positions h) <= OMEGA)%nat →
  (let '(k, sig) := encode_hint_poly h (length p, p ++ replicate (OMEGA - length p) 0 ++ c) in
   (k, <[(OMEGA + i)%nat := u8 (Z.of_nat k)]> sig)) =
  (length (p ++ positions h),
   (p ++ positions h) ++ replicate (OMEGA - length (p ++ positions h)) 0 ++
   <[i := Z.of_nat (length (p ++ positions h))]> c).
Proof.
  intros Hl. pose proof Hl as Hl'. rewrite length_app in Hl'.
  rewrite encode_hint_poly_spec by (rewrite length_app, length_replicate; lia).
  rewrite drop_app_le, drop_replicate by (rewrite length_replicate; lia).
  rewrite app_assoc, app_assoc, insert_app_r_alt by (rewrite !length_app, length_replicate; unfold OMEGA in *; lia).
  rewrite !length_app, length_replicate, <- app_assoc.
  f_equal. f_equal. f_equal; [f_equal; lia|].
  f_equal; [lia|]. apply wrap_small. unfold in_u, OMEGA in *. lia.
Qed.

Lemma encode_hints_layout h0 h1 h2 h3 :
  (length (positions h0 ++ positions h1 ++ positions h2 ++ positions h3) <= OMEGA)%nat →
  encode_hints [h0; h1; h2; h3] = layout (positions h0) (positions h1) (positions h2) (positions h3).
Proof.
  intros Hl. rewrite !length_app in Hl. unfold encode_hints, K. cbn [seq foldl].
  change (0%nat, replicate (OMEGA + 4) 0) with
    (length (A := Z) [], [] ++ replicate (OMEGA - length (A := Z) []) 0 ++ [0; 0; 0; 0]).
  change ([h0; h1; h2; h3] !!! 0%nat) with h0. change ([h0; h1; h2; h3] !!! 1%nat) with h1.
  change ([h0; h1; h2; h3] !!! 2%nat) with h2. change ([h0; h1; h2; h3] !!! 3%nat) with h3.
  rewrite !encode_step by (rewrite !length_app; cbn [length]; lia). cbn [app snd].
  unfold layout. by rewrite <- !app_assoc.
Qed.

(** ** Decoding *)

Lemma increasing_snoc s x :
  increasing (s ++ [x]) ↔ increasing s ∧ ((0 < length s)%nat → s !!! (length s - 1)%nat < x).
Proof.
  unfold increasing. rewrite length_app. cbn [length]. split.
  - intros H. split.
    + intros j Hj. specialize (H j). rewrite !lookup_total_app_l in H by lia. apply H. lia.
    + intros Hs. specialize (H (length s)). rewrite lookup_total_app_l in H by lia.
      rewrite lookup_total_app_r, Nat.sub_diag in H by lia. apply H. lia.
  - intros [H1 H2] j Hj. destruct (decide (j < length s)%nat).
    + rewrite !lookup_total_app_l by lia. apply H1. lia.
    + assert (j = length s) as -> by lia. rewrite lookup_total_app_l by lia.
      rewrite lookup_total_app_r, Nat.sub_diag by lia. apply H2. lia.
Qed.

Definition slice (sig : list Z) (k limit : nat) : list Z := take (limit - k) (drop k sig).

Lemma decode_hint_poly_iff sig k limit h :
  (k <= limit <= length sig)%nat →
  decode_hint_poly sig k limit = Some h ↔ increasing (slice sig k limit) ∧ h = ones (slice sig k limit).
Proof.
  intros [H1 H2]. unfold decode_hint_poly, slice. remember (limit - k)%nat as m eqn:Em.
  assert (k + m <= length sig)%nat as Hm by lia. clear Em H1 H2. revert h Hm.
  induction m as [|m IH]; intros h Hm.
  { rewrite take_0. cbn [seq foldl]. split; [intros [= <-]|by intros [_ ->]].
    split; [intros j Hj; cbn [length] in Hj; lia|done]. }
  rewrite seq_S, foldl_app. cbn [foldl].
  assert (take (S m) (drop k sig) = take m (drop k sig) ++ [sig !!! (k + m)%nat]) as E.
  { apply take_S_r. rewrite lookup_drop. apply list_lookup_lookup_total_lt. lia. }
  assert (length (take m (drop k sig)) = m) as Hlen by (rewrite length_take, length_drop; lia).
  rewrite E, increasing_snoc, Hlen, ones_snoc.
  set (r := foldl _ _ _) in *. destruct r as [h0|] eqn:Er.
  - destruct (IH h0) as [[Hi Hh] _]; [lia|done|]. subst h0.
    assert ((0 < m)%nat → take m (drop k sig) !!! (m - 1)%nat = sig !!! (k + m - 1)%nat) as El.
    { intros ?. rewrite lookup_total_take_lt by lia. rewrite lookup_total_drop. f_equal. lia. }
    destruct (Nat.ltb_spec k (k + m)); cbn [andb].
    + destruct (Z.leb_spec (sig !!! (k + m)%nat) (sig !!! (k + m - 1)%nat)).
      * split; [done|]. intros [[_ Hx] _]. rewrite El in Hx by lia. lia.
      * rewrite El by lia. split; [intros [= <-]; auto with lia|by intros [_ ->]].
    + split; [intros [= <-]; auto with lia|by intros [_ ->]].
  - split; [done|]. intros [[Hi _] _]. destruct (IH (ones (take m (drop k sig)))) as [_ Hr]; [lia|].
    specialize (Hr (conj Hi eq_refl)). congruence.
Qed.

Lemma decode_loop_step sig i n k hs k' :
  (OMEGA <= length sig)%nat →
  let limit := Z.to_nat (sig !!! (OMEGA + i)%nat) in
  decode_hints_loop sig i (S n) k = Some (hs, k') ↔
  ∃ t, hs = ones (slice sig k limit) :: t ∧ (k <= limit <= OMEGA)%nat ∧
       increasing (slice sig k limit) ∧ decode_hints_loop sig (S i) n limit = Some (t, k').
Proof.
  intros Hl limit. cbn [decode_hints_loop]. fold limit.
  destruct (Nat.ltb_spec limit k), (Nat.ltb_spec OMEGA limit); cbn [orb];
    try (split; [done|intros (t & _ & ? & _); lia]).
  pose proof (decode_hint_poly_iff sig k limit) as Hd.
  destruct (decode_hint_poly sig k limit) as [h|].
  - destruct (Hd h) as [[Hi ->] _]; [lia|done|].
    destruct (decode_hints_loop sig (S i) n limit) as [[t k2]|].
    + split; [intros [= <- <-]; exists t; auto|by intros (t' & -> & _ & _ & [= <- <-])].
    + split; [done|by intros (t' & _ & _ & _ & ?)].
  - split; [done|]. intros (t & _ & _ & Hi & _).
    destruct (Hd (ones (slice sig k limit))) as [_ Hs]; [lia|]. specialize (Hs (conj Hi eq_refl)). done.
Qed.

Lemma slice_app sig p q r : sig = p ++ q ++ r → slice sig (length p) (length (p ++ q)) = q.
Proof.
  intros ->. unfold slice. rewrite drop_app_length, length_app.
  replace (length p + length q - length p)%nat with (length q) by lia. apply take_app_length.
Qed.

Lemma decode_loop_app sig i n p q r t k' :
  sig = p ++ q ++ r → (OMEGA <= length sig)%nat → (length (p ++ q) <= OMEGA)%nat →
  sig !!! (OMEGA + i)%nat = Z.of_nat (length (p ++ q)) → increasing q →
  decode_hints_loop sig (S i) n (length (p ++ q)) = Some (t, k') →
  decode_hints_loop sig i (S n) (length p) = Some (ones q :: t, k').
Proof.
  intros E Hs Hl Hc Hi Ht. apply decode_loop_step; [done|]. exists t.
  rewrite Hc, Nat2Z.id, (slice_app sig p q r E).
  split_and!; [done|rewrite length_app; lia|done|done|done].
Qed.

Lemma layout_decode p0 p1 p2 p3 :
  (length (p0 ++ p1 ++ p2 ++ p3) <= OMEGA)%nat →
  increasing p0 → increasing p1 → increasing p2 → increasing p3 →
  decode_hints (layout p0 p1 p2 p3) = Some [ones p0; ones p1; ones p2; ones p3].
Proof.
  intros Hl I0 I1 I2 I3. unfold decode_hints, K. set (sig := layout p0 p1 p2 p3).
  assert (∀ i, sig !!! (OMEGA + i)%nat = [Z.of_nat (length p0); Z.of_nat (length (p0 ++ p1));
    Z.of_nat (length (p0 ++ p1 ++ p2)); Z.of_nat (length (p0 ++ p1 ++ p2 ++ p3))] !!! i) as Hc.
  { intros i. unfold sig, layout. rewrite app_assoc, lookup_total_app_r
      by (rewrite length_app, length_replicate; lia).
    rewrite length_app, length_replicate. f_equal. lia. }
  assert (OMEGA <= length sig)%nat as Hs
    by (unfold sig, layout; rewrite !length_app, length_replicate in *; lia).
  assert (decode_hints_loop sig 0 4 (length (A := Z) []) =
    Some ([ones p0; ones p1; ones p2; ones p3], length (((([] ++ p0) ++ p1) ++ p2) ++ p3))) as E.
  { assert (∀ n, (n <= length (p0 ++ p1 ++ p2 ++ p3))%nat → (n <= OMEGA)%nat) as Hle by lia.
    rewrite !length_app in Hle.
    do 4 (eapply decode_loop_app;
      [unfold sig, layout; rewrite <- ?app_assoc; reflexivity|done
      |apply Hle; rewrite !length_app; cbn [length]; lia
      |rewrite Hc, <- ?app_assoc; reflexivity|done|]).
    done. }
  cbn [length app] in E. rewrite E, <- !app_assoc.
  assert (existsb (fun j => negb ((sig !!! j) =? 0))
    (seq (length (p0 ++ p1 ++ p2 ++ p3)) (OMEGA - length (p0 ++ p1 ++ p2 ++ p3))) = false) as ->; [|done].
  apply not_true_iff_false. rewrite existsb_exists. intros (j & Hj & Hz).
  apply list_elem_of_In, elem_of_seq in Hj. unfold sig, layout in Hz.
  rewrite lookup_total_app_r, lookup_total_app_l, lookup_total_replicate_2 in Hz
    by (rewrite ?length_replicate; lia). done.
Qed.

(** ** Accepted hint bytes have the layout. *)

Lemma slice_whole sig k l m :
  (k <= l <= m)%nat → slice sig k l ++ slice sig l m = slice sig k m.
Proof.
  intros H. unfold slice. replace (drop l sig) with (drop (l - k) (drop k sig)) by (rewrite drop_drop; f_equal; lia).
  replace (m - k)%nat with ((l - k) + (m - l))%nat by lia. apply take_take_drop.
Qed.
Lemma slice_length sig k l : (k <= l <= length sig)%nat → length (slice sig k l) = (l - k)%nat.
Proof. intros H. unfold slice. rewrite length_take, length_drop. lia. Qed.

Lemma zero_slice sig k m :
  (k <= m <= length sig)%nat →
  existsb (fun j => negb ((sig !!! j) =? 0)) (seq k (m - k)) = false →
  replicate (m - k) 0 = slice sig k m.
Proof.
  intros Hk Hz. apply list_eq_same_length with (m - k)%nat;
    [by apply slice_length|apply length_replicate|].
  intros i x y Hi Hx Hy. apply lookup_replicate in Hx as [-> _].
  unfold slice in Hy. apply lookup_take_Some in Hy as [Hy _]. rewrite lookup_drop in Hy.
  apply list_lookup_total_correct in Hy as <-. apply not_true_iff_false in Hz.
  destruct (Z.eqb_spec (sig !!! (k + i)%nat) 0) as [|Hn]; [done|]. destruct Hz.
  apply existsb_exists. exists (k + i)%nat. split; [apply list_elem_of_In, elem_of_seq; lia|].
  apply negb_true_iff. by apply Z.eqb_neq.
Qed.

(** The last four bytes. *)
Lemma counts sig :
  length sig = (OMEGA + 4)%nat → bytes_ok sig →
  [Z.of_nat (Z.to_nat (sig !!! OMEGA)); Z.of_nat (Z.to_nat (sig !!! (OMEGA + 1)%nat));
   Z.of_nat (Z.to_nat (sig !!! (OMEGA + 2)%nat)); Z.of_nat (Z.to_nat (sig !!! (OMEGA + 3)%nat))]
  = drop OMEGA sig.
Proof.
  intros Hl Hb. assert (∀ i, (i < length sig)%nat → 0 <= sig !!! i) as H0.
  { intros i Hi. unfold bytes_ok in Hb. rewrite list.Forall_forall in Hb.
    apply (Hb (sig !!! i)), list_elem_of_lookup_total. eauto. }
  rewrite !Z2Nat.id by (apply H0; lia).
  assert (∀ i, sig !!! (OMEGA + i)%nat = drop OMEGA sig !!! i) as E by (intros i; by rewrite lookup_total_drop).
  rewrite <- (Nat.add_0_r OMEGA) at 1. rewrite !E.
  assert (length (drop OMEGA sig) = 4%nat) as Hd by (rewrite length_drop; lia).
  revert Hd. generalize (drop OMEGA sig). intros l Hd. peel 4 l. by destruct l.
Qed.

Lemma decode_layout sig h :
  length sig = (OMEGA + K)%nat → bytes_ok sig → decode_hints sig = Some h →
  ∃ p0 p1 p2 p3, (length (p0 ++ p1 ++ p2 ++ p3) <= OMEGA)%nat ∧
    increasing p0 ∧ increasing p1 ∧ increasing p2 ∧ increasing p3 ∧
    bytes_ok (p0 ++ p1 ++ p2 ++ p3) ∧
    sig = layout p0 p1 p2 p3 ∧ h = [ones p0; ones p1; ones p2; ones p3].
Proof.
  intros Hl Hb Hd. unfold decode_hints, K in *.
  destruct (decode_hints_loop sig 0 4 0) as [[hs k]|] eqn:E; [|done].
  destruct (existsb _ _) eqn:Ez; [done|]. injection Hd as ->.
  assert (OMEGA <= length sig)%nat as Hs by lia.
  apply decode_loop_step in E as (t0 & -> & L0 & I0 & E); [|done].
  apply decode_loop_step in E as (t1 & -> & L1 & I1 & E); [|done].
  apply decode_loop_step in E as (t2 & -> & L2 & I2 & E); [|done].
  apply decode_loop_step in E as (t3 & -> & L3 & I3 & E); [|done].
  injection E as <- <-.
  rewrite Nat.add_0_r in *.
  set (l0 := Z.to_nat (sig !!! OMEGA)) in *. set (l1 := Z.to_nat (sig !!! (OMEGA + 1)%nat)) in *.
  set (l2 := Z.to_nat (sig !!! (OMEGA + 2)%nat)) in *. set (l3 := Z.to_nat (sig !!! (OMEGA + 3)%nat)) in *.
  exists (slice sig 0 l0), (slice sig l0 l1), (slice sig l1 l2), (slice sig l2 l3).
  assert (slice sig 0 l0 ++ slice sig l0 l1 ++ slice sig l1 l2 ++ slice sig l2 l3 = slice sig 0 l3) as Ea.
  { rewrite !slice_whole by lia. done. }
  assert (slice sig 0 l0 ++ slice sig l0 l1 ++ slice sig l1 l2 = slice sig 0 l2) as Ea2
    by (rewrite !slice_whole by lia; done).
  unfold layout. rewrite Ea, Ea2, (slice_whole sig 0 l0 l1), !slice_length by lia. rewrite !Nat.sub_0_r.
  split_and!; try done; [lia| |].
  { unfold slice. apply Forall_take, Forall_drop, Hb. }
  rewrite (zero_slice sig l3 OMEGA) by (done || lia). rewrite app_assoc, slice_whole by lia.
  pose proof (counts sig Hl Hb) as Hc. fold l0 l1 l2 l3 in Hc. rewrite Hc. unfold slice. rewrite drop_0, Nat.sub_0_r. symmetry. apply take_drop.
Qed.

End HintFacts.

(** ** Keys and signatures *)
Module KeyFacts.
Export HintFacts.

Definition poly_ok (P : Z → Prop) (a : poly) : Prop := length a = N ∧ Forall P a.
Definition vec_ok (n : nat) (P : Z → Prop) (v : polyvec) : Prop :=
  length v = n ∧ Forall (poly_ok P) v.

Lemma unpack_vec_cons f n size c buf :
  length c = size → unpack_vec f (S n) size (c ++ buf) = f c :: unpack_vec f n size buf.
Proof.
  intros Hc. unfold unpack_vec. cbn [seq fmap list_fmap Nat.mul]. rewrite drop_0, take_app_length' by done.
  f_equal. rewrite <- fmap_S_seq, <- list_fmap_compose. apply list_fmap_ext. intros _ i _. cbn.
  rewrite <- Hc, <- drop_drop, drop_app_length. done.
Qed.

Lemma unpack_vec_pack pack unpack size v rest :
  Forall (fun a => length (pack a) = size ∧ unpack (pack a) = a) v →
  unpack_vec unpack (length v) size (concat (pack <$> v) ++ rest) = v.
Proof.
  induction 1 as [|a v [Ha Hu] HF IH]; [done|]. cbn [fmap list_fmap concat length].
  rewrite <- app_assoc, unpack_vec_cons, Hu by done. by rewrite IH.
Qed.

Lemma concat_pack_length pack size v :
  Forall (fun a : poly => length (pack a : list Z) = size) v →
  length (concat (pack <$> v)) = (length v * size)%nat.
Proof. induction 1 as [|a v Ha HF IH]; [done|]. cbn. rewrite length_app, IH, Ha. lia. Qed.

Lemma pack_unpack_vec pack unpack n size buf :
  (n * size <= length buf)%nat →
  (∀ c, length c = size → bytes_ok c → pack (unpack c) = c) → bytes_ok buf →
  concat (pack <$> unpack_vec unpack n size buf) = take (n * size) buf.
Proof.
  intros Hl Hp Hb. revert buf Hl Hb. induction n as [|n IH]; intros buf Hl Hb; [done|].
  rewrite <- (take_drop size buf).
  assert (length (take size buf) = size) as Hs by (rewrite length_take; lia).
  rewrite unpack_vec_cons by done. cbn [fmap list_fmap concat Nat.mul].
  rewrite Hp by (done || by apply Forall_take). rewrite IH by (by apply Forall_drop || (rewrite length_drop; lia)).
  rewrite take_app_ge, Hs by lia. do 2 f_equal. lia.
Qed.

Lemma unpack_vec_ok unpack n size buf P :
  (n * size <= length buf)%nat → (∀ c, length c = size → poly_ok P (unpack c)) →
  vec_ok n P (unpack_vec unpack n size buf).
Proof.
  intros Hl Hp. unfold unpack_vec. split; [by rewrite length_fmap, length_seq|].
  apply Forall_fmap, list.Forall_forall. intros i Hi. apply elem_of_seq in Hi. cbn. apply Hp.
  rewrite length_take, length_drop. nia.
Qed.

(** Round trips per polynomial. *)
Lemma polyz_roundtrip a : poly_ok z_ok a → length (polyz_pack a) = POLYZ_PACKEDBYTES ∧ polyz_unpack (polyz_pack a) = a.
Proof. intros [Hl HF]. split; [by apply (polyz_pack_length 64)|by apply (polyz_unpack_pack 64)]. Qed.
Lemma polyt0_roundtrip a : poly_ok t0_ok a → length (polyt0_pack a) = POLYT0_PACKEDBYTES ∧ polyt0_unpack (polyt0_pack a) = a.
Proof. intros [Hl HF]. split; [by apply (polyt0_pack_length 32)|by apply (polyt0_unpack_pack 32)]. Qed.
Lemma polyt1_roundtrip a : poly_ok t1_ok a → length (polyt1_pack a) = POLYT1_PACKEDBYTES ∧ polyt1_unpack (polyt1_pack a) = a.
Proof. intros [Hl HF]. split; [by apply (polyt1_pack_length 64)|by apply (polyt1_unpack_pack 64)]. Qed.
Lemma polyeta_roundtrip a : poly_ok eta_ok a → length (polyeta_pack a) = POLYETA_PACKEDBYTES ∧ polyeta_unpack (polyeta_pack a) = a.
Proof. intros [Hl HF]. split; [by apply (polyeta_pack_length 32)|by apply (polyeta_unpack_pack 32)]. Qed.

Lemma vec_roundtrip pack unpack size n P v rest :
  (∀ a, poly_ok P a → length (pack a) = size ∧ unpack (pack a) = a) → vec_ok n P v →
  unpack_vec unpack n size (concat (pack <$> v) ++ rest) = v ∧
  length (concat (pack <$> v)) = (n * size)%nat.
Proof.
  intros Hp [<- HF]. split.
  - apply unpack_vec_pack. eapply list.Forall_impl; [exact HF|]. intros a. apply Hp.
  - apply concat_pack_length. eapply list.Forall_impl; [exact HF|]. intros a Ha. by apply Hp.
Qed.

Lemma unpack_pk_pack rho t1 :
  length rho = SEEDBYTES → vec_ok K t1_ok t1 → unpack_pk (pack_pk rho t1) = (rho, t1).
Proof.
  intros Hr Ht. unfold unpack_pk, pack_pk. rewrite take_app_length', drop_app_length' by done.
  rewrite <- (app_nil_r (concat _)).
  by destruct (vec_roundtrip polyt1_pack polyt1_unpack POLYT1_PACKEDBYTES K t1_ok t1 [] polyt1_roundtrip Ht) as [-> _].
Qed.

Lemma unpack_sk_pack rho tr key t0 s1 s2 :
  length rho = SEEDBYTES → length tr = TRBYTES → length key = SEEDBYTES →
  vec_ok K t0_ok t0 → vec_ok L eta_ok s1 → vec_ok K eta_ok s2 →
  unpack_sk (pack_sk rho tr key t0 s1 s2) = (rho, tr, key, t0, s1, s2).
Proof.
  intros Hr Ht Hk H0 H1 H2. unfold unpack_sk, pack_sk. cbv zeta.
  do 3 (rewrite take_app_length', drop_app_length' by done).
  edestruct (vec_roundtrip polyeta_pack polyeta_unpack POLYETA_PACKEDBYTES L eta_ok s1) as [E1 L1];
    [apply polyeta_roundtrip|done|]. rewrite E1, drop_app_length' by done.
  edestruct (vec_roundtrip polyeta_pack polyeta_unpack POLYETA_PACKEDBYTES K eta_ok s2) as [E2 L2];
    [apply polyeta_roundtrip|done|]. rewrite E2, drop_app_length' by done.
  rewrite <- (app_nil_r (concat (polyt0_pack <$> t0))).
  by destruct (vec_roundtrip polyt0_pack polyt0_unpack POLYT0_PACKEDBYTES K t0_ok t0 [] polyt0_roundtrip H0)
    as [-> _].
Qed.

(** Hint vectors a signature can carry. *)
Definition hints_ok (h : polyvec) : Prop :=
  length h = K ∧ Forall binary h ∧ (length (concat (positions <$> h)) <= OMEGA)%nat.

Lemma hints_ok_decode h :
  hints_ok h → decode_hints (encode_hints h) = Some h ∧ length (encode_hints h) = (OMEGA + K)%nat.
Proof.
  intros (Hl & HF & Hn). unfold K in *. peel 4 h. destruct h; [|cbn in Hl; lia].
  split_Forall. cbn [fmap list_fmap concat] in Hn. rewrite app_nil_r in Hn.
  rewrite encode_hints_layout by done. split.
  - rewrite layout_decode by (done || apply sorted_increasing, positions_sorted).
    by rewrite !ones_positions.
  - unfold layout. rewrite !length_app, length_replicate in *. cbn [length]. lia.
Qed.

Lemma decode_hints_ok sig h :
  length sig = (OMEGA + K)%nat → bytes_ok sig → decode_hints sig = Some h →
  hints_ok h ∧ encode_hints h = sig.
Proof.
  intros Hl Hb Hd. apply decode_layout in Hd
    as (p0 & p1 & p2 & p3 & Hn & I0 & I1 & I2 & I3 & Hbp & -> & ->); [|done|done].
  apply Forall_app in Hbp as [B0 Hbp]. apply Forall_app in Hbp as [B1 Hbp].
  apply Forall_app in Hbp as [B2 B3].
  split.
  - split_and!; [done| |].
    + repeat constructor; try apply ones_length; by apply ones_binary.
    + cbn [fmap list_fmap concat]. rewrite !positions_ones, app_nil_r by done. done.
  - rewrite encode_hints_layout; rewrite !positions_ones by done; done.
Qed.

Lemma unpack_sig_pack c z h :
  length c = CTILDEBYTES → vec_ok L z_ok z → hints_ok h →
  unpack_sig (pack_sig c z h) = Some (c, z, h) ∧ length (pack_sig c z h) = CRYPTO_BYTES.
Proof.
  intros Hc Hz Hh. destruct (hints_ok_decode h Hh) as [Ed El].
  destruct (vec_roundtrip polyz_pack polyz_unpack POLYZ_PACKEDBYTES L z_ok z (encode_hints h)
    polyz_roundtrip Hz) as [Ez Lz].
  unfold unpack_sig, pack_sig. cbv zeta. rewrite take_app_length', drop_app_length' by done.
  rewrite Ez, drop_app_length', Ed by done. split; [done|].
  by rewrite !length_app, Hc, Lz, El.
Qed.

Lemma pack_sig_unpack sig c z h :
  length sig = CRYPTO_BYTES → bytes_ok sig → unpack_sig sig = Some (c, z, h) →
  length c = CTILDEBYTES ∧ vec_ok L z_ok z ∧ hints_ok h ∧ pack_sig c z h = sig.
Proof.
  intros Hl Hb Hu. unfold unpack_sig in Hu. cbv zeta in Hu.
  set (rest := drop CTILDEBYTES sig) in *.
  assert (length rest = (L * POLYZ_PACKEDBYTES + (OMEGA + K))%nat) as Hr
    by (unfold rest; by rewrite length_drop, Hl).
  assert (bytes_ok rest) as Hbr by (by apply Forall_drop).
  destruct (decode_hints (drop (L * POLYZ_PACKEDBYTES) rest)) as [h'|] eqn:Ed; [|done].
  injection Hu as <- <- <-.
  apply decode_hints_ok in Ed as [Hh He]; [|rewrite length_drop, Hr; lia|by apply Forall_drop].
  split_and!; [by rewrite length_take, Hl|apply unpack_vec_ok; [rewrite Hr; lia|]|done|].
  - intros b Hlb. by apply (polyz_unpack_ok 64).
  - unfold pack_sig. rewrite He, pack_unpack_vec; [|rewrite Hr; lia| |done].
    + rewrite take_drop. apply take_drop.
    + intros b Hlb Hbb. by apply (polyz_pack_unpack 64).
Qed.

End KeyFacts.

Module MldsaPackProps.
Import KeyFacts.

(** C17: A signature has one encoding.  A challenge hash, a response vector with
    coefficients in [(-GAMMA1, GAMMA1]] and a hint vector of zeros and ones
    with at most [OMEGA] ones encode to [CRYPTO_BYTES] bytes that decode to
    them; and a byte string of that length that [unpack_sig] accepts is the
    encoding of what it decodes to, so that no two accepted strings carry the
    same signature. *)
Theorem signature_encoding_unique (c sig : list Z) (z h : polyvec) :
  length sig = CRYPTO_BYTES → bytes_ok sig →
  unpack_sig sig = Some (c, z, h) ↔
  (length c = CTILDEBYTES ∧ vec_ok L z_ok z ∧ hints_ok h ∧ pack_sig c z h = sig).
Proof.
  intros Hl Hb. split; [by apply pack_sig_unpack|].
  intros (Hc & Hz & Hh & <-). by apply unpack_sig_pack.
Qed.

Definition zero_sig : list Z := replicate CRYPTO_BYTES 0.

Lemma signature_encoding_unique_witness :
  pack_sig (replicate CTILDEBYTES 0) (replicate L (replicate N GAMMA1)) (replicate K (replicate N 0))
  = zero_sig.
Proof.
  apply (signature_encoding_unique (replicate CTILDEBYTES 0) zero_sig
    (replicate L (replicate N GAMMA1)) (replicate K (replicate N 0))); [done| |by vm_compute].
  apply Forall_replicate. by split.
Defined.

(** Keys decode to what was encoded: the public key to [rho] and [t1], the
    secret key to its six parts, for vectors in the ranges key generation
    produces. *)
Theorem key_encoding_roundtrip (rho tr key : list Z) (t1 t0 s1 s2 : polyvec) :
  length rho = SEEDBYTES → length tr = TRBYTES → length key = SEEDBYTES →
  vec_ok K t1_ok t1 → vec_ok K t0_ok t0 → vec_ok L eta_ok s1 → vec_ok K eta_ok s2 →
  unpack_pk (pack_pk rho t1) = (rho, t1) ∧
  unpack_sk (pack_sk rho tr key t0 s1 s2) = (rho, tr, key, t0, s1, s2).
Proof. intros. split; [by apply unpack_pk_pack|by apply unpack_sk_pack]. Qed.

Lemma key_encoding_roundtrip_witness :
  unpack_pk (pack_pk (replicate 32 7) (replicate K (replicate N 1023)))
  = (replicate 32 7, replicate K (replicate N 1023)).
Proof.
  assert (∀ n P x, P x → vec_ok n P (replicate n (replicate N x))) as H.
  { intros n P x HP. split; [apply length_replicate|]. apply Forall_replicate.
    split; [apply length_replicate|by apply Forall_replicate]. }
  apply (key_encoding_roundtrip (replicate 32 7) (replicate 64 8) (replicate 32 9)
    (replicate K (replicate N 1023)) (replicate K (replicate N 4096))
    (replicate L (replicate N 2)) (replicate K (replicate N (-2)))); [done..| | | |]; by apply H.
Defined.

End MldsaPackProps.
