(* ===== verification/MldsaFacts.v ===== *)
(** * ML-DSA-44: signatures verify

    What the samplers return, the vectors of [sign.c] as functions, and the
    completeness of the scheme: whatever the permutation and the random bytes,
    a signature that the signing loop produces with a generated key is accepted
    under the public key. *)
From S2P Require Import Prelude Fips202 Fips202Facts MldsaPoly Mldsa MldsaArith MldsaNtt MldsaRing MldsaPack.
From Stdlib Require Import Setoid Morphisms.

(** ** Ranges of sampled polynomials *)
Module SampleFacts.
Export Sign KeyFacts PolyFacts.
Import HashFacts.

Definition q_ok (x : Z) : Prop := 0 <= x < Q.
Definition c_ok (x : Z) : Prop := -1 <= x <= 1.

Lemma rej_uniform_ok len buf :
  Forall q_ok (rej_uniform len buf) ∧ (length (rej_uniform len buf) <= len)%nat.
Proof.
  remember (length buf) as n eqn:En. assert (length buf <= n)%nat as Hn by lia. clear En.
  revert len buf Hn. induction n as [|n IH]; intros len buf Hn.
  { destruct buf; [|cbn in Hn; lia]. destruct len; (split; [constructor|cbn; lia]). }
  destruct len as [|len]; [destruct buf; (split; [constructor|cbn; lia])|].
  destruct buf as [ | b0 [ | b1 [ | b2 buf]]]; try (split; [constructor|cbn; lia]).
  cbn [rej_uniform]. rewrite (land_mask 23 _ 0x7FFFFF) by done. split_if.
  - destruct (IH len buf) as [H1 H2]; [cbn in Hn; lia|]. cbn [length]. split; [|lia].
    constructor; [|done]. split; [apply Z.mod_pos_bound; lia|done].
  - apply IH. cbn in Hn. lia.
Qed.

Lemma eta_coeff_ok t : 0 <= t < 15 → eta_ok (eta_coeff t).
Proof.
  intros Ht. unfold eta_ok, ETA.
  enough (((-2 <=? eta_coeff t) && (eta_coeff t <=? 2))%bool = true) by lia.
  revert t Ht. apply (seqZ_forallb (fun t => _)). by vm_compute.
Qed.

Lemma rej_eta_ok len buf :
  bytes_ok buf → Forall eta_ok (rej_eta len buf) ∧ (length (rej_eta len buf) <= len)%nat.
Proof.
  revert len. induction buf as [|b buf IH]; intros len HF.
  { destruct len; (split; [constructor|cbn; lia]). }
  apply list.Forall_cons in HF as [Hb HF]. destruct len as [|len]; [split; [constructor|cbn; lia]|].
  cbn [rej_eta]. assert (0 <= Z.land b 15 ∧ 0 <= Z.shiftr b 4) as [H0 H1].
  { rewrite (land_mask 4) by done. rewrite Z.shiftr_div_pow2 by lia. unfold in_u in Hb. zdm. }
  destruct (Z.ltb_spec (Z.land b 15) 15) as [Ht0|Ht0].
  - destruct len as [|len].
    + split; [repeat constructor; by apply eta_coeff_ok|cbn; lia].
    + destruct (Z.ltb_spec (Z.shiftr b 4) 15).
      * destruct (IH len) as [I1 I2]; [done|]. cbn [app length]. split; [|lia].
        repeat constructor; [by apply eta_coeff_ok..|done].
      * destruct (IH (S len)) as [I1 I2]; [done|]. cbn [app length]. split; [|lia].
        constructor; [by apply eta_coeff_ok|done].
  - destruct (Z.ltb_spec (Z.shiftr b 4) 15).
    + destruct (IH len) as [I1 I2]; [done|]. cbn [app length]. split; [|lia].
      constructor; [by apply eta_coeff_ok|done].
    + destruct (IH (S len)) as [I1 I2]; [done|]. by cbn [app].
Qed.

(** The bytes of a stream. *)
Lemma squeeze_ok permute r n st :
  (0 < r)%nat → (count st <= r)%nat →
  length (keccak_inc_squeeze permute n st r).1 = n ∧
  bytes_ok (keccak_inc_squeeze permute n st r).1 ∧
  (count (keccak_inc_squeeze permute n st r).2 <= r)%nat.
Proof.
  intros Hr Hc. rewrite keccak_inc_squeeze_spec by done.
  split_and!; [by apply squeezes_length| |by apply squeezes_count]. clear Hc.
  revert st. induction n as [|n IH]; intros st; cbn [squeezes]; [constructor|].
  destruct (squeeze1 _ _ st) as [b st'] eqn:E. specialize (IH st').
  destruct (squeezes _ _ n st') as [h st2]. cbn [fst] in *. constructor; [|done].
  unfold squeeze1 in E. injection E as <- _. unfold state_byte. apply wrap_range. lia.
Qed.

Section Sampling.
Context (permute : list Z → list Z) (fuel : nat).

Lemma poly_uniform_ok seed nonce a : poly_uniform permute fuel seed nonce = Some a → poly_ok q_ok a.
Proof.
  unfold poly_uniform. destruct (stream128_squeezeblocks _ _ _) as [buf st].
  pose proof (rej_uniform_ok N buf) as [HF Hl]. revert HF Hl. generalize (rej_uniform N buf).
  revert buf st. induction fuel as [|f IH]; intros buf st a0 HF Hl; cbn [poly_uniform_loop].
  - destruct (Nat.ltb_spec (length a0) N); [done|]. intros [= <-]. split; [lia|done].
  - destruct (Nat.ltb_spec (length a0) N).
    + destruct (stream128_squeezeblocks _ _ _) as [block st']. apply IH.
      * apply Forall_app. split; [done|]. apply rej_uniform_ok.
      * rewrite length_app.
        pose proof (rej_uniform_ok (N - length a0) (drop (length buf - length buf mod 3) buf ++ block)) as [_ ?].
        lia.
    + intros [= <-]. split; [lia|done].
Qed.

Lemma poly_uniform_eta_ok seed nonce a :
  poly_uniform_eta permute fuel seed nonce = Some a → poly_ok eta_ok a.
Proof.
  unfold poly_uniform_eta, stream256_squeezeblocks.
  set (st0 := dilithium_shake256_stream_init permute seed nonce).
  assert (count st0 <= SHAKE256_RATE)%nat as H0 by (cbn; lia).
  pose proof (squeeze_ok permute SHAKE256_RATE (POLY_UNIFORM_ETA_NBLOCKS * SHAKE256_RATE) st0) as Hs.
  unfold shake256_inc_squeeze. destruct (keccak_inc_squeeze _ _ st0 _) as [buf st].
  destruct Hs as (_ & Hb & Hc); [unfold SHAKE256_RATE; lia|done|]. cbn [fst snd] in *.
  pose proof (rej_eta_ok N buf Hb) as [HF Hl]. revert HF Hl. generalize (rej_eta N buf). clear Hb buf H0 st0.
  revert st Hc. induction fuel as [|f IH]; intros st Hc a0 HF Hl; cbn [poly_uniform_eta_loop].
  - destruct (Nat.ltb_spec (length a0) N); [done|]. intros [= <-]. split; [lia|done].
  - destruct (Nat.ltb_spec (length a0) N); [|intros [= <-]; split; [lia|done]].
    unfold stream256_squeezeblocks, shake256_inc_squeeze.
    pose proof (squeeze_ok permute SHAKE256_RATE (1 * SHAKE256_RATE) st) as Hs.
    destruct (keccak_inc_squeeze _ _ st _) as [buf st'].
    destruct Hs as (_ & Hb & Hc'); [unfold SHAKE256_RATE; lia|done|]. cbn [fst snd] in *.
    pose proof (rej_eta_ok (N - length a0) buf Hb) as [HF' Hl'].
    apply IH; [done|by apply Forall_app|rewrite length_app; lia].
Qed.

Lemma poly_uniform_gamma1_ok seed nonce : poly_ok z_ok (poly_uniform_gamma1 permute seed nonce).
Proof.
  unfold poly_uniform_gamma1, stream256_squeezeblocks, shake256_inc_squeeze.
  set (st0 := dilithium_shake256_stream_init permute seed nonce).
  destruct (squeeze_ok permute SHAKE256_RATE (POLY_UNIFORM_GAMMA1_NBLOCKS * SHAKE256_RATE) st0)
    as (Hl & _); [unfold SHAKE256_RATE; lia|cbn; lia|].
  apply (polyz_unpack_ok 64). rewrite length_take, Hl. done.
Qed.

Lemma poly_challenge_ok seed c : poly_challenge permute fuel seed = Some c → poly_ok c_ok c.
Proof.
  unfold poly_challenge. destruct (shake256_inc_squeeze _ _ _) as [buf st].
  set (signs := foldl _ _ _). clearbody signs.
  assert (poly_ok c_ok (replicate N 0)) as H.
  { split; [apply length_replicate|]. apply Forall_replicate. unfold c_ok. lia. }
  assert (Forall (fun i => (i < N)%nat) (seq (N - TAU) TAU)) as Hidx.
  { apply list.Forall_forall. intros i Hi. apply elem_of_seq in Hi. unfold N, TAU in *. lia. }
  revert H. generalize (replicate N 0). generalize (drop 8 buf). revert signs st.
  induction Hidx as [|i idx Hi Hidx IH]; intros signs st bs c0 H; cbn [challenge_loop]; [by intros [= <-]|].
  destruct (challenge_index _ _ _ _ _) as [[[b bs'] st']|] eqn:E; [|done].
  apply IH. destruct H as [Hl HF]. split; [by rewrite !length_insert|].
  apply Forall_insert.
  - apply Forall_insert; [done|]. destruct (decide (b < length c0)%nat) as [Hb|Hb].
    + rewrite list.Forall_forall in HF. apply HF, list_elem_of_lookup_total. eauto.
    + rewrite lookup_total_out by lia. unfold c_ok. lia.
  - assert (Z.land signs 1 = 0 ∨ Z.land signs 1 = 1) as Hs.
    { rewrite (land_mask 1) by done. zdm. }
    unfold c_ok. destruct Hs as [-> | ->]; vm_compute; split; discriminate.
Qed.

Lemma mapM_vec n P (f : nat → option poly) v :
  (∀ i a, f i = Some a → poly_ok P a) → mapM f (seq 0 n) = Some v → vec_ok n P v.
Proof.
  intros Hf Hm. apply mapM_Some in Hm. split.
  - apply Forall2_length in Hm. by rewrite length_seq in Hm.
  - apply list.Forall_forall. intros a Ha. apply list_elem_of_lookup in Ha as [i Hi].
    destruct (Forall2_lookup_r _ _ _ _ _ Hm Hi) as (j & _ & Hj). by apply Hf in Hj.
Qed.

Lemma polyvecl_uniform_eta_ok seed nonce v :
  polyvecl_uniform_eta permute fuel seed nonce = Some v → vec_ok L eta_ok v.
Proof. apply mapM_vec. intros i a. apply poly_uniform_eta_ok. Qed.
Lemma polyveck_uniform_eta_ok seed nonce v :
  polyveck_uniform_eta permute fuel seed nonce = Some v → vec_ok K eta_ok v.
Proof. apply mapM_vec. intros i a. apply poly_uniform_eta_ok. Qed.
Lemma polyvecl_uniform_gamma1_ok seed nonce :
  vec_ok L z_ok (polyvecl_uniform_gamma1 permute seed nonce).
Proof.
  split; [done|]. apply Forall_fmap, list.Forall_forall. intros i _. unfold compose. cbn beta.
  apply poly_uniform_gamma1_ok.
Qed.

Lemma polyvec_matrix_expand_ok rho mat :
  polyvec_matrix_expand permute fuel rho = Some mat → length mat = K ∧ Forall (vec_ok L q_ok) mat.
Proof.
  intros Hm. apply mapM_Some in Hm. split.
  - apply Forall2_length in Hm. by rewrite length_seq in Hm.
  - apply list.Forall_forall. intros row Hr. apply list_elem_of_lookup in Hr as [i Hi].
    destruct (Forall2_lookup_r _ _ _ _ _ Hm Hi) as (j & _ & Hj). revert Hj. apply mapM_vec.
    intros k a. apply poly_uniform_ok.
Qed.

Lemma shake256_length n m : length (shake256 permute n m) = n.
Proof. apply (one_shot_length permute 136 17); [lia|done]. Qed.

End Sampling.
End SampleFacts.

(** ** Vectors as functions of position and index *)
Module VectorFacts.
Export SampleFacts.

Definition vrep (n : nat) (B : Z) (v : polyvec) (F : nat → nat → Z) : Prop :=
  length v = n ∧ ∀ j, (j < n)%nat → represents B (v !!! j) (F j).

Lemma vec_lookup_map (f : poly → poly) (v : polyvec) j :
  (j < length v)%nat → (f <$> v) !!! j = f (v !!! j).
Proof.
  intros Hj. rewrite !list_lookup_total_alt, list_lookup_fmap.
  by destruct (lookup_lt_is_Some_2 v j Hj) as [x ->].
Qed.
Lemma vec_lookup_zip (f : poly → poly → poly) (u v : polyvec) j :
  (j < length u)%nat → (j < length v)%nat → zip_with f u v !!! j = f (u !!! j) (v !!! j).
Proof.
  intros Hu Hv. rewrite !list_lookup_total_alt, lookup_zip_with.
  by destruct (lookup_lt_is_Some_2 u j Hu) as [x ->], (lookup_lt_is_Some_2 v j Hv) as [y ->].
Qed.

Lemma vrep_map n B v F f B' G :
  vrep n B v F → (∀ j, (j < n)%nat → represents B (v !!! j) (F j) → represents B' (f (v !!! j)) (G j)) →
  vrep n B' (f <$> v) G.
Proof.
  intros [Hl H] Hf. split; [by rewrite length_fmap|]. intros j Hj.
  rewrite vec_lookup_map by lia. apply Hf; auto.
Qed.
Lemma vrep_zip n B u F C v G f B' H :
  vrep n B u F → vrep n C v G →
  (∀ j, (j < n)%nat → represents B (u !!! j) (F j) → represents C (v !!! j) (G j) →
        represents B' (f (u !!! j) (v !!! j)) (H j)) →
  vrep n B' (zip_with f u v) H.
Proof.
  intros [Hl HF] [Hm HG] Hf. split; [rewrite length_zip_with; lia|]. intros j Hj.
  rewrite vec_lookup_zip by lia. apply Hf; auto.
Qed.
Lemma vrep_feq n B v F G : vrep n B v F → (∀ j, (j < n)%nat → F j ≈ G j) → vrep n B v G.
Proof. intros [Hl H] E. split; [done|]. intros j Hj. eapply represents_feq; auto. Qed.
Lemma vrep_weaken n B C v F : vrep n B v F → B <= C → vrep n C v F.
Proof. intros [Hl H] HB. split; [done|]. intros j Hj. eapply represents_weaken; auto. Qed.

(** The coefficients themselves. *)
Definition coeffs (v : polyvec) (j i : nat) : Z := (v !!! j) !!! i.

Lemma vec_lookup_ok n P v j : vec_ok n P v → (j < n)%nat → poly_ok P (v !!! j).
Proof.
  intros [Hl HF] Hj. rewrite list.Forall_forall in HF. apply HF, list_elem_of_lookup_total.
  exists j. split; [lia|done].
Qed.
Lemma coeffs_ok n P v j i : vec_ok n P v → (j < n)%nat → (i < N)%nat → P (coeffs v j i).
Proof.
  intros Hv Hj Hi. destruct (vec_lookup_ok n P v j Hv Hj) as [Hl HF]. rewrite list.Forall_forall in HF.
  apply HF, list_elem_of_lookup_total. exists i. split; [lia|done].
Qed.
Lemma vrep_coeffs n P B v :
  vec_ok n P v → (∀ x, P x → - B <= x <= B) → 1 <= B → vrep n B v (coeffs v).
Proof.
  intros Hv HP HB. split; [apply Hv|]. intros j Hj. destruct (vec_lookup_ok n P v j Hv Hj) as [Hl HF].
  apply represents_self; [done| |done]. eapply list.Forall_impl; [exact HF|done].
Qed.

Lemma vrep_ntt n B v F :
  vrep n B v F → B + 8 * Q <= 2 ^ 31 → vrep n (B + 8 * Q) (poly_ntt <$> v) (fun j => NTT (F j)).
Proof. intros H HB. eapply vrep_map; [done|]. intros j _ Hj. by apply poly_ntt_spec. Qed.
Lemma vrep_invntt n v H :
  vrep n (Q - 1) v (fun j i => Rinv * H j i) →
  vrep n inv_bound (poly_invntt_tomont <$> v) (fun j => untransform (H j)).
Proof. intros Hv. eapply vrep_map; [done|]. intros j _ Hj. by apply poly_invntt_spec. Qed.
Lemma vrep_pointwise n c f B v F C :
  represents B c f → vrep n C v F → B * C < 2 ^ 31 * Q →
  vrep n (Q - 1) (poly_pointwise_montgomery c <$> v) (fun j i => Rinv * (f i * F j i)).
Proof. intros Hc Hv HB. eapply vrep_map; [done|]. intros j _ Hj. by eapply poly_pointwise_spec. Qed.
Lemma vrep_reduce n B v F :
  vrep n B v F → B < 2 ^ 31 - 2 ^ 22 → vrep n 6283009 (poly_reduce <$> v) F.
Proof. intros H HB. eapply vrep_map; [done|]. intros j _ Hj. by eapply poly_reduce_spec. Qed.
Lemma vrep_add n B u F C v G :
  vrep n B u F → vrep n C v G → B + C < 2 ^ 31 →
  vrep n (B + C) (zip_with poly_add u v) (fun j i => F j i + G j i).
Proof. intros Hu Hv HB. eapply vrep_zip; [done..|]. intros j _ H1 H2. by apply poly_add_spec. Qed.
Lemma vrep_sub n B u F C v G :
  vrep n B u F → vrep n C v G → B + C < 2 ^ 31 →
  vrep n (B + C) (zip_with poly_sub u v) (fun j i => F j i - G j i).
Proof. intros Hu Hv HB. eapply vrep_zip; [done..|]. intros j _ H1 H2. by apply poly_sub_spec. Qed.

(** ** Matrix times vector, in the transformed domain *)
Definition matrix_ok (mat : list polyvec) : Prop := length mat = K ∧ Forall (vec_ok L q_ok) mat.
Definition row_sum (mat : list polyvec) (F : nat → nat → Z) (i n : nat) : Z :=
  sumn L (fun j => coeffs (mat !!! i) j n * F j n).

Lemma pointwise_acc_spec u v F C :
  vec_ok L q_ok u → vrep L C v F → C < 2 ^ 31 →
  represents (4 * (Q - 1)) (polyvecl_pointwise_acc_montgomery u v)
    (fun n => Rinv * sumn L (fun j => coeffs u j n * F j n)).
Proof.
  intros Hu [Hl Hv] HC. unfold polyvecl_pointwise_acc_montgomery, L. cbn [Nat.sub seq foldl].
  assert (vrep L Q u (coeffs u)) as [_ Hu'].
  { eapply vrep_coeffs; [exact Hu| |done]. unfold q_ok. lia. }
  assert (∀ j, (j < 4)%nat → represents (Q - 1) (poly_pointwise_montgomery (u !!! j) (v !!! j))
    (fun n => Rinv * (coeffs u j n * F j n))) as Hp.
  { intros j Hj. eapply poly_pointwise_spec; [by apply Hu'|by apply Hv|]. unfold Q in *. lia. }
  eapply represents_feq.
  - replace (4 * (Q - 1)) with (Q - 1 + (Q - 1) + (Q - 1) + (Q - 1)) by lia.
    apply poly_add_spec; [apply poly_add_spec; [apply poly_add_spec|..]|..]; try (apply Hp; lia); done.
  - intros n Hn. cbn [sumn]. eqq_ring.
Qed.

Lemma matrix_product mat v F B :
  matrix_ok mat → vrep L B v F → B + 8 * Q < 2 ^ 31 →
  vrep K (4 * (Q - 1)) (polyvec_matrix_pointwise_montgomery mat (polyvecl_ntt v))
    (fun i n => Rinv * row_sum mat (fun j => NTT (F j)) i n).
Proof.
  intros [Hl HF] Hv HB. unfold polyvec_matrix_pointwise_montgomery. split; [by rewrite length_fmap|].
  intros i Hi. rewrite list_lookup_total_alt, list_lookup_fmap.
  destruct (lookup_lt_is_Some_2 mat i) as [row Hrow]; [lia|]. rewrite Hrow. cbn [fmap option_fmap option_map default id].
  unfold row_sum. rewrite (list_lookup_total_correct _ _ _ Hrow).
  eapply pointwise_acc_spec; [|apply vrep_ntt; [done|lia]|lia].
  rewrite list.Forall_forall in HF. apply HF. by eapply list_elem_of_lookup_2.
Qed.

Lemma matrix_vector mat v F B :
  matrix_ok mat → vrep L B v F → B + 8 * Q < 2 ^ 31 →
  vrep K inv_bound
    (polyveck_invntt_tomont (polyveck_reduce (polyvec_matrix_pointwise_montgomery mat (polyvecl_ntt v))))
    (fun i => untransform (row_sum mat (fun j => NTT (F j)) i)).
Proof.
  intros Hm Hv HB. apply vrep_invntt. apply (vrep_weaken K 6283009); [|done].
  eapply vrep_reduce; [by eapply matrix_product|done].
Qed.

(** A polynomial times a vector. *)
Lemma poly_vector n c f B v F C :
  represents B c f → vrep n C v F → (B + 8 * Q) * (C + 8 * Q) < 2 ^ 31 * Q →
  B + 8 * Q <= 2 ^ 31 → C + 8 * Q <= 2 ^ 31 →
  vrep n inv_bound (poly_invntt_tomont <$> (poly_pointwise_montgomery (poly_ntt c) <$> (poly_ntt <$> v)))
    (fun j => untransform (fun i => NTT f i * NTT (F j) i)).
Proof.
  intros Hc Hv H1 H2 H3. apply vrep_invntt. eapply vrep_pointwise; [by apply poly_ntt_spec|by apply vrep_ntt|done].
Qed.

(** ** Norm checks *)
Lemma coeff_exceeds_spec B x : - 2 ^ 30 <= x < 2 ^ 30 → coeff_exceeds B x = (B <=? Z.abs x).
Proof.
  intros Hx. unfold coeff_exceeds. rewrite shiftr31, (i32_small (2 * x)) by lia.
  rewrite Z.geb_leb. f_equal. split_if; rewrite ?Z.land_m1_l, ?Z.land_0_l, i32_small by lia; lia.
Qed.

Lemma chknorm_false n v F C B :
  vrep n C v F → C < 2 ^ 30 → existsb (fun a => poly_chknorm a B) v = false →
  ∀ j i, (j < n)%nat → (i < N)%nat → - B < coeffs v j i < B.
Proof.
  intros [Hl Hv] HC He j i Hj Hi. destruct (Hv j Hj) as (Hlj & HB & _).
  apply not_true_iff_false in He. destruct (decide (- B < coeffs v j i < B)) as [|Hn]; [done|].
  destruct He. apply existsb_exists. exists (v !!! j). split.
  - apply list_elem_of_In, list_elem_of_lookup_total. exists j. split; [lia|done].
  - unfold poly_chknorm. destruct (B >? (Q - 1) / 8); [done|]. apply existsb_exists.
    exists ((v !!! j) !!! i). specialize (HB i). unfold coeffs in Hn. split.
    + apply list_elem_of_In, list_elem_of_lookup_total. exists i. split; [unfold N in *; lia|done].
    + rewrite coeff_exceeds_spec by lia. apply Z.leb_le. lia.
Qed.

Lemma chknorm_true_iff n v F C B :
  vrep n C v F → C < 2 ^ 30 → B <= (Q - 1) / 8 →
  (∀ j i, (j < n)%nat → (i < N)%nat → - B < coeffs v j i < B) →
  existsb (fun a => poly_chknorm a B) v = false.
Proof.
  intros [Hl Hv] HC HB H. apply not_true_iff_false. rewrite existsb_exists. intros (a & Ha & He).
  apply list_elem_of_In, list_elem_of_lookup_total in Ha as (j & Hj & <-).
  unfold poly_chknorm in He. destruct (Z.gtb_spec B ((Q - 1) / 8)); [lia|].
  apply existsb_exists in He as (x & Hx & He).
  apply list_elem_of_In, list_elem_of_lookup_total in Hx as (i & Hi & <-).
  rewrite Hl in Hj. destruct (Hv j Hj) as (Hlj & Hb & _). specialize (Hb i).
  specialize (H j i Hj). unfold coeffs, N in H. rewrite coeff_exceeds_spec in He by lia.
  apply Z.leb_le in He. lia.
Qed.

End VectorFacts.

(** ** The identities behind signing *)
Module SchemeFacts.
Export VectorFacts.

(** All polynomials have full length. *)
Definition shape (n : nat) (v : polyvec) : Prop :=
  length v = n ∧ ∀ j, (j < n)%nat → length (v !!! j) = N.

Lemma vrep_shape n B v F : vrep n B v F → shape n v.
Proof. intros [Hl H]. split; [done|]. intros j Hj. apply H, Hj. Qed.
Lemma vec_ok_shape n P v : vec_ok n P v → shape n v.
Proof. intros H. split; [apply H|]. intros j Hj. apply (vec_lookup_ok n P v j H Hj). Qed.
Lemma vec_ok_intro n P v :
  shape n v → (∀ j i, (j < n)%nat → (i < N)%nat → P (coeffs v j i)) → vec_ok n P v.
Proof.
  intros [Hl Hs] H. split; [done|]. apply list.Forall_forall. intros a Ha.
  apply list_elem_of_lookup_total in Ha as (j & Hj & <-). rewrite Hl in Hj. split; [by apply Hs|].
  apply list.Forall_forall. intros x Hx. apply list_elem_of_lookup_total in Hx as (i & Hi & <-).
  rewrite Hs in Hi by done. by apply H.
Qed.
Lemma shape_eq n u v :
  shape n u → shape n v → (∀ j i, (j < n)%nat → (i < N)%nat → coeffs u j i = coeffs v j i) → u = v.
Proof.
  intros [Hu Hus] [Hv Hvs] H. apply list_eq_same_length with n; [done..|].
  intros j a b Hj Ha Hb. apply list_lookup_total_correct in Ha, Hb. subst.
  apply list_eq_same_length with N; [by apply Hvs|by apply Hus|].
  intros i x y Hi Hx Hy. apply list_lookup_total_correct in Hx, Hy. subst. by apply H.
Qed.

Lemma shape_map n (h : Z → Z) v : shape n v → shape n ((fun a : poly => h <$> a) <$> v).
Proof.
  intros [Hl Hs]. split; [by rewrite length_fmap|]. intros j Hj.
  rewrite vec_lookup_map, length_fmap by lia. by apply Hs.
Qed.
Lemma coeffs_map n (h : Z → Z) v j i :
  shape n v → (j < n)%nat → (i < N)%nat → coeffs ((fun a : poly => h <$> a) <$> v) j i = h (coeffs v j i).
Proof.
  intros [Hl Hs] Hj Hi. unfold coeffs. rewrite vec_lookup_map, lookup_total_map by (rewrite ?Hs by done; lia). done.
Qed.
Lemma shape_zip n (h : Z → Z → Z) u v : shape n u → shape n v → shape n (zip_with (zip_with h) u v).
Proof.
  intros [Hl Hs] [Hl' Hs']. split; [rewrite length_zip_with; lia|]. intros j Hj.
  rewrite vec_lookup_zip, length_zip_with, Hs, Hs' by lia. lia.
Qed.
Lemma coeffs_zip n (h : Z → Z → Z) u v j i :
  shape n u → shape n v → (j < n)%nat → (i < N)%nat →
  coeffs (zip_with (zip_with h) u v) j i = h (coeffs u j i) (coeffs v j i).
Proof.
  intros [Hl Hs] [Hl' Hs'] Hj Hi. unfold coeffs.
  by rewrite vec_lookup_zip, lookup_total_zip by (rewrite ?Hs, ?Hs' by done; lia).
Qed.

(** Standard representatives. *)
Lemma caddq_vector n B v F :
  vrep n B v F → B < Q →
  shape n (poly_caddq <$> v) ∧
  ∀ j i, (j < n)%nat → (i < N)%nat → coeffs (poly_caddq <$> v) j i = F j i mod Q.
Proof.
  intros Hv HB. pose proof (vrep_shape _ _ _ _ Hv) as Hs. split; [by apply (shape_map n caddq)|].
  intros j i Hj Hi. destruct (proj2 Hv j Hj) as (_ & Hb & Hf).
  rewrite (coeffs_map n caddq) by done. rewrite caddq_spec by (specialize (Hb i); unfold coeffs; lia).
  by apply Hf.
Qed.

(** The public matrix, the key and the masked product. *)
Section Algebra.
Context (mat : list polyvec) (c : nat → Z) (s1 s2 t0 t1 y z : nat → nat → Z).

Definition times (F : nat → nat → Z) (i : nat) : nat → Z :=
  untransform (row_sum mat (fun j => NTT (F j)) i).
Definition scaled (F : nat → nat → Z) (j : nat) : nat → Z :=
  untransform (fun n => NTT c n * NTT (F j) n).

Context (key_eq : ∀ i, (i < K)%nat →
  (fun n => t1 i n * 2 ^ D + t0 i n) ≈ (fun n => times s1 i n + s2 i n)).
Context (response_eq : ∀ j, (j < L)%nat → z j ≈ (fun n => scaled s1 j n + y j n)).

Lemma NTT_add f g : NTT (fun n => f n + g n) ≈ (fun n => NTT f n + NTT g n).
Proof.
  transitivity (NTT (fun n => 1 * f n + 1 * g n)).
  - apply NTT_proper. intros n _. by rewrite !Z.mul_1_l.
  - rewrite NTT_linear. intros n _. by rewrite !Z.mul_1_l.
Qed.
Lemma NTT_sub f g : NTT (fun n => f n - g n) ≈ (fun n => NTT f n - NTT g n).
Proof.
  transitivity (NTT (fun n => 1 * f n + (-1) * g n)).
  - apply NTT_proper. intros n _. eqq_ring.
  - rewrite NTT_linear. intros n _. eqq_ring.
Qed.

Lemma response_transform j n :
  (j < L)%nat → (n < 256)%nat → NTT (z j) n ≡q NTT c n * NTT (s1 j) n + NTT (y j) n.
Proof.
  intros Hj Hn. rewrite (NTT_proper _ _ (response_eq j Hj) n Hn), (NTT_add _ _ n Hn).
  unfold scaled. by rewrite (NTT_untransform _ n Hn).
Qed.

Lemma key_transform i n :
  (i < K)%nat → (n < 256)%nat →
  NTT (fun n => t1 i n * 2 ^ D) n ≡q
  row_sum mat (fun j => NTT (s1 j)) i n + NTT (s2 i) n - NTT (t0 i) n.
Proof.
  intros Hi Hn.
  assert ((fun n => t1 i n * 2 ^ D) ≈ (fun n => (times s1 i n + s2 i n) - t0 i n)) as E.
  { intros m Hm. rewrite <- (key_eq i Hi m Hm). eqq_ring. }
  rewrite (NTT_proper _ _ E n Hn), (NTT_sub _ _ n Hn), (NTT_add _ _ n Hn).
  unfold times. by rewrite (NTT_untransform _ n Hn).
Qed.

(** [A z - c t1 2^D = A y - c s2 + c t0]. *)
Lemma verification_identity i :
  (i < K)%nat →
  untransform (fun n => row_sum mat (fun j => NTT (z j)) i n - NTT c n * NTT (fun n => t1 i n * 2 ^ D) n) ≈
  (fun n => times y i n - scaled s2 i n + scaled t0 i n).
Proof.
  intros Hi. apply untransform_iff. intros n Hn.
  rewrite (NTT_add _ _ n Hn), (NTT_sub _ _ n Hn). unfold times, scaled.
  rewrite (NTT_untransform (row_sum mat (fun j => NTT (y j)) i) n Hn),
    (NTT_untransform (fun n => NTT c n * NTT (s2 i) n) n Hn),
    (NTT_untransform (fun n => NTT c n * NTT (t0 i) n) n Hn), (key_transform i n Hi Hn).
  assert (row_sum mat (fun j => NTT (z j)) i n ≡q
    NTT c n * row_sum mat (fun j => NTT (s1 j)) i n + row_sum mat (fun j => NTT (y j)) i n) as ->.
  { unfold row_sum, L. cbn [sumn]. rewrite !response_transform by (done || (unfold L; lia)). eqq_ring. }
  eqq_ring.
Qed.
End Algebra.

End SchemeFacts.

(** ** Counting hints *)
Module HintCount.
Export SchemeFacts.

Lemma u32_sum l s :
  Forall (fun x => 0 <= x <= 256) l → 0 <= s → s + 256 * Z.of_nat (length l) < 2 ^ 32 →
  foldl (fun s x => u32 (s + x)) s l = s + foldr Z.add 0 l.
Proof.
  revert s. induction l as [|x l IH]; intros s HF Hs Hb; cbn [foldl foldr length] in *; [lia|].
  apply list.Forall_cons in HF as [Hx HF]. rewrite wrap_small by (unfold in_u; lia).
  rewrite IH by (done || lia). lia.
Qed.

Lemma seq_map_lookup (h : poly) : (fun j => h !!! j) <$> seq 0 (length h) = h.
Proof.
  apply list_eq_same_length with (length h); [done|by rewrite length_fmap, length_seq|].
  intros i x y Hi Hx Hy. rewrite list_lookup_fmap, lookup_seq_lt in Hx by done.
  cbn in Hx. injection Hx as <-. by apply list_lookup_total_correct.
Qed.

Lemma binary_sum h : binary h → foldr Z.add 0 h = Z.of_nat (length (positions h)).
Proof.
  intros [Hl HF]. unfold positions. rewrite length_fmap, <- (seq_map_lookup h) at 1.
  rewrite Hl. assert (∀ j, (j < N)%nat → h !!! j = 0 ∨ h !!! j = 1) as Hb.
  { intros j Hj. rewrite list.Forall_forall in HF. apply HF, list_elem_of_lookup_total.
    exists j. split; [lia|done]. }
  assert (Forall (fun j => (j < N)%nat) (seq 0 N)) as Hs
    by (apply list.Forall_forall; intros j Hj; apply elem_of_seq in Hj; lia).
  induction Hs as [|j js Hj Hs IH]; [done|]. cbn [fmap list_fmap foldr]. rewrite filter_cons, IH.
  destruct (Hb j Hj) as [E|E]; rewrite E; [by rewrite decide_False by lia|].
  rewrite decide_True by lia. cbn [length]. lia.
Qed.

Lemma make_hint_binary a0 a1 : make_hint a0 a1 = 0 ∨ make_hint a0 a1 = 1.
Proof. unfold make_hint. destruct (_ || _); auto. Qed.

Lemma poly_make_hint_count a0 a1 :
  length a0 = N → length a1 = N →
  binary (poly_make_hint a0 a1).1 ∧
  (poly_make_hint a0 a1).2 = Z.of_nat (length (positions (poly_make_hint a0 a1).1)).
Proof.
  intros H0 H1. unfold poly_make_hint. cbn [fst snd].
  assert (length (zip_with make_hint a0 a1) = N) as Hl by (rewrite length_zip_with; lia).
  assert (Forall (fun x => x = 0 ∨ x = 1) (zip_with make_hint a0 a1)) as HF.
  { apply list.Forall_forall. intros x Hx. apply elem_of_lookup_zip_with in Hx as (i & a & b & -> & _ & _).
    apply make_hint_binary. }
  split; [done|]. rewrite u32_sum; [by rewrite binary_sum by done|
    eapply list.Forall_impl; [exact HF|cbn beta; lia]|lia|rewrite Hl; done].
Qed.

Lemma positions_short h : (length (positions h) <= N)%nat.
Proof. unfold positions. rewrite length_fmap. etrans; [apply length_filter|]. by rewrite length_seq. Qed.

Lemma polyveck_make_hint_ok v0 v1 h n :
  shape K v0 → shape K v1 → polyveck_make_hint v0 v1 = (h, n) → n <= Z.of_nat OMEGA →
  h = zip_with (zip_with make_hint) v0 v1 ∧ hints_ok h.
Proof.
  intros [L0 S0] [L1 S1] E Hn. unfold K in *.
  destruct v0 as [ | a0 [ | a1 [ | a2 [ | a3 [ | ]]]]]; try discriminate L0.
  destruct v1 as [ | b0 [ | b1 [ | b2 [ | b3 [ | ]]]]]; try discriminate L1.
  pose proof (poly_make_hint_count a0 b0 (S0 0%nat ltac:(lia)) (S1 0%nat ltac:(lia))) as [B0 C0].
  pose proof (poly_make_hint_count a1 b1 (S0 1%nat ltac:(lia)) (S1 1%nat ltac:(lia))) as [B1 C1].
  pose proof (poly_make_hint_count a2 b2 (S0 2%nat ltac:(lia)) (S1 2%nat ltac:(lia))) as [B2 C2].
  pose proof (poly_make_hint_count a3 b3 (S0 3%nat ltac:(lia)) (S1 3%nat ltac:(lia))) as [B3 C3].
  unfold polyveck_make_hint in E. cbn [zip_with fmap list_fmap] in E.
  rewrite C0, C1, C2, C3 in E.
  pose proof (positions_short (poly_make_hint a0 b0).1). pose proof (positions_short (poly_make_hint a1 b1).1).
  pose proof (positions_short (poly_make_hint a2 b2).1). pose proof (positions_short (poly_make_hint a3 b3).1).
  unfold N in *.
  apply pair_equal_spec in E as [Eh En]. rewrite u32_sum in En; [|repeat constructor; lia|lia|cbn; lia].
  cbn [foldr] in En. subst h. split; [done|]. split_and!; [done|repeat constructor; apply B0 || apply B1 || apply B2 || apply B3|].
  cbn [fmap list_fmap concat]. rewrite !length_app. cbn [length]. lia.
Qed.

End HintCount.

(** ** Keys, signing attempts, verification *)
Module SignFacts.
Export HintCount.
Import Sponge.

Section Sign.
Context (permute : list Z → list Z) (fuel : nat).

(** What key generation establishes. *)
Record key_pair (pk sk rho key : list Z) (mat : list polyvec) (t1 t0 s1 s2 : polyvec) : Prop := {
  kp_rho : length rho = SEEDBYTES;
  kp_key : length key = SEEDBYTES;
  kp_mat : polyvec_matrix_expand permute fuel rho = Some mat;
  kp_t1 : vec_ok K t1_ok t1;
  kp_t0 : vec_ok K t0_ok t0;
  kp_s1 : vec_ok L eta_ok s1;
  kp_s2 : vec_ok K eta_ok s2;
  kp_eq : ∀ i, (i < K)%nat →
    (fun n => coeffs t1 i n * 2 ^ D + coeffs t0 i n) ≈
    (fun n => times mat (coeffs s1) i n + coeffs s2 i n);
  kp_pk : pk = pack_pk rho t1;
  kp_sk : sk = pack_sk rho (shake256 permute TRBYTES pk) key t0 s1 s2;
}.

Lemma eta_bound n v : vec_ok n eta_ok v → vrep n 2 v (coeffs v).
Proof. intros H. eapply vrep_coeffs; [exact H|unfold eta_ok, ETA; lia|lia]. Qed.

Lemma keypair_spec seed pk sk :
  crypto_sign_keypair permute fuel seed = Some (pk, sk) →
  ∃ rho key mat t1 t0 s1 s2, key_pair pk sk rho key mat t1 t0 s1 s2.
Proof.
  unfold crypto_sign_keypair. set (seedbuf := shake256 permute _ (seed ++ _)).
  destruct (polyvec_matrix_expand _ _ _) as [mat|] eqn:Em; [|done].
  destruct (polyvecl_uniform_eta _ _ _ _) as [s1|] eqn:E1; [|done].
  destruct (polyveck_uniform_eta _ _ _ _) as [s2|] eqn:E2; [|done].
  apply polyvecl_uniform_eta_ok in E1. apply polyveck_uniform_eta_ok in E2.
  pose proof (polyvec_matrix_expand_ok _ _ _ _ Em) as Hm.
  pose proof (matrix_vector mat s1 (coeffs s1) 2 Hm (eta_bound _ _ E1) ltac:(done)) as Ht.
  pose proof (vrep_add K _ _ _ _ _ _ Ht (eta_bound _ _ E2) ltac:(done)) as Ha.
  fold (polyveck_add (polyveck_invntt_tomont (polyveck_reduce
    (polyvec_matrix_pointwise_montgomery mat (polyvecl_ntt s1)))) s2) in Ha.
  set (t := polyveck_add _ s2) in *. clearbody t.
  destruct (caddq_vector K _ _ _ Ha ltac:(done)) as [Hs Hc]. fold (polyveck_caddq t) in Hs, Hc.
  intros [= <- <-].
  assert (∀ i n, (i < K)%nat → (n < N)%nat →
    let '(a1, a0) := power2round (coeffs (polyveck_caddq t) i n) in
    coeffs (polyveck_caddq t) i n = a1 * 2 ^ D + a0 ∧ t1_ok a1 ∧ t0_ok a0) as Hp.
  { intros i n Hi Hn. apply power2round_spec. rewrite Hc by done. apply Z.mod_pos_bound. done. }
  exists (take SEEDBYTES seedbuf), (drop (SEEDBYTES + CRHBYTES) seedbuf), mat,
    (polyveck_power2round (polyveck_caddq t)).1, (polyveck_power2round (polyveck_caddq t)).2, s1, s2.
  split; try done; unfold polyveck_power2round; cbn [fst snd].
  - apply vec_ok_intro; [by apply (shape_map K (fun x => (power2round x).1))|].
    intros i n Hi Hn. specialize (Hp i n Hi Hn). unfold poly_power2round. cbn [fst].
    rewrite (coeffs_map K (fun x => (power2round x).1)) by done.
    destruct (power2round _). apply Hp.
  - apply vec_ok_intro; [by apply (shape_map K (fun x => (power2round x).2))|].
    intros i n Hi Hn. specialize (Hp i n Hi Hn). unfold poly_power2round. cbn [snd].
    rewrite (coeffs_map K (fun x => (power2round x).2)) by done.
    destruct (power2round _). apply Hp.
  - intros i Hi n Hn. specialize (Hp i n Hi Hn). unfold poly_power2round. cbn [fst snd].
    rewrite (coeffs_map K (fun x => (power2round x).1)), (coeffs_map K (fun x => (power2round x).2)) by done.
    destruct (power2round _) as [a1 a0]. destruct Hp as (Ep & _). cbn [fst snd]. rewrite <- Ep, Hc by done.
    unfold eqq. by rewrite Z.mod_mod.
Qed.

Definition at_index (a : poly) (i : nat) : Z := a !!! i.

(** A vector for which the hints were made: the high bits come back. *)
Lemma use_hints w v a b f :
  shape K w → shape K v → shape K a → shape K b →
  (∀ i n, (i < K)%nat → (n < N)%nat → 0 <= coeffs w i n < Q ∧ 0 <= coeffs v i n < Q ∧
     - (GAMMA2 - BETA) < coeffs a i n < GAMMA2 - BETA ∧ - GAMMA2 < coeffs b i n < GAMMA2 ∧
     coeffs a i n ≡q (decompose (coeffs w i n)).2 - f i n ∧
     coeffs v i n ≡q coeffs w i n - f i n + coeffs b i n) →
  polyveck_use_hint v (zip_with (zip_with make_hint) (polyveck_add a b) (polyveck_decompose w).1)
  = (polyveck_decompose w).1.
Proof.
  intros Hw Hv Ha Hb H.
  assert (shape K (polyveck_decompose w).1) as H1 by (by apply (shape_map K (fun x => (decompose x).1))).
  assert (shape K (polyveck_add a b)) as Hab by (by apply (shape_zip K (fun x y => i32 (x + y)))).
  apply (shape_eq K); [apply (shape_zip K use_hint); [done|by apply (shape_zip K make_hint)]|done|].
  intros i n Hi Hn. destruct (H i n Hi Hn) as (Rw & Rv & Ra & Rb & Ea & Ev).
  rewrite (coeffs_zip K use_hint), (coeffs_zip K make_hint) by (done || by apply (shape_zip K make_hint)).
  assert (coeffs (polyveck_add a b) i n = i32 (coeffs a i n + coeffs b i n)) as ->
    by (by apply (coeffs_zip K (fun x y => i32 (x + y)))).
  assert (coeffs (polyveck_decompose w).1 i n = (decompose (coeffs w i n)).1) as ->
    by (by apply (coeffs_map K (fun x => (decompose x).1))).
  pose proof (decompose_spec _ Rw) as Hd. destruct (decompose (coeffs w i n)) as [w1 w0].
  cbn [fst snd] in *. destruct Hd as (R1 & Ed & _). change GAMMA2 with 95232 in *. unfold BETA in *.
  rewrite i32_small by lia. apply use_hint_make_hint; [done|change GAMMA2 with 95232; lia|done|].
  rewrite Ev, Ea, Ed. change GAMMA2 with 95232. eqq_ring.
Qed.

Lemma decompose_vector w w1 w0 :
  shape K w → (∀ i n, (i < K)%nat → (n < N)%nat → 0 <= coeffs w i n < Q) →
  polyveck_decompose w = (w1, w0) →
  shape K w1 ∧
  (∀ i n, (i < K)%nat → (n < N)%nat → coeffs w0 i n = (decompose (coeffs w i n)).2) ∧
  vrep K GAMMA2 w0 (coeffs w0).
Proof.
  intros Sw Rw [= <- <-].
  assert (∀ i n, (i < K)%nat → (n < N)%nat →
    coeffs ((fun a => (poly_decompose a).2) <$> w) i n = (decompose (coeffs w i n)).2) as C0
    by (intros i n Hi Hn; by apply (coeffs_map K (fun x => (decompose x).2))).
  split_and!; [by apply (shape_map K (fun x => (decompose x).1))|done|].
  eapply (vrep_coeffs K (fun x => - GAMMA2 <= x <= GAMMA2)); [|done|done].
  apply vec_ok_intro; [by apply (shape_map K (fun x => (decompose x).2))|].
  intros i n Hi Hn. rewrite C0 by done. pose proof (decompose_spec _ (Rw i n Hi Hn)) as Hd.
  destruct (decompose _). apply Hd.
Qed.

Lemma c_bound c : poly_ok c_ok c → represents 1 c (at_index c).
Proof.
  intros [Hl HF]. apply represents_self; [done| |lia]. eapply list.Forall_impl; [exact HF|unfold c_ok; lia].
Qed.

Lemma attempt_spec mat s1 s2 t0 mu rhoprime nonce sig :
  matrix_ok mat → vec_ok L eta_ok s1 → vec_ok K eta_ok s2 → vec_ok K t0_ok t0 →
  sign_attempt permute fuel mat (polyvecl_ntt s1) (polyveck_ntt s2) (polyveck_ntt t0) mu rhoprime nonce
    = Some (Signed sig) →
  ∃ c z h w1 cp y,
    sig = pack_sig c z h ∧ c = challenge_hash permute mu (polyveck_pack_w1 w1) ∧
    poly_challenge permute fuel c = Some cp ∧ hints_ok h ∧
    vec_ok L (fun x => - (GAMMA1 - BETA) < x < GAMMA1 - BETA) z ∧
    (∀ j, (j < L)%nat → coeffs z j ≈ (fun n => scaled (at_index cp) (coeffs s1) j n + y j n)) ∧
    (∀ v, shape K v →
      (∀ i n, (i < K)%nat → (n < N)%nat → 0 <= coeffs v i n < Q ∧
        coeffs v i n ≡q times mat y i n - scaled (at_index cp) (coeffs s2) i n
                        + scaled (at_index cp) (coeffs t0) i n) →
      polyveck_use_hint v h = w1).
Proof.
  intros Hm H1 H2 H0. unfold sign_attempt.
  pose proof (polyvecl_uniform_gamma1_ok permute rhoprime nonce) as Hy.
  set (y := polyvecl_uniform_gamma1 permute rhoprime nonce) in *. clearbody y.
  assert (vrep L GAMMA1 y (coeffs y)) as Vy
    by (eapply vrep_coeffs; [exact Hy|unfold z_ok; lia|done]).
  destruct (caddq_vector K _ _ _ (matrix_vector mat y (coeffs y) GAMMA1 Hm Vy ltac:(done)) ltac:(done))
    as [Sw Cw].
  fold (polyveck_caddq (polyveck_invntt_tomont (polyveck_reduce
    (polyvec_matrix_pointwise_montgomery mat (polyvecl_ntt y))))) in Sw, Cw.
  set (w := polyveck_caddq _) in *. clearbody w.
  destruct (polyveck_decompose w) as [w1 w0] eqn:Ed.
  destruct (poly_challenge _ _ _) as [cp|] eqn:Ec; [|done].
  pose proof (c_bound cp (poly_challenge_ok _ _ _ _ Ec)) as Hc.
  set (c := challenge_hash _ _ _) in *.
  pose proof (poly_vector L cp _ 1 s1 _ 2 Hc (eta_bound _ _ H1) ltac:(done) ltac:(done) ltac:(done)) as Vz.
  apply (vrep_add L _ _ _ _ _ _) with (2 := Vy) in Vz; [|done].
  apply vrep_reduce in Vz; [|done].
  set (z := polyvecl_reduce _). change (vrep L 6283009 z (fun j i => scaled (at_index cp) (coeffs s1) j i + coeffs y j i)) in Vz.
  destruct (polyvecl_chknorm z (GAMMA1 - BETA)) eqn:Ez; [done|]. clearbody z.
  pose proof (chknorm_false L z _ _ _ Vz ltac:(done) Ez) as Bz.
  destruct (decompose_vector w w1 w0) as (Sw1 & Cw0 & Vw0); [done| |done|].
  { intros i n Hi Hn. rewrite Cw by done. by apply Z.mod_pos_bound. }
  pose proof (poly_vector K cp _ 1 s2 _ 2 Hc (eta_bound _ _ H2) ltac:(done) ltac:(done) ltac:(done)) as Va.
  apply (vrep_sub K _ _ _ _ _ _ Vw0) in Va; [|done]. apply vrep_reduce in Va; [|done].
  set (a := polyveck_reduce _).
  change (vrep K 6283009 a (fun j i => coeffs w0 j i - scaled (at_index cp) (coeffs s2) j i)) in Va.
  destruct (polyveck_chknorm a (GAMMA2 - BETA)) eqn:Ea; [done|]. clearbody a.
  pose proof (chknorm_false K a _ _ _ Va ltac:(done) Ea) as Ba.
  assert (vrep K 4096 t0 (coeffs t0)) as Vt0
    by (eapply vrep_coeffs; [exact H0|unfold t0_ok; change (2 ^ (D - 1)) with 4096; lia|lia]).
  pose proof (poly_vector K cp _ 1 t0 _ 4096 Hc Vt0 ltac:(done) ltac:(done) ltac:(done)) as Vb.
  apply vrep_reduce in Vb; [|done]. set (b := polyveck_reduce _).
  change (vrep K 6283009 b (scaled (at_index cp) (coeffs t0))) in Vb.
  destruct (polyveck_chknorm b GAMMA2) eqn:Eb; [done|]. clearbody b.
  pose proof (chknorm_false K b _ _ _ Vb ltac:(done) Eb) as Bb.
  destruct (polyveck_make_hint (polyveck_add a b) w1) as [h n] eqn:Eh.
  destruct (Z.gtb_spec n (Z.of_nat OMEGA)) as [|Hn]; [done|]. intros [= <-].
  apply polyveck_make_hint_ok in Eh as [Eh Hh];
    [|apply (shape_zip K (fun x y => i32 (x + y))); eapply vrep_shape; eassumption|done|lia].
  exists c, z, h, w1, cp, (coeffs y). split_and!; try done.
  - apply vec_ok_intro; [by eapply vrep_shape|done].
  - intros j Hj. apply (proj2 Vz j Hj).
  - intros v Sv Hv. subst h. replace w1 with (polyveck_decompose w).1 in * by (by rewrite Ed).
    eapply (use_hints w v a b (scaled (at_index cp) (coeffs s2)));
      [done|done|by eapply vrep_shape|by eapply vrep_shape|].
    intros i m Hi Hm'. destruct (Hv i m Hi Hm') as [Rv Ev].
    split; [rewrite Cw by done; by apply Z.mod_pos_bound|].
    split; [done|]. split; [by apply Ba|]. split; [by apply Bb|]. split.
    + rewrite <- Cw0 by done. apply (proj2 Va i Hi), Hm'.
    + rewrite Ev, Cw, mod_eqq by done. destruct (proj2 Vb i Hi) as (_ & _ & Fb).
      by rewrite <- (Fb m Hm').
Qed.

Lemma sign_loop_spec attempts mat s1 s2 t0 mu rhoprime nonce sig :
  sign_loop permute fuel attempts mat s1 s2 t0 mu rhoprime nonce = Some sig →
  ∃ nonce', sign_attempt permute fuel mat s1 s2 t0 mu rhoprime nonce' = Some (Signed sig).
Proof.
  revert nonce. induction attempts as [|n IH]; intros nonce; cbn [sign_loop]; [done|].
  destruct (sign_attempt _ _ _ _ _ _ _ _ nonce) as [[|sig']|] eqn:E; [apply IH| |done].
  intros [= <-]. by exists nonce.
Qed.

(** [A z - c t1 2^D], as verification computes it. *)
Definition verify_vector (mat : list polyvec) (cp : poly) (z t1 : polyvec) : polyvec :=
  polyveck_caddq (polyveck_invntt_tomont (polyveck_reduce (polyveck_sub
    (polyvec_matrix_pointwise_montgomery mat (polyvecl_ntt z))
    (polyveck_pointwise_poly_montgomery (poly_ntt cp) (polyveck_ntt (polyveck_shiftl t1)))))).

Lemma shiftl_vector t1 :
  vec_ok K t1_ok t1 → vrep K Q (polyveck_shiftl t1) (fun i n => coeffs t1 i n * 2 ^ D).
Proof.
  intros Ht. assert (vrep K 1023 t1 (coeffs t1)) as Vt
    by (eapply vrep_coeffs; [exact Ht|unfold t1_ok; lia|lia]).
  eapply vrep_map; [exact Vt|]. intros i Hi Hr.
  eapply (represents_map (fun x => i32 (Z.shiftl x D))); [exact Hr|done|].
  intros n Hn. pose proof (coeffs_ok K t1_ok t1 i n Ht Hi Hn) as Hc. unfold t1_ok, coeffs in *.
  rewrite Z.shiftl_mul_pow2 by done. change (2 ^ D) with 8192. unfold Q in *.
  rewrite i32_small by lia. split; [lia|done].
Qed.

Lemma verify_vector_spec mat cp z t1 :
  matrix_ok mat → poly_ok c_ok cp → vec_ok L z_ok z → vec_ok K t1_ok t1 →
  shape K (verify_vector mat cp z t1) ∧
  ∀ i n, (i < K)%nat → (n < N)%nat →
    coeffs (verify_vector mat cp z t1) i n =
    untransform (fun n => row_sum mat (fun j => NTT (coeffs z j)) i n -
                 NTT (at_index cp) n * NTT (fun n => coeffs t1 i n * 2 ^ D) n) n mod Q.
Proof.
  intros Hm Hc Hz Ht.
  apply (caddq_vector K inv_bound _ (fun i => untransform (fun n =>
    row_sum mat (fun j => NTT (coeffs z j)) i n -
    NTT (at_index cp) n * NTT (fun n => coeffs t1 i n * 2 ^ D) n))); [|done].
  assert (vrep L GAMMA1 z (coeffs z)) as Vz by (eapply vrep_coeffs; [exact Hz|unfold z_ok; lia|done]).
  pose proof (matrix_product mat z (coeffs z) GAMMA1 Hm Vz ltac:(done)) as V1.
  pose proof (poly_ntt_spec cp _ _ (c_bound cp Hc) ltac:(done)) as Vc.
  pose proof (vrep_pointwise K _ _ _ _ _ _ Vc (vrep_ntt K _ _ _ (shiftl_vector t1 Ht) ltac:(done)) ltac:(done)) as V2.
  pose proof (vrep_sub K _ _ _ _ _ _ V1 V2 ltac:(done)) as V3.
  apply vrep_reduce in V3; [|done]. apply vrep_invntt.
  apply (vrep_weaken K 6283009); [|done]. eapply vrep_feq; [exact V3|]. intros i Hi n Hn. eqq_ring.
Qed.

(** Every signature that signing returns is accepted. *)
Lemma sign_verify attempts m ctx rnd pk sk rho key mat t1 t0 s1 s2 sig :
  key_pair pk sk rho key mat t1 t0 s1 s2 →
  crypto_sign_signature_ctx permute fuel attempts m ctx sk rnd = Some (inr sig) →
  crypto_sign_verify_ctx permute fuel sig m ctx pk = Some 0 ∧ length sig = CRYPTO_BYTES.
Proof.
  intros Hk Hs. destruct Hk as [Hrho Hkey Hmat H1 H0 Hs1 Hs2 Heq Epk Esk].
  unfold crypto_sign_signature_ctx in Hs. destruct (Z.of_nat (length ctx) >? 255) eqn:Ectx; [done|].
  rewrite Esk, unpack_sk_pack in Hs by (done || apply shake256_length). rewrite Hmat in Hs.
  destruct (sign_loop _ _ _ _ _ _ _ _ _ _) as [sig'|] eqn:El; [|done]. injection Hs as ->.
  apply sign_loop_spec in El as [nonce El].
  pose proof (polyvec_matrix_expand_ok _ _ _ _ Hmat) as Hm.
  apply attempt_spec in El as (c & z & h & w1 & cp & y & -> & Ec & Ecp & Hh & Hz & Hy & Hw); [|done..].
  assert (vec_ok L z_ok z) as Hz'.
  { destruct Hz as [Hzl Hz]. split; [done|]. eapply list.Forall_impl; [exact Hz|]. intros a [Ha HF].
    split; [done|]. eapply list.Forall_impl; [exact HF|]. unfold z_ok, BETA. lia. }
  assert (length c = CTILDEBYTES) as Hc.
  { rewrite Ec. unfold challenge_hash, shake256_inc_squeeze. apply squeeze_ok; [by unfold SHAKE256_RATE; lia|cbn; lia]. }
  destruct (unpack_sig_pack c z h Hc Hz' Hh) as [Eu El'].
  split; [|done]. unfold crypto_sign_verify_ctx. rewrite Ectx, El', Nat.eqb_refl. cbn [orb negb].
  rewrite Epk, unpack_pk_pack, Eu, <- Epk by done.
  unfold polyvecl_chknorm. rewrite (chknorm_true_iff L z (coeffs z) GAMMA1).
  2:{ eapply vrep_coeffs; [exact Hz'|unfold z_ok; lia|done]. }
  2:{ done. } 2:{ done. } 2:{ intros j i Hj Hi. by apply (coeffs_ok L _ z j i Hz). }
  rewrite Ecp, Hmat. fold (verify_vector mat cp z t1).
  destruct (verify_vector_spec mat cp z t1 Hm (poly_challenge_ok _ _ _ _ Ecp) Hz' H1) as [Sv Cv].
  rewrite (Hw (verify_vector mat cp z t1) Sv).
  - rewrite Ec. by rewrite bool_decide_true.
  - intros i n Hi Hn. rewrite Cv by done. split; [by apply Z.mod_pos_bound|]. rewrite mod_eqq.
    by apply (verification_identity mat (at_index cp) (coeffs s1) (coeffs s2) (coeffs t0) (coeffs t1) y (coeffs z)).
Qed.

End Sign.
End SignFacts.

(** ** Fuel only bounds the waiting: a result does not depend on it *)
Module FuelFacts.
Export SignFacts.
Import Sponge.

Section Fuel.
Context (permute : list Z → list Z).

Lemma poly_uniform_fuel f f' seed nonce a :
  poly_uniform permute f seed nonce = Some a → (f <= f')%nat → poly_uniform permute f' seed nonce = Some a.
Proof.
  unfold poly_uniform. destruct (stream128_squeezeblocks _ _ _) as [buf st]. generalize (rej_uniform N buf).
  revert f' buf st. induction f as [|f IH]; intros f' buf st b H Hf.
  - cbn [poly_uniform_loop] in H. destruct f' as [|f']; cbn [poly_uniform_loop]; by destruct (Nat.ltb _ _).
  - destruct f' as [|f']; [lia|]. cbn [poly_uniform_loop] in *. destruct (Nat.ltb _ _); [|done].
    destruct (stream128_squeezeblocks _ _ _) as [block st']. eapply IH; [exact H|lia].
Qed.

Lemma challenge_index_fuel f f' i buf st r :
  challenge_index permute f i buf st = Some r → (f <= f')%nat → challenge_index permute f' i buf st = Some r.
Proof.
  revert f' buf st. induction f as [|f IH]; intros f' buf st H Hf; [done|]. destruct f' as [|f']; [lia|].
  cbn [challenge_index] in *. destruct (match buf with [] => _ | _ => _ end) as [[|b buf'] st']; [done|].
  destruct (b >? _); [|done]. eapply IH; [exact H|lia].
Qed.

Lemma poly_challenge_fuel f f' seed c :
  poly_challenge permute f seed = Some c → (f <= f')%nat → poly_challenge permute f' seed = Some c.
Proof.
  unfold poly_challenge. destruct (shake256_inc_squeeze _ _ _) as [buf st].
  generalize (replicate N 0), (drop 8 buf), (foldl (fun s i => Z.lor s (Z.shiftl (buf !!! i) (8 * Z.of_nat i))) 0 (seq 0 8)).
  revert st. generalize (seq (N - TAU) TAU) as idx.
  induction idx as [|i idx IH]; intros st c0 bs signs H Hf; cbn [challenge_loop] in *; [done|].
  destruct (challenge_index permute f i bs st) as [[[b bs'] st']|] eqn:E; [|done].
  rewrite (challenge_index_fuel _ _ _ _ _ _ E Hf). by apply IH.
Qed.

Lemma mapM_impl {A B} (f g : A → option B) l k :
  (∀ x y, f x = Some y → g x = Some y) → mapM f l = Some k → mapM g l = Some k.
Proof. intros H. rewrite !mapM_Some. intros HF. by eapply list.Forall2_impl; [exact HF|]. Qed.

Lemma polyvec_matrix_expand_fuel f f' rho mat :
  polyvec_matrix_expand permute f rho = Some mat → (f <= f')%nat →
  polyvec_matrix_expand permute f' rho = Some mat.
Proof.
  intros H Hf. revert H. apply mapM_impl. intros i row. apply mapM_impl. intros j a Ha.
  by eapply poly_uniform_fuel.
Qed.

Lemma verify_fuel f f' sig m ctx pk r :
  crypto_sign_verify_ctx permute f sig m ctx pk = Some r → (f <= f')%nat →
  crypto_sign_verify_ctx permute f' sig m ctx pk = Some r.
Proof.
  intros H Hf. unfold crypto_sign_verify_ctx in *. destruct (_ || _); [done|].
  destruct (unpack_pk pk) as [rho t1]. destruct (unpack_sig sig) as [[[c z] h]|]; [|done].
  destruct (polyvecl_chknorm _ _); [done|].
  destruct (poly_challenge permute f c) as [cp|] eqn:Ec; [|done].
  destruct (polyvec_matrix_expand permute f rho) as [mat|] eqn:Em; [|done].
  by rewrite (poly_challenge_fuel _ _ _ _ Ec Hf), (polyvec_matrix_expand_fuel _ _ _ _ Em Hf).
Qed.

End Fuel.
End FuelFacts.
