(* ===== verification/MldsaComplete.v ===== *)
(** Completeness of ML-DSA-44: whatever signing returns, verification accepts;
    with a small permutation on which key generation and signing can be followed
    step by step. *)
From S2P Require Import Prelude Fips202 Fips202Facts MldsaPoly Mldsa MldsaArith MldsaNtt MldsaRing MldsaPack MldsaFacts.

(** ** A permutation that answers every query with the same bytes *)
Module Demo.
Export FuelFacts.
Import Sponge.

Definition constant_permutation (s : list Z) : list Z := replicate 25 0x2222222222222222.
Definition demo_seed : list Z := replicate 32 0.
Definition demo_pk : list Z := replicate 32 0x22 ++ replicate 1280 0.
Definition demo_sk : list Z :=
  replicate 128 0x22 ++ concat (replicate 256 [0x92; 0x24; 0x49]) ++ concat (replicate 128 (polyt0_pack (replicate 8 0))).
Definition demo_sig : list Z := replicate 2336 0x22 ++ replicate 84 0.

(** The answers do not depend on what was absorbed, so that all polynomials of
    a vector are equal. *)
Definition demo_a : list Z := replicate N 0x222222.
Definition demo_zero : list Z := replicate N 0.
Definition demo_y : list Z := Eval vm_compute in poly_uniform_gamma1 constant_permutation [] 0.
Definition demo_c : list Z := Eval vm_compute in default [] (poly_challenge constant_permutation 1 []).
Definition demo_yhat : list Z := Eval vm_compute in poly_ntt demo_y.
Definition demo_w : list Z := Eval vm_compute in
  poly_caddq (poly_invntt_tomont (poly_reduce
    (polyvecl_pointwise_acc_montgomery (replicate L demo_a) (replicate L demo_yhat)))).

Lemma demo_uniform seed nonce : poly_uniform constant_permutation 1 seed nonce = Some demo_a.
Proof. reflexivity. Qed.
Lemma demo_eta seed nonce : poly_uniform_eta constant_permutation 1 seed nonce = Some demo_zero.
Proof. reflexivity. Qed.
Lemma demo_gamma1 seed nonce : poly_uniform_gamma1 constant_permutation seed nonce = demo_y.
Proof. reflexivity. Qed.
Lemma demo_message_hash tr ctx m : message_hash constant_permutation tr ctx m = replicate 64 0x22.
Proof. reflexivity. Qed.
Lemma demo_challenge_hash mu w1 : challenge_hash constant_permutation mu w1 = replicate 32 0x22.
Proof. reflexivity. Qed.
Lemma demo_challenge seed : poly_challenge constant_permutation 1 seed = Some demo_c.
Proof. reflexivity. Qed.
Lemma demo_shake256_64 m : shake256 constant_permutation 64 m = replicate 64 0x22.
Proof. reflexivity. Qed.
Lemma demo_shake256_128 m : shake256 constant_permutation 128 m = replicate 128 0x22.
Proof. reflexivity. Qed.

Lemma demo_ntt_zero : poly_ntt demo_zero = demo_zero.
Proof. vm_cast_no_check (eq_refl demo_zero). Qed.
Lemma demo_invntt_zero : poly_invntt_tomont demo_zero = demo_zero.
Proof. vm_cast_no_check (eq_refl demo_zero). Qed.
Lemma demo_ntt_y : poly_ntt demo_y = demo_yhat.
Proof. vm_cast_no_check (eq_refl demo_yhat). Qed.
Lemma demo_product : poly_caddq (poly_invntt_tomont (poly_reduce
  (polyvecl_pointwise_acc_montgomery (replicate L demo_a) (replicate L demo_yhat)))) = demo_w.
Proof. vm_cast_no_check (eq_refl demo_w). Qed.

(** Products with the zero polynomial, and vectors of equal polynomials. *)
Lemma pointwise_zero a : length a = N → poly_pointwise_montgomery a demo_zero = demo_zero.
Proof.
  unfold poly_pointwise_montgomery, demo_zero. intros <-. induction a as [|x a IH]; [done|].
  cbn [length replicate zip_with]. by rewrite IH, Z.mul_0_r.
Qed.
Lemma acc_zero a : length a = N →
  polyvecl_pointwise_acc_montgomery (replicate L a) (replicate L demo_zero) = demo_zero.
Proof.
  intros Ha. unfold polyvecl_pointwise_acc_montgomery.
  change (seq 1 (L - 1)) with [1; 2; 3]%nat. cbn [foldl].
  change (replicate L ?x !!! ?i) with x. rewrite (pointwise_zero a Ha). reflexivity.
Qed.

Lemma demo_expand rho : polyvec_matrix_expand constant_permutation 1 rho = Some (replicate K (replicate L demo_a)).
Proof. unfold polyvec_matrix_expand. cbn [seq K L mapM]. by rewrite !demo_uniform. Qed.

Lemma demo_uniform_eta seed nonce :
  polyvecl_uniform_eta constant_permutation 1 seed nonce = Some (replicate L demo_zero) ∧
  polyveck_uniform_eta constant_permutation 1 seed nonce = Some (replicate K demo_zero).
Proof. unfold polyvecl_uniform_eta, polyveck_uniform_eta. cbn [seq K L mapM]. by rewrite !demo_eta. Qed.

Lemma demo_ntt_zeros n : poly_ntt <$> replicate n demo_zero = replicate n demo_zero.
Proof. by rewrite fmap_replicate, demo_ntt_zero. Qed.

(** The matrix times a vector of zeros. *)
Lemma demo_matrix_zero :
  polyveck_invntt_tomont (polyveck_reduce (polyvec_matrix_pointwise_montgomery
    (replicate K (replicate L demo_a)) (replicate L demo_zero))) = replicate K demo_zero.
Proof.
  unfold polyveck_invntt_tomont, polyveck_reduce, polyvec_matrix_pointwise_montgomery.
  rewrite !fmap_replicate, acc_zero by reflexivity.
  change (poly_reduce demo_zero) with demo_zero. by rewrite demo_invntt_zero.
Qed.

Lemma demo_rounds : polyveck_power2round (polyveck_caddq (polyveck_add (replicate K demo_zero) (replicate K demo_zero)))
  = (replicate K demo_zero, replicate K demo_zero).
Proof. reflexivity. Qed.

Lemma demo_keypair : crypto_sign_keypair constant_permutation 1 demo_seed = Some (demo_pk, demo_sk).
Proof.
  unfold crypto_sign_keypair. change (2 * SEEDBYTES + CRHBYTES)%nat with 128%nat. rewrite demo_shake256_128, demo_expand.
  rewrite (proj1 (demo_uniform_eta _ _)), (proj2 (demo_uniform_eta _ _)).
  unfold polyvecl_ntt. rewrite demo_ntt_zeros, demo_matrix_zero, demo_rounds.
  unfold TRBYTES. rewrite demo_shake256_64. vm_compute. reflexivity.
Qed.

(** One attempt. *)
Definition demo_high : list Z := Eval vm_compute in (poly_decompose demo_w).1.
Definition demo_low : list Z := Eval vm_compute in (poly_decompose demo_w).2.

Lemma demo_commitment rhoprime nonce :
  polyvecl_uniform_gamma1 constant_permutation rhoprime nonce = replicate L demo_y ∧
  polyveck_decompose (polyveck_caddq (polyveck_invntt_tomont (polyveck_reduce
    (polyvec_matrix_pointwise_montgomery (replicate K (replicate L demo_a)) (polyvecl_ntt (replicate L demo_y))))))
  = (replicate K demo_high, replicate K demo_low).
Proof.
  split; [unfold polyvecl_uniform_gamma1; cbn [seq L fmap list_fmap]; by rewrite !demo_gamma1|].
  unfold polyveck_decompose, polyveck_caddq, polyveck_invntt_tomont, polyveck_reduce, polyvec_matrix_pointwise_montgomery, polyvecl_ntt.
  rewrite !fmap_replicate, demo_ntt_y, demo_product. vm_compute. reflexivity.
Qed.

Lemma demo_masked (cp : poly) n : length cp = N →
  poly_invntt_tomont <$> (poly_pointwise_montgomery cp <$> replicate n demo_zero) = replicate n demo_zero.
Proof. intros Hc. by rewrite !fmap_replicate, pointwise_zero, demo_invntt_zero by exact Hc. Qed.

Lemma demo_attempt mu rhoprime nonce :
  sign_attempt constant_permutation 1 (replicate K (replicate L demo_a)) (replicate L demo_zero)
    (replicate K demo_zero) (replicate K demo_zero) mu rhoprime nonce = Some (Signed demo_sig).
Proof.
  unfold sign_attempt. destruct (demo_commitment rhoprime nonce) as [-> E]. cbv zeta. rewrite E, demo_challenge_hash, demo_challenge.
  unfold polyvecl_invntt_tomont, polyvecl_pointwise_poly_montgomery, polyveck_invntt_tomont, polyveck_pointwise_poly_montgomery.
  pose proof (c_bound constant_permutation _ (poly_challenge_ok _ _ _ _ (demo_challenge []))) as Hr.
  pose proof (proj1 (poly_ntt_spec _ _ _ Hr ltac:(done))) as Hc.
  revert Hc. clear Hr. generalize (poly_ntt demo_c) as cp. intros cp Hc.
  rewrite (demo_masked cp L Hc), (demo_masked cp K Hc). vm_compute. reflexivity.
Qed.

Lemma demo_sign m ctx rnd :
  (Z.of_nat (length ctx) >? 255) = false →
  crypto_sign_signature_ctx constant_permutation 1 1 m ctx demo_sk rnd = Some (inr demo_sig).
Proof.
  intros Hc. unfold crypto_sign_signature_ctx. rewrite Hc.
  assert (unpack_sk demo_sk = (replicate 32 0x22, replicate 64 0x22, replicate 32 0x22,
            replicate K demo_zero, replicate L demo_zero, replicate K demo_zero)) as -> by (vm_compute; reflexivity).
  rewrite demo_expand. unfold polyvecl_ntt, polyveck_ntt. rewrite !demo_ntt_zeros. cbn [sign_loop]. by rewrite demo_attempt.
Qed.

End Demo.

Module MldsaProps.
Import Demo.

(** C13: Signatures verify.  Whatever the permutation behind SHAKE, the seed of
    the key and the random bytes: if key generation returns a pair [(pk, sk)]
    and signing a message under a context with [sk] returns a signature, then
    the signature is [CRYPTO_BYTES] long and verification of it for the same
    message and context under [pk] returns 0, with the same fuel or more.  The
    32-bit arithmetic of all three, with its lazy reductions, is part of the
    statement: an overflow anywhere would break it. *)
Theorem mldsa_signatures_verify (permute : list Z → list Z) (fuel fuel' attempts : nat)
    (seed rnd m ctx pk sk sig : list Z) :
  crypto_sign_keypair permute fuel seed = Some (pk, sk) →
  crypto_sign_signature_ctx permute fuel attempts m ctx sk rnd = Some (inr sig) →
  (fuel <= fuel')%nat →
  length sig = CRYPTO_BYTES ∧ crypto_sign_verify_ctx permute fuel' sig m ctx pk = Some 0.
Proof.
  intros Hk Hs Hf. apply keypair_spec in Hk as (rho & key & mat & t1 & t0 & s1 & s2 & Hk).
  destruct (sign_verify _ _ _ _ _ _ _ _ _ _ _ _ _ _ _ _ Hk Hs) as [Hv Hl].
  split; [exact Hl|]. by eapply verify_fuel.
Qed.

Lemma mldsa_signatures_verify_witness :
  crypto_sign_verify_ctx constant_permutation 1 demo_sig [1; 2; 3] [9] demo_pk = Some 0.
Proof.
  apply (mldsa_signatures_verify constant_permutation 1 1 1 demo_seed [] [1; 2; 3] [9] demo_pk demo_sk demo_sig);
    [exact demo_keypair|by apply demo_sign|lia].
Defined.

End MldsaProps.
