(* ===== verification/Hybrid.v ===== *)
(** Hybrid outputs with the node's own SHAKE-256 and ML-DSA-44: the signature
    library of the script checks, whose SHAKE-256 and ML-DSA verification are
    those of [crypto/mldsa/], as [CheckHybridSignature] calls them, and the spend
    of an output by the owner of the two keys.  The curve operations of
    secp256k1 stay parameters. *)
From Stdlib Require Import ZArith Lia.
From stdpp Require Import gmap.
From S2P Require Import Prelude Serialize Script Transaction Interpreter SigHash VerifyScript VerifyFacts Fips202 MldsaPoly Mldsa MldsaPack MldsaFacts MldsaComplete.
Import Serialize Script Transaction ScriptFlags Interpreter SigHash VerifyScript ProgramFacts.
Local Open Scope bb_scope.

Module Hybrid.

Section Node.
(** The Keccak permutation, the fuel of the sampling loops, and secp256k1. *)
Context (permute : list Z → list Z) (fuel : nat).
Context (verify_ecdsa verify_schnorr : valtype → uint256 → valtype → bool).
Context (check_tweak : valtype → bool → valtype → uint256 → bool).

Definition node_lib : sig_lib :=
  mkSigLib verify_ecdsa verify_schnorr check_tweak (Sponge.shake256 permute)
    (fun sig m ctx pk => bool_decide (Sign.crypto_sign_verify_ctx permute fuel sig m ctx pk = Some 0)).

(** The program an owner of the two public keys publishes. *)
Definition hybrid_program (ecdsa_pub mldsa_pub : valtype) : valtype :=
  Sponge.shake256 permute 32 (ecdsa_pub ++ mldsa_pub).

End Node.

Lemma hybrid_program_size permute ecdsa_pub mldsa_pub : size (hybrid_program permute ecdsa_pub mldsa_pub) = 32.
Proof. unfold hybrid_program, size. by rewrite SampleFacts.shake256_length. Qed.

(** A generated public key has the size [CheckHybridSignature] asks for. *)
Lemma generated_key_size permute fuel seed pk sk :
  Sign.crypto_sign_keypair permute fuel seed = Some (pk, sk) → size pk = 1312.
Proof.
  intros (rho & key & mat & t1 & t0 & s1 & s2 & [Hr _ _ Ht _ _ _ _ -> _])%SignFacts.keypair_spec.
  unfold Packing.pack_pk, size. rewrite length_app, Hr.
  rewrite <- (app_nil_r (concat _)).
  destruct (KeyFacts.vec_roundtrip Poly.polyt1_pack Poly.polyt1_unpack MldsaParams.POLYT1_PACKEDBYTES MldsaParams.K
              PackFacts.t1_ok t1 [] KeyFacts.polyt1_roundtrip Ht) as [_ Hl].
  rewrite app_nil_r, Hl. reflexivity.
Qed.

End Hybrid.

Module HybridProps.
Import Hybrid.

(** C14: Coins sent to a hybrid output can be spent by their owner.  Take an
    ECDSA key and an ML-DSA key pair from [crypto_sign_keypair], and an output
    whose version 2 program is the SHAKE-256 commitment to the two public keys.
    If the ECDSA signature is good for the [SIGHASH_ALL] hash of the input and
    [crypto_sign_signature_ctx] returns an ML-DSA signature of the same hash under
    the context string of the node, the witness of the two signatures and keys
    makes [VerifyScript] succeed, with the node's own SHAKE-256 and ML-DSA
    verification, whatever the random bytes.  The P2SH and witness flags are on,
    as for blocks, and the commitment is assumed true as a stack element: one
    that is all zero but for the sign bit could never be spent.  The permutation
    is otherwise arbitrary. *)
Theorem hybrid_output_spendable (permute : list Z → list Z) (fuel fuel' attempts : nat)
    (verify_ecdsa verify_schnorr : valtype → uint256 → valtype → bool)
    (check_tweak : valtype → bool → valtype → uint256 → bool)
    (hashes : script_hashes) (flags : Z) (tx : CTransaction) (nIn : nat) (amount : Z)
    (txdata : option PrecomputedTransactionData) (seed rnd ecdsa_sig ecdsa_pub pk sk sig : valtype) (sighash : uint256) :
  flag flags SCRIPT_VERIFY_WITNESS = true → flag flags SCRIPT_VERIFY_P2SH = true → 0 <= amount →
  Sign.crypto_sign_keypair permute fuel seed = Some (pk, sk) →
  size ecdsa_pub = 33 → CPubKey ecdsa_pub = Some ecdsa_pub →
  let program := hybrid_program permute ecdsa_pub pk in
  CastToBool program = true →
  SignatureHash hashes (program_script 2 program) tx nIn SIGHASH_ALL amount WITNESS_V0 txdata = Ok sighash →
  verify_ecdsa ecdsa_pub sighash ecdsa_sig = true →
  Sign.crypto_sign_signature_ctx permute fuel attempts sighash CTX sk rnd = Some (inr sig) → (fuel <= fuel')%nat →
  let lib := node_lib permute fuel' verify_ecdsa verify_schnorr check_tweak in
  VerifyScript hashes lib flags (TransactionSignatureChecker hashes lib tx nIn amount txdata) []
    (program_script 2 program) [ecdsa_sig ++ [SIGHASH_ALL]; ecdsa_pub; sig; pk] = Ok tt.
Proof.
  intros Hw Hp Ha Hk Hs Hv program Hc Hh He Hm Hf lib.
  pose proof (generated_key_size _ _ _ _ _ Hk) as Hpk.
  apply SignFacts.keypair_spec in Hk as (rho & key & mat & t1 & t0 & s1 & s2 & Hk).
  destruct (SignFacts.sign_verify _ _ _ _ _ _ _ _ _ _ _ _ _ _ _ _ Hk Hm) as [Hok _].
  apply hybrid_iff; [done|done|apply hybrid_program_size|done|]. split; [done|].
  eexists _, _, _, _. split; [reflexivity|]. split; [done|done|].
  exists sighash, ecdsa_sig. split_and!; try done.
  apply bool_decide_eq_true_2. by eapply FuelFacts.verify_fuel.
Qed.

(** The library of the example: the permutation of [MldsaFacts], and ECDSA
    signatures that are always good. *)
Definition demo_pub : valtype := 2 :: replicate 32 9.
Definition demo_spend : CTransaction :=
  mkTx [mkTxIn (mkOutPoint (replicate 32 7) 1) [] 5 []] [mkTxOut 1000 [0x51]] 2 0.
Definition demo_program : valtype := hybrid_program Demo.constant_permutation demo_pub Demo.demo_pk.
Definition demo_node : sig_lib :=
  node_lib Demo.constant_permutation 1 (fun _ _ _ => true) (fun _ _ _ => true) (fun _ _ _ _ => true).

Lemma hybrid_output_spendable_witness :
  VerifyScript VerifyProps.demo_hashes demo_node VerifyProps.demo_flags
    (TransactionSignatureChecker VerifyProps.demo_hashes demo_node demo_spend 0 2000 None) []
    (program_script 2 demo_program) [[0x30; SIGHASH_ALL]; demo_pub; Demo.demo_sig; Demo.demo_pk] = Ok tt.
Proof.
  apply (hybrid_output_spendable Demo.constant_permutation 1 1 1 (fun _ _ _ => true) (fun _ _ _ => true)
           (fun _ _ _ _ => true) VerifyProps.demo_hashes VerifyProps.demo_flags demo_spend 0 2000 None
           Demo.demo_seed [] [0x30] demo_pub Demo.demo_pk Demo.demo_sk Demo.demo_sig (replicate 32 1));
    [reflexivity|reflexivity|lia|exact Demo.demo_keypair|reflexivity|reflexivity| | |reflexivity| |lia].
  - vm_compute. reflexivity.
  - vm_compute. reflexivity.
  - by apply Demo.demo_sign.
Defined.

End HybridProps.
